(* ===== verification/_CoqProject ===== *)
-Q . S2P
Prelude.v
Bytes.v
CryptoPrims.v
Crypto.v
Storage.v
StorageInv.v
Keychain.v
KeychainThy.v
Membership.v
MembershipThy.v
Authority.v
VaultOps.v
VaultThy.v
VaultEpochs.v
VaultAccess.v
AuthPayloads.v
SyncObject.v
SyncPull.v
SyncPullThy.v
SyncPush.v
SyncPushThy.v
SyncPushSpec.v
ServerCodec.v
ServerStore.v
ServerApi.v
ServerInv.v
ServerDelta.v
ServerAccess.v
ServerAudit.v
ServerSyslog.v
ServerSinks.v
AutoOutput.v
AutoText.v
BrokerState.v
Broker.v
BrokerInv.v
BrokerSteps.v
BrokerThy.v
BrokerQuota.v
BrokerEvict.v
Rotation.v
RotationThy.v
RotationLive.v
RotationShell.v
ServerAuth.v
ServerAuthInv.v
ServerAuthRun.v
ServerAuthThy.v
ServerAuthSess.v
ServerAuthRoles.v
ServerAuthRuns.v
PasswordFill.v
PasswordFillThy.v
PasswordPrompt.v
PasswordMask.v
PasswordRuns.v
SshConnect.v
SshConnectThy.v
SshProxy.v
SshProxyThy.v
SshSocks.v
SshRuns.v
