(* ===== verification/Prelude.v ===== *)
(** * UniSSH core: a verification development

    UniSSH keeps SSH credentials in end-to-end encrypted vaults on a device and
    synchronises them through servers it does not trust. This library models the
    Rust workspace [rust-core/crates] below its user interfaces (the formats
    of the crypto crate, the local database, the key hierarchy, the membership of
    shared vaults, the authority of records, the sync engine, the broker that
    runs commands for other programs, the guided rotation of a key, the filling of a
    saved password at a prompt and the making of SSH connections) and the part of the server they talk to ([server/src]: its codec, its object log and access
    tables, its sync and policy handlers, its audit log, its accounts, devices and
    sessions). Definitions
    carry the names of the source; they are executable, and the examples and
    witnesses evaluate them.

    ** Parts of the program and how they interact

    - crypto: associated data, AEAD and key-wrap framing, HPKE envelopes,
      signature messages. Called by every other crate.
    - storage: one SQLite database per device with vaults, items, item
      history, membership, pinned keys, audit log, cursors and dirty flags.
    - keychain: the account's keyset, encrypted under a key derived from the
      password, the Secret Key and the account id, with a generation floor.
    - vault: vault records and items sealed under a vault key; for shared
      vaults a chain of admin-signed manifests gives each epoch's members, and
      grants carry the vault key to them.
    - sync: a pull checks every object a server hands out against signatures,
      epoch floors and the authority chain before it writes; a push sends
      dirty rows in dependency order, in bounded requests, and remembers what
      the server refused.
    - server: an append-only log of the objects pushed, numbered across all
      accounts, tables of vaults, manifests and grants derived from it, and
      handlers that accept objects by signature and role and hand every reader
      the part of the log it may see, page by page; and a hash-chained log of
      what happened, delivered to sinks. Accounts enter it by claiming a fresh
      server, by an invite or through an identity provider; a device signs in by
      signing a challenge, and a session's access and refresh tokens rotate.
    - automation: a broker through which other programs (over MCP) run commands
      on the user's hosts. The user grants an integration some targets, for a
      time, with approval of each command or without; requests are answered under
      a state lock, threads connect and execute, and revoking raises the flags
      they look at before they act.
    - key rotation (ffi): a plan of the machines that authenticate with a key, and
      a run that brings a new key to each of them, proves it by a login, and only
      then removes the old one, with several machines worked on at once, some of
      them on the way to others.
    - password fill (ffi): a session that logged in with a saved password offers to type
      it when the output ends with a recognised prompt, remembers which passwords the
      remote refused, and masks the password in the output for a while.
    - ssh-transport: a connection goes to a host directly, through a proxy or from jump host
      to jump host; every host key is checked against the pinned one, or pinned on first
      use, before anything is sent to authenticate.

    The client's theorems hold against an arbitrary server; the server's are
    about the one in the repository, and say what its users additionally get
    from it.

    ** Files

    - [Prelude]: results, the state-and-error monad [M] with its notation,
      state relations kept by computations ([preserves]) with their hint
      database, generic lemmas.
    - [Bytes]: byte strings, Rust's slice order, big-endian integers at fixed
      width, limits of [u16], [u32], [u64] and [i64], the stable sort.
    - [CryptoPrims]: the third-party primitives as [Class CryptoPrims] and
      what the code relies on of them as [Class CryptoLaws]; module [Sample]
      is an instance of both, on which the witnesses run.
    - [Crypto]: [crypto/src/{version,aead,keywrap,hpke_seal,signature,
      domain_sig,kdf,keys,error}.rs].
    - [Storage], [StorageInv]: [storage/src/{records,store,error}.rs]. The
      state is the record [Storage], one finite map per table; every [pub fn]
      of the store that writes is a computation of [M Storage StorageError],
      and [transaction] discards the writes of a failed body.
    - [Keychain], [KeychainThy]: [keychain/src/{keyset,unlock,
      onboarding_floor,account,error}.rs].
    - [Membership], [MembershipThy]: [vault/src/{membership,error}.rs].
    - [Authority]: the free functions of [vault/src/vault.rs] that sign,
      read and authorise records ([verify_record_authority],
      [check_item_record], [build_vault_record_epoch] and so on).
    - [VaultOps], [VaultThy], [VaultEpochs], [VaultAccess]: the methods of the
      handle [Vault] of [vault/src/vault.rs]. [VaultOps] has the definitions;
      [VaultThy] the item operations and reads; [VaultEpochs] creation and the
      move to a new epoch (membership change, rotation); [VaultAccess] who
      opens, reads and writes, and the integrity report.
    - [SyncObject]: [sync/src/{object,error}.rs], the wire codec.
    - [SyncPull], [SyncPullThy]: the pull of [sync/src/engine.rs]; the
      transport is an arbitrary function of the number of calls made, so a
      server may answer anything at any time.
    - [SyncPush], [SyncPushThy], [SyncPushSpec]: the push of
      [sync/src/engine.rs] and [discard_unpushable]; the server is an
      arbitrary function of the requests before and the objects sent.
    - [AuthPayloads]: [crypto/src/{registration,server_auth}.rs],
      [keychain/src/server_auth.rs].
    - [ServerCodec]: [server/src/{codec,crypto}.rs] and
      [server/src/domain/{manifest,rbac}.rs], against the client's codec.
    - [ServerStore]: [server/src/store/{sync_repo,policy_repo}.rs] and what they
      use of [instance_repo.rs] and [accounts_repo.rs]. The state is the record
      [ServerDB], one finite map per table; a transaction is [atomically].
      Requests interleave between their transactions: [push_objects] is split
      where its transaction starts, [claim_vault] between its two statements, and
      [delta_page] takes the two states it reads.
    - [ServerApi]: the handlers [push], [delta], [grants_publish], [grants_get]
      of [server/src/modules/{sync,policy}.rs].
    - [ServerInv], [ServerDelta], [ServerAccess]: the server as a machine whose
      steps are the commits ([ServerEvent], [run_events]), its log and tables,
      its readers, and who reads and writes what.
    - [ServerAudit]: [server/src/store/audit_repo.rs],
      [server/src/modules/audit.rs], definitions and theorems.
    - [ServerSinks], [ServerSyslog]: [server/src/audit_sinks.rs] (the delivery
      state machine), [server/src/audit_sinks/syslog.rs].
    - [ServerAuth]: the handlers of [server/src/modules/{identity,instance,oidc,
      admin}.rs] and [server/src/http/extract.rs], with the statements of
      [server/src/store/{identity_repo,auth_repo,accounts_repo,admin_repo,
      invites_repo,instance_repo}.rs] they run ([sql_...]). A request is a program
      ([Prog]) that calls the clock, the random generator and the store; the server
      ([Server], [ServerStep], [step]) holds the tables and the requests under way,
      and a step is one call of one of them, so anything may happen between two
      calls of a request.
    - [ServerAuthInv]: what the calls of a request say about each other ([wp],
      [serve_ok]); [ServerAuthRun]: what each call changes and the induction over
      runs; [ServerAuthThy] (devices), [ServerAuthSess] (challenges and sessions),
      [ServerAuthRoles] (owners, key sets, invites): the theorems;
      [ServerAuthRuns]: runs on concrete requests.
    - [AutoOutput]: [automation/src/output.rs]. [AutoText]:
      [automation/src/working_directory.rs], the argument checks of
      [mcp/src/contract.rs], the dialog text of [automation/src/approval.rs].
    - [BrokerState]: the records of [automation/src/lib.rs] and the eviction of
      [automation/src/limits.rs]. [Broker]: [automation/src/{lib,access,
      approval}.rs]; each section that runs under the state lock or the admission
      gate is one definition, the answers of executor, clocks and random
      generator are an argument ([Env]).
    - [BrokerInv]: the broker with its threads and a log of what they do as a
      machine ([System], [BrokerEvent], [sys_step]) and the relation [keeps] that
      most steps satisfy; [BrokerSteps]: its invariant; [BrokerThy],
      [BrokerQuota], [BrokerEvict]: the theorems.
    - [Rotation]: [ffi/src/key_rotation_plan.rs], the rules of
      [ffi/src/key_usage.rs] and the connection types of [ffi/src/lib.rs]. A step is a
      program that asks for executions ([StepProg]); the driver is a machine
      ([RotationDriver], [DriverEvent], [driver_step]) in which any step that may
      start can start at any time, and the answers are arbitrary.
    - [RotationThy]: its invariant and the safety theorems; [RotationLive]: the plan,
      progress and termination; [RotationShell]: the commands as a shell reads them,
      pinned machines.
    - [PasswordFill]: [ffi/src/password_fill.rs], [write] and [fill_login_password] of
      [SshSession] and [FillSink] of [ffi/src/lib.rs]. The guard is the record
      [GuardState]; a session ([FillSession], [SessionEvent], [session_step]) also holds
      the calls of [fill_login_password] under way, and what leaves it is a list of
      [Effect]s. [PasswordFillThy]: when a password is typed; [PasswordPrompt]: which
      prompts are recognised; [PasswordMask]: what can be read of the password;
      [PasswordRuns]: runs on concrete events.
    - [SshConnect]: the connecting half of [ssh-transport/src/client.rs] ([connect],
      [connect_through], [trust_host_key], [authenticate] and what they call) and
      [error.rs]. The SSH library, the store of pins, the agents, proxies and the user are
      the record [World], whose answers depend on all that happened before; a computation
      extends the [Log] of calls and answers. Keys are [Class SshKeys]. [SshConnectThy]:
      what justifies each entry of the log.
    - [SshProxy]: [ssh-transport/src/proxy.rs] and [socks5_handshake] of [client.rs], on a
      [Stream] of bytes to read and bytes written, with the standard library's parsers of
      addresses. [SshProxyThy]: the handshakes as dialogues ([runs]); [SshSocks]: the texts
      of addresses, and both ends of SOCKS5; [SshRuns]: connections on concrete hosts.

    ** What the theorems show

    - Pull ([SyncPullThy]): an abstract specification [pull_write] says which
      single writes an object authorises; every handler and the whole loop
      refine it. It follows that no server can break the store's invariant,
      roll back a version, floor, manifest, audit entry or cursor, touch
      pins, anchors and other servers' slots, or change which rows are flagged for
      pushing. Further: the outcome of an item
      on every branch, termination, convergence of account states in any
      order, disjoint per-server keys.
    - Push ([SyncPushSpec]): what the server accepted is, in order, part of
      [push_plan], a function of the store; dirty flags are cleared only for
      rows accepted as they are; everything sent belongs to the server pushed
      to and, pushed in an account's name, passes the uncached authority
      check; a push ends, with every request within its bounds.
    - Authority ([Authority], [MembershipThy]): the executable checks are
      equivalent to declarative ones, [may_author] and the inductive [Trusted];
      chains are stable under later manifests; [add_member] extends them.
    - Vaults ([VaultThy], [VaultEpochs], [VaultAccess]): what is put is read
      back; only signed and authorised rows are read; deletion is final,
      renaming moves, replacing keeps the past version; a created vault opens;
      membership changes and rotations are atomic and keep every item, reach
      every remaining member and lock out everyone else; the write role of a
      handle and the integrity report say exactly what the authority check says;
      any sequence of calls keeps the store well formed.
    - Store ([StorageInv]): [store_wf] under every sequence of operations,
      versions never roll back, and exact specifications of purge, archive,
      binding and the audit log.
    - Key hierarchy ([KeychainThy]): create, unlock, change of password and
      migration fit together; the generation never rolls back.
    - Server ([ServerCodec]): its parser and its signature checks agree with the
      client's on every input. ([ServerInv]) Under every interleaving of commits
      the derived tables and the log describe each other, nothing recorded is
      lost, numbers are never reused or filled in late, and a push with an
      idempotency key takes effect once, also when its retries run concurrently. ([ServerDelta]) A page is exact within
      its limits, following the cursor misses and repeats nothing although the
      store moves, and at rest it ends with everything. ([ServerAccess]) The
      handlers refine the events; access rows are authentic; a push is held to
      the roles; a publication reaches every member and shuts out the rest.
      ([ServerAudit]) The audit log always verifies; what a verified log's head fixes
      is exactly everything but two columns' readings ([covered]); exports and listings
      are exact. ([ServerSinks]) A sink has
      acknowledged every row below its cursor, a retry sends the same batch, and a
      sink that answers catches up.
    - Who the server serves ([ServerAuthThy], [ServerAuthSess], [ServerAuthRoles]),
      for every interleaving of any requests with each other and with the janitor: a
      bearer token stands for a session its device opened by proving its key; a
      challenge opens one session and a refresh token is renewed once; after a
      device was revoked, or a session ended, nothing that starts later is served
      for it, also when a sign-in or a refresh was under way; the owner who claimed
      the server stays an active owner; key sets do not roll back; an invite admits
      one request, made by someone who administers what it is for, and none once it
      is revoked; what a request changes its bearer may change. The random generator
      is assumed not to repeat itself; where two tokens of a session must not share
      a hash the theorem says so.
    - Automation ([BrokerThy]): whatever interleaves, a command that reaches a
      connection is exactly one that was submitted, under a live grant for its
      target, approved where the grant asks for it; it runs at most once; nothing
      runs between suspending and resuming, and nothing of an integration once its
      access is forgotten. ([BrokerQuota], [BrokerEvict]) The ceilings on commands
      and output hold, and eviction drops no more than it must. ([AutoOutput]) No
      byte of output is lost or reordered up to the reported truncation, and pages
      cover it. ([AutoText]) A shell reads the generated script back to the values
      given; the dialog text determines the command.
    - Key rotation ([RotationThy]): an old key is removed only from a machine that
      took the new one in a login of its own; a machine that was sent the removal is
      passed as a jump host with the new key ever after; what is reported as
      switched, or as not locked out, has been shown. ([RotationLive]) The plan names
      every machine the key logs in to; a run cannot get stuck, since the id of a
      jump host is shorter than that of what is behind it, and it ends.
      ([RotationShell]) What is quoted comes back as one word, and a run restricted to
      pinned machines goes over no other.
    - Password fill ([PasswordFillThy]): a saved password is typed only for an offer that
      was told, at a prompt still at the end of the output, with nothing typed since;
      offers are filled once; a rejected password is not typed again. ([PasswordPrompt])
      The classifier accepts exactly three shapes of the line of the cursor.
      ([PasswordMask]) What is shown does not depend on the chunks of the output, is the
      output but for stars, and does not let the password be read, over output without
      escape sequences, in each stretch between two flushes of the idle timer, and as long
      as no unfinished reading grows over 4096 bytes ([echo_over_a_pause]: a password echoed
      with a pause in it is shown, as the source says).
    - Connections ([SshConnectThy]), provided the SSH library finishes a handshake only when
      the check of the host key accepted ([checks_keys]): credentials go only to the host
      they are for, once its key was checked; the jump hosts are followed in order; pins are
      never replaced by connecting, and by [trust_host_key] only with a key of the confirmed
      fingerprint; the verdict of a login with a key only is about that key. ([SshProxyThy],
      [SshSocks]) A proxy handshake succeeds exactly on the answers of its protocol and
      reads nothing of the tunnel; the SOCKS5 client and server understand each other.
    - Formats ([Crypto], [SyncObject], [KeychainThy], [MembershipThy]): round
      trips, injectivity of every signed or authenticated encoding, and
      separation of the signature protocols.

    Some lemmas record behaviour that differs from the comments or documents of
    the source: [server_deletes_live_item], [oversized_manifest_blocks_pull],
    [empty_label_pushes_unbound_vaults], [parse_accepts_repeated_member],
    [keywrap_context_collides],
    [archive_fails_audit_after_membership_change],
    [publish_admits_to_foreign_vault], [republished_item_may_be_stale],
    [push_accepts_foreign_author], [live_grants_lag_behind_publication],
    [truncated_log_verifies], [unsigned_entry_stored],
    [visible_keeps_tag_characters], [key_comment_reaches_csh],
    [sso_device_with_another_key], [repaint_reoffers], [repaint_rejects],
    [string_between_is_shown], [held_back_unseen], [destination_adds_headers],
    [eighth_round_unread].

    ** Bounds and fuel

    Integers are [N] with the source's range checks written out ([checked_version]
    against [i64::MAX], lengths against [u32::MAX], saturating additions).
    Loops that are not structural take fuel. [sync_pull] returns [None] when it
    runs out: [pull_terminates] gives an amount that suffices for every
    transport. The push reports [OutOfFuel]: [push_terminates_bounded] shows that
    the fuel computed from the queues is never used up. The server's sequence
    counter is an [N]: it does not wrap in the model. A reader of its pages takes
    fuel ([read_all]); one unit more than there are rows to read is enough. The
    revocation counter of the broker and the seconds of its clocks do not wrap;
    the loop over an output packet takes as much fuel as it has bytes, and each
    round consumes one at least. A rotation needs no fuel: its events are a list, and
    [rotation_ends] bounds the ones that do anything by sixteen for each target (four
    steps of a start, at most two executions and a record) and each retry. The loops over
    the output in [PasswordFill] ([lossy], [cut_at_jumps], [mask_loop], [spell]) take its
    length as fuel, or one more, and each round consumes a character at least; more fuel
    changes nothing ([mask_loop_fuel], [spell_app]). Offer numbers saturate at 2^64 - 1, as
    in the code. Keyboard-interactive takes the eight rounds of the source; four units print
    a segment of an IPv6 address, which has sixteen bits.

    ** What is not modelled

    The ciphers, curves, hashes and password hash themselves, random
    generation (fresh keys and nonces are arguments) and zeroisation; engine
    errors of SQLite, its schema migrations, the consistency report and the
    automation revision; the cloud HTTP client; the MCP listener, SSH agent,
    terminal, the rest of the FFI, command line and desktop client. Of the SSH transport,
    sessions, commands, SFTP, the forwarding of ports and of the agent, and the
    configuration parser; when deadlines pass is an answer of the world. Of a
    rotation, how the hosts of personal identities are resolved for its plan, the
    candidate key's place in the vault ([ffi/src/key_rotation.rs]) and what the
    scripts do on a machine; [to_lowercase] is an argument. Of the broker, the
    reports for the review screen, polling with a wait, and which connection slots
    are free (an argument of each step). Of password fill, the channel and the reading of
    the item (their answers are events) and the locks that order what the interface hears.
    Of the server,
    HTTP, JSON and base64, engine errors of its database, the I/O of the audit
    sinks, the verification of an identity token (an argument), attestations, the
    listings and statistics of the administration, the rotation of the setup code,
    and everything about spaces, escrow sign-in, vault metadata and pending actions:
    in [ServerAuth] the environment answers what a request asks about them, and for
    [ServerStore] the account directory changes arbitrarily. Times there are
    integers of any size.

    ** Order of the work

    Formats, store, key hierarchy, membership, authority and sync come first
    since every guarantee against a server rests on them, then the operations
    of the vault handle, then the server's log, access tables and handlers, its
    audit log, the automation broker, the rotation of keys, the server's accounts
    and sessions, password fill, and SSH connections. What is left: spaces and pending actions of the server, the cloud
    client, the vault side of a rotation, installing a transferred keyset and the
    consistency report. *)

From Stdlib Require Import Strings.Byte NArith ZArith Lia.
From stdpp Require Import base gmap sets list strings sorting countable.

#[global] Set Default Goal Selector "!".

Declare Scope unissh_scope.
Delimit Scope unissh_scope with unissh.

(** ** Results: Rust's [Result<T, E>] *)

Inductive result (E A : Type) : Type :=
| Ok (a : A)
| Err (e : E).
Arguments Ok {E A} a.
Arguments Err {E A} e.

#[global] Instance result_ret {E} : MRet (result E) := fun A a => Ok a.
#[global] Instance result_bind {E} : MBind (result E) := fun A B f r =>
  match r with Ok a => f a | Err e => Err e end.
#[global] Instance result_fmap {E} : FMap (result E) := fun A B f r =>
  match r with Ok a => Ok (f a) | Err e => Err e end.

#[global] Instance result_eq_dec `{EqDecision E, EqDecision A} :
  EqDecision (result E A).
Proof. solve_decision. Defined.

Definition is_ok {E A} (r : result E A) : bool :=
  match r with Ok _ => true | Err _ => false end.
Definition is_err {E A} (r : result E A) : bool := negb (is_ok r).

(** [Option::ok_or] *)
Definition ok_or {E A} (o : option A) (e : E) : result E A :=
  match o with Some a => Ok a | None => Err e end.

(** [Result::map_err] *)
Definition map_err {E E' A} (f : E -> E') (r : result E A) : result E' A :=
  match r with Ok a => Ok a | Err e => Err (f e) end.

(** [Result::unwrap_or_default] at a vector type *)
Definition unwrap_or {E A} (d : A) (r : result E A) : A :=
  match r with Ok a => a | Err _ => d end.

(** [if cond { return Err(e) }] *)
Definition guard {E} (cond : bool) (e : E) : result E unit :=
  if cond then Ok tt else Err e.

#[global] Instance Ok_inj {E A} : Inj (=) (=) (@Ok E A).
Proof. by intros a b [= ->]. Qed.

Section result_lemmas.
Context {E A B : Type}.

Lemma bind_Ok (r : result E A) (f : A -> result E B) b :
  r ≫= f = Ok b <-> exists a, r = Ok a /\ f a = Ok b.
Proof. destruct r; simpl; naive_solver. Qed.

Lemma bind_Err (r : result E A) (f : A -> result E B) e :
  r ≫= f = Err e <-> r = Err e \/ exists a, r = Ok a /\ f a = Err e.
Proof. destruct r; simpl; naive_solver. Qed.

Lemma ok_or_Ok (o : option A) (e : E) a : ok_or o e = Ok a <-> o = Some a.
Proof. destruct o; simpl; naive_solver. Qed.

Lemma map_err_Ok {E'} (f : E -> E') (r : result E A) a :
  map_err f r = Ok a <-> r = Ok a.
Proof. destruct r; simpl; naive_solver. Qed.

Lemma guard_Ok (c : bool) (e : E) u : guard c e = Ok u <-> c = true.
Proof. destruct c, u; simpl; naive_solver. Qed.

Lemma is_ok_true (r : result E A) : is_ok r = true <-> exists a, r = Ok a.
Proof. destruct r; simpl; naive_solver. Qed.

Lemma is_err_false (r : result E A) : is_err r = false <-> exists a, r = Ok a.
Proof. destruct r; simpl; naive_solver. Qed.
End result_lemmas.

(** Takes a hypothesis [c1 ≫= ... = Ok r] apart, step by step. *)
Ltac bind_inv H :=
  lazymatch type of H with
  | _ ≫= _ = Ok _ =>
      let a := fresh "a" in let H1 := fresh H in let H2 := fresh H in
      apply bind_Ok in H as (a & H1 & H2); simpl in H2; bind_inv H2
  | _ => idtac
  end.

(** ** State-and-error computations

    A Rust function that takes [&Storage] and returns [Result<T, E>] runs
    statements one after another; an early return keeps what was written
    before it. So a computation maps a state to a result AND a state. *)

Definition M (S E A : Type) : Type := S -> result E A * S.

#[global] Instance M_ret {S E} : MRet (M S E) := fun A a s => (Ok a, s).
#[global] Instance M_bind {S E} : MBind (M S E) := fun A B f m s =>
  match m s with
  | (Ok a, s') => f a s'
  | (Err e, s') => (Err e, s')
  end.

Definition throw {S E A} (e : E) : M S E A := fun s => (Err e, s).
Definition get_state {S E} : M S E S := fun s => (Ok s, s).
Definition modify {S E} (f : S -> S) : M S E unit := fun s => (Ok tt, f s).
(** a read-only fallible query *)
Definition query {S E A} (f : S -> result E A) : M S E A := fun s => (f s, s).
Definition lift_result {S E A} (r : result E A) : M S E A := fun s => (r, s).
(** [?] with a conversion [From<E1> for E2] *)
Definition err_into {S E E' A} (f : E -> E') (m : M S E A) : M S E' A :=
  fun s => let '(r, s') := m s in (map_err f r, s').

(** A database transaction (or, nested, a savepoint): an error undoes the
    writes of the body, success keeps them. *)
Definition atomically {S E A} (m : M S E A) : M S E A := fun s =>
  match m s with
  | (Ok a, s') => (Ok a, s')
  | (Err e, _) => (Err e, s)
  end.

Section state_lemmas.
Context {S E A B : Type}.

Lemma M_bind_Ok (m : M S E A) (f : A -> M S E B) s b s' :
  (m ≫= f) s = (Ok b, s') <->
  exists a s1, m s = (Ok a, s1) /\ f a s1 = (Ok b, s').
Proof.
  unfold mbind, M_bind. destruct (m s) as [[a|e] s1]; naive_solver.
Qed.

Lemma M_bind_run (m : M S E A) (f : A -> M S E B) s r s' :
  (m ≫= f) s = (r, s') <->
  (exists a s1, m s = (Ok a, s1) /\ f a s1 = (r, s')) \/
  (exists e, m s = (Err e, s') /\ r = Err e).
Proof.
  unfold mbind, M_bind. destruct (m s) as [[a|e] s1]; naive_solver.
Qed.

Lemma run_fst (m : M S E A) s r : (m s).1 = r -> m s = (r, (m s).2).
Proof. by destruct (m s) as [r' s']; simpl; intros ->. Qed.

(** the same, for a result known through [f] only *)
Lemma run_ok (f : A -> B) (m : M S E A) s b :
  match (m s).1 with Ok a => Some (f a) | Err _ => None end = Some b ->
  exists a, f a = b /\ m s = (Ok a, (m s).2).
Proof. destruct (m s) as [[a|e] s']; simpl; [intros [= <-]; eauto|done]. Qed.

Lemma atomically_Err (m : M S E A) s e s' :
  atomically m s = (Err e, s') -> s' = s.
Proof.
  unfold atomically. destruct (m s) as [[a|e'] s1]; naive_solver.
Qed.

Lemma atomically_Ok (m : M S E A) s a s' :
  atomically m s = (Ok a, s') <-> m s = (Ok a, s').
Proof.
  unfold atomically. destruct (m s) as [[a'|e'] s1]; naive_solver.
Qed.
End state_lemmas.

(** [m] moves the state only along the relation [R], whatever it returns. *)
Definition preserves {S E A} (R : S -> S -> Prop) (m : M S E A) : Prop :=
  forall s r s', m s = (r, s') -> R s s'.

Create HintDb unissh discriminated.
#[export] Hint Constants Opaque : unissh.

Section preserves_lemmas.
Context {S E : Type} (R : S -> S -> Prop) `{!PreOrder R}.

Lemma preserves_ret {A} (a : A) : preserves R (mret a : M S E A).
Proof. intros s r s' [= <- <-]. reflexivity. Qed.
Lemma preserves_throw {A} (e : E) : preserves R (throw e : M S E A).
Proof. intros s r s' [= <- <-]. reflexivity. Qed.
Lemma preserves_query {A} (f : S -> result E A) : preserves R (query f).
Proof. intros s r s' [= <- <-]. reflexivity. Qed.
Lemma preserves_get : preserves R (get_state : M S E S).
Proof. intros s r s' [= <- <-]. reflexivity. Qed.
Lemma preserves_lift {A} (x : result E A) : preserves R (lift_result x : M S E A).
Proof. intros s r s' [= <- <-]. reflexivity. Qed.
Lemma preserves_modify (f : S -> S) :
  (forall s, R s (f s)) -> preserves R (modify f : M S E unit).
Proof. intros Hf s r s' [= <- <-]. apply Hf. Qed.
Lemma preserves_bind {A B} (m : M S E A) (f : A -> M S E B) :
  preserves R m -> (forall a, preserves R (f a)) -> preserves R (m ≫= f).
Proof.
  intros Hm Hf s r s' [(a & s1 & H1 & H2)|(e & H1 & ->)]%M_bind_run.
  - etrans; [eapply Hm|eapply Hf]; done.
  - by eapply Hm.
Qed.
Lemma preserves_atomically {A} (m : M S E A) :
  preserves R m -> preserves R (atomically m).
Proof.
  intros Hm s r s'. unfold atomically.
  destruct (m s) as [[a|e] s1] eqn:Hms; intros [= <- <-];
    [by eapply Hm|reflexivity].
Qed.
Lemma preserves_err_into {E' A} (f : E -> E') (m : M S E A) :
  preserves R m -> preserves R (err_into f m).
Proof.
  intros Hm s r s'. unfold err_into.
  destruct (m s) as [r1 s1] eqn:Hms; intros [= <- <-]. by eapply Hm.
Qed.
Lemma preserves_if {A} (b : bool) (m1 m2 : M S E A) :
  preserves R m1 -> preserves R m2 -> preserves R (if b then m1 else m2).
Proof. by destruct b. Qed.
End preserves_lemmas.
#[export] Hint Resolve preserves_ret preserves_throw preserves_query
  preserves_get preserves_lift preserves_atomically preserves_err_into
  preserves_if : unissh.

(** [for x in xs { body }] with an early return on error *)
Fixpoint for_each {S E A} (xs : list A) (body : A -> M S E unit) : M S E unit :=
  match xs with
  | [] => mret tt
  | x :: xs' => body x ≫= fun _ => for_each xs' body
  end.

Lemma preserves_for_each {S E A} (R : S -> S -> Prop) `{!PreOrder R}
    (xs : list A) (body : A -> M S E unit) :
  (forall x, preserves R (body x)) -> preserves R (for_each xs body).
Proof.
  intros Hb. induction xs as [|x xs IH]; simpl.
  - by apply preserves_ret.
  - by apply preserves_bind.
Qed.

(** [for x in xs { acc = body(acc, x)? }] *)
Fixpoint fold_each {S E A B} (xs : list A) (acc : B) (body : B -> A -> M S E B)
    : M S E B :=
  match xs with
  | [] => mret acc
  | x :: xs' => body acc x ≫= fun acc' => fold_each xs' acc' body
  end.

Lemma preserves_fold_each {S E A B} (R : S -> S -> Prop) `{!PreOrder R}
    (xs : list A) (acc : B) (body : B -> A -> M S E B) :
  (forall b x, preserves R (body b x)) -> preserves R (fold_each xs acc body).
Proof.
  intros Hb. revert acc. induction xs as [|x xs IH]; simpl; intros acc.
  - by apply preserves_ret.
  - apply preserves_bind; auto.
Qed.

(** [xs.iter().map(f).collect::<Result<Vec<_>, _>>()] *)
Fixpoint traverse {E A B} (f : A -> result E B) (xs : list A) : result E (list B) :=
  match xs with
  | [] => Ok []
  | x :: xs' => b ← f x; bs ← traverse f xs'; Ok (b :: bs)
  end.

(** ** Filtering *)

Lemma filter_all {A} (P : A -> Prop) `{!forall x, Decision (P x)} (l : list A) :
  Forall P l -> filter P l = l.
Proof. induction 1; [done|]. rewrite filter_cons_True by done. by f_equal. Qed.

Lemma filter_none {A} (P : A -> Prop) `{!forall x, Decision (P x)} (l : list A) :
  Forall (fun x => ~ P x) l -> filter P l = [].
Proof. induction 1; [done|]. by rewrite filter_cons_False by done. Qed.

Lemma filter_ext_in {A} (Q R : A -> Prop) `{forall x, Decision (Q x), forall x, Decision (R x)} (l : list A) :
  (forall x, x ∈ l -> Q x <-> R x) -> filter Q l = filter R l.
Proof.
  induction l as [|x l IH]; intros Hqr; [done|]. rewrite !filter_cons, IH by set_solver.
  destruct (Hqr x ltac:(by left)). by do 2 case_decide; try tauto.
Qed.

