(* ===== verification/Bytes.v ===== *)
(** * Bytes, machine integers and sorted listings

    Shared by every component: byte strings ([Vec<u8>]) with decidable
    equality, countability and Rust's lexicographic slice order; big-endian
    codecs at fixed width ([to_be_bytes]/[from_be_bytes]); the integer limits
    of [u16], [u32], [u64] and [i64]; a stable sort ([sort_by],
    [sort_by_cached_key], SQL's [ORDER BY]). *)

From Stdlib Require Import Strings.Byte NArith ZArith Lia.
From stdpp Require Import base gmap sets list strings sorting countable.
From S2P Require Import Prelude.

Local Open Scope N_scope.

(** ** Machine integers

    [u16]/[u32]/[u64] are [N] below the bound, [i64] is [Z]. *)

Definition u8_max : N := 255.
Definition u16_max : N := 65535.
Definition u32_max : N := 4294967295.
Definition u64_max : N := 18446744073709551615.
Definition i64_max : N := 9223372036854775807.

(** [u64::saturating_add] *)
Definition sat_add64 (a b : N) : N := N.min u64_max (a + b).
(** [u64::checked_add] *)
Definition checked_add64 (a b : N) : option N :=
  if a + b <=? u64_max then Some (a + b) else None.

Definition len {A} (l : list A) : N := N.of_nat (length l).

Lemma len_app {A} (l k : list A) : len (l ++ k) = len l + len k.
Proof. unfold len. rewrite length_app. lia. Qed.

(** ** Bytes *)

Abbreviation bytes := (list byte).

#[global] Instance byte_eq_dec : EqDecision byte := Byte.byte_eq_dec.
#[global] Instance byte_countable : Countable byte :=
  inj_countable Byte.to_N Byte.of_N Byte.of_to_N.

(** a byte-string literal [b"..."] *)
Definition lit (s : string) : bytes := String.list_byte_of_string s.

Definition byte_of_N (n : N) : byte := default x00 (Byte.of_N (n mod 256)).

Lemma to_N_byte_of_N n : Byte.to_N (byte_of_N n) = n mod 256.
Proof.
  unfold byte_of_N.
  assert (n mod 256 < 256) by (apply N.mod_lt; lia).
  destruct (Byte.of_N (n mod 256)) as [b|] eqn:E; simpl.
  - by apply Byte.to_of_N.
  - apply Byte.of_N_None_iff in E. lia.
Qed.

Lemma byte_of_N_to_N b : byte_of_N (Byte.to_N b) = b.
Proof.
  unfold byte_of_N. rewrite N.mod_small.
  - by rewrite Byte.of_to_N.
  - pose proof (Byte.to_N_bounded b). lia.
Qed.

Lemma to_N_bound b : Byte.to_N b < 256.
Proof. pose proof (Byte.to_N_bounded b). lia. Qed.

#[global] Instance to_N_inj : Inj (=) (=) Byte.to_N.
Proof. intros b1 b2 H. by rewrite <-(byte_of_N_to_N b1), H, byte_of_N_to_N. Qed.

(** ** Big-endian integers *)

(** [n] as exactly [w] bytes, most significant first *)
Fixpoint be_encode (w : nat) (n : N) : bytes :=
  match w with
  | O => []
  | S w' => be_encode w' (n / 256) ++ [byte_of_N n]
  end.

Definition be_decode (bs : bytes) : N :=
  foldl (fun acc b => acc * 256 + Byte.to_N b) 0 bs.

Definition u16_be (n : N) : bytes := be_encode 2 n.
Definition u32_be (n : N) : bytes := be_encode 4 n.
Definition u64_be (n : N) : bytes := be_encode 8 n.

(** two's complement: [i64::to_be_bytes] and [i64::from_be_bytes] *)
Definition i64_be (z : Z) : bytes := u64_be (Z.to_N (z mod 2 ^ 64)).
Definition i64_of_u64 (n : N) : Z :=
  if n <=? i64_max then Z.of_N n else (Z.of_N n - 2 ^ 64)%Z.

Lemma length_be_encode w n : length (be_encode w n) = w.
Proof.
  revert n; induction w as [|w IH]; intros n; simpl; [done|].
  rewrite length_app, IH. simpl. lia.
Qed.

Lemma be_decode_snoc bs b : be_decode (bs ++ [b]) = be_decode bs * 256 + Byte.to_N b.
Proof. unfold be_decode. by rewrite foldl_app. Qed.

Lemma be_decode_encode w n : be_decode (be_encode w n) = n mod 256 ^ N.of_nat w.
Proof.
  revert n; induction w as [|w IH]; intros n; simpl be_encode.
  - by rewrite N.mod_1_r.
  - rewrite be_decode_snoc, IH, to_N_byte_of_N.
    rewrite Nat2N.inj_succ, N.pow_succ_r'.
    rewrite N.Div0.mod_mul_r. lia.
Qed.

Lemma be_decode_bound bs : be_decode bs < 256 ^ len bs.
Proof.
  induction bs as [|b bs IH] using rev_ind; [done|].
  rewrite be_decode_snoc. unfold len in *.
  rewrite length_app; simpl.
  replace (N.of_nat (length bs + 1)) with (N.succ (N.of_nat (length bs))) by lia.
  rewrite N.pow_succ_r'. pose proof (to_N_bound b). nia.
Qed.

Lemma be_encode_decode bs : be_encode (length bs) (be_decode bs) = bs.
Proof.
  induction bs as [|b bs IH] using rev_ind; [done|].
  rewrite length_app, Nat.add_comm, be_decode_snoc. cbn [length Nat.add be_encode].
  pose proof (to_N_bound b) as Hb.
  assert ((be_decode bs * 256 + Byte.to_N b) / 256 = be_decode bs) as ->.
  { symmetry. apply (N.div_unique _ _ _ (Byte.to_N b)); lia. }
  rewrite IH. do 2 f_equal.
  apply (inj Byte.to_N). rewrite to_N_byte_of_N.
  symmetry. apply (N.mod_unique _ _ (be_decode bs)); lia.
Qed.

Lemma be_encode_inj w a b :
  a < 256 ^ N.of_nat w -> b < 256 ^ N.of_nat w ->
  be_encode w a = be_encode w b -> a = b.
Proof.
  intros Ha Hb H%(f_equal be_decode). rewrite !be_decode_encode in H.
  by rewrite !N.mod_small in H.
Qed.

Lemma length_u16_be n : length (u16_be n) = 2%nat.
Proof. apply length_be_encode. Qed.
Lemma length_u32_be n : length (u32_be n) = 4%nat.
Proof. apply length_be_encode. Qed.
Lemma length_u64_be n : length (u64_be n) = 8%nat.
Proof. apply length_be_encode. Qed.
Lemma length_i64_be z : length (i64_be z) = 8%nat.
Proof. apply length_be_encode. Qed.

Lemma u16_decode n : n <= u16_max -> be_decode (u16_be n) = n.
Proof.
  intros H. unfold u16_be. rewrite be_decode_encode. apply N.mod_small.
  unfold u16_max in H. change (256 ^ N.of_nat 2) with 65536. lia.
Qed.
Lemma u32_decode n : n <= u32_max -> be_decode (u32_be n) = n.
Proof.
  intros H. unfold u32_be. rewrite be_decode_encode. apply N.mod_small.
  unfold u32_max in H. change (256 ^ N.of_nat 4) with 4294967296. lia.
Qed.
Lemma u64_decode n : n <= u64_max -> be_decode (u64_be n) = n.
Proof.
  intros H. unfold u64_be. rewrite be_decode_encode. apply N.mod_small.
  unfold u64_max in H. change (256 ^ N.of_nat 8) with 18446744073709551616. lia.
Qed.
Lemma i64_decode z :
  (- 2 ^ 63 <= z < 2 ^ 63)%Z -> i64_of_u64 (be_decode (i64_be z)) = z.
Proof.
  intros H. unfold i64_be.
  pose proof (Z.mod_pos_bound z (2 ^ 64) ltac:(lia)) as Hb.
  rewrite u64_decode by (unfold u64_max; lia).
  unfold i64_of_u64. rewrite Z2N.id by lia.
  destruct (decide (0 <= z)%Z).
  - rewrite Z.mod_small in * by lia.
    replace (_ <=? _) with true; [done|]. symmetry. apply N.leb_le.
    unfold i64_max. lia.
  - assert (z mod 2 ^ 64 = z + 2 ^ 64)%Z as ->.
    { symmetry. apply (Z.mod_unique_pos _ _ (-1)); lia. }
    replace (_ <=? _) with false; [lia|]. symmetry. apply N.leb_gt.
    unfold i64_max. lia.
Qed.

Lemma u64_be_inj a b : a <= u64_max -> b <= u64_max -> u64_be a = u64_be b -> a = b.
Proof. intros Ha Hb H. by rewrite <-(u64_decode a), H, u64_decode. Qed.
Lemma u16_be_inj a b : a <= u16_max -> b <= u16_max -> u16_be a = u16_be b -> a = b.
Proof. intros Ha Hb H. by rewrite <-(u16_decode a), H, u16_decode. Qed.

(** Splitting two concatenations whose heads have the same width. *)
Lemma app_inj_len {A} (a b c d : list A) :
  length a = length c -> a ++ b = c ++ d -> a = c /\ b = d.
Proof. intros Hl H. by apply app_inj_1. Qed.

(** A [u16]-length-prefixed field followed by anything can be read back. *)
Lemma prefixed16_inj a b r s :
  len a <= u16_max -> len b <= u16_max ->
  u16_be (len a) ++ a ++ r = u16_be (len b) ++ b ++ s -> a = b /\ r = s.
Proof.
  intros Ha Hb H.
  apply app_inj_len in H as [Hl H]; [|by rewrite !length_u16_be].
  apply u16_be_inj in Hl; [|done..].
  apply app_inj_len; [unfold len in Hl; lia|done].
Qed.

(** ** Lexicographic order of byte slices ([Ord for [u8]], BLOB order) *)

Fixpoint bytes_leb (a b : bytes) : bool :=
  match a, b with
  | [], _ => true
  | _ :: _, [] => false
  | x :: a', y :: b' =>
      (Byte.to_N x <? Byte.to_N y)
      || ((Byte.to_N x =? Byte.to_N y) && bytes_leb a' b')
  end.

Definition bytes_le (a b : bytes) : Prop := bytes_leb a b = true.

Lemma bytes_leb_refl a : bytes_leb a a = true.
Proof. induction a as [|x a IH]; simpl; [done|]. by rewrite N.eqb_refl, IH, orb_true_r. Qed.

Lemma bytes_leb_trans a b c :
  bytes_leb a b = true -> bytes_leb b c = true -> bytes_leb a c = true.
Proof.
  revert b c; induction a as [|x a IH]; intros [|y b] [|z c]; simpl; try done.
  rewrite !orb_true_iff, !andb_true_iff, !N.ltb_lt, !N.eqb_eq.
  intros [?|[? ?]] [?|[? ?]]; [left; lia..|right].
  split; [lia|by eapply IH].
Qed.

Lemma bytes_leb_total a b : bytes_leb a b = true \/ bytes_leb b a = true.
Proof.
  revert b; induction a as [|x a IH]; intros [|y b]; simpl; auto.
  rewrite !orb_true_iff, !andb_true_iff, !N.ltb_lt, !N.eqb_eq.
  destruct (N.lt_trichotomy (Byte.to_N x) (Byte.to_N y)) as [?|[?|?]]; auto.
  destruct (IH b); auto.
Qed.

Lemma bytes_leb_antisym a b :
  bytes_leb a b = true -> bytes_leb b a = true -> a = b.
Proof.
  revert b; induction a as [|x a IH]; intros [|y b]; simpl; try done.
  rewrite !orb_true_iff, !andb_true_iff, !N.ltb_lt, !N.eqb_eq.
  intros [?|[? ?]] [?|[? ?]]; try lia.
  f_equal; [by apply (inj Byte.to_N)|by apply IH].
Qed.

#[global] Instance bytes_le_dec : RelDecision bytes_le.
Proof. intros a b. unfold bytes_le. apply _. Defined.
#[global] Instance bytes_le_preorder : PreOrder bytes_le.
Proof.
  split; [intros a; apply bytes_leb_refl|intros a b c; apply bytes_leb_trans].
Qed.
#[global] Instance bytes_le_total : Total bytes_le.
Proof. intros a b. apply bytes_leb_total. Qed.
#[global] Instance bytes_le_antisymm : AntiSymm (=) bytes_le.
Proof. intros a b. apply bytes_leb_antisym. Qed.

(** ** Stable sorting by a comparison ([slice::sort_by], [ORDER BY]) *)

Section stable_sort.
Context {A : Type} (leb : A -> A -> bool).

Fixpoint sort_insert (x : A) (l : list A) : list A :=
  match l with
  | [] => [x]
  | y :: l' => if leb x y then x :: y :: l' else y :: sort_insert x l'
  end.

Definition stable_sort (l : list A) : list A := foldr sort_insert [] l.

Lemma sort_insert_perm x l : sort_insert x l ≡ₚ x :: l.
Proof.
  induction l as [|y l IH]; simpl; [done|].
  destruct (leb x y); [done|]. rewrite IH. by constructor.
Qed.

Lemma stable_sort_perm l : stable_sort l ≡ₚ l.
Proof.
  induction l as [|x l IH]; simpl; [done|].
  by rewrite sort_insert_perm, IH.
Qed.

Definition leb_rel (x y : A) : Prop := leb x y = true.

Context (leb_total : forall x y, leb x y = true \/ leb y x = true).
Context (leb_trans : forall x y z,
  leb x y = true -> leb y z = true -> leb x z = true).

Lemma sort_insert_sorted x l :
  StronglySorted leb_rel l -> StronglySorted leb_rel (sort_insert x l).
Proof.
  induction 1 as [|y l Hl IH Hy]; simpl.
  - by repeat constructor.
  - destruct (leb x y) eqn:Hxy.
    + constructor; [by constructor|]. constructor; [done|].
      eapply Forall_impl; [|exact Hy]. intros z Hz. by eapply leb_trans.
    + constructor; [done|]. rewrite sort_insert_perm. constructor; [|done].
      unfold leb_rel. destruct (leb_total x y); congruence.
Qed.

Lemma stable_sort_sorted l : StronglySorted leb_rel (stable_sort l).
Proof.
  induction l as [|x l IH]; simpl; [constructor|by apply sort_insert_sorted].
Qed.

Lemma sort_insert_min x l :
  Forall (leb_rel x) l -> sort_insert x l = x :: l.
Proof. destruct 1; simpl; [done|]. by rewrite H. Qed.

(** sorting what is already sorted changes nothing *)
Lemma stable_sort_id l : StronglySorted leb_rel l -> stable_sort l = l.
Proof.
  induction 1 as [|x l Hl IH Hx]; simpl; [done|].
  rewrite IH. by apply sort_insert_min.
Qed.
End stable_sort.

(** Two sorted permutations are equal when ties only happen between equal
    elements of the list. *)
Lemma sorted_perm_unique {A} (leb : A -> A -> bool) (l k : list A) :
  (forall x y, x ∈ l -> y ∈ l -> leb x y = true -> leb y x = true -> x = y) ->
  StronglySorted (leb_rel leb) l -> StronglySorted (leb_rel leb) k ->
  l ≡ₚ k -> l = k.
Proof.
  intros Hanti Hl. revert k Hanti. induction Hl as [|x l Hl IH Hx]; intros k Hanti Hk Hp.
  - by apply Permutation_nil_l in Hp.
  - destruct Hk as [|y k Hk Hy].
    { symmetry in Hp. by apply Permutation_nil_cons in Hp. }
    rewrite list.Forall_forall in Hx. rewrite list.Forall_forall in Hy.
    assert (x = y) as ->.
    { assert (x ∈ y :: k) as Hin by (rewrite <-Hp; by left).
      assert (y ∈ x :: l) as Hin' by (rewrite Hp; by left).
      apply elem_of_cons in Hin as [->|Hin]; [done|].
      apply elem_of_cons in Hin' as [->|Hin']; [done|].
      apply Hanti; [by left|by right|by apply Hx|by apply Hy]. }
    f_equal. apply IH; [|done|by apply Permutation_cons_inv in Hp].
    intros a b Ha Hb. apply Hanti; by right.
Qed.

(** Rows of a keyed table in the order of a derived key. *)
Definition sort_on {A} (key : A -> bytes) (l : list A) : list A :=
  stable_sort (fun x y => bytes_leb (key x) (key y)) l.

Lemma sort_on_perm {A} (key : A -> bytes) (l : list A) : sort_on key l ≡ₚ l.
Proof. apply stable_sort_perm. Qed.

Lemma elem_of_sort_on {A} (key : A -> bytes) (l : list A) x :
  x ∈ sort_on key l <-> x ∈ l.
Proof. by rewrite sort_on_perm. Qed.
