(* ===== verification/CryptoPrims.v ===== *)
(** * The cryptographic primitives as an interface

    The third-party crates the crypto crate calls (sha2, ed25519-dalek,
    chacha20poly1305, hpke, argon2, hkdf) are not part of the repository.
    [CryptoPrims] is the operations the source uses of them, [CryptoLaws] the
    documented behaviour it relies on. Theorems are proved against the
    interface. Module [Sample] is one concrete instance that satisfies the
    laws; the examples evaluate on it. *)

From Stdlib Require Import Strings.Byte NArith ZArith Lia.
From stdpp Require Import base gmap sets list strings sorting countable.
From S2P Require Import Prelude Bytes.

Local Open Scope N_scope.

(** ** The primitives *)

Class CryptoPrims := {
  sha256 : bytes -> bytes;
  (* ed25519-dalek *)
  ed_sk : Type;
  ed_pk : Type;
  ed_public : ed_sk -> ed_pk;
  ed_pk_of_bytes : bytes -> option ed_pk;
  ed_pk_to_bytes : ed_pk -> bytes;
  ed_sk_of_seed : bytes -> ed_sk;
  ed_sk_to_bytes : ed_sk -> bytes;
  ed_sign : ed_sk -> bytes -> bytes;
  ed_verify_strict : ed_pk -> bytes -> bytes -> bool;
  (* chacha20poly1305: key, nonce, associated data, text *)
  xchacha_encrypt : bytes -> bytes -> bytes -> bytes -> option bytes;
  xchacha_decrypt : bytes -> bytes -> bytes -> bytes -> option bytes;
  (* hpke, DHKEM(X25519, HKDF-SHA256) + ChaCha20-Poly1305, base mode *)
  x_sk : Type;
  x_pk : Type;
  x_public : x_sk -> x_pk;
  x_pk_of_bytes : bytes -> option x_pk;
  x_pk_to_bytes : x_pk -> bytes;
  x_sk_of_bytes : bytes -> option x_sk;
  x_sk_to_bytes : x_sk -> bytes;
  hpke_enc_ok : bytes -> bool;
  hpke_seal : x_pk -> bytes -> bytes -> bytes -> bytes -> option (bytes * bytes);
  hpke_open : x_sk -> bytes -> bytes -> bytes -> bytes -> option bytes;
  (* argon2: password, memory, iterations, lanes, salt *)
  argon2id : bytes -> N -> N -> N -> bytes -> option bytes;
  (* hkdf: salt, input key material, info -> 32 bytes *)
  hkdf_sha256 : bytes -> bytes -> bytes -> bytes
}.

(** Documented behaviour of those crates. *)
Class CryptoLaws (P : CryptoPrims) := {
  sha256_len : forall m, length (sha256 m) = 32%nat;
  ed_pk_bytes : forall sk,
    ed_pk_of_bytes (ed_pk_to_bytes (ed_public sk)) = Some (ed_public sk);
  ed_pk_len : forall pk, length (ed_pk_to_bytes pk) = 32%nat;
  ed_sk_bytes : forall sk, ed_sk_of_seed (ed_sk_to_bytes sk) = sk;
  ed_sk_len : forall sk, length (ed_sk_to_bytes sk) = 32%nat;
  ed_sig_len : forall sk m, length (ed_sign sk m) = 64%nat;
  ed_sign_verify : forall sk m, ed_verify_strict (ed_public sk) m (ed_sign sk m) = true;
  xchacha_len : forall k n a m c,
    xchacha_encrypt k n a m = Some c -> length c = (length m + 16)%nat;
  xchacha_open_seal : forall k n a m c,
    xchacha_encrypt k n a m = Some c -> xchacha_decrypt k n a c = Some m;
  x_sk_bytes : forall sk, x_sk_of_bytes (x_sk_to_bytes sk) = Some sk;
  x_sk_len : forall sk, length (x_sk_to_bytes sk) = 32%nat;
  x_pk_bytes : forall sk,
    x_pk_of_bytes (x_pk_to_bytes (x_public sk)) = Some (x_public sk);
  x_pk_len : forall pk, length (x_pk_to_bytes pk) = 32%nat;
  hpke_open_seal : forall sk info m a r e c,
    hpke_seal (x_public sk) info m a r = Some (e, c) ->
    length e = 32%nat /\ hpke_enc_ok e = true /\ hpke_open sk e info c a = Some m
}.

(** ** A concrete instance

    Keys are single bytes, a signature is the key followed by the last 63
    bytes of the message, an AEAD tag is the last 16 bytes of everything it
    covers. It has no security; it satisfies the functional laws. *)
Module Sample.
Definition key32 (b : byte) : bytes := b :: replicate 31 x00.
Definition key_of (l : bytes) : option byte :=
  match l with
  | b :: _ => if decide (l = key32 b) then Some b else None
  | [] => None
  end.
Definition tag16 (l : bytes) : bytes := be_encode 16 (be_decode l).
Definition sign (sk : byte) (m : bytes) : bytes := sk :: be_encode 63 (be_decode m).
Definition seal (k n a m : bytes) : option bytes := Some (m ++ tag16 (k ++ n ++ a ++ m)).
Definition open (k n a c : bytes) : option bytes :=
  let m := take (length c - 16) c in
  if decide (c = m ++ tag16 (k ++ n ++ a ++ m)) then Some m else None.

Definition prims : CryptoPrims := {|
  sha256 m := be_encode 32 (be_decode m);
  ed_sk := byte;
  ed_pk := byte;
  ed_public sk := sk;
  ed_pk_of_bytes := key_of;
  ed_pk_to_bytes := key32;
  ed_sk_of_seed l := default x00 (head l);
  ed_sk_to_bytes := key32;
  ed_sign := sign;
  ed_verify_strict pk m s := bool_decide (s = sign pk m);
  xchacha_encrypt := seal;
  xchacha_decrypt := open;
  x_sk := byte;
  x_pk := byte;
  x_public sk := sk;
  x_pk_of_bytes := key_of;
  x_pk_to_bytes := key32;
  x_sk_of_bytes := key_of;
  x_sk_to_bytes := key32;
  hpke_enc_ok e := true;
  hpke_seal pk info m a _ := c ← seal (key32 pk) info a m; Some (key32 pk, c);
  hpke_open sk e info c a :=
    if decide (e = key32 sk) then open (key32 sk) info a c else None;
  argon2id pw m i p s :=
    Some (be_encode 32 (be_decode (pw ++ s) + m + i + p));
  hkdf_sha256 s ikm info := be_encode 32 (be_decode (s ++ ikm ++ info))
|}.

Lemma key_of_key32 b : key_of (key32 b) = Some b.
Proof. unfold key_of. simpl. by rewrite decide_True by done. Qed.

Lemma open_seal k n a m c : seal k n a m = Some c -> open k n a c = Some m.
Proof.
  intros [= <-]. unfold open.
  assert (take (length (m ++ tag16 (k ++ n ++ a ++ m)) - 16)
            (m ++ tag16 (k ++ n ++ a ++ m)) = m) as ->.
  { rewrite length_app. unfold tag16. rewrite length_be_encode.
    replace (length m + 16 - 16)%nat with (length m) by lia. apply take_app_length. }
  by rewrite decide_True by done.
Qed.

Lemma laws : CryptoLaws prims.
Proof.
  split; simpl; intros.
  - done.
  - apply key_of_key32.
  - done.
  - done.
  - done.
  - done.
  - by apply bool_decide_eq_true.
  - injection H as <-. rewrite length_app. unfold tag16. by rewrite length_be_encode.
  - by apply open_seal.
  - apply key_of_key32.
  - done.
  - apply key_of_key32.
  - done.
  - injection H as <- <-. split_and!; [done|done|].
    rewrite decide_True by done. by apply open_seal.
Qed.
End Sample.
