(* ===== verification/Crypto.v ===== *)
(** * The crypto crate (rust-core/crates/crypto)

    Blob headers and the algorithm registry ([version.rs]), associated data
    and the XChaCha20-Poly1305 framing ([aead.rs]), key wrapping
    ([keywrap.rs]), HPKE envelopes ([hpke_seal.rs]), versioned signatures
    ([signature.rs]), domain signatures ([domain_sig.rs]), the Argon2id
    parameter blob ([kdf.rs]) and the key newtypes ([keys.rs]).

    The primitives themselves (SHA-256, Ed25519, XChaCha20-Poly1305, HPKE,
    Argon2id, HKDF) are third-party crates: they are the class
    [CryptoPrims], and what the code relies on of them is [CryptoLaws].
    Random input ([OsRng]) is an explicit argument. *)

From Stdlib Require Import Strings.Byte NArith ZArith Lia.
From stdpp Require Import base gmap sets list strings sorting countable.
From S2P Require Import Prelude Bytes CryptoPrims.

Local Open Scope N_scope.

(** ** Errors *)

Inductive CryptoError :=
| CryptoDecrypt
| CryptoFormat
| UnsupportedVersion (v : N)
| UnsupportedAlgorithm (a : N)
| CryptoSignature
| CryptoRollback (attempted last_seen : N)
| CryptoKdf
| CryptoHpke
| InvalidLength.

#[global] Instance CryptoError_eq_dec : EqDecision CryptoError.
Proof. solve_decision. Defined.

(** ** version.rs: blob header and algorithm registry *)

Definition FORMAT_VERSION : N := 1.
Definition HEADER_LEN : nat := 3.

Inductive AlgId :=
| XChaCha20Poly1305
| HpkeX25519HkdfSha256ChaCha20
| Ed25519
| Argon2idParams.

#[global] Instance AlgId_eq_dec : EqDecision AlgId.
Proof. solve_decision. Defined.

Definition alg_to_u16 (a : AlgId) : N :=
  match a with
  | XChaCha20Poly1305 => 0x0001
  | HpkeX25519HkdfSha256ChaCha20 => 0x0010
  | Ed25519 => 0x0020
  | Argon2idParams => 0x0030
  end.

Definition alg_from_u16 (v : N) : result CryptoError AlgId :=
  if v =? 0x0001 then Ok XChaCha20Poly1305
  else if v =? 0x0010 then Ok HpkeX25519HkdfSha256ChaCha20
  else if v =? 0x0020 then Ok Ed25519
  else if v =? 0x0030 then Ok Argon2idParams
  else Err (UnsupportedAlgorithm v).

Definition write_header (out : bytes) (alg : AlgId) : bytes :=
  (out ++ [byte_of_N FORMAT_VERSION]) ++ u16_be (alg_to_u16 alg).

Definition header_bytes (alg : AlgId) : bytes :=
  byte_of_N FORMAT_VERSION :: u16_be (alg_to_u16 alg).

Definition parse_header (blob : bytes) : result CryptoError (AlgId * bytes) :=
  match blob with
  | version :: alg_hi :: alg_lo :: body =>
      if negb (Byte.to_N version =? FORMAT_VERSION)
      then Err (UnsupportedVersion (Byte.to_N version))
      else alg ← alg_from_u16 (be_decode [alg_hi; alg_lo]); Ok (alg, body)
  | _ => Err CryptoFormat
  end.

Definition parse_expecting (blob : bytes) (expected : AlgId) : result CryptoError bytes :=
  '(alg, body) ← parse_header blob;
  if decide (alg = expected) then Ok body
  else Err (UnsupportedAlgorithm (alg_to_u16 alg)).

Definition read_u32_be (b : bytes) : result CryptoError N :=
  if (length b =? 4)%nat then Ok (be_decode b) else Err CryptoFormat.

(** ** keys.rs: key newtypes *)

Definition SYMMETRIC_KEY_LEN : nat := 32.
Definition ED25519_KEY_LEN : nat := 32.

(** [SymmetricKey::from_slice]: a key is its 32 bytes. *)
Definition symkey_from_slice (b : bytes) : result CryptoError bytes :=
  if (length b =? SYMMETRIC_KEY_LEN)%nat then Ok b else Err InvalidLength.

Section crypto.
Context `{P : CryptoPrims}.

Record X25519Keypair := { xk_secret : x_sk; xk_public : x_pk }.
Record Ed25519Keypair := { ek_signing : ed_sk; ek_verifying : ed_pk }.

Definition verifying_key_from_bytes (b : bytes) : result CryptoError ed_pk :=
  if (length b =? ED25519_KEY_LEN)%nat
  then ok_or (ed_pk_of_bytes b) CryptoFormat
  else Err InvalidLength.

Definition signing_key_from_bytes (b : bytes) : result CryptoError ed_sk :=
  if (length b =? ED25519_KEY_LEN)%nat then Ok (ed_sk_of_seed b) else Err InvalidLength.

Definition x_public_from_bytes (b : bytes) : result CryptoError x_pk :=
  ok_or (x_pk_of_bytes b) CryptoFormat.
Definition x_secret_from_bytes (b : bytes) : result CryptoError x_sk :=
  ok_or (x_sk_of_bytes b) CryptoFormat.

(** ** aead.rs *)

Definition NONCE_LEN : nat := 24.
Definition TAG_LEN : nat := 16.

Record AssociatedData := mkAAD {
  aad_vault_id : bytes;
  aad_item_id : bytes;
  aad_version : N
}.

Definition canonical (a : AssociatedData) : result CryptoError bytes :=
  if (u16_max <? len (aad_vault_id a)) || (u16_max <? len (aad_item_id a))
  then Err InvalidLength
  else Ok (u16_be (len (aad_vault_id a)) ++ aad_vault_id a ++
           u16_be (len (aad_item_id a)) ++ aad_item_id a ++
           u64_be (aad_version a)).

Definition with_header (alg : AlgId) (aad : bytes) : bytes := header_bytes alg ++ aad.

Definition seal_xchacha_inner (key plaintext aad : bytes) (bind_header : bool)
    (nonce : bytes) : result CryptoError bytes :=
  let full_aad := if bind_header then with_header XChaCha20Poly1305 aad else aad in
  ciphertext ← ok_or (xchacha_encrypt key nonce full_aad plaintext) CryptoDecrypt;
  Ok ((write_header [] XChaCha20Poly1305 ++ nonce) ++ ciphertext).

Definition open_xchacha_inner (key blob aad : bytes) (bind_header : bool)
    : result CryptoError bytes :=
  body ← parse_expecting blob XChaCha20Poly1305;
  if (length body <? NONCE_LEN + TAG_LEN)%nat then Err CryptoFormat
  else
    let nonce := take NONCE_LEN body in
    let ciphertext := drop NONCE_LEN body in
    let full_aad := if bind_header then with_header XChaCha20Poly1305 aad else aad in
    ok_or (xchacha_decrypt key nonce full_aad ciphertext) CryptoDecrypt.

Definition seal_xchacha key plaintext aad nonce :=
  seal_xchacha_inner key plaintext aad true nonce.
Definition open_xchacha key blob aad := open_xchacha_inner key blob aad true.
Definition seal_xchacha_bare key plaintext aad nonce :=
  seal_xchacha_inner key plaintext aad false nonce.
Definition open_xchacha_bare key blob aad := open_xchacha_inner key blob aad false.

Definition aead_encrypt (key plaintext : bytes) (aad : AssociatedData) (nonce : bytes)
    : result CryptoError bytes :=
  aad_bytes ← canonical aad; seal_xchacha key plaintext aad_bytes nonce.
Definition aead_decrypt (key blob : bytes) (aad : AssociatedData)
    : result CryptoError bytes :=
  aad_bytes ← canonical aad; open_xchacha key blob aad_bytes.
Definition aead_decrypt_pre_agility (key blob : bytes) (aad : AssociatedData)
    : result CryptoError bytes :=
  aad_bytes ← canonical aad; open_xchacha_inner key blob aad_bytes false.
Definition aead_encrypt_pre_agility (key plaintext : bytes) (aad : AssociatedData)
    (nonce : bytes) : result CryptoError bytes :=
  aad_bytes ← canonical aad; seal_xchacha_inner key plaintext aad_bytes false nonce.

(** ** keywrap.rs *)

Definition KEYWRAP_DOMAIN : bytes := lit "unissh-keywrap-v1".
Definition keywrap_aad (aad : bytes) : bytes := KEYWRAP_DOMAIN ++ aad.

Definition finish_unwrap (plaintext : bytes) : result CryptoError bytes :=
  if negb (length plaintext =? SYMMETRIC_KEY_LEN)%nat then Err InvalidLength
  else symkey_from_slice plaintext.

Definition wrap_key (kek key aad nonce : bytes) : result CryptoError bytes :=
  seal_xchacha kek key (keywrap_aad aad) nonce.
Definition unwrap_key (kek blob aad : bytes) : result CryptoError bytes :=
  plaintext ← open_xchacha kek blob (keywrap_aad aad); finish_unwrap plaintext.
Definition unwrap_key_pre_agility (kek blob aad : bytes) : result CryptoError bytes :=
  plaintext ← open_xchacha_bare kek blob aad; finish_unwrap plaintext.
Definition wrap_key_pre_agility (kek key aad nonce : bytes) : result CryptoError bytes :=
  seal_xchacha_bare kek key aad nonce.

(** ** hpke_seal.rs *)

Definition ENC_LEN : nat := 32.

Definition seal_key_to_public (recipient : x_pk) (key info rng : bytes)
    : result CryptoError bytes :=
  '(enc, ciphertext) ← ok_or (hpke_seal recipient info key [] rng) CryptoHpke;
  Ok ((write_header [] HpkeX25519HkdfSha256ChaCha20 ++ enc) ++ ciphertext).

Definition open_key_with_secret (recipient : x_sk) (blob info : bytes)
    : result CryptoError bytes :=
  body ← parse_expecting blob HpkeX25519HkdfSha256ChaCha20;
  if (length body <? ENC_LEN)%nat then Err CryptoFormat
  else
    let enc_bytes := take ENC_LEN body in
    let ciphertext := drop ENC_LEN body in
    if negb (hpke_enc_ok enc_bytes) then Err CryptoFormat
    else
      plaintext ← ok_or (hpke_open recipient enc_bytes info ciphertext []) CryptoHpke;
      if negb (length plaintext =? SYMMETRIC_KEY_LEN)%nat then Err InvalidLength
      else symkey_from_slice plaintext.

Definition VKWRAP_DOMAIN : bytes := lit "unissh-vkwrap-v1".

Definition vk_wrap_info (vault_id member_pubkey : bytes) (key_epoch : N)
    : result CryptoError bytes :=
  if (u16_max <? len vault_id) || (u16_max <? len member_pubkey)
  then Err InvalidLength
  else Ok (VKWRAP_DOMAIN ++ u16_be (len vault_id) ++ vault_id ++
           u16_be (len member_pubkey) ++ member_pubkey ++ u64_be key_epoch).

(** ** signature.rs *)

Definition SIG_DOMAIN : bytes := lit "unissh-sig-v1".
Definition SIG_LEN : nat := 64.
Definition ACCOUNT_STATE_SIG_DOMAIN : bytes := lit "unissh-account-state-v1".

Record VersionedObject := mkVO {
  vo_aad : AssociatedData;
  vo_digest : bytes
}.

Definition digest_content (content : bytes) : bytes := sha256 content.
Definition from_content (aad : AssociatedData) (content : bytes) : VersionedObject :=
  mkVO aad (digest_content content).

Definition signing_bytes (o : VersionedObject) : result CryptoError bytes :=
  aad ← canonical (vo_aad o); Ok (SIG_DOMAIN ++ aad ++ vo_digest o).

(** a signature blob: header and the 64 signature bytes *)
Definition sig_blob (sig : bytes) : bytes := write_header [] Ed25519 ++ sig.

(** the shared head of every verifier: header, algorithm, 64 bytes *)
Definition parse_sig_blob (blob : bytes) : result CryptoError bytes :=
  body ← parse_expecting blob Ed25519;
  if (length body =? SIG_LEN)%nat then Ok body else Err CryptoFormat.

Definition sign_version (sk : ed_sk) (o : VersionedObject) : result CryptoError bytes :=
  message ← signing_bytes o; Ok (sig_blob (ed_sign sk message)).

Definition verify_version (pk : ed_pk) (o : VersionedObject) (blob : bytes)
    : result CryptoError unit :=
  signature ← parse_sig_blob blob;
  message ← signing_bytes o;
  guard (ed_verify_strict pk message signature) CryptoSignature.

Definition verify_no_rollback (pk : ed_pk) (o : VersionedObject) (blob : bytes)
    (last_seen : N) : result CryptoError unit :=
  _ ← verify_version pk o blob;
  if aad_version (vo_aad o) <=? last_seen
  then Err (CryptoRollback (aad_version (vo_aad o)) last_seen)
  else Ok tt.

Definition account_state_message (version : N) (payload : bytes) : bytes :=
  ACCOUNT_STATE_SIG_DOMAIN ++ u64_be version ++ digest_content payload.

Definition sign_account_state (sk : ed_sk) (version : N) (payload : bytes) : bytes :=
  sig_blob (ed_sign sk (account_state_message version payload)).

Definition verify_account_state (pk : ed_pk) (version : N) (payload blob : bytes)
    : result CryptoError unit :=
  signature ← parse_sig_blob blob;
  guard (ed_verify_strict pk (account_state_message version payload) signature)
        CryptoSignature.

(** ** domain_sig.rs *)

Definition SERVER_AUTH_SIG_DOMAIN : bytes := lit "unissh-server-auth-v1".
Definition AUDIT_SIG_DOMAIN : bytes := lit "unissh-audit-v1".
Definition REGISTRATION_SIG_DOMAIN : bytes := lit "unissh-registration-v1".

Definition domain_signing_bytes (domain payload : bytes) : result CryptoError bytes :=
  if u16_max <? len domain then Err InvalidLength
  else Ok (u16_be (len domain) ++ domain ++ payload).

Definition domain_sign (sk : ed_sk) (domain payload : bytes) : result CryptoError bytes :=
  message ← domain_signing_bytes domain payload; Ok (sig_blob (ed_sign sk message)).

Definition domain_verify (pk : ed_pk) (domain payload blob : bytes)
    : result CryptoError unit :=
  signature ← parse_sig_blob blob;
  message ← domain_signing_bytes domain payload;
  guard (ed_verify_strict pk message signature) CryptoSignature.

(** ** kdf.rs *)

Definition KDF_ID_ARGON2ID : N := 1.
Definition MAX_MEM_KIB : N := 1024 * 1024.
Definition MAX_ITERATIONS : N := 64.
Definition MAX_PARALLELISM : N := 64.
Definition MIN_MEM_KIB : N := 19 * 1024.
Definition MIN_ITERATIONS : N := 2.
Definition MIN_PARALLELISM : N := 1.
Definition MIN_SALT_LEN : N := 16.

Record KdfParams := mkKdf {
  mem_kib : N;
  iterations : N;
  parallelism : N;
  salt : bytes
}.

Definition meets_minimum (p : KdfParams) : bool :=
  (MIN_MEM_KIB <=? mem_kib p) && (MIN_ITERATIONS <=? iterations p)
  && (MIN_PARALLELISM <=? parallelism p) && (MIN_SALT_LEN <=? len (salt p)).

Definition kdf_to_blob (p : KdfParams) : result CryptoError bytes :=
  if u8_max <? len (salt p) then Err InvalidLength
  else Ok (write_header [] Argon2idParams ++ [byte_of_N KDF_ID_ARGON2ID] ++
           u32_be (mem_kib p) ++ u32_be (iterations p) ++ u32_be (parallelism p) ++
           [byte_of_N (len (salt p))] ++ salt p).

(** [body.get(lo..hi)] *)
Definition slice (lo hi : nat) (b : bytes) : option bytes :=
  if (lo <=? hi)%nat && (hi <=? length b)%nat then Some (take (hi - lo) (drop lo b)) else None.

Definition KDF_FIXED : nat := 14.

Definition kdf_from_blob (blob : bytes) : result CryptoError KdfParams :=
  body ← parse_expecting blob Argon2idParams;
  if (length body <? KDF_FIXED)%nat then Err CryptoFormat
  else if negb (bool_decide (head body = Some (byte_of_N KDF_ID_ARGON2ID)))
  then Err (UnsupportedAlgorithm (alg_to_u16 Argon2idParams))
  else
    mem_kib ← (b ← ok_or (slice 1 5 body) CryptoFormat; read_u32_be b);
    iterations ← (b ← ok_or (slice 5 9 body) CryptoFormat; read_u32_be b);
    parallelism ← (b ← ok_or (slice 9 13 body) CryptoFormat; read_u32_be b);
    salt_len ← ok_or (body !! 13%nat) CryptoFormat;
    if negb (length body =? KDF_FIXED + N.to_nat (Byte.to_N salt_len))%nat
    then Err CryptoFormat
    else if (MAX_MEM_KIB <? mem_kib) || (MAX_ITERATIONS <? iterations)
            || (MAX_PARALLELISM <? parallelism)
    then Err CryptoFormat
    else
      salt ← ok_or (slice KDF_FIXED (length body) body) CryptoFormat;
      Ok (mkKdf mem_kib iterations parallelism salt).

Definition derive_key (password : bytes) (p : KdfParams) : result CryptoError bytes :=
  ok_or (argon2id password (mem_kib p) (iterations p) (parallelism p) (salt p)) CryptoKdf.

End crypto.
Arguments X25519Keypair {P}.
Arguments Ed25519Keypair {P}.

(** ** Lemmas: headers *)

Lemma alg_from_to_u16 a : alg_from_u16 (alg_to_u16 a) = Ok a.
Proof. by destruct a. Qed.

Lemma header_shape alg : exists hi lo,
  write_header [] alg = [byte_of_N FORMAT_VERSION; hi; lo] /\
  be_decode [hi; lo] = alg_to_u16 alg.
Proof. destruct alg; by eexists _, _. Qed.

Lemma parse_header_write alg body :
  parse_header (write_header [] alg ++ body) = Ok (alg, body).
Proof.
  destruct (header_shape alg) as (hi & lo & -> & Hd). simpl.
  rewrite Hd, alg_from_to_u16. done.
Qed.

Lemma parse_expecting_write alg body :
  parse_expecting (write_header [] alg ++ body) alg = Ok body.
Proof.
  unfold parse_expecting. rewrite parse_header_write. simpl.
  by rewrite decide_True by done.
Qed.

Lemma length_header alg : length (write_header [] alg) = HEADER_LEN.
Proof. by destruct alg. Qed.

Lemma parse_sig_blob_ok sig :
  length sig = SIG_LEN -> parse_sig_blob (sig_blob sig) = Ok sig.
Proof.
  intros H. unfold parse_sig_blob, sig_blob. rewrite parse_expecting_write. simpl.
  by rewrite H.
Qed.

(** ** Lemmas: canonical encodings are injective *)

Lemma canonical_Ok a x :
  canonical a = Ok x <->
  len (aad_vault_id a) <= u16_max /\ len (aad_item_id a) <= u16_max /\
  x = u16_be (len (aad_vault_id a)) ++ aad_vault_id a ++
      u16_be (len (aad_item_id a)) ++ aad_item_id a ++ u64_be (aad_version a).
Proof.
  unfold canonical.
  destruct (u16_max <? len (aad_vault_id a)) eqn:E1;
    destruct (u16_max <? len (aad_item_id a)) eqn:E2; simpl;
    rewrite ?N.ltb_lt, ?N.ltb_ge in *; split; intros H;
    solve [naive_solver lia | naive_solver].
Qed.

Lemma vk_wrap_info_Ok v m e x :
  vk_wrap_info v m e = Ok x <->
  len v <= u16_max /\ len m <= u16_max /\
  x = VKWRAP_DOMAIN ++ u16_be (len v) ++ v ++ u16_be (len m) ++ m ++ u64_be e.
Proof.
  unfold vk_wrap_info.
  destruct (u16_max <? len v) eqn:E1; destruct (u16_max <? len m) eqn:E2;
    cbn [orb]; rewrite ?N.ltb_lt, ?N.ltb_ge in *; split; intros H;
    solve [naive_solver lia | naive_solver].
Qed.

(** two canonical encodings are equal or differ before either ends *)
Lemma canonical_app_inj a b x y r s :
  aad_version a <= u64_max -> aad_version b <= u64_max ->
  canonical a = Ok x -> canonical b = Ok y -> x ++ r = y ++ s -> a = b /\ r = s.
Proof.
  intros Ha Hb (Hv & Hi & ->)%canonical_Ok (Hv' & Hi' & ->)%canonical_Ok H.
  rewrite <-!app_assoc in H.
  apply prefixed16_inj in H as [Hvid H]; [|done..].
  apply prefixed16_inj in H as [Hiid H]; [|done..].
  apply app_inj_len in H as [Hver H]; [|by rewrite !length_u64_be].
  apply u64_be_inj in Hver; [|done..].
  split; [|done]. destruct a, b; simpl in *; by subst.
Qed.

(** ** Lemmas: the Argon2id parameter blob *)

Lemma slice_app_mid (a b c : bytes) lo hi :
  length a = lo -> (lo + length b)%nat = hi -> slice lo hi (a ++ b ++ c) = Some b.
Proof.
  intros <- <-. unfold slice.
  rewrite (proj2 (Nat.leb_le _ _)) by lia.
  rewrite (proj2 (Nat.leb_le _ _)) by (rewrite !length_app; lia). simpl.
  f_equal. rewrite drop_app_length.
  replace (length a + length b - length a)%nat with (length b) by lia.
  apply take_app_length.
Qed.

Lemma read_u32_be_u32 n : n <= u32_max -> read_u32_be (u32_be n) = Ok n.
Proof. intros H. unfold read_u32_be. by rewrite length_u32_be, u32_decode. Qed.

(** where each field of the parameter body sits *)
Lemma kdf_body_fields (k s : byte) (a b c z : bytes) :
  length a = 4%nat -> length b = 4%nat -> length c = 4%nat ->
  let body := [k] ++ a ++ b ++ c ++ [s] ++ z in
  length body = (KDF_FIXED + length z)%nat /\ head body = Some k /\
  slice 1 5 body = Some a /\ slice 5 9 body = Some b /\ slice 9 13 body = Some c /\
  body !! 13%nat = Some s /\ slice KDF_FIXED (length body) body = Some z.
Proof.
  intros Ha Hb Hc body.
  assert (length body = (KDF_FIXED + length z)%nat) as Hl.
  { unfold body, KDF_FIXED. rewrite !length_app, Ha, Hb, Hc. simpl. lia. }
  assert (body = ([k] ++ a) ++ b ++ c ++ [s] ++ z) as E2 by (unfold body; by rewrite <-!app_assoc).
  assert (body = ([k] ++ a ++ b) ++ c ++ [s] ++ z) as E3 by (unfold body; by rewrite <-!app_assoc).
  assert (body = ([k] ++ a ++ b ++ c) ++ [s] ++ z) as E4 by (unfold body; by rewrite <-!app_assoc).
  assert (body = ([k] ++ a ++ b ++ c ++ [s]) ++ z ++ []) as E5
    by (unfold body; by rewrite app_nil_r, <-!app_assoc).
  split_and!; [done|done|..].
  - apply slice_app_mid; [done|lia].
  - rewrite E2. apply slice_app_mid; rewrite ?length_app, ?Ha, ?Hb; done.
  - rewrite E3. apply slice_app_mid; rewrite ?length_app, ?Ha, ?Hb, ?Hc; done.
  - rewrite E4, lookup_app_r; rewrite !length_app, Ha, Hb, Hc; [done|simpl; lia].
  - rewrite Hl, E5. apply slice_app_mid; rewrite ?length_app, ?Ha, ?Hb, ?Hc; done.
Qed.

Lemma kdf_from_to_blob p blob :
  mem_kib p <= MAX_MEM_KIB -> iterations p <= MAX_ITERATIONS ->
  parallelism p <= MAX_PARALLELISM ->
  kdf_to_blob p = Ok blob -> kdf_from_blob blob = Ok p.
Proof.
  intros Hm Hi Hp. unfold kdf_to_blob.
  destruct (u8_max <? len (salt p)) eqn:Hs; [done|]. apply N.ltb_ge in Hs.
  intros <-%(inj Ok).
  unfold kdf_from_blob. rewrite parse_expecting_write. cbn [mbind result_bind].
  destruct (kdf_body_fields (byte_of_N KDF_ID_ARGON2ID) (byte_of_N (len (salt p)))
    (u32_be (mem_kib p)) (u32_be (iterations p)) (u32_be (parallelism p)) (salt p))
    as (Hlen & Hhd & H1 & H5 & H9 & H13 & Hz); [apply length_u32_be..|].
  unfold MAX_MEM_KIB, MAX_ITERATIONS, MAX_PARALLELISM in *.
  set (body := [_] ++ _) in *.
  rewrite (proj2 (Nat.ltb_ge _ _)), Hhd, bool_decide_eq_true_2 by (done || lia).
  cbn [negb]. rewrite H1, H5, H9, H13, Hz. cbn [ok_or mbind result_bind].
  rewrite !read_u32_be_u32 by (unfold u32_max; lia). cbn [mbind result_bind].
  rewrite to_N_byte_of_N, N.mod_small by (unfold u8_max in *; lia).
  unfold len at 1. rewrite Nat2N.id, Hlen, Nat.eqb_refl. cbn [negb].
  rewrite !(proj2 (N.ltb_ge _ _)) by lia. by destruct p.
Qed.

Lemma kdf_from_blob_bounds b q :
  kdf_from_blob b = Ok q ->
  mem_kib q <= MAX_MEM_KIB /\ iterations q <= MAX_ITERATIONS /\
  parallelism q <= MAX_PARALLELISM.
Proof.
  unfold kdf_from_blob. intros (body & _ & H)%bind_Ok.
  destruct (length body <? _)%nat; [done|]. destruct (negb _); [done|].
  apply bind_Ok in H as (m & _ & H). apply bind_Ok in H as (i & _ & H).
  apply bind_Ok in H as (p & _ & H). apply bind_Ok in H as (sl & _ & H).
  destruct (negb _); [done|].
  destruct ((MAX_MEM_KIB <? m) || (MAX_ITERATIONS <? i) || (MAX_PARALLELISM <? p)) eqn:E;
    [done|].
  apply bind_Ok in H as (z & _ & <-%(inj Ok)). cbn [mem_kib iterations parallelism].
  rewrite !orb_false_iff, !N.ltb_ge in E. tauto.
Qed.

Section theory.
Context `{P : CryptoPrims}.

Lemma signing_bytes_Ok o m :
  signing_bytes o = Ok m <->
  exists aad, canonical (vo_aad o) = Ok aad /\ m = SIG_DOMAIN ++ aad ++ vo_digest o.
Proof. unfold signing_bytes. rewrite bind_Ok. naive_solver. Qed.

Lemma verify_version_Ok pk o blob :
  verify_version pk o blob = Ok tt <->
  exists sig m, parse_sig_blob blob = Ok sig /\ signing_bytes o = Ok m /\
                ed_verify_strict pk m sig = true.
Proof.
  unfold verify_version.
  destruct (parse_sig_blob blob), (signing_bytes o); simpl;
    rewrite ?guard_Ok; naive_solver.
Qed.

Context `{!CryptoLaws P}.

Lemma verifying_key_public sk :
  verifying_key_from_bytes (ed_pk_to_bytes (ed_public sk)) = Ok (ed_public sk).
Proof.
  unfold verifying_key_from_bytes. by rewrite ed_pk_len, ed_pk_bytes.
Qed.

Lemma sign_version_verifies sk o blob :
  sign_version sk o = Ok blob -> verify_version (ed_public sk) o blob = Ok tt.
Proof.
  unfold sign_version. intros (m & Hm & <-%(inj Ok))%bind_Ok.
  apply verify_version_Ok. exists (ed_sign sk m), m.
  rewrite parse_sig_blob_ok by apply ed_sig_len. by rewrite ed_sign_verify.
Qed.

Lemma open_seal_inner key pt aad b nonce blob :
  length nonce = NONCE_LEN ->
  seal_xchacha_inner key pt aad b nonce = Ok blob ->
  open_xchacha_inner key blob aad b = Ok pt.
Proof.
  intros Hn. unfold seal_xchacha_inner.
  intros (ct & Hct%ok_or_Ok & <-%(inj Ok))%bind_Ok.
  unfold open_xchacha_inner. rewrite <-app_assoc, parse_expecting_write.
  cbn [mbind result_bind].
  pose proof (xchacha_len _ _ _ _ _ Hct) as Hl.
  rewrite length_app, Hn, Hl.
  rewrite (proj2 (Nat.ltb_ge _ _)) by (unfold TAG_LEN; lia).
  rewrite take_app_length', drop_app_length' by done.
  by rewrite (xchacha_open_seal _ _ _ _ _ Hct).
Qed.

Lemma aead_opens key pt aad nonce blob :
  length nonce = NONCE_LEN -> aead_encrypt key pt aad nonce = Ok blob ->
  aead_decrypt key blob aad = Ok pt.
Proof.
  intros Hn. unfold aead_encrypt, aead_decrypt.
  destruct (canonical aad); simpl; [|done]. by apply open_seal_inner.
Qed.

Lemma aead_pre_agility_opens key pt aad nonce blob :
  length nonce = NONCE_LEN -> aead_encrypt_pre_agility key pt aad nonce = Ok blob ->
  aead_decrypt_pre_agility key blob aad = Ok pt.
Proof.
  intros Hn. unfold aead_encrypt_pre_agility, aead_decrypt_pre_agility.
  destruct (canonical aad); simpl; [|done]. by apply open_seal_inner.
Qed.

Lemma wrap_key_opens kek key ctx nonce blob :
  length nonce = NONCE_LEN -> length key = SYMMETRIC_KEY_LEN ->
  wrap_key kek key ctx nonce = Ok blob -> unwrap_key kek blob ctx = Ok key.
Proof.
  intros Hn Hl Hw. unfold wrap_key, seal_xchacha in Hw. unfold unwrap_key, open_xchacha.
  rewrite (open_seal_inner _ _ _ _ _ _ Hn Hw). simpl.
  unfold finish_unwrap, symkey_from_slice. by rewrite Hl.
Qed.

Lemma seal_key_opens sk vk info rng blob :
  length vk = SYMMETRIC_KEY_LEN ->
  seal_key_to_public (x_public sk) vk info rng = Ok blob ->
  open_key_with_secret sk blob info = Ok vk.
Proof.
  intros Hl. unfold seal_key_to_public.
  intros ([enc ct] & Hs%ok_or_Ok & <-%(inj Ok))%bind_Ok.
  destruct (hpke_open_seal _ _ _ _ _ _ _ Hs) as (Henc & Hok & Hopen).
  unfold open_key_with_secret. rewrite <-app_assoc, parse_expecting_write.
  cbn [mbind result_bind].
  rewrite length_app, Henc, (proj2 (Nat.ltb_ge _ _)) by (unfold ENC_LEN; lia).
  rewrite take_app_length', drop_app_length', Hok, Hopen by done. simpl.
  unfold symkey_from_slice. by rewrite Hl.
Qed.

End theory.

(** ** Theorems *)

(** The associated data that binds every ciphertext and signature to
    (vault, item, version) is encoded injectively: two contexts with the same
    canonical bytes are the same context, so no re-splitting of ids or version
    can make one record's binding pass for another's. *)
Theorem canonical_injective a b x :
  aad_version a <= u64_max -> aad_version b <= u64_max ->
  canonical a = Ok x -> canonical b = Ok x -> a = b.
Proof.
  intros Ha Hb H1 H2.
  by apply (canonical_app_inj a b x x [] []).
Qed.

Lemma canonical_injective_witness :
  canonical (mkAAD (lit "v") (lit "i") 3) = canonical (mkAAD (lit "v") (lit "i") 3) /\
  mkAAD (lit "v") (lit "i") 3 = mkAAD (lit "v") (lit "i") 3.
Proof.
  split; [reflexivity|].
  eapply (canonical_injective (mkAAD (lit "v") (lit "i") 3) (mkAAD (lit "v") (lit "i") 3));
    [vm_compute; discriminate|vm_compute; discriminate|vm_compute; reflexivity..].
Defined.

(** Signatures of different protocols never cover the same message: a
    versioned-record message, an account-state message and a domain message
    (server-auth, audit, registration: every domain shorter than 0x7500
    bytes) are pairwise different byte strings, whatever their contents. *)
Theorem signature_messages_disjoint `{P : CryptoPrims} o version payload domain body m d :
  signing_bytes o = Ok m ->
  len domain < 0x7500 -> domain_signing_bytes domain body = Ok d ->
  m <> account_state_message version payload /\
  m <> d /\ account_state_message version payload <> d.
Proof.
  intros (aad & _ & ->)%signing_bytes_Ok Hlen Hd.
  unfold domain_signing_bytes in Hd.
  destruct (u16_max <? len domain); [done|]. apply (inj Ok) in Hd as <-.
  assert (forall rest, x75 :: rest <> u16_be (len domain) ++ domain ++ body) as Hu.
  { intros rest. unfold u16_be. simpl. intros [=Hb _].
    apply (f_equal Byte.to_N) in Hb. rewrite to_N_byte_of_N in Hb.
    change (Byte.to_N x75) with 117 in Hb.
    rewrite N.mod_small in Hb; [|apply N.Div0.div_lt_upper_bound; lia].
    assert (len domain / 256 < 117) by (apply N.Div0.div_lt_upper_bound; lia).
    lia. }
  split_and!; [|apply Hu|apply Hu].
  unfold account_state_message, SIG_DOMAIN, ACCOUNT_STATE_SIG_DOMAIN. simpl. congruence.
Qed.

Lemma signature_messages_disjoint_witness :
  @domain_signing_bytes AUDIT_SIG_DOMAIN (lit "x") <> Err InvalidLength /\
  SIG_DOMAIN ++ [x00; x01; x76; x00; x01; x69] ++ u64_be 1 ++ @sha256 Sample.prims (lit "c")
    <> @account_state_message Sample.prims 1 (lit "c").
Proof.
  split; [vm_compute; discriminate|].
  refine (proj1 (@signature_messages_disjoint Sample.prims
    (@from_content Sample.prims (mkAAD (lit "v") (lit "i") 1) (lit "c"))
    1 (lit "c") AUDIT_SIG_DOMAIN (lit "x") _ _ _ _ _));
    [vm_compute; reflexivity|vm_compute; reflexivity|vm_compute; reflexivity].
Defined.

(** A signature blob made over a versioned object verifies under the
    signer's key, and the signed message fixes the object: another object with
    the same message has the same vault, item, version and content digest. *)
Theorem sign_version_roundtrip `{P : CryptoPrims, !CryptoLaws P} sk o blob :
  aad_version (vo_aad o) <= u64_max -> sign_version sk o = Ok blob ->
  verify_version (ed_public sk) o blob = Ok tt /\
  (forall o', aad_version (vo_aad o') <= u64_max ->
     signing_bytes o' = signing_bytes o -> o' = o).
Proof.
  intros Ho Hs. split; [by apply sign_version_verifies|].
  unfold sign_version in Hs. apply bind_Ok in Hs as (m & Hm & _).
  intros o' Ho' Heq. rewrite Hm in Heq.
  apply signing_bytes_Ok in Hm as (x & Hx & ->).
  apply signing_bytes_Ok in Heq as (y & Hy & He). apply app_inv_head in He.
  destruct (canonical_app_inj _ _ _ _ _ _ Ho Ho' Hx Hy He) as [Ha Hd].
  destruct o, o'; simpl in *; by subst.
Qed.

Definition sample_object : @VersionedObject :=
  @from_content Sample.prims (mkAAD (lit "v") (lit "i") 1) (lit "secret").

Lemma sign_version_roundtrip_witness :
  exists blob, @sign_version Sample.prims x07 sample_object = Ok blob /\
    @verify_version Sample.prims x07 sample_object blob = Ok tt.
Proof.
  eexists. split; [vm_compute; reflexivity|].
  refine (proj1 (@sign_version_roundtrip Sample.prims Sample.laws x07 sample_object _ _ _));
    [vm_compute; discriminate|vm_compute; reflexivity].
Defined.

(** Envelope encryption opens what it sealed, at every layer: item content
    (AEAD with header binding), a wrapped key, and the frozen pre-agility
    codec; and a wrapped key comes back as exactly the 32 bytes wrapped. *)
Theorem seal_open_roundtrip `{P : CryptoPrims, !CryptoLaws P}
    key plaintext aad nonce kek wrapped ctx :
  length nonce = NONCE_LEN ->
  (forall blob, aead_encrypt key plaintext aad nonce = Ok blob ->
     aead_decrypt key blob aad = Ok plaintext) /\
  (forall blob, aead_encrypt_pre_agility key plaintext aad nonce = Ok blob ->
     aead_decrypt_pre_agility key blob aad = Ok plaintext) /\
  (forall blob, length wrapped = SYMMETRIC_KEY_LEN ->
     wrap_key kek wrapped ctx nonce = Ok blob ->
     unwrap_key kek blob ctx = Ok wrapped).
Proof.
  intros Hn. split_and!; intros blob;
    [by apply aead_opens|by apply aead_pre_agility_opens|by apply wrap_key_opens].
Qed.

Lemma seal_open_roundtrip_witness :
  exists blob, @wrap_key Sample.prims (replicate 32 x01) (replicate 32 x02) (lit "i")
                 (replicate 24 x03) = Ok blob /\
    @unwrap_key Sample.prims (replicate 32 x01) blob (lit "i") = Ok (replicate 32 x02).
Proof.
  eexists. split; [vm_compute; reflexivity|].
  refine (proj2 (proj2 (@seal_open_roundtrip Sample.prims Sample.laws [] [] (mkAAD [] [] 0)
            (replicate 24 x03) (replicate 32 x01) (replicate 32 x02) (lit "i") _)) _ _ _);
    [reflexivity|reflexivity|vm_compute; reflexivity].
Defined.

(** A vault-key envelope opens for the recipient it was sealed to under
    the same (vault, member, epoch) binding, and that binding is injective:
    equal HPKE infos mean the same vault, the same member and the same epoch,
    so an envelope of another epoch is never presented with this epoch's info. *)
Theorem vk_envelope `{P : CryptoPrims, !CryptoLaws P} sk vk v m e v' m' e' info rng :
  e <= u64_max -> e' <= u64_max -> length vk = SYMMETRIC_KEY_LEN ->
  vk_wrap_info v m e = Ok info ->
  (forall blob, seal_key_to_public (x_public sk) vk info rng = Ok blob ->
     open_key_with_secret sk blob info = Ok vk) /\
  (vk_wrap_info v' m' e' = Ok info -> v = v' /\ m = m' /\ e = e').
Proof.
  intros He He' Hl Hinfo. split.
  - intros blob. by apply seal_key_opens.
  - apply vk_wrap_info_Ok in Hinfo as (? & ? & ->).
    intros (? & ? & Heq)%vk_wrap_info_Ok. apply app_inv_head in Heq.
    apply prefixed16_inj in Heq as [-> Heq]; [|done..].
    apply prefixed16_inj in Heq as [-> Heq]; [|done..].
    by apply u64_be_inj in Heq as ->.
Qed.

Lemma vk_envelope_witness :
  exists info blob, vk_wrap_info (lit "v") (lit "m") 2 = Ok info /\
    @seal_key_to_public Sample.prims x05 (replicate 32 x09) info [] = Ok blob /\
    @open_key_with_secret Sample.prims x05 blob info = Ok (replicate 32 x09).
Proof.
  eexists _, _. split; [vm_compute; reflexivity|]. split; [vm_compute; reflexivity|].
  refine (proj1 (@vk_envelope Sample.prims Sample.laws x05 (replicate 32 x09)
    (lit "v") (lit "m") 2 [] [] 0 _ [] _ _ _ _) _ _);
    [vm_compute; discriminate|vm_compute; discriminate|reflexivity
    |vm_compute; reflexivity|vm_compute; reflexivity].
Defined.

(** A key-wrap context and an item context are different associated data,
    so a wrapped key and an item blob cannot stand in for each other, for
    every vault id that is not exactly 0x756e ("un" read as a length) bytes
    long. *)
Theorem keywrap_context_separated aad ctx :
  len (aad_vault_id aad) <> 0x756e -> canonical aad <> Ok (keywrap_aad ctx).
Proof.
  intros Hne (Hv & _ & Heq)%canonical_Ok. apply Hne.
  change (keywrap_aad ctx) with (u16_be 0x756e ++ lit "issh-keywrap-v1" ++ ctx) in Heq.
  apply app_inj_len in Heq as [Heq _]; [|by rewrite !length_u16_be].
  symmetry. by apply u16_be_inj in Heq; [|unfold u16_max; lia|].
Qed.

Lemma keywrap_context_separated_witness :
  len (aad_vault_id (mkAAD (lit "vault") (lit "item") 1)) <> 0x756e /\
  canonical (mkAAD (lit "vault") (lit "item") 1) <> Ok (keywrap_aad (lit "item")).
Proof.
  split; [vm_compute; discriminate|].
  apply (keywrap_context_separated (mkAAD (lit "vault") (lit "item") 1) (lit "item")).
  vm_compute. discriminate.
Defined.

(** At that one length the tag does not separate the two: a 30062-byte vault
    id that continues the tag gives an item context equal to a key-wrap one. *)
Lemma keywrap_context_collides : exists aad ctx, canonical aad = Ok (keywrap_aad ctx).
Proof.
  assert (exists z : bytes, len z = 30047) as [z Hz].
  { exists (replicate (N.to_nat 30047) x00). unfold len.
    by rewrite length_replicate, N2Nat.id. }
  assert (len (lit "issh-keywrap-v1" ++ z) = 0x756e) as Hl by (rewrite len_app, Hz; done).
  exists (mkAAD (lit "issh-keywrap-v1" ++ z) [] 0), (z ++ u16_be 0 ++ u64_be 0).
  apply canonical_Ok. cbn [aad_vault_id aad_item_id aad_version].
  rewrite Hl. split_and!; [done|done|]. rewrite <-app_assoc. reflexivity.
Qed.

(** The Argon2id parameter blob parses back to the parameters written
    (within the accepted bounds), and whatever blob an untrusted source hands
    in, parsed parameters are within the memory, iteration and lane limits. *)
Theorem kdf_blob_roundtrip p blob :
  mem_kib p <= MAX_MEM_KIB -> iterations p <= MAX_ITERATIONS ->
  parallelism p <= MAX_PARALLELISM ->
  kdf_to_blob p = Ok blob ->
  kdf_from_blob blob = Ok p /\
  (forall b q, kdf_from_blob b = Ok q ->
     mem_kib q <= MAX_MEM_KIB /\ iterations q <= MAX_ITERATIONS /\
     parallelism q <= MAX_PARALLELISM).
Proof.
  intros Hm Hi Hp Hb. split; [by apply kdf_from_to_blob|apply kdf_from_blob_bounds].
Qed.

Lemma kdf_blob_roundtrip_witness :
  exists blob, kdf_to_blob (mkKdf 19456 2 1 (lit "0123456789abcdef")) = Ok blob /\
    kdf_from_blob blob = Ok (mkKdf 19456 2 1 (lit "0123456789abcdef")).
Proof.
  eexists. split; [vm_compute; reflexivity|].
  refine (proj1 (kdf_blob_roundtrip (mkKdf 19456 2 1 (lit "0123456789abcdef")) _ _ _ _ _));
    [vm_compute; discriminate..|vm_compute; reflexivity].
Defined.
