(* ===== verification/Storage.v ===== *)
(** * The local store (rust-core/crates/storage)

    [records.rs] (the row types), [store.rs] (every operation on the tables)
    and [error.rs]. The SQLite file is a record of finite maps, one per table
    of [schema.rs] at schema version 9, keyed by its PRIMARY KEY; [item_history]
    is a list in [hseq] order (the autoincrement column only orders it). Columns
    stored as INTEGER are [N] at most [i64::MAX]: every writer goes through
    [checked_version].

    An operation is a computation of [M Storage StorageError]. The failures
    of the database engine itself (I/O, locking, a corrupt page) are not
    modelled; [Sqlite] stands for the one engine error the operations can
    reach on an intact file (the audit sequence running out). Time
    ([now_secs]) is the [clock] field: the environment may move it at will. *)

From Stdlib Require Import Strings.Byte NArith ZArith Lia.
From stdpp Require Import base gmap sets list strings sorting countable.
From S2P Require Import Prelude Bytes.

Local Open Scope N_scope.

(** ** Updating and deleting rows of a table *)

Section tables.
Context `{Countable K} {A : Type}.

(** [UPDATE ... WHERE p] *)
Definition update_where (p : K -> A -> bool) (f : A -> A) (m : gmap K A) : gmap K A :=
  map_imap (fun k a => Some (if p k a then f a else a)) m.

(** [DELETE ... WHERE p] *)
Definition delete_where (p : K -> A -> bool) (m : gmap K A) : gmap K A :=
  filter (fun ka => p ka.1 ka.2 = false) m.

(** the rows a statement touches *)
Definition count_where (p : K -> A -> bool) (m : gmap K A) : N :=
  N.of_nat (size (filter (fun ka => p ka.1 ka.2 = true) m)).

(** [SELECT ... WHERE p], in the table's own order *)
Definition select_where (p : K -> A -> bool) (m : gmap K A) : list A :=
  (filter (fun ka => p ka.1 ka.2 = true) (map_to_list m)).*2.

Lemma lookup_update_where p f m k :
  update_where p f m !! k = (fun a => if p k a then f a else a) <$> m !! k.
Proof. unfold update_where. rewrite map_lookup_imap. by destruct (m !! k). Qed.

Lemma lookup_delete_where p m k a :
  delete_where p m !! k = Some a <-> m !! k = Some a /\ p k a = false.
Proof. unfold delete_where. by rewrite map_lookup_filter_Some. Qed.

Lemma elem_of_select_where p m a :
  a ∈ select_where p m <-> exists k, m !! k = Some a /\ p k a = true.
Proof.
  unfold select_where. rewrite list_elem_of_fmap. split.
  - intros ([k a'] & -> & Hin). apply list_elem_of_filter in Hin as [Hp Hin].
    apply elem_of_map_to_list in Hin. eauto.
  - intros (k & Hk & Hp). exists (k, a). split; [done|].
    apply list_elem_of_filter. by rewrite elem_of_map_to_list.
Qed.
End tables.

Definition bytes_eqb (a b : bytes) : bool := bool_decide (a = b).

Lemma bytes_eqb_true a b : bytes_eqb a b = true <-> a = b.
Proof. apply bool_decide_eq_true. Qed.
Lemma bytes_eqb_false a b : bytes_eqb a b = false <-> a <> b.
Proof. apply bool_decide_eq_false. Qed.
Lemma bytes_eqb_refl a : bytes_eqb a a = true.
Proof. by apply bytes_eqb_true. Qed.

(** ** error.rs *)

Inductive StorageError :=
| WrongKeyOrCorrupt
| VersionRollback (current attempted : N)
| BadKeyLength
| VersionOutOfRange
| SchemaVersion (v : Z)
| Sqlite.

(** ** records.rs *)

Inductive SyncTarget := Local | Cloud.
Definition sync_target_to_i64 (t : SyncTarget) : Z :=
  match t with Local => 0 | Cloud => 1 end.
Definition sync_target_from_i64 (v : Z) : option SyncTarget :=
  match v with 0%Z => Some Local | 1%Z => Some Cloud | _ => None end.

Inductive CachePolicy := OfflineAllowed | OnlineOnly.
Definition cache_policy_to_i64 (p : CachePolicy) : Z :=
  match p with OfflineAllowed => 0 | OnlineOnly => 1 end.
Definition cache_policy_from_i64 (v : Z) : option CachePolicy :=
  match v with 0%Z => Some OfflineAllowed | 1%Z => Some OnlineOnly | _ => None end.

Inductive MemberRole := Viewer | Editor | Admin.
Definition role_to_i64 (r : MemberRole) : Z :=
  match r with Viewer => 0 | Editor => 1 | Admin => 2 end.
Definition role_from_i64 (v : Z) : option MemberRole :=
  match v with 0%Z => Some Viewer | 1%Z => Some Editor | 2%Z => Some Admin | _ => None end.

#[global] Instance StorageError_eq_dec : EqDecision StorageError.
Proof. solve_decision. Defined.
#[global] Instance SyncTarget_eq_dec : EqDecision SyncTarget.
Proof. solve_decision. Defined.
#[global] Instance CachePolicy_eq_dec : EqDecision CachePolicy.
Proof. solve_decision. Defined.
#[global] Instance MemberRole_eq_dec : EqDecision MemberRole.
Proof. solve_decision. Defined.

Record VaultRecord := mkVaultRecord {
  vr_vault_id : bytes;
  vr_sync_target : SyncTarget;
  vr_name_blob : bytes;
  vr_wrapped_vk : bytes;
  vr_version : N;
  vr_tombstone : bool;
  vr_signature : bytes;
  vr_author_pubkey : bytes;
  vr_key_epoch : N;
  vr_cache_policy : CachePolicy;
  vr_sync_tenant : bytes
}.

Record ItemVersion := mkItemVersion {
  iv_vault_id : bytes;
  iv_item_id : bytes;
  iv_version : N;
  iv_item_type : N;
  iv_author_pubkey : bytes;
  iv_key_epoch : N
}.

Record ItemRecord := mkItemRecord {
  ir_vault_id : bytes;
  ir_item_id : bytes;
  ir_item_type : N;
  ir_content_blob : bytes;
  ir_wrapped_item_key : bytes;
  ir_version : N;
  ir_tombstone : bool;
  ir_signature : bytes;
  ir_author_pubkey : bytes;
  ir_created_at : Z;
  ir_updated_at : Z;
  ir_key_epoch : N
}.

Record MembershipManifest := mkManifest {
  mm_vault_id : bytes;
  mm_key_epoch : N;
  mm_manifest_blob : bytes;
  mm_signature : bytes;
  mm_author_pubkey : bytes
}.

Record MembershipGrant := mkGrant {
  mg_vault_id : bytes;
  mg_member_pubkey : bytes;
  mg_key_epoch : N;
  mg_role : MemberRole;
  mg_not_after : Z;
  mg_wrapped_vk : bytes;
  mg_signature : bytes;
  mg_author_pubkey : bytes
}.

Record AuditEntry := mkAudit {
  ae_seq : N;
  ae_entry_blob : bytes;
  ae_signature : bytes;
  ae_author_pubkey : bytes;
  ae_recorded_at : Z
}.

Record PinnedMemberKey := mkPinned {
  pk_account_id : bytes;
  pk_member_pubkey : bytes;
  pk_fingerprint : bytes;
  pk_added_at : Z
}.

Record VaultTrustAnchor := mkAnchor {
  ta_vault_id : bytes;
  ta_genesis_owner_pubkey : bytes;
  ta_pinned_at : Z
}.

Record AccountStateRecord := mkAccountState {
  as_author_pubkey : bytes;
  as_version : N;
  as_payload : bytes;
  as_signature : bytes;
  as_updated_at : Z
}.

Record KnownHost := mkKnownHost {
  kh_host : bytes;
  kh_port : N;
  kh_host_key : bytes;
  kh_added_at : Z
}.

#[global] Instance VaultRecord_eq_dec : EqDecision VaultRecord.
Proof. solve_decision. Defined.
#[global] Instance ItemRecord_eq_dec : EqDecision ItemRecord.
Proof. solve_decision. Defined.
#[global] Instance MembershipManifest_eq_dec : EqDecision MembershipManifest.
Proof. solve_decision. Defined.
#[global] Instance MembershipGrant_eq_dec : EqDecision MembershipGrant.
Proof. solve_decision. Defined.
#[global] Instance AccountStateRecord_eq_dec : EqDecision AccountStateRecord.
Proof. solve_decision. Defined.

(** ** schema.rs: the tables *)

(** a row of a table with the [dirty] column *)
Record Row (A : Type) := mkRow { row : A; dirty : bool }.
Arguments mkRow {A} row dirty.
Arguments row {A} r.
Arguments dirty {A} r.

Definition set_row_dirty {A} (d : bool) (r : Row A) : Row A := mkRow (row r) d.

Record Storage := mkStorage {
  meta : gmap bytes bytes;
  vaults : gmap bytes (Row VaultRecord);
  items : gmap (bytes * bytes) (Row ItemRecord);
  item_history : list ItemRecord;
  known_hosts : gmap (bytes * N) KnownHost;
  manifests : gmap (bytes * N) (Row MembershipManifest);
  grants : gmap (bytes * bytes * N) (Row MembershipGrant);
  pinned_member_keys : gmap bytes PinnedMemberKey;
  audit_log : list AuditEntry;
  epoch_floor : gmap bytes N;
  sync_state : gmap bytes N;
  trust_anchor : gmap bytes VaultTrustAnchor;
  account_state : gmap bytes AccountStateRecord;
  clock : Z
}.

Definition SM := M Storage StorageError.

Definition set_meta_tbl f s := mkStorage (f (meta s)) (vaults s) (items s) (item_history s)
  (known_hosts s) (manifests s) (grants s) (pinned_member_keys s) (audit_log s)
  (epoch_floor s) (sync_state s) (trust_anchor s) (account_state s) (clock s).
Definition set_vaults f s := mkStorage (meta s) (f (vaults s)) (items s) (item_history s)
  (known_hosts s) (manifests s) (grants s) (pinned_member_keys s) (audit_log s)
  (epoch_floor s) (sync_state s) (trust_anchor s) (account_state s) (clock s).
Definition set_items f s := mkStorage (meta s) (vaults s) (f (items s)) (item_history s)
  (known_hosts s) (manifests s) (grants s) (pinned_member_keys s) (audit_log s)
  (epoch_floor s) (sync_state s) (trust_anchor s) (account_state s) (clock s).
Definition set_item_history f s := mkStorage (meta s) (vaults s) (items s) (f (item_history s))
  (known_hosts s) (manifests s) (grants s) (pinned_member_keys s) (audit_log s)
  (epoch_floor s) (sync_state s) (trust_anchor s) (account_state s) (clock s).
Definition set_known_hosts f s := mkStorage (meta s) (vaults s) (items s) (item_history s)
  (f (known_hosts s)) (manifests s) (grants s) (pinned_member_keys s) (audit_log s)
  (epoch_floor s) (sync_state s) (trust_anchor s) (account_state s) (clock s).
Definition set_manifests f s := mkStorage (meta s) (vaults s) (items s) (item_history s)
  (known_hosts s) (f (manifests s)) (grants s) (pinned_member_keys s) (audit_log s)
  (epoch_floor s) (sync_state s) (trust_anchor s) (account_state s) (clock s).
Definition set_grants f s := mkStorage (meta s) (vaults s) (items s) (item_history s)
  (known_hosts s) (manifests s) (f (grants s)) (pinned_member_keys s) (audit_log s)
  (epoch_floor s) (sync_state s) (trust_anchor s) (account_state s) (clock s).
Definition set_pinned f s := mkStorage (meta s) (vaults s) (items s) (item_history s)
  (known_hosts s) (manifests s) (grants s) (f (pinned_member_keys s)) (audit_log s)
  (epoch_floor s) (sync_state s) (trust_anchor s) (account_state s) (clock s).
Definition set_audit_log f s := mkStorage (meta s) (vaults s) (items s) (item_history s)
  (known_hosts s) (manifests s) (grants s) (pinned_member_keys s) (f (audit_log s))
  (epoch_floor s) (sync_state s) (trust_anchor s) (account_state s) (clock s).
Definition set_epoch_floor f s := mkStorage (meta s) (vaults s) (items s) (item_history s)
  (known_hosts s) (manifests s) (grants s) (pinned_member_keys s) (audit_log s)
  (f (epoch_floor s)) (sync_state s) (trust_anchor s) (account_state s) (clock s).
Definition set_sync_state f s := mkStorage (meta s) (vaults s) (items s) (item_history s)
  (known_hosts s) (manifests s) (grants s) (pinned_member_keys s) (audit_log s)
  (epoch_floor s) (f (sync_state s)) (trust_anchor s) (account_state s) (clock s).
Definition set_trust_anchor f s := mkStorage (meta s) (vaults s) (items s) (item_history s)
  (known_hosts s) (manifests s) (grants s) (pinned_member_keys s) (audit_log s)
  (epoch_floor s) (sync_state s) (f (trust_anchor s)) (account_state s) (clock s).
Definition set_account_tbl f s := mkStorage (meta s) (vaults s) (items s) (item_history s)
  (known_hosts s) (manifests s) (grants s) (pinned_member_keys s) (audit_log s)
  (epoch_floor s) (sync_state s) (trust_anchor s) (f (account_state s)) (clock s).

(** a freshly migrated database *)
Definition empty_storage (now : Z) : Storage :=
  mkStorage ∅ ∅ ∅ [] ∅ ∅ ∅ ∅ [] ∅ ∅ ∅ ∅ now.

(** ** store.rs: helpers *)

Definition checked_version (v : N) : result StorageError N :=
  if v <=? i64_max then Ok v else Err VersionOutOfRange.

(** [Storage::transaction]; nested calls are savepoints, also [atomically]. *)
Definition transaction {A} (f : SM A) : SM A := atomically f.

(** ** store.rs: meta *)

Definition set_meta (key value : bytes) : SM unit :=
  modify (set_meta_tbl (<[key := value]>)).
Definition get_meta (s : Storage) (key : bytes) : option bytes := meta s !! key.

(** ** store.rs: vaults *)

Definition set_tenant (t : bytes) (v : VaultRecord) : VaultRecord :=
  mkVaultRecord (vr_vault_id v) (vr_sync_target v) (vr_name_blob v) (vr_wrapped_vk v)
    (vr_version v) (vr_tombstone v) (vr_signature v) (vr_author_pubkey v)
    (vr_key_epoch v) (vr_cache_policy v) t.

Definition put_vault (v : VaultRecord) : SM unit :=
  version ← lift_result (checked_version (vr_version v));
  _ ← lift_result (checked_version (vr_key_epoch v));
  s ← get_state;
  match vaults s !! vr_vault_id v with
  | None => modify (set_vaults (<[vr_vault_id v := mkRow v false]>))
  | Some old =>
      if vr_version (row old) <? version then
        let tenant := if (length (vr_sync_tenant v) =? 0)%nat
                      then vr_sync_tenant (row old) else vr_sync_tenant v in
        modify (set_vaults (<[vr_vault_id v := mkRow (set_tenant tenant v) (dirty old)]>))
      else throw (VersionRollback (vr_version (row old)) (vr_version v))
  end.

Definition get_vault (s : Storage) (vault_id : bytes) : option VaultRecord :=
  row <$> vaults s !! vault_id.

Definition list_vaults (s : Storage) : list VaultRecord :=
  sort_on vr_vault_id
    (row <$> select_where (fun _ r => negb (vr_tombstone (row r))) (vaults s)).

Definition is_cloud (v : VaultRecord) : bool := bool_decide (vr_sync_target v = Cloud).
Definition unbound (v : VaultRecord) : bool := (length (vr_sync_tenant v) =? 0)%nat.

Definition list_tombstoned_cloud_vaults (s : Storage) : list VaultRecord :=
  sort_on vr_vault_id
    (row <$> select_where (fun _ r => vr_tombstone (row r) && is_cloud (row r)) (vaults s)).

Definition bind_unbound_cloud_vaults (tenant : bytes) : SM N :=
  s ← get_state;
  let in_unbound (vault_id : bytes) : bool :=
    match vaults s !! vault_id with
    | Some v => is_cloud (row v) && unbound (row v)
    | None => false
    end in
  let is_unbound (_ : bytes) (v : Row VaultRecord) : bool :=
    is_cloud (row v) && unbound (row v) in
  _ ← modify (set_vaults (update_where is_unbound (set_row_dirty true)));
  _ ← modify (set_items (update_where (fun k _ => in_unbound k.1) (set_row_dirty true)));
  _ ← modify (set_manifests (update_where (fun k _ => in_unbound k.1) (set_row_dirty true)));
  _ ← modify (set_grants (update_where (fun k _ => in_unbound k.1.1) (set_row_dirty true)));
  s1 ← get_state;
  let n := count_where is_unbound (vaults s1) in
  _ ← modify (set_vaults (update_where is_unbound
        (fun v => mkRow (set_tenant tenant (row v)) (dirty v))));
  mret n.

Definition mark_vault_dirty (vault_id : bytes) : SM unit :=
  modify (set_vaults (update_where (fun k _ => bytes_eqb k vault_id) (set_row_dirty true))).

Definition mark_item_dirty (vault_id item_id : bytes) : SM unit :=
  modify (set_items (update_where
    (fun k _ => bytes_eqb k.1 vault_id && bytes_eqb k.2 item_id) (set_row_dirty true))).

Definition mark_vault_and_contents_dirty (vault_id : bytes) : SM unit :=
  _ ← modify (set_vaults (update_where (fun k _ => bytes_eqb k vault_id) (set_row_dirty true)));
  _ ← modify (set_items (update_where (fun k _ => bytes_eqb k.1 vault_id) (set_row_dirty true)));
  _ ← modify (set_manifests
        (update_where (fun k _ => bytes_eqb k.1 vault_id) (set_row_dirty true)));
  modify (set_grants (update_where (fun k _ => bytes_eqb k.1.1 vault_id) (set_row_dirty true))).

Definition mark_membership_dirty (vault_id : bytes) (key_epoch : N) : SM unit :=
  e ← lift_result (checked_version key_epoch);
  _ ← modify (set_manifests (update_where
        (fun k _ => bytes_eqb k.1 vault_id && (k.2 =? e)) (set_row_dirty true)));
  modify (set_grants (update_where
        (fun k _ => bytes_eqb k.1.1 vault_id && (k.2 =? e)) (set_row_dirty true))).

(** [UPDATE vaults SET sync_tenant = tenant WHERE p]; the rows changed *)
Definition update_tenant (p : bytes -> Row VaultRecord -> bool) (tenant : bytes) : SM N :=
  s ← get_state;
  _ ← modify (set_vaults (update_where p (fun v => mkRow (set_tenant tenant (row v)) (dirty v))));
  mret (count_where p (vaults s)).

Definition set_vault_tenant (vault_id tenant : bytes) : SM unit :=
  n ← update_tenant (fun k v => bytes_eqb k vault_id && is_cloud (row v)) tenant;
  if 0 <? n then mark_vault_and_contents_dirty vault_id else mret tt.

Definition adopt_pulled_binding (vault_id tenant : bytes) : SM unit :=
  _ ← update_tenant
        (fun k v => bytes_eqb k vault_id && is_cloud (row v) && unbound (row v)) tenant;
  mret tt.

Definition clear_binding_for_tenant (tenant : bytes) : SM N :=
  update_tenant (fun _ v => is_cloud (row v) && bytes_eqb (vr_sync_tenant (row v)) tenant) [].

Definition unbind_vault (vault_id : bytes) : SM N :=
  update_tenant (fun k v => bytes_eqb k vault_id && is_cloud (row v) && negb (unbound (row v))) [].

(** ** store.rs: items *)

Definition with_times (created updated : Z) (it : ItemRecord) : ItemRecord :=
  mkItemRecord (ir_vault_id it) (ir_item_id it) (ir_item_type it) (ir_content_blob it)
    (ir_wrapped_item_key it) (ir_version it) (ir_tombstone it) (ir_signature it)
    (ir_author_pubkey it) created updated (ir_key_epoch it).

Definition item_key (it : ItemRecord) : bytes * bytes := (ir_vault_id it, ir_item_id it).

Definition put_item (it : ItemRecord) : SM unit :=
  version ← lift_result (checked_version (ir_version it));
  s ← get_state;
  let now := clock s in
  _ ← lift_result (checked_version (ir_key_epoch it));
  match items s !! item_key it with
  | None => modify (set_items (<[item_key it := mkRow (with_times now now it) false]>))
  | Some old =>
      if ir_version (row old) <? version then
        modify (set_items (<[item_key it :=
          mkRow (with_times (ir_created_at (row old)) now it) (dirty old)]>))
      else throw (VersionRollback (ir_version (row old)) (ir_version it))
  end.

Definition set_item_timestamps (vault_id item_id : bytes) (created_at updated_at : Z) : SM bool :=
  s ← get_state;
  match items s !! (vault_id, item_id) with
  | Some r =>
      _ ← modify (set_items (<[(vault_id, item_id) :=
            mkRow (with_times created_at updated_at (row r)) (dirty r)]>));
      mret true
  | None => mret false
  end.

Definition get_item (s : Storage) (vault_id item_id : bytes) : option ItemRecord :=
  row <$> items s !! (vault_id, item_id).

Definition query_items (s : Storage) (vault_id : bytes) (include_tombstones : bool)
    : list ItemRecord :=
  sort_on ir_item_id (row <$> select_where (fun k r =>
    bytes_eqb k.1 vault_id && (include_tombstones || negb (ir_tombstone (row r)))) (items s)).
Definition list_items s vault_id := query_items s vault_id false.
Definition list_items_including_tombstones s vault_id := query_items s vault_id true.

Definition item_ids_page (s : Storage) (vault_id : bytes) (item_type : N)
    (after : option bytes) (limit : N) : list bytes :=
  take (N.to_nat limit) (sort_on id (ir_item_id ∘ row <$> select_where (fun k r =>
    bytes_eqb k.1 vault_id && (ir_item_type (row r) =? item_type)
    && negb (ir_tombstone (row r))
    && match after with None => true | Some a => negb (bytes_leb (ir_item_id (row r)) a) end)
    (items s))).

(** ** store.rs: item history *)

Definition of_item (vault_id item_id : bytes) (r : ItemRecord) : bool :=
  bytes_eqb (ir_vault_id r) vault_id && bytes_eqb (ir_item_id r) item_id.

Definition clear_item_history (vault_id item_id : bytes) : SM unit :=
  modify (set_item_history (filter (fun r => of_item vault_id item_id r = false))).

Definition put_item_and_clear_history (record : ItemRecord) : SM unit :=
  transaction (
    _ ← put_item record;
    clear_item_history (ir_vault_id record) (ir_item_id record)).

(** [INSERT OR IGNORE] under UNIQUE (vault_id, item_id, version) *)
Definition insert_history (r : ItemRecord) : SM unit :=
  _ ← lift_result (checked_version (ir_version r));
  _ ← lift_result (checked_version (ir_key_epoch r));
  modify (set_item_history (fun h =>
    if existsb (fun r' => of_item (ir_vault_id r) (ir_item_id r) r'
                          && (ir_version r' =? ir_version r)) h
    then h else h ++ [r])).

(** [DELETE ... WHERE hseq NOT IN (SELECT hseq ... ORDER BY hseq DESC LIMIT n)]:
    walking from the newest row, the first [n] rows of the item stay. *)
Fixpoint keep_newest (p : ItemRecord -> bool) (n : nat) (newest_first : list ItemRecord)
    : list ItemRecord :=
  match newest_first with
  | [] => []
  | r :: h =>
      if p r then
        match n with
        | O => keep_newest p O h
        | S n' => r :: keep_newest p n' h
        end
      else r :: keep_newest p n h
  end.

Definition trim_history (vault_id item_id : bytes) (retain : N) : SM unit :=
  let retain := N.min retain i64_max in
  modify (set_item_history (fun h =>
    (* a bound above the table's size keeps every row *)
    let n := if len h <=? retain then length h else N.to_nat retain in
    reverse (keep_newest (of_item vault_id item_id) n (reverse h)))).

Definition archive_and_put (record : ItemRecord) (retain : N) : SM unit :=
  transaction (
    s ← get_state;
    _ ← match get_item s (ir_vault_id record) (ir_item_id record) with
        | Some existing => if ir_tombstone existing then mret tt else insert_history existing
        | None => mret tt
        end;
    _ ← put_item record;
    trim_history (ir_vault_id record) (ir_item_id record) retain).

Definition list_item_history (s : Storage) (vault_id item_id : bytes) : list ItemRecord :=
  stable_sort (fun a b => ir_version b <=? ir_version a)
    (filter (fun r => of_item vault_id item_id r = true) (item_history s)).

Definition list_all_history (s : Storage) (vault_id : bytes) : list ItemRecord :=
  stable_sort (fun a b =>
      negb (bytes_leb (ir_item_id b) (ir_item_id a))
      || (bytes_eqb (ir_item_id a) (ir_item_id b) && (ir_version b <=? ir_version a)))
    (filter (fun r => bytes_eqb (ir_vault_id r) vault_id = true) (item_history s)).

Definition delete_item_history_above (vault_id item_id : bytes) (version : N) : SM unit :=
  version ← lift_result (checked_version version);
  modify (set_item_history (filter (fun r =>
    (of_item vault_id item_id r && (version <? ir_version r)) = false))).

Definition discard_unpushed_item (vault_id item_id : bytes) (version : N)
    (author_pubkey : bytes) : SM bool :=
  version ← lift_result (checked_version version);
  s ← get_state;
  match items s !! (vault_id, item_id) with
  | Some r =>
      if dirty r && (ir_version (row r) =? version)
         && bytes_eqb (ir_author_pubkey (row r)) author_pubkey
      then _ ← modify (set_items (delete (vault_id, item_id))); mret true
      else mret false
  | None => mret false
  end.

(** ** store.rs: hard delete of a vault *)

Definition purge (vault_id : bytes) (drop_trust_anchor : bool) : SM unit :=
  transaction (
    _ ← modify (set_item_history (filter (fun r => bytes_eqb (ir_vault_id r) vault_id = false)));
    _ ← modify (set_items (delete_where (fun k _ => bytes_eqb k.1 vault_id)));
    _ ← modify (set_grants (delete_where (fun k _ => bytes_eqb k.1.1 vault_id)));
    _ ← modify (set_manifests (delete_where (fun k _ => bytes_eqb k.1 vault_id)));
    _ ← modify (set_epoch_floor (delete vault_id));
    _ ← (if drop_trust_anchor then modify (set_trust_anchor (delete vault_id)) else mret tt);
    modify (set_vaults (delete vault_id))).
Definition purge_vault_data vault_id := purge vault_id true.
Definition purge_vault_data_keeping_trust vault_id := purge vault_id false.

(** ** store.rs: known hosts *)

Definition ascii_lower (b : byte) : byte :=
  let n := Byte.to_N b in
  if (65 <=? n) && (n <=? 90) then byte_of_N (n + 32) else b.
Definition to_ascii_lowercase (s : bytes) : bytes := ascii_lower <$> s.

Definition get_known_host (s : Storage) (host : bytes) (port : N) : option bytes :=
  kh_host_key <$> known_hosts s !! (to_ascii_lowercase host, port).

Definition put_known_host (host : bytes) (port : N) (host_key : bytes) : SM unit :=
  let host := to_ascii_lowercase host in
  s ← get_state;
  modify (set_known_hosts (<[(host, port) := mkKnownHost host port host_key (clock s)]>)).

Definition list_known_hosts (s : Storage) : list KnownHost :=
  stable_sort (fun a b =>
      negb (bytes_leb (kh_host b) (kh_host a))
      || (bytes_eqb (kh_host a) (kh_host b) && (kh_port a <=? kh_port b)))
    ((map_to_list (known_hosts s)).*2).

Definition remove_known_host (host : bytes) (port : N) : SM bool :=
  let host := to_ascii_lowercase host in
  s ← get_state;
  _ ← modify (set_known_hosts (delete (host, port)));
  mret (bool_decide (is_Some (known_hosts s !! (host, port)))).

(** ** store.rs: membership manifests and grants *)

Definition manifest_key (m : MembershipManifest) : bytes * N := (mm_vault_id m, mm_key_epoch m).
Definition grant_key (g : MembershipGrant) : bytes * bytes * N :=
  (mg_vault_id g, mg_member_pubkey g, mg_key_epoch g).

(** an UPSERT that leaves the [dirty] column alone; a new row is clean *)
Definition upsert_row `{Countable K} {A} (k : K) (a : A) (m : gmap K (Row A)) : gmap K (Row A) :=
  <[k := mkRow a (default false (dirty <$> m !! k))]> m.

Definition put_membership_manifest (m : MembershipManifest) : SM unit :=
  _ ← lift_result (checked_version (mm_key_epoch m));
  modify (set_manifests (upsert_row (manifest_key m) m)).

Definition get_membership_manifest (s : Storage) (vault_id : bytes) (key_epoch : N)
    : result StorageError (option MembershipManifest) :=
  epoch ← checked_version key_epoch;
  Ok (row <$> manifests s !! (vault_id, epoch)).

(** [SELECT MAX(key_epoch) ... WHERE vault_id = ?1] *)
Definition latest_membership_epoch (s : Storage) (vault_id : bytes) : option N :=
  match filter (fun k => k.1 = vault_id) ((map_to_list (manifests s)).*1) with
  | [] => None
  | ks => Some (foldr N.max 0 (ks.*2))
  end.

Definition put_membership_grant (g : MembershipGrant) : SM unit :=
  _ ← lift_result (checked_version (mg_key_epoch g));
  modify (set_grants (upsert_row (grant_key g) g)).

Definition list_membership_grants (s : Storage) (vault_id : bytes) (key_epoch : N)
    : result StorageError (list MembershipGrant) :=
  epoch ← checked_version key_epoch;
  Ok (sort_on mg_member_pubkey
       (row <$> select_where (fun k _ => bytes_eqb k.1.1 vault_id && (k.2 =? epoch)) (grants s))).

Definition remove_membership_grant (vault_id member_pubkey : bytes) (key_epoch : N) : SM bool :=
  epoch ← lift_result (checked_version key_epoch);
  s ← get_state;
  _ ← modify (set_grants (delete (vault_id, member_pubkey, epoch)));
  mret (bool_decide (is_Some (grants s !! (vault_id, member_pubkey, epoch)))).

(** ** store.rs: dirty rows of bound cloud vaults *)

(** the JOIN condition: the vault row exists, is cloud and bound to [tenant] *)
Definition bound_to (s : Storage) (tenant vault_id : bytes) : bool :=
  match vaults s !! vault_id with
  | Some v => bytes_eqb (vr_sync_tenant (row v)) tenant && is_cloud (row v)
  | None => false
  end.

Definition list_dirty_bound_vaults (s : Storage) (tenant : bytes) : list VaultRecord :=
  sort_on vr_vault_id (row <$> select_where (fun _ v =>
    dirty v && bytes_eqb (vr_sync_tenant (row v)) tenant && is_cloud (row v)) (vaults s)).

Definition item_version_of (it : ItemRecord) : ItemVersion :=
  mkItemVersion (ir_vault_id it) (ir_item_id it) (ir_version it) (ir_item_type it)
    (ir_author_pubkey it) (ir_key_epoch it).

(** [ORDER BY a, b] on two blob columns *)
Definition lex2_leb (a1 a2 b1 b2 : bytes) : bool :=
  negb (bytes_leb b1 a1) || (bytes_eqb a1 b1 && bytes_leb a2 b2).

Definition list_dirty_bound_item_versions (s : Storage) (tenant : bytes) : list ItemVersion :=
  stable_sort (fun a b =>
      lex2_leb (iv_vault_id a) (iv_item_id a) (iv_vault_id b) (iv_item_id b))
    (item_version_of ∘ row <$>
      select_where (fun k r => bound_to s tenant k.1 && dirty r) (items s)).

Definition list_dirty_bound_manifests (s : Storage) (tenant : bytes) : list MembershipManifest :=
  stable_sort (fun a b =>
      negb (bytes_leb (mm_vault_id b) (mm_vault_id a))
      || (bytes_eqb (mm_vault_id a) (mm_vault_id b) && (mm_key_epoch a <=? mm_key_epoch b)))
    (row <$> select_where (fun k r => bound_to s tenant k.1 && dirty r) (manifests s)).

Definition list_dirty_bound_grants (s : Storage) (tenant : bytes) : list MembershipGrant :=
  stable_sort (fun a b =>
      negb (bytes_leb (mg_vault_id b) (mg_vault_id a))
      || (bytes_eqb (mg_vault_id a) (mg_vault_id b)
          && (negb (bytes_leb (mg_member_pubkey b) (mg_member_pubkey a))
              || (bytes_eqb (mg_member_pubkey a) (mg_member_pubkey b)
                  && (mg_key_epoch a <=? mg_key_epoch b)))))
    (row <$> select_where (fun k r => bound_to s tenant k.1.1 && dirty r) (grants s)).

Definition clear_vault_dirty (vault_id : bytes) : SM unit :=
  modify (set_vaults (update_where (fun k _ => bytes_eqb k vault_id) (set_row_dirty false))).

Definition clear_item_dirty (vault_id item_id : bytes) : SM unit :=
  modify (set_items (update_where
    (fun k _ => bytes_eqb k.1 vault_id && bytes_eqb k.2 item_id) (set_row_dirty false))).

Definition clear_manifest_dirty (vault_id : bytes) (key_epoch : N) : SM unit :=
  e ← lift_result (checked_version key_epoch);
  modify (set_manifests (update_where
    (fun k _ => bytes_eqb k.1 vault_id && (k.2 =? e)) (set_row_dirty false))).

Definition clear_grant_dirty (vault_id member_pubkey : bytes) (key_epoch : N) : SM unit :=
  e ← lift_result (checked_version key_epoch);
  modify (set_grants (update_where (fun k _ =>
    bytes_eqb k.1.1 vault_id && bytes_eqb k.1.2 member_pubkey && (k.2 =? e))
    (set_row_dirty false))).

(** ** store.rs: pinned member keys *)

Definition pin_member_key (account_id member_pubkey fingerprint : bytes) : SM unit :=
  s ← get_state;
  modify (set_pinned (<[account_id :=
    mkPinned account_id member_pubkey fingerprint (clock s)]>)).
Definition get_pinned_member_key (s : Storage) (account_id : bytes) : option PinnedMemberKey :=
  pinned_member_keys s !! account_id.
Definition list_pinned_member_keys (s : Storage) : list PinnedMemberKey :=
  sort_on pk_account_id ((map_to_list (pinned_member_keys s)).*2).
Definition remove_pinned_member_key (account_id : bytes) : SM bool :=
  s ← get_state;
  _ ← modify (set_pinned (delete account_id));
  mret (bool_decide (is_Some (pinned_member_keys s !! account_id))).

(** ** store.rs: append-only audit log *)

(** No row is ever deleted, so the autoincrement key is the row count. *)
Definition append_audit (entry_blob signature author_pubkey : bytes) : SM N :=
  s ← get_state;
  let seq := len (audit_log s) + 1 in
  if i64_max <? seq then throw Sqlite else
  _ ← modify (set_audit_log (fun l =>
        l ++ [mkAudit seq entry_blob signature author_pubkey (clock s)]));
  mret seq.

Definition list_audit (s : Storage) (since_seq : N) : list AuditEntry :=
  if i64_max <? since_seq then []
  else filter (fun e => (since_seq <? ae_seq e) = true) (audit_log s).

(** ** store.rs: sync cursors, epoch floors, anchors, account state *)

Definition set_sync_cursor (key : bytes) (v : N) : SM unit :=
  value ← lift_result (checked_version v);
  modify (set_sync_state (<[key := value]>)).
Definition get_sync_cursor (s : Storage) (key : bytes) : option N := sync_state s !! key.

Definition set_vault_epoch_floor (vault_id : bytes) (epoch : N) : SM unit :=
  value ← lift_result (checked_version epoch);
  modify (set_epoch_floor (<[vault_id := value]>)).
Definition get_vault_epoch_floor (s : Storage) (vault_id : bytes) : option N :=
  epoch_floor s !! vault_id.

Definition set_vault_trust_anchor (vault_id genesis_owner_pubkey : bytes) : SM unit :=
  s ← get_state;
  modify (set_trust_anchor (<[vault_id := mkAnchor vault_id genesis_owner_pubkey (clock s)]>)).
Definition get_vault_trust_anchor (s : Storage) (vault_id : bytes) : option VaultTrustAnchor :=
  trust_anchor s !! vault_id.

Definition set_account_state (author_pubkey : bytes) (version : N) (payload signature : bytes)
    : SM unit :=
  v ← lift_result (checked_version version);
  s ← get_state;
  modify (set_account_tbl (<[author_pubkey :=
    mkAccountState author_pubkey v payload signature (clock s)]>)).
Definition get_account_state (s : Storage) (author_pubkey : bytes) : option AccountStateRecord :=
  account_state s !! author_pubkey.
(** no ORDER BY: the order of the listing carries no meaning *)
Definition list_account_states (s : Storage) : list AccountStateRecord :=
  (map_to_list (account_state s)).*2.

(** ** Every operation that writes, as data *)

Inductive Op :=
| OpSetMeta (k v : bytes)
| OpPutVault (v : VaultRecord)
| OpBindUnbound (tenant : bytes)
| OpSetVaultTenant (vault_id tenant : bytes)
| OpAdoptBinding (vault_id tenant : bytes)
| OpClearBinding (tenant : bytes)
| OpUnbind (vault_id : bytes)
| OpPutItem (it : ItemRecord)
| OpSetTimestamps (vault_id item_id : bytes) (created updated : Z)
| OpPutItemClearHistory (it : ItemRecord)
| OpArchiveAndPut (it : ItemRecord) (retain : N)
| OpClearHistory (vault_id item_id : bytes)
| OpPurge (vault_id : bytes) (drop_anchor : bool)
| OpPutKnownHost (host : bytes) (port : N) (key : bytes)
| OpRemoveKnownHost (host : bytes) (port : N)
| OpPutManifest (m : MembershipManifest)
| OpPutGrant (g : MembershipGrant)
| OpRemoveGrant (vault_id member : bytes) (epoch : N)
| OpMarkVault (vault_id : bytes)
| OpMarkItem (vault_id item_id : bytes)
| OpMarkContents (vault_id : bytes)
| OpMarkMembership (vault_id : bytes) (epoch : N)
| OpClearVault (vault_id : bytes)
| OpClearItem (vault_id item_id : bytes)
| OpClearManifest (vault_id : bytes) (epoch : N)
| OpClearGrant (vault_id member : bytes) (epoch : N)
| OpDiscardItem (vault_id item_id : bytes) (version : N) (author : bytes)
| OpDeleteHistoryAbove (vault_id item_id : bytes) (version : N)
| OpPin (account member fingerprint : bytes)
| OpUnpin (account : bytes)
| OpAudit (entry signature author : bytes)
| OpSetCursor (key : bytes) (v : N)
| OpSetFloor (vault_id : bytes) (epoch : N)
| OpSetAnchor (vault_id owner : bytes)
| OpSetAccountState (author : bytes) (version : N) (payload signature : bytes)
| OpTick (now : Z).

Definition ignore {S E A} (m : M S E A) : M S E unit := _ ← m; mret tt.

Definition run_op (op : Op) : SM unit :=
  match op with
  | OpSetMeta k v => set_meta k v
  | OpPutVault v => put_vault v
  | OpBindUnbound t => ignore (bind_unbound_cloud_vaults t)
  | OpSetVaultTenant v t => set_vault_tenant v t
  | OpAdoptBinding v t => adopt_pulled_binding v t
  | OpClearBinding t => ignore (clear_binding_for_tenant t)
  | OpUnbind v => ignore (unbind_vault v)
  | OpPutItem it => put_item it
  | OpSetTimestamps v i c u => ignore (set_item_timestamps v i c u)
  | OpPutItemClearHistory it => put_item_and_clear_history it
  | OpArchiveAndPut it n => archive_and_put it n
  | OpClearHistory v i => clear_item_history v i
  | OpPurge v d => purge v d
  | OpPutKnownHost h p k => put_known_host h p k
  | OpRemoveKnownHost h p => ignore (remove_known_host h p)
  | OpPutManifest m => put_membership_manifest m
  | OpPutGrant g => put_membership_grant g
  | OpRemoveGrant v m e => ignore (remove_membership_grant v m e)
  | OpMarkVault v => mark_vault_dirty v
  | OpMarkItem v i => mark_item_dirty v i
  | OpMarkContents v => mark_vault_and_contents_dirty v
  | OpMarkMembership v e => mark_membership_dirty v e
  | OpClearVault v => clear_vault_dirty v
  | OpClearItem v i => clear_item_dirty v i
  | OpClearManifest v e => clear_manifest_dirty v e
  | OpClearGrant v m e => clear_grant_dirty v m e
  | OpDiscardItem v i n a => ignore (discard_unpushed_item v i n a)
  | OpDeleteHistoryAbove v i n => delete_item_history_above v i n
  | OpPin a m f => pin_member_key a m f
  | OpUnpin a => ignore (remove_pinned_member_key a)
  | OpAudit e s a => ignore (append_audit e s a)
  | OpSetCursor k v => set_sync_cursor k v
  | OpSetFloor v e => set_vault_epoch_floor v e
  | OpSetAnchor v o => set_vault_trust_anchor v o
  | OpSetAccountState a v p s => set_account_state a v p s
  | OpTick now => modify (fun s => mkStorage (meta s) (vaults s) (items s) (item_history s)
      (known_hosts s) (manifests s) (grants s) (pinned_member_keys s) (audit_log s)
      (epoch_floor s) (sync_state s) (trust_anchor s) (account_state s) now)
  end.

(** one call on the store, whether it succeeds or fails *)
Inductive step : Storage -> Storage -> Prop :=
| step_op op r s s' : run_op op s = (r, s') -> step s s'.

(** ** The well-formedness invariant *)

Definition vault_row_ok (k : bytes) (r : Row VaultRecord) : Prop :=
  vr_vault_id (row r) = k /\ vr_version (row r) <= i64_max /\ vr_key_epoch (row r) <= i64_max.
Definition item_row_ok (k : bytes * bytes) (r : Row ItemRecord) : Prop :=
  item_key (row r) = k /\ ir_version (row r) <= i64_max /\ ir_key_epoch (row r) <= i64_max.
Definition manifest_row_ok (k : bytes * N) (r : Row MembershipManifest) : Prop :=
  manifest_key (row r) = k /\ mm_key_epoch (row r) <= i64_max.
Definition grant_row_ok (k : bytes * bytes * N) (r : Row MembershipGrant) : Prop :=
  grant_key (row r) = k /\ mg_key_epoch (row r) <= i64_max.
Definition host_row_ok (k : bytes * N) (h : KnownHost) : Prop :=
  (kh_host h, kh_port h) = k /\ to_ascii_lowercase k.1 = k.1.
Definition history_key (r : ItemRecord) : bytes * bytes * N :=
  (ir_vault_id r, ir_item_id r, ir_version r).
Definition history_ok (h : list ItemRecord) : Prop :=
  NoDup (history_key <$> h) /\
  Forall (fun r => ir_version r <= i64_max /\ ir_key_epoch r <= i64_max) h.
Definition audit_ok (l : list AuditEntry) : Prop :=
  ae_seq <$> l = N.of_nat <$> seq 1 (length l) /\ len l <= i64_max.

Record store_wf (s : Storage) : Prop := {
  wf_vaults : map_Forall vault_row_ok (vaults s);
  wf_items : map_Forall item_row_ok (items s);
  wf_history : history_ok (item_history s);
  wf_hosts : map_Forall host_row_ok (known_hosts s);
  wf_manifests : map_Forall manifest_row_ok (manifests s);
  wf_grants : map_Forall grant_row_ok (grants s);
  wf_pinned : map_Forall (fun k p => pk_account_id p = k) (pinned_member_keys s);
  wf_audit : audit_ok (audit_log s);
  wf_floor : map_Forall (fun _ e => e <= i64_max) (epoch_floor s);
  wf_cursors : map_Forall (fun _ v => v <= i64_max) (sync_state s);
  wf_anchors : map_Forall (fun k a => ta_vault_id a = k) (trust_anchor s);
  wf_accounts : map_Forall
    (fun k a => as_author_pubkey a = k /\ as_version a <= i64_max) (account_state s)
}.
