(* ===== verification/StorageInv.v ===== *)
(** * Theorems about the local store

    The store's invariant under every operation, anti-rollback of versions,
    hard delete, the version archive, dirty tracking and host pinning. *)

From Stdlib Require Import Strings.Byte NArith ZArith Lia.
From stdpp Require Import base gmap sets list strings sorting countable.
From S2P Require Import Prelude Bytes Storage.

Local Open Scope N_scope.

(** Opens a run of monadic statements into its cases. *)
Ltac run_cases H :=
  cbv [mbind M_bind mret M_ret lift_result get_state modify throw transaction atomically
       ignore update_tenant] in H;
  repeat (case_match; simplify_eq; try done); simplify_eq.

Lemma checked_version_Ok v x : checked_version v = Ok x <-> x = v /\ v <= i64_max.
Proof.
  unfold checked_version. destruct (N.leb_spec v i64_max); split; intros;
    naive_solver lia.
Qed.

(** ** Tables under updates and deletes *)

Section tables.
Context `{Countable K} {A : Type} (P : K -> A -> Prop).

Lemma map_Forall_update_where p f (m : gmap K A) :
  (forall k a, P k a -> P k (f a)) -> map_Forall P m -> map_Forall P (update_where p f m).
Proof.
  intros Hf Hm k a. rewrite lookup_update_where. intros (b & Hb & ->)%fmap_Some.
  specialize (Hm _ _ Hb). destruct (p k b); auto.
Qed.

Lemma map_Forall_delete_where p (m : gmap K A) :
  map_Forall P m -> map_Forall P (delete_where p m).
Proof. intros Hm k a [Ha _]%lookup_delete_where. auto. Qed.
End tables.

Lemma map_Forall_upsert `{Countable K} {A} (P : K -> Row A -> Prop) k a m :
  (forall d, P k (mkRow a d)) -> map_Forall P m -> map_Forall P (upsert_row k a m).
Proof. intros Ha Hm. by apply map_Forall_insert_2. Qed.

Create HintDb store discriminated.
#[export] Hint Resolve map_Forall_update_where map_Forall_delete_where : store.
#[export] Hint Extern 1 (map_Forall _ (delete _ _)) => apply map_Forall_delete : store.
#[export] Hint Extern 1 (map_Forall _ (<[_ := _]> _)) =>
  apply map_Forall_insert_2; [done|] : store.
#[export] Hint Extern 1 (map_Forall _ (upsert_row _ _ _)) =>
  apply map_Forall_upsert; [done|] : store.
#[export] Hint Resolve wf_vaults wf_items wf_history wf_hosts wf_manifests wf_grants
  wf_pinned wf_audit wf_floor wf_cursors wf_anchors wf_accounts : store.

(** ** The archive *)

Lemma keep_newest_sublist p n h : keep_newest p n h `sublist_of` h.
Proof.
  revert n; induction h as [|r h IH]; intros n; simpl; [constructor|].
  destruct (p r); [destruct n|]; by constructor.
Qed.

Lemma sublist_reverse_2 {A} (l k : list A) : l `sublist_of` k -> reverse l `sublist_of` reverse k.
Proof.
  induction 1; rewrite ?reverse_cons; [done|by apply sublist_app|].
  etrans; [done|]. by apply sublist_inserts_r.
Qed.

Lemma history_ok_sublist h k : k `sublist_of` h -> history_ok h -> history_ok k.
Proof.
  intros Hs [Hnd Hall]. split.
  - eapply sublist_NoDup; [exact Hnd|]. by apply fmap_sublist.
  - rewrite list.Forall_forall in *. intros r Hr. apply Hall.
    by eapply elem_of_sublist.
Qed.

Lemma history_ok_filter (P : ItemRecord -> Prop) `{!forall r, Decision (P r)} h :
  history_ok h -> history_ok (filter P h).
Proof. apply history_ok_sublist, sublist_filter. Qed.

Lemma history_ok_trim v i n h :
  history_ok h -> history_ok (reverse (keep_newest (of_item v i) n (reverse h))).
Proof.
  apply history_ok_sublist. rewrite <-(reverse_involutive h) at 2.
  apply sublist_reverse_2, keep_newest_sublist.
Qed.

Lemma history_ok_insert r h :
  ir_version r <= i64_max -> ir_key_epoch r <= i64_max -> history_ok h ->
  history_ok (if existsb (fun r' => of_item (ir_vault_id r) (ir_item_id r) r'
                                    && (ir_version r' =? ir_version r)) h
              then h else h ++ [r]).
Proof.
  intros Hv He [Hnd Hall].
  destruct (existsb _ _) eqn:Hex; [done|].
  assert (history_key r ∉ history_key <$> h) as Hfresh.
  { intros (r' & Heq & Hin)%list_elem_of_fmap.
    apply not_true_iff_false in Hex. apply Hex, existsb_exists. exists r'.
    split; [by apply list_elem_of_In|]. unfold history_key in Heq. simplify_eq.
    unfold of_item. rewrite !andb_true_iff, !bytes_eqb_true, N.eqb_eq. done. }
  split.
  - rewrite fmap_app. apply list.NoDup_app. split_and!; [done| |apply NoDup_singleton].
    intros k Hk ->%list_elem_of_singleton. done.
  - apply Forall_app. split; [done|]. by constructor.
Qed.

Lemma audit_ok_append e l :
  audit_ok l -> ae_seq e = len l + 1 -> ~ i64_max < len l + 1 -> audit_ok (l ++ [e]).
Proof.
  intros [Hseq Hlen] He Hb. unfold audit_ok. rewrite len_app. split.
  - rewrite fmap_app, length_app. simpl. rewrite Hseq, He, seq_app, fmap_app. simpl.
    unfold len. do 2 f_equal. lia.
  - change (len [e]) with 1. lia.
Qed.
#[export] Hint Resolve history_ok_trim history_ok_insert audit_ok_append : store.
#[export] Hint Extern 1 (history_ok (filter _ _)) => apply history_ok_filter : store.

(** Proves [store_wf] of an updated store, field by field. *)
Ltac wf_fields :=
  split; cbn [vaults items item_history known_hosts manifests grants pinned_member_keys
    audit_log epoch_floor sync_state trust_anchor account_state set_meta_tbl set_vaults
    set_items set_item_history set_known_hosts set_manifests set_grants set_pinned
    set_audit_log set_epoch_floor set_sync_state set_trust_anchor set_account_tbl];
  eauto with store.

(** [m] keeps the invariant, whether it succeeds or fails. *)
Definition wf_rel (s s' : Storage) : Prop := store_wf s -> store_wf s'.
#[global] Instance wf_rel_preorder : PreOrder wf_rel.
Proof. split; unfold wf_rel; auto. Qed.
Abbreviation keeps_wf := (preserves wf_rel).

Ltac wf_table :=
  let s := fresh "s" in let r := fresh "r" in let s1 := fresh "s" in let H := fresh "H" in
  intros s r s1 H Hwf; run_cases H; rewrite ?checked_version_Ok in *;
  destruct_and?; subst; wf_fields.

Lemma wf_put_vault v : keeps_wf (put_vault v).
Proof. unfold put_vault. wf_table. Qed.

Lemma wf_put_item it : keeps_wf (put_item it).
Proof. unfold put_item. wf_table. Qed.

Lemma wf_set_item_timestamps v i c u : keeps_wf (set_item_timestamps v i c u).
Proof.
  unfold set_item_timestamps. wf_table. apply map_Forall_insert_2; [|eauto with store].
  match goal with Hr : items _ !! _ = Some _ |- _ => apply (wf_items _ Hwf) in Hr end. done.
Qed.

Lemma wf_clear_item_history v i : keeps_wf (clear_item_history v i).
Proof. unfold clear_item_history. wf_table. Qed.

Lemma wf_insert_history r : keeps_wf (insert_history r).
Proof. unfold insert_history. wf_table. Qed.

Lemma wf_trim_history v i n : keeps_wf (trim_history v i n).
Proof. unfold trim_history. wf_table. Qed.

Lemma wf_put_item_and_clear_history it : keeps_wf (put_item_and_clear_history it).
Proof.
  apply preserves_atomically, preserves_bind; [apply _..| |].
  - apply wf_put_item.
  - intros _. apply wf_clear_item_history.
Qed.

Lemma wf_archive_and_put it n : keeps_wf (archive_and_put it n).
Proof.
  apply preserves_atomically; [apply _|].
  apply preserves_bind; [apply _|by apply preserves_get; apply _|intros s].
  apply preserves_bind; [apply _| |intros _].
  { destruct (get_item _ _ _) as [e|]; [destruct (ir_tombstone e)|];
      [apply preserves_ret, _|apply wf_insert_history|apply preserves_ret, _]. }
  apply preserves_bind; [apply _|apply wf_put_item|intros _; apply wf_trim_history].
Qed.

(** rows that differ only in the routing label, the dirty flag or the times
    are as well-formed as before *)
Lemma vault_row_ok_tenant k r t d :
  vault_row_ok k r -> vault_row_ok k (mkRow (set_tenant t (row r)) d).
Proof. done. Qed.
Lemma vault_row_ok_dirty k r d : vault_row_ok k r -> vault_row_ok k (set_row_dirty d r).
Proof. done. Qed.
Lemma item_row_ok_dirty k r d : item_row_ok k r -> item_row_ok k (set_row_dirty d r).
Proof. done. Qed.
Lemma manifest_row_ok_dirty k r d :
  manifest_row_ok k r -> manifest_row_ok k (set_row_dirty d r).
Proof. done. Qed.
Lemma grant_row_ok_dirty k r d : grant_row_ok k r -> grant_row_ok k (set_row_dirty d r).
Proof. done. Qed.
#[export] Hint Resolve vault_row_ok_tenant vault_row_ok_dirty item_row_ok_dirty
  manifest_row_ok_dirty grant_row_ok_dirty : store.

Lemma to_ascii_lowercase_idem h : to_ascii_lowercase (to_ascii_lowercase h) = to_ascii_lowercase h.
Proof.
  unfold to_ascii_lowercase. rewrite <-list_fmap_compose. apply list_fmap_ext.
  intros _ b _. by destruct b.
Qed.

Lemma wf_put_known_host h p k : keeps_wf (put_known_host h p k).
Proof.
  unfold put_known_host. wf_table. apply map_Forall_insert_2; [|eauto with store].
  split; [done|]. apply to_ascii_lowercase_idem.
Qed.

Lemma wf_append_audit e sg a : keeps_wf (append_audit e sg a).
Proof.
  unfold append_audit. wf_table. apply audit_ok_append; [eauto with store|done|].
  by apply N.ltb_nlt.
Qed.

Lemma run_op_wf op : keeps_wf (run_op op).
Proof.
  destruct op; cbn [run_op];
    try (apply preserves_bind; [apply _| |intros; apply preserves_ret, _]);
    eauto using wf_put_vault, wf_put_item, wf_put_item_and_clear_history,
      wf_archive_and_put, wf_clear_item_history, wf_put_known_host,
      wf_set_item_timestamps, wf_append_audit.
  all: try (unfold set_meta, bind_unbound_cloud_vaults, set_vault_tenant,
    adopt_pulled_binding, clear_binding_for_tenant, unbind_vault, purge,
    remove_known_host, put_membership_manifest, put_membership_grant,
    remove_membership_grant, mark_vault_dirty, mark_item_dirty,
    mark_vault_and_contents_dirty, mark_membership_dirty, clear_vault_dirty,
    clear_item_dirty, clear_manifest_dirty, clear_grant_dirty, discard_unpushed_item,
    delete_item_history_above, pin_member_key, remove_pinned_member_key,
    set_sync_cursor, set_vault_epoch_floor, set_vault_trust_anchor, set_account_state;
    wf_table; fail).
Qed.

(** ** Versions only grow *)

Definition vault_newer (old new : VaultRecord) : Prop :=
  vr_version old < vr_version new \/ exists t, new = set_tenant t old.
Definition item_newer (old new : ItemRecord) : Prop :=
  ir_version old < ir_version new \/ exists c u, new = with_times c u old.

(** Every row of [m] is still in [m'], the same or newer. *)
Definition table_grows `{Countable K} {A} (newer : A -> A -> Prop)
    (m m' : gmap K (Row A)) : Prop :=
  forall k r, m !! k = Some r -> exists r', m' !! k = Some r' /\ newer (row r) (row r').

Definition versions_grow (s s' : Storage) : Prop :=
  table_grows vault_newer (vaults s) (vaults s') /\
  table_grows item_newer (items s) (items s').

#[global] Instance vault_newer_preorder : PreOrder vault_newer.
Proof.
  split.
  - intros v. right. exists (vr_sync_tenant v). by destruct v.
  - intros a b c [?|[t ->]] [?|[t' ->]]; unfold vault_newer; simpl in *;
      [left; lia|by left|by left|right; by exists t'].
Qed.
#[global] Instance item_newer_preorder : PreOrder item_newer.
Proof.
  split.
  - intros v. right. exists (ir_created_at v), (ir_updated_at v). by destruct v.
  - intros a b c [?|(c1 & u1 & ->)] [?|(c2 & u2 & ->)]; unfold item_newer; simpl in *;
      [left; lia|by left|by left|right; by exists c2, u2].
Qed.
#[global] Instance table_grows_preorder `{Countable K} {A} (newer : A -> A -> Prop)
  `{!PreOrder newer} : PreOrder (table_grows (K := K) newer).
Proof.
  split.
  - intros m k r Hr. exists r. split; [done|reflexivity].
  - intros a b c Hab Hbc k r (r1 & H1 & Hn1)%Hab. apply Hbc in H1 as (r2 & H2 & Hn2).
    exists r2. split; [done|]. by etrans.
Qed.
#[global] Instance versions_grow_preorder : PreOrder versions_grow.
Proof.
  split.
  - intros s. split; reflexivity.
  - intros a b c [] []. split; by etrans.
Qed.

Lemma table_grows_update `{Countable K} {A} (newer : A -> A -> Prop) p f (m : gmap K (Row A)) :
  PreOrder newer -> (forall r, newer (row r) (row (f r))) ->
  table_grows newer m (update_where p f m).
Proof.
  intros ? Hf k r Hr. exists (if p k r then f r else r).
  rewrite lookup_update_where, Hr. split; [done|]. destruct (p k r); [apply Hf|reflexivity].
Qed.

Lemma table_grows_insert `{Countable K} {A} (newer : A -> A -> Prop) k x (m : gmap K (Row A)) :
  PreOrder newer -> (forall r, m !! k = Some r -> newer (row r) (row x)) ->
  table_grows newer m (<[k := x]> m).
Proof.
  intros ? Hx k' r Hr. destruct (decide (k' = k)) as [->|Hne].
  - exists x. rewrite lookup_insert_eq. auto.
  - exists r. rewrite lookup_insert_ne by done. split; [done|reflexivity].
Qed.

Lemma newer_dirty_v d r : vault_newer (row r) (row (set_row_dirty d r)).
Proof. reflexivity. Qed.
Lemma newer_dirty_i d r : item_newer (row r) (row (set_row_dirty d r)).
Proof. reflexivity. Qed.
Lemma newer_tenant t (r : Row VaultRecord) :
  vault_newer (row r) (row (mkRow (set_tenant t (row r)) (dirty r))).
Proof. right. by exists t. Qed.

Abbreviation keeps_versions := (preserves versions_grow).

(** Both tables after an operation: untouched, updated in place or written. *)
Ltac grow_table :=
  let s := fresh "s" in let r := fresh "r" in let s1 := fresh "s" in let H := fresh "H" in
  intros s r s1 H; run_cases H; split;
  cbn [vaults items set_meta_tbl set_vaults set_items set_item_history set_known_hosts
    set_manifests set_grants set_pinned set_audit_log set_epoch_floor set_sync_state
    set_trust_anchor set_account_tbl];
  repeat first
    [ reflexivity
    | etrans; [|by apply table_grows_update; [apply _|intros; apply newer_tenant]]
    | etrans; [|by apply table_grows_update; [apply _|intros; apply newer_dirty_v]]
    | etrans; [|by apply table_grows_update; [apply _|intros; apply newer_dirty_i]] ].

Lemma grow_put_vault v : keeps_versions (put_vault v).
Proof.
  unfold put_vault. grow_table;
    (apply table_grows_insert; [apply _|]); intros old Hold; simplify_eq;
    rewrite checked_version_Ok in *; destruct_and?; subst; left; by apply N.ltb_lt.
Qed.

Lemma grow_put_item it : keeps_versions (put_item it).
Proof.
  unfold put_item. grow_table;
    (apply table_grows_insert; [apply _|]); intros old Hold; simplify_eq;
    rewrite checked_version_Ok in *; destruct_and?; subst; left; by apply N.ltb_lt.
Qed.

Lemma grow_set_item_timestamps v i c u : keeps_versions (set_item_timestamps v i c u).
Proof.
  unfold set_item_timestamps. grow_table.
  apply table_grows_insert; [apply _|]. intros old Hold. simplify_eq. right. by exists c, u.
Qed.

Lemma grow_clear_item_history v i : keeps_versions (clear_item_history v i).
Proof. unfold clear_item_history. grow_table. Qed.
Lemma grow_insert_history r : keeps_versions (insert_history r).
Proof. unfold insert_history. grow_table. Qed.
Lemma grow_trim_history v i n : keeps_versions (trim_history v i n).
Proof. unfold trim_history. grow_table. Qed.

(** the two operations that remove a row *)
Definition removes_rows (op : Op) : bool :=
  match op with OpPurge _ _ | OpDiscardItem _ _ _ _ => true | _ => false end.

Lemma grow_archive_and_put it n : keeps_versions (archive_and_put it n).
Proof.
  apply preserves_atomically; [apply _|].
  apply preserves_bind; [apply _|by apply preserves_get; apply _|intros s].
  apply preserves_bind; [apply _| |intros _].
  { destruct (get_item _ _ _) as [e|]; [destruct (ir_tombstone e)|];
      [apply preserves_ret, _|apply grow_insert_history|apply preserves_ret, _]. }
  apply preserves_bind; [apply _|apply grow_put_item|intros _; apply grow_trim_history].
Qed.

Lemma grow_put_item_and_clear_history it : keeps_versions (put_item_and_clear_history it).
Proof.
  apply preserves_atomically, preserves_bind; [apply _..|apply grow_put_item|].
  intros _. apply grow_clear_item_history.
Qed.

Lemma run_op_grow op : removes_rows op = false -> keeps_versions (run_op op).
Proof.
  destruct op; cbn [run_op removes_rows]; intros Hop; try done;
    try (apply preserves_bind; [apply _| |intros; apply preserves_ret, _]);
    eauto using grow_put_vault, grow_put_item, grow_put_item_and_clear_history,
      grow_archive_and_put, grow_clear_item_history, grow_set_item_timestamps.
  all: try (unfold set_meta, bind_unbound_cloud_vaults, set_vault_tenant,
    adopt_pulled_binding, clear_binding_for_tenant, unbind_vault, append_audit,
    put_known_host, remove_known_host, put_membership_manifest, put_membership_grant,
    remove_membership_grant, mark_vault_dirty, mark_item_dirty,
    mark_vault_and_contents_dirty, mark_membership_dirty, clear_vault_dirty,
    clear_item_dirty, clear_manifest_dirty, clear_grant_dirty,
    delete_item_history_above, pin_member_key, remove_pinned_member_key,
    set_sync_cursor, set_vault_epoch_floor, set_vault_trust_anchor, set_account_state;
    grow_table; fail).
Qed.

(** ** The archive: which rows trimming keeps *)

Section keep_newest.
Context (p : ItemRecord -> bool).
Let sel (h : list ItemRecord) := filter (fun r => p r = true) h.
Let rest (h : list ItemRecord) := filter (fun r => p r = false) h.

Lemma keep_newest_sel n h : sel (keep_newest p n h) = take n (sel h).
Proof.
  unfold sel. revert n; induction h as [|r h IH]; intros n; [by destruct n|]; cbn [keep_newest].
  rewrite (filter_cons _ r h). destruct (p r) eqn:Hp; simpl.
  - destruct n; [by rewrite IH|]. rewrite filter_cons, Hp. simpl. by rewrite IH.
  - rewrite filter_cons, Hp. simpl. apply IH.
Qed.

Lemma keep_newest_rest n h : rest (keep_newest p n h) = rest h.
Proof.
  unfold rest. revert n; induction h as [|r h IH]; intros n; simpl; [done|].
  rewrite (filter_cons _ r h). destruct (p r) eqn:Hp; simpl.
  - destruct n; [by rewrite IH|]. rewrite filter_cons, Hp. simpl. by rewrite IH.
  - rewrite filter_cons, Hp. simpl. by rewrite IH.
Qed.
End keep_newest.

(** the archive rows of one item, oldest first *)
Definition archive_of (s : Storage) (v i : bytes) : list ItemRecord :=
  filter (fun r => of_item v i r = true) (item_history s).
Definition other_archives (s : Storage) (v i : bytes) : list ItemRecord :=
  filter (fun r => of_item v i r = false) (item_history s).

Lemma trim_history_spec v i n s :
  exists s', trim_history v i n s = (Ok tt, s') /\
    s' = set_item_history (fun _ => item_history s') s /\
    other_archives s' v i = other_archives s v i /\
    (exists dropped, archive_of s v i = dropped ++ archive_of s' v i) /\
    len (archive_of s' v i) = N.min (N.min n i64_max) (len (archive_of s v i)).
Proof.
  eexists. split; [reflexivity|]. split; [reflexivity|].
  set (n' := if len (item_history s) <=? N.min n i64_max
             then length (item_history s) else N.to_nat (N.min n i64_max)).
  unfold other_archives, archive_of. cbn [set_item_history item_history].
  fold n'. rewrite !list.filter_reverse, keep_newest_rest, keep_newest_sel, !list.filter_reverse.
  rewrite reverse_involutive. split; [done|]. set (a := filter _ (item_history s)). split.
  - exists (reverse (drop n' (reverse a))).
    by rewrite <-reverse_app, take_drop, reverse_involutive.
  - unfold len. rewrite length_reverse, length_take, length_reverse.
    assert (length a <= length (item_history s))%nat by apply length_filter.
    unfold n', len. destruct (N.leb_spec (N.of_nat (length (item_history s))) (N.min n i64_max));
      lia.
Qed.

Lemma update_where_one `{Countable K} {A} (p : K -> A -> bool) f (m : gmap K A) k a :
  m !! k = Some a -> p k a = true -> (forall k' a', p k' a' = true -> k' = k) ->
  update_where p f m = <[k := f a]> m.
Proof.
  intros Hk Hp Hone. apply map_eq. intros k'. rewrite lookup_update_where.
  destruct (decide (k' = k)) as [->|Hne].
  - rewrite Hk, lookup_insert_eq. simpl. by rewrite Hp.
  - rewrite lookup_insert_ne by done. destruct (m !! k') as [a'|]; simpl; [|done].
    destruct (p k' a') eqn:E; [by apply Hone in E|done].
Qed.

Lemma update_where_nothing `{Countable K} {A} (p : K -> A -> bool) f (m : gmap K A) :
  (forall k a, m !! k = Some a -> p k a = false) -> update_where p f m = m.
Proof.
  intros Hn. apply map_eq. intros k. rewrite lookup_update_where.
  destruct (m !! k) as [a|] eqn:E; simpl; [by rewrite Hn|done].
Qed.

Lemma set_tenant_same v : set_tenant (vr_sync_tenant v) v = v.
Proof. by destruct v. Qed.
Lemma set_tenant_twice t t' v : set_tenant t (set_tenant t' v) = set_tenant t v.
Proof. done. Qed.

Lemma put_vault_Ok v s s' :
  put_vault v s = (Ok tt, s') ->
  vr_version v <= i64_max /\ vr_key_epoch v <= i64_max /\
  (forall old, vaults s !! vr_vault_id v = Some old -> vr_version (row old) < vr_version v) /\
  exists t, (vr_sync_tenant v <> [] -> t = vr_sync_tenant v) /\
    s' = set_vaults (<[vr_vault_id v :=
           mkRow (set_tenant t v) (default false (dirty <$> vaults s !! vr_vault_id v))]>) s.
Proof.
  unfold put_vault. intros H. run_cases H; rewrite ?checked_version_Ok in *; destruct_and?; subst;
    (split_and!; [done..| |]);
    try match goal with Hv : vaults s !! _ = _ |- _ => rewrite Hv end.
  1, 3: intros ? ?; simplify_eq; by apply N.ltb_lt.
  - eexists. split; [|reflexivity]. intros Hne. destruct (vr_sync_tenant v); done.
  - eexists. split; [|reflexivity]. done.
  - intros ? ?; done.
  - exists (vr_sync_tenant v). split; [done|]. by rewrite set_tenant_same.
Qed.

Lemma put_item_Ok it s s' :
  put_item it s = (Ok tt, s') ->
  s' = set_items (fun _ => items s') s /\
  exists r, items s' = <[item_key it := r]> (items s) /\
    (exists c u, row r = with_times c u it) /\
    dirty r = default false (dirty <$> items s !! item_key it) /\
    (forall old, items s !! item_key it = Some old -> ir_version (row old) < ir_version it).
Proof.
  unfold put_item. intros H. run_cases H; (split; [reflexivity|]); eexists;
    (split; [reflexivity|]); simplify_option_eq; rewrite ?checked_version_Ok in *;
    destruct_and?; subst; (split; [by eexists _, _|]); (split; [done|]);
    intros ? ?; simplify_eq. by apply N.ltb_lt.
Qed.

(** the row archived before a write: the live version, unless one with that
    number is already archived *)
Definition archived_version (s : Storage) (v i : bytes) (n : N) : bool :=
  existsb (fun r => of_item v i r && (ir_version r =? n)) (item_history s).

Definition to_archive (s : Storage) (v i : bytes) : list ItemRecord :=
  match get_item s v i with
  | Some e => if ir_tombstone e || archived_version s v i (ir_version e) then [] else [e]
  | None => []
  end.

Lemma of_item_of_key s v i e :
  store_wf s -> get_item s v i = Some e -> of_item v i e = true /\ item_key e = (v, i).
Proof.
  intros Hwf (r & Hr & ->)%fmap_Some. destruct (wf_items _ Hwf _ _ Hr) as (Hk & _ & _).
  unfold item_key in *. split; [|done]. simplify_eq.
  unfold of_item. by rewrite !bytes_eqb_refl.
Qed.

Lemma archive_and_put_Ok it n s s' :
  store_wf s -> archive_and_put it n s = (Ok tt, s') ->
  exists s1,
    s1 = set_item_history (fun h => h ++ to_archive s (ir_vault_id it) (ir_item_id it)) s /\
    exists s2, put_item it s1 = (Ok tt, s2) /\
      trim_history (ir_vault_id it) (ir_item_id it) n s2 = (Ok tt, s').
Proof.
  intros Hwf. unfold archive_and_put, transaction. rewrite atomically_Ok.
  intros (s0 & ? & [= <- <-] & H)%M_bind_Ok.
  apply M_bind_Ok in H as ([] & s1 & Ha & H). exists s1.
  apply M_bind_Ok in H as ([] & s2 & Hp & Ht).
  split; [|by eauto].
  assert (set_item_history (fun h => h ++ []) s = s) as Hnil.
  { destruct s. unfold set_item_history. cbn. by rewrite app_nil_r. }
  unfold to_archive. destruct (get_item s _ _) as [e|] eqn:He; [|by injection Ha as <-].
  destruct (ir_tombstone e) eqn:Htomb; [by injection Ha as <-|].
  destruct (of_item_of_key _ _ _ _ Hwf He) as [_ Hk]. unfold item_key in Hk.
  apply (inj2 pair) in Hk as [Hv Hid].
  unfold insert_history in Ha. cbv [mbind M_bind lift_result modify] in Ha.
  destruct (checked_version (ir_version e)); [|done].
  destruct (checked_version (ir_key_epoch e)); [|done]. injection Ha as <-. cbn [orb].
  unfold archived_version. rewrite Hv, Hid. unfold set_item_history. f_equal.
  by destruct (existsb _ _); rewrite ?app_nil_r.
Qed.

(** the whole effect of a successful [archive_and_put] *)
Lemma archive_and_put_effect it retain s s' :
  store_wf s -> archive_and_put it retain s = (Ok tt, s') ->
  let v := ir_vault_id it in let i := ir_item_id it in
  s' = set_items (fun _ => items s') (set_item_history (fun _ => item_history s') s) /\
  (exists r, items s' = <[item_key it := r]> (items s) /\
     (exists c u, row r = with_times c u it) /\
     (forall old, items s !! item_key it = Some old -> ir_version (row old) < ir_version it)) /\
  other_archives s' v i = other_archives s v i /\
  (exists dropped, archive_of s v i ++ to_archive s v i = dropped ++ archive_of s' v i) /\
  len (archive_of s' v i) =
    N.min (N.min retain i64_max) (len (archive_of s v i ++ to_archive s v i)).
Proof.
  intros Hwf H v i. apply archive_and_put_Ok in H as (s1 & -> & s2 & Hp & Ht); [|done].
  destruct (put_item_Ok _ _ _ Hp) as (Hs2 & row2 & Hi2 & Hrow & _ & Hold).
  destruct (trim_history_spec v i retain s2) as (s3 & Ht' & Hs3 & Ho & Hd & Hl).
  unfold v, i in Ht'. rewrite Ht' in Ht. injection Ht as ->.
  assert (item_history s2 = item_history s ++ to_archive s v i) as Hh2
    by (by rewrite Hs2).
  assert (Forall (fun r => of_item v i r = true) (to_archive s v i)) as Hta.
  { unfold to_archive. destruct (get_item s v i) as [e|] eqn:He; [|done].
    destruct (_ || _); [done|]. constructor; [|done]. by eapply of_item_of_key. }
  assert (archive_of s2 v i = archive_of s v i ++ to_archive s v i) as Ha2.
  { unfold archive_of. rewrite Hh2, list.filter_app. f_equal. by apply filter_all. }
  assert (other_archives s2 v i = other_archives s v i) as Ho2.
  { unfold other_archives. rewrite Hh2, list.filter_app.
    rewrite (filter_none _ (to_archive s v i)); [by rewrite app_nil_r|].
    eapply list.Forall_impl; [exact Hta|]. intros x Hx. simpl in *. congruence. }
  rewrite <-Ha2. split_and!; [|exists row2|congruence|done|done].
  - rewrite Hs3. cbn. by rewrite Hs2.
  - split_and!; [by rewrite Hs3|done|done].
Qed.

(** ** Theorems *)

(** a store to evaluate on: one cloud vault with one item at version 3 *)
Definition sample_vault (v : N) : VaultRecord :=
  mkVaultRecord (lit "v") Cloud (lit "name") (lit "vk") v false (lit "sig") (lit "owner") 1
    OfflineAllowed [].
Definition sample_item (v : N) : ItemRecord :=
  mkItemRecord (lit "v") (lit "i") 2 (lit "secret") (lit "ik") v false (lit "sig")
    (lit "owner") 0 0 1.
Definition sample_store : Storage :=
  (run_op (OpPutVault (sample_vault 1)) (empty_storage 100)).2.
Definition sample_store_item : Storage := (run_op (OpPutItem (sample_item 3)) sample_store).2.

Lemma sample_store_item_reach : rtc step (empty_storage 100) sample_store_item.
Proof.
  eapply rtc_l; [by eapply (step_op (OpPutVault (sample_vault 1))), surjective_pairing|].
  eapply rtc_once. by eapply (step_op (OpPutItem (sample_item 3))), surjective_pairing.
Qed.

Lemma store_wf_empty now : store_wf (empty_storage now).
Proof.
  split; simpl; try apply map_Forall_empty; [by repeat constructor|].
  by split.
Qed.

Lemma steps_wf s s' : rtc step s s' -> store_wf s -> store_wf s'.
Proof.
  induction 1 as [|s1 s2 s3 [op r a b Hop] _ IH]; [done|].
  intros Hwf. apply IH. by eapply run_op_wf.
Qed.

Lemma sample_store_item_wf : store_wf sample_store_item.
Proof. eapply steps_wf; [apply sample_store_item_reach|apply store_wf_empty]. Qed.

(** Every database reachable from a fresh one by any sequence of calls,
    failed calls included, is well-formed: each row sits under its own key,
    every version and epoch fits an i64, no version of an item is archived
    twice, audit numbers are 1, 2, 3, ..., host names are stored lower-case. *)
Theorem store_invariant now s : rtc step (empty_storage now) s -> store_wf s.
Proof. intros H. eapply steps_wf; [exact H|apply store_wf_empty]. Qed.

Lemma store_invariant_witness :
  rtc step (empty_storage 100) sample_store_item /\ store_wf sample_store_item.
Proof.
  split; [apply sample_store_item_reach|].
  apply (store_invariant 100). apply sample_store_item_reach.
Defined.

(** No sequence of calls without a purge or a discarded edit rolls a record
    back: each vault and item stays, and either keeps its signed content (only
    the routing label or the local timestamps may differ) or moves to a
    strictly higher version. *)
Theorem versions_never_roll_back s s' :
  rtc (fun a b => exists op r, removes_rows op = false /\ run_op op a = (r, b)) s s' ->
  versions_grow s s'.
Proof.
  induction 1 as [|a b c (op & r & Hop & Hrun) _ IH]; [reflexivity|].
  etrans; [|exact IH]. by eapply run_op_grow.
Qed.

Lemma versions_never_roll_back_witness :
  (run_op (OpPutItem (sample_item 3)) sample_store_item).1 = Err (VersionRollback 3 3) /\
  versions_grow sample_store sample_store_item.
Proof.
  split; [vm_compute; reflexivity|].
  apply versions_never_roll_back, rtc_once.
  exists (OpPutItem (sample_item 3)), (Ok tt). split; [reflexivity|].
  apply run_fst. vm_compute. reflexivity.
Defined.

(** what is stored about vault [v] *)
Definition no_trace (s : Storage) (v : bytes) : Prop :=
  vaults s !! v = None /\ epoch_floor s !! v = None /\
  (forall i, items s !! (v, i) = None) /\ (forall e, manifests s !! (v, e) = None) /\
  (forall m e, grants s !! (v, m, e) = None) /\
  Forall (fun r => ir_vault_id r <> v) (item_history s).

Definition same_for (s s' : Storage) (v : bytes) : Prop :=
  vaults s' !! v = vaults s !! v /\ epoch_floor s' !! v = epoch_floor s !! v /\
  trust_anchor s' !! v = trust_anchor s !! v /\
  (forall i, items s' !! (v, i) = items s !! (v, i)) /\
  (forall e, manifests s' !! (v, e) = manifests s !! (v, e)) /\
  (forall m e, grants s' !! (v, m, e) = grants s !! (v, m, e)) /\
  filter (fun r => ir_vault_id r = v) (item_history s')
    = filter (fun r => ir_vault_id r = v) (item_history s).

Lemma delete_where_None `{Countable K} {A} (p : K -> A -> bool) (m : gmap K A) k :
  (forall a, p k a = true) -> delete_where p m !! k = None.
Proof.
  intros Hp. apply eq_None_not_Some. intros [a [_ Ha]%lookup_delete_where]. congruence.
Qed.
Lemma delete_where_keep `{Countable K} {A} (p : K -> A -> bool) (m : gmap K A) k :
  (forall a, p k a = false) -> delete_where p m !! k = m !! k.
Proof.
  intros Hp. apply option_eq. intros a. rewrite lookup_delete_where. naive_solver.
Qed.

(** Hard delete of a vault always succeeds, leaves no row, archive or epoch
    floor of it (and no trust anchor when asked to drop it), and touches
    nothing of any other vault nor any account-wide table. *)
Theorem purge_exact v drop s :
  exists s', purge v drop s = (Ok tt, s') /\ no_trace s' v /\
    trust_anchor s' !! v = (if drop then None else trust_anchor s !! v) /\
    (forall v', v' <> v -> same_for s s' v') /\
    (meta s', known_hosts s', pinned_member_keys s', audit_log s', sync_state s',
     account_state s')
    = (meta s, known_hosts s, pinned_member_keys s, audit_log s, sync_state s,
       account_state s).
Proof.
  assert (forall v', v' <> v -> bytes_eqb v' v = false) as Hne by (intros; by apply bytes_eqb_false).
  assert (forall h : list ItemRecord, Forall (fun r => ir_vault_id r <> v)
    (filter (fun r => bytes_eqb (ir_vault_id r) v = false) h)) as Hh.
  { intros h. apply list.Forall_forall. intros r [Hr _]%list_elem_of_filter.
    by apply bytes_eqb_false. }
  assert (forall (v' : bytes) (h : list ItemRecord), v' <> v -> filter (fun r => ir_vault_id r = v')
    (filter (fun r => bytes_eqb (ir_vault_id r) v = false) h)
    = filter (fun r => ir_vault_id r = v') h) as Hh'.
  { intros v' h Hv'. rewrite list_filter_filter. apply list_filter_iff.
    intros r. rewrite bytes_eqb_false. naive_solver. }
  destruct drop; (eexists; split; [reflexivity|]);
    unfold no_trace, same_for; cbn; split_and!; try done; intros;
    rewrite ?lookup_delete_eq, ?lookup_delete_ne by done;
    try (by apply delete_where_None; intros; apply bytes_eqb_true);
    split_and?; try done; intros;
    rewrite ?Hh' by done; try (apply delete_where_keep; intros; by apply Hne); done.
Qed.

(** Replacing a secret with its archive: on success the item is the new
    record, at most [retain] past versions of it stay, and they are the newest
    ones - a suffix of the old archive followed by the version just replaced;
    archives of other items are untouched. On any error nothing changed. *)
Theorem archive_and_put_spec it retain s r s' :
  store_wf s -> archive_and_put it retain s = (r, s') ->
  let v := ir_vault_id it in let i := ir_item_id it in
  match r with
  | Err _ => s' = s
  | Ok _ =>
      (exists c u, get_item s' v i = Some (with_times c u it)) /\
      len (archive_of s' v i) <= retain /\
      (exists dropped, archive_of s v i ++ to_archive s v i = dropped ++ archive_of s' v i) /\
      (len (archive_of s v i) < retain -> retain <= i64_max ->
         archive_of s' v i = archive_of s v i ++ to_archive s v i) /\
      other_archives s' v i = other_archives s v i
  end.
Proof.
  intros Hwf H v i. destruct r as [[]|e]; [|by eapply atomically_Err].
  destruct (archive_and_put_effect _ _ _ _ Hwf H)
    as (_ & (row2 & Hi2 & (c & u & Hrow) & _) & Ho & Hd & Hl). fold v i in Ho, Hd, Hl.
  split_and!; [|lia|done| |done].
  - exists c, u. unfold get_item. rewrite Hi2. change (v, i) with (item_key it).
    rewrite lookup_insert_eq. simpl. by rewrite Hrow.
  - intros Hlt Hr. destruct Hd as [dropped Hd]. rewrite Hd. destruct dropped as [|x d]; [done|].
    apply (f_equal len) in Hd as Hd'. rewrite (len_app (x :: d)) in Hd'.
    assert (len (archive_of s v i ++ to_archive s v i) <= retain) as Hle.
    { rewrite len_app. assert (len (to_archive s v i) <= 1); [|lia].
      unfold to_archive. destruct (get_item _ _ _); [destruct (_ || _)|]; done. }
    assert (0 < len (x :: d)) by (unfold len; simpl; lia). lia.
Qed.

Lemma archive_and_put_spec_witness :
  exists s', archive_and_put (sample_item 4) 2 sample_store_item = (Ok tt, s') /\
    len (archive_of s' (lit "v") (lit "i")) <= 2.
Proof.
  exists (archive_and_put (sample_item 4) 2 sample_store_item).2.
  split; [apply run_fst; vm_compute; reflexivity|].
  refine (proj1 (proj2 (archive_and_put_spec (sample_item 4) 2 sample_store_item (Ok tt) _ _ _)));
    [apply sample_store_item_wf|apply run_fst; vm_compute; reflexivity].
Defined.

(** ** Dirty tracking *)

Lemma elem_of_stable_sort {A} (leb : A -> A -> bool) l x : x ∈ stable_sort leb l <-> x ∈ l.
Proof. by rewrite stable_sort_perm. Qed.

Lemma elem_of_dirty_rows `{Countable K} {A B} (b : K -> bool) (f : A -> B)
    (m : gmap K (Row A)) x :
  x ∈ (f ∘ row <$> select_where (fun k r => b k && dirty r) m) <->
  exists k r, m !! k = Some r /\ b k = true /\ dirty r = true /\ x = f (row r).
Proof.
  rewrite list_elem_of_fmap. split.
  - intros (r & -> & (k & Hk & [Hb Hd]%andb_true_iff)%elem_of_select_where). eauto 6.
  - intros (k & r & Hk & Hb & Hd & ->). exists r. split; [done|].
    apply elem_of_select_where. exists k. by rewrite Hb, Hd.
Qed.

(** what a push to [t] will look at: exactly the dirty rows of the cloud
    vaults bound to it *)
Lemma elem_of_dirty_items s t iv :
  iv ∈ list_dirty_bound_item_versions s t <->
  exists k r, items s !! k = Some r /\ bound_to s t k.1 = true /\ dirty r = true /\
    iv = item_version_of (row r).
Proof.
  unfold list_dirty_bound_item_versions. rewrite elem_of_stable_sort.
  apply (elem_of_dirty_rows (fun k => bound_to s t k.1)).
Qed.
Lemma elem_of_dirty_manifests s t m :
  m ∈ list_dirty_bound_manifests s t <->
  exists k r, manifests s !! k = Some r /\ bound_to s t k.1 = true /\ dirty r = true /\
    m = row r.
Proof.
  unfold list_dirty_bound_manifests. rewrite elem_of_stable_sort.
  apply (elem_of_dirty_rows (fun k => bound_to s t k.1) id).
Qed.
Lemma elem_of_dirty_grants s t g :
  g ∈ list_dirty_bound_grants s t <->
  exists k r, grants s !! k = Some r /\ bound_to s t k.1.1 = true /\ dirty r = true /\
    g = row r.
Proof.
  unfold list_dirty_bound_grants. rewrite elem_of_stable_sort.
  apply (elem_of_dirty_rows (fun k => bound_to s t k.1.1) id).
Qed.
Lemma elem_of_dirty_vaults s t v :
  v ∈ list_dirty_bound_vaults s t <->
  exists k, vaults s !! k = Some (mkRow v true) /\ vr_sync_tenant v = t /\ is_cloud v = true.
Proof.
  unfold list_dirty_bound_vaults. rewrite elem_of_sort_on, list_elem_of_fmap. split.
  - intros ([v' d] & -> & (k & Hk & [[Hd Ht]%andb_true_iff Hc]%andb_true_iff)%elem_of_select_where).
    simpl in *. subst. apply bytes_eqb_true in Ht. eauto.
  - intros (k & Hk & Ht & Hc). exists (mkRow v true). split; [done|].
    apply elem_of_select_where. exists k. simpl. by rewrite Hc, (proj2 (bytes_eqb_true _ _) Ht).
Qed.

Lemma count_where_pos `{Countable K} {A} (p : K -> A -> bool) (m : gmap K A) k a :
  m !! k = Some a -> p k a = true -> (0 <? count_where p m) = true.
Proof.
  intros Hk Hp. apply N.ltb_lt. unfold count_where.
  assert (size (filter (fun ka => p ka.1 ka.2 = true) m) <> 0%nat); [|lia].
  apply map_size_ne_0_lookup. exists k. exists a. by apply map_lookup_filter_Some.
Qed.

(** Binding a cloud vault to a server schedules its whole contents for that
    server: the vault record, every item, manifest and grant of it are among
    the rows the next push to the tenant looks at. *)
Theorem binding_schedules_everything v t s old :
  vaults s !! v = Some old -> is_cloud (row old) = true ->
  exists s', set_vault_tenant v t s = (Ok tt, s') /\
    set_tenant t (row old) ∈ list_dirty_bound_vaults s' t /\
    (forall i r, items s !! (v, i) = Some r ->
       item_version_of (row r) ∈ list_dirty_bound_item_versions s' t) /\
    (forall e r, manifests s !! (v, e) = Some r -> row r ∈ list_dirty_bound_manifests s' t) /\
    (forall m e r, grants s !! (v, m, e) = Some r -> row r ∈ list_dirty_bound_grants s' t).
Proof.
  intros Hv Hc. unfold set_vault_tenant, update_tenant.
  set (p := fun k (r : Row VaultRecord) => bytes_eqb k v && is_cloud (row r)).
  assert (p v old = true) as Hp by (unfold p; by rewrite bytes_eqb_refl, Hc).
  pose proof (count_where_pos p _ _ _ Hv Hp) as Hn.
  cbv [mbind M_bind get_state modify mret M_ret]. rewrite Hn.
  eexists. split; [reflexivity|].
  set (s' := set_grants _ _).
  assert (vaults s' !! v = Some (mkRow (set_tenant t (row old)) true)) as Hv'.
  { subst s'. cbn. rewrite !lookup_update_where, Hv. cbn [fmap option_fmap option_map].
    by rewrite Hp, bytes_eqb_refl. }
  assert (bound_to s' t v = true) as Hb.
  { unfold bound_to. rewrite Hv'. simpl. by rewrite bytes_eqb_refl. }
  split_and!.
  - apply elem_of_dirty_vaults. by exists v.
  - intros i r Hr. apply elem_of_dirty_items. exists (v, i), (set_row_dirty true r).
    subst s'. cbn. by rewrite lookup_update_where, Hr; cbn; rewrite bytes_eqb_refl.
  - intros e r Hr. apply elem_of_dirty_manifests. exists (v, e), (set_row_dirty true r).
    subst s'. cbn. by rewrite lookup_update_where, Hr; cbn; rewrite bytes_eqb_refl.
  - intros m e r Hr. apply elem_of_dirty_grants. exists (v, m, e), (set_row_dirty true r).
    subst s'. cbn. by rewrite lookup_update_where, Hr; cbn; rewrite bytes_eqb_refl.
Qed.

Lemma binding_schedules_everything_witness :
  exists s', set_vault_tenant (lit "v") (lit "t") sample_store_item = (Ok tt, s').
Proof.
  destruct (binding_schedules_everything (lit "v") (lit "t") sample_store_item
    (mkRow (sample_vault 1) false)) as (s' & H & _); [vm_compute; reflexivity..|].
  exists s'. exact H.
Defined.

(** ** The audit log *)

Definition audit_extends (s s' : Storage) : Prop := audit_log s `prefix_of` audit_log s'.
#[global] Instance audit_extends_preorder : PreOrder audit_extends.
Proof. split; unfold audit_extends; [intros ?; done|intros ???; by etrans]. Qed.

Lemma run_op_audit op : preserves audit_extends (run_op op).
Proof.
  intros s r s' H. destruct op; cbn [run_op] in H;
    unfold put_item_and_clear_history, archive_and_put in H;
    unfold set_meta, put_vault, bind_unbound_cloud_vaults, set_vault_tenant,
    adopt_pulled_binding, clear_binding_for_tenant, unbind_vault, put_item,
    set_item_timestamps, insert_history,
    trim_history, clear_item_history, purge, put_known_host,
    remove_known_host, put_membership_manifest, put_membership_grant,
    remove_membership_grant, mark_vault_dirty, mark_item_dirty,
    mark_vault_and_contents_dirty, mark_membership_dirty, clear_vault_dirty,
    clear_item_dirty, clear_manifest_dirty, clear_grant_dirty, discard_unpushed_item,
    delete_item_history_above, pin_member_key, remove_pinned_member_key, append_audit,
    set_sync_cursor, set_vault_epoch_floor, set_vault_trust_anchor, set_account_state in H;
    run_cases H; unfold audit_extends; cbn; first [reflexivity|by apply prefix_app_r].
Qed.

(** The audit log is append-only: whatever calls run, the log only gains
    entries at its end; and draining it from a cursor returns exactly the
    entries appended after the cursor position, in order. *)
Theorem audit_append_only now s s' n :
  rtc step (empty_storage now) s -> rtc step s s' ->
  audit_log s `prefix_of` audit_log s' /\
  list_audit s' n = drop (N.to_nat n) (audit_log s').
Proof.
  intros Hs Hs'. split.
  - clear Hs. induction Hs' as [|a b c [op r x y Hop] _ IH]; [done|].
    etrans; [by eapply run_op_audit|done].
  - assert (store_wf s') as Hwf.
    { eapply steps_wf; [etrans; [exact Hs|exact Hs']|apply store_wf_empty]. }
    destruct (wf_audit _ Hwf) as [Hseq Hlen]. unfold list_audit.
    destruct (N.ltb_spec i64_max n).
    { rewrite drop_ge; [done|]. unfold len in Hlen. lia. }
    clear H Hlen. revert Hseq. generalize (audit_log s') as l. intros l.
    induction l as [|e l IH] using rev_ind; [by rewrite drop_nil|].
    rewrite fmap_app, length_app. simpl. rewrite seq_app, fmap_app. simpl.
    intros [Hl [= He]]%app_inj_2; [|done]. rewrite list.filter_app, (IH Hl), filter_singleton by done.
    destruct (decide _) as [Hd|Hd]; rewrite N.ltb_lt in Hd.
    + rewrite drop_app_le by lia. done.
    + rewrite !drop_ge; [done|..]; rewrite ?length_app; simpl; lia.
Qed.

Lemma audit_append_only_witness :
  audit_log sample_store_item `prefix_of` audit_log sample_store_item.
Proof.
  refine (proj1 (audit_append_only 100 sample_store_item sample_store_item 0 _ _));
    [apply sample_store_item_reach|apply rtc_refl].
Defined.

(** ** Host keys *)

(** A pinned host key is found under every upper/lower-case spelling of the
    host on that port, and pinning it changes no other host or port. *)
Theorem known_host_case_insensitive host port key s :
  exists s', put_known_host host port key s = (Ok tt, s') /\
    forall host' port',
      get_known_host s' host' port' =
      (if decide ((to_ascii_lowercase host', port') = (to_ascii_lowercase host, port))
       then Some key else get_known_host s host' port').
Proof.
  eexists. split; [reflexivity|]. intros host' port'. unfold get_known_host. cbn.
  destruct (decide _) as [->|Hne]; [by rewrite lookup_insert_eq|].
  by rewrite lookup_insert_ne by done.
Qed.
