(* ===== verification/Keychain.v ===== *)
(** * The key hierarchy (rust-core/crates/keychain)

    The account's keyset and its encrypted record ([keyset.rs]), the Unlock
    Key derivations ([unlock.rs]), the trusted generation floor
    ([onboarding_floor.rs]) and the local account id ([account.rs]). Secrets
    are byte strings; zeroisation has no functional effect and is not
    modelled. Freshly generated keys and nonces are arguments. *)

From Stdlib Require Import Strings.Byte NArith ZArith Lia.
From stdpp Require Import base gmap sets list strings sorting countable.
From S2P Require Import Prelude Bytes CryptoPrims Crypto Storage.

Local Open Scope N_scope.

(** ** error.rs *)

Inductive KeychainError :=
| InvalidCredentials
| KFormat
| PasswordRequired
| AccountIdConflict
| RegistrationInvalid
| GenerationRollback (attempted floor : N)
| ConfirmationFailed
| KStorage (e : StorageError)
| KCrypto (e : CryptoError).

#[global] Instance KeychainError_eq_dec : EqDecision KeychainError.
Proof. solve_decision. Defined.

Definition KM := M Storage KeychainError.

(** ** keyset.rs: the record *)

Definition KEYSET_FORMAT_VERSION : N := 3.
Definition KEYSET_FORMAT_LEGACY : N := 2.
Definition SK_LEN : nat := 32.

Inductive UnlockMode := Password | SecretKeyOnly.
#[global] Instance UnlockMode_eq_dec : EqDecision UnlockMode.
Proof. solve_decision. Defined.

Definition mode_to_u8 (m : UnlockMode) : byte :=
  match m with Password => x01 | SecretKeyOnly => x02 end.
Definition mode_from_u8 (b : byte) : result KeychainError UnlockMode :=
  match b with x01 => Ok Password | x02 => Ok SecretKeyOnly | _ => Err KFormat end.

Record EncryptedKeyset := mkEK {
  format_version : N;
  mode : UnlockMode;
  kdf_params : option KdfParams;
  x25519_public : bytes;
  ed25519_public : bytes;
  generation : N;
  wrapped_keyset : bytes
}.

Definition keyset_to_bytes (k : EncryptedKeyset) : result KeychainError bytes :=
  kdf_blob ← match kdf_params k with
             | Some p => map_err KCrypto (kdf_to_blob p)
             | None => Ok []
             end;
  if u16_max <? len kdf_blob then Err KFormat
  else Ok (byte_of_N (format_version k) :: mode_to_u8 (mode k) :: u32_be (generation k) ++
           u16_be (len kdf_blob) ++ kdf_blob ++ x25519_public k ++ ed25519_public k ++
           wrapped_keyset k).

Definition keyset_from_bytes (b : bytes) : result KeychainError EncryptedKeyset :=
  if (length b <? 8 + 64)%nat then Err KFormat
  else
    match b with
    | version :: mode_byte :: g0 :: g1 :: g2 :: g3 :: k0 :: k1 :: rest =>
        let format_version := Byte.to_N version in
        if negb (format_version =? KEYSET_FORMAT_VERSION)
           && negb (format_version =? KEYSET_FORMAT_LEGACY) then Err KFormat
        else
          mode ← mode_from_u8 mode_byte;
          let generation := be_decode [g0; g1; g2; g3] in
          let kdf_len := N.to_nat (be_decode [k0; k1]) in
          '(kdf_params, rest) ←
            (if (0 <? kdf_len)%nat then
               if (length rest - kdf_len <? 64)%nat then Err KFormat
               else p ← map_err KCrypto (kdf_from_blob (take kdf_len rest));
                    Ok (Some p, drop kdf_len rest)
             else Ok (None, rest));
          _ ← match mode, kdf_params with
              | Password, Some _ | SecretKeyOnly, None => Ok tt
              | _, _ => Err KFormat
              end;
          if (length rest <? 64)%nat then Err KFormat
          else
            let x25519_public := take 32 rest in
            let rest := drop 32 rest in
            let ed25519_public := take 32 rest in
            let wrapped_keyset := drop 32 rest in
            if (length wrapped_keyset =? 0)%nat then Err KFormat
            else Ok (mkEK format_version mode kdf_params x25519_public ed25519_public
                       generation wrapped_keyset)
    | _ => Err KFormat
    end.

Definition keyset_aad (x25519_public : bytes) (generation : N) : AssociatedData :=
  mkAAD (lit "unissh-keyset") x25519_public generation.

(** ** unlock.rs: Unlock Key derivations *)

Definition UNLOCK_HKDF_SALT : bytes := lit "unissh-unlock-salt-v1".
Definition UNLOCK_HKDF_INFO : bytes := lit "unissh-unlock-key-v1".
Definition ESCROW_AUTH_HKDF_INFO : bytes := lit "unissh-escrow-auth-v1".

(** [present:u8 || len:u32be || data] *)
Definition push_field (present : bool) (data : bytes) : bytes :=
  (if present then x01 else x00) :: u32_be (len data) ++ data.
Definition push_opt (o : option bytes) : bytes :=
  match o with Some d => push_field true d | None => push_field false [] end.

Definition unlock_ikm (argon_key : option bytes) (secret_key : bytes) (device_secret : option bytes)
    : bytes :=
  push_opt argon_key ++ push_field true secret_key ++ push_opt device_secret.

Section keychain.
Context `{P : CryptoPrims}.

Definition derive_unlock_key (argon_key : option bytes) (secret_key : bytes)
    (device_secret : option bytes) : bytes :=
  hkdf_sha256 UNLOCK_HKDF_SALT (unlock_ikm argon_key secret_key device_secret) UNLOCK_HKDF_INFO.

Definition derive_escrow_auth_key (argon_key : option bytes) (secret_key : bytes) : bytes :=
  hkdf_sha256 UNLOCK_HKDF_SALT (unlock_ikm argon_key secret_key None) ESCROW_AUTH_HKDF_INFO.

Definition derive_unlock_key_legacy_v1 (argon_key : option bytes) (secret_key : bytes)
    (device_secret : option bytes) : bytes :=
  hkdf_sha256 UNLOCK_HKDF_SALT
    (default [] argon_key ++ secret_key ++ default [] device_secret) UNLOCK_HKDF_INFO.

(** ** keyset.rs: unlocking *)

Record UnlockedKeyset := mkKeyset {
  encryption : X25519Keypair;
  signing : Ed25519Keypair
}.

(** the public halves belong to the secret ones (as [generate] makes them) *)
Definition keyset_ok (k : UnlockedKeyset) : Prop :=
  ek_verifying (signing k) = ed_public (ek_signing (signing k)) /\
  xk_public (encryption k) = x_public (xk_secret (encryption k)).

Definition ks_pub (k : UnlockedKeyset) : bytes := ed_pk_to_bytes (ek_verifying (signing k)).

(** [X25519Keypair::generate] and [Ed25519Keypair::generate] on given secrets *)
Definition x_keypair (sk : x_sk) : X25519Keypair := Build_X25519Keypair sk (x_public sk).
Definition ed_keypair (sk : ed_sk) : Ed25519Keypair := Build_Ed25519Keypair sk (ed_public sk).

Definition wrap_keyset (unlock_key : bytes) (encryption : X25519Keypair) (signing : Ed25519Keypair)
    (x25519_public : bytes) (generation : N) (nonce : bytes) : result KeychainError bytes :=
  let plaintext := x_sk_to_bytes (xk_secret encryption) ++ ed_sk_to_bytes (ek_signing signing) in
  map_err KCrypto (aead_encrypt unlock_key plaintext (keyset_aad x25519_public generation) nonce).

Definition finish_unlock (record : EncryptedKeyset) (plaintext : bytes)
    : result KeychainError UnlockedKeyset :=
  if negb (length plaintext =? SK_LEN * 2)%nat then Err KFormat
  else
    let x_bytes := take SK_LEN plaintext in
    let e_bytes := drop SK_LEN plaintext in
    x_secret ← map_err (fun _ => KFormat) (x_secret_from_bytes x_bytes);
    e_secret ← map_err (fun _ => KFormat) (signing_key_from_bytes e_bytes);
    let encryption := x_keypair x_secret in
    let signing := ed_keypair e_secret in
    if negb (bool_decide (x_pk_to_bytes (xk_public encryption) = x25519_public record))
    then Err KFormat
    else Ok (mkKeyset encryption signing).

Definition open_current (record : EncryptedKeyset) (argon_key : option bytes) (secret_key : bytes)
    : result KeychainError UnlockedKeyset :=
  let unlock_key := derive_unlock_key argon_key secret_key None in
  plaintext ← map_err (fun _ => InvalidCredentials)
    (aead_decrypt unlock_key (wrapped_keyset record)
       (keyset_aad (x25519_public record) (generation record)));
  finish_unlock record plaintext.

Definition open_legacy_v1 (record : EncryptedKeyset) (argon_key : option bytes) (secret_key : bytes)
    : result KeychainError UnlockedKeyset :=
  let unlock_key := derive_unlock_key_legacy_v1 argon_key secret_key None in
  plaintext ← map_err (fun _ => InvalidCredentials)
    (aead_decrypt_pre_agility unlock_key (wrapped_keyset record)
       (keyset_aad (x25519_public record) (generation record)));
  finish_unlock record plaintext.

Definition open_dispatch (record : EncryptedKeyset) (argon_key : option bytes) (secret_key : bytes)
    : result KeychainError UnlockedKeyset :=
  if KEYSET_FORMAT_VERSION <=? format_version record
  then open_current record argon_key secret_key
  else
    match open_current record argon_key secret_key with
    | Ok unlocked => Ok unlocked
    | Err InvalidCredentials => open_legacy_v1 record argon_key secret_key
    | Err other => Err other
    end.

Definition derive_argon (record : EncryptedKeyset) (password : option bytes)
    : result KeychainError (option bytes) :=
  match mode record with
  | Password =>
      pw ← ok_or password PasswordRequired;
      params ← ok_or (kdf_params record) KFormat;
      k ← map_err KCrypto (derive_key pw params);
      Ok (Some k)
  | SecretKeyOnly => Ok None
  end.

Definition unlock_account (record : EncryptedKeyset) (password : option bytes) (secret_key : bytes)
    : result KeychainError UnlockedKeyset :=
  argon_key ← derive_argon record password;
  open_dispatch record argon_key secret_key.

Definition checked_add32 (a b : N) : option N :=
  if a + b <=? u32_max then Some (a + b) else None.

Definition rewrap_to_current (record : EncryptedKeyset) (unlocked : UnlockedKeyset)
    (argon_key : option bytes) (secret_key nonce : bytes) : result KeychainError EncryptedKeyset :=
  generation ← ok_or (checked_add32 (generation record) 1) KFormat;
  let unlock_key := derive_unlock_key argon_key secret_key None in
  wrapped ← wrap_keyset unlock_key (encryption unlocked) (signing unlocked)
              (x25519_public record) generation nonce;
  Ok (mkEK KEYSET_FORMAT_VERSION (mode record) (kdf_params record) (x25519_public record)
        (ed25519_public record) generation wrapped).

Definition unlock_account_migrating (record : EncryptedKeyset) (password : option bytes)
    (secret_key nonce : bytes) : result KeychainError (UnlockedKeyset * option EncryptedKeyset) :=
  argon_key ← derive_argon record password;
  unlocked ← open_dispatch record argon_key secret_key;
  if format_version record <? KEYSET_FORMAT_VERSION then
    m ← rewrap_to_current record unlocked argon_key secret_key nonce;
    Ok (unlocked, Some m)
  else Ok (unlocked, None).

(** the (mode, parameters, Argon2id key) of a new password, or of none *)
Definition new_credentials (password : option bytes) (params : KdfParams)
    : result KeychainError (UnlockMode * option KdfParams * option bytes) :=
  match password with
  | Some pw =>
      ak ← map_err KCrypto (derive_key pw params);
      Ok (Password, Some params, Some ak)
  | None => Ok (SecretKeyOnly, None, None)
  end.

(** [secret_key], [x] and [e] are the generated secrets *)
Definition create_account (password : option bytes) (params : KdfParams) (secret_key : bytes)
    (x : x_sk) (e : ed_sk) (nonce : bytes) : result KeychainError (EncryptedKeyset * UnlockedKeyset) :=
  '(mode, kdf_params, argon_key) ← new_credentials password params;
  let unlock_key := derive_unlock_key argon_key secret_key None in
  let encryption := x_keypair x in
  let signing := ed_keypair e in
  let x25519_public := x_pk_to_bytes (xk_public encryption) in
  let ed25519_public := ed_pk_to_bytes (ek_verifying signing) in
  wrapped ← wrap_keyset unlock_key encryption signing x25519_public 1 nonce;
  Ok (mkEK KEYSET_FORMAT_VERSION mode kdf_params x25519_public ed25519_public 1 wrapped,
      mkKeyset encryption signing).

Definition change_password (record : EncryptedKeyset) (old_password new_password : option bytes)
    (secret_key : bytes) (new_params : KdfParams) (nonce : bytes)
    : result KeychainError EncryptedKeyset :=
  unlocked ← unlock_account record old_password secret_key;
  generation ← ok_or (checked_add32 (generation record) 1) KFormat;
  '(mode, kdf_params, argon_key) ← new_credentials new_password new_params;
  let unlock_key := derive_unlock_key argon_key secret_key None in
  wrapped ← wrap_keyset unlock_key (encryption unlocked) (signing unlocked)
              (x25519_public record) generation nonce;
  Ok (mkEK KEYSET_FORMAT_VERSION mode kdf_params (x25519_public record)
        (ed25519_public record) generation wrapped).

End keychain.
Arguments UnlockedKeyset {P}.

(** ** onboarding_floor.rs: the generation floor *)

Definition META_GEN_FLOOR : bytes := lit "keyset_gen_floor".

Definition keyset_gen_floor (s : Storage) : result KeychainError (option N) :=
  match get_meta s META_GEN_FLOOR with
  | Some v => if (length v =? 8)%nat then Ok (Some (be_decode v)) else Err KFormat
  | None => Ok None
  end.

Definition kstg {A} (m : SM A) : KM A := err_into KStorage m.

Definition raise_keyset_gen_floor (floor : N) : KM unit :=
  current ← query keyset_gen_floor;
  if default 0 current <? floor then kstg (set_meta META_GEN_FLOOR (u64_be floor)) else mret tt.

Definition unlock_account_checked `{P : CryptoPrims} (record : EncryptedKeyset)
    (password : option bytes) (secret_key : bytes) : KM UnlockedKeyset :=
  floor ← query keyset_gen_floor;
  let floor := default 0 floor in
  let attempted := generation record in
  if attempted <? floor then throw (GenerationRollback attempted floor)
  else
    unlocked ← lift_result (unlock_account record password secret_key);
    _ ← raise_keyset_gen_floor attempted;
    mret unlocked.

Definition raise_floor_after_change_password (new_record : EncryptedKeyset) : KM unit :=
  raise_keyset_gen_floor (generation new_record).

(** ** account.rs: the local account id *)

Definition ACCOUNT_ID_LEN : nat := 16.
Definition META_ACCOUNT_ID : bytes := lit "account_id".

Definition store_account_id (account_id : bytes) : KM unit :=
  s ← get_state;
  match get_meta s META_ACCOUNT_ID with
  | Some existing =>
      if negb (bytes_eqb existing account_id) then throw AccountIdConflict else mret tt
  | None => kstg (set_meta META_ACCOUNT_ID account_id)
  end.

Definition load_account_id (s : Storage) : result KeychainError (option bytes) :=
  match get_meta s META_ACCOUNT_ID with
  | Some v => if (length v =? ACCOUNT_ID_LEN)%nat then Ok (Some v) else Err KFormat
  | None => Ok None
  end.
