(* ===== verification/KeychainThy.v ===== *)
(** * Theorems about the key hierarchy

    The record codec, unlock after create / change of password / migration,
    the framing of the Unlock Key input and the generation floor. *)

From Stdlib Require Import Strings.Byte NArith ZArith Lia.
From stdpp Require Import base gmap sets list strings sorting countable.
From S2P Require Import Prelude Bytes CryptoPrims Crypto Storage StorageInv Keychain.

Local Open Scope N_scope.

(** ** The record codec *)

(** what every writer of a record guarantees *)
Definition ek_wf (k : EncryptedKeyset) : Prop :=
  (format_version k = KEYSET_FORMAT_VERSION \/ format_version k = KEYSET_FORMAT_LEGACY) /\
  generation k <= u32_max /\
  length (x25519_public k) = 32%nat /\ length (ed25519_public k) = 32%nat /\
  wrapped_keyset k <> [] /\
  match mode k, kdf_params k with
  | Password, Some p => mem_kib p <= MAX_MEM_KIB /\ iterations p <= MAX_ITERATIONS /\
                        parallelism p <= MAX_PARALLELISM
  | SecretKeyOnly, None => True
  | _, _ => False
  end.

Lemma kdf_blob_nonempty p blob : kdf_to_blob p = Ok blob -> (0 < length blob)%nat.
Proof.
  unfold kdf_to_blob. destruct (_ <? _); [done|]. intros <-%(inj Ok).
  rewrite length_app, length_header. unfold HEADER_LEN. lia.
Qed.

Lemma u32_be_shape n : exists a b c d, u32_be n = [a; b; c; d].
Proof. by eexists _, _, _, _. Qed.
Lemma u16_be_shape n : exists a b, u16_be n = [a; b].
Proof. by eexists _, _. Qed.

Lemma mode_from_to m : mode_from_u8 (mode_to_u8 m) = Ok m.
Proof. by destruct m. Qed.

(** the tail of the parser, after the parameters *)
Lemma keyset_tail (x e w : bytes) :
  length x = 32%nat -> length e = 32%nat -> w <> [] ->
  (length (x ++ e ++ w) <? 64)%nat = false /\ take 32 (x ++ e ++ w) = x /\
  take 32 (drop 32 (x ++ e ++ w)) = e /\ drop 32 (drop 32 (x ++ e ++ w)) = w /\
  (length w =? 0)%nat = false.
Proof.
  intros Hx He Hw. rewrite !length_app, Hx, He.
  rewrite !drop_app_length', !take_app_length' by done.
  split_and!; try done. by destruct w.
Qed.

(** An encrypted keyset record written to disk parses back to the same
    record, in both unlock modes and for both format versions. *)
Theorem keyset_codec_roundtrip k b :
  ek_wf k -> keyset_to_bytes k = Ok b -> keyset_from_bytes b = Ok k.
Proof.
  intros (Hv & Hg & Hx & He & Hw & Hm) H. unfold keyset_to_bytes in H.
  apply bind_Ok in H as (kb & Hkb & H).
  destruct (u16_max <? len kb) eqn:Hkl; [done|]. apply N.ltb_ge in Hkl.
  apply (inj Ok) in H as <-.
  destruct (keyset_tail _ _ _ Hx He Hw) as (T1 & T2 & T3 & T4 & T5).
  destruct (u32_be_shape (generation k)) as (g0 & g1 & g2 & g3 & Eg).
  destruct (u16_be_shape (len kb)) as (k0 & k1 & Ek).
  rewrite Eg, Ek. set (tail := x25519_public k ++ ed25519_public k ++ wrapped_keyset k) in *.
  cbn [app]. unfold keyset_from_bytes.
  rewrite (proj2 (Nat.ltb_ge _ _)) by (cbn [length]; apply Nat.ltb_ge in T1; rewrite length_app; lia).
  rewrite <-Eg, <-Ek, u32_decode, u16_decode by done.
  assert (Byte.to_N (byte_of_N (format_version k)) = format_version k) as ->.
  { rewrite to_N_byte_of_N. apply N.mod_small.
    destruct Hv as [-> | ->]; done. }
  assert (negb (format_version k =? KEYSET_FORMAT_VERSION)
          && negb (format_version k =? KEYSET_FORMAT_LEGACY) = false) as ->.
  { by destruct Hv as [-> | ->]. }
  rewrite mode_from_to. cbn [mbind result_bind]. unfold len. rewrite Nat2N.id.
  destruct (kdf_params k) as [p|] eqn:Hp, (mode k) eqn:Hmode; try done.
  - destruct Hm as (H1 & H2 & H3). apply map_err_Ok in Hkb.
    pose proof (kdf_blob_nonempty _ _ Hkb) as Hpos.
    rewrite (proj2 (Nat.ltb_lt 0 _)) by done.
    rewrite length_app, (proj2 (Nat.ltb_ge _ _)) by (apply Nat.ltb_ge in T1; lia).
    rewrite take_app_length, drop_app_length, (kdf_from_to_blob _ _ H1 H2 H3 Hkb).
    cbn [map_err mbind result_bind]. rewrite T1, T2, T3, T4, T5, <-Hp, <-Hmode. by destruct k.
  - apply (inj Ok) in Hkb as <-.
    change (0 <? length (@nil byte))%nat with false. cbn [app mbind result_bind].
    rewrite T1, T2, T3, T4, T5, <-Hp, <-Hmode. by destruct k.
Qed.

Definition sample_ek : EncryptedKeyset :=
  mkEK 3 Password (Some (mkKdf 19456 2 1 (lit "0123456789abcdef")))
    (replicate 32 x07) (replicate 32 x08) 5 (lit "wrapped").

Lemma keyset_codec_roundtrip_witness :
  exists b, keyset_to_bytes sample_ek = Ok b /\ keyset_from_bytes b = Ok sample_ek.
Proof.
  eexists. split; [vm_compute; reflexivity|].
  apply (keyset_codec_roundtrip sample_ek);
    [split_and!; [by left|done|done|done|done|vm_compute; split_and!; discriminate]
    |vm_compute; reflexivity].
Defined.

(** ** The Unlock Key input *)

Lemma push_field_inj p p' d d' r r' :
  len d <= u32_max -> len d' <= u32_max ->
  push_field p d ++ r = push_field p' d' ++ r' -> p = p' /\ d = d' /\ r = r'.
Proof.
  intros Hd Hd'. unfold push_field. cbn [app]. rewrite <-!app_assoc.
  intros [Hp H]%(inj2 cons).
  apply app_inj_len in H as [Hl H]; [|by rewrite !length_u32_be].
  assert (len d = len d') as Hlen by (by rewrite <-(u32_decode (len d)), Hl, u32_decode).
  apply app_inj_len in H as [-> ->]; [|unfold len in Hlen; lia].
  split_and!; [|done|done]. by destruct p, p'.
Qed.

Lemma push_opt_inj o o' r r' :
  len (default [] o) <= u32_max -> len (default [] o') <= u32_max ->
  push_opt o ++ r = push_opt o' ++ r' -> o = o' /\ r = r'.
Proof.
  destruct o, o'; cbn [push_opt default]; intros ?? H;
    by apply push_field_inj in H as (? & ? & ?); subst.
Qed.

(** The length-framed input of the Unlock Key derivation is unambiguous:
    the Argon2id key, the Secret Key and the device secret (each present or
    absent) are all determined by it, so no two different credential triples
    feed the key derivation the same bytes. *)
Theorem unlock_input_unambiguous a s d a' s' d' :
  len (default [] a) <= u32_max -> len (default [] a') <= u32_max ->
  len s <= u32_max -> len s' <= u32_max ->
  len (default [] d) <= u32_max -> len (default [] d') <= u32_max ->
  unlock_ikm a s d = unlock_ikm a' s' d' -> a = a' /\ s = s' /\ d = d'.
Proof.
  intros Ha Ha' Hs Hs' Hd Hd' H. unfold unlock_ikm in H.
  apply push_opt_inj in H as [-> H]; [|done..].
  apply push_field_inj in H as (_ & -> & H); [|done..].
  rewrite <-(app_nil_r (push_opt d)), <-(app_nil_r (push_opt d')) in H.
  by apply push_opt_inj in H as [-> _].
Qed.

Lemma unlock_input_unambiguous_witness :
  unlock_ikm (Some (lit "ab")) (lit "c") None <> unlock_ikm (Some (lit "a")) (lit "bc") None.
Proof.
  intros H. apply unlock_input_unambiguous in H as [H _];
    [discriminate|vm_compute; discriminate..].
Defined.

(** ** Unlocking *)

Section unlock.
Context `{P : CryptoPrims, !CryptoLaws P}.

Lemma finish_unlock_secrets v m kp ep g w x e :
  finish_unlock (mkEK v m kp (x_pk_to_bytes (x_public x)) ep g w)
    (x_sk_to_bytes x ++ ed_sk_to_bytes e) = Ok (mkKeyset (x_keypair x) (ed_keypair e)).
Proof.
  unfold finish_unlock. rewrite length_app, x_sk_len, ed_sk_len. cbn [Nat.add Nat.mul Nat.eqb negb SK_LEN].
  rewrite take_app_length', drop_app_length' by (by rewrite x_sk_len).
  unfold x_secret_from_bytes, signing_key_from_bytes. rewrite x_sk_bytes, ed_sk_len, ed_sk_bytes.
  cbn. by rewrite bool_decide_eq_true_2.
Qed.

Lemma open_current_wrapped v m kp ep g w x e ak sk nonce :
  length nonce = NONCE_LEN ->
  wrap_keyset (derive_unlock_key ak sk None) (x_keypair x) (ed_keypair e)
    (x_pk_to_bytes (x_public x)) g nonce = Ok w ->
  open_current (mkEK v m kp (x_pk_to_bytes (x_public x)) ep g w) ak sk
    = Ok (mkKeyset (x_keypair x) (ed_keypair e)).
Proof.
  intros Hn Hw%map_err_Ok. unfold open_current. cbn [wrapped_keyset x25519_public generation].
  rewrite (aead_opens _ _ _ _ _ Hn Hw). cbn [map_err mbind result_bind].
  apply finish_unlock_secrets.
Qed.

(** what unlocking a record returns is the key pairs of its public key *)
Lemma finish_unlock_Ok r pt u :
  finish_unlock r pt = Ok u ->
  exists x e, u = mkKeyset (x_keypair x) (ed_keypair e) /\
    x25519_public r = x_pk_to_bytes (x_public x).
Proof.
  unfold finish_unlock. destruct (negb _); [done|].
  intros (x & _ & (e & _ & H)%bind_Ok)%bind_Ok. destruct (bool_decide _) eqn:Hb; [|done].
  apply bool_decide_eq_true in Hb. apply (inj Ok) in H as <-. eauto.
Qed.

Lemma open_dispatch_Ok r ak sk u :
  open_dispatch r ak sk = Ok u ->
  exists x e, u = mkKeyset (x_keypair x) (ed_keypair e) /\
    x25519_public r = x_pk_to_bytes (x_public x).
Proof.
  assert (forall ak sk, open_current r ak sk = Ok u -> exists pt, finish_unlock r pt = Ok u) as Hc.
  { unfold open_current. intros ? ? (pt & _ & H)%bind_Ok. eauto. }
  unfold open_dispatch. destruct (_ <=? _).
  - intros [pt Hpt]%Hc. by eapply finish_unlock_Ok.
  - destruct (open_current r ak sk) as [u'|[]] eqn:Ho; intros H; simplify_eq.
    + destruct (Hc _ _ Ho) as [pt Hpt]. by eapply finish_unlock_Ok.
    + unfold open_legacy_v1 in H. apply bind_Ok in H as (pt & _ & H). by eapply finish_unlock_Ok.
Qed.

Lemma derive_argon_new pw params m kp ak v x ep g w :
  new_credentials pw params = Ok (m, kp, ak) -> derive_argon (mkEK v m kp x ep g w) pw = Ok ak.
Proof.
  unfold new_credentials, derive_argon. destruct pw as [pw|]; cbn [mode kdf_params].
  - intros (k & Hk & [= <- <- <-])%bind_Ok. cbn [ok_or mbind result_bind mode]. by rewrite Hk.
  - by intros [= <- <- <-].
Qed.

(** a record wrapped under the credentials it names opens with them *)
Lemma unlock_wrapped pw params m kp ak ep g w x e sk nonce :
  length nonce = NONCE_LEN -> new_credentials pw params = Ok (m, kp, ak) ->
  wrap_keyset (derive_unlock_key ak sk None) (x_keypair x) (ed_keypair e)
    (x_pk_to_bytes (x_public x)) g nonce = Ok w ->
  unlock_account (mkEK KEYSET_FORMAT_VERSION m kp (x_pk_to_bytes (x_public x)) ep g w) pw sk
    = Ok (mkKeyset (x_keypair x) (ed_keypair e)).
Proof.
  intros Hn Hc Hw. unfold unlock_account. rewrite (derive_argon_new _ _ _ _ _ _ _ _ _ _ Hc).
  cbn [mbind result_bind]. unfold open_dispatch. cbn [format_version]. rewrite N.leb_refl.
  by eapply open_current_wrapped.
Qed.

Lemma checked_add32_Some a b c : checked_add32 a b = Some c -> c = a + b /\ c <= u32_max.
Proof. unfold checked_add32. destruct (N.leb_spec (a + b) u32_max); naive_solver. Qed.
End unlock.

(** C38. An account opens with the credentials it was created with, and a change
    of password is safe: it needs the old credentials, keeps the very same
    key pairs and public identity, opens with the new credentials, and raises
    the generation by one. *)
Theorem create_and_change_password `{P : CryptoPrims, !CryptoLaws P} :
  (forall pw params sk x e nonce record u,
     length nonce = NONCE_LEN -> create_account pw params sk x e nonce = Ok (record, u) ->
     unlock_account record pw sk = Ok u /\ keyset_ok u) /\
  (forall record old new sk params nonce record',
     length nonce = NONCE_LEN ->
     change_password record old new sk params nonce = Ok record' ->
     exists u, unlock_account record old sk = Ok u /\ unlock_account record' new sk = Ok u /\
       generation record' = generation record + 1 /\ generation record' <= u32_max /\
       x25519_public record' = x25519_public record /\
       ed25519_public record' = ed25519_public record /\
       format_version record' = KEYSET_FORMAT_VERSION).
Proof.
  split.
  - intros pw params sk x e nonce record u Hn H. unfold create_account in H.
    apply bind_Ok in H as ([[m kp] ak] & Hc & H). cbn beta iota zeta in H.
    apply bind_Ok in H as (w & Hw & [= <- <-]).
    split; [by eapply unlock_wrapped|done].
  - intros record old new sk params nonce record' Hn H. unfold change_password in H.
    apply bind_Ok in H as (u & Hu & H).
    apply bind_Ok in H as (g & [-> Hg]%ok_or_Ok%checked_add32_Some & H).
    apply bind_Ok in H as ([[m kp] ak] & Hc & H). cbn beta iota zeta in H.
    apply bind_Ok in H as (w & Hw & <-%(inj Ok)). exists u.
    unfold unlock_account in Hu. apply bind_Ok in Hu as Hu'. destruct Hu' as (ak0 & _ & Ho).
    apply open_dispatch_Ok in Ho as (x & e & -> & Hx).
    cbn [generation x25519_public ed25519_public format_version]. rewrite Hx in *.
    split_and!; try done. by eapply unlock_wrapped.
Qed.

Definition sample_kdf : KdfParams := mkKdf 19456 2 1 (lit "0123456789abcdef").

Lemma create_and_change_password_witness :
  exists record u, @create_account Sample.prims (Some (lit "pw")) sample_kdf (replicate 16 x03)
      x04 x05 (replicate 24 x06) = Ok (record, u) /\
    @unlock_account Sample.prims record (Some (lit "pw")) (replicate 16 x03) = Ok u.
Proof.
  assert (is_ok (@create_account Sample.prims (Some (lit "pw")) sample_kdf (replicate 16 x03)
      x04 x05 (replicate 24 x06)) = true) as Hok by (vm_compute; reflexivity).
  apply is_ok_true in Hok as [[record u] H]. exists record, u. split; [exact H|].
  exact (proj1 (proj1 (@create_and_change_password Sample.prims Sample.laws) (Some (lit "pw"))
    sample_kdf (replicate 16 x03) x04 x05 (replicate 24 x06) record u eq_refl H)).
Defined.

(** Migration on open happens once: a legacy record that unlocks is
    re-wrapped to the current format one generation up; the migrated record
    opens with the same credentials to the same keys and is not migrated
    again. A current record is never rewritten. *)
Theorem migration_preserves_keys `{P : CryptoPrims, !CryptoLaws P} record pw sk nonce u m :
  length nonce = NONCE_LEN ->
  unlock_account_migrating record pw sk nonce = Ok (u, m) ->
  unlock_account record pw sk = Ok u /\
  match m with
  | None => KEYSET_FORMAT_VERSION <= format_version record
  | Some r => format_version record < KEYSET_FORMAT_VERSION /\
      generation r = generation record + 1 /\ x25519_public r = x25519_public record /\
      forall nonce', unlock_account_migrating r pw sk nonce' = Ok (u, None)
  end.
Proof.
  intros Hn. unfold unlock_account_migrating, unlock_account.
  intros (ak & Hak & (u' & Ho & H)%bind_Ok)%bind_Ok. rewrite Hak. cbn [mbind result_bind].
  destruct (N.ltb_spec (format_version record) KEYSET_FORMAT_VERSION).
  - apply bind_Ok in H as (r & Hr & [= <- <-]). split; [done|].
    unfold rewrap_to_current in Hr.
    apply bind_Ok in Hr as (g & [-> Hg]%ok_or_Ok%checked_add32_Some & Hr).
    apply bind_Ok in Hr as (w & Hw & <-%(inj Ok)).
    cbn [generation x25519_public format_version]. split_and!; try done. intros nonce'.
    apply open_dispatch_Ok in Ho as (x & e & -> & Hx). rewrite Hx in *.
    unfold derive_argon in Hak |- *. cbn [mode kdf_params]. rewrite Hak. cbn [mbind result_bind].
    unfold open_dispatch. cbn [format_version]. rewrite N.leb_refl.
    cbn [encryption signing] in Hw.
    by rewrite (open_current_wrapped _ _ _ _ _ _ _ _ _ _ _ Hn Hw).
  - injection H as <- <-. done.
Qed.

(** the record of a fresh account, tagged with the old format byte *)
Definition sample_legacy : EncryptedKeyset :=
  match @create_account Sample.prims (Some (lit "pw")) sample_kdf (replicate 16 x03)
      x04 x05 (replicate 24 x06) with
  | Ok (r, _) => mkEK KEYSET_FORMAT_LEGACY (mode r) (kdf_params r) (x25519_public r)
                   (ed25519_public r) (generation r) (wrapped_keyset r)
  | Err _ => sample_ek
  end.

Lemma migration_preserves_keys_witness :
  exists u m, @unlock_account_migrating Sample.prims sample_legacy (Some (lit "pw"))
      (replicate 16 x03) (replicate 24 x07) = Ok (u, m) /\
    @unlock_account Sample.prims sample_legacy (Some (lit "pw")) (replicate 16 x03) = Ok u.
Proof.
  assert (is_ok (@unlock_account_migrating Sample.prims sample_legacy (Some (lit "pw"))
    (replicate 16 x03) (replicate 24 x07)) = true) as Hok by (vm_compute; reflexivity).
  apply is_ok_true in Hok as [[u m] H]. exists u, m. split; [exact H|].
  exact (proj1 (@migration_preserves_keys Sample.prims Sample.laws sample_legacy (Some (lit "pw"))
    (replicate 16 x03) (replicate 24 x07) u m eq_refl H)).
Defined.

(** ** The generation floor *)

Lemma raise_floor_spec f s :
  f <= u64_max ->
  match keyset_gen_floor s with
  | Err e => raise_keyset_gen_floor f s = (Err e, s)
  | Ok o => exists s' o', raise_keyset_gen_floor f s = (Ok tt, s') /\
      keyset_gen_floor s' = Ok o' /\ default 0 o' = N.max (default 0 o) f /\
      s' = set_meta_tbl (fun _ => meta s') s
  end.
Proof.
  intros Hf. unfold raise_keyset_gen_floor, query, mbind, M_bind.
  destruct (keyset_gen_floor s) as [o|e] eqn:Ho; [|done].
  destruct (N.ltb_spec (default 0 o) f).
  - eexists _, (Some f). split; [reflexivity|]. split_and!.
    + unfold keyset_gen_floor, get_meta.
      change (meta (set_meta_tbl ?g ?x)) with (g (meta x)).
      by rewrite lookup_insert_eq, length_u64_be, u64_decode.
    + simpl. lia.
    + done.
  - exists s, o. split_and!; [done|done|lia|by destruct s].
Qed.

(** A device never accepts an older keyset generation than it has seen: a
    checked unlock refuses a record below the floor without touching the
    store; a successful one leaves the floor at the maximum of the old floor
    and the record's generation, and from then on every record below that is
    refused. *)
Theorem generation_never_rolls_back `{P : CryptoPrims} record pw sk s r s' :
  generation record <= u32_max ->
  unlock_account_checked record pw sk s = (r, s') ->
  match r with
  | Ok u => exists o o', keyset_gen_floor s = Ok o /\ keyset_gen_floor s' = Ok o' /\
      unlock_account record pw sk = Ok u /\
      default 0 o' = N.max (default 0 o) (generation record) /\
      (forall old pw' sk', generation old < default 0 o' ->
         unlock_account_checked old pw' sk' s'
           = (Err (GenerationRollback (generation old) (default 0 o')), s'))
  | Err _ => s' = s
  end.
Proof.
  intros Hg. assert (generation record <= u64_max) as Hg' by (unfold u32_max, u64_max in *; lia).
  pose proof (raise_floor_spec (generation record) s Hg') as Hraise.
  unfold unlock_account_checked at 1, query, mbind, M_bind.
  destruct (keyset_gen_floor s) as [o|e] eqn:Ho; [|by intros [= <- <-]].
  destruct (N.ltb_spec (generation record) (default 0 o)); [by intros [= <- <-]|].
  unfold lift_result. destruct (unlock_account record pw sk) as [u|e] eqn:Hu; [|by intros [= <- <-]].
  destruct Hraise as (s1 & o' & -> & Ho' & Hmax & _). intros [= <- <-].
  exists o, o'. split_and!; try done. intros old pw' sk' Hold.
  unfold unlock_account_checked, query, mbind, M_bind. rewrite Ho'.
  by rewrite (proj2 (N.ltb_lt _ _)).
Qed.

Lemma generation_never_rolls_back_witness :
  exists u s', @unlock_account_checked Sample.prims sample_legacy (Some (lit "pw"))
      (replicate 16 x03) (empty_storage 0) = (Ok u, s') /\
    exists o', keyset_gen_floor s' = Ok o' /\ default 0 o' = 1.
Proof.
  assert (is_ok (@unlock_account_checked Sample.prims sample_legacy (Some (lit "pw"))
    (replicate 16 x03) (empty_storage 0)).1 = true) as Hok by (vm_compute; reflexivity).
  destruct (@unlock_account_checked Sample.prims sample_legacy (Some (lit "pw"))
    (replicate 16 x03) (empty_storage 0)) as [r s'] eqn:H.
  apply is_ok_true in Hok as [u Hu]. simpl in Hu. subst r. exists u, s'. split; [done|].
  assert (generation sample_legacy <= u32_max) as Hg by (vm_compute; discriminate).
  destruct (@generation_never_rolls_back Sample.prims sample_legacy (Some (lit "pw"))
    (replicate 16 x03) (empty_storage 0) (Ok u) s' Hg H) as (o & o' & Ho & Ho' & _ & Hmax & _).
  exists o'. split; [exact Ho'|]. rewrite Hmax.
  assert (o = None) as -> by (vm_compute in Ho; congruence).
  vm_compute. reflexivity.
Defined.
