(* ===== verification/Membership.v ===== *)
(** * Vault membership (rust-core/crates/vault/src/membership.rs)

    The admin-signed member set of each key epoch, the grants that carry the
    vault key to each member, the authority chain from the genesis owner, key
    pinning (TOFU) and the self-sealed account state. [VaultError] is
    [vault/src/error.rs]. Random input of the sealing primitives ([OsRng]) and
    the wall clock of [open_own_grant] are arguments. *)

From Stdlib Require Import Strings.Byte NArith ZArith Lia.
From stdpp Require Import base gmap sets list strings sorting countable.
From S2P Require Import Prelude Bytes CryptoPrims Crypto Storage Keychain.

Local Open Scope N_scope.

(** ** error.rs *)

Inductive VaultError :=
| NotFound
| VDecrypt
| SignatureInvalid
| VFormat
| AlreadyExists
| AuthorityInvalid
| EpochInvalid
| NotAMember
| PinMismatch
| GrantExpired
| ReadOnly
| VCrypto (e : CryptoError)
| VStorage (e : StorageError).

#[global] Instance VaultError_eq_dec : EqDecision VaultError.
Proof. solve_decision. Defined.

Definition VM := M Storage VaultError.

(** [?] on a storage call inside a vault function *)
Definition stg {A} (m : SM A) : VM A := err_into VStorage m.

(** ** Roles, members and verified sets *)

Definition role_to_u8 (r : MemberRole) : byte :=
  match r with Viewer => x00 | Editor => x01 | Admin => x02 end.
Definition role_from_u8 (b : byte) : option MemberRole :=
  match b with x00 => Some Viewer | x01 => Some Editor | x02 => Some Admin | _ => None end.

Record Member := mkMember { ed25519_pub : bytes; m_role : MemberRole }.

#[global] Instance Member_eq_dec : EqDecision Member.
Proof. solve_decision. Defined.

Record VerifiedMembers := mkVerified {
  vm_vault_id : bytes;
  vm_key_epoch : N;
  vm_members : list Member
}.

#[global] Instance VerifiedMembers_eq_dec : EqDecision VerifiedMembers.
Proof. solve_decision. Defined.

Definition epoch (v : VerifiedMembers) : N := vm_key_epoch v.

Definition contains (v : VerifiedMembers) (pk : bytes) : bool :=
  existsb (fun m => bytes_eqb (ed25519_pub m) pk) (vm_members v).

Definition is_admin (v : VerifiedMembers) (pk : bytes) : bool :=
  existsb (fun m => bytes_eqb (ed25519_pub m) pk && bool_decide (m_role m = Admin))
    (vm_members v).

Definition role_of (v : VerifiedMembers) (pk : bytes) : option MemberRole :=
  m_role <$> List.find (fun m => bytes_eqb (ed25519_pub m) pk) (vm_members v).

Definition can_write (v : VerifiedMembers) (pk : bytes) : bool :=
  match role_of v pk with Some Editor | Some Admin => true | _ => false end.

(** ** The canonical member payload *)

Definition MANIFEST_DOMAIN : bytes := lit "unissh-manifest-v1".
Definition MANIFEST_AAD_MARKER : bytes := lit "__manifest__".
Definition GRANT_DOMAIN : bytes := lit "unissh-grant-v1".

Definition manifest_aad (vault_id : bytes) (key_epoch : N) : AssociatedData :=
  mkAAD vault_id MANIFEST_AAD_MARKER key_epoch.

(** two neighbours of the sorted list with the same key *)
Fixpoint adjacent_dup (l : list Member) : bool :=
  match l with
  | a :: ((b :: _) as l') => bytes_eqb (ed25519_pub a) (ed25519_pub b) || adjacent_dup l'
  | _ => false
  end.

Definition encode_member (m : Member) : result VaultError bytes :=
  if u16_max <? len (ed25519_pub m) then Err VFormat
  else Ok (role_to_u8 (m_role m) :: u16_be (len (ed25519_pub m)) ++ ed25519_pub m).

Definition sort_members (members : list Member) : list Member := sort_on ed25519_pub members.

Definition canonical_member_payload (key_epoch : N) (members : list Member)
    : result VaultError bytes :=
  let sorted := sort_members members in
  if adjacent_dup sorted then Err VFormat
  else if u32_max <? len sorted then Err VFormat
  else
    bodies ← traverse encode_member sorted;
    Ok (MANIFEST_DOMAIN ++ u64_be key_epoch ++ u32_be (len sorted) ++ concat bodies).

(** [p.get(..n)] and the rest, or [Format] *)
Definition split_at (n : nat) (p : bytes) : result VaultError (bytes * bytes) :=
  if (length p <? n)%nat then Err VFormat else Ok (take n p, drop n p).

(** The member loop. [count] comes from the payload; every round consumes at
    least three bytes, so [S (length p)] rounds are enough ([parse_members_fuel]). *)
Fixpoint parse_members (fuel : nat) (count : N) (p : bytes) : result VaultError (list Member) :=
  match fuel with
  | O => Err VFormat
  | S fuel' =>
      if count =? 0 then guard (length p =? 0)%nat VFormat ≫= fun _ => Ok []
      else
        match p with
        | [] => Err VFormat
        | b :: p =>
            role ← ok_or (role_from_u8 b) VFormat;
            '(len_bytes, p) ← split_at 2 p;
            '(pk, p) ← split_at (N.to_nat (be_decode len_bytes)) p;
            rest ← parse_members fuel' (count - 1) p;
            Ok (mkMember pk role :: rest)
        end
  end.

Definition MANIFEST_HEADER_LEN : nat := length MANIFEST_DOMAIN + 8 + 4.

Definition parse_member_payload (key_epoch : N) (payload : bytes)
    : result VaultError (list Member) :=
  let dom_len := length MANIFEST_DOMAIN in
  if (length payload <? MANIFEST_HEADER_LEN)%nat
     || negb (bytes_eqb (take dom_len payload) MANIFEST_DOMAIN)
  then Err VFormat
  else
    '(epoch_bytes, p) ← split_at 8 (drop dom_len payload);
    if negb (be_decode epoch_bytes =? key_epoch) then Err VFormat
    else
      '(cnt_bytes, p) ← split_at 4 p;
      parse_members (S (length p)) (be_decode cnt_bytes) p.

(** ** Length-prefixed fields of the sealed account payload *)

Definition put_len_prefixed (out b : bytes) : result VaultError bytes :=
  if u32_max <? len b then Err VFormat else Ok (out ++ u32_be (len b) ++ b).

Definition take_len_prefixed (b : bytes) : result VaultError (bytes * bytes) :=
  '(len_bytes, rest) ← split_at 4 b;
  split_at (N.to_nat (be_decode len_bytes)) rest.

Section membership.
Context `{P : CryptoPrims}.

(** ** Manifests *)

Definition build_manifest (admin : UnlockedKeyset) (vault_id : bytes) (key_epoch : N)
    (members : list Member) : result VaultError MembershipManifest :=
  payload ← canonical_member_payload key_epoch members;
  signature ← map_err VCrypto (sign_version (ek_signing (signing admin))
                 (from_content (manifest_aad vault_id key_epoch) payload));
  Ok (mkManifest vault_id key_epoch payload signature (ks_pub admin)).

Definition verify_manifest (manifest : MembershipManifest) (vault_id : bytes)
    (prev : option VerifiedMembers) (genesis_owner : bytes)
    : result VaultError VerifiedMembers :=
  if negb (bytes_eqb (mm_vault_id manifest) vault_id) then Err VFormat
  else
    author ← map_err (fun _ => VFormat) (verifying_key_from_bytes (mm_author_pubkey manifest));
    let vo := from_content (manifest_aad vault_id (mm_key_epoch manifest))
                (mm_manifest_blob manifest) in
    _ ← map_err (fun _ => SignatureInvalid) (verify_version author vo (mm_signature manifest));
    _ ← match prev with
        | None =>
            if negb (mm_key_epoch manifest =? 1) then Err EpochInvalid
            else if negb (bytes_eqb (mm_author_pubkey manifest) genesis_owner)
            then Err AuthorityInvalid else Ok tt
        | Some prev =>
            if negb (mm_key_epoch manifest =? sat_add64 (epoch prev) 1) then Err EpochInvalid
            else if negb (is_admin prev (mm_author_pubkey manifest))
            then Err AuthorityInvalid else Ok tt
        end;
    members ← parse_member_payload (mm_key_epoch manifest) (mm_manifest_blob manifest);
    Ok (mkVerified vault_id (mm_key_epoch manifest) members).

(** ** Grants *)

Definition grant_aad (vault_id member : bytes) (key_epoch : N) : AssociatedData :=
  mkAAD vault_id member key_epoch.

Definition grant_signed_content (role : MemberRole) (not_after : Z) (wrapped_vk : bytes) : bytes :=
  GRANT_DOMAIN ++ [role_to_u8 role] ++ i64_be not_after ++ wrapped_vk.

Definition build_grant (admin : UnlockedKeyset) (vault_id recipient_x member : bytes)
    (role : MemberRole) (key_epoch : N) (vk rng : bytes) : result VaultError MembershipGrant :=
  recipient ← map_err (fun _ => VFormat) (x_public_from_bytes recipient_x);
  info ← map_err VCrypto (vk_wrap_info vault_id member key_epoch);
  wrapped_vk ← map_err VCrypto (seal_key_to_public recipient vk info rng);
  let not_after := 0%Z in
  let content := grant_signed_content role not_after wrapped_vk in
  signature ← map_err VCrypto (sign_version (ek_signing (signing admin))
                 (from_content (grant_aad vault_id member key_epoch) content));
  Ok (mkGrant vault_id member key_epoch role not_after wrapped_vk signature (ks_pub admin)).

Definition verify_grant (grant : MembershipGrant) (vault_id : bytes) (members : VerifiedMembers)
    : result VaultError unit :=
  if negb (bytes_eqb (mg_vault_id grant) vault_id) then Err VFormat
  else if negb (mg_key_epoch grant =? epoch members) then Err EpochInvalid
  else
    author ← map_err (fun _ => VFormat) (verifying_key_from_bytes (mg_author_pubkey grant));
    let content := grant_signed_content (mg_role grant) (mg_not_after grant)
                     (mg_wrapped_vk grant) in
    let vo := from_content (grant_aad vault_id (mg_member_pubkey grant) (mg_key_epoch grant))
                content in
    _ ← map_err (fun _ => SignatureInvalid) (verify_version author vo (mg_signature grant));
    if negb (is_admin members (mg_author_pubkey grant)) then Err AuthorityInvalid
    else
      recipient_role ← ok_or (role_of members (mg_member_pubkey grant)) NotAMember;
      if negb (bool_decide (recipient_role = mg_role grant)) then Err AuthorityInvalid
      else Ok tt.

Definition open_grant (grant : MembershipGrant) (vault_id : bytes) (secret : x_sk)
    (member : bytes) (key_epoch : N) (now : Z) : result VaultError bytes :=
  if (0 <? mg_not_after grant)%Z && (mg_not_after grant <=? now)%Z then Err GrantExpired
  else
    info ← map_err VCrypto (vk_wrap_info vault_id member key_epoch);
    map_err (fun _ => VDecrypt) (open_key_with_secret secret (mg_wrapped_vk grant) info).

(** the loop of [open_own_grant]; [failure] is the error so far *)
Fixpoint open_own_grant_loop (failure : VaultError) (grants : list MembershipGrant)
    (vault_id : bytes) (members : VerifiedMembers) (keyset : UnlockedKeyset) (now : Z)
    : result VaultError (bytes * MemberRole) :=
  match grants with
  | [] => Err failure
  | grant :: grants =>
      if negb (bytes_eqb (mg_member_pubkey grant) (ks_pub keyset))
      then open_own_grant_loop failure grants vault_id members keyset now
      else
        match (verify_grant grant vault_id members ≫= fun _ =>
               open_grant grant vault_id (xk_secret (encryption keyset)) (ks_pub keyset)
                 (epoch members) now) with
        | Ok vk => Ok (vk, mg_role grant)
        | Err e => open_own_grant_loop e grants vault_id members keyset now
        end
  end.

Definition open_own_grant := open_own_grant_loop NotAMember.

(** ** The authority chain *)

(** the candidates of one epoch: the first that verifies, else the last failure *)
Fixpoint first_verified (failure : VaultError) (candidates : list MembershipManifest)
    (vault_id : bytes) (prev : option VerifiedMembers) (genesis_owner : bytes)
    : result VaultError VerifiedMembers :=
  match candidates with
  | [] => Err failure
  | m :: ms =>
      match verify_manifest m vault_id prev genesis_owner with
      | Ok members => Ok members
      | Err e => first_verified e ms vault_id prev genesis_owner
      end
  end.

Fixpoint verify_chain_from (prev : option VerifiedMembers) (vault_id genesis_owner : bytes)
    (epochs : list (result VaultError (list MembershipManifest)))
    : result VaultError VerifiedMembers :=
  match epochs with
  | [] => ok_or prev EpochInvalid
  | cs :: epochs =>
      candidates ← cs;
      verified ← first_verified AuthorityInvalid candidates vault_id prev genesis_owner;
      verify_chain_from (Some verified) vault_id genesis_owner epochs
  end.

Definition verify_chain := verify_chain_from None.

(** [1..=n] *)
Definition epochs_to (n : N) : list N := N.of_nat <$> seq 1 (N.to_nat n).

(** the candidates storage holds for one epoch: one manifest or a gap *)
Definition read_epoch (s : Storage) (vault_id : bytes) (e : N)
    : result VaultError (list MembershipManifest) :=
  map_err VStorage (m ← get_membership_manifest s vault_id e; Ok (option_list m)).

Definition verify_chain_to_epoch (s : Storage) (vault_id : bytes) (target_epoch : N)
    (genesis_owner : bytes) : result VaultError VerifiedMembers :=
  if target_epoch =? 0 then Err EpochInvalid
  else verify_chain vault_id genesis_owner (read_epoch s vault_id <$> epochs_to target_epoch).

(** ** Pinning *)

Definition hex_digit (n : N) : byte := byte_of_N (if n <? 10 then 48 + n else 87 + n).
Definition hex (b : bytes) : bytes :=
  b ≫= fun x => [hex_digit (Byte.to_N x / 16); hex_digit (Byte.to_N x mod 16)].

Definition member_fingerprint (pk : bytes) : bytes := hex (sha256 pk).

Definition pin_and_verify_member (account_id presented : bytes) : VM unit :=
  s ← get_state;
  match get_pinned_member_key s account_id with
  | Some pinned =>
      if bytes_eqb (pk_member_pubkey pinned) presented then mret tt else throw PinMismatch
  | None => stg (pin_member_key account_id presented (member_fingerprint presented))
  end.

Definition pin_and_verify_vault_anchor (vault_id presented : bytes) : VM unit :=
  s ← get_state;
  match get_vault_trust_anchor s vault_id with
  | Some anchor =>
      if bytes_eqb (ta_genesis_owner_pubkey anchor) presented then mret tt else throw PinMismatch
  | None => stg (set_vault_trust_anchor vault_id presented)
  end.

(** ** Account state *)

Definition ACCOUNT_SEAL_INFO : bytes := lit "unissh-account-state-seal-v1".

Definition ks_sign_account_state (keyset : UnlockedKeyset) (version : N) (payload : bytes) : bytes :=
  sign_account_state (ek_signing (signing keyset)) version payload.

Definition v_verify_account_state (author_pubkey : bytes) (version : N)
    (payload signature : bytes) : result VaultError unit :=
  author ← map_err (fun _ => VFormat) (verifying_key_from_bytes author_pubkey);
  map_err (fun _ => SignatureInvalid) (verify_account_state author version payload signature).

Definition account_aad : AssociatedData := mkAAD [] ACCOUNT_SEAL_INFO 0.

(** [symkey], [rng] and [nonce] are the random input *)
Definition seal_account_payload (keyset : UnlockedKeyset) (plaintext symkey rng nonce : bytes)
    : result VaultError bytes :=
  wrapped ← map_err (fun _ => VFormat)
    (seal_key_to_public (xk_public (encryption keyset)) symkey ACCOUNT_SEAL_INFO rng);
  ct ← map_err (fun _ => VFormat) (aead_encrypt symkey plaintext account_aad nonce);
  out ← put_len_prefixed [] wrapped;
  put_len_prefixed out ct.

Definition open_account_payload (keyset : UnlockedKeyset) (sealed : bytes)
    : result VaultError bytes :=
  '(wrapped, rest) ← take_len_prefixed sealed;
  '(ct, rest2) ← take_len_prefixed rest;
  if negb (length rest2 =? 0)%nat then Err VFormat
  else
    symkey ← map_err (fun _ => VFormat)
      (open_key_with_secret (xk_secret (encryption keyset)) wrapped ACCOUNT_SEAL_INFO);
    map_err (fun _ => VFormat) (aead_decrypt symkey ct account_aad).

(** ** add_member: build, verify, then persist in one transaction *)

(** a recipient: its X25519 key, its Ed25519 key, its role, and the random
    input of its envelope *)
Definition Recipient : Type := bytes * bytes * MemberRole * bytes.

Definition build_verified_grant (admin : UnlockedKeyset) (vault_id : bytes) (key_epoch : N)
    (vk : bytes) (verified : VerifiedMembers) (r : Recipient)
    : result VaultError MembershipGrant :=
  let '(recip_x, member_ed, role, rng) := r in
  g ← build_grant admin vault_id recip_x member_ed role key_epoch vk rng;
  _ ← verify_grant g vault_id verified;
  Ok g.

Definition add_member (admin : UnlockedKeyset) (vault_id : bytes) (key_epoch : N)
    (prev : option VerifiedMembers) (genesis_owner : bytes) (members : list Member)
    (recipients : list Recipient) (vk : bytes) : VM VerifiedMembers :=
  manifest ← lift_result (build_manifest admin vault_id key_epoch members);
  verified ← lift_result (verify_manifest manifest vault_id prev genesis_owner);
  built ← lift_result
    (traverse (build_verified_grant admin vault_id key_epoch vk verified) recipients);
  _ ← atomically (
    _ ← stg (put_membership_manifest manifest);
    _ ← for_each built (fun g => stg (put_membership_grant g));
    stg (mark_membership_dirty vault_id key_epoch));
  mret verified.

End membership.
