(* ===== verification/MembershipThy.v ===== *)
(** * Theorems about membership

    The canonical payload and its parser, manifests and the authority chain
    against an inductive specification of trust, grants, pinning and the
    account payload. *)

From Stdlib Require Import Strings.Byte NArith ZArith Lia.
From stdpp Require Import base gmap sets list strings sorting countable.
From S2P Require Import Prelude Bytes CryptoPrims Crypto Storage StorageInv Keychain Membership.

Local Open Scope N_scope.

(** ** Splitting *)

Lemma split_at_app a b : split_at (length a) (a ++ b) = Ok (a, b).
Proof.
  unfold split_at. rewrite (proj2 (Nat.ltb_ge _ _)) by (rewrite length_app; lia).
  by rewrite take_app_length, drop_app_length.
Qed.

Lemma split_at_app' n a b : length a = n -> split_at n (a ++ b) = Ok (a, b).
Proof. intros <-. apply split_at_app. Qed.

Lemma split_at_Ok n p a b : split_at n p = Ok (a, b) <-> p = a ++ b /\ length a = n.
Proof.
  split.
  - unfold split_at. destruct (Nat.ltb_spec (length p) n); [done|].
    intros [= <- <-]. rewrite take_drop, length_take. split; [done|lia].
  - intros [-> <-]. apply split_at_app.
Qed.

(** ** The member loop *)

Lemma role_from_to r : role_from_u8 (role_to_u8 r) = Some r.
Proof. by destruct r. Qed.

(** more fuel than bytes makes no difference *)
Lemma parse_members_fuel f1 f2 c p :
  (length p < f1)%nat -> (length p < f2)%nat ->
  parse_members f1 c p = parse_members f2 c p.
Proof.
  revert f2 c p; induction f1 as [|f1 IH]; intros [|f2] c p H1 H2; try lia.
  cbn [parse_members]. destruct (c =? 0); [done|]. destruct p as [|b p]; [done|].
  destruct (ok_or (role_from_u8 b) VFormat) as [role|]; [|done]. cbn [mbind result_bind].
  destruct (split_at 2 p) as [[lb p1]|] eqn:E1; [|done]. cbn [mbind result_bind].
  apply split_at_Ok in E1 as [-> _].
  destruct (split_at _ p1) as [[pk p2]|] eqn:E2; [|done]. cbn [mbind result_bind].
  apply split_at_Ok in E2 as [-> _].
  rewrite (IH f2); [done|..]; simpl in *; rewrite !length_app in *; lia.
Qed.

Lemma encode_member_Ok m b :
  encode_member m = Ok b <->
  len (ed25519_pub m) <= u16_max /\
  b = role_to_u8 (m_role m) :: u16_be (len (ed25519_pub m)) ++ ed25519_pub m.
Proof.
  unfold encode_member. destruct (N.ltb_spec u16_max (len (ed25519_pub m))); split; intros;
    naive_solver lia.
Qed.

(** the loop reads back what the encoder wrote, whatever the order *)
Lemma parse_encode_members ms bodies f :
  traverse encode_member ms = Ok bodies -> (length (concat bodies) < f)%nat ->
  parse_members f (len ms) (concat bodies) = Ok ms.
Proof.
  revert bodies f; induction ms as [|m ms IH]; intros bodies f; cbn [traverse].
  - intros <-%(inj Ok) Hf. destruct f; [lia|]. done.
  - intros (b & (Hlen & ->)%encode_member_Ok & (bs & Hbs & <-%(inj Ok))%bind_Ok)%bind_Ok Hf.
    destruct f as [|f]; [lia|]. cbn [parse_members concat].
    rewrite (proj2 (N.eqb_neq _ _)) by (unfold len; simpl; lia).
    cbn [app]. rewrite role_from_to. cbn [ok_or mbind result_bind].
    rewrite <-app_assoc. rewrite split_at_app' by apply length_u16_be.
    cbn [mbind result_bind]. rewrite u16_decode by done.
    rewrite split_at_app' by (unfold len; lia). cbn [mbind result_bind].
    replace (len (m :: ms) - 1) with (len ms) by (unfold len; simpl; lia).
    cbn [concat] in Hf. rewrite length_app in Hf. simpl in Hf.
    rewrite (IH bs f) by (done || lia). cbn [mbind result_bind]. by destruct m.
Qed.

(** ** Canonical payloads *)

Lemma sort_members_perm ms : sort_members ms ≡ₚ ms.
Proof. apply sort_on_perm. Qed.

Lemma sort_on_sorted {A} (key : A -> bytes) l :
  StronglySorted (leb_rel (fun x y => bytes_leb (key x) (key y))) (sort_on key l).
Proof.
  apply stable_sort_sorted.
  - intros x y. apply bytes_leb_total.
  - intros x y z. apply bytes_leb_trans.
Qed.

(** no neighbour repeats in a sorted list means no key repeats at all *)
Lemma adjacent_dup_NoDup l :
  StronglySorted (leb_rel (fun x y => bytes_leb (ed25519_pub x) (ed25519_pub y))) l ->
  adjacent_dup l = false <-> NoDup (ed25519_pub <$> l).
Proof.
  induction 1 as [|a l Hl IH Ha]; [by split; [constructor|]|].
  rewrite fmap_cons, list.NoDup_cons. destruct l as [|b l].
  { split; [|done]. intros _. split; [set_solver|constructor]. }
  change (adjacent_dup (a :: b :: l)) with
    (bytes_eqb (ed25519_pub a) (ed25519_pub b) || adjacent_dup (b :: l)).
  rewrite orb_false_iff, bytes_eqb_false, IH. split; [|intros [Hin Hnd]; split; [|done]].
  - intros [Hab Hnd]. split; [|done]. intros (c & Hc & Hin)%list_elem_of_fmap.
    (* a <= b <= c and key a = key c *)
    assert (bytes_leb (ed25519_pub b) (ed25519_pub c) = true) as Hbc.
    { apply elem_of_cons in Hin as [->|Hin]; [apply bytes_leb_refl|].
      inversion Hl as [|? ? _ Hb]; subst. rewrite list.Forall_forall in Hb. by apply Hb. }
    inversion Ha; subst. apply Hab, bytes_leb_antisym; [done|]. by rewrite Hc.
  - intros Heq. apply Hin. rewrite Heq, fmap_cons. by left.
Qed.

Lemma traverse_Forall {E A B} (f : A -> result E B) l bs :
  traverse f l = Ok bs -> Forall (fun a => exists b, f a = Ok b) l.
Proof.
  revert bs; induction l as [|a l IH]; intros bs; cbn [traverse]; [by constructor|].
  intros (b & Hb & (bs' & Hbs & _)%bind_Ok)%bind_Ok. constructor; eauto.
Qed.

Lemma canonical_member_payload_Ok e ms p :
  canonical_member_payload e ms = Ok p <->
  NoDup (ed25519_pub <$> ms) /\ len ms <= u32_max /\
  exists bodies, traverse encode_member (sort_members ms) = Ok bodies /\
    p = MANIFEST_DOMAIN ++ u64_be e ++ u32_be (len ms) ++ concat bodies.
Proof.
  unfold canonical_member_payload.
  assert (NoDup (ed25519_pub <$> ms) <-> adjacent_dup (sort_members ms) = false) as ->.
  { rewrite adjacent_dup_NoDup by apply sort_on_sorted. by rewrite sort_members_perm. }
  assert (len (sort_members ms) = len ms) as ->.
  { unfold len. by rewrite sort_members_perm. }
  destruct (adjacent_dup _); [split; [done|naive_solver]|].
  destruct (N.ltb_spec u32_max (len ms)); [split; [done|naive_solver lia]|].
  rewrite bind_Ok. split; [intros (b & Hb & <-%(inj Ok)); eauto|].
  intros (_ & _ & b & Hb & ->). eauto.
Qed.

(** sorting by distinct keys forgets the input order *)
Lemma sort_members_ext ms ms' :
  NoDup (ed25519_pub <$> ms) -> ms ≡ₚ ms' -> sort_members ms = sort_members ms'.
Proof.
  intros Hnd Hp. eapply sorted_perm_unique;
    [|apply sort_on_sorted|apply sort_on_sorted|by rewrite !sort_members_perm].
  intros x y Hx Hy H1 H2. rewrite sort_members_perm in Hx, Hy.
  pose proof (bytes_leb_antisym _ _ H1 H2) as Hk.
  apply list_elem_of_lookup in Hx as [i Hi]. apply list_elem_of_lookup in Hy as [j Hj].
  assert (i = j) as ->; [|congruence].
  eapply NoDup_lookup; [exact Hnd|..]; rewrite list_lookup_fmap, ?Hi, ?Hj; simpl; by rewrite ?Hk.
Qed.

Lemma parse_member_payload_split e p ms :
  parse_member_payload e p = Ok ms <->
  exists eb cb body, p = MANIFEST_DOMAIN ++ eb ++ cb ++ body /\ length eb = 8%nat /\
    length cb = 4%nat /\ be_decode eb = e /\
    parse_members (S (length body)) (be_decode cb) body = Ok ms.
Proof.
  unfold parse_member_payload. split.
  - destruct (_ || _) eqn:E; [done|]. apply orb_false_iff in E as [_ Hd%negb_false_iff].
    apply bytes_eqb_true in Hd.
    intros ([eb p1] & [Hp1 He]%split_at_Ok & H)%bind_Ok. cbn beta iota in H.
    destruct (be_decode eb =? e) eqn:Hee; [|done]. apply N.eqb_eq in Hee. cbn [negb] in H.
    apply bind_Ok in H as ([cb body] & [-> Hc]%split_at_Ok & H).
    exists eb, cb, body. split_and!; try done.
    by rewrite <-(take_drop (length MANIFEST_DOMAIN) p), Hd, Hp1.
  - intros (eb & cb & body & -> & He & Hc & Hee & Hm).
    rewrite take_app_length, bytes_eqb_refl, drop_app_length.
    rewrite (proj2 (Nat.ltb_ge _ _)) by
      (rewrite !length_app, He, Hc; unfold MANIFEST_HEADER_LEN; lia).
    cbn [negb orb]. rewrite split_at_app' by done. cbn [mbind result_bind].
    rewrite Hee, N.eqb_refl. cbn [negb]. rewrite split_at_app' by done. done.
Qed.

Lemma parse_canonical e ms p :
  e <= u64_max -> canonical_member_payload e ms = Ok p ->
  parse_member_payload e p = Ok (sort_members ms).
Proof.
  intros He (_ & Hl & bodies & Hb & ->)%canonical_member_payload_Ok.
  apply parse_member_payload_split. exists (u64_be e), (u32_be (len ms)), (concat bodies).
  rewrite length_u64_be, length_u32_be, u64_decode, u32_decode by done.
  split_and!; try done.
  replace (len ms) with (len (sort_members ms)) by (unfold len; by rewrite sort_members_perm).
  apply parse_encode_members; [done|lia].
Qed.

(** The signed member payload is canonical: it parses back to the member
    set (sorted by key), the same set in any order gives the same bytes, and
    equal bytes mean the same epoch and the same set. A set with a repeated
    member has no payload. *)
Theorem member_payload_canonical e ms p :
  e <= u64_max -> canonical_member_payload e ms = Ok p ->
  parse_member_payload e p = Ok (sort_members ms) /\
  (forall ms', ms ≡ₚ ms' -> canonical_member_payload e ms' = Ok p) /\
  (forall e' ms', e' <= u64_max -> canonical_member_payload e' ms' = Ok p ->
     e' = e /\ ms' ≡ₚ ms).
Proof.
  intros He Hp.
  split_and!; [by apply parse_canonical|..].
  - intros ms' Hperm. apply canonical_member_payload_Ok in Hp as (Hnd & Hl & b & Hb & ->).
    apply canonical_member_payload_Ok. split_and!.
    + by rewrite <-Hperm.
    + unfold len. by rewrite <-Hperm.
    + exists b. rewrite <-(sort_members_ext ms ms') by done. split; [done|].
      unfold len. by rewrite <-Hperm.
  - intros e' ms' He' Hp'. pose proof (parse_canonical _ _ _ He Hp) as H1.
    pose proof (parse_canonical _ _ _ He' Hp') as H2.
    assert (e' = e) as ->.
    { apply canonical_member_payload_Ok in Hp as (_ & _ & b & _ & ->).
      apply canonical_member_payload_Ok in Hp' as (_ & _ & b' & _ & Heq).
      apply app_inv_head in Heq. apply app_inj_len in Heq as [Heq _];
        [|by rewrite !length_u64_be]. symmetry. by apply u64_be_inj in Heq. }
    split; [done|]. rewrite H1 in H2. apply (inj Ok) in H2.
    by rewrite <-(sort_members_perm ms), H2, sort_members_perm.
Qed.

Definition sample_members : list Member :=
  [mkMember (Sample.key32 x02) Viewer; mkMember (Sample.key32 x01) Admin].

Lemma member_payload_canonical_witness :
  exists p, canonical_member_payload 3 sample_members = Ok p /\
    parse_member_payload 3 p = Ok (rev sample_members).
Proof.
  eexists. split; [vm_compute; reflexivity|].
  refine (proj1 (member_payload_canonical 3 sample_members _ _ _));
    [vm_compute; discriminate|vm_compute; reflexivity].
Defined.

(** The parser does not insist on the canonical form: a payload that lists a
    key twice parses, and the two role tests then disagree about that key. *)
Lemma parse_accepts_repeated_member :
  exists p ms, parse_member_payload 1 p = Ok ms /\
    (forall ms', canonical_member_payload 1 ms' <> Ok p) /\
    is_admin (mkVerified [] 1 ms) (lit "k") = true /\
    can_write (mkVerified [] 1 ms) (lit "k") = false.
Proof.
  set (p := MANIFEST_DOMAIN ++ u64_be 1 ++ u32_be 2 ++
            [x00; x00; x01; x6b; x02; x00; x01; x6b]).
  exists p, [mkMember (lit "k") Viewer; mkMember (lit "k") Admin].
  split_and!; [vm_compute; reflexivity| |reflexivity|reflexivity].
  intros ms' Hp. pose proof (proj1 (canonical_member_payload_Ok _ _ _) Hp) as (Hnd & _).
  apply parse_canonical in Hp as H; [|done].
  assert (parse_member_payload 1 p = Ok [mkMember (lit "k") Viewer; mkMember (lit "k") Admin])
    as H' by (vm_compute; reflexivity).
  rewrite H' in H. apply (inj Ok) in H. rewrite <-sort_members_perm, <-H in Hnd.
  apply list.NoDup_cons in Hnd as [Hnd _]. apply Hnd. by left.
Qed.

(** ** Trust, as a specification *)

Section chain.
Context `{P : CryptoPrims}.

(** the manifest carries a valid signature of the key it names *)
Definition manifest_signed (m : MembershipManifest) : Prop :=
  exists author, verifying_key_from_bytes (mm_author_pubkey m) = Ok author /\
    verify_version author
      (from_content (manifest_aad (mm_vault_id m) (mm_key_epoch m)) (mm_manifest_blob m))
      (mm_signature m) = Ok tt.

(** what a manifest must satisfy to follow [prev] (or to be the genesis) *)
Definition authorised (owner : bytes) (prev : option VerifiedMembers) (m : MembershipManifest)
    : Prop :=
  match prev with
  | None => mm_key_epoch m = 1 /\ mm_author_pubkey m = owner
  | Some p => mm_key_epoch m = sat_add64 (epoch p) 1 /\ is_admin p (mm_author_pubkey m) = true
  end.

Lemma verify_manifest_Ok m vid prev owner v :
  verify_manifest m vid prev owner = Ok v <->
  mm_vault_id m = vid /\ manifest_signed m /\ authorised owner prev m /\
  exists ms, parse_member_payload (mm_key_epoch m) (mm_manifest_blob m) = Ok ms /\
    v = mkVerified vid (mm_key_epoch m) ms.
Proof.
  unfold verify_manifest, manifest_signed.
  destruct (bytes_eqb (mm_vault_id m) vid) eqn:Hv; cbn [negb];
    [apply bytes_eqb_true in Hv as <-
    |apply bytes_eqb_false in Hv; split; [done|naive_solver]].
  destruct (verifying_key_from_bytes (mm_author_pubkey m)) as [pk|]; cbn [map_err mbind result_bind];
    [|split; [done|naive_solver]].
  destruct (verify_version pk _ _) as [[]|] eqn:Hsig; cbn [map_err mbind result_bind];
    [|split; [done|]; intros (_ & (? & [= <-] & ?) & _); congruence].
  unfold authorised. rewrite bind_Ok. split.
  - intros ([] & Hauth & (ms & Hms & <-%(inj Ok))%bind_Ok).
    split_and!; [done|by eauto| |by eauto].
    destruct prev as [p|]; destruct (_ =? _) eqn:E in Hauth; try done; apply N.eqb_eq in E;
      simpl in Hauth.
    + destruct (is_admin p _); done.
    + destruct (bytes_eqb _ _) eqn:Ho; [|done]. by apply bytes_eqb_true in Ho.
  - intros (_ & _ & Hauth & ms & Hms & ->). exists tt.
    rewrite Hms. split; [|done].
    destruct prev as [p|]; destruct Hauth as [-> Ha]; rewrite N.eqb_refl; simpl.
    + by rewrite Ha.
    + by rewrite Ha, bytes_eqb_refl.
Qed.

Definition manifest_at (s : Storage) (vid : bytes) (e : N) : option MembershipManifest :=
  row <$> manifests s !! (vid, e).

(** [Trusted s vid owner e v]: authority over vault [vid] flows from the owner
    to the member set [v] of epoch [e], one signed manifest per epoch. *)
Inductive Trusted (s : Storage) (vid owner : bytes) : N -> VerifiedMembers -> Prop :=
| trusted_genesis m ms :
    manifest_at s vid 1 = Some m -> mm_vault_id m = vid -> mm_key_epoch m = 1 ->
    manifest_signed m -> mm_author_pubkey m = owner ->
    parse_member_payload 1 (mm_manifest_blob m) = Ok ms ->
    Trusted s vid owner 1 (mkVerified vid 1 ms)
| trusted_next e prev m ms :
    Trusted s vid owner e prev ->
    manifest_at s vid (e + 1) = Some m -> mm_vault_id m = vid -> mm_key_epoch m = e + 1 ->
    manifest_signed m -> is_admin prev (mm_author_pubkey m) = true ->
    parse_member_payload (e + 1) (mm_manifest_blob m) = Ok ms ->
    Trusted s vid owner (e + 1) (mkVerified vid (e + 1) ms).

Lemma trusted_epoch s vid owner e v : Trusted s vid owner e v -> epoch v = e /\ 1 <= e.
Proof. induction 1; simpl; split; (done || lia). Qed.

Lemma verify_chain_from_snoc prev vid owner es c v :
  verify_chain_from prev vid owner es = Ok v \/ (es = [] /\ prev = None) ->
  verify_chain_from prev vid owner (es ++ [c]) =
  (cs ← c; first_verified AuthorityInvalid cs vid
     (if decide (es = []) then prev else Some v) owner).
Proof.
  revert prev; induction es as [|c' es IH]; intros prev H; simpl.
  - destruct c as [cs|]; simpl; [|done]. by destruct (first_verified _ _ _ _ _).
  - destruct H as [H|[? _]]; [|done]. simpl in H.
    destruct c' as [cs'|]; [|done]. cbn [mbind result_bind] in *.
    destruct (first_verified _ cs' _ _ _) as [w|]; [|done]. cbn [mbind result_bind] in *.
    rewrite IH by (by left). destruct es; simpl in *; [|done].
    by injection H as ->.
Qed.

Lemma verify_chain_from_snoc_Ok prev vid owner es c v :
  verify_chain_from prev vid owner (es ++ [c]) = Ok v -> es <> [] ->
  exists w, verify_chain_from prev vid owner es = Ok w.
Proof.
  revert prev; induction es as [|c' es IH]; intros prev H Hne; [done|]. simpl in *.
  destruct c' as [cs'|]; [|done]. cbn [mbind result_bind] in *.
  destruct (first_verified _ cs' _ _ _) as [w|]; [|done]. cbn [mbind result_bind] in *.
  destruct es as [|c2 es]; [by exists w|]. by apply IH in H.
Qed.

Lemma epochs_to_succ n : epochs_to (n + 1) = epochs_to n ++ [n + 1].
Proof.
  unfold epochs_to. replace (N.to_nat (n + 1)) with (N.to_nat n + 1)%nat by lia.
  rewrite seq_app, fmap_app. simpl. do 2 f_equal. lia.
Qed.

(** one more epoch of the chain held by the store *)
Lemma verify_chain_step s vid owner e v :
  1 <= e -> e + 1 <= i64_max ->
  verify_chain_to_epoch s vid (e + 1) owner = Ok v <->
  exists w m, verify_chain_to_epoch s vid e owner = Ok w /\
    manifest_at s vid (e + 1) = Some m /\ verify_manifest m vid (Some w) owner = Ok v.
Proof.
  intros He Hmax. unfold verify_chain_to_epoch.
  rewrite !(proj2 (N.eqb_neq _ _)) by lia. rewrite epochs_to_succ, fmap_app.
  set (es := read_epoch s vid <$> epochs_to e).
  assert (es <> []) as Hne.
  { subst es. replace e with (N.pred e + 1) by lia. rewrite epochs_to_succ, fmap_app.
    by destruct (read_epoch s vid <$> epochs_to (N.pred e)). }
  assert (read_epoch s vid (e + 1) = Ok (option_list (manifest_at s vid (e + 1)))) as Hread.
  { unfold read_epoch, get_membership_manifest, checked_version.
    by rewrite (proj2 (N.leb_le _ _)) by done. }
  change (read_epoch s vid <$> [e + 1]) with [read_epoch s vid (e + 1)]. rewrite Hread.
  assert (forall w, verify_chain vid owner es = Ok w ->
    verify_chain vid owner (es ++ [Ok (option_list (manifest_at s vid (e + 1)))]) =
    first_verified AuthorityInvalid (option_list (manifest_at s vid (e + 1))) vid (Some w) owner)
    as Hsnoc.
  { intros w Hw. unfold verify_chain. rewrite (verify_chain_from_snoc _ _ _ _ _ w) by (by left).
    cbn [mbind result_bind]. by rewrite decide_False. }
  split.
  - intros H. destruct (verify_chain_from_snoc_Ok _ _ _ _ _ _ H Hne) as [w Hw].
    rewrite (Hsnoc w Hw) in H.
    destruct (manifest_at s vid (e + 1)) as [m|]; simpl in H; [|done].
    exists w, m. split_and!; [done|done|]. revert H.
    by destruct (verify_manifest m vid (Some w) owner).
  - intros (w & m & Hw & Hm & Hv). rewrite (Hsnoc w Hw), Hm.
    simpl. by rewrite Hv.
Qed.

Lemma verify_chain_one s vid owner v :
  verify_chain_to_epoch s vid 1 owner = Ok v <->
  exists m, manifest_at s vid 1 = Some m /\ verify_manifest m vid None owner = Ok v.
Proof.
  unfold verify_chain_to_epoch. change (epochs_to 1) with [1]. cbn.
  unfold manifest_at. destruct (manifests s !! (vid, 1)) as [r|]; cbn;
    [|by split; [|intros (m & ? & _)]].
  destruct (verify_manifest (row r) vid None owner) as [w|] eqn:Hw; cbn; split.
  - intros [= <-]. eauto.
  - intros (m & [= <-] & H). congruence.
  - done.
  - intros (m & [= <-] & H). congruence.
Qed.

Lemma chain_is_trusted s vid owner e v :
  1 <= e -> e <= i64_max ->
  verify_chain_to_epoch s vid e owner = Ok v <-> Trusted s vid owner e v.
Proof.
  intros He. replace e with (N.of_nat (N.to_nat (e - 1)) + 1) by lia.
  generalize (N.to_nat (e - 1)) as n. clear e He. intros n. revert v.
  induction n as [|n IH]; intros v Hmax.
  - change (N.of_nat 0 + 1) with 1. rewrite verify_chain_one. split.
    + intros (m & Hm & (Hv & Hs & [He Ha] & ms & Hms & ->)%verify_manifest_Ok).
      rewrite He in *. by eapply trusted_genesis.
    + intros H. remember 1 as one eqn:E1. destruct H as [m ms|e prev m ms Hp].
      * exists m. split; [done|]. apply verify_manifest_Ok. split_and!; try done.
        exists ms. by replace (mm_key_epoch m) with 1.
      * apply trusted_epoch in Hp as [_ ?]. lia.
  - replace (N.of_nat (S n) + 1) with (N.of_nat n + 1 + 1) in * by lia.
    set (e := N.of_nat n + 1) in *. rewrite verify_chain_step by lia. split.
    + intros (w & m & Hw & Hm & (Hv & Hs & [He Ha] & ms & Hms & ->)%verify_manifest_Ok).
      apply IH in Hw; [|lia]. destruct (trusted_epoch _ _ _ _ _ Hw) as [Hep _].
      rewrite Hep in He. unfold sat_add64 in He. rewrite N.min_r in He
        by (unfold i64_max, u64_max in *; lia).
      rewrite He in *. by eapply trusted_next.
    + intros H. remember (e + 1) as e1 eqn:E1. destruct H as [m ms|e' prev m ms Hp].
      * subst e. lia.
      * replace e' with e in * by lia. destruct (trusted_epoch _ _ _ _ _ Hp) as [Hep _].
        exists prev, m. split_and!; [apply IH; [lia|done]|done|].
        apply verify_manifest_Ok. split_and!; try done.
        -- split; [|done]. rewrite Hep. unfold sat_add64.
           rewrite N.min_r by (unfold i64_max, u64_max in *; lia). done.
        -- exists ms. by replace (mm_key_epoch m) with (e + 1).
Qed.

(** what is trusted at an epoch depends on the manifests up to it only *)
Lemma trusted_ext s s' vid owner e v :
  (forall e', e' <= e -> manifest_at s' vid e' = manifest_at s vid e') ->
  Trusted s vid owner e v -> Trusted s' vid owner e v.
Proof.
  intros Hext H. induction H as [m ms Hm|e prev m ms Hp IH Hm].
  - eapply trusted_genesis; [by rewrite Hext|done..].
  - eapply trusted_next; [apply IH; intros; apply Hext; lia|rewrite Hext by lia; done|done..].
Qed.

Lemma trusted_prefix s vid owner e v e' :
  Trusted s vid owner e v -> 1 <= e' <= e -> exists v', Trusted s vid owner e' v'.
Proof.
  induction 1 as [m ms|e prev m ms Hp IH]; intros He.
  - replace e' with 1 by lia. eexists. by eapply trusted_genesis.
  - destruct (decide (e' = e + 1)) as [->|]; [|apply IH; lia].
    eexists. by eapply trusted_next.
Qed.

(** a manifest that extends what the store already trusts *)
Lemma trusted_extend s vid owner prev m v :
  mm_key_epoch m <= i64_max ->
  (match prev with
   | None => True
   | Some w => Trusted s vid owner (epoch w) w
   end) ->
  manifest_at s vid (mm_key_epoch m) = Some m ->
  verify_manifest m vid prev owner = Ok v -> Trusted s vid owner (mm_key_epoch m) v.
Proof.
  intros Hmax Hprev Hm (Hv & Hs & Ha & ms & Hms & ->)%verify_manifest_Ok.
  destruct prev as [w|]; destruct Ha as [He Ha].
  - unfold sat_add64 in He. rewrite N.min_r in He by (unfold i64_max, u64_max in *; lia).
    rewrite He in *. by eapply trusted_next.
  - rewrite He in *. by eapply trusted_genesis.
Qed.

(** what is known of the set a new manifest extends *)
Definition base_ok (s : Storage) (vid owner : bytes) (prev : option VerifiedMembers) : Prop :=
  match prev with
  | None => True
  | Some w => 1 <= epoch w /\ epoch w <= i64_max /\ verify_chain_to_epoch s vid (epoch w) owner = Ok w
  end.

Lemma manifest_extends s s' vid owner prev m v :
  mm_key_epoch m <= i64_max -> base_ok s vid owner prev ->
  verify_manifest m vid prev owner = Ok v ->
  (forall e', manifest_at s' vid e' =
     if decide (e' = mm_key_epoch m) then Some m else manifest_at s vid e') ->
  Trusted s' vid owner (mm_key_epoch m) v.
Proof.
  intros Hmax Hprev Hv Hat. eapply trusted_extend; [done| |by rewrite Hat, decide_True|exact Hv].
  destruct prev as [w|]; [|done]. destruct Hprev as (H1 & H2 & Hw%chain_is_trusted); [|done..].
  apply verify_manifest_Ok in Hv as (_ & _ & [He _] & _).
  unfold sat_add64 in He. rewrite N.min_r in He by (unfold i64_max, u64_max in *; lia).
  eapply trusted_ext; [|exact Hw]. intros e' He'. by rewrite Hat, decide_False by lia.
Qed.

Lemma manifest_at_update s vid e p f :
  (forall r, row (f r) = row r) ->
  manifest_at (set_manifests (update_where p f) s) vid e = manifest_at s vid e.
Proof.
  intros Hf. unfold manifest_at. cbn. rewrite lookup_update_where.
  destruct (manifests s !! (vid, e)) as [r|]; simpl; [|done]. by destruct (p _ r); rewrite ?Hf.
Qed.

Definition same_manifests (s s' : Storage) : Prop := manifests s' = manifests s.
#[global] Instance same_manifests_preorder : PreOrder same_manifests.
Proof. split; unfold same_manifests; [done|congruence]. Qed.

Lemma put_membership_grant_manifests g : preserves same_manifests (stg (put_membership_grant g)).
Proof.
  apply preserves_err_into. unfold put_membership_grant. intros s r s' H. run_cases H; done.
Qed.

Lemma build_manifest_Ok admin vid e members m :
  build_manifest admin vid e members = Ok m <->
  exists payload sig, canonical_member_payload e members = Ok payload /\
    sign_version (ek_signing (signing admin)) (from_content (manifest_aad vid e) payload) = Ok sig /\
    m = mkManifest vid e payload sig (ks_pub admin).
Proof.
  unfold build_manifest. rewrite bind_Ok. split.
  - intros (p & Hp & (sg & Hs%map_err_Ok & <-%(inj Ok))%bind_Ok). eauto.
  - intros (p & sg & Hp & Hs & ->). exists p. split; [done|]. apply bind_Ok.
    exists sg. by rewrite map_err_Ok.
Qed.

Lemma put_membership_manifest_Ok m s s' :
  stg (put_membership_manifest m) s = (Ok tt, s') ->
  mm_key_epoch m <= i64_max /\ s' = set_manifests (upsert_row (manifest_key m) m) s.
Proof.
  unfold stg, err_into, put_membership_manifest, mbind, M_bind, lift_result, modify.
  destruct (checked_version (mm_key_epoch m)) as [x|] eqn:Hx; simpl; [|done].
  apply checked_version_Ok in Hx as [-> Hx]. by intros [= <-].
Qed.

Lemma mark_membership_dirty_manifests vid e s s' vid' e' :
  stg (mark_membership_dirty vid e) s = (Ok tt, s') ->
  manifest_at s' vid' e' = manifest_at s vid' e'.
Proof.
  unfold stg, err_into, mark_membership_dirty, mbind, M_bind, lift_result, modify.
  destruct (checked_version e); simpl; [|done]. intros [= <-].
  unfold manifest_at. cbn. rewrite lookup_update_where.
  destruct (manifests s !! (vid', e')) as [r|]; simpl; [|done]. by destruct (_ && _).
Qed.

Lemma add_member_Ok admin vid e prev owner members recipients vk s v s' :
  add_member admin vid e prev owner members recipients vk s = (Ok v, s') ->
  exists m, build_manifest admin vid e members = Ok m /\
    verify_manifest m vid prev owner = Ok v /\ e <= i64_max /\
    forall e', manifest_at s' vid e' = if decide (e' = e) then Some m else manifest_at s vid e'.
Proof.
  unfold add_member.
  intros (m & ? & [= Hm <-] & (v1 & ? & [= Hv <-] & (built & ? & [= _ <-] & H)%M_bind_Ok)%M_bind_Ok)%M_bind_Ok.
  apply M_bind_Ok in H as ([] & s1 & H & [= -> <-]).
  rewrite atomically_Ok in H.
  apply M_bind_Ok in H as ([] & s2 & [Hmax ->]%put_membership_manifest_Ok & H).
  apply M_bind_Ok in H as ([] & s3 & Hg & Hd).
  assert (manifests s3 = upsert_row (manifest_key m) m (manifests s)) as Hs3.
  { change (same_manifests (set_manifests (upsert_row (manifest_key m) m) s) s3).
    eapply preserves_for_each; [apply _| |exact Hg]. apply put_membership_grant_manifests. }
  apply build_manifest_Ok in Hm as Hm'. destruct Hm' as (p & sg & _ & _ & Heq).
  exists m. rewrite Heq in Hmax. cbn [mm_key_epoch] in Hmax. split_and!; [done..|].
  intros e'. rewrite (mark_membership_dirty_manifests _ _ _ _ _ _ Hd).
  unfold manifest_at. rewrite Hs3. unfold upsert_row, manifest_key.
  rewrite Heq at 1 2. cbn [mm_vault_id mm_key_epoch].
  destruct (decide (e' = e)) as [->|]; [by rewrite lookup_insert_eq|].
  by rewrite lookup_insert_ne by congruence.
Qed.

Context `{!CryptoLaws P}.

Lemma signed_by_keyset k vo blob :
  keyset_ok k -> sign_version (ek_signing (signing k)) vo = Ok blob ->
  verifying_key_from_bytes (ks_pub k) = Ok (ek_verifying (signing k)) /\
  verify_version (ek_verifying (signing k)) vo blob = Ok tt.
Proof.
  intros [Hed _] Hs. unfold ks_pub. rewrite Hed.
  by rewrite verifying_key_public, (sign_version_verifies _ _ _ Hs).
Qed.

Lemma build_verify_manifest admin vid e members prev owner m :
  keyset_ok admin -> e <= u64_max -> build_manifest admin vid e members = Ok m ->
  authorised owner prev m ->
  verify_manifest m vid prev owner = Ok (mkVerified vid e (sort_members members)).
Proof.
  intros Hk He (p & sg & Hp & Hs & ->)%build_manifest_Ok Ha.
  apply verify_manifest_Ok. cbn [mm_vault_id mm_key_epoch mm_manifest_blob].
  split_and!; [done| |done|].
  - exists (ek_verifying (signing admin)). apply signed_by_keyset; done.
  - exists (sort_members members). split; [by apply parse_canonical|done].
Qed.
End chain.

(** ** The store's invariant *)

Lemma wf_stg op : preserves wf_rel (stg (run_op op)).
Proof. apply preserves_err_into, run_op_wf. Qed.

Lemma wf_add_member `{P : CryptoPrims} admin vid e prev owner members recipients vk :
  preserves wf_rel (add_member admin vid e prev owner members recipients vk).
Proof.
  unfold add_member.
  do 3 (apply preserves_bind; [apply _|apply preserves_lift, _|intros ?]).
  apply preserves_bind; [apply _| |intros; apply preserves_ret, _].
  apply preserves_atomically, preserves_bind; [apply _..|apply (wf_stg (OpPutManifest _))|intros _].
  apply preserves_bind; [apply _| |intros _; apply (wf_stg (OpMarkMembership _ _))].
  apply preserves_for_each; [apply _|]. intros g. apply (wf_stg (OpPutGrant g)).
Qed.

(** ** A concrete vault to evaluate on *)

Definition sample_keyset (k : byte) : @UnlockedKeyset Sample.prims :=
  @mkKeyset Sample.prims (@Build_X25519Keypair Sample.prims k k)
    (@Build_Ed25519Keypair Sample.prims k k).

Lemma sample_keyset_ok k : @keyset_ok Sample.prims (sample_keyset k).
Proof. done. Qed.

(** owner x01 (Admin) and member x02 (Viewer) at epoch 1, vault key of 09s *)
Definition sample_vk : bytes := replicate 32 x09.
Definition sample_owner : bytes := Sample.key32 x01.

Definition sample_recipients : list Recipient :=
  [(Sample.key32 x02, Sample.key32 x02, Viewer, [])].
Definition sample_shared : Storage :=
  (@add_member Sample.prims (sample_keyset x01) (lit "v") 1 None sample_owner sample_members
    sample_recipients sample_vk (empty_storage 0)).2.
Definition sample_verified : VerifiedMembers := mkVerified (lit "v") 1 (rev sample_members).

Lemma sample_genesis_Ok :
  @add_member Sample.prims (sample_keyset x01) (lit "v") 1 None sample_owner sample_members
    sample_recipients sample_vk (empty_storage 0) = (Ok sample_verified, sample_shared).
Proof. unfold sample_shared. apply run_fst. vm_compute. reflexivity. Qed.

Lemma sample_shared_wf : store_wf sample_shared.
Proof. exact (wf_add_member _ _ _ _ _ _ _ _ _ _ _ sample_genesis_Ok (store_wf_empty 0)). Qed.

(** ** Theorems: authority *)

(** C4. The stored manifests verify up to an epoch exactly when authority flows
    there: epoch 1 signed by the pinned owner, every later epoch signed by an
    admin of the epoch before, no gap, each manifest signed for this vault and
    epoch. So no injected manifest is accepted, and none that should be is
    refused. *)
Theorem chain_verifies_trust `{P : CryptoPrims} s vid owner e v :
  1 <= e -> e <= i64_max ->
  verify_chain_to_epoch s vid e owner = Ok v <-> Trusted s vid owner e v.
Proof. apply chain_is_trusted. Qed.

Lemma chain_verifies_trust_witness :
  @Trusted Sample.prims sample_shared (lit "v") sample_owner 1 sample_verified.
Proof.
  apply (@chain_verifies_trust Sample.prims sample_shared (lit "v") sample_owner 1 sample_verified);
    [vm_compute; discriminate|vm_compute; discriminate|vm_compute; reflexivity].
Defined.

(** A verified chain stands on its own past: every earlier epoch verifies
    too, and no manifest stored for a later epoch can change the verdict on
    this one. *)
Theorem chain_prefix_stable `{P : CryptoPrims} s s' vid owner e v :
  1 <= e -> e <= i64_max ->
  verify_chain_to_epoch s vid e owner = Ok v ->
  (forall e', e' <= e -> manifest_at s' vid e' = manifest_at s vid e') ->
  verify_chain_to_epoch s' vid e owner = Ok v /\
  (forall e', 1 <= e' <= e -> exists v', verify_chain_to_epoch s' vid e' owner = Ok v').
Proof.
  intros H1 H2 Hv%chain_is_trusted Hext; [|done..].
  apply (trusted_ext s s') in Hv; [|done]. split; [by apply chain_is_trusted|].
  intros e' He'. destruct (trusted_prefix _ _ _ _ _ _ Hv He') as [v' Hv'].
  exists v'. apply chain_is_trusted; [lia..|done].
Qed.

Lemma chain_prefix_stable_witness :
  @verify_chain_to_epoch Sample.prims sample_shared (lit "v") 1 sample_owner = Ok sample_verified.
Proof.
  refine (proj1 (@chain_prefix_stable Sample.prims sample_shared sample_shared (lit "v")
    sample_owner 1 sample_verified _ _ _ _));
    [vm_compute; discriminate|vm_compute; discriminate|vm_compute; reflexivity|reflexivity].
Defined.

(** Adding members is atomic and establishes what readers check: on failure
    the store is unchanged; on success over a verified previous epoch (or as
    the genesis) the chain verifies at the new epoch and yields exactly the
    returned set, and the manifests of other epochs are untouched. *)
Theorem add_member_establishes_authority `{P : CryptoPrims}
    admin vid e prev owner members recipients vk s r s' :
  add_member admin vid e prev owner members recipients vk s = (r, s') ->
  match prev with
  | None => True
  | Some w => 1 <= epoch w /\ epoch w <= i64_max /\
              verify_chain_to_epoch s vid (epoch w) owner = Ok w
  end ->
  match r with
  | Err _ => s' = s
  | Ok v => verify_chain_to_epoch s' vid e owner = Ok v /\ epoch v = e /\
            (forall e', e' <> e -> manifest_at s' vid e' = manifest_at s vid e')
  end.
Proof.
  intros H Hprev. destruct r as [v|err].
  - destruct (add_member_Ok _ _ _ _ _ _ _ _ _ _ _ H) as (m & Hb & Hv & Hmax & Hat).
    apply build_manifest_Ok in Hb as (p & sg & _ & _ & ->).
    assert (Trusted s' vid owner e v) as Ht.
    { change e with (mm_key_epoch (mkManifest vid e p sg (ks_pub admin))).
      eapply (manifest_extends s); [done|exact Hprev|exact Hv|done]. }
    destruct (trusted_epoch _ _ _ _ _ Ht) as [Hep H1].
    split_and!; [by apply chain_is_trusted|done|].
    intros e' Hne. by rewrite Hat, decide_False.
  - unfold add_member in H.
    apply M_bind_run in H as [(m & ? & [= _ <-] & H)|(? & [= _ <-] & _)]; [|done].
    apply M_bind_run in H as [(w & ? & [= _ <-] & H)|(? & [= _ <-] & _)]; [|done].
    apply M_bind_run in H as [(gs & ? & [= _ <-] & H)|(? & [= _ <-] & _)]; [|done].
    apply M_bind_run in H as [([] & s1 & _ & [=])|(? & H & _)].
    by eapply atomically_Err.
Qed.

Lemma add_member_establishes_authority_witness :
  @verify_chain_to_epoch Sample.prims sample_shared (lit "v") 1 sample_owner = Ok sample_verified.
Proof.
  pose proof (@add_member_establishes_authority Sample.prims (sample_keyset x01) (lit "v") 1
    None sample_owner sample_members sample_recipients sample_vk
    (empty_storage 0) (Ok sample_verified) sample_shared sample_genesis_Ok I) as H.
  destruct H as [H _]. exact H.
Defined.

(** ** Theorems: grants *)

Lemma grant_content_inj r n w r' n' w' :
  (- 2 ^ 63 <= n < 2 ^ 63)%Z -> (- 2 ^ 63 <= n' < 2 ^ 63)%Z ->
  grant_signed_content r n w = grant_signed_content r' n' w' -> r = r' /\ n = n' /\ w = w'.
Proof.
  unfold grant_signed_content. intros Hn Hn' H. apply app_inv_head in H.
  apply app_inj_len in H as [Hr H]; [|done].
  apply app_inj_len in H as [Hb H]; [|by rewrite !length_i64_be].
  split_and!; [by destruct r, r'| |done].
  by rewrite <-(i64_decode n), Hb, i64_decode.
Qed.

(** a grant opens for the holder of the recipient key *)
Lemma build_grant_opens `{P : CryptoPrims, !CryptoLaws P} admin vid member recipient role e vk rng g now :
  length vk = SYMMETRIC_KEY_LEN ->
  build_grant admin vid (x_pk_to_bytes (x_public recipient)) member role e vk rng = Ok g ->
  grant_key g = (vid, member, e) /\ mg_role g = role /\
  open_grant g vid recipient member e now = Ok vk.
Proof.
  intros Hvk Hb. unfold build_grant, x_public_from_bytes in Hb.
  rewrite x_pk_bytes in Hb. cbn [ok_or map_err mbind result_bind] in Hb.
  apply bind_Ok in Hb as (info & Hinfo%map_err_Ok & Hb).
  apply bind_Ok in Hb as (w & Hw%map_err_Ok & Hb).
  apply bind_Ok in Hb as (sg & _ & <-%(inj Ok)). split_and!; [done..|].
  unfold open_grant. cbn [mg_not_after mg_wrapped_vk]. rewrite Hinfo.
  cbn [map_err mbind result_bind Z.ltb Z.compare andb].
  by rewrite (seal_key_opens _ _ _ _ _ Hvk Hw).
Qed.

(** A grant an admin builds for a member of the verified set, with that
    member's role, is accepted by every verifier, never expires, and opens for
    exactly the holder of the recipient key to the vault key wrapped in it.
    The content it signs fixes the role, the expiry and the envelope. *)
Theorem grant_roundtrip `{P : CryptoPrims, !CryptoLaws P}
    admin vid member recipient members role e vk rng g now :
  keyset_ok admin -> length vk = SYMMETRIC_KEY_LEN -> epoch members = e ->
  is_admin members (ks_pub admin) = true -> role_of members member = Some role ->
  build_grant admin vid (x_pk_to_bytes (x_public recipient)) member role e vk rng = Ok g ->
  verify_grant g vid members = Ok tt /\
  open_grant g vid recipient member e now = Ok vk /\
  (forall r n w, (- 2 ^ 63 <= n < 2 ^ 63)%Z ->
     grant_signed_content r n w
       = grant_signed_content (mg_role g) (mg_not_after g) (mg_wrapped_vk g) ->
     r = mg_role g /\ n = mg_not_after g /\ w = mg_wrapped_vk g).
Proof.
  intros Hk Hvk He Hadm Hrole Hb.
  pose proof (build_grant_opens _ _ _ _ _ _ _ _ _ now Hvk Hb) as (_ & _ & Hopen).
  unfold build_grant, x_public_from_bytes in Hb.
  rewrite x_pk_bytes in Hb. cbn [ok_or map_err mbind result_bind] in Hb.
  apply bind_Ok in Hb as (info & Hinfo%map_err_Ok & Hb).
  apply bind_Ok in Hb as (w & _ & Hb).
  apply bind_Ok in Hb as (sg & Hs%map_err_Ok & <-%(inj Ok)).
  destruct (signed_by_keyset _ _ _ Hk Hs) as [Hpk Hver]. split_and!.
  - unfold verify_grant. cbn [mg_vault_id mg_key_epoch mg_author_pubkey mg_role mg_not_after
      mg_wrapped_vk mg_member_pubkey mg_signature].
    rewrite bytes_eqb_refl, He, N.eqb_refl. cbn [negb].
    rewrite Hpk. cbn [map_err mbind result_bind]. rewrite Hver. cbn [map_err mbind result_bind].
    rewrite Hadm, Hrole. cbn [negb ok_or mbind result_bind].
    by rewrite bool_decide_eq_true_2.
  - exact Hopen.
  - intros r n w0 Hn. by apply grant_content_inj.
Qed.

Lemma grant_roundtrip_witness :
  exists g, @build_grant Sample.prims (sample_keyset x01) (lit "v") (Sample.key32 x02)
      (Sample.key32 x02) Viewer 1 sample_vk [] = Ok g /\
    @open_grant Sample.prims g (lit "v") x02 (Sample.key32 x02) 1 777 = Ok sample_vk.
Proof.
  eexists. split; [vm_compute; reflexivity|].
  refine (proj1 (proj2 (@grant_roundtrip Sample.prims Sample.laws (sample_keyset x01) (lit "v")
    (Sample.key32 x02) x02 sample_verified Viewer 1 sample_vk [] _ 777 _ _ _ _ _ _)));
    [apply sample_keyset_ok|reflexivity|reflexivity|vm_compute; reflexivity
    |vm_compute; reflexivity|vm_compute; reflexivity].
Defined.

(** ** Theorems: pinning *)

(** Trust on first use: presenting a key for an account (an owner for a
    vault) succeeds exactly when none is pinned yet or the pinned one is the
    same; afterwards the pin is the presented key. A mismatch changes nothing,
    so no later presentation ever replaces a pinned key. *)
Theorem pin_is_first_use `{P : CryptoPrims} s id key :
  (forall r s', pin_and_verify_member id key s = (r, s') ->
     (forall id', id' <> id -> pinned_member_keys s' !! id' = pinned_member_keys s !! id') /\
     match pk_member_pubkey <$> pinned_member_keys s !! id with
     | Some old => s' = s /\ r = (if bytes_eqb old key then Ok tt else Err PinMismatch)
     | None => r = Ok tt /\ pk_member_pubkey <$> pinned_member_keys s' !! id = Some key
     end) /\
  (forall r s', pin_and_verify_vault_anchor id key s = (r, s') ->
     (forall id', id' <> id -> trust_anchor s' !! id' = trust_anchor s !! id') /\
     match ta_genesis_owner_pubkey <$> trust_anchor s !! id with
     | Some old => s' = s /\ r = (if bytes_eqb old key then Ok tt else Err PinMismatch)
     | None => r = Ok tt /\ ta_genesis_owner_pubkey <$> trust_anchor s' !! id = Some key
     end).
Proof.
  unfold pin_and_verify_member, pin_and_verify_vault_anchor, get_pinned_member_key,
    get_vault_trust_anchor, mbind, M_bind, get_state. split; intros r s'.
  - destruct (pinned_member_keys s !! id) as [p|]; cbn.
    + destruct (bytes_eqb _ _); intros [= <- <-]; done.
    + intros [= <- <-]. cbn. rewrite lookup_insert_eq. split; [|done].
      intros id' Hne. by rewrite lookup_insert_ne.
  - destruct (trust_anchor s !! id) as [p|]; cbn.
    + destruct (bytes_eqb _ _); intros [= <- <-]; done.
    + intros [= <- <-]. cbn. rewrite lookup_insert_eq. split; [|done].
      intros id' Hne. by rewrite lookup_insert_ne.
Qed.

(** ** Theorems: the account payload *)

Lemma take_put_len_prefixed b out r :
  put_len_prefixed [] b = Ok out -> take_len_prefixed (out ++ r) = Ok (b, r).
Proof.
  unfold put_len_prefixed. destruct (N.ltb_spec u32_max (len b)); [done|].
  intros <-%(inj Ok). unfold take_len_prefixed. cbn [app]. rewrite <-app_assoc.
  rewrite split_at_app' by apply length_u32_be. cbn [mbind result_bind].
  rewrite u32_decode by done. apply split_at_app'. unfold len. lia.
Qed.

Lemma put_len_prefixed_app out b :
  put_len_prefixed out b = (x ← put_len_prefixed [] b; Ok (out ++ x)).
Proof. unfold put_len_prefixed. by destruct (u32_max <? len b). Qed.

(** The account payload sealed to an account's own key opens with that
    account's keys to the plaintext. *)
Theorem account_payload_roundtrip `{P : CryptoPrims, !CryptoLaws P}
    keyset plaintext symkey rng nonce sealed :
  keyset_ok keyset -> length symkey = SYMMETRIC_KEY_LEN -> length nonce = NONCE_LEN ->
  seal_account_payload keyset plaintext symkey rng nonce = Ok sealed ->
  open_account_payload keyset sealed = Ok plaintext.
Proof.
  intros [_ Hx] Hsk Hn H. unfold seal_account_payload in H. rewrite Hx in H.
  apply bind_Ok in H as (w & Hw%map_err_Ok & H). apply bind_Ok in H as (ct & Hct%map_err_Ok & H).
  apply bind_Ok in H as (o1 & Ho1 & H). rewrite put_len_prefixed_app in H.
  apply bind_Ok in H as (o2 & Ho2 & <-%(inj Ok)).
  unfold open_account_payload. rewrite (take_put_len_prefixed _ _ _ Ho1).
  cbn [mbind result_bind]. rewrite <-(app_nil_r o2), (take_put_len_prefixed _ _ _ Ho2).
  cbn [mbind result_bind length Nat.eqb negb].
  rewrite (seal_key_opens _ _ _ _ _ Hsk Hw). cbn [map_err mbind result_bind].
  by rewrite (aead_opens _ _ _ _ _ Hn Hct).
Qed.

Lemma account_payload_roundtrip_witness :
  exists sealed, @seal_account_payload Sample.prims (sample_keyset x05) (lit "prefs")
      (replicate 32 x0a) [] (replicate 24 x0b) = Ok sealed /\
    @open_account_payload Sample.prims (sample_keyset x05) sealed = Ok (lit "prefs").
Proof.
  eexists. split; [vm_compute; reflexivity|].
  apply (@account_payload_roundtrip Sample.prims Sample.laws (sample_keyset x05) (lit "prefs")
    (replicate 32 x0a) [] (replicate 24 x0b));
    [apply sample_keyset_ok|reflexivity|reflexivity|vm_compute; reflexivity].
Defined.
