(* ===== verification/Authority.v ===== *)
(** * Record signatures and authority (rust-core/crates/vault/src/vault.rs)

    The helpers every reader and the sync engine share: associated data of
    vault, name and item records, read fallbacks to the older formats,
    signing and checking of records, and [verify_record_authority], which
    decides whether the author of a record may write it. *)

From Stdlib Require Import Strings.Byte NArith ZArith Lia.
From stdpp Require Import base gmap sets list strings sorting countable.
From S2P Require Import Prelude Bytes CryptoPrims Crypto Storage StorageInv Keychain Membership MembershipThy.

Local Open Scope N_scope.

(** ** Associated data *)

Definition name_aad (vault_id : bytes) (version : N) : AssociatedData :=
  mkAAD vault_id (lit "__vault_name__") version.
Definition vault_record_aad (vault_id : bytes) (version : N) : AssociatedData :=
  mkAAD vault_id (lit "__vault__") version.
Definition item_aad (vault_id item_id : bytes) (version : N) : AssociatedData :=
  mkAAD vault_id item_id version.

Definition next_version (version : N) : result VaultError N :=
  ok_or (checked_add64 version 1) (VStorage VersionOutOfRange).

Definition vault_signed_content (wrapped_vk name_blob : bytes) : bytes := wrapped_vk ++ name_blob.

(** ** Vault mode and record authority *)

Definition vault_is_membership_mode (s : Storage) (vault_id : bytes) : bool :=
  bool_decide (is_Some (get_vault_epoch_floor s vault_id))
  || bool_decide (is_Some (latest_membership_epoch s vault_id))
  || bool_decide (is_Some (get_vault_trust_anchor s vault_id)).

Inductive IntegrityFailure :=
| IFSignatureInvalid
| IFAuthorMismatch
| IFMalformed
| IFNotAuthorized.

#[global] Instance IntegrityFailure_eq_dec : EqDecision IntegrityFailure.
Proof. solve_decision. Defined.

Section authority.
Context `{P : CryptoPrims}.

(** ** Reading the current and the pre-round-2 formats *)

Definition open_owner_vk (secret : x_sk) (wrapped_vk vault_id owner_ed : bytes) (key_epoch : N)
    : result VaultError bytes :=
  info ← map_err VCrypto (vk_wrap_info vault_id owner_ed key_epoch);
  match open_key_with_secret secret wrapped_vk info with
  | Ok vk => Ok vk
  | Err _ => map_err (fun _ => VDecrypt) (open_key_with_secret secret wrapped_vk vault_id)
  end.

Definition aead_decrypt_compat (key blob : bytes) (aad : AssociatedData) : result VaultError bytes :=
  match aead_decrypt key blob aad with
  | Ok pt => Ok pt
  | Err _ => map_err (fun _ => VDecrypt) (aead_decrypt_pre_agility key blob aad)
  end.

Definition unwrap_key_compat (kek blob aad : bytes) : result VaultError bytes :=
  match unwrap_key kek blob aad with
  | Ok k => Ok k
  | Err _ => map_err (fun _ => VDecrypt) (unwrap_key_pre_agility kek blob aad)
  end.

(** ** Signing and checking records *)

Definition build_vault_record_epoch (keyset : UnlockedKeyset) (vault_id name_blob wrapped_vk : bytes)
    (version : N) (tombstone : bool) (key_epoch : N) (sync_target : SyncTarget)
    (cache_policy : CachePolicy) (sync_tenant : bytes) : result VaultError VaultRecord :=
  let content := vault_signed_content wrapped_vk name_blob in
  let vo := from_content (vault_record_aad vault_id version) content in
  signature ← map_err VCrypto (sign_version (ek_signing (signing keyset)) vo);
  Ok (mkVaultRecord vault_id sync_target name_blob wrapped_vk version tombstone signature
        (ks_pub keyset) key_epoch cache_policy sync_tenant).

Definition verify_vault_record (record : VaultRecord) : result VaultError unit :=
  author ← map_err (fun _ => VFormat) (verifying_key_from_bytes (vr_author_pubkey record));
  let content := vault_signed_content (vr_wrapped_vk record) (vr_name_blob record) in
  let vo := from_content (vault_record_aad (vr_vault_id record) (vr_version record)) content in
  map_err (fun _ => SignatureInvalid) (verify_version author vo (vr_signature record)).

(** the signature part shared by the two item checks: [None] is a good record *)
Definition item_sig_failure (record : ItemRecord) : option IntegrityFailure :=
  match verifying_key_from_bytes (ir_author_pubkey record) with
  | Err _ => Some IFMalformed
  | Ok author =>
      let aad := item_aad (ir_vault_id record) (ir_item_id record) (ir_version record) in
      let vo := from_content aad (ir_content_blob record) in
      if is_err (verify_version author vo (ir_signature record))
      then Some IFSignatureInvalid else None
  end.

Definition vault_sig_failure (record : VaultRecord) : option IntegrityFailure :=
  match verifying_key_from_bytes (vr_author_pubkey record) with
  | Err _ => Some IFMalformed
  | Ok author =>
      let content := vault_signed_content (vr_wrapped_vk record) (vr_name_blob record) in
      let vo := from_content (vault_record_aad (vr_vault_id record) (vr_version record)) content in
      if is_err (verify_version author vo (vr_signature record))
      then Some IFSignatureInvalid else None
  end.

Definition check_item_record (record : ItemRecord) (trusted_owner : bytes)
    : option IntegrityFailure :=
  match verifying_key_from_bytes (ir_author_pubkey record) with
  | Err _ => Some IFMalformed
  | Ok author =>
      let aad := item_aad (ir_vault_id record) (ir_item_id record) (ir_version record) in
      let vo := from_content aad (ir_content_blob record) in
      if is_err (verify_version author vo (ir_signature record)) then Some IFSignatureInvalid
      else if negb (bytes_eqb (ir_author_pubkey record) trusted_owner)
      then Some IFAuthorMismatch else None
  end.

Definition check_vault_record (record : VaultRecord) (trusted_owner : bytes)
    : option IntegrityFailure :=
  match verifying_key_from_bytes (vr_author_pubkey record) with
  | Err _ => Some IFMalformed
  | Ok author =>
      let content := vault_signed_content (vr_wrapped_vk record) (vr_name_blob record) in
      let vo := from_content (vault_record_aad (vr_vault_id record) (vr_version record)) content in
      if is_err (verify_version author vo (vr_signature record)) then Some IFSignatureInvalid
      else if negb (bytes_eqb (vr_author_pubkey record) trusted_owner)
      then Some IFAuthorMismatch else None
  end.

(** ** Who may author a record *)

Definition verify_record_authority (s : Storage) (vault_id author_pubkey : bytes)
    (record_epoch : N) (genesis_owner : bytes) : result VaultError unit :=
  if negb (vault_is_membership_mode s vault_id) then
    if bytes_eqb author_pubkey genesis_owner then Ok tt else Err NotAMember
  else
    let floor := N.max (default 0 (get_vault_epoch_floor s vault_id))
                       (default 0 (latest_membership_epoch s vault_id)) in
    if record_epoch <? floor then Err EpochInvalid
    else
      m ← map_err VStorage (get_membership_manifest s vault_id record_epoch);
      match m with
      | None => Err EpochInvalid
      | Some _ =>
          members ← verify_chain_to_epoch s vault_id record_epoch genesis_owner;
          if negb (contains members author_pubkey) then Err NotAMember
          else if negb (can_write members author_pubkey) then Err AuthorityInvalid
          else Ok tt
      end.

Definition check_record_authority (s : Storage) (vault_id author_pubkey : bytes)
    (record_epoch : N) (trusted_owner : bytes) : option IntegrityFailure :=
  if vault_is_membership_mode s vault_id then
    match verify_record_authority s vault_id author_pubkey record_epoch trusted_owner with
    | Ok _ => None
    | Err _ => Some IFNotAuthorized
    end
  else if bytes_eqb author_pubkey trusted_owner then None else Some IFAuthorMismatch.

End authority.

(** ** The latest epoch *)

Lemma foldr_max_ge l x : x ∈ l -> x <= foldr N.max 0 l.
Proof. induction 1; simpl; lia. Qed.

Lemma foldr_max_in l : l <> [] -> foldr N.max 0 l ∈ l.
Proof.
  induction l as [|x l IH]; [done|]. intros _. simpl. destruct l as [|y l].
  - simpl. rewrite N.max_0_r. by left.
  - destruct (N.max_spec x (foldr N.max 0 (y :: l))) as [[_ ->]|[_ ->]]; [right; by apply IH|by left].
Qed.

Lemma elem_of_epochs s vid e :
  (vid, e) ∈ filter (fun k => k.1 = vid) ((map_to_list (manifests s)).*1) <->
  is_Some (manifests s !! (vid, e)).
Proof.
  rewrite list_elem_of_filter, list_elem_of_fmap. split.
  - intros [_ ([k r] & -> & Hk%elem_of_map_to_list)]. by eexists.
  - intros [r Hr]. split; [done|]. exists ((vid, e), r). by rewrite elem_of_map_to_list.
Qed.

Lemma latest_epoch_None s vid :
  latest_membership_epoch s vid = None <-> forall e, manifests s !! (vid, e) = None.
Proof.
  unfold latest_membership_epoch. pose proof (elem_of_epochs s vid) as He.
  destruct (filter _ _) as [|k ks] eqn:Hf.
  - split; [|done]. intros _ e. apply eq_None_not_Some. rewrite <-He. apply not_elem_of_nil.
  - split; [done|]. intros Hn. exfalso.
    assert (k ∈ k :: ks) as Hk by (by left). rewrite <-Hf in Hk.
    apply list_elem_of_filter in Hk as Hk'. destruct Hk' as [Hv _]. destruct k as [v e]; simpl in *; subst.
    rewrite Hf in Hk. apply He in Hk as [r Hr]. by rewrite Hn in Hr.
Qed.

Lemma latest_epoch_Some s vid e :
  latest_membership_epoch s vid = Some e <->
  is_Some (manifests s !! (vid, e)) /\
  (forall e', is_Some (manifests s !! (vid, e')) -> e' <= e).
Proof.
  unfold latest_membership_epoch. pose proof (elem_of_epochs s vid) as He.
  assert (forall k, k ∈ filter (fun k => k.1 = vid) ((map_to_list (manifests s)).*1) -> k.1 = vid)
    as Hv by (intros k [? _]%list_elem_of_filter; done).
  destruct (filter _ _) as [|k ks] eqn:Hf.
  - split; [done|]. intros [Hs _]. apply He in Hs. by apply not_elem_of_nil in Hs.
  - set (l := k :: ks) in *.
    assert (foldr N.max 0 (l.*2) ∈ l.*2) as Hin by (by apply foldr_max_in).
    apply list_elem_of_fmap in Hin as ([v m] & Hm & Hl). cbn [snd] in Hm. pose proof (Hv _ Hl) as Hv'.
    cbn [fst] in Hv'. subst v. rewrite Hm. split.
    + intros [= <-]. split; [by apply He|]. intros e' He'%He.
      rewrite <-Hm. apply foldr_max_ge, list_elem_of_fmap. by exists (vid, e').
    + intros [Hs Hmax]. f_equal. apply He in Hl. apply Hmax in Hl.
      apply He in Hs. assert (e <= foldr N.max 0 (l.*2)); [|lia].
      apply foldr_max_ge, list_elem_of_fmap. by exists (vid, e).
Qed.

(** ** Lemmas: roles *)

Lemma find_some_existsb {A} (f : A -> bool) l a : List.find f l = Some a -> existsb f l = true.
Proof. intros [Hin Hf]%find_some. apply existsb_exists. eauto. Qed.

Lemma can_write_contains v pk : can_write v pk = true -> contains v pk = true.
Proof.
  unfold can_write, role_of, contains.
  destruct (List.find _ _) as [m|] eqn:Hf; simpl; [|done]. intros _. by eapply find_some_existsb.
Qed.

Section theory.
Context `{P : CryptoPrims}.

(** the signature checks in one line each *)
Definition item_signed (r : ItemRecord) : Prop :=
  exists author, verifying_key_from_bytes (ir_author_pubkey r) = Ok author /\
    verify_version author (from_content (item_aad (ir_vault_id r) (ir_item_id r) (ir_version r))
      (ir_content_blob r)) (ir_signature r) = Ok tt.
Definition vault_signed (r : VaultRecord) : Prop :=
  exists author, verifying_key_from_bytes (vr_author_pubkey r) = Ok author /\
    verify_version author (from_content (vault_record_aad (vr_vault_id r) (vr_version r))
      (vault_signed_content (vr_wrapped_vk r) (vr_name_blob r))) (vr_signature r) = Ok tt.

Lemma is_err_verify pk o blob :
  is_err (verify_version pk o blob) = false <-> verify_version pk o blob = Ok tt.
Proof. rewrite is_err_false. split; [intros [[] ?]; done|eauto]. Qed.

Lemma item_sig_failure_None r : item_sig_failure r = None <-> item_signed r.
Proof.
  unfold item_sig_failure, item_signed.
  destruct (verifying_key_from_bytes (ir_author_pubkey r)) as [pk|];
    [|split; [done|by intros (? & ? & _)]].
  set (v := verify_version _ _ _). destruct (is_err v) eqn:E.
  - split; [done|]. intros (? & [= <-] & Hv). apply is_err_verify in Hv. subst v. congruence.
  - apply is_err_verify in E. split; [|done]. intros _. by exists pk.
Qed.

Lemma vault_sig_failure_None r : vault_sig_failure r = None <-> vault_signed r.
Proof.
  unfold vault_sig_failure, vault_signed.
  destruct (verifying_key_from_bytes (vr_author_pubkey r)) as [pk|];
    [|split; [done|by intros (? & ? & _)]].
  set (v := verify_version _ _ _). destruct (is_err v) eqn:E.
  - split; [done|]. intros (? & [= <-] & Hv). apply is_err_verify in Hv. subst v. congruence.
  - apply is_err_verify in E. split; [|done]. intros _. by exists pk.
Qed.

Lemma membership_mode_latest s vid e :
  latest_membership_epoch s vid = Some e -> vault_is_membership_mode s vid = true.
Proof.
  intros H. unfold vault_is_membership_mode. rewrite H.
  rewrite (bool_decide_eq_true_2 (is_Some (Some e))) by eauto. by rewrite orb_true_r.
Qed.

(** in membership mode a record is accepted at the latest epoch only *)
Lemma authority_membership s vid author e owner :
  store_wf s -> vault_is_membership_mode s vid = true ->
  verify_record_authority s vid author e owner = Ok tt <->
  latest_membership_epoch s vid = Some e /\
  default 0 (epoch_floor s !! vid) <= e /\
  exists v, Trusted s vid owner e v /\ can_write v author = true.
Proof.
  intros Hwf Hmode. unfold verify_record_authority, get_vault_epoch_floor. rewrite Hmode. cbn [negb].
  assert (forall r, manifests s !! (vid, e) = Some r -> e <= i64_max) as Hmax.
  { intros r Hr. destruct (wf_manifests _ Hwf _ _ Hr) as [Hk Hm]. unfold manifest_key in Hk.
    by simplify_eq. }
  destruct (N.ltb_spec e (N.max (default 0 (epoch_floor s !! vid))
                                (default 0 (latest_membership_epoch s vid)))) as [Hlt|Hge].
  { split; [done|]. intros (Hl & Hf & _). rewrite Hl in Hlt. simpl in Hlt. lia. }
  unfold get_membership_manifest, checked_version.
  destruct (manifests s !! (vid, e)) as [r|] eqn:Hr.
  - specialize (Hmax _ eq_refl). rewrite (proj2 (N.leb_le _ _)) by done.
    cbn [map_err mbind result_bind]. rewrite Hr. cbn [fmap option_fmap option_map].
    assert (latest_membership_epoch s vid = Some e) as Hlat.
    { destruct (latest_membership_epoch s vid) as [e0|] eqn:Hl.
      - pose proof (proj1 (latest_epoch_Some _ _ _) Hl) as [_ Hub].
        specialize (Hub e (ltac:(by eexists))). simpl in Hge. f_equal. lia.
      - rewrite latest_epoch_None in Hl. congruence. }
    rewrite bind_Ok. split.
    + intros (v & Hv & Hc). destruct (contains v author); [|done]. cbn [negb] in Hc.
      destruct (can_write v author) eqn:Hw; [|done].
      assert (1 <= e). { unfold verify_chain_to_epoch in Hv. destruct (N.eqb_spec e 0); [done|lia]. }
      split_and!; [done|lia|]. exists v. split; [by apply chain_is_trusted|done].
    + intros (_ & _ & v & Hv & Hw). pose proof (trusted_epoch _ _ _ _ _ Hv) as [_ H1].
      exists v. split; [by apply chain_is_trusted|].
      by rewrite (can_write_contains _ _ Hw), Hw.
  - destruct (N.leb_spec e i64_max); cbn [map_err mbind result_bind]; rewrite ?Hr;
      cbn [fmap option_fmap option_map];
      (split; [done|]; intros [Hl _]; apply latest_epoch_Some in Hl as [[? ?] _]; congruence).
Qed.

(** who may author a record of [vid] at epoch [e], as a specification *)
Definition may_author (s : Storage) (vid author : bytes) (e : N) (owner : bytes) : Prop :=
  if vault_is_membership_mode s vid then
    latest_membership_epoch s vid = Some e /\
    default 0 (epoch_floor s !! vid) <= e /\
    exists v, Trusted s vid owner e v /\ can_write v author = true
  else author = owner.

Lemma authority_spec s vid author e owner :
  store_wf s ->
  verify_record_authority s vid author e owner = Ok tt <-> may_author s vid author e owner.
Proof.
  intros Hwf. unfold may_author. destruct (vault_is_membership_mode s vid) eqn:Hm.
  - by apply authority_membership.
  - unfold verify_record_authority. rewrite Hm. cbn [negb].
    destruct (bytes_eqb author owner) eqn:He; rewrite ?bytes_eqb_true, ?bytes_eqb_false in He;
      split; done.
Qed.
End theory.

(** ** Theorems *)

(** C3. Who may author a record, exactly. In a single-owner vault (no epoch
    floor, no manifest, no pinned owner) only the owner. In a membership vault
    only a key that the verified chain from the owner gives the role Editor or
    Admin, and only for a record stamped with the latest epoch, at or above
    the floor: a record of any older epoch, or of an epoch without a manifest,
    is refused whoever signed it. *)
Theorem record_authority_exact `{P : CryptoPrims} s vid author e owner :
  store_wf s ->
  verify_record_authority s vid author e owner = Ok tt <->
  (if vault_is_membership_mode s vid then
     latest_membership_epoch s vid = Some e /\
     default 0 (epoch_floor s !! vid) <= e /\
     exists v, Trusted s vid owner e v /\ can_write v author = true
   else author = owner).
Proof. apply authority_spec. Qed.

Lemma record_authority_exact_witness :
  exists v, @Trusted Sample.prims sample_shared (lit "v") sample_owner 1 v /\
    can_write v sample_owner = true.
Proof.
  pose proof (@record_authority_exact Sample.prims sample_shared (lit "v")
    sample_owner 1 sample_owner sample_shared_wf) as H.
  assert (vault_is_membership_mode sample_shared (lit "v") = true) as Hm
    by (vm_compute; reflexivity).
  rewrite Hm in H. apply H. vm_compute. reflexivity.
Defined.
