(* ===== verification/VaultOps.v ===== *)
(** * The operations of an open vault (rust-core/crates/vault/src/vault.rs)

    [Vault] is the handle: the borrowed keyset, the vault key in memory, the
    name, version and epoch, the pinned owner and whether this account may
    write. [&self] methods are computations on the store; methods that change
    the handle ([&mut self], or the [Cell] of the epoch) return the new one, and
    leave the handle as it is when they fail. Generated keys, nonces and
    encapsulation randomness are arguments. Methods whose names the store uses
    too carry the prefix [vault_]. *)

From Stdlib Require Import Strings.Byte NArith ZArith Lia.
From stdpp Require Import base gmap sets list strings sorting countable.
From S2P Require Import Prelude Bytes CryptoPrims Crypto Storage Keychain Membership Authority.

Local Open Scope N_scope.

Definition HISTORY_RETAIN : N := 20.

Record DecryptedItem := mkDecrypted {
  di_item_id : bytes;
  di_item_type : N;
  di_version : N;
  di_content : bytes
}.

Record ItemMeta := mkItemMeta {
  im_item_id : bytes;
  im_item_type : N;
  im_version : N;
  im_created_at : Z;
  im_updated_at : Z
}.

Record IntegrityIssue := mkIssue {
  ii_item_id : bytes;
  ii_version : N;
  ii_tombstone : bool;
  ii_failure : IntegrityFailure
}.

Record IntegrityReport := mkIntegrityReport {
  ir_ok : bool;
  ir_checked : N;
  ir_issues : list IntegrityIssue
}.

(** the random input of one sealed item, and of one vault record *)
Record ItemRandom := mkItemRandom { r_item_key : bytes; r_wrap_nonce : bytes; r_nonce : bytes }.
Record VaultRandom := mkVaultRandom { r_name_nonce : bytes; r_seal : bytes }.

Section vault.
Context `{P : CryptoPrims}.

Record Vault := mkVault {
  v_keyset : UnlockedKeyset;
  v_vault_id : bytes;
  v_name : bytes;
  v_vk : bytes;
  v_version : N;
  v_key_epoch : N;
  v_genesis_owner : bytes;
  v_can_write : bool
}.

Definition own_ed (v : Vault) : bytes := ks_pub (v_keyset v).

(** [self.name = name; self.version = version] *)
Definition with_name_version (name : bytes) (version : N) (v : Vault) : Vault :=
  mkVault (v_keyset v) (v_vault_id v) name (v_vk v) version (v_key_epoch v)
    (v_genesis_owner v) (v_can_write v).
(** [self.key_epoch.set(e)] *)
Definition with_epoch (e : N) (v : Vault) : Vault :=
  mkVault (v_keyset v) (v_vault_id v) (v_name v) (v_vk v) (v_version v) e
    (v_genesis_owner v) (v_can_write v).

(** ** Sealed vault records *)

(** the steps every writer of a vault record takes: encrypt the name, wrap the
    vault key to the owner, sign *)
Definition seal_vault_record (keyset : UnlockedKeyset) (vault_id name vk : bytes) (version : N)
    (tombstone : bool) (key_epoch : N) (target : SyncTarget) (policy : CachePolicy)
    (tenant : bytes) (rnd : VaultRandom) : result VaultError VaultRecord :=
  name_blob ← map_err VCrypto (aead_encrypt vk name (name_aad vault_id version) (r_name_nonce rnd));
  info ← map_err VCrypto (vk_wrap_info vault_id (ks_pub keyset) key_epoch);
  wrapped_vk ← map_err VCrypto
    (seal_key_to_public (xk_public (encryption keyset)) vk info (r_seal rnd));
  build_vault_record_epoch keyset vault_id name_blob wrapped_vk version tombstone key_epoch
    target policy tenant.

(** ** Creating and opening *)

Definition create_with_target (keyset : UnlockedKeyset) (vault_id name : bytes)
    (sync_target : SyncTarget) (vk : bytes) (rnd : VaultRandom) : VM Vault :=
  let version := 1 in
  record ← lift_result (seal_vault_record keyset vault_id name vk version false 0 sync_target
             OfflineAllowed [] rnd);
  _ ← stg (put_vault record);
  _ ← stg (mark_vault_dirty vault_id);
  mret (mkVault keyset vault_id name vk version 0 (ks_pub keyset) true).

Definition create (keyset : UnlockedKeyset) (vault_id name vk : bytes) (rnd : VaultRandom)
    : VM Vault :=
  create_with_target keyset vault_id name Local vk rnd.

(** the owner's path: the vault key of the record, and the write role *)
Definition open_as_owner (keyset : UnlockedKeyset) (record : VaultRecord) (owner : bytes)
    (s : Storage) : result VaultError (bytes * bool) :=
  vk ← open_owner_vk (xk_secret (encryption keyset)) (vr_wrapped_vk record) (vr_vault_id record)
         (ks_pub keyset) (vr_key_epoch record);
  let can_write :=
    match latest_membership_epoch s (vr_vault_id record) with
    | None => true
    | Some latest =>
        match verify_chain_to_epoch s (vr_vault_id record) latest owner with
        | Ok members => can_write members (ks_pub keyset)
        | Err _ => false
        end
    end in
  Ok (vk, can_write).

(** a member's path: the vault key of its own grant at the latest epoch *)
Definition open_as_member (keyset : UnlockedKeyset) (record : VaultRecord) (owner : bytes)
    (now : Z) (s : Storage) : result VaultError (bytes * bool) :=
  let epoch := default (vr_key_epoch record) (latest_membership_epoch s (vr_vault_id record)) in
  members ← verify_chain_to_epoch s (vr_vault_id record) epoch owner;
  grants ← map_err VStorage (list_membership_grants s (vr_vault_id record) epoch);
  '(vk, _) ← open_own_grant grants (vr_vault_id record) members keyset now;
  Ok (vk, can_write members (ks_pub keyset)).

Definition open_vault (keyset : UnlockedKeyset) (vault_id : bytes) (now : Z) (s : Storage)
    : result VaultError Vault :=
  record ← ok_or (get_vault s vault_id) NotFound;
  if vr_tombstone record then Err NotFound
  else
    _ ← verify_vault_record record;
    let owner := match get_vault_trust_anchor s (vr_vault_id record) with
                 | Some a => ta_genesis_owner_pubkey a
                 | None => ks_pub keyset
                 end in
    '(vk, can_write) ←
      (if bytes_eqb owner (ks_pub keyset) then open_as_owner keyset record owner s
       else open_as_member keyset record owner now s);
    name ← aead_decrypt_compat vk (vr_name_blob record)
             (name_aad (vr_vault_id record) (vr_version record));
    let key_epoch := match latest_membership_epoch s (vr_vault_id record) with
                     | Some latest => N.max (vr_key_epoch record) latest
                     | None => vr_key_epoch record
                     end in
    Ok (mkVault keyset (vr_vault_id record) name vk (vr_version record) key_epoch owner can_write).

(** ** Guards *)

Definition require_owner (v : Vault) : result VaultError unit :=
  if bytes_eqb (own_ed v) (v_genesis_owner v) then Ok tt else Err AuthorityInvalid.

Definition require_writer (v : Vault) : result VaultError unit :=
  if v_can_write v then Ok tt else Err ReadOnly.

(** ** Whole-record operations *)

Definition vault_delete (v : Vault) (rnd : VaultRandom) : VM unit :=
  _ ← lift_result (require_owner v);
  version ← lift_result (next_version (v_version v));
  name_blob ← lift_result (map_err VCrypto
    (aead_encrypt (v_vk v) (v_name v) (name_aad (v_vault_id v) version) (r_name_nonce rnd)));
  s ← get_state;
  cur ← lift_result (ok_or (get_vault s (v_vault_id v)) NotFound);
  let stored_epoch := N.max (v_key_epoch v) (vr_key_epoch cur) in
  info ← lift_result (map_err VCrypto (vk_wrap_info (v_vault_id v) (own_ed v) stored_epoch));
  wrapped_vk ← lift_result (map_err VCrypto
    (seal_key_to_public (xk_public (encryption (v_keyset v))) (v_vk v) info (r_seal rnd)));
  record ← lift_result (build_vault_record_epoch (v_keyset v) (v_vault_id v) name_blob wrapped_vk
             version true stored_epoch (vr_sync_target cur) (vr_cache_policy cur)
             (vr_sync_tenant cur));
  atomically (
    _ ← stg (put_vault record);
    _ ← stg (mark_vault_dirty (v_vault_id v));
    s ← get_state;
    for_each (list_items_including_tombstones s (v_vault_id v))
      (fun r => stg (clear_item_history (v_vault_id v) (ir_item_id r)))).

Definition purge_vault (v : Vault) : VM unit := stg (purge_vault_data (v_vault_id v)).

Definition set_name (v : Vault) (new_name : bytes) (rnd : VaultRandom) : VM Vault :=
  _ ← lift_result (require_owner v);
  version ← lift_result (next_version (v_version v));
  name_blob ← lift_result (map_err VCrypto
    (aead_encrypt (v_vk v) new_name (name_aad (v_vault_id v) version) (r_name_nonce rnd)));
  s ← get_state;
  cur ← lift_result (ok_or (get_vault s (v_vault_id v)) NotFound);
  let stored_epoch := N.max (v_key_epoch v) (vr_key_epoch cur) in
  info ← lift_result (map_err VCrypto (vk_wrap_info (v_vault_id v) (own_ed v) stored_epoch));
  wrapped_vk ← lift_result (map_err VCrypto
    (seal_key_to_public (xk_public (encryption (v_keyset v))) (v_vk v) info (r_seal rnd)));
  record ← lift_result (build_vault_record_epoch (v_keyset v) (v_vault_id v) name_blob wrapped_vk
             version false stored_epoch (vr_sync_target cur) (vr_cache_policy cur)
             (vr_sync_tenant cur));
  _ ← stg (put_vault record);
  _ ← stg (mark_vault_dirty (v_vault_id v));
  mret (with_name_version new_name version v).

Definition set_cache_policy (v : Vault) (policy : CachePolicy) (rnd : VaultRandom) : VM Vault :=
  _ ← lift_result (require_owner v);
  version ← lift_result (next_version (v_version v));
  name_blob ← lift_result (map_err VCrypto
    (aead_encrypt (v_vk v) (v_name v) (name_aad (v_vault_id v) version) (r_name_nonce rnd)));
  s ← get_state;
  cur ← lift_result (ok_or (get_vault s (v_vault_id v)) NotFound);
  info ← lift_result (map_err VCrypto
    (vk_wrap_info (v_vault_id v) (own_ed v) (vr_key_epoch cur)));
  wrapped_vk ← lift_result (map_err VCrypto
    (seal_key_to_public (xk_public (encryption (v_keyset v))) (v_vk v) info (r_seal rnd)));
  record ← lift_result (build_vault_record_epoch (v_keyset v) (v_vault_id v) name_blob wrapped_vk
             version false (vr_key_epoch cur) (vr_sync_target cur) policy (vr_sync_tenant cur));
  _ ← stg (put_vault record);
  _ ← stg (mark_vault_dirty (v_vault_id v));
  mret (with_name_version (v_name v) version v).

Definition seal_vk_to_recipient (v : Vault) (recipient_x recipient_ed rng : bytes)
    : result VaultError bytes :=
  pk ← map_err (fun _ => VFormat) (x_public_from_bytes recipient_x);
  info ← map_err VCrypto (vk_wrap_info (v_vault_id v) recipient_ed (v_key_epoch v));
  map_err VCrypto (seal_key_to_public pk (v_vk v) info rng).

(** ** Items *)

(** content and key of an item, sealed and signed *)
Definition seal_item (keyset : UnlockedKeyset) (vault_id item_id vk item_key : bytes)
    (item_type version key_epoch : N) (content : bytes) (rnd : ItemRandom)
    : result VaultError ItemRecord :=
  wrapped_item_key ← map_err VCrypto (wrap_key vk item_key item_id (r_wrap_nonce rnd));
  let aad := item_aad vault_id item_id version in
  content_blob ← map_err VCrypto (aead_encrypt item_key content aad (r_nonce rnd));
  signature ← map_err VCrypto
    (sign_version (ek_signing (signing keyset)) (from_content aad content_blob));
  Ok (mkItemRecord vault_id item_id item_type content_blob wrapped_item_key version false
        signature (ks_pub keyset) 0%Z 0%Z key_epoch).

(** the record [put_item] and [put_item_keep_history] store *)
Definition new_item_record (v : Vault) (s : Storage) (item_id : bytes) (item_type : N)
    (content : bytes) (rnd : ItemRandom) : result VaultError ItemRecord :=
  version ← match get_item s (v_vault_id v) item_id with
            | None => Ok 1
            | Some r => next_version (ir_version r)
            end;
  seal_item (v_keyset v) (v_vault_id v) item_id (v_vk v) (r_item_key rnd) item_type version
    (v_key_epoch v) content rnd.

Definition vault_put_item (v : Vault) (item_id : bytes) (item_type : N) (content : bytes)
    (rnd : ItemRandom) : VM N :=
  _ ← lift_result (require_writer v);
  record ← query (fun s => new_item_record v s item_id item_type content rnd);
  _ ← stg (put_item record);
  _ ← stg (mark_item_dirty (v_vault_id v) item_id);
  mret (ir_version record).

Definition put_item_keep_history (v : Vault) (item_id : bytes) (item_type : N) (content : bytes)
    (rnd : ItemRandom) : VM N :=
  _ ← lift_result (require_writer v);
  record ← query (fun s => new_item_record v s item_id item_type content rnd);
  _ ← stg (archive_and_put record HISTORY_RETAIN);
  _ ← stg (mark_item_dirty (v_vault_id v) (ir_item_id record));
  mret (ir_version record).

Definition decrypt_record (v : Vault) (s : Storage) (record : ItemRecord)
    : result VaultError DecryptedItem :=
  author ← map_err (fun _ => VFormat) (verifying_key_from_bytes (ir_author_pubkey record));
  let aad := item_aad (v_vault_id v) (ir_item_id record) (ir_version record) in
  _ ← map_err (fun _ => SignatureInvalid)
        (verify_version author (from_content aad (ir_content_blob record)) (ir_signature record));
  _ ← verify_record_authority s (v_vault_id v) (ir_author_pubkey record) (ir_key_epoch record)
        (v_genesis_owner v);
  item_key ← unwrap_key_compat (v_vk v) (ir_wrapped_item_key record) (ir_item_id record);
  content ← aead_decrypt_compat item_key (ir_content_blob record) aad;
  Ok (mkDecrypted (ir_item_id record) (ir_item_type record) (ir_version record) content).

Definition vault_get_item (v : Vault) (s : Storage) (item_id : bytes)
    : result VaultError (option DecryptedItem) :=
  match get_item s (v_vault_id v) item_id with
  | Some r => if ir_tombstone r then Ok None else d ← decrypt_record v s r; Ok (Some d)
  | None => Ok None
  end.

Definition list_item_versions (v : Vault) (s : Storage) (item_id : bytes) : list N :=
  match get_item s (v_vault_id v) item_id with
  | Some r => if ir_tombstone r then [] else [ir_version r]
  | None => []
  end ++ (ir_version <$> list_item_history s (v_vault_id v) item_id).

Definition get_item_version (v : Vault) (s : Storage) (item_id : bytes) (version : N)
    : result VaultError (option DecryptedItem) :=
  let current :=
    match get_item s (v_vault_id v) item_id with
    | Some r => if negb (ir_tombstone r) && (ir_version r =? version) then Some r else None
    | None => None
    end in
  match current with
  | Some r => d ← decrypt_record v s r; Ok (Some d)
  | None =>
      match List.find (fun r => ir_version r =? version)
              (list_item_history s (v_vault_id v) item_id) with
      | Some r => d ← decrypt_record v s r; Ok (Some d)
      | None => Ok None
      end
  end.

Definition vault_list_items (v : Vault) (s : Storage) : list ItemMeta :=
  (fun r => mkItemMeta (ir_item_id r) (ir_item_type r) (ir_version r) (ir_created_at r)
              (ir_updated_at r)) <$> list_items s (v_vault_id v).

Definition tombstone_record (v : Vault) (item_id : bytes) (item_type version : N)
    : result VaultError ItemRecord :=
  let content_blob : bytes := [] in
  signature ← map_err VCrypto (sign_version (ek_signing (signing (v_keyset v)))
    (from_content (item_aad (v_vault_id v) item_id version) content_blob));
  Ok (mkItemRecord (v_vault_id v) item_id item_type content_blob [] version true signature
        (own_ed v) 0%Z 0%Z (v_key_epoch v)).

Definition delete_item (v : Vault) (item_id : bytes) : VM unit :=
  _ ← lift_result (require_writer v);
  s ← get_state;
  existing ← lift_result (ok_or (get_item s (v_vault_id v) item_id) NotFound);
  version ← lift_result (next_version (ir_version existing));
  record ← lift_result (tombstone_record v item_id (ir_item_type existing) version);
  _ ← stg (put_item_and_clear_history record);
  stg (mark_item_dirty (v_vault_id v) item_id).

Definition rename_item (v : Vault) (old_id new_id : bytes) (rnd : ItemRandom) : VM unit :=
  if bytes_eqb old_id new_id then mret tt
  else
    _ ← lift_result (require_writer v);
    s ← get_state;
    let taken := match get_item s (v_vault_id v) new_id with
                 | Some r => negb (ir_tombstone r)
                 | None => false
                 end in
    if taken : bool then throw AlreadyExists
    else
      item ← lift_result (vault_get_item v s old_id);
      item ← lift_result (ok_or item NotFound);
      atomically (
        _ ← vault_put_item v new_id (di_item_type item) (di_content item) rnd;
        version ← lift_result (next_version (di_version item));
        tomb ← lift_result (tombstone_record v old_id (di_item_type item) version);
        _ ← stg (put_item tomb);
        _ ← stg (mark_item_dirty (v_vault_id v) old_id);
        stg (clear_item_history (v_vault_id v) old_id)).

(** ** Reissuing the items at a new epoch *)

Definition rewrap_item (v : Vault) (record : ItemRecord) (vk_prime : bytes) (new_epoch : N)
    (rnd : ItemRandom) : result VaultError ItemRecord :=
  item_key ← unwrap_key_compat (v_vk v) (ir_wrapped_item_key record) (ir_item_id record);
  let old_aad := item_aad (v_vault_id v) (ir_item_id record) (ir_version record) in
  plaintext ← aead_decrypt_compat item_key (ir_content_blob record) old_aad;
  new_version ← next_version (ir_version record);
  let new_aad := item_aad (v_vault_id v) (ir_item_id record) new_version in
  content_blob ← map_err VCrypto (aead_encrypt item_key plaintext new_aad (r_nonce rnd));
  wrapped_item_key ← map_err VCrypto
    (wrap_key vk_prime item_key (ir_item_id record) (r_wrap_nonce rnd));
  signature ← map_err VCrypto (sign_version (ek_signing (signing (v_keyset v)))
                (from_content new_aad content_blob));
  Ok (mkItemRecord (v_vault_id v) (ir_item_id record) (ir_item_type record) content_blob
        wrapped_item_key new_version false signature (own_ed v) 0%Z 0%Z new_epoch).

Definition verify_reanchor_authority (v : Vault) (s : Storage) (record : ItemRecord)
    (current : option VerifiedMembers) : result VaultError unit :=
  let writes_now := match current with
                    | Some members => can_write members (ir_author_pubkey record)
                    | None => true
                    end in
  if negb writes_now then Err AuthorityInvalid
  else if (ir_key_epoch record =? 0) && bytes_eqb (ir_author_pubkey record) (v_genesis_owner v)
  then Ok tt
  else
    let floor := N.max (default 0 (get_vault_epoch_floor s (v_vault_id v)))
                       (match current with Some members => epoch members | None => 0 end) in
    if floor <=? ir_key_epoch record
    then verify_record_authority s (v_vault_id v) (ir_author_pubkey record) (ir_key_epoch record)
           (v_genesis_owner v)
    else
      historical ← verify_chain_to_epoch s (v_vault_id v) (ir_key_epoch record)
                     (v_genesis_owner v);
      if can_write historical (ir_author_pubkey record)
         && match current with
            | Some members => can_write members (ir_author_pubkey record)
            | None => false
            end
      then Ok tt else Err AuthorityInvalid.

Definition reanchor_item (v : Vault) (s : Storage) (current : option VerifiedMembers)
    (target_vk : bytes) (epoch : N) (record : ItemRecord) (rnd : ItemRandom)
    : result VaultError ItemRecord :=
  match check_item_record record (v_genesis_owner v) with
  | Some IFMalformed | Some IFSignatureInvalid => Err SignatureInvalid
  | _ =>
      if ir_tombstone record
         && (negb (length (ir_content_blob record) =? 0)%nat
             || negb (length (ir_wrapped_item_key record) =? 0)%nat)
      then Err VFormat
      else
        _ ← verify_reanchor_authority v s record current;
        if ir_tombstone record then
          version ← next_version (ir_version record);
          t ← tombstone_record v (ir_item_id record) (ir_item_type record) version;
          Ok (mkItemRecord (ir_vault_id t) (ir_item_id t) (ir_item_type t) (ir_content_blob t)
                (ir_wrapped_item_key t) (ir_version t) (ir_tombstone t) (ir_signature t)
                (ir_author_pubkey t) (ir_created_at t) (ir_updated_at t) epoch)
        else rewrap_item v record target_vk epoch rnd
  end.

(** the loop of [reanchor_items]; [rng n] is the random input of the [n]-th item *)
Fixpoint reanchor_from (v : Vault) (s : Storage) (current : option VerifiedMembers)
    (target_vk : bytes) (epoch : N) (rng : nat -> ItemRandom) (n : nat)
    (records : list ItemRecord) : result VaultError (list ItemRecord) :=
  match records with
  | [] => Ok []
  | record :: records =>
      updated ← reanchor_item v s current target_vk epoch record (rng n);
      out ← reanchor_from v s current target_vk epoch rng (S n) records;
      Ok (updated :: out)
  end.

Definition reanchor_items (v : Vault) (s : Storage) (target_vk : bytes) (epoch : N)
    (rng : nat -> ItemRandom) : result VaultError (list ItemRecord) :=
  let records := list_items_including_tombstones s (v_vault_id v) in
  current ← match latest_membership_epoch s (v_vault_id v) with
            | Some e =>
                members ← verify_chain_to_epoch s (v_vault_id v) e (v_genesis_owner v);
                Ok (Some members)
            | None => Ok None
            end;
  reanchor_from v s current target_vk epoch rng 0 records.

(** ** Membership changes and rotation *)

(** the target epoch and the verified set it extends *)
Definition membership_base (v : Vault) (s : Storage) (owner : bytes)
    : result VaultError (N * option VerifiedMembers) :=
  match latest_membership_epoch s (v_vault_id v) with
  | Some latest =>
      prev ← verify_chain_to_epoch s (v_vault_id v) latest owner;
      e ← ok_or (checked_add64 latest 1) EpochInvalid;
      Ok (e, Some prev)
  | None => Ok (1, None)
  end.

Definition above_floor (v : Vault) (s : Storage) (e : N) : result VaultError unit :=
  if e <=? default 0 (get_vault_epoch_floor s (v_vault_id v)) then Err EpochInvalid else Ok tt.

(** [for r in records { put_item(r)?; mark_item_dirty(..)? }] *)
Definition put_reissued (v : Vault) (records : list ItemRecord) : VM unit :=
  for_each records (fun r =>
    _ ← stg (put_item r);
    stg (mark_item_dirty (v_vault_id v) (ir_item_id r))).

(** the members with a known X25519 key, with the random input of their envelopes *)
Definition recipients_of (members : list Member) (x25519_by_ed : list (bytes * bytes))
    (grant_rng : bytes -> bytes) : list Recipient :=
  omap (fun m =>
    match List.find (fun ex : bytes * bytes => bytes_eqb ex.1 (ed25519_pub m)) x25519_by_ed with
    | Some (_, x) => Some (x, ed25519_pub m, m_role m, grant_rng (ed25519_pub m))
    | None => None
    end) members.

Definition establish_or_extend_membership (v : Vault) (admin : UnlockedKeyset)
    (members : list Member) (x25519_by_ed : list (bytes * bytes)) (grant_rng : bytes -> bytes)
    (rnd : VaultRandom) (rng : nat -> ItemRandom) : VM (N * Vault) :=
  let owner := own_ed v in
  '(key_epoch, prev) ← query (fun s => membership_base v s owner);
  _ ← query (fun s => above_floor v s key_epoch);
  let recipients := recipients_of members x25519_by_ed grant_rng in
  reanchored ← query (fun s => reanchor_items v s (v_vk v) key_epoch rng);
  _ ← atomically (
    verified ← add_member admin (v_vault_id v) key_epoch prev owner members recipients (v_vk v);
    _ ← (if can_write verified owner then
           s ← get_state;
           vrec ← lift_result (ok_or (get_vault s (v_vault_id v)) NotFound);
           v_version ← lift_result (next_version (vr_version vrec));
           new_vrec ← lift_result (seal_vault_record (v_keyset v) (v_vault_id v) (v_name v)
                        (v_vk v) v_version false key_epoch (vr_sync_target vrec)
                        (vr_cache_policy vrec) (vr_sync_tenant vrec) rnd);
           _ ← stg (put_vault new_vrec);
           _ ← stg (mark_vault_dirty (v_vault_id v));
           put_reissued v reanchored
         else mret tt);
    stg (set_vault_epoch_floor (v_vault_id v) key_epoch));
  mret (key_epoch, with_epoch key_epoch v).

Definition rotate_vk (v : Vault) (admin : UnlockedKeyset) (remaining_members : list Member)
    (grants : list Recipient) (vk_prime : bytes) (rnd : VaultRandom) (rng : nat -> ItemRandom)
    : VM (N * Vault) :=
  let owner := own_ed v in
  s ← get_state;
  vrec ← lift_result (ok_or (get_vault s (v_vault_id v)) NotFound);
  current_epoch ← lift_result (ok_or (latest_membership_epoch s (v_vault_id v)) NotAMember);
  prev ← lift_result (verify_chain_to_epoch s (v_vault_id v) current_epoch owner);
  _ ← lift_result (if is_admin prev (ks_pub admin) then Ok tt else Err AuthorityInvalid);
  new_epoch ← lift_result (ok_or (checked_add64 current_epoch 1) EpochInvalid);
  _ ← lift_result (above_floor v s new_epoch);
  manifest ← lift_result (build_manifest admin (v_vault_id v) new_epoch remaining_members);
  verified_new ← lift_result (verify_manifest manifest (v_vault_id v) (Some prev) owner);
  _ ← lift_result (if can_write verified_new owner then Ok tt else Err NotAMember);
  built_grants ← lift_result
    (traverse (build_verified_grant admin (v_vault_id v) new_epoch vk_prime verified_new) grants);
  v_version ← lift_result (next_version (vr_version vrec));
  new_vrec ← lift_result (seal_vault_record (v_keyset v) (v_vault_id v) (v_name v) vk_prime
               v_version false new_epoch (vr_sync_target vrec) (vr_cache_policy vrec)
               (vr_sync_tenant vrec) rnd);
  rewrapped ← lift_result (reanchor_items v s vk_prime new_epoch rng);
  _ ← atomically (
    _ ← stg (put_membership_manifest manifest);
    _ ← for_each built_grants (fun g => stg (put_membership_grant g));
    _ ← put_reissued v rewrapped;
    _ ← stg (put_vault new_vrec);
    _ ← stg (set_vault_epoch_floor (v_vault_id v) new_epoch);
    _ ← stg (mark_vault_dirty (v_vault_id v));
    stg (mark_membership_dirty (v_vault_id v) new_epoch));
  mret (new_epoch, with_epoch new_epoch v).

(** ** The integrity report *)

Definition record_failure (s : Storage) (v : Vault) (sig_failure : option IntegrityFailure)
    (author : bytes) (key_epoch : N) : option IntegrityFailure :=
  match sig_failure with
  | Some f => Some f
  | None => check_record_authority s (v_vault_id v) author key_epoch (v_genesis_owner v)
  end.

Definition audit_vault_record (s : Storage) (v : Vault) (r : VaultRecord) : list IntegrityIssue :=
  match record_failure s v (vault_sig_failure r) (vr_author_pubkey r) (vr_key_epoch r) with
  | Some f => [mkIssue [] (vr_version r) (vr_tombstone r) f]
  | None => []
  end.

Definition audit_item (s : Storage) (v : Vault) (r : ItemRecord) : list IntegrityIssue :=
  match record_failure s v (item_sig_failure r) (ir_author_pubkey r) (ir_key_epoch r) with
  | Some f => [mkIssue (ir_item_id r) (ir_version r) (ir_tombstone r) f]
  | None => []
  end.

Definition vault_verify_chain (v : Vault) (s : Storage) : IntegrityReport :=
  let vrecs := option_list (get_vault s (v_vault_id v)) in
  let records := list_items_including_tombstones s (v_vault_id v)
                 ++ list_all_history s (v_vault_id v) in
  let issues := (vrecs ≫= audit_vault_record s v) ++ (records ≫= audit_item s v) in
  mkIntegrityReport (length issues =? 0)%nat (sat_add64 (len vrecs) (len records)) issues.

End vault.
Arguments Vault {P}.
