(* ===== verification/VaultThy.v ===== *)
(** * Theorems about the operations of a vault

    Every operation keeps the store's promises; reading back what was written,
    the archive of replaced versions, deletion, renaming, and that only
    authentic rows are read. *)

From Stdlib Require Import Strings.Byte NArith ZArith Lia.
From stdpp Require Import base gmap sets list strings sorting countable.
From S2P Require Import Prelude Bytes CryptoPrims Crypto Storage StorageInv Keychain.
From S2P Require Import Membership MembershipThy Authority VaultOps.

Local Open Scope N_scope.

(** ** Every operation keeps the store's promises *)

Definition kept (s s' : Storage) : Prop := wf_rel s s' /\ versions_grow s s'.

#[global] Instance kept_preorder : PreOrder kept.
Proof.
  split.
  - intros s. split; reflexivity.
  - intros a b c [] []. split; by etrans.
Qed.

Lemma kept_stg op : removes_rows op = false -> preserves kept (stg (run_op op)).
Proof.
  intros Hop. apply preserves_err_into. intros s r s' H.
  split; [by eapply run_op_wf|by eapply run_op_grow].
Qed.

Lemma kept_put_vault r : preserves kept (stg (put_vault r)).
Proof. by apply (kept_stg (OpPutVault r)). Qed.
Lemma kept_mark_vault v : preserves kept (stg (mark_vault_dirty v)).
Proof. by apply (kept_stg (OpMarkVault v)). Qed.
Lemma kept_put_item r : preserves kept (stg (put_item r)).
Proof. by apply (kept_stg (OpPutItem r)). Qed.
Lemma kept_mark_item v i : preserves kept (stg (mark_item_dirty v i)).
Proof. by apply (kept_stg (OpMarkItem v i)). Qed.
Lemma kept_archive r n : preserves kept (stg (archive_and_put r n)).
Proof. by apply (kept_stg (OpArchiveAndPut r n)). Qed.
Lemma kept_clear_history v i : preserves kept (stg (clear_item_history v i)).
Proof. by apply (kept_stg (OpClearHistory v i)). Qed.
Lemma kept_put_clear r : preserves kept (stg (put_item_and_clear_history r)).
Proof. by apply (kept_stg (OpPutItemClearHistory r)). Qed.
Lemma kept_put_manifest m : preserves kept (stg (put_membership_manifest m)).
Proof. by apply (kept_stg (OpPutManifest m)). Qed.
Lemma kept_put_grant g : preserves kept (stg (put_membership_grant g)).
Proof. by apply (kept_stg (OpPutGrant g)). Qed.
Lemma kept_mark_membership v e : preserves kept (stg (mark_membership_dirty v e)).
Proof. by apply (kept_stg (OpMarkMembership v e)). Qed.
Lemma kept_floor v e : preserves kept (stg (set_vault_epoch_floor v e)).
Proof. by apply (kept_stg (OpSetFloor v e)). Qed.

Create HintDb vault discriminated.
#[export] Hint Resolve kept_put_vault kept_mark_vault kept_put_item kept_mark_item kept_archive
  kept_clear_history kept_put_clear kept_put_manifest kept_put_grant kept_mark_membership
  kept_floor : vault.

(** Takes a computation apart into the store operations it is made of. *)
Ltac kept_ops :=
  repeat first
    [ solve [eauto with vault nocore]
    | apply preserves_lift, _ | apply preserves_query, _ | apply preserves_get, _
    | apply preserves_ret, _ | apply preserves_throw, _
    | apply preserves_bind; [apply _| |intros ?]
    | apply preserves_atomically; [apply _|]
    | apply preserves_for_each; [apply _|intros ?]
    | case_match ].

Section keep.
Context `{P : CryptoPrims}.

Lemma kept_add_member admin vid e prev owner ms rs vk :
  preserves kept (add_member admin vid e prev owner ms rs vk).
Proof. unfold add_member. kept_ops. Qed.
Lemma kept_vault_put_item v i ty c rnd : preserves kept (vault_put_item v i ty c rnd).
Proof. unfold vault_put_item. kept_ops. Qed.
Lemma kept_reissued v rs : preserves kept (put_reissued v rs).
Proof. unfold put_reissued. kept_ops. Qed.
#[local] Hint Resolve kept_add_member kept_vault_put_item kept_reissued : vault.

(** one call of a vault operation, by any handle, whether it succeeds or fails;
    [purge_vault], which removes rows, is a store operation of its own *)
Inductive vault_step : Storage -> Storage -> Prop :=
| vs_create ks vid name t vk rnd s r s' :
    create_with_target ks vid name t vk rnd s = (r, s') -> vault_step s s'
| vs_delete v rnd s r s' : vault_delete v rnd s = (r, s') -> vault_step s s'
| vs_name v name rnd s r s' : set_name v name rnd s = (r, s') -> vault_step s s'
| vs_policy v p rnd s r s' : set_cache_policy v p rnd s = (r, s') -> vault_step s s'
| vs_put v i ty c rnd s r s' : vault_put_item v i ty c rnd s = (r, s') -> vault_step s s'
| vs_put_history v i ty c rnd s r s' :
    put_item_keep_history v i ty c rnd s = (r, s') -> vault_step s s'
| vs_delete_item v i s r s' : delete_item v i s = (r, s') -> vault_step s s'
| vs_rename v i j rnd s r s' : rename_item v i j rnd s = (r, s') -> vault_step s s'
| vs_establish v a ms xs g rnd rng s r s' :
    establish_or_extend_membership v a ms xs g rnd rng s = (r, s') -> vault_step s s'
| vs_rotate v a ms gs vk rnd rng s r s' :
    rotate_vk v a ms gs vk rnd rng s = (r, s') -> vault_step s s'.

Lemma vault_step_kept s s' : vault_step s s' -> kept s s'.
Proof.
  intros [ks vid name t vk rnd s0 r s1 H|v rnd s0 r s1 H|v name rnd s0 r s1 H|v p rnd s0 r s1 H
    |v i ty c rnd s0 r s1 H|v i ty c rnd s0 r s1 H|v i s0 r s1 H|v i j rnd s0 r s1 H
    |v a ms xs g rnd rng s0 r s1 H|v a ms gs vk rnd rng s0 r s1 H]; revert s0 r s1 H.
  - change (preserves kept (create_with_target ks vid name t vk rnd)).
    unfold create_with_target. kept_ops.
  - change (preserves kept (vault_delete v rnd)). unfold vault_delete. kept_ops.
  - change (preserves kept (set_name v name rnd)). unfold set_name. kept_ops.
  - change (preserves kept (set_cache_policy v p rnd)). unfold set_cache_policy. kept_ops.
  - apply kept_vault_put_item.
  - change (preserves kept (put_item_keep_history v i ty c rnd)).
    unfold put_item_keep_history. kept_ops.
  - change (preserves kept (delete_item v i)). unfold delete_item. kept_ops.
  - change (preserves kept (rename_item v i j rnd)). unfold rename_item. kept_ops.
  - change (preserves kept (establish_or_extend_membership v a ms xs g rnd rng)).
    unfold establish_or_extend_membership. kept_ops.
  - change (preserves kept (rotate_vk v a ms gs vk rnd rng)). unfold rotate_vk. kept_ops.
Qed.
End keep.

(** ** What authority depends on *)

Definition same_trust (vid : bytes) (s s' : Storage) : Prop :=
  epoch_floor s' !! vid = epoch_floor s !! vid /\
  trust_anchor s' !! vid = trust_anchor s !! vid /\
  (forall e, manifest_at s' vid e = manifest_at s vid e).

#[global] Instance same_trust_preorder vid : PreOrder (same_trust vid).
Proof.
  split.
  - by intros s.
  - intros a b c (F1 & A1 & M1) (F2 & A2 & M2). split_and!; [congruence..|].
    intros e. by rewrite M2.
Qed.

Lemma same_trust_sym vid s s' : same_trust vid s s' -> same_trust vid s' s.
Proof. intros (? & ? & ?). by split_and!. Qed.

Lemma manifest_is_Some s vid e : is_Some (manifests s !! (vid, e)) <-> is_Some (manifest_at s vid e).
Proof. unfold manifest_at. by rewrite fmap_is_Some. Qed.

Lemma latest_epoch_trust vid s s' :
  same_trust vid s s' -> latest_membership_epoch s' vid = latest_membership_epoch s vid.
Proof.
  intros (_ & _ & M). destruct (latest_membership_epoch s vid) as [e|] eqn:He.
  - apply latest_epoch_Some in He as [Hs Hub]. apply latest_epoch_Some. split.
    + rewrite manifest_is_Some, M, <-manifest_is_Some. done.
    + intros e' H'. apply Hub. by rewrite manifest_is_Some, <-M, <-manifest_is_Some.
  - rewrite latest_epoch_None in He. apply latest_epoch_None. intros e.
    apply eq_None_not_Some. rewrite manifest_is_Some, M, <-manifest_is_Some, He. by intros [].
Qed.

(** ** What a write does to the store *)

Lemma stg_Ok {A} (m : SM A) s a s' : stg m s = (Ok a, s') <-> m s = (Ok a, s').
Proof.
  unfold stg, err_into. destruct (m s) as [[a0|e] s1]; cbn [map_err]; split; intros [=]; by subst.
Qed.
Lemma stg_Err {A} (m : SM A) s e s' :
  stg m s = (Err e, s') -> exists e0, m s = (Err e0, s') /\ e = VStorage e0.
Proof. unfold stg, err_into. destruct (m s) as [[a0|e0] s1]; cbn [map_err]; intros [=]; subst; eauto. Qed.

(** the row of [r] is [r], fresh and waiting to be pushed; nothing else moved *)
Definition wrote (r : ItemRecord) (s s' : Storage) : Prop :=
  (exists c u, s' = set_items (<[item_key r := mkRow (with_times c u r) true]>) s) /\
  (forall old, items s !! item_key r = Some old -> ir_version (row old) < ir_version r).

Lemma mark_item_one vid iid s r :
  items s !! (vid, iid) = Some r ->
  mark_item_dirty vid iid s = (Ok tt, set_items (<[(vid, iid) := set_row_dirty true r]>) s).
Proof.
  intros Hr. unfold mark_item_dirty, modify, set_items. repeat f_equal.
  apply update_where_one; [done|cbn; by rewrite !bytes_eqb_refl|].
  intros [k1 k2] a [?%bytes_eqb_true ?%bytes_eqb_true]%andb_true_iff. by simplify_eq/=.
Qed.

Lemma put_mark_Ok r s s' :
  (stg (put_item r) ≫= fun _ => stg (mark_item_dirty (ir_vault_id r) (ir_item_id r))) s
    = (Ok tt, s') -> wrote r s s'.
Proof.
  intros ([] & s1 & H1%stg_Ok & H2%stg_Ok)%M_bind_Ok.
  apply put_item_Ok in H1 as (Hs & row0 & Hi & (c & u & Hrow) & _ & Hv). rewrite Hs in H2.
  rewrite (mark_item_one _ _ _ row0) in H2; [|cbn; rewrite Hi; apply lookup_insert_eq].
  injection H2 as <-. split; [|done]. exists c, u. unfold set_items. cbn. f_equal.
  rewrite Hi. fold (item_key r). rewrite insert_insert_eq. unfold set_row_dirty. by rewrite Hrow.
Qed.

(** a write that fails before its row is marked leaves the store alone *)
Lemma write_mark_fails {A} (m : SM unit) vid iid (k : VM A) s e s' :
  (forall e0 s0, m s = (Err e0, s0) -> s0 = s) -> (forall s0, is_ok (k s0).1 = true) ->
  (stg m ≫= fun _ => stg (mark_item_dirty vid iid) ≫= fun _ => k) s = (Err e, s') -> s' = s.
Proof.
  intros Hm Hk [([] & s1 & H1 & H)|(e0 & (e1 & H1 & _)%stg_Err & _)]%M_bind_run; [|by eapply Hm].
  apply M_bind_run in H as [([] & s2 & _ & H)|(e0 & (e1 & [=] & _)%stg_Err & _)].
  specialize (Hk s2). by rewrite H in Hk.
Qed.

Lemma put_item_fails r s e s' : put_item r s = (Err e, s') -> s' = s.
Proof. unfold put_item. intros H. by run_cases H. Qed.

Lemma wrote_trust r s s' vid : wrote r s s' -> same_trust vid s s'.
Proof. by intros [(c & u & ->) _]. Qed.

Lemma wrote_item r s s' vid iid :
  wrote r s s' ->
  (exists c u, get_item s' (ir_vault_id r) (ir_item_id r) = Some (with_times c u r)) /\
  ((vid, iid) <> item_key r -> get_item s' vid iid = get_item s vid iid).
Proof.
  intros [(c & u & ->) _]. unfold get_item. cbn. split.
  - exists c, u. fold (item_key r). by rewrite lookup_insert_eq.
  - intros Hne. by rewrite lookup_insert_ne.
Qed.

Section vault_theory.
Context `{P : CryptoPrims}.

Lemma may_author_trust vid s s' author e owner :
  same_trust vid s s' -> may_author s vid author e owner -> may_author s' vid author e owner.
Proof.
  intros T. pose proof (latest_epoch_trust _ _ _ T) as L. destruct T as (F & A & M).
  unfold may_author, vault_is_membership_mode, get_vault_epoch_floor, get_vault_trust_anchor.
  rewrite L, F, A. destruct (_ || _ || _); [|done].
  intros (Hl & Hf & v & Hv & Hw). split_and!; [done..|]. exists v. split; [|done].
  eapply trusted_ext; [|exact Hv]. intros; apply M.
Qed.

(** ** Sealed items *)

Definition fresh_item (rnd : ItemRandom) : Prop :=
  length (r_item_key rnd) = SYMMETRIC_KEY_LEN /\
  length (r_wrap_nonce rnd) = NONCE_LEN /\ length (r_nonce rnd) = NONCE_LEN.

(** [record] carries [content] under the vault key [vk] *)
Definition carries (vk : bytes) (record : ItemRecord) (content : bytes) : Prop :=
  exists key, unwrap_key_compat vk (ir_wrapped_item_key record) (ir_item_id record) = Ok key /\
    aead_decrypt_compat key (ir_content_blob record)
      (item_aad (ir_vault_id record) (ir_item_id record) (ir_version record)) = Ok content.

(** a record every reader of the store accepts *)
Definition item_trusted (s : Storage) (owner : bytes) (r : ItemRecord) : Prop :=
  item_signed r /\ may_author s (ir_vault_id r) (ir_author_pubkey r) (ir_key_epoch r) owner.

Lemma decrypt_spec v s r d :
  store_wf s -> ir_vault_id r = v_vault_id v ->
  decrypt_record v s r = Ok d <->
  item_trusted s (v_genesis_owner v) r /\ carries (v_vk v) r (di_content d) /\
  d = mkDecrypted (ir_item_id r) (ir_item_type r) (ir_version r) (di_content d).
Proof.
  intros Hwf Hvid. unfold decrypt_record, item_trusted, item_signed, carries. rewrite Hvid. split.
  - intros (pk & Hpk & H)%bind_Ok. apply bind_Ok in H as ([] & Hv%map_err_Ok & H).
    apply bind_Ok in H as ([] & Ha & H). apply bind_Ok in H as (key & Hk & H).
    apply bind_Ok in H as (c & Hc & [= <-]). apply map_err_Ok in Hpk.
    apply (authority_spec _ _ _ _ _ Hwf) in Ha.
    split_and!; [by exists pk|done|by exists key|done].
  - intros ([(pk & Hpk & Hv) Ha] & (key & Hk & Hc) & Hd).
    apply (authority_spec _ _ _ _ _ Hwf) in Ha.
    rewrite Hpk. cbn [map_err mbind result_bind]. rewrite Hv. cbn [map_err mbind result_bind].
    rewrite Ha. cbn [mbind result_bind]. rewrite Hk. cbn [mbind result_bind].
    rewrite Hc. cbn [mbind result_bind]. by rewrite Hd.
Qed.

Lemma carries_times vk r c c0 u : carries vk (with_times c0 u r) c <-> carries vk r c.
Proof. done. Qed.
Lemma item_trusted_times s o r c u : item_trusted s o (with_times c u r) <-> item_trusted s o r.
Proof. done. Qed.
Lemma item_trusted_trust s s' o r :
  same_trust (ir_vault_id r) s s' -> item_trusted s o r -> item_trusted s' o r.
Proof. intros T [? ?]. split; [done|by eapply may_author_trust]. Qed.

Context `{!CryptoLaws P}.

Lemma signed_item ks vid iid version blob sig :
  keyset_ok ks ->
  sign_version (ek_signing (signing ks)) (from_content (item_aad vid iid version) blob) = Ok sig ->
  forall ty w t c u e, item_signed (mkItemRecord vid iid ty blob w version t sig (ks_pub ks) c u e).
Proof.
  intros Hk Hs ty w t c u e. destruct (signed_by_keyset _ _ _ Hk Hs) as [Hpk Hv].
  by eexists.
Qed.

Lemma compat_current key pt aad nonce blob :
  length nonce = NONCE_LEN -> aead_encrypt key pt aad nonce = Ok blob ->
  aead_decrypt_compat key blob aad = Ok pt.
Proof. intros Hn He. unfold aead_decrypt_compat. by rewrite (aead_opens _ _ _ _ _ Hn He). Qed.

Lemma unwrap_current kek key ctx nonce blob :
  length nonce = NONCE_LEN -> length key = SYMMETRIC_KEY_LEN ->
  wrap_key kek key ctx nonce = Ok blob -> unwrap_key_compat kek blob ctx = Ok key.
Proof. intros Hn Hk Hw. unfold unwrap_key_compat. by rewrite (wrap_key_opens _ _ _ _ _ Hn Hk Hw). Qed.

Lemma seal_item_Ok ks vid iid vk key ty version e content rnd r :
  keyset_ok ks -> length key = SYMMETRIC_KEY_LEN -> length (r_wrap_nonce rnd) = NONCE_LEN ->
  length (r_nonce rnd) = NONCE_LEN ->
  seal_item ks vid iid vk key ty version e content rnd = Ok r ->
  item_signed r /\ carries vk r content /\
  exists blob w sig,
    r = mkItemRecord vid iid ty blob w version false sig (ks_pub ks) 0 0 e.
Proof.
  intros Hk Hkey Hw Hn. unfold seal_item.
  intros (w & Hw'%map_err_Ok & H)%bind_Ok. apply bind_Ok in H as (blob & Hb%map_err_Ok & H).
  apply bind_Ok in H as (sig & Hs%map_err_Ok & [= <-]).
  split; [by eapply signed_item|]. split; [|by eexists _, _, _].
  exists key. split;
    [exact (unwrap_current _ _ _ _ _ Hw Hkey Hw')|exact (compat_current _ _ _ _ _ Hn Hb)].
Qed.

(** ** Handles *)

(** what [open] and [create] guarantee of a handle: its keys belong together,
    and if it may write, its records are authorised *)
Record handle_ok (s : Storage) (v : Vault) : Prop := {
  ho_keyset : keyset_ok (v_keyset v);
  ho_vk : length (v_vk v) = SYMMETRIC_KEY_LEN;
  ho_writer : v_can_write v = true ->
    may_author s (v_vault_id v) (own_ed v) (v_key_epoch v) (v_genesis_owner v)
}.

Lemma handle_trust s s' v : same_trust (v_vault_id v) s s' -> handle_ok s v -> handle_ok s' v.
Proof. intros T [? ? ?]. split; [done..|]. intros ?. eapply may_author_trust; eauto. Qed.

(** the version a write of [iid] takes *)
Definition version_after (s : Storage) (vid iid : bytes) : N :=
  match get_item s vid iid with Some r => ir_version r + 1 | None => 1 end.

Lemma next_version_Ok n m : next_version n = Ok m <-> m = n + 1 /\ n + 1 <= u64_max.
Proof.
  unfold next_version, checked_add64. destruct (N.leb_spec (n + 1) u64_max); cbn.
  - split; [by intros [= <-]|by intros [-> _]].
  - split; [done|lia].
Qed.

Lemma new_item_Ok v s iid ty content rnd r :
  handle_ok s v -> fresh_item rnd -> new_item_record v s iid ty content rnd = Ok r ->
  item_signed r /\ carries (v_vk v) r content /\
  exists blob w sig, r = mkItemRecord (v_vault_id v) iid ty blob w
    (version_after s (v_vault_id v) iid) false sig (own_ed v) 0 0 (v_key_epoch v).
Proof.
  intros [Hk Hvk _] (Hf1 & Hf2 & Hf3). unfold new_item_record, version_after.
  intros (n & Hn & Hs)%bind_Ok. apply seal_item_Ok in Hs; [|done..].
  destruct (get_item s _ _); [apply next_version_Ok in Hn as [-> _]|injection Hn as <-]; exact Hs.
Qed.

Lemma vault_put_item_Ok v iid ty content rnd s n s' :
  handle_ok s v -> fresh_item rnd -> vault_put_item v iid ty content rnd s = (Ok n, s') ->
  n = version_after s (v_vault_id v) iid /\
  exists r, wrote r s s' /\ item_key r = (v_vault_id v, iid) /\ ir_tombstone r = false /\
    ir_item_type r = ty /\ ir_version r = n /\
    item_trusted s' (v_genesis_owner v) r /\ carries (v_vk v) r content.
Proof.
  intros Hh Hf. unfold vault_put_item, require_writer.
  destruct (v_can_write v) eqn:Hw; [|done].
  intros ([] & ? & [= <-] & H)%M_bind_Ok. apply M_bind_Ok in H as (r & ? & [= Hr <-] & H).
  apply (new_item_Ok _ _ _ _ _ _ _ Hh Hf) in Hr as (Hsig & Hc & blob & w & sig & Heq).
  apply M_bind_Ok in H as ([] & s1 & H1 & H). apply M_bind_Ok in H as ([] & s2 & H2 & [= <- <-]).
  assert (wrote r s s2) as Hwr.
  { apply put_mark_Ok. apply M_bind_Ok. exists tt, s1. split; [done|]. by rewrite Heq. }
  split; [by rewrite Heq|]. exists r. split; [done|]. do 4 (split; [by rewrite Heq|]).
  split; [|done]. split; [done|].
  eapply may_author_trust; [by eapply wrote_trust|]. rewrite Heq. by apply Hh.
Qed.

(** ** Reading back *)

Lemma read_back v s iid r c u content :
  store_wf s -> get_item s (v_vault_id v) iid = Some (with_times c u r) ->
  item_key r = (v_vault_id v, iid) -> ir_tombstone r = false ->
  item_trusted s (v_genesis_owner v) r -> carries (v_vk v) r content ->
  vault_get_item v s iid = Ok (Some (mkDecrypted iid (ir_item_type r) (ir_version r) content)).
Proof.
  intros Hwf Hget [= Hvid Hiid] Ht Htr Hc. unfold vault_get_item. rewrite Hget. cbn. rewrite Ht.
  set (d := mkDecrypted iid (ir_item_type r) (ir_version r) content).
  assert (decrypt_record v s (with_times c u r) = Ok d) as Hd.
  { apply decrypt_spec; [done..|]. split_and!; [done|done|]. cbn. by rewrite Hiid. }
  by rewrite Hd.
Qed.

(** reads depend on the row, the trust data and the handle only *)
Lemma read_frame v s s' iid d :
  store_wf s -> store_wf s' -> same_trust (v_vault_id v) s s' ->
  get_item s' (v_vault_id v) iid = get_item s (v_vault_id v) iid ->
  vault_get_item v s iid = Ok d -> vault_get_item v s' iid = Ok d.
Proof.
  intros Hwf Hwf' T Hg. unfold vault_get_item. rewrite Hg.
  destruct (get_item s (v_vault_id v) iid) as [r|] eqn:Hr; [|done].
  destruct (ir_tombstone r); [done|].
  destruct (of_item_of_key _ _ _ _ Hwf Hr) as [_ [= Hv Hi]].
  intros (d0 & (Htr & Hc & Hd)%decrypt_spec & [= <-])%bind_Ok; [|done..].
  assert (decrypt_record v s' r = Ok d0) as ->; [|done].
  apply decrypt_spec; [done..|]. split_and!; [|done..].
  eapply item_trusted_trust; [|exact Htr]. by rewrite Hv.
Qed.

(** what a handle reads, item by item, apart from [iid] *)
Definition same_reads_but (v : Vault) (iid : bytes) (s s' : Storage) : Prop :=
  forall iid' d, iid' <> iid -> vault_get_item v s iid' = Ok d -> vault_get_item v s' iid' = Ok d.

Lemma wrote_reads v r s s' :
  store_wf s -> store_wf s' -> wrote r s s' -> same_reads_but v (ir_item_id r) s s'.
Proof.
  intros Hwf Hwf' Hw iid d Hne. apply read_frame; [done..|by eapply wrote_trust|].
  apply (wrote_item _ _ _ _ _ Hw). intros [= ? ?]. congruence.
Qed.

End vault_theory.

(** ** A concrete vault to evaluate on *)

(** vault "w" of the owner x01, and one item in it *)
Definition sample_vrnd : VaultRandom := mkVaultRandom (replicate 24 x03) [].
Definition sample_rnd : ItemRandom :=
  mkItemRandom (replicate 32 x07) (replicate 24 x05) (replicate 24 x06).
Definition sample_handle : @Vault Sample.prims :=
  @mkVault Sample.prims (sample_keyset x01) (lit "w") (lit "name") sample_vk 1 0 sample_owner true.
Definition sample_new : Storage :=
  (@create_with_target Sample.prims (sample_keyset x01) (lit "w") (lit "name") Local sample_vk
    sample_vrnd sample_shared).2.
Definition sample_one : Storage :=
  (@vault_put_item Sample.prims sample_handle (lit "i") 4 (lit "secret") sample_rnd sample_new).2.

Lemma sample_rnd_fresh : fresh_item sample_rnd.
Proof. done. Qed.

Lemma sample_put :
  @vault_put_item Sample.prims sample_handle (lit "i") 4 (lit "secret") sample_rnd sample_new
    = (Ok 1, sample_one).
Proof. unfold sample_one. apply run_fst. vm_compute. reflexivity. Qed.

Lemma sample_new_wf : store_wf sample_new.
Proof.
  apply (@vault_step_kept Sample.prims sample_shared); [|exact sample_shared_wf].
  unfold sample_new. eapply vs_create. apply surjective_pairing.
Qed.
Lemma sample_one_wf : store_wf sample_one.
Proof.
  apply (@vault_step_kept Sample.prims sample_new); [|exact sample_new_wf].
  eapply vs_put, sample_put.
Qed.

Lemma sample_handle_ok s :
  vault_is_membership_mode s (lit "w") = false -> @handle_ok Sample.prims s sample_handle.
Proof.
  intros Hm. split; [apply sample_keyset_ok|done|]. intros _. unfold may_author.
  change (v_vault_id sample_handle) with (lit "w"). by rewrite Hm.
Qed.
Lemma sample_new_handle : @handle_ok Sample.prims sample_new sample_handle.
Proof. apply sample_handle_ok. vm_compute. reflexivity. Qed.
Lemma sample_one_handle : @handle_ok Sample.prims sample_one sample_handle.
Proof. apply sample_handle_ok. vm_compute. reflexivity. Qed.

(** ** Theorems: items *)

(** C26. What is put is read back. A successful put takes the next version of
    the item, and reading it through the same handle returns exactly the
    content, type and version written; the row waits to be pushed; nothing
    else of the store changes, and every other item reads as before. A failed
    put changes nothing. *)
Theorem put_then_get `{P : CryptoPrims, !CryptoLaws P} v iid ty content rnd s r s' :
  store_wf s -> handle_ok s v -> fresh_item rnd ->
  vault_put_item v iid ty content rnd s = (r, s') ->
  match r with
  | Err _ => s' = s
  | Ok n =>
      n = version_after s (v_vault_id v) iid /\
      vault_get_item v s' iid = Ok (Some (mkDecrypted iid ty n content)) /\
      (exists row, items s' !! (v_vault_id v, iid) = Some row /\ dirty row = true /\
         s' = set_items (<[(v_vault_id v, iid) := row]>) s) /\
      same_reads_but v iid s s' /\ handle_ok s' v
  end.
Proof.
  intros Hwf Hh Hf H. destruct r as [n|e].
  - assert (store_wf s') as Hwf' by (by apply (kept_vault_put_item _ _ _ _ _ _ _ _ H)).
    apply (vault_put_item_Ok _ _ _ _ _ _ _ _ Hh Hf) in H
      as (Hn & rec & Hw & Hk & Ht & Hty & Hv & Htr & Hc).
    pose proof Hk as [= Hvid Hiid].
    destruct (wrote_item _ _ _ [] [] Hw) as [(c & u & Hget) _]. rewrite Hvid, Hiid in Hget.
    split_and!; [done| | | |].
    + rewrite (read_back _ _ _ rec c u content) by done. by rewrite Hty, Hv.
    + destruct Hw as [(c' & u' & ->) _]. rewrite Hk. eexists.
      split; [apply lookup_insert_eq|]. done.
    + rewrite <-Hiid. by apply wrote_reads.
    + eapply handle_trust; [by eapply wrote_trust|done].
  - unfold vault_put_item in H.
    apply M_bind_run in H as [([] & ? & [= _ <-] & H)|(? & [= _ <-] & _)]; [|done].
    apply M_bind_run in H as [(rec & ? & [= _ <-] & H)|(? & [= _ <-] & _)]; [|done].
    by apply write_mark_fails in H; [|apply put_item_fails|].
Qed.

Lemma put_then_get_witness :
  @vault_get_item Sample.prims sample_handle sample_one (lit "i")
    = Ok (Some (mkDecrypted (lit "i") 4 1 (lit "secret"))).
Proof.
  pose proof (@put_then_get Sample.prims Sample.laws sample_handle (lit "i") 4 (lit "secret")
    sample_rnd sample_new (Ok 1) sample_one sample_new_wf sample_new_handle sample_rnd_fresh
    sample_put) as (_ & H & _).
  exact H.
Defined.

Lemma find_unique {A} (p : A -> bool) l a :
  a ∈ l -> p a = true -> (forall b, b ∈ l -> p b = true -> b = a) -> List.find p l = Some a.
Proof.
  intros Ha Hp Hone. destruct (List.find p l) as [b|] eqn:Hf.
  - apply find_some in Hf as [Hin Hb]. f_equal. apply Hone; [by apply list_elem_of_In|done].
  - apply list_elem_of_In in Ha. pose proof (find_none _ _ Hf a Ha). congruence.
Qed.

Section history.
Context `{P : CryptoPrims, !CryptoLaws P}.

(** archived versions of an item are older than its live version *)
Definition archive_older (s : Storage) (vid iid : bytes) : Prop :=
  forall h cur, h ∈ archive_of s vid iid -> get_item s vid iid = Some cur ->
    ir_version h < ir_version cur.

Lemma keep_history_Ok v iid ty content rnd s n s' :
  store_wf s -> handle_ok s v -> fresh_item rnd ->
  put_item_keep_history v iid ty content rnd s = (Ok n, s') ->
  n = version_after s (v_vault_id v) iid /\ same_trust (v_vault_id v) s s' /\
  (exists r c u, items s' = <[(v_vault_id v, iid) := mkRow (with_times c u r) true]> (items s) /\
     item_key r = (v_vault_id v, iid) /\ ir_tombstone r = false /\ ir_item_type r = ty /\
     ir_version r = n /\ item_trusted s' (v_genesis_owner v) r /\ carries (v_vk v) r content) /\
  (exists dropped, archive_of s (v_vault_id v) iid ++ to_archive s (v_vault_id v) iid
     = dropped ++ archive_of s' (v_vault_id v) iid) /\
  len (archive_of s' (v_vault_id v) iid) =
    N.min HISTORY_RETAIN (len (archive_of s (v_vault_id v) iid ++ to_archive s (v_vault_id v) iid)).
Proof.
  intros Hwf Hh Hf. unfold put_item_keep_history, require_writer.
  destruct (v_can_write v) eqn:Hw; [|done].
  intros ([] & ? & [= <-] & H)%M_bind_Ok. apply M_bind_Ok in H as (r & ? & [= Hr <-] & H).
  apply (new_item_Ok _ _ _ _ _ _ _ Hh Hf) in Hr as (Hsig & Hc & blob & w & sig & Heq).
  apply M_bind_Ok in H as ([] & s1 & H1%stg_Ok & H).
  apply M_bind_Ok in H as ([] & s2 & H2%stg_Ok & [= <- <-]).
  destruct (archive_and_put_effect _ _ _ _ Hwf H1) as (Hs1 & (row1 & Hi & (c & u & Hrow) & _) & _ & Hd & Hl).
  assert (item_key r = (v_vault_id v, iid)) as Hk by (by rewrite Heq).
  pose proof Hk as [= Hvid Hiid]. rewrite Hk in Hi. rewrite Hvid, Hiid in *.
  rewrite (mark_item_one _ _ _ row1) in H2 by (rewrite Hi; apply lookup_insert_eq).
  injection H2 as <-.
  assert (same_trust (v_vault_id v) s (set_items (<[(v_vault_id v, iid) := set_row_dirty true row1]>) s1))
    as T by (rewrite Hs1; done).
  split; [by rewrite Heq|]. split; [done|]. split; [|by split].
  exists r, c, u. split.
  { cbn. rewrite Hi, insert_insert_eq. unfold set_row_dirty. by rewrite Hrow. }
  do 4 (split; [by rewrite Heq|]). split; [|done]. split; [done|].
  rewrite Hvid. eapply may_author_trust; [done|]. rewrite Heq. by apply Hh.
Qed.

(** the version a write replaced is the newest of the archive *)
Lemma replaced_archived s s' vid iid cur :
  archive_older s vid iid -> get_item s vid iid = Some cur -> ir_tombstone cur = false ->
  (exists dropped, archive_of s vid iid ++ to_archive s vid iid = dropped ++ archive_of s' vid iid) ->
  len (archive_of s' vid iid) =
    N.min HISTORY_RETAIN (len (archive_of s vid iid ++ to_archive s vid iid)) ->
  List.find (fun r => ir_version r =? ir_version cur) (list_item_history s' vid iid) = Some cur.
Proof.
  intros Hold Hg Ht [dropped Hd] Hl.
  assert (to_archive s vid iid = [cur]) as Hta.
  { unfold to_archive. rewrite Hg, Ht. cbn [orb].
    destruct (archived_version s vid iid (ir_version cur)) eqn:Ha; [|done].
    apply existsb_exists in Ha as (h & Hin & [Ho He%N.eqb_eq]%andb_true_iff).
    assert (h ∈ archive_of s vid iid) as Hh.
    { apply list_elem_of_filter. split; [done|by apply list_elem_of_In]. }
    specialize (Hold _ _ Hh Hg). lia. }
  rewrite Hta in *.
  assert (forall h, h ∈ archive_of s' vid iid -> h ∈ archive_of s vid iid \/ h = cur) as Hsub.
  { intros h Hh. assert (h ∈ archive_of s vid iid ++ [cur]) as Hh'
      by (rewrite Hd; apply elem_of_app; by right).
    apply elem_of_app in Hh' as [?|?%list_elem_of_singleton]; auto. }
  assert (cur ∈ archive_of s' vid iid) as Hin.
  { destruct (archive_of s' vid iid) as [|x l _] eqn:Hx using rev_ind.
    - rewrite len_app in Hl. unfold HISTORY_RETAIN, len in Hl. cbn in Hl. lia.
    - rewrite app_assoc in Hd. apply app_inj_tail in Hd as [_ ->].
      apply elem_of_app. right. by left. }
  unfold list_item_history. apply find_unique; [|apply N.eqb_refl|].
  - by apply elem_of_stable_sort.
  - intros h Hh%elem_of_stable_sort He%N.eqb_eq. apply Hsub in Hh as [Hh|]; [|done].
    specialize (Hold _ _ Hh Hg). lia.
Qed.
End history.

(** Replacing a secret keeps the version it replaced: the new content is
    read back as by an ordinary put, and the version read before is still
    readable by its number, unchanged; at most 20 past versions stay. A failed
    call changes nothing. *)
Theorem history_keeps_previous `{P : CryptoPrims, !CryptoLaws P} v iid ty content rnd s r s' :
  store_wf s -> handle_ok s v -> fresh_item rnd -> archive_older s (v_vault_id v) iid ->
  put_item_keep_history v iid ty content rnd s = (r, s') ->
  match r with
  | Err _ => s' = s
  | Ok n =>
      vault_get_item v s' iid = Ok (Some (mkDecrypted iid ty n content)) /\
      (forall d, vault_get_item v s iid = Ok (Some d) ->
         n = di_version d + 1 /\ get_item_version v s' iid (di_version d) = Ok (Some d)) /\
      len (list_item_history s' (v_vault_id v) iid) <= HISTORY_RETAIN
  end.
Proof.
  intros Hwf Hh Hf Hold H. destruct r as [n|e].
  - assert (store_wf s') as Hwf' by (eapply (vault_step_kept s s'); [by econstructor|done]).
    apply (keep_history_Ok _ _ _ _ _ _ _ _ Hwf Hh Hf) in H
      as (Hn & T & (rec & c & u & Hi & Hk & Ht & Hty & Hv & Htr & Hc) & Hd & Hl).
    assert (get_item s' (v_vault_id v) iid = Some (with_times c u rec)) as Hget.
    { unfold get_item. by rewrite Hi, lookup_insert_eq. }
    split_and!.
    + rewrite (read_back _ _ _ rec c u content) by done. by rewrite Hty, Hv.
    + intros d Hread. unfold vault_get_item in Hread.
      destruct (get_item s (v_vault_id v) iid) as [cur|] eqn:Hcur; [|done].
      destruct (ir_tombstone cur) eqn:Htc; [done|].
      destruct (of_item_of_key _ _ _ _ Hwf Hcur) as [_ [= Hcv Hci]].
      apply bind_Ok in Hread as (d0 & (Htr0 & Hc0 & Hd0)%decrypt_spec & [= <-]); [|done..].
      assert (di_version d0 = ir_version cur) as Hdv by (by rewrite Hd0).
      unfold version_after in Hn. rewrite Hcur in Hn. split; [by rewrite Hdv|].
      unfold get_item_version. rewrite Hget. cbn [with_times ir_tombstone ir_version].
      rewrite Ht, Hv, Hdv. rewrite (proj2 (N.eqb_neq _ _)) by lia. cbn [andb negb].
      rewrite (replaced_archived s s') by done.
      assert (decrypt_record v s' cur = Ok d0) as ->; [|done].
      apply decrypt_spec; [done..|]. split_and!; [|done..].
      eapply item_trusted_trust; [|done]. by rewrite Hcv.
    + unfold list_item_history, len. rewrite stable_sort_perm. fold (archive_of s' (v_vault_id v) iid).
      unfold len in Hl. lia.
  - unfold put_item_keep_history in H.
    apply M_bind_run in H as [([] & ? & [= _ <-] & H)|(? & [= _ <-] & _)]; [|done].
    apply M_bind_run in H as [(rec & ? & [= _ <-] & H)|(? & [= _ <-] & _)]; [|done].
    apply write_mark_fails in H; [done| |done]. intros ? ?. apply atomically_Err.
Qed.

Lemma sample_archive_older : archive_older sample_one (lit "w") (lit "i").
Proof.
  assert (archive_of sample_one (lit "w") (lit "i") = []) as Hn by (vm_compute; reflexivity).
  intros h r Hh. rewrite Hn in Hh. destruct (not_elem_of_nil _ Hh).
Qed.

Lemma history_keeps_previous_witness : exists s',
  put_item_keep_history sample_handle (lit "i") 4 (lit "changed") sample_rnd sample_one = (Ok 2, s') /\
  get_item_version sample_handle s' (lit "i") 1
    = Ok (Some (mkDecrypted (lit "i") 4 1 (lit "secret"))).
Proof.
  eexists. assert (put_item_keep_history sample_handle (lit "i") 4 (lit "changed") sample_rnd
    sample_one = (Ok 2, _)) as E by (apply run_fst; vm_compute; reflexivity).
  split; [exact E|].
  apply (@history_keeps_previous Sample.prims Sample.laws sample_handle (lit "i") 4 (lit "changed")
    sample_rnd sample_one (Ok 2) _ sample_one_wf sample_one_handle sample_rnd_fresh) in E
    as (_ & H & _).
  - apply (H (mkDecrypted (lit "i") 4 1 (lit "secret"))). vm_compute. reflexivity.
  - exact sample_archive_older.
Defined.

(** ** Deletion and renaming *)

Lemma clear_history_gone vid iid s :
  archive_of (set_item_history (filter (fun r => of_item vid iid r = false)) s) vid iid = [].
Proof.
  unfold archive_of. cbn. apply filter_none, list.Forall_forall.
  intros r [Hr _]%list_elem_of_filter. congruence.
Qed.

Section deletion.
Context `{P : CryptoPrims}.

(** nothing of [iid] can be read any more, at any version *)
Definition unreadable (v : Vault) (s : Storage) (iid : bytes) : Prop :=
  vault_get_item v s iid = Ok None /\ list_item_versions v s iid = [] /\
  forall n, get_item_version v s iid n = Ok None.

Lemma tombstone_unreadable v s iid r :
  get_item s (v_vault_id v) iid = Some r -> ir_tombstone r = true ->
  archive_of s (v_vault_id v) iid = [] -> unreadable v s iid.
Proof.
  intros Hg Ht Ha.
  assert (list_item_history s (v_vault_id v) iid = []) as Hh.
  { unfold list_item_history. fold (archive_of s (v_vault_id v) iid). by rewrite Ha. }
  unfold unreadable, vault_get_item, list_item_versions, get_item_version.
  by rewrite Hg, Ht, Hh.
Qed.

Context `{!CryptoLaws P}.

Lemma tombstone_Ok v iid ty n r :
  keyset_ok (v_keyset v) -> tombstone_record v iid ty n = Ok r ->
  item_signed r /\ exists sig,
    r = mkItemRecord (v_vault_id v) iid ty [] [] n true sig (own_ed v) 0 0 (v_key_epoch v).
Proof.
  intros Hk. unfold tombstone_record. intros (sig & Hs%map_err_Ok & [= <-])%bind_Ok.
  split; [by eapply signed_item|by eexists].
Qed.
(** [tomb] stored and its archive dropped *)
Definition buried (tomb : ItemRecord) (s s' : Storage) : Prop :=
  exists s1, wrote tomb s s1 /\
    s' = set_item_history (filter (fun r => of_item (ir_vault_id tomb) (ir_item_id tomb) r = false)) s1.

Lemma bury_Ok tomb s s' :
  (stg (put_item_and_clear_history tomb) ≫= fun _ =>
   stg (mark_item_dirty (ir_vault_id tomb) (ir_item_id tomb))) s = (Ok tt, s') ->
  buried tomb s s'.
Proof.
  intros ([] & s1 & H1%stg_Ok & H2%stg_Ok)%M_bind_Ok.
  unfold put_item_and_clear_history, transaction in H1. rewrite atomically_Ok in H1.
  apply M_bind_Ok in H1 as ([] & s0 & Hp & [= <-]). injection H2 as <-.
  exists (mark_item_dirty (ir_vault_id tomb) (ir_item_id tomb) s0).2. split; [|done].
  apply put_mark_Ok, M_bind_Ok. exists tt, s0. by rewrite !stg_Ok.
Qed.

Lemma buried_spec v tomb s s' :
  store_wf s -> store_wf s' -> ir_vault_id tomb = v_vault_id v -> ir_tombstone tomb = true ->
  buried tomb s s' ->
  unreadable v s' (ir_item_id tomb) /\
  (exists c u, items s' !! (v_vault_id v, ir_item_id tomb) = Some (mkRow (with_times c u tomb) true)) /\
  same_trust (v_vault_id v) s s' /\ same_reads_but v (ir_item_id tomb) s s' /\
  other_archives s' (v_vault_id v) (ir_item_id tomb)
    = other_archives s (v_vault_id v) (ir_item_id tomb).
Proof.
  intros Hwf Hwf' Hvid Ht (s1 & Hw & Hs').
  destruct (wrote_item _ _ _ [] [] Hw) as [(c0 & u0 & Hg) _]. rewrite Hvid in Hg.
  destruct Hw as [(c & u & ->) Hold]. split_and!.
  - eapply (tombstone_unreadable _ _ _ (with_times c0 u0 tomb)); [by rewrite Hs'|done|].
    rewrite Hs', <-Hvid. apply clear_history_gone.
  - exists c, u. rewrite Hs', <-Hvid. apply lookup_insert_eq.
  - by rewrite Hs'.
  - intros iid d Hne. apply read_frame; [done..|by rewrite Hs'|].
    rewrite Hs'. unfold get_item. cbn. rewrite lookup_insert_ne; [done|].
    unfold item_key. congruence.
  - rewrite Hs'. unfold other_archives. cbn. rewrite Hvid. by rewrite list_filter_filter_r by done.
Qed.
End deletion.

(** Deleting an item is final and carries its own proof: no version of it can
    be read any more, current or archived, while the row left behind is a
    signed deletion at the next version that every reader accepts and that
    waits to be pushed; all other items and archives are as before. A failed
    deletion changes nothing. *)
Theorem delete_is_final `{P : CryptoPrims, !CryptoLaws P} v iid s r s' :
  store_wf s -> handle_ok s v -> delete_item v iid s = (r, s') ->
  match r with
  | Err _ => s' = s
  | Ok _ =>
      unreadable v s' iid /\
      (exists tomb, items s' !! (v_vault_id v, iid) = Some (mkRow tomb true) /\
         ir_tombstone tomb = true /\ ir_version tomb = version_after s (v_vault_id v) iid /\
         item_trusted s' (v_genesis_owner v) tomb) /\
      same_reads_but v iid s s' /\
      other_archives s' (v_vault_id v) iid = other_archives s (v_vault_id v) iid
  end.
Proof.
  intros Hwf Hh H.
  assert (kept s s') as [Hk _] by (eapply (vault_step_kept s s'); by econstructor).
  specialize (Hk Hwf). unfold delete_item, require_writer in H.
  destruct (v_can_write v) eqn:Hw; [|by injection H as <- <-].
  apply M_bind_run in H as [([] & ? & [= <-] & H)|(? & [=] & _)].
  unfold mbind at 1, M_bind at 1, get_state at 1 in H.
  apply M_bind_run in H as [(cur & ? & [= Hcur%ok_or_Ok <-] & H)|(? & [= _ <-] & ->)]; [|done].
  apply M_bind_run in H as [(n & ? & [= Hn%next_version_Ok <-] & H)|(? & [= _ <-] & ->)]; [|done].
  apply M_bind_run in H as [(tomb & ? & [= Ht <-] & H)|(? & [= _ <-] & ->)]; [|done].
  apply tombstone_Ok in Ht as (Hsig & sig & Heq); [|apply Hh].
  destruct r as [[]|e].
  - replace (v_vault_id v) with (ir_vault_id tomb) in H by (by rewrite Heq).
    replace iid with (ir_item_id tomb) in H by (by rewrite Heq). apply bury_Ok in H.
    apply (buried_spec v) in H as (Hu & (c & u & Hi) & T & Hr & Ho); [|done|done|by rewrite Heq..].
    rewrite Heq in Hu, Hr, Ho. cbn in Hu, Hr, Ho. split_and!; [done| |done|done].
    exists (with_times c u tomb). rewrite <-Hi. split; [by rewrite Heq|].
    split; [by rewrite Heq|]. split.
    + unfold version_after. rewrite Hcur, Heq. by destruct Hn as [-> _].
    + split; [done|]. rewrite Heq. cbn. eapply may_author_trust; [done|by apply Hh].
  - apply M_bind_run in H as [([] & s1 & _ & H)|(e0 & (e1 & H1 & _)%stg_Err & _)].
    + by apply stg_Err in H as (e1 & [=] & _).
    + by eapply atomically_Err.
Qed.

Lemma delete_is_final_witness : exists s',
  delete_item sample_handle (lit "i") sample_one = (Ok tt, s') /\
  unreadable sample_handle s' (lit "i").
Proof.
  eexists. assert (delete_item sample_handle (lit "i") sample_one = (Ok tt, _)) as E
    by (apply run_fst; vm_compute; reflexivity).
  split; [exact E|].
  exact (proj1 (@delete_is_final Sample.prims Sample.laws sample_handle (lit "i") sample_one (Ok tt) _
    sample_one_wf sample_one_handle E)).
Defined.

(** Renaming moves an item as one step: on success the new id, which held no
    live item, reads back the old one's type and content, no version of the old
    id can be read, and every other item reads as before; on failure nothing
    changed. *)
Theorem rename_moves `{P : CryptoPrims, !CryptoLaws P} v old_id new_id rnd s r s' :
  store_wf s -> handle_ok s v -> fresh_item rnd -> old_id <> new_id ->
  rename_item v old_id new_id rnd s = (r, s') ->
  match r with
  | Err _ => s' = s
  | Ok _ => exists d,
      vault_get_item v s old_id = Ok (Some d) /\ vault_get_item v s new_id = Ok None /\
      vault_get_item v s' new_id = Ok (Some (mkDecrypted new_id (di_item_type d)
        (version_after s (v_vault_id v) new_id) (di_content d))) /\
      unreadable v s' old_id /\
      (forall iid d', iid <> old_id -> iid <> new_id ->
         vault_get_item v s iid = Ok d' -> vault_get_item v s' iid = Ok d')
  end.
Proof.
  intros Hwf Hh Hf Hne H.
  assert (kept s s') as [Hk _] by (eapply (vault_step_kept s s'); by econstructor).
  specialize (Hk Hwf). unfold rename_item in H.
  rewrite (proj2 (bytes_eqb_false _ _)) in H by done. unfold require_writer in H.
  destruct (v_can_write v) eqn:Hw; [|by injection H as <- <-].
  apply M_bind_run in H as [([] & ? & [= <-] & H)|(? & [=] & _)].
  unfold mbind at 1, M_bind at 1, get_state at 1 in H.
  assert (exists b, match get_item s (v_vault_id v) new_id with
                    | Some r => negb (ir_tombstone r) | None => false end = b /\
                    (b = false -> vault_get_item v s new_id = Ok None)) as ([] & Htk & Hnew).
  { eexists. split; [reflexivity|]. unfold vault_get_item.
    destruct (get_item s _ new_id) as [r0|]; [|done]. by destruct (ir_tombstone r0). }
  { rewrite Htk in H. by injection H as <- <-. }
  rewrite Htk in H. specialize (Hnew eq_refl).
  apply M_bind_run in H as [(o & ? & [= Hread <-] & H)|(? & [= _ <-] & ->)]; [|done].
  apply M_bind_run in H as [(d & ? & [= Ho%ok_or_Ok <-] & H)|(? & [= _ <-] & ->)]; [|done].
  subst o. destruct r as [[]|e]; [|by eapply atomically_Err].
  rewrite atomically_Ok in H. apply M_bind_Ok in H as (n & s1 & Hput & H).
  assert (store_wf s1) as Hwf1 by (by apply (kept_vault_put_item _ _ _ _ _ _ _ _ Hput)).
  apply (vault_put_item_Ok _ _ _ _ _ _ _ _ Hh Hf) in Hput
    as (Hn & rec & Hwr & Hkey & Hnt & Hty & Hver & Htr & Hc). pose proof Hkey as [= Hrv Hri].
  destruct (wrote_item _ _ _ [] [] Hwr) as [(c & u & Hget) _]. rewrite Hrv, Hri in Hget.
  apply M_bind_Ok in H as (m & ? & [= _ <-] & H). apply M_bind_Ok in H as (tomb & ? & [= Ht <-] & H).
  apply tombstone_Ok in Ht as (_ & sig & Heq); [|apply Hh].
  apply M_bind_Ok in H as ([] & s2 & H1 & H). apply M_bind_Ok in H as ([] & s3 & H2 & H3%stg_Ok).
  assert (buried tomb s1 s') as Hb.
  { exists s3. split; [|rewrite Heq; by injection H3 as <-].
    apply put_mark_Ok, M_bind_Ok. exists tt, s2. split; [done|by rewrite Heq]. }
  apply (buried_spec v) in Hb as (Hu & _ & _ & Hr & _); [|done|done|by rewrite Heq..].
  rewrite Heq in Hu, Hr. cbn in Hu, Hr. exists d. split_and!; [done|done| |done|].
  - apply Hr; [done|]. rewrite (read_back _ _ _ rec c u (di_content d)) by done.
    by rewrite Hty, Hver, Hn.
  - intros iid d' Ho Hn' Hd. apply Hr; [done|].
    eapply wrote_reads; [exact Hwf|exact Hwf1|exact Hwr|by rewrite Hri|done].
Qed.

Lemma rename_moves_witness : exists s',
  rename_item sample_handle (lit "i") (lit "j") sample_rnd sample_one = (Ok tt, s') /\
  unreadable sample_handle s' (lit "i").
Proof.
  eexists. assert (rename_item sample_handle (lit "i") (lit "j") sample_rnd sample_one = (Ok tt, _))
    as E by (apply run_fst; vm_compute; reflexivity).
  split; [exact E|].
  destruct (@rename_moves Sample.prims Sample.laws sample_handle (lit "i") (lit "j") sample_rnd
    sample_one (Ok tt) _ sample_one_wf sample_one_handle sample_rnd_fresh ltac:(discriminate) E)
    as (d & _ & _ & _ & H & _).
  exact H.
Defined.

(** C27. Nothing unauthenticated is ever read: an item, or any archived version
    of it, comes out of the store only if the row that holds it carries a valid
    signature of its author over exactly this vault, item, version and
    ciphertext, and that author may write this vault at the row's epoch as the
    pinned owner's chain has it. *)
Theorem reads_are_authentic `{P : CryptoPrims} v s iid d :
  store_wf s ->
  (vault_get_item v s iid = Ok (Some d) \/
   exists n, get_item_version v s iid n = Ok (Some d) /\ di_version d = n) ->
  exists r, (get_item s (v_vault_id v) iid = Some r \/ r ∈ archive_of s (v_vault_id v) iid) /\
    item_trusted s (v_genesis_owner v) r /\
    di_item_id d = iid /\ di_version d = ir_version r /\ di_item_type d = ir_item_type r /\
    carries (v_vk v) r (di_content d).
Proof.
  intros Hwf Hread.
  assert (forall r, (get_item s (v_vault_id v) iid = Some r \/ r ∈ archive_of s (v_vault_id v) iid) ->
    item_key r = (v_vault_id v, iid)) as Hkey.
  { intros r [Hr|[Hr _]%list_elem_of_filter]; [by eapply of_item_of_key|].
    apply andb_true_iff in Hr as [?%bytes_eqb_true ?%bytes_eqb_true].
    unfold item_key. by f_equal. }
  assert (exists r, (get_item s (v_vault_id v) iid = Some r \/
    r ∈ archive_of s (v_vault_id v) iid) /\ decrypt_record v s r = Ok d) as (r & Hr & Hd).
  { destruct Hread as [H|(n & H & _)].
    - unfold vault_get_item in H. destruct (get_item s _ iid) as [r|] eqn:Hg; [|done].
      destruct (ir_tombstone r); [done|]. apply bind_Ok in H as (d0 & H & [= ->]). eauto.
    - unfold get_item_version in H. destruct (get_item s _ iid) as [r|] eqn:Hg.
      1: destruct (negb (ir_tombstone r) && _); [apply bind_Ok in H as (d0 & H & [= ->]); by eauto|].
      all: destruct (List.find _ _) as [h|] eqn:Hf; [|done].
      all: apply find_some in Hf as [Hin%list_elem_of_In%elem_of_stable_sort _].
      all: apply bind_Ok in H as (d0 & H & [= ->]); exists h; by auto. }
  specialize (Hkey _ Hr) as [= Hv Hi].
  apply decrypt_spec in Hd as (Htr & Hc & Heq); [|done..].
  exists r. rewrite Heq at 1 2 3. by split_and!.
Qed.

Lemma reads_are_authentic_witness : exists r,
  @item_trusted Sample.prims sample_one sample_owner r /\
  @carries Sample.prims sample_vk r (lit "secret").
Proof.
  destruct (@reads_are_authentic Sample.prims sample_handle sample_one (lit "i")
    (mkDecrypted (lit "i") 4 1 (lit "secret")) sample_one_wf) as (r & _ & Ht & _ & _ & _ & Hc).
  - left. vm_compute. reflexivity.
  - exists r. split; [exact Ht|exact Hc].
Defined.
