(* ===== verification/VaultEpochs.v ===== *)
(** * Theorems about opening a vault and moving it to a new epoch

    Creating and opening, the write role a handle reports, reissuing every
    item when the membership changes or the vault key is rotated, who can open
    afterwards, the guards of the handle and the integrity report. *)

From Stdlib Require Import Strings.Byte NArith ZArith Lia.
From stdpp Require Import base gmap sets list strings sorting countable.
From S2P Require Import Prelude Bytes CryptoPrims Crypto Storage StorageInv Keychain.
From S2P Require Import Membership MembershipThy Authority VaultOps VaultThy.

Local Open Scope N_scope.

(** ** Creating and opening *)

Section opening.
Context `{P : CryptoPrims}.

(** the epochs the store holds for a vault agree: the latest manifest is not
    below the floor or the vault record, and a vault without manifests is a
    single-owner one *)
Definition epochs_ok (s : Storage) (vid : bytes) : Prop :=
  match latest_membership_epoch s vid with
  | Some e => default 0 (epoch_floor s !! vid) <= e /\
              (forall r, get_vault s vid = Some r -> vr_key_epoch r <= e)
  | None => vault_is_membership_mode s vid = false
  end.

(** the owner a device holds a vault to *)
Definition owner_of (s : Storage) (vid own : bytes) : bytes :=
  match get_vault_trust_anchor s vid with
  | Some a => ta_genesis_owner_pubkey a
  | None => own
  end.

Lemma single_owner_iff s vid :
  vault_is_membership_mode s vid = false <->
  epoch_floor s !! vid = None /\ latest_membership_epoch s vid = None /\ trust_anchor s !! vid = None.
Proof.
  unfold vault_is_membership_mode, get_vault_epoch_floor, get_vault_trust_anchor.
  rewrite !orb_false_iff, !bool_decide_eq_false, <-!eq_None_not_Some. tauto.
Qed.

Lemma single_owner s vid own :
  vault_is_membership_mode s vid = false -> owner_of s vid own = own /\ epochs_ok s vid.
Proof.
  intros Hm. pose proof Hm as (_ & Hl & Ha)%single_owner_iff.
  unfold owner_of, get_vault_trust_anchor, epochs_ok. by rewrite Ha, Hl.
Qed.

Lemma open_key_len sk blob info vk :
  open_key_with_secret sk blob info = Ok vk -> length vk = SYMMETRIC_KEY_LEN.
Proof.
  unfold open_key_with_secret. intros (body & _ & H)%bind_Ok.
  destruct (_ <? _)%nat; [done|]. destruct (negb _); [done|].
  apply bind_Ok in H as (p & _ & H). unfold symkey_from_slice in H.
  destruct (Nat.eqb_spec (length p) SYMMETRIC_KEY_LEN) as [E|]; [|done]. cbn in H. congruence.
Qed.

Lemma open_owner_len sk w vid o e vk :
  open_owner_vk sk w vid o e = Ok vk -> length vk = SYMMETRIC_KEY_LEN.
Proof.
  unfold open_owner_vk. intros (info & _ & H)%bind_Ok.
  destruct (open_key_with_secret sk w info) as [k|] eqn:Hk.
  - injection H as <-. by eapply open_key_len.
  - apply map_err_Ok in H. by eapply open_key_len.
Qed.

Lemma open_own_grant_len f gs vid ms ks now vk role :
  open_own_grant_loop f gs vid ms ks now = Ok (vk, role) -> length vk = SYMMETRIC_KEY_LEN.
Proof.
  revert f. induction gs as [|g gs IH]; intros f; [done|]. cbn [open_own_grant_loop].
  destruct (negb _); [apply IH|].
  destruct (verify_grant g vid ms ≫= _) as [k|e] eqn:Hg; [|apply IH].
  intros [= <- _]. apply bind_Ok in Hg as ([] & _ & Hg). unfold open_grant in Hg.
  destruct (_ && _); [done|]. apply bind_Ok in Hg as (i & _ & Hk%map_err_Ok).
  by eapply open_key_len.
Qed.

(** the epoch of a stored manifest fits the column *)
Lemma manifest_epoch_max s vid e : store_wf s -> is_Some (manifest_at s vid e) -> e <= i64_max.
Proof.
  intros Hwf [r Hr]%manifest_is_Some.
  destruct (wf_manifests _ Hwf _ _ Hr) as [Hk Hmax]. unfold manifest_key in Hk. by simplify_eq.
Qed.
Lemma latest_epoch_max s vid e :
  store_wf s -> latest_membership_epoch s vid = Some e -> e <= i64_max.
Proof. intros Hwf [Hs _]%latest_epoch_Some. by eapply manifest_epoch_max, manifest_is_Some. Qed.

Lemma trusted_manifest s vid owner e v : Trusted s vid owner e v -> is_Some (manifest_at s vid e).
Proof. destruct 1; by eexists. Qed.
Lemma trusted_verifies s vid owner e v :
  store_wf s -> Trusted s vid owner e v -> verify_chain_to_epoch s vid e owner = Ok v.
Proof.
  intros Hwf Ht. pose proof (trusted_epoch _ _ _ _ _ Ht) as [_ H1]. apply chain_is_trusted; [done| |done].
  by eapply manifest_epoch_max, trusted_manifest.
Qed.

(** the write role read off a verified set of the latest epoch *)
Lemma writes_iff s vid own owner e v :
  store_wf s -> latest_membership_epoch s vid = Some e -> default 0 (epoch_floor s !! vid) <= e ->
  verify_chain_to_epoch s vid e owner = Ok v ->
  can_write v own = true <-> may_author s vid own e owner.
Proof.
  intros Hwf Hl Hf Hv. pose proof (membership_mode_latest _ _ _ Hl) as Hm.
  pose proof (latest_epoch_max _ _ _ Hwf Hl) as He.
  assert (1 <= e) as H1.
  { unfold verify_chain_to_epoch in Hv. destruct (N.eqb_spec e 0); [done|lia]. }
  unfold may_author. rewrite Hm. split.
  - intros Hw. split_and!; [done..|]. exists v. split; [by apply chain_is_trusted|done].
  - intros (_ & _ & v' & Hv' & Hw). apply chain_is_trusted in Hv'; [|done..]. congruence.
Qed.

Lemma open_Ok ks vid now s v :
  store_wf s -> epochs_ok s vid -> open_vault ks vid now s = Ok v ->
  v_keyset v = ks /\ v_vault_id v = vid /\ v_genesis_owner v = owner_of s vid (ks_pub ks) /\
  length (v_vk v) = SYMMETRIC_KEY_LEN /\
  (v_can_write v = true <-> may_author s vid (ks_pub ks) (v_key_epoch v) (v_genesis_owner v)).
Proof.
  intros Hwf Hep. unfold open_vault. intros (rec & Hrec%ok_or_Ok & H)%bind_Ok.
  assert (vr_vault_id rec = vid) as Hvid.
  { apply fmap_Some in Hrec as (r & Hr & ->). by apply (wf_vaults _ Hwf) in Hr as (? & _). }
  destruct (vr_tombstone rec); [done|]. apply bind_Ok in H as (_ & _ & H).
  rewrite Hvid in H. fold (owner_of s vid (ks_pub ks)) in H.
  set (owner := owner_of s vid (ks_pub ks)) in *. cbv zeta in H.
  apply bind_Ok in H as ([vk cw] & Hvk & H). apply bind_Ok in H as (name & _ & [= <-]).
  cbn [v_keyset v_vault_id v_genesis_owner v_vk v_can_write v_key_epoch].
  do 3 (split; [done|]). unfold epochs_ok in Hep.
  destruct (bytes_eqb owner (ks_pub ks)) eqn:Ho.
  - apply bytes_eqb_true in Ho. unfold open_as_owner in Hvk. rewrite Hvid in Hvk.
    apply bind_Ok in Hvk as (k & Hk & [= -> <-]). split; [by eapply open_owner_len|].
    destruct (latest_membership_epoch s vid) as [e|] eqn:Hl.
    + destruct Hep as [Hf Hr]. rewrite N.max_r by (by apply Hr).
      destruct (verify_chain_to_epoch s vid e owner) as [ms|] eqn:Hc; [by apply writes_iff|].
      split; [done|]. intros Hm. exfalso. unfold may_author in Hm.
      rewrite (membership_mode_latest _ _ _ Hl) in Hm. destruct Hm as (_ & _ & w & Hw & _).
      apply trusted_verifies in Hw; [congruence|done].
    + unfold may_author. rewrite Hep. by rewrite Ho.
  - unfold open_as_member in Hvk. rewrite Hvid in Hvk.
    destruct (latest_membership_epoch s vid) as [e|] eqn:Hl; cbn [default] in Hvk.
    2: { apply bytes_eqb_false in Ho. by destruct Ho, (single_owner _ _ (ks_pub ks) Hep). }
    apply bind_Ok in Hvk as (ms & Hc & Hvk). apply bind_Ok in Hvk as (gs & _ & Hvk).
    apply bind_Ok in Hvk as ([k role] & Hk & [= -> <-]). split; [by eapply open_own_grant_len|].
    destruct Hep as [Hf Hr]. rewrite N.max_r by (by apply Hr). by apply writes_iff.
Qed.
End opening.

Section sealing.
Context `{P : CryptoPrims, !CryptoLaws P}.

Definition fresh_vault (rnd : VaultRandom) : Prop := length (r_name_nonce rnd) = NONCE_LEN.

(** [rec] opens for the owner [ks] to the vault key [vk] and the name [name] *)
Definition opens_to (ks : UnlockedKeyset) (vk name : bytes) (rec : VaultRecord) : Prop :=
  verify_vault_record rec = Ok tt /\
  open_owner_vk (xk_secret (encryption ks)) (vr_wrapped_vk rec) (vr_vault_id rec) (ks_pub ks)
    (vr_key_epoch rec) = Ok vk /\
  aead_decrypt_compat vk (vr_name_blob rec) (name_aad (vr_vault_id rec) (vr_version rec)) = Ok name.

Lemma opens_to_tenant ks vk name t rec : opens_to ks vk name (set_tenant t rec) <-> opens_to ks vk name rec.
Proof. done. Qed.

Lemma seal_vault_Ok ks vid name vk version tomb e target policy tenant rnd rec :
  keyset_ok ks -> length vk = SYMMETRIC_KEY_LEN -> fresh_vault rnd ->
  seal_vault_record ks vid name vk version tomb e target policy tenant rnd = Ok rec ->
  opens_to ks vk name rec /\
  exists nb w sig,
    rec = mkVaultRecord vid target nb w version tomb sig (ks_pub ks) e policy tenant.
Proof.
  intros Hk Hl Hf. unfold seal_vault_record, build_vault_record_epoch.
  intros (nb & Hnb%map_err_Ok & H)%bind_Ok. apply bind_Ok in H as (info & Hi%map_err_Ok & H).
  apply bind_Ok in H as (w & Hw%map_err_Ok & H).
  apply bind_Ok in H as (sig & Hs%map_err_Ok & [= <-]).
  split; [|by eexists _, _, _]. destruct (signed_by_keyset _ _ _ Hk Hs) as [Hpk Hv].
  destruct Hk as [_ Hx]. split_and!.
  - unfold verify_vault_record.
    cbn [vr_author_pubkey vr_wrapped_vk vr_name_blob vr_vault_id vr_version vr_signature].
    rewrite Hpk. cbn [map_err mbind result_bind]. by rewrite Hv.
  - unfold open_owner_vk. cbn [vr_wrapped_vk vr_vault_id vr_key_epoch]. rewrite Hi.
    cbn [map_err mbind result_bind]. rewrite Hx in Hw. by rewrite (seal_key_opens _ _ _ _ _ Hl Hw).
  - exact (compat_current _ _ _ _ _ Hf Hnb).
Qed.

(** opening a vault record of one's own *)
Lemma open_own ks vid now s rec vk name :
  store_wf s -> get_vault s vid = Some rec -> vr_tombstone rec = false ->
  owner_of s vid (ks_pub ks) = ks_pub ks -> opens_to ks vk name rec ->
  exists e cw, open_vault ks vid now s =
    Ok (mkVault ks vid name vk (vr_version rec) e (ks_pub ks) cw) /\
    e = match latest_membership_epoch s vid with
        | Some latest => N.max (vr_key_epoch rec) latest | None => vr_key_epoch rec end.
Proof.
  intros Hwf Hg Ht Ho (Hv & Hk & Hn). unfold open_vault. rewrite Hg. cbn [ok_or mbind result_bind].
  rewrite Ht, Hv. cbn [mbind result_bind].
  assert (vr_vault_id rec = vid) as Hvid.
  { apply fmap_Some in Hg as (r & Hr & ->). by apply (wf_vaults _ Hwf) in Hr as (? & _). }
  rewrite Hvid in *. fold (owner_of s vid (ks_pub ks)). rewrite Ho. cbv zeta.
  rewrite bytes_eqb_refl. unfold open_as_owner. rewrite Hvid, Hk. cbn [mbind result_bind].
  rewrite Hn. cbn [mbind result_bind]. by eexists _, _.
Qed.

(** putting a vault record and marking it *)
Lemma put_mark_vault_Ok rec s s' :
  (stg (put_vault rec) ≫= fun _ => stg (mark_vault_dirty (vr_vault_id rec))) s = (Ok tt, s') ->
  exists t, s' = set_vaults (<[vr_vault_id rec := mkRow (set_tenant t rec) true]>) s /\
    (vr_sync_tenant rec <> [] -> t = vr_sync_tenant rec).
Proof.
  intros ([] & s1 & H1%stg_Ok & H2%stg_Ok)%M_bind_Ok.
  apply put_vault_Ok in H1 as (_ & _ & _ & t & Ht & ->). injection H2 as <-.
  exists t. split; [|done]. unfold set_vaults. cbn. f_equal.
  erewrite update_where_one; [|apply lookup_insert_eq|apply bytes_eqb_refl
    |intros ? ? ?%bytes_eqb_true; done].
  by rewrite insert_insert_eq.
Qed.

Lemma put_vault_trust rec t d s vid : same_trust vid s (set_vaults (<[rec := mkRow t d]>) s).
Proof. done. Qed.
End sealing.

(** A created vault opens for its creator: the record written under a fresh
    id opens with the creator's keys to the same vault key, name, version and
    epoch and to a handle that may write. Only that row is written, and it waits
    to be pushed; a failed creation writes nothing. *)
Theorem create_then_open `{P : CryptoPrims, !CryptoLaws P} ks vid name target vk rnd s r s' now :
  store_wf s -> keyset_ok ks -> length vk = SYMMETRIC_KEY_LEN -> fresh_vault rnd ->
  vault_is_membership_mode s vid = false ->
  create_with_target ks vid name target vk rnd s = (r, s') ->
  match r with
  | Err _ => s' = s
  | Ok v =>
      open_vault ks vid now s' = Ok v /\ handle_ok s' v /\ epochs_ok s' vid /\
      v_name v = name /\ v_vk v = vk /\ v_version v = 1 /\ v_can_write v = true /\
      exists rec, s' = set_vaults (<[vid := mkRow rec true]>) s /\ vr_sync_target rec = target
  end.
Proof.
  intros Hwf Hk Hl Hf Hm H. destruct r as [v|e].
  - assert (store_wf s') as Hwf' by (eapply (vault_step_kept s s'); [by econstructor|done]).
    unfold create_with_target in H. apply M_bind_Ok in H as (rec & ? & [= Hr <-] & H).
    apply seal_vault_Ok in Hr as (Hopen & nb & w & sig & Heq); [|done..].
    apply M_bind_Ok in H as ([] & s1 & H1 & H). apply M_bind_Ok in H as ([] & s2 & H2 & [= <- <-]).
    assert (exists t, s2 = set_vaults (<[vid := mkRow (set_tenant t rec) true]>) s) as [t Hs2].
    { destruct (put_mark_vault_Ok rec s s2) as (t & Hs2 & _); [|exists t; by rewrite Hs2, Heq].
      apply M_bind_Ok. exists tt, s1. split; [done|by rewrite Heq]. }
    assert (vault_is_membership_mode s2 vid = false) as Hm2.
    { apply single_owner_iff in Hm as (? & Hlat & ?). apply single_owner_iff.
      rewrite (latest_epoch_trust vid s s2) by (by rewrite Hs2). by rewrite Hs2. }
    pose proof Hm2 as (_ & Hlat & _)%single_owner_iff.
    destruct (single_owner _ _ (ks_pub ks) Hm2) as [Ho Hep].
    destruct (open_own ks vid now s2 (set_tenant t rec) vk name) as (e & cw & Hop & He);
      [done|unfold get_vault; by rewrite Hs2; cbn; rewrite lookup_insert_eq|by rewrite Heq|done|done|].
    destruct (open_Ok _ _ _ _ _ Hwf' Hep Hop) as (_ & _ & _ & _ & Hcw).
    rewrite Hlat in He. rewrite Heq in Hop, He. cbn in Hop, He. subst e.
    assert (may_author s2 vid (ks_pub ks) 0 (ks_pub ks)) as Hma
      by (unfold may_author; by rewrite Hm2).
    cbn [v_can_write v_key_epoch v_genesis_owner] in Hcw. apply Hcw in Hma as Hc. subst cw.
    split_and!; try done.
    exists (set_tenant t rec). by rewrite Heq in *.
  - unfold create_with_target in H.
    apply M_bind_run in H as [(rec & ? & [= _ <-] & H)|(? & [= _ <-] & _)]; [|done].
    apply M_bind_run in H as [([] & s1 & H1 & H)|(e0 & (e1 & H1 & _)%stg_Err & _)].
    + exfalso. apply M_bind_run in H as [([] & ? & _ & [=])|(e0 & (e1 & [=] & _)%stg_Err & _)].
    + unfold put_vault in H1. by run_cases H1.
Qed.

Lemma sample_created : exists h, v_version h = 1 /\
  @create_with_target Sample.prims (sample_keyset x01) (lit "w") (lit "name") Local sample_vk
    sample_vrnd sample_shared = (Ok h, sample_new).
Proof. unfold sample_new. apply run_ok. vm_compute. reflexivity. Qed.

Lemma create_then_open_witness : exists h, forall now,
  @open_vault Sample.prims (sample_keyset x01) (lit "w") now sample_new = Ok h /\ v_vk h = sample_vk.
Proof.
  destruct sample_created as (h & _ & E). exists h. intros now.
  destruct (@create_then_open Sample.prims Sample.laws (sample_keyset x01) (lit "w") (lit "name")
    Local sample_vk sample_vrnd sample_shared (Ok h) sample_new now sample_shared_wf
    (sample_keyset_ok x01) ltac:(reflexivity) ltac:(reflexivity) ltac:(vm_compute; reflexivity) E)
    as (H & _ & _ & _ & Hk & _).
  split; [exact H|exact Hk].
Defined.

(** ** Reissuing the items *)

Lemma carries_unique `{P : CryptoPrims} vk r c c' : carries vk r c -> carries vk r c' -> c = c'.
Proof. intros (k & H1 & H2) (k' & H1' & H2'). congruence. Qed.

Section reissue.
Context `{P : CryptoPrims, !CryptoLaws P}.

(** [u] is [r] reissued at epoch [e] under the vault key [vk'] *)
Record reissued (v : Vault) (vk' : bytes) (e : N) (r u : ItemRecord) : Prop := {
  re_key : item_key u = (v_vault_id v, ir_item_id r);
  re_signed : item_signed u;
  re_author : ir_author_pubkey u = own_ed v;
  re_epoch : ir_key_epoch u = e;
  re_version : ir_version u = ir_version r + 1;
  re_type : ir_item_type u = ir_item_type r;
  re_tombstone : ir_tombstone u = ir_tombstone r;
  re_content : ir_tombstone r = false -> exists c, carries (v_vk v) r c /\ carries vk' u c
}.

Lemma unwrap_compat_len kek blob ctx key :
  unwrap_key_compat kek blob ctx = Ok key -> length key = SYMMETRIC_KEY_LEN.
Proof.
  assert (forall p, finish_unwrap p = Ok key -> length key = SYMMETRIC_KEY_LEN) as Hf.
  { intros p. unfold finish_unwrap, symkey_from_slice.
    destruct (Nat.eqb_spec (length p) SYMMETRIC_KEY_LEN); cbn [negb]; [|done]. by intros [= <-]. }
  unfold unwrap_key_compat, unwrap_key, unwrap_key_pre_agility.
  destruct (open_xchacha kek blob _ ≫= _) as [k|] eqn:E.
  - intros [= ->]. apply bind_Ok in E as (p & _ & Hp). by eapply Hf.
  - intros (p & _ & Hp)%map_err_Ok%bind_Ok. by eapply Hf.
Qed.

Definition fresh_rng (rng : nat -> ItemRandom) : Prop := forall n, fresh_item (rng n).

Lemma reanchor_item_Ok v s cur vk' e r rnd u :
  keyset_ok (v_keyset v) -> fresh_item rnd -> ir_vault_id r = v_vault_id v ->
  reanchor_item v s cur vk' e r rnd = Ok u -> reissued v vk' e r u.
Proof.
  intros Hk (_ & Hw & Hn) Hvid. unfold reanchor_item.
  set (body := if ir_tombstone r && _ then _ else _). intros H.
  assert (body = Ok u) as H' by
    (destruct (check_item_record r (v_genesis_owner v)) as [[]|]; try done; exact H).
  clear H. subst body. destruct (ir_tombstone r && _); [done|].
  apply bind_Ok in H' as ([] & _ & H). destruct (ir_tombstone r) eqn:Ht.
  - apply bind_Ok in H as (n & [-> _]%next_version_Ok & H).
    apply bind_Ok in H as (t & (Hs & sig & ->)%tombstone_Ok & [= <-]); [|done].
    split; try done; congruence.
  - unfold rewrap_item in H. apply bind_Ok in H as (key & Hkey & H).
    apply bind_Ok in H as (p & Hp & H). apply bind_Ok in H as (n & [-> _]%next_version_Ok & H).
    apply bind_Ok in H as (blob & Hb%map_err_Ok & H). apply bind_Ok in H as (w & Hwk%map_err_Ok & H).
    apply bind_Ok in H as (sig & Hs%map_err_Ok & [= <-]).
    split; try done; [by eapply signed_item|]. intros _. exists p.
    pose proof (unwrap_compat_len _ _ _ _ Hkey) as Hl. split; exists key.
    + by rewrite Hvid.
    + split; [exact (unwrap_current _ _ _ _ _ Hw Hl Hwk)|exact (compat_current _ _ _ _ _ Hn Hb)].
Qed.

Lemma reanchor_from_Ok v s cur vk' e rng n rs us :
  keyset_ok (v_keyset v) -> fresh_rng rng -> Forall (fun r => ir_vault_id r = v_vault_id v) rs ->
  reanchor_from v s cur vk' e rng n rs = Ok us -> Forall2 (reissued v vk' e) rs us.
Proof.
  intros Hk Hf Hall. revert n us. induction Hall as [|r rs Hr _ IH]; intros n us; cbn.
  - intros [= <-]. constructor.
  - intros (u & Hu & H)%bind_Ok. apply bind_Ok in H as (us' & Hus & [= <-]).
    constructor; [by eapply reanchor_item_Ok|by eapply IH].
Qed.

Lemma elem_of_all_items s vid r :
  store_wf s -> r ∈ list_items_including_tombstones s vid <->
  exists iid, get_item s vid iid = Some r.
Proof.
  intros Hwf. unfold list_items_including_tombstones, query_items, get_item.
  rewrite elem_of_sort_on, list_elem_of_fmap. split.
  - intros (w & -> & ([k1 k2] & Hw & Hp)%elem_of_select_where). cbn in Hp.
    rewrite andb_true_r in Hp. apply bytes_eqb_true in Hp as ->. exists k2. by rewrite Hw.
  - intros (iid & (w & Hw & ->)%fmap_Some). exists w. split; [done|].
    apply elem_of_select_where. exists (vid, iid). split; [done|]. cbn. by rewrite bytes_eqb_refl.
Qed.

Lemma all_items_ids s vid :
  store_wf s -> NoDup (ir_item_id <$> list_items_including_tombstones s vid) /\
  Forall (fun r => ir_vault_id r = vid) (list_items_including_tombstones s vid).
Proof.
  intros Hwf. split.
  - unfold list_items_including_tombstones, query_items. rewrite sort_on_perm.
    unfold select_where. rewrite <-!list_fmap_compose.
    apply NoDup_fmap_2_strong; [|apply list.NoDup_filter, NoDup_map_to_list].
    intros [[k1 k2] a] [[l1 l2] b] [Ha Ha']%list_elem_of_filter [Hb Hb']%list_elem_of_filter.
    apply elem_of_map_to_list in Ha', Hb'. cbn in *. rewrite andb_true_r in *.
    apply bytes_eqb_true in Ha, Hb. subst.
    destruct (wf_items _ Hwf _ _ Ha') as ([= ? ?] & _), (wf_items _ Hwf _ _ Hb') as ([= ? ?] & _).
    intros Heq. assert (k2 = l2) as -> by congruence. rewrite Ha' in Hb'. by injection Hb' as ->.
  - apply list.Forall_forall. intros r (iid & Hr)%elem_of_all_items; [|done].
    by destruct (of_item_of_key _ _ _ _ Hwf Hr) as [_ [= ? ?]].
Qed.

Lemma reanchor_items_Ok v s vk' e rng us :
  store_wf s -> keyset_ok (v_keyset v) -> fresh_rng rng ->
  reanchor_items v s vk' e rng = Ok us ->
  Forall2 (reissued v vk' e) (list_items_including_tombstones s (v_vault_id v)) us.
Proof.
  intros Hwf Hk Hf. unfold reanchor_items. intros (cur & _ & H)%bind_Ok.
  eapply reanchor_from_Ok; [done..|by apply all_items_ids|exact H].
Qed.

(** storing them *)
Lemma put_reissued_Ok v us s s' :
  Forall (fun u => ir_vault_id u = v_vault_id v) us -> NoDup (ir_item_id <$> us) ->
  put_reissued v us s = (Ok tt, s') ->
  s' = set_items (fun _ => items s') s /\
  (forall u, u ∈ us -> exists c t,
     get_item s' (v_vault_id v) (ir_item_id u) = Some (with_times c t u)) /\
  (forall vid iid, vid <> v_vault_id v \/ iid ∉ ir_item_id <$> us ->
     get_item s' vid iid = get_item s vid iid).
Proof.
  intros Hall Hnd. revert s. induction Hall as [|u us Hu Hall IH]; intros s.
  { intros [= <-]. split_and!; [by destruct s|by intros u ?%not_elem_of_nil|done]. }
  apply list.NoDup_cons in Hnd as [Hni Hnd]. unfold put_reissued. cbn [for_each].
  intros ([] & s1 & H1 & H2)%M_bind_Ok. apply (IH Hnd) in H2 as (Hs' & Hin & Hout).
  rewrite <-Hu in H1. apply put_mark_Ok in H1.
  destruct (wrote_item _ _ _ [] [] H1) as [(c & t & Hg) _]. rewrite Hu in Hg. split_and!.
  - rewrite Hs'. by destruct H1 as [(c' & u' & ->) _].
  - intros w [->|Hw]%elem_of_cons; [|by apply Hin]. exists c, t. rewrite <-Hg. apply Hout. by right.
  - intros vid iid Hor. rewrite Hout.
    + apply (wrote_item _ _ _ _ _ H1). unfold item_key. intros [= -> ->].
      destruct Hor as [|Hor]; [done|]. apply Hor. by left.
    + destruct Hor as [?|Hor]; [by left|]. right. intros Hw. apply Hor. by right.
Qed.
End reissue.

(** ** Operations that fail without a trace *)

Definition fails_clean {A} (m : VM A) : Prop := forall s e s', m s = (Err e, s') -> s' = s.

Lemma clean_read {A B} (m : VM A) (f : A -> VM B) :
  preserves eq m -> (forall a, fails_clean (f a)) -> fails_clean (m ≫= f).
Proof.
  intros Hm Hf s e s' [(a & s1 & H1 & H2)|(e0 & H1 & _)]%M_bind_run.
  - apply Hm in H1 as <-. by eapply Hf.
  - by apply Hm in H1.
Qed.

Lemma clean_atomically {A B} (m : VM A) (b : B) : fails_clean (atomically m ≫= fun _ => mret b).
Proof.
  intros s e s' [(a & s1 & _ & [=])|(e0 & H1 & _)]%M_bind_run. by eapply atomically_Err.
Qed.

(** Reads up to one transaction. *)
Ltac clean_ops :=
  repeat first
    [ apply clean_atomically
    | apply clean_read;
      [first [apply preserves_lift, _|apply preserves_query, _|apply preserves_get, _]|intros ?]
    | case_match ].

(** ** A vault moved to a new epoch *)

Section moving.
Context `{P : CryptoPrims, !CryptoLaws P}.

(** [s'] is [s] with the vault of [v] at the new epoch [e] under the key [vk'],
    its items replaced by [us] *)
Record moved (v : Vault) (vk' : bytes) (e : N) (us : list ItemRecord) (s s' : Storage) : Prop := {
  mv_newest : forall e', is_Some (manifest_at s (v_vault_id v) e') -> e' < e;
  mv_manifests : forall e', e' <> e ->
    manifest_at s' (v_vault_id v) e' = manifest_at s (v_vault_id v) e';
  mv_trusted : exists ms, Trusted s' (v_vault_id v) (own_ed v) e ms /\ can_write ms (own_ed v) = true;
  mv_floor : epoch_floor s' !! v_vault_id v = Some e;
  mv_anchor : trust_anchor s' = trust_anchor s;
  mv_vault : exists rec, get_vault s' (v_vault_id v) = Some rec /\ vr_tombstone rec = false /\
    vr_key_epoch rec = e /\ opens_to (v_keyset v) vk' (v_name v) rec;
  mv_in : forall u, u ∈ us ->
    exists c t, get_item s' (v_vault_id v) (ir_item_id u) = Some (with_times c t u);
  mv_out : forall iid, iid ∉ ir_item_id <$> us ->
    get_item s' (v_vault_id v) iid = get_item s (v_vault_id v) iid
}.

Lemma moved_latest v vk' e us s s' :
  moved v vk' e us s s' -> latest_membership_epoch s' (v_vault_id v) = Some e.
Proof.
  intros M. apply latest_epoch_Some. split.
  - destruct (mv_trusted _ _ _ _ _ _ M) as (ms & Ht & _). rewrite manifest_is_Some.
    by eapply trusted_manifest.
  - intros e' Hs. destruct (decide (e' = e)) as [->|Hne]; [done|].
    rewrite manifest_is_Some, (mv_manifests _ _ _ _ _ _ M) in Hs by done.
    apply (mv_newest _ _ _ _ _ _ M) in Hs. lia.
Qed.

Lemma moved_author v vk' e us s s' :
  moved v vk' e us s s' -> may_author s' (v_vault_id v) (own_ed v) e (own_ed v).
Proof.
  intros M. pose proof (moved_latest _ _ _ _ _ _ M) as L. unfold may_author.
  rewrite (membership_mode_latest _ _ _ L), (mv_floor _ _ _ _ _ _ M).
  split_and!; [done|done|apply M].
Qed.

Lemma moved_epochs v vk' e us s s' : moved v vk' e us s s' -> epochs_ok s' (v_vault_id v).
Proof.
  intros M. unfold epochs_ok. rewrite (moved_latest _ _ _ _ _ _ M), (mv_floor _ _ _ _ _ _ M).
  split; [done|]. destruct (mv_vault _ _ _ _ _ _ M) as (rec & Hg & _ & He & _).
  intros r Hr. rewrite Hg in Hr. injection Hr as <-. lia.
Qed.

(** the owner opens it again, under the new key *)
Lemma moved_open v vk' e us s s' now :
  moved v vk' e us s s' -> store_wf s' -> keyset_ok (v_keyset v) ->
  owner_of s (v_vault_id v) (own_ed v) = own_ed v ->
  exists h, open_vault (v_keyset v) (v_vault_id v) now s' = Ok h /\ v_vault_id h = v_vault_id v /\
    v_vk h = vk' /\ v_name h = v_name v /\ v_key_epoch h = e /\ v_genesis_owner h = own_ed v /\
    v_can_write h = true /\ handle_ok s' h.
Proof.
  intros M Hwf Hk Ho. destruct (mv_vault _ _ _ _ _ _ M) as (rec & Hg & Ht & He & Hop).
  destruct (open_own (v_keyset v) (v_vault_id v) now s' rec vk' (v_name v))
    as (e' & cw & Hopen & He'); [done..| |done|].
  { unfold owner_of, get_vault_trust_anchor in *. by rewrite (mv_anchor _ _ _ _ _ _ M). }
  rewrite (moved_latest _ _ _ _ _ _ M), He, N.max_id in He'. subst e'.
  destruct (open_Ok _ _ _ _ _ Hwf (moved_epochs _ _ _ _ _ _ M) Hopen) as (_ & _ & _ & Hl & Hcw).
  cbn [v_vk v_can_write v_key_epoch v_genesis_owner] in *.
  pose proof (moved_author _ _ _ _ _ _ M) as Ha. apply Hcw in Ha as Hc. subst cw.
  eexists. split; [exact Hopen|]. by split_and!.
Qed.

(** [h] reads in [s'] what [v] read in [s], one version up *)
Definition follows (v h : Vault) (s s' : Storage) : Prop :=
  forall iid d, vault_get_item v s iid = Ok d ->
    vault_get_item h s' iid = Ok ((fun d => mkDecrypted iid (di_item_type d) (di_version d + 1)
                                             (di_content d)) <$> d).

Lemma moved_row v vk' e us s s' iid r :
  moved v vk' e us s s' -> store_wf s ->
  Forall2 (reissued v vk' e) (list_items_including_tombstones s (v_vault_id v)) us ->
  get_item s (v_vault_id v) iid = Some r ->
  exists u c t, reissued v vk' e r u /\ get_item s' (v_vault_id v) iid = Some (with_times c t u).
Proof.
  intros M Hwf Hre Hr. assert (r ∈ list_items_including_tombstones s (v_vault_id v)) as Hin
    by (apply elem_of_all_items; eauto).
  apply list_elem_of_lookup in Hin as [i Hi].
  destruct (Forall2_lookup_l _ _ _ _ _ Hre Hi) as (u & Hu & HR).
  destruct (mv_in _ _ _ _ _ _ M u (list_elem_of_lookup_2 _ _ _ Hu)) as (c & t & Hg).
  exists u, c, t. split; [done|]. pose proof (re_key _ _ _ _ _ HR) as [= _ Hid].
  destruct (of_item_of_key _ _ _ _ Hwf Hr) as [_ [= _ Hid']]. by rewrite Hid, Hid' in Hg.
Qed.

Lemma moved_none v vk' e us s s' iid :
  moved v vk' e us s s' -> store_wf s ->
  Forall2 (reissued v vk' e) (list_items_including_tombstones s (v_vault_id v)) us ->
  get_item s (v_vault_id v) iid = None -> get_item s' (v_vault_id v) iid = None.
Proof.
  intros M Hwf Hre Hn. rewrite <-Hn. apply (mv_out _ _ _ _ _ _ M).
  intros (u & Hid & Hin)%list_elem_of_fmap. apply list_elem_of_lookup in Hin as [i Hi].
  destruct (Forall2_lookup_r _ _ _ _ _ Hre Hi) as (r & Hr & HR).
  apply list_elem_of_lookup_2, elem_of_all_items in Hr as (iid' & Hg); [|done].
  pose proof (re_key _ _ _ _ _ HR) as [= _ Hk1].
  destruct (of_item_of_key _ _ _ _ Hwf Hg) as [_ [= _ Hk2]]. congruence.
Qed.

Lemma moved_reads v h vk' e us s s' :
  moved v vk' e us s s' -> store_wf s -> store_wf s' ->
  Forall2 (reissued v vk' e) (list_items_including_tombstones s (v_vault_id v)) us ->
  v_vault_id h = v_vault_id v -> v_vk h = vk' -> v_genesis_owner h = own_ed v ->
  follows v h s s'.
Proof.
  intros M Hwf Hwf' Hre Hv Hk Ho iid d.
  unfold vault_get_item at 1. destruct (get_item s (v_vault_id v) iid) as [r|] eqn:Hr.
  - destruct (moved_row _ _ _ _ _ _ _ _ M Hwf Hre Hr) as (u & c & t & HR & Hg).
    destruct (of_item_of_key _ _ _ _ Hwf Hr) as [_ [= Hrv Hri]].
    destruct (ir_tombstone r) eqn:Ht.
    + intros [= <-]. unfold vault_get_item. rewrite Hv, Hg. cbn. by rewrite (re_tombstone _ _ _ _ _ HR), Ht.
    + intros (d0 & (_ & Hc0 & Hd0)%decrypt_spec & [= <-])%bind_Ok; [|done..].
      destruct (re_content _ _ _ _ _ HR Ht) as (c1 & Hc1 & Hc2).
      rewrite (carries_unique _ _ _ _ Hc1 Hc0) in Hc2.
      pose proof (re_key _ _ _ _ _ HR) as Hku. rewrite Hri in Hku. pose proof Hku as [= Huv _].
      erewrite (read_back h s' iid u c t); [| |by rewrite Hv|by rewrite Hv| | |by rewrite Hk].
      * rewrite (re_type _ _ _ _ _ HR), (re_version _ _ _ _ _ HR), Hd0. done.
      * done.
      * by rewrite (re_tombstone _ _ _ _ _ HR).
      * split; [apply HR|]. rewrite Huv, (re_author _ _ _ _ _ HR), (re_epoch _ _ _ _ _ HR), Ho.
        by eapply moved_author.
  - intros [= <-]. unfold vault_get_item. by rewrite Hv, (moved_none _ _ _ _ _ _ _ M Hwf Hre Hr).
Qed.

End moving.

(** ** The two transactions *)

(** only the membership tables differ *)
Definition only_membership (s s' : Storage) : Prop :=
  items s' = items s /\ vaults s' = vaults s /\ epoch_floor s' = epoch_floor s /\
  trust_anchor s' = trust_anchor s.
#[local] Instance only_membership_preorder : PreOrder only_membership.
Proof.
  split; [by intros s|]. intros a b c (? & ? & ? & ?) (? & ? & ? & ?). split_and!; congruence.
Qed.

Lemma om_manifest m : preserves only_membership (stg (put_membership_manifest m)).
Proof. apply preserves_err_into. unfold put_membership_manifest. intros s r s' H. by run_cases H. Qed.
Lemma om_grant g : preserves only_membership (stg (put_membership_grant g)).
Proof. apply preserves_err_into. unfold put_membership_grant. intros s r s' H. by run_cases H. Qed.
Lemma om_mark v e : preserves only_membership (stg (mark_membership_dirty v e)).
Proof. apply preserves_err_into. unfold mark_membership_dirty. intros s r s' H. by run_cases H. Qed.
#[local] Hint Resolve om_manifest om_grant om_mark : vault.

Lemma om_add_member `{P : CryptoPrims} admin vid e prev owner ms rs vk :
  preserves only_membership (add_member admin vid e prev owner ms rs vk).
Proof. unfold add_member. kept_ops. Qed.

Lemma floor_Ok vid e s s' :
  stg (set_vault_epoch_floor vid e) s = (Ok tt, s') -> s' = set_epoch_floor (<[vid := e]>) s.
Proof.
  intros H%stg_Ok. unfold set_vault_epoch_floor in H. run_cases H.
  rewrite checked_version_Ok in *. by destruct_and?; subst.
Qed.

Lemma mark_vault_Ok vid s s' :
  stg (mark_vault_dirty vid) s = (Ok tt, s') ->
  s' = set_vaults (fun _ => vaults s') s /\ forall v, get_vault s' v = get_vault s v.
Proof.
  intros [= <-]%stg_Ok. split; [done|]. intros v. unfold get_vault. cbn. rewrite lookup_update_where.
  destruct (vaults s !! v) as [r|]; [|done]. cbn. by destruct (bytes_eqb v vid).
Qed.

Lemma manifest_at_upsert m s vid e :
  mm_vault_id m = vid ->
  manifest_at (set_manifests (upsert_row (manifest_key m) m) s) vid e =
  if decide (e = mm_key_epoch m) then Some m else manifest_at s vid e.
Proof.
  intros Hv. unfold manifest_at, upsert_row, manifest_key. cbn. rewrite Hv.
  destruct (decide (e = mm_key_epoch m)) as [->|]; [by rewrite lookup_insert_eq|].
  by rewrite lookup_insert_ne by congruence.
Qed.

Section transactions.
Context `{P : CryptoPrims, !CryptoLaws P}.

Lemma reissued_ids v vk' e rs us :
  Forall2 (reissued v vk' e) rs us ->
  ir_item_id <$> us = ir_item_id <$> rs /\ Forall (fun u => ir_vault_id u = v_vault_id v) us.
Proof.
  induction 1 as [|r u rs us HR _ [IH1 IH2]]; [done|]. pose proof (re_key _ _ _ _ _ HR) as [= Hv Hi].
  cbn. by rewrite Hi, IH1; auto.
Qed.

Lemma latest_bounds s vid owner e ms :
  store_wf s -> latest_membership_epoch s vid = Some e -> verify_chain_to_epoch s vid e owner = Ok ms ->
  1 <= e <= i64_max /\ epoch ms = e /\ base_ok s vid owner (Some ms).
Proof.
  intros Hwf Hl Hc.
  pose proof (latest_epoch_max _ _ _ Hwf Hl) as He.
  assert (1 <= e) as H1.
  { unfold verify_chain_to_epoch in Hc. destruct (N.eqb_spec e 0); [done|lia]. }
  apply chain_is_trusted in Hc as Ht; [|done..]. destruct (trusted_epoch _ _ _ _ _ Ht) as [Hep _].
  cbn. rewrite Hep. split_and!; done.
Qed.

Lemma newest_below s vid e :
  latest_membership_epoch s vid = Some e -> forall e', is_Some (manifest_at s vid e') -> e' < e + 1.
Proof.
  intros [_ Hub]%latest_epoch_Some e' Hs. rewrite <-manifest_is_Some in Hs.
  specialize (Hub _ Hs). lia.
Qed.

(** what both transactions leave in the store: manifest [m], items [us], vault
    record [rec] and the floor at the manifest's epoch *)
Record committed (v : Vault) (m : MembershipManifest) (us : list ItemRecord) (rec : VaultRecord)
    (s s' : Storage) : Prop := {
  cm_epoch : mm_key_epoch m <= i64_max;
  cm_manifests : forall e', manifest_at s' (v_vault_id v) e' =
    if decide (e' = mm_key_epoch m) then Some m else manifest_at s (v_vault_id v) e';
  cm_floor : epoch_floor s' !! v_vault_id v = Some (mm_key_epoch m);
  cm_anchor : trust_anchor s' = trust_anchor s;
  cm_vault : exists t, get_vault s' (v_vault_id v) = Some (set_tenant t rec);
  cm_in : forall u, u ∈ us ->
    exists c t, get_item s' (v_vault_id v) (ir_item_id u) = Some (with_times c t u);
  cm_out : forall iid, iid ∉ ir_item_id <$> us ->
    get_item s' (v_vault_id v) iid = get_item s (v_vault_id v) iid
}.

Lemma committed_moved v m us rec vk' prev new s s' :
  committed v m us rec s s' -> base_ok s (v_vault_id v) (own_ed v) prev ->
  verify_manifest m (v_vault_id v) prev (own_ed v) = Ok new ->
  can_write new (own_ed v) = true ->
  (forall e', is_Some (manifest_at s (v_vault_id v) e') -> e' < mm_key_epoch m) ->
  opens_to (v_keyset v) vk' (v_name v) rec -> vr_tombstone rec = false ->
  vr_key_epoch rec = mm_key_epoch m ->
  moved v vk' (mm_key_epoch m) us s s'.
Proof.
  intros [He Hm Hf Ha (t & Hg) Hin Hout] Hb Hv Hw Hnew Hop Ht Hre. split; try done.
  - intros e' Hne. by rewrite Hm, decide_False.
  - exists new. split; [|done]. by eapply manifest_extends.
  - by exists (set_tenant t rec).
Qed.

Lemma rotation_commits v m built us rec s s' :
  mm_vault_id m = v_vault_id v -> vr_vault_id rec = v_vault_id v ->
  Forall (fun u => ir_vault_id u = v_vault_id v) us -> NoDup (ir_item_id <$> us) ->
  (_ ← stg (put_membership_manifest m);
   _ ← for_each built (fun g => stg (put_membership_grant g));
   _ ← put_reissued v us;
   _ ← stg (put_vault rec);
   _ ← stg (set_vault_epoch_floor (v_vault_id v) (mm_key_epoch m));
   _ ← stg (mark_vault_dirty (v_vault_id v));
   stg (mark_membership_dirty (v_vault_id v) (mm_key_epoch m))) s = (Ok tt, s') ->
  committed v m us rec s s'.
Proof.
  intros Hmv Hrv Hall Hnd ([] & s1 & [Hmax Hs1]%put_membership_manifest_Ok & H)%M_bind_Ok.
  apply M_bind_Ok in H as ([] & s2 & Hgr & H). apply M_bind_Ok in H as ([] & s3 & Hput & H).
  apply M_bind_Ok in H as ([] & s4 & Hv4%stg_Ok & H).
  apply M_bind_Ok in H as ([] & s5 & Hs5%floor_Ok & H).
  apply M_bind_Ok in H as ([] & s6 & [Hs6 Hg6]%mark_vault_Ok & Hmark).
  assert (only_membership s1 s2 /\ manifests s2 = manifests s1) as [(Hi2 & _ & _ & Ha2) Hm2].
  { split.
    - eapply preserves_for_each; [apply _| |exact Hgr]. intros g. apply om_grant.
    - change (same_manifests s1 s2). eapply preserves_for_each; [apply _| |exact Hgr].
      intros g. apply put_membership_grant_manifests. }
  apply put_reissued_Ok in Hput as (Hs3 & Hin & Hout); [|done..].
  apply put_vault_Ok in Hv4 as (_ & _ & _ & t & _ & Hs4). rewrite Hrv in Hs4.
  pose proof (om_mark _ _ _ _ _ Hmark) as (Hi & Hv & Hf & Ha).
  assert (items s6 = items s3) as Hi6 by (by rewrite Hs6, Hs5, Hs4).
  split; [done| | | | | |].
  - intros e'. rewrite (mark_membership_dirty_manifests _ _ _ _ _ _ Hmark), <-manifest_at_upsert by done.
    unfold manifest_at. rewrite Hs6, Hs5, Hs4, Hs3. cbn. by rewrite Hm2, Hs1.
  - rewrite Hf, Hs6, Hs5. cbn. apply lookup_insert_eq.
  - by rewrite Ha, Hs6, Hs5, Hs4, Hs3; cbn; rewrite Ha2, Hs1.
  - exists t. unfold get_vault. rewrite Hv. fold (get_vault s6 (v_vault_id v)).
    rewrite Hg6, Hs5, Hs4. unfold get_vault. cbn. by rewrite lookup_insert_eq.
  - intros u Hu. unfold get_item. rewrite Hi, Hi6. by apply Hin.
  - intros iid Hni. unfold get_item at 1. rewrite Hi, Hi6.
    fold (get_item s3 (v_vault_id v) iid). rewrite Hout by (by right).
    unfold get_item. by rewrite Hi2, Hs1.
Qed.

Lemma establish_commits v admin prev ms recipients rec us vk s new s1 s' m :
  vr_vault_id rec = v_vault_id v ->
  Forall (fun u => ir_vault_id u = v_vault_id v) us -> NoDup (ir_item_id <$> us) ->
  add_member admin (v_vault_id v) (mm_key_epoch m) prev (own_ed v) ms recipients vk s = (Ok new, s1) ->
  build_manifest admin (v_vault_id v) (mm_key_epoch m) ms = Ok m ->
  (_ ← (_ ← stg (put_vault rec); _ ← stg (mark_vault_dirty (v_vault_id v)); put_reissued v us);
   stg (set_vault_epoch_floor (v_vault_id v) (mm_key_epoch m))) s1 = (Ok tt, s') ->
  committed v m us rec s s'.
Proof.
  intros Hrv Hall Hnd Hadd Hm ([] & s4 & H & Hs'%floor_Ok)%M_bind_Ok.
  apply M_bind_Ok in H as ([] & s2 & H1 & H). apply M_bind_Ok in H as ([] & s3 & H2 & Hput).
  destruct (put_mark_vault_Ok rec s1 s3) as (t & Hs3 & _).
  { apply M_bind_Ok. exists tt, s2. by rewrite Hrv. }
  rewrite Hrv in Hs3. apply put_reissued_Ok in Hput as (Hs4 & Hin & Hout); [|done..].
  pose proof (om_add_member _ _ _ _ _ _ _ _ _ _ _ Hadd) as (Hi & Hv & Hf & Ha).
  destruct (add_member_Ok _ _ _ _ _ _ _ _ _ _ _ Hadd) as (m' & Hm' & _ & Hmax & Hat).
  rewrite Hm in Hm'. injection Hm' as <-.
  split; [done| | | | | |].
  - intros e'. rewrite <-Hat. unfold manifest_at. by rewrite Hs', Hs4, Hs3.
  - rewrite Hs'. apply lookup_insert_eq.
  - by rewrite Hs', Hs4, Hs3, <-Ha.
  - exists t. rewrite Hs', Hs4, Hs3. unfold get_vault. cbn. by rewrite lookup_insert_eq.
  - intros u Hu. rewrite Hs'. by apply Hin.
  - intros iid Hni. rewrite Hs'. change (get_item s4 (v_vault_id v) iid = get_item s (v_vault_id v) iid).
    rewrite Hout by (by right). rewrite Hs3. unfold get_item. cbn. by rewrite Hi.
Qed.
Lemma build_manifest_fields admin vid e ms m new prev owner :
  e <= u64_max -> build_manifest admin vid e ms = Ok m -> verify_manifest m vid prev owner = Ok new ->
  mm_vault_id m = vid /\ mm_key_epoch m = e /\ new = mkVerified vid e (sort_members ms).
Proof.
  intros He (p & sg & Hp & _ & ->)%build_manifest_Ok (_ & _ & _ & ms' & Hms & ->)%verify_manifest_Ok.
  cbn in *. split_and!; [done..|]. rewrite (parse_canonical _ _ _ He Hp) in Hms. by injection Hms as ->.
Qed.

Lemma checked_add64_Some a b c : checked_add64 a b = Some c -> c = a + b /\ c <= u64_max.
Proof. unfold checked_add64. destruct (N.leb_spec (a + b) u64_max); [|done]. by intros [= <-]. Qed.

(** what a successful rotation computed and ran *)
Lemma rotate_inv v admin ms gs vk' rnd rng s e v' s' :
  rotate_vk v admin ms gs vk' rnd rng s = (Ok (e, v'), s') ->
  exists e0 prev m new built n vrec rec us,
    latest_membership_epoch s (v_vault_id v) = Some e0 /\
    verify_chain_to_epoch s (v_vault_id v) e0 (own_ed v) = Ok prev /\
    (e = e0 + 1 /\ e <= u64_max) /\ build_manifest admin (v_vault_id v) e ms = Ok m /\
    verify_manifest m (v_vault_id v) (Some prev) (own_ed v) = Ok new /\
    can_write new (own_ed v) = true /\
    traverse (build_verified_grant admin (v_vault_id v) e vk' new) gs = Ok built /\
    seal_vault_record (v_keyset v) (v_vault_id v) (v_name v) vk' n false e (vr_sync_target vrec)
      (vr_cache_policy vrec) (vr_sync_tenant vrec) rnd = Ok rec /\
    reanchor_items v s vk' e rng = Ok us /\
    (_ ← stg (put_membership_manifest m);
     _ ← for_each built (fun g => stg (put_membership_grant g));
     _ ← put_reissued v us;
     _ ← stg (put_vault rec);
     _ ← stg (set_vault_epoch_floor (v_vault_id v) e);
     _ ← stg (mark_vault_dirty (v_vault_id v));
     stg (mark_membership_dirty (v_vault_id v) e)) s = (Ok tt, s').
Proof.
  unfold rotate_vk. intros (? & ? & [= <- <-] & H)%M_bind_Ok.
  apply M_bind_Ok in H as (vrec & ? & [= _ <-] & H).
  apply M_bind_Ok in H as (e0 & ? & [= Hlat%ok_or_Ok <-] & H).
  apply M_bind_Ok in H as (prev & ? & [= Hprev <-] & H).
  apply M_bind_Ok in H as ([] & ? & [= _ <-] & H).
  apply M_bind_Ok in H as (e1 & ? & [= He1%ok_or_Ok%checked_add64_Some <-] & H).
  apply M_bind_Ok in H as ([] & ? & [= _ <-] & H).
  apply M_bind_Ok in H as (m & ? & [= Hm <-] & H).
  apply M_bind_Ok in H as (new & ? & [= Hnew <-] & H).
  apply M_bind_Ok in H as ([] & ? & [= Hcw <-] & H).
  apply M_bind_Ok in H as (built & ? & [= Hb <-] & H).
  apply M_bind_Ok in H as (n & ? & [= _ <-] & H).
  apply M_bind_Ok in H as (rec & ? & [= Hrec <-] & H).
  apply M_bind_Ok in H as (us & ? & [= Hus <-] & H).
  apply M_bind_Ok in H as ([] & sT & H & [= <- _ <-]). rewrite atomically_Ok in H.
  exists e0, prev, m, new, built, n, vrec, rec, us. split_and!; try done; try apply He1.
  by destruct (can_write new (own_ed v)).
Qed.

Lemma rotate_Ok v admin ms gs vk' rnd rng s e v' s' :
  store_wf s -> keyset_ok (v_keyset v) -> length vk' = SYMMETRIC_KEY_LEN -> fresh_vault rnd ->
  fresh_rng rng -> rotate_vk v admin ms gs vk' rnd rng s = (Ok (e, v'), s') ->
  (exists e0, latest_membership_epoch s (v_vault_id v) = Some e0 /\ e = e0 + 1) /\
  Trusted s' (v_vault_id v) (own_ed v) e (mkVerified (v_vault_id v) e (sort_members ms)) /\
  exists us, Forall2 (reissued v vk' e) (list_items_including_tombstones s (v_vault_id v)) us /\
    moved v vk' e us s s'.
Proof.
  intros Hwf Hk Hl Hf Hr (e0 & prev & m & new & built & n & vrec & rec & us & Hlat & Hprev & [He Hmax]
    & Hm & Hnew & Hcw & _ & Hrec & Hus & H)%rotate_inv.
  destruct (build_manifest_fields _ _ _ _ _ _ _ _ Hmax Hm Hnew) as (Hmv & Hme & Hneq).
  apply seal_vault_Ok in Hrec as (Hop & nb & w & sig & Heq); [|done..].
  apply reanchor_items_Ok in Hus; [|done..]. destruct (reissued_ids _ _ _ _ _ Hus) as [Hids Hvids].
  rewrite <-Hme in H. apply rotation_commits in H;
    [|done|by rewrite Heq|done|rewrite Hids; by apply all_items_ids].
  destruct (latest_bounds _ _ _ _ _ Hwf Hlat Hprev) as (_ & _ & Hbase).
  assert (Trusted s' (v_vault_id v) (own_ed v) e new) as Ht.
  { rewrite <-Hme. eapply manifest_extends; [apply H|exact Hbase|done|apply H]. }
  split; [by exists e0|]. split; [by rewrite <-Hneq|]. exists us. split; [done|]. rewrite <-Hme.
  eapply committed_moved; [exact H|exact Hbase|done|done| |done|by rewrite Heq|by rewrite Heq].
  rewrite Hme, He. by apply newest_below.
Qed.

(** the set the new manifest extends, and the epoch it takes *)
Lemma membership_base_Ok v s e prev :
  store_wf s -> membership_base v s (own_ed v) = Ok (e, prev) ->
  e <= u64_max /\ base_ok s (v_vault_id v) (own_ed v) prev /\
  e = match latest_membership_epoch s (v_vault_id v) with Some e0 => e0 + 1 | None => 1 end /\
  (forall e', is_Some (manifest_at s (v_vault_id v) e') -> e' < e).
Proof.
  intros Hwf. unfold membership_base.
  destruct (latest_membership_epoch s (v_vault_id v)) as [e0|] eqn:Hl.
  - intros (w & Hw & H)%bind_Ok. apply bind_Ok in H as (e1 & [-> He]%ok_or_Ok%checked_add64_Some & [= <- <-]).
    split_and!; [done|by apply (latest_bounds _ _ _ _ _ Hwf Hl Hw)|done|by apply newest_below].
  - intros [= <- <-]. split_and!; [done..|]. intros e' Hs.
    rewrite <-manifest_is_Some in Hs. rewrite latest_epoch_None in Hl. rewrite Hl in Hs. by destruct Hs.
Qed.

Lemma establish_Ok v admin ms xs grng rnd rng s e v' s' :
  store_wf s -> keyset_ok (v_keyset v) -> length (v_vk v) = SYMMETRIC_KEY_LEN -> fresh_vault rnd ->
  fresh_rng rng ->
  establish_or_extend_membership v admin ms xs grng rnd rng s = (Ok (e, v'), s') ->
  let new := mkVerified (v_vault_id v) e (sort_members ms) in
  v' = with_epoch e v /\
  e = match latest_membership_epoch s (v_vault_id v) with Some e0 => e0 + 1 | None => 1 end /\
  Trusted s' (v_vault_id v) (own_ed v) e new /\ epoch_floor s' !! v_vault_id v = Some e /\
  (can_write new (own_ed v) = true ->
   exists us, Forall2 (reissued v (v_vk v) e) (list_items_including_tombstones s (v_vault_id v)) us /\
     moved v (v_vk v) e us s s').
Proof.
  intros Hwf Hk Hl Hf Hr H new. unfold establish_or_extend_membership in H.
  apply M_bind_Ok in H as ([e1 prev] & ? & [= Hbase <-] & H).
  apply M_bind_Ok in H as ([] & ? & [= _ <-] & H). apply M_bind_Ok in H as (us & ? & [= Hus <-] & H).
  apply M_bind_Ok in H as ([] & sT & H & [= -> <- <-]). rewrite atomically_Ok in H.
  apply M_bind_Ok in H as (new' & s1 & Hadd & H).
  destruct (membership_base_Ok _ _ _ _ Hwf Hbase) as (Hu & Hb & He & Hnewest).
  destruct (add_member_Ok _ _ _ _ _ _ _ _ _ _ _ Hadd) as (m & Hm & Hv & Hmax & Hat).
  destruct (build_manifest_fields _ _ _ _ _ _ _ _ Hu Hm Hv) as (Hmv & Hme & ->). fold new in Hv, H, Hadd.
  assert (Trusted s1 (v_vault_id v) (own_ed v) e new) as Ht1.
  { rewrite <-Hme. eapply (manifest_extends s); [by rewrite Hme|exact Hb|done|by rewrite Hme]. }
  split; [done|]. split; [done|]. destruct (can_write new (own_ed v)) eqn:Hcw.
  - rewrite <-Hme in H, Hadd, Hm. apply M_bind_Ok in H as ([] & s2 & Hw & Hfl).
    apply M_bind_Ok in Hw as (? & ? & [= <- <-] & Hw). apply M_bind_Ok in Hw as (vrec & ? & [= _ <-] & Hw).
    apply M_bind_Ok in Hw as (n & ? & [= _ <-] & Hw). apply M_bind_Ok in Hw as (rec & ? & [= Hrec <-] & Hw).
    apply seal_vault_Ok in Hrec as (Hop & nb & w & sig & Heq); [|done..].
    apply reanchor_items_Ok in Hus; [|done..]. destruct (reissued_ids _ _ _ _ _ Hus) as [Hids Hvids].
    assert (committed v m us rec s sT) as Hc.
    { eapply establish_commits; [by rewrite Heq|done|rewrite Hids; by apply all_items_ids
        |exact Hadd|exact Hm|]. apply M_bind_Ok. by exists tt, s2. }
    split; [|split].
    + eapply trusted_ext; [|exact Ht1]. intros e' _. rewrite (cm_manifests _ _ _ _ _ _ Hc).
      by rewrite Hat, Hme.
    + rewrite <-Hme. apply Hc.
    + intros _. exists us. split; [done|]. rewrite <-Hme.
      eapply committed_moved; [exact Hc|exact Hb|exact Hv|done|by rewrite Hme|done|by rewrite Heq..].
  - apply M_bind_Ok in H as ([] & ? & [= <-] & Hfl%floor_Ok). split; [|split; [|done]].
    + eapply trusted_ext; [|exact Ht1]. intros e' _. by rewrite Hfl.
    + rewrite Hfl. apply lookup_insert_eq.
Qed.

Lemma rotate_clean v admin ms gs vk' rnd rng : fails_clean (rotate_vk v admin ms gs vk' rnd rng).
Proof. unfold rotate_vk. clean_ops. Qed.
Lemma establish_clean v admin ms xs grng rnd rng :
  fails_clean (establish_or_extend_membership v admin ms xs grng rnd rng).
Proof. unfold establish_or_extend_membership. clean_ops. Qed.
End transactions.

(** ** A shared vault to evaluate on *)

(** vault "w" with its first set: the owner x01 and the viewer x02 *)
Definition sample_rng (n : nat) : ItemRandom := sample_rnd.
Definition sample_xs : list (bytes * bytes) := [(Sample.key32 x02, Sample.key32 x02)].
Definition sample_establish : VM (N * Vault) :=
  @establish_or_extend_membership Sample.prims sample_handle (sample_keyset x01) sample_members
    sample_xs (fun _ => []) sample_vrnd sample_rng.
Definition sample_team : Storage := (sample_establish sample_one).2.
(** the owner pinned, as a member's store has it *)
Definition sample_pinned : Storage :=
  (run_op (OpSetAnchor (lit "w") sample_owner) sample_team).2.
Definition sample_team_handle : @Vault Sample.prims := with_epoch 1 sample_handle.
Definition sample_vk2 : bytes := replicate 32 x0a.
Definition sample_rotate : VM (N * Vault) :=
  @rotate_vk Sample.prims sample_team_handle (sample_keyset x01) sample_members sample_recipients
    sample_vk2 sample_vrnd sample_rng.
Definition sample_rotated : Storage := (sample_rotate sample_pinned).2.

Lemma sample_vrnd_fresh : fresh_vault sample_vrnd.
Proof. reflexivity. Qed.
Lemma sample_rng_fresh : fresh_rng sample_rng.
Proof. intros n. exact sample_rnd_fresh. Qed.

Lemma sample_established :
  exists p, p.1 = 1 /\ sample_establish sample_one = (Ok p, sample_team).
Proof. unfold sample_team. apply run_ok. vm_compute. reflexivity. Qed.

Lemma sample_pinned_wf : store_wf sample_pinned.
Proof.
  assert (store_wf sample_team) as Hwf.
  { apply (@vault_step_kept Sample.prims sample_one); [|exact sample_one_wf].
    destruct sample_established as (p & _ & E). unfold sample_establish in E. by eapply vs_establish. }
  unfold sample_pinned.
  exact (run_op_wf (OpSetAnchor (lit "w") sample_owner) _ _ _ (surjective_pairing _) Hwf).
Qed.
Lemma sample_pinned_handle : @handle_ok Sample.prims sample_pinned sample_team_handle.
Proof.
  split; [apply sample_keyset_ok|reflexivity|]. intros _.
  refine (proj1 (@authority_spec Sample.prims sample_pinned (lit "w") sample_owner 1 sample_owner
    sample_pinned_wf) _). vm_compute. reflexivity.
Qed.
Lemma sample_rotated_Ok :
  exists p, p.1 = 2 /\ sample_rotate sample_pinned = (Ok p, sample_rotated).
Proof. unfold sample_rotated. apply run_ok. vm_compute. reflexivity. Qed.

(** ** Theorems: moving to a new epoch *)

(** C15. Rotating the vault key loses nothing and leaves nothing behind. On
    success the vault is one epoch up, with exactly the remaining members as
    the verified set and the floor raised to that epoch; the owner opens it
    again under the new key as a writer and reads every item it read before,
    with the same content one version up, deletions included. A failed rotation
    changes nothing. *)
Theorem rotation_preserves_contents `{P : CryptoPrims, !CryptoLaws P}
    v admin ms gs vk' rnd rng now s r s' :
  store_wf s -> handle_ok s v -> owner_of s (v_vault_id v) (own_ed v) = own_ed v ->
  length vk' = SYMMETRIC_KEY_LEN -> fresh_vault rnd -> fresh_rng rng ->
  rotate_vk v admin ms gs vk' rnd rng s = (r, s') ->
  match r with
  | Err _ => s' = s
  | Ok (e, _) =>
      (exists e0, latest_membership_epoch s (v_vault_id v) = Some e0 /\ e = e0 + 1) /\
      latest_membership_epoch s' (v_vault_id v) = Some e /\
      epoch_floor s' !! v_vault_id v = Some e /\
      verify_chain_to_epoch s' (v_vault_id v) e (own_ed v)
        = Ok (mkVerified (v_vault_id v) e (sort_members ms)) /\
      exists h, open_vault (v_keyset v) (v_vault_id v) now s' = Ok h /\ v_vk h = vk' /\
        v_can_write h = true /\ handle_ok s' h /\ follows v h s s'
  end.
Proof.
  intros Hwf Hh Ho Hl Hf Hr H. destruct r as [[e v']|err].
  - assert (store_wf s') as Hwf' by (eapply (vault_step_kept s s'); [by econstructor|done]).
    apply rotate_Ok in H as (He & Ht & us & Hus & M); [|done|apply Hh|done..].
    pose proof (moved_latest _ _ _ _ _ _ M) as Hlat. split; [done|].
    split; [done|]. split; [apply M|]. split; [by apply trusted_verifies|].
    destruct (moved_open _ _ _ _ _ _ now M Hwf' (ho_keyset _ _ Hh) Ho)
      as (h & Hop & Hv & Hk & _ & _ & Hg & Hw & Hh').
    exists h. split_and!; [done..|]. by eapply moved_reads.
  - by eapply rotate_clean.
Qed.

Lemma rotation_preserves_contents_witness : exists h,
  @open_vault Sample.prims (sample_keyset x01) (lit "w") 5 sample_rotated = Ok h /\
  v_vk h = sample_vk2 /\
  vault_get_item h sample_rotated (lit "i") = Ok (Some (mkDecrypted (lit "i") 4 3 (lit "secret"))).
Proof.
  destruct sample_rotated_Ok as ([e v'] & _ & E).
  destruct (@rotation_preserves_contents Sample.prims Sample.laws sample_team_handle
    (sample_keyset x01) sample_members sample_recipients sample_vk2 sample_vrnd sample_rng 5
    sample_pinned (Ok (e, v')) sample_rotated sample_pinned_wf sample_pinned_handle
    ltac:(vm_compute; reflexivity) ltac:(reflexivity) sample_vrnd_fresh sample_rng_fresh E)
    as (_ & _ & _ & _ & h & Ho & Hk & _ & _ & H).
  exists h. split; [exact Ho|]. split; [exact Hk|].
  apply (H (lit "i") (Some (mkDecrypted (lit "i") 4 2 (lit "secret")))). vm_compute. reflexivity.
Defined.

(** Changing the membership loses nothing: on success the new set is the
    verified set of the next epoch (epoch 1 for a first set) and the floor is
    raised to it, and as long as the owner stays a writer, the handle it is
    left with reads every item it read before with the same content one
    version up, and may still write. A failed change leaves no trace. *)
Theorem membership_change_preserves_contents `{P : CryptoPrims, !CryptoLaws P}
    v admin ms xs grng rnd rng s r s' :
  store_wf s -> handle_ok s v -> v_genesis_owner v = own_ed v -> fresh_vault rnd -> fresh_rng rng ->
  establish_or_extend_membership v admin ms xs grng rnd rng s = (r, s') ->
  match r with
  | Err _ => s' = s
  | Ok (e, v') =>
      let new := mkVerified (v_vault_id v) e (sort_members ms) in
      e = match latest_membership_epoch s (v_vault_id v) with Some e0 => e0 + 1 | None => 1 end /\
      verify_chain_to_epoch s' (v_vault_id v) e (own_ed v) = Ok new /\
      epoch_floor s' !! v_vault_id v = Some e /\
      (can_write new (own_ed v) = true ->
       handle_ok s' v' /\ follows v v' s s' /\
       may_author s' (v_vault_id v) (own_ed v) e (own_ed v))
  end.
Proof.
  intros Hwf Hh Ho Hf Hr H. destruct r as [[e v']|err]; [|by eapply establish_clean].
  assert (store_wf s') as Hwf' by (eapply (vault_step_kept s s'); [by econstructor|done]).
  apply establish_Ok in H as (-> & He & Ht & Hfl & Hmv); [|done|apply Hh..|done|done].
  cbv zeta. split_and!; [done|by apply trusted_verifies|done|].
  intros Hcw. destruct (Hmv Hcw) as (us & Hus & M). pose proof (moved_author _ _ _ _ _ _ M) as Ha.
  split_and!; [|by eapply moved_reads|done].
  split; [apply Hh..|]. intros _. cbn. by rewrite Ho.
Qed.

Lemma membership_change_preserves_contents_witness : exists h,
  sample_establish sample_one = (Ok (1, h), sample_team) /\
  @vault_get_item Sample.prims h sample_team (lit "i")
    = Ok (Some (mkDecrypted (lit "i") 4 2 (lit "secret"))).
Proof.
  destruct sample_established as ([e h] & [= ->] & E). exists h. split; [exact E|].
  destruct (@membership_change_preserves_contents Sample.prims Sample.laws sample_handle
    (sample_keyset x01) sample_members sample_xs (fun _ => []) sample_vrnd sample_rng sample_one
    (Ok (1, h)) sample_team sample_one_wf sample_one_handle ltac:(reflexivity) sample_vrnd_fresh
    sample_rng_fresh E) as (_ & _ & _ & H).
  destruct H as (_ & H & _); [vm_compute; reflexivity|].
  apply (H (lit "i") (Some (mkDecrypted (lit "i") 4 1 (lit "secret")))). vm_compute. reflexivity.
Defined.
