(* ===== verification/VaultAccess.v ===== *)
(** * Theorems about who can use a vault

    Opening as a member, the write role a handle reports, the guards of the
    operations, who a rotation reaches and who it locks out, the integrity
    report, and the store under any sequence of calls. *)

From Stdlib Require Import Strings.Byte NArith ZArith Lia.
From stdpp Require Import base gmap sets list strings sorting countable.
From S2P Require Import Prelude Bytes CryptoPrims Crypto Storage StorageInv Keychain.
From S2P Require Import Membership MembershipThy Authority VaultOps VaultThy VaultEpochs.

Local Open Scope N_scope.

(** ** Grants in the store *)

Definition grant_at (s : Storage) (vid member : bytes) (e : N) : option MembershipGrant :=
  row <$> grants s !! (vid, member, e).

Lemma elem_of_grants s vid e gs g :
  list_membership_grants s vid e = Ok gs ->
  g ∈ gs <-> exists member, grant_at s vid member e = Some g.
Proof.
  unfold list_membership_grants. intros (e' & He & [= <-])%bind_Ok.
  apply checked_version_Ok in He as [-> _]. rewrite elem_of_sort_on, list_elem_of_fmap.
  unfold grant_at. split.
  - intros (w & -> & ([[k1 k2] k3] & Hw & Hp)%elem_of_select_where). cbn in Hp.
    apply andb_true_iff in Hp as [->%bytes_eqb_true ->%N.eqb_eq]. exists k2. by rewrite Hw.
  - intros (member & (w & Hw & ->)%fmap_Some). exists w. split; [done|].
    apply elem_of_select_where. exists (vid, member, e). split; [done|].
    cbn. by rewrite bytes_eqb_refl, N.eqb_refl.
Qed.

Lemma grant_at_key s vid member e g :
  store_wf s -> grant_at s vid member e = Some g -> grant_key g = (vid, member, e).
Proof.
  intros Hwf (w & Hw & ->)%fmap_Some. by destruct (wf_grants _ Hwf _ _ Hw) as [? _].
Qed.

Section access.
Context `{P : CryptoPrims}.

Lemma verify_grant_Ok g vid ms :
  verify_grant g vid ms = Ok tt ->
  mg_vault_id g = vid /\ mg_key_epoch g = epoch ms /\ is_admin ms (mg_author_pubkey g) = true /\
  role_of ms (mg_member_pubkey g) = Some (mg_role g).
Proof.
  unfold verify_grant.
  destruct (bytes_eqb (mg_vault_id g) vid) eqn:Hv; [|done]. cbn [negb].
  destruct (mg_key_epoch g =? epoch ms) eqn:He; [|done]. cbn [negb].
  intros (pk & _ & H)%bind_Ok. apply bind_Ok in H as ([] & _ & H).
  destruct (is_admin ms (mg_author_pubkey g)) eqn:Ha; [|done]. cbn [negb] in H.
  apply bind_Ok in H as (role & Hr%ok_or_Ok & H).
  case_bool_decide as Heq; [|done]. subst role.
  apply bytes_eqb_true in Hv. apply N.eqb_eq in He. done.
Qed.

Lemma own_grant_Ok f gs vid ms ks now vk role :
  open_own_grant_loop f gs vid ms ks now = Ok (vk, role) ->
  exists g, g ∈ gs /\ mg_member_pubkey g = ks_pub ks /\ verify_grant g vid ms = Ok tt /\
    open_grant g vid (xk_secret (encryption ks)) (ks_pub ks) (epoch ms) now = Ok vk.
Proof.
  revert f. induction gs as [|g gs IH]; intros f; [done|]. cbn [open_own_grant_loop].
  destruct (bytes_eqb (mg_member_pubkey g) (ks_pub ks)) eqn:Hm; cbn [negb];
    [destruct (verify_grant g vid ms ≫= _) as [k|e] eqn:Hg|].
  - intros [= -> _]. apply bind_Ok in Hg as ([] & Hv & Ho). apply bytes_eqb_true in Hm.
    exists g. split; [by left|done].
  - intros (g' & Hin & H)%IH. exists g'. split; [by right|exact H].
  - intros (g' & Hin & H)%IH. exists g'. split; [by right|exact H].
Qed.

Lemma own_grant_found f gs vid ms ks now vk g :
  g ∈ gs -> mg_member_pubkey g = ks_pub ks -> verify_grant g vid ms = Ok tt ->
  open_grant g vid (xk_secret (encryption ks)) (ks_pub ks) (epoch ms) now = Ok vk ->
  (forall g', g' ∈ gs -> mg_member_pubkey g' = ks_pub ks -> g' = g) ->
  open_own_grant_loop f gs vid ms ks now = Ok (vk, mg_role g).
Proof.
  intros Hin Hm Hv Ho Hu. induction gs as [|g' gs IH]; [by apply not_elem_of_nil in Hin|].
  cbn [open_own_grant_loop].
  destruct (bytes_eqb (mg_member_pubkey g') (ks_pub ks)) eqn:Hm'; cbn [negb].
  - apply bytes_eqb_true in Hm'. rewrite (Hu g') by (done || by left).
    rewrite Hv. cbn [mbind result_bind]. by rewrite Ho.
  - apply elem_of_cons in Hin as [->|Hin]; [by rewrite Hm, bytes_eqb_refl in Hm'|].
    apply IH; [done|]. intros g0 H0. apply Hu. by right.
Qed.
End access.

(** ** Theorems: opening *)

(** Nobody but the owner opens a vault without standing in its membership.
    A handle obtained by an account other than the pinned owner comes from its
    own grant at the latest epoch: the chain from the owner to that epoch
    verifies, lists the account with the grant's role, and lists the grant's
    author as an admin; the vault key is the one sealed in that grant. An
    account removed from the latest set is refused. *)
Theorem open_needs_grant `{P : CryptoPrims} ks vid now s v :
  store_wf s -> owner_of s vid (ks_pub ks) <> ks_pub ks -> open_vault ks vid now s = Ok v ->
  exists e ms g,
    latest_membership_epoch s vid = Some e /\ Trusted s vid (owner_of s vid (ks_pub ks)) e ms /\
    grant_at s vid (ks_pub ks) e = Some g /\ role_of ms (ks_pub ks) = Some (mg_role g) /\
    is_admin ms (mg_author_pubkey g) = true /\
    open_grant g vid (xk_secret (encryption ks)) (ks_pub ks) e now = Ok (v_vk v) /\
    v_can_write v = can_write ms (ks_pub ks).
Proof.
  intros Hwf Ho. unfold open_vault. intros (rec & Hrec%ok_or_Ok & H)%bind_Ok.
  assert (vr_vault_id rec = vid) as Hvid.
  { apply fmap_Some in Hrec as (r & Hr & ->). by apply (wf_vaults _ Hwf) in Hr as (? & _). }
  destruct (vr_tombstone rec); [done|]. apply bind_Ok in H as (_ & _ & H).
  rewrite Hvid in H. fold (owner_of s vid (ks_pub ks)) in H. cbv zeta in H.
  rewrite (proj2 (bytes_eqb_false _ _)) in H by done.
  apply bind_Ok in H as ([vk cw] & Hvk & H). apply bind_Ok in H as (name & _ & [= <-]).
  cbn [v_vk v_can_write]. unfold open_as_member in Hvk. rewrite Hvid in Hvk.
  set (e := default (vr_key_epoch rec) (latest_membership_epoch s vid)) in *.
  apply bind_Ok in Hvk as (ms & Hc & Hvk). apply bind_Ok in Hvk as (gs & Hgs%map_err_Ok & Hvk).
  apply bind_Ok in Hvk as ([k role] & Hk & [= -> <-]).
  assert (e <= i64_max) as Hmax.
  { unfold list_membership_grants in Hgs. apply bind_Ok in Hgs as (? & [_ ?]%checked_version_Ok & _). done. }
  assert (1 <= e) as H1.
  { unfold verify_chain_to_epoch in Hc. destruct (N.eqb_spec e 0); [done|lia]. }
  apply chain_is_trusted in Hc; [|done..].
  destruct (own_grant_Ok _ _ _ _ _ _ _ _ Hk) as (g & Hin & Hm & (_ & _ & Ha & Hrole)%verify_grant_Ok & Hopen).
  apply (elem_of_grants _ _ _ _ _ Hgs) in Hin as (member & Hg).
  pose proof (grant_at_key _ _ _ _ _ Hwf Hg) as [= Hgv Hgm Hge]. rewrite Hm in Hgm, Hrole. subst member.
  exists e, ms, g. destruct (trusted_epoch _ _ _ _ _ Hc) as [Hep _]. rewrite Hep in Hopen.
  split_and!; try done. subst e. destruct (latest_membership_epoch s vid) as [e0|] eqn:Hl; [done|].
  exfalso. rewrite latest_epoch_None in Hl. apply trusted_manifest in Hc.
  rewrite <-manifest_is_Some, Hl in Hc. by destruct Hc.
Qed.

Lemma sample_opened : exists h,
  @open_vault Sample.prims (sample_keyset x02) (lit "w") 5 sample_pinned = Ok h.
Proof.
  destruct (@open_vault Sample.prims (sample_keyset x02) (lit "w") 5 sample_pinned) as [h|e] eqn:E.
  - exists h. reflexivity.
  - exfalso. apply (f_equal is_ok) in E. revert E. vm_compute. discriminate.
Qed.

Lemma open_needs_grant_witness : exists ms,
  @Trusted Sample.prims sample_pinned (lit "w") sample_owner 1 ms /\
  role_of ms (Sample.key32 x02) = Some Viewer.
Proof.
  destruct sample_opened as [h Ho].
  destruct (@open_needs_grant Sample.prims (sample_keyset x02) (lit "w") 5 sample_pinned h
    sample_pinned_wf ltac:(vm_compute; discriminate) Ho) as (e & ms & g & Hl & Ht & Hg & Hr & _).
  assert (e = 1) as -> by (revert Hl; vm_compute; congruence).
  assert (owner_of sample_pinned (lit "w") (@ks_pub Sample.prims (sample_keyset x02)) = sample_owner)
    as Hown by (vm_compute; reflexivity).
  rewrite Hown in Ht. exists ms. split; [exact Ht|]. transitivity (Some (mg_role g)); [exact Hr|].
  f_equal. revert Hg. vm_compute. intros [= <-]. reflexivity.
Defined.

(** C39. The write role a handle reports is the truth about the store: an opened
    handle belongs to the caller and the pinned owner, holds a full-length
    vault key, and says it may write exactly when the records it would sign
    are accepted by every reader of this store. *)
Theorem open_reports_role `{P : CryptoPrims} ks vid now s v :
  store_wf s -> epochs_ok s vid -> keyset_ok ks -> open_vault ks vid now s = Ok v ->
  handle_ok s v /\ own_ed v = ks_pub ks /\ v_vault_id v = vid /\
  v_genesis_owner v = owner_of s vid (ks_pub ks) /\
  (v_can_write v = true <->
   verify_record_authority s vid (own_ed v) (v_key_epoch v) (v_genesis_owner v) = Ok tt).
Proof.
  intros Hwf Hep Hk H. destruct (open_Ok _ _ _ _ _ Hwf Hep H) as (Hks & Hv & Hg & Hl & Hcw).
  assert (own_ed v = ks_pub ks) as Hown by (unfold own_ed; by rewrite Hks).
  rewrite (authority_spec _ _ _ _ _ Hwf), Hown. split_and!; try done.
  split; [by rewrite Hks|done|]. intros Hw. rewrite Hv, Hown. by apply Hcw.
Qed.

Lemma open_reports_role_witness : exists h,
  @open_vault Sample.prims (sample_keyset x02) (lit "w") 5 sample_pinned = Ok h /\
  handle_ok sample_pinned h.
Proof.
  destruct sample_opened as [h Ho]. exists h. split; [exact Ho|].
  refine (proj1 (@open_reports_role Sample.prims (sample_keyset x02) (lit "w") 5 sample_pinned h
    sample_pinned_wf _ (sample_keyset_ok x02) Ho)).
  vm_compute. split; [discriminate|]. intros r [= <-]. discriminate.
Defined.

(** ** Theorems: guards *)

(** C40. Roles are enforced before anything is touched: a handle without the
    write role cannot put, replace, delete or rename an item, and a handle that
    is not the owner's cannot rename the vault, change its cache policy or
    delete it. Each is refused with its own error and the store is unchanged,
    whatever the arguments. *)
Theorem roles_enforced `{P : CryptoPrims} v s :
  (v_can_write v = false ->
     (forall i ty c rnd, vault_put_item v i ty c rnd s = (Err ReadOnly, s)) /\
     (forall i ty c rnd, put_item_keep_history v i ty c rnd s = (Err ReadOnly, s)) /\
     (forall i, delete_item v i s = (Err ReadOnly, s)) /\
     (forall i j rnd, i <> j -> rename_item v i j rnd s = (Err ReadOnly, s))) /\
  (own_ed v <> v_genesis_owner v ->
     (forall name rnd, set_name v name rnd s = (Err AuthorityInvalid, s)) /\
     (forall p rnd, set_cache_policy v p rnd s = (Err AuthorityInvalid, s)) /\
     (forall rnd, vault_delete v rnd s = (Err AuthorityInvalid, s))).
Proof.
  split.
  - intros Hw. assert (require_writer v = Err ReadOnly) as Hg by (unfold require_writer; by rewrite Hw).
    unfold vault_put_item, put_item_keep_history, delete_item, rename_item.
    split_and!; intros; rewrite ?(proj2 (bytes_eqb_false _ _)) by done; by rewrite Hg.
  - intros Ho. assert (require_owner v = Err AuthorityInvalid) as Hg.
    { unfold require_owner. by rewrite (proj2 (bytes_eqb_false _ _)). }
    unfold set_name, set_cache_policy, vault_delete.
    split_and!; intros; by rewrite Hg.
Qed.

Lemma roles_enforced_witness :
  let viewer := @mkVault Sample.prims (sample_keyset x02) (lit "w") (lit "name") sample_vk 1 1
                  sample_owner false in
  delete_item viewer (lit "i") sample_pinned = (Err ReadOnly, sample_pinned) /\
  vault_delete viewer sample_vrnd sample_pinned = (Err AuthorityInvalid, sample_pinned).
Proof.
  intros viewer.
  destruct (@roles_enforced Sample.prims viewer sample_pinned) as [H1 H2].
  split; [apply H1; reflexivity|apply H2; vm_compute; discriminate].
Defined.

(** ** The integrity report *)

Section report.
Context `{P : CryptoPrims}.

(** every stored version of every item of the vault, deletions included *)
Definition stored_items (v : Vault) (s : Storage) : list ItemRecord :=
  list_items_including_tombstones s (v_vault_id v) ++ list_all_history s (v_vault_id v).

Definition vault_trusted (s : Storage) (owner : bytes) (r : VaultRecord) : Prop :=
  vault_signed r /\ may_author s (vr_vault_id r) (vr_author_pubkey r) (vr_key_epoch r) owner.

Lemma stored_items_vault v s r : store_wf s -> r ∈ stored_items v s -> ir_vault_id r = v_vault_id v.
Proof.
  intros Hwf [(iid & Hr)%elem_of_all_items|Hr]%elem_of_app; [|done|].
  - by destruct (of_item_of_key _ _ _ _ Hwf Hr) as [_ [= ? ?]].
  - unfold list_all_history in Hr. apply elem_of_stable_sort, list_elem_of_filter in Hr as [Hr _].
    by apply bytes_eqb_true.
Qed.

Lemma check_authority_None s vid author e owner :
  store_wf s -> check_record_authority s vid author e owner = None <-> may_author s vid author e owner.
Proof.
  intros Hwf. rewrite <-(authority_spec _ _ _ _ _ Hwf). unfold check_record_authority.
  destruct (vault_is_membership_mode s vid) eqn:Hm.
  - destruct (verify_record_authority _ _ _ _ _) as [[]|]; done.
  - unfold verify_record_authority. rewrite Hm. cbn [negb]. by destruct (bytes_eqb author owner).
Qed.

Lemma record_failure_None s v sig author e :
  store_wf s -> record_failure s v sig author e = None <->
  sig = None /\ may_author s (v_vault_id v) author e (v_genesis_owner v).
Proof.
  intros Hwf. unfold record_failure. rewrite <-check_authority_None by done.
  destruct sig; [split; [done|by intros [? _]]|]. split; [done|by intros [_ ?]].
Qed.

Lemma audit_item_spec s v r iid n t f :
  store_wf s -> ir_vault_id r = v_vault_id v ->
  (item_trusted s (v_genesis_owner v) r <-> audit_item s v r = []) /\
  (mkIssue iid n t f ∈ audit_item s v r ->
   iid = ir_item_id r /\ n = ir_version r /\ t = ir_tombstone r).
Proof.
  intros Hwf Hvid. unfold audit_item, item_trusted. rewrite <-item_sig_failure_None, Hvid.
  rewrite <-(record_failure_None s v _ _ _ Hwf).
  destruct (record_failure s v _ _ _) as [f0|]; split; [done| |done|by intros ?%not_elem_of_nil].
  intros [= -> -> -> _]%list_elem_of_singleton. done.
Qed.

Lemma audit_vault_spec s v r iid n t f :
  store_wf s -> vr_vault_id r = v_vault_id v ->
  (vault_trusted s (v_genesis_owner v) r <-> audit_vault_record s v r = []) /\
  (mkIssue iid n t f ∈ audit_vault_record s v r ->
   iid = [] /\ n = vr_version r /\ t = vr_tombstone r).
Proof.
  intros Hwf Hvid. unfold audit_vault_record, vault_trusted. rewrite <-vault_sig_failure_None, Hvid.
  rewrite <-(record_failure_None s v _ _ _ Hwf).
  destruct (record_failure s v _ _ _) as [f0|]; split; [done| |done|by intros ?%not_elem_of_nil].
  intros [= -> -> -> _]%list_elem_of_singleton. done.
Qed.

Lemma bind_nil {A B} (f : A -> list B) l : l ≫= f = [] <-> forall x, x ∈ l -> f x = [].
Proof.
  induction l as [|a l IH]; cbn; [split; [by intros _ x ?%not_elem_of_nil|done]|].
  rewrite app_nil, IH. split.
  - intros [Ha Hl] x [->|Hx]%elem_of_cons; auto.
  - intros H. split; [apply H; by left|]. intros x Hx. apply H. by right.
Qed.
End report.

(** The integrity report is exact: it is clean precisely when the vault
    record and every stored version of every item, archived versions and
    deletions included, carry a valid signature of an author who may write this
    vault; and every issue it lists names the id, version and deletion mark of
    a record for which that fails. *)
Theorem integrity_report_exact `{P : CryptoPrims} v s :
  store_wf s ->
  let rep := vault_verify_chain v s in
  (ir_ok rep = true <->
   (forall r, get_vault s (v_vault_id v) = Some r -> vault_trusted s (v_genesis_owner v) r) /\
   (forall r, r ∈ stored_items v s -> item_trusted s (v_genesis_owner v) r)) /\
  (forall iid n t f, mkIssue iid n t f ∈ ir_issues rep ->
   (exists r, get_vault s (v_vault_id v) = Some r /\ iid = [] /\ n = vr_version r /\
      t = vr_tombstone r /\ ~ vault_trusted s (v_genesis_owner v) r) \/
   (exists r, r ∈ stored_items v s /\ iid = ir_item_id r /\ n = ir_version r /\
      t = ir_tombstone r /\ ~ item_trusted s (v_genesis_owner v) r)).
Proof.
  intros Hwf rep. subst rep. unfold vault_verify_chain. cbn [ir_ok ir_issues].
  fold (stored_items v s).
  assert (forall r, r ∈ option_list (get_vault s (v_vault_id v)) <-> get_vault s (v_vault_id v) = Some r)
    as Hopt.
  { intros r. destruct (get_vault _ _); cbn; [rewrite list_elem_of_singleton|rewrite elem_of_nil];
      split; [by intros ->|by intros [=]|done|done]. }
  assert (forall r, get_vault s (v_vault_id v) = Some r -> vr_vault_id r = v_vault_id v) as Hvr.
  { intros r (r0 & Hr & ->)%fmap_Some. by apply (wf_vaults _ Hwf) in Hr as (? & _). }
  split.
  - rewrite Nat.eqb_eq, length_zero_iff_nil, app_nil, !bind_nil. f_equiv.
    + split; intros H r Hr; [apply Hopt in Hr as Hr'|apply Hopt in Hr];
        apply (audit_vault_spec s v r [] 0 false IFMalformed Hwf); auto.
    + split; intros H r Hr; apply (audit_item_spec s v r [] 0 false IFMalformed Hwf);
        eauto using stored_items_vault.
  - intros iid n t f [(r & Hi & Hr%Hopt)%list_elem_of_bind|(r & Hi & Hr)%list_elem_of_bind]%elem_of_app.
    + left. exists r. destruct (audit_vault_spec s v r iid n t f Hwf (Hvr _ Hr)) as [Ht Hn].
      destruct (Hn Hi) as (-> & -> & ->). split_and!; try done. rewrite Ht.
      intros He. rewrite He in Hi. by apply not_elem_of_nil in Hi.
    + right. exists r. destruct (audit_item_spec s v r iid n t f Hwf) as [Ht Hn];
        [by eapply stored_items_vault|].
      destruct (Hn Hi) as (-> & -> & ->). split_and!; try done. rewrite Ht.
      intros He. rewrite He in Hi. by apply not_elem_of_nil in Hi.
Qed.

Lemma integrity_report_exact_witness : exists r,
  get_item sample_pinned (lit "w") (lit "i") = Some r /\
  @item_trusted Sample.prims sample_pinned sample_owner r.
Proof.
  destruct (@integrity_report_exact Sample.prims sample_team_handle sample_pinned sample_pinned_wf)
    as [[H _] _].
  destruct (H ltac:(vm_compute; reflexivity)) as [_ Hi]. clear H.
  assert (is_Some (get_item sample_pinned (lit "w") (lit "i"))) as [r Hr]
    by (vm_compute; eexists; reflexivity).
  exists r. split; [exact Hr|]. apply Hi, elem_of_app. left.
  apply (elem_of_all_items sample_pinned (lit "w") r sample_pinned_wf). exists (lit "i"). exact Hr.
Defined.

(** An archived version keeps the epoch it was written at, and no membership
    change reissues it. So the first one after a replaced secret makes the report
    fault a vault nobody tampered with: clean before, and afterwards one issue,
    the archived version. *)
Lemma archive_fails_audit_after_membership_change :
  let s := (put_item_keep_history sample_handle (lit "i") 4 (lit "changed") sample_rnd sample_one).2 in
  let s' := (sample_establish s).2 in
  is_ok (sample_establish s).1 = true /\
  ir_ok (vault_verify_chain sample_handle s) = true /\
  ir_issues (vault_verify_chain sample_team_handle s') = [mkIssue (lit "i") 1 false IFNotAuthorized].
Proof. vm_compute. repeat split. Qed.

(** ** Any sequence of calls *)

(** Whatever handles do, in any order and whether or not each call succeeds,
    the store stays well formed, and no vault or item record is replaced by an
    older version. *)
Theorem vault_calls_keep_store `{P : CryptoPrims} s s' :
  rtc vault_step s s' -> store_wf s -> store_wf s' /\ versions_grow s s'.
Proof.
  intros H Hwf. assert (kept s s') as [Hk Hg].
  { induction H as [|s s1 s' H1 _ IH]; [reflexivity|].
    pose proof (vault_step_kept _ _ H1) as Hk. etrans; [exact Hk|]. by apply IH, Hk. }
  split; [by apply Hk|done].
Qed.

Lemma vault_calls_keep_store_witness :
  store_wf sample_one /\ versions_grow sample_shared sample_one.
Proof.
  apply (@vault_calls_keep_store Sample.prims sample_shared sample_one);
    [|exact sample_shared_wf].
  destruct sample_created as (h & _ & E).
  eapply rtc_l; [eapply vs_create; exact E|].
  eapply rtc_l; [eapply vs_put; exact sample_put|apply rtc_refl].
Defined.

(** ** Who a rotation reaches *)

Section reach.
Context `{P : CryptoPrims, !CryptoLaws P}.

Lemma put_grants_frame gs s s' :
  for_each gs (fun g => stg (put_membership_grant g)) s = (Ok tt, s') ->
  forall vid member e, (vid, member, e) ∉ grant_key <$> gs ->
    grant_at s' vid member e = grant_at s vid member e.
Proof.
  revert s. induction gs as [|g gs IH]; intros s; cbn [for_each]; [by intros [= <-]|].
  intros ([] & s1 & H1%stg_Ok & H2)%M_bind_Ok vid member e.
  rewrite fmap_cons, not_elem_of_cons. intros [Hne Hni]. rewrite (IH _ H2) by done.
  unfold put_membership_grant in H1. run_cases H1. unfold grant_at, upsert_row. cbn.
  by rewrite lookup_insert_ne.
Qed.

Lemma put_grants_at gs s s' :
  NoDup (grant_key <$> gs) -> for_each gs (fun g => stg (put_membership_grant g)) s = (Ok tt, s') ->
  forall g, g ∈ gs -> grant_at s' (mg_vault_id g) (mg_member_pubkey g) (mg_key_epoch g) = Some g.
Proof.
  intros Hnd. revert s. induction gs as [|g gs IH]; intros s; cbn [for_each];
    [by intros _ g ?%not_elem_of_nil|].
  rewrite fmap_cons in Hnd. apply list.NoDup_cons in Hnd as [Hni Hnd].
  intros ([] & s1 & H1%stg_Ok & H2)%M_bind_Ok g' [->|Hin]%elem_of_cons; [|by eapply IH].
  rewrite (put_grants_frame _ _ _ H2) by done.
  unfold put_membership_grant in H1. run_cases H1. unfold grant_at, upsert_row. cbn.
  unfold grant_key. by rewrite lookup_insert_eq.
Qed.

Lemma mark_membership_grants vid e s s' :
  stg (mark_membership_dirty vid e) s = (Ok tt, s') ->
  forall vid' member e', grant_at s' vid' member e' = grant_at s vid' member e'.
Proof.
  intros H%stg_Ok vid' member e'. unfold mark_membership_dirty in H. run_cases H.
  unfold grant_at. cbn. rewrite lookup_update_where. destruct (grants s !! _) as [r|]; [|done].
  cbn. by destruct (_ && _).
Qed.

(** the grants a rotation built are the ones the store holds *)
Lemma rotation_grants v m built us rec e s s' :
  Forall (fun u => ir_vault_id u = v_vault_id v) us -> NoDup (ir_item_id <$> us) ->
  NoDup (grant_key <$> built) ->
  (_ ← stg (put_membership_manifest m);
   _ ← for_each built (fun g => stg (put_membership_grant g));
   _ ← put_reissued v us;
   _ ← stg (put_vault rec);
   _ ← stg (set_vault_epoch_floor (v_vault_id v) e);
   _ ← stg (mark_vault_dirty (v_vault_id v));
   stg (mark_membership_dirty (v_vault_id v) e)) s = (Ok tt, s') ->
  forall g, g ∈ built ->
    grant_at s' (mg_vault_id g) (mg_member_pubkey g) (mg_key_epoch g) = Some g.
Proof.
  intros Hall Hnd Hk ([] & s1 & _ & H)%M_bind_Ok g Hin.
  apply M_bind_Ok in H as ([] & s2 & Hgr & H). apply M_bind_Ok in H as ([] & s3 & Hput & H).
  apply M_bind_Ok in H as ([] & s4 & Hv4%stg_Ok & H).
  apply M_bind_Ok in H as ([] & s5 & Hs5%floor_Ok & H).
  apply M_bind_Ok in H as ([] & s6 & [Hs6 _]%mark_vault_Ok & Hmark).
  rewrite (mark_membership_grants _ _ _ _ Hmark). pose proof (put_grants_at _ _ _ Hk Hgr _ Hin) as Hat.
  apply put_reissued_Ok in Hput as (Hs3 & _); [|done..].
  apply put_vault_Ok in Hv4 as (_ & _ & _ & t & _ & Hs4).
  rewrite Hs6, Hs5, Hs4, Hs3. exact Hat.
Qed.

(** every built grant belongs to a recipient, verifies, and opens for it *)
Lemma built_grants admin vid e vk new gs built :
  length vk = SYMMETRIC_KEY_LEN ->
  traverse (build_verified_grant admin vid e vk new) gs = Ok built ->
  grant_key <$> built = (fun r : Recipient => (vid, r.1.1.2, e)) <$> gs /\
  forall sk member role rng now, (x_pk_to_bytes (x_public sk), member, role, rng) ∈ gs ->
    exists g, g ∈ built /\ grant_key g = (vid, member, e) /\ mg_role g = role /\
      verify_grant g vid new = Ok tt /\ open_grant g vid sk member e now = Ok vk.
Proof.
  intros Hl. revert built. induction gs as [|[[[x m] r] rng0] gs IH]; cbn [traverse]; intros built H.
  { injection H as <-. split; [done|]. by intros ? ? ? ? ? ?%not_elem_of_nil. }
  apply bind_Ok in H as (g & Hg & H). apply bind_Ok in H as (bs & Hbs & [= <-]).
  destruct (IH _ Hbs) as [Hk Hall]. cbn [build_verified_grant] in Hg.
  apply bind_Ok in Hg as (g' & Hb & Hg). apply bind_Ok in Hg as ([] & Hv & [= <-]).
  split.
  - rewrite !fmap_cons, Hk. f_equal. unfold build_grant in Hb.
    apply bind_Ok in Hb as (? & _ & Hb). apply bind_Ok in Hb as (? & _ & Hb).
    apply bind_Ok in Hb as (? & _ & Hb). by apply bind_Ok in Hb as (? & _ & [= <-]).
  - intros sk member role rng now [[= <- -> -> ->]|Hin]%elem_of_cons.
    + exists g'. destruct (build_grant_opens _ _ _ _ _ _ _ _ _ now Hl Hb) as (Hkey & Hr & Ho).
      split; [by left|done].
    + destruct (Hall sk member role rng now Hin) as (g0 & Hi & H0). exists g0. split; [by right|done].
Qed.
End reach.

Section reach_members.
Context `{P : CryptoPrims, !CryptoLaws P}.

(** a member opens the vault with the grant the store holds for it *)
Lemma open_with_grant ks vid now s rec vk name owner_ks owner e ms g :
  store_wf s -> get_vault s vid = Some rec -> vr_tombstone rec = false ->
  owner_of s vid (ks_pub ks) = owner -> owner <> ks_pub ks -> opens_to owner_ks vk name rec ->
  latest_membership_epoch s vid = Some e -> verify_chain_to_epoch s vid e owner = Ok ms ->
  grant_at s vid (ks_pub ks) e = Some g -> verify_grant g vid ms = Ok tt ->
  open_grant g vid (xk_secret (encryption ks)) (ks_pub ks) (epoch ms) now = Ok vk ->
  exists e', open_vault ks vid now s =
    Ok (mkVault ks vid name vk (vr_version rec) e' owner (can_write ms (ks_pub ks))).
Proof.
  intros Hwf Hg Ht Ho Hne (Hv & _ & Hn) Hl Hc Hgr Hvg Hog. unfold open_vault. rewrite Hg.
  cbn [ok_or mbind result_bind]. rewrite Ht, Hv. cbn [mbind result_bind].
  assert (vr_vault_id rec = vid) as Hvid.
  { apply fmap_Some in Hg as (r & Hr & ->). by apply (wf_vaults _ Hwf) in Hr as (? & _). }
  rewrite Hvid in *. fold (owner_of s vid (ks_pub ks)). rewrite Ho. cbv zeta.
  rewrite (proj2 (bytes_eqb_false _ _)) by done. unfold open_as_member. rewrite Hvid, Hl.
  cbn [from_option]. unfold id. rewrite Hc. cbn [mbind result_bind].
  destruct (list_membership_grants s vid e) as [gs|er] eqn:Hgs.
  2: { unfold list_membership_grants, checked_version in Hgs.
       rewrite (proj2 (N.leb_le _ _) (latest_epoch_max _ _ _ Hwf Hl)) in Hgs. done. }
  cbn [map_err mbind result_bind]. unfold open_own_grant.
  rewrite (own_grant_found _ gs vid ms ks now vk g); [|..].
  - cbn [mbind result_bind]. rewrite Hn. cbn [mbind result_bind]. by eexists.
  - apply (elem_of_grants _ _ _ _ _ Hgs). eauto.
  - by pose proof (grant_at_key _ _ _ _ _ Hwf Hgr) as [= _ ? _].
  - done.
  - done.
  - intros g' (member & Hg')%(elem_of_grants _ _ _ _ _ Hgs) Hm.
    pose proof (grant_at_key _ _ _ _ _ Hwf Hg') as [= _ Hm' _]. congruence.
Qed.
End reach_members.

(** C16. A rotation reaches every remaining member: whoever is among the
    recipients of the new grants can, once the rotation is through, open the
    vault with its own keys. It gets the new vault key and the write role its
    place in the new set has, and reads every item the owner read before the
    rotation with the same content. *)
Theorem rotation_reaches_members `{P : CryptoPrims, !CryptoLaws P}
    v admin ms gs vk' rnd rng now s e v' s' ks role seal :
  store_wf s -> handle_ok s v -> length vk' = SYMMETRIC_KEY_LEN -> fresh_vault rnd ->
  fresh_rng rng -> NoDup ((fun r : Recipient => r.1.1.2) <$> gs) -> keyset_ok ks ->
  owner_of s (v_vault_id v) (ks_pub ks) = own_ed v -> own_ed v <> ks_pub ks ->
  (x_pk_to_bytes (xk_public (encryption ks)), ks_pub ks, role, seal) ∈ gs ->
  rotate_vk v admin ms gs vk' rnd rng s = (Ok (e, v'), s') ->
  exists h, open_vault ks (v_vault_id v) now s' = Ok h /\ v_vk h = vk' /\
    v_can_write h = (match role with Editor | Admin => true | Viewer => false end) /\
    follows v h s s'.
Proof.
  intros Hwf Hh Hl Hf Hr Hnd Hks Ho Hne Hin H.
  assert (store_wf s') as Hwf' by (eapply (vault_step_kept s s'); [by econstructor|done]).
  pose proof (rotate_Ok _ _ _ _ _ _ _ _ _ _ _ Hwf (ho_keyset _ _ Hh) Hl Hf Hr H) as (_ & Ht & us & Hus & M).
  apply rotate_inv in H as (e0 & prev & m & new & built & n & vrec & rec & us' & Hlat & Hprev & [He Hmax]
    & Hm & Hnew & Hcw & Hbuilt & Hrec & Hus' & H).
  destruct (build_manifest_fields _ _ _ _ _ _ _ _ Hmax Hm Hnew) as (_ & _ & Hneq).
  rewrite <-Hneq in Ht. destruct (trusted_epoch _ _ _ _ _ Ht) as [Hep _].
  destruct (built_grants _ _ _ _ _ _ _ Hl Hbuilt) as [Hkeys Hall].
  destruct Hks as [_ Hx]. rewrite Hx in Hin.
  destruct (Hall _ _ _ _ now Hin) as (g & Hg & Hkey & Hrole & Hvg & Hog).
  apply reanchor_items_Ok in Hus'; [|done|apply Hh|done].
  destruct (reissued_ids _ _ _ _ _ Hus') as [Hids Hvids].
  eapply rotation_grants in H; [|done|rewrite Hids; by apply all_items_ids| |exact Hg].
  2: { rewrite Hkeys. rewrite (list_fmap_compose (fun r : Recipient => r.1.1.2)
         (fun m => (v_vault_id v, m, e))). by apply NoDup_fmap_2; [intros ? ? [= ->]|]. }
  pose proof Hkey as [= Hgv Hgm Hge]. rewrite Hgv, Hgm, Hge in H.
  destruct (mv_vault _ _ _ _ _ _ M) as (vr & Hvr & Htomb & _ & Hop).
  edestruct (open_with_grant ks (v_vault_id v) now s' vr vk' (v_name v) (v_keyset v) (own_ed v) e new g)
    as (e' & Hopen); [done..| |done|done|by eapply moved_latest|by apply trusted_verifies|done|done|by rewrite Hep|].
  { unfold owner_of, get_vault_trust_anchor in *. by rewrite (mv_anchor _ _ _ _ _ _ M). }
  eexists. split; [exact Hopen|]. split; [done|]. split; [|by eapply moved_reads].
  apply verify_grant_Ok in Hvg as (_ & _ & _ & Hro). rewrite Hgm, Hrole in Hro.
  cbn. unfold can_write. by rewrite Hro.
Qed.

Lemma rotation_reaches_members_witness : exists h,
  @open_vault Sample.prims (sample_keyset x02) (lit "w") 5 sample_rotated = Ok h /\
  v_vk h = sample_vk2 /\ v_can_write h = false.
Proof.
  destruct sample_rotated_Ok as ([e v'] & _ & E).
  destruct (@rotation_reaches_members Sample.prims Sample.laws sample_team_handle
    (sample_keyset x01) sample_members sample_recipients sample_vk2 sample_vrnd sample_rng 5
    sample_pinned e v' sample_rotated (sample_keyset x02) Viewer [] sample_pinned_wf
    sample_pinned_handle ltac:(reflexivity) sample_vrnd_fresh sample_rng_fresh
    (NoDup_singleton _) (sample_keyset_ok x02) ltac:(vm_compute; reflexivity)
    ltac:(vm_compute; discriminate) ltac:(left) E) as (h & Ho & Hk & Hw & _).
  exists h. split; [exact Ho|]. split; [exact Hk|exact Hw].
Defined.
