(* ===== verification/AuthPayloads.v ===== *)
(** * Registration and server-auth payloads
      (rust-core/crates/crypto/src/{registration,server_auth}.rs,
       keychain/src/server_auth.rs)

    The two messages a client signs towards a server: the self-attested
    registration of an account, and the answer to a login challenge. Key fields
    of the source are arrays of 32 bytes; here they are byte strings, and
    [reg_ok] is that typing. *)

From Stdlib Require Import Strings.Byte NArith ZArith Lia.
From stdpp Require Import base gmap sets list strings sorting countable.
From S2P Require Import Prelude Bytes CryptoPrims Crypto Keychain.

Local Open Scope N_scope.

Record RegistrationPayload := mkRegistration {
  rp_account_id : bytes;
  rp_x25519_pub : bytes;
  rp_ed25519_pub : bytes
}.

Definition reg_ok (p : RegistrationPayload) : Prop :=
  length (rp_x25519_pub p) = 32%nat /\ length (rp_ed25519_pub p) = 32%nat.

Definition reg_canonical (p : RegistrationPayload) : result CryptoError bytes :=
  if u16_max <? len (rp_account_id p) then Err InvalidLength
  else Ok (u16_be (len (rp_account_id p)) ++ rp_account_id p ++ rp_x25519_pub p ++ rp_ed25519_pub p).

Record ServerAuthChallenge := mkChallenge {
  ch_host : bytes;
  ch_account_id : bytes;
  ch_device_id : bytes;
  ch_key_id : bytes;
  ch_nonce : bytes;
  ch_expiry : N
}.

(** the inner [put] of [ServerAuthChallenge::canonical] *)
Definition put_u16 (out f : bytes) : result CryptoError bytes :=
  if u16_max <? len f then Err InvalidLength else Ok (out ++ u16_be (len f) ++ f).

Definition auth_canonical (c : ServerAuthChallenge) : result CryptoError bytes :=
  out ← put_u16 [] (ch_host c);
  out ← put_u16 out (ch_account_id c);
  out ← put_u16 out (ch_device_id c);
  out ← put_u16 out (ch_key_id c);
  out ← put_u16 out (ch_nonce c);
  Ok (out ++ u64_be (ch_expiry c)).

Section payloads.
Context `{P : CryptoPrims}.

Definition sign_registration (sk : ed_sk) (p : RegistrationPayload) : result CryptoError bytes :=
  payload ← reg_canonical p;
  domain_sign sk REGISTRATION_SIG_DOMAIN payload.

Definition verify_registration (pk : ed_pk) (p : RegistrationPayload) (sig_blob : bytes)
    : result CryptoError unit :=
  payload ← reg_canonical p;
  domain_verify pk REGISTRATION_SIG_DOMAIN payload sig_blob.

Definition sign_server_auth (sk : ed_sk) (c : ServerAuthChallenge) : result CryptoError bytes :=
  payload ← auth_canonical c;
  domain_sign sk SERVER_AUTH_SIG_DOMAIN payload.

Definition verify_server_auth (pk : ed_pk) (c : ServerAuthChallenge) (sig_blob : bytes)
    : result CryptoError unit :=
  payload ← auth_canonical c;
  domain_verify pk SERVER_AUTH_SIG_DOMAIN payload sig_blob.

Definition sign_server_challenge (unlocked : UnlockedKeyset) (c : ServerAuthChallenge)
    : result KeychainError bytes :=
  map_err KCrypto (sign_server_auth (ek_signing (signing unlocked)) c).
End payloads.
