(* ===== verification/SyncObject.v ===== *)
(** * Sync objects and their wire codec (rust-core/crates/sync/src/object.rs)

    The seven kinds of object a server relays, [to_bytes], [from_bytes] and
    [encoded_len]. [Reader] is a computation over the bytes left to read; a
    short or malformed input is [SFormat]. [SyncError] is [sync/src/error.rs]. *)

From Stdlib Require Import Strings.Byte NArith ZArith Lia.
From stdpp Require Import base gmap sets list strings sorting countable.
From S2P Require Import Prelude Bytes CryptoPrims Crypto Storage Keychain Membership.

Local Open Scope N_scope.

(** ** error.rs *)

Inductive SyncError :=
| TransportRollback (reported cursor : N)
| CursorRollback (current attempted : N)
| SFormat
| PayloadTooLarge
| Forbidden
| ServerCopyUnreadable
| NotRestored
| SVault (e : VaultError)
| SStorage (e : StorageError)
| SCrypto (e : CryptoError)
| SKeychain (e : KeychainError).

#[global] Instance SyncError_eq_dec : EqDecision SyncError.
Proof. solve_decision. Defined.

(** ** Objects *)

Inductive ObjectTag :=
| TVault | TItem | TMembershipManifest | TMembershipGrant | TAudit | TKeyset | TAccountState.

#[global] Instance ObjectTag_eq_dec : EqDecision ObjectTag.
Proof. solve_decision. Defined.

Definition tag_to_u8 (t : ObjectTag) : byte :=
  match t with
  | TVault => x01 | TItem => x02 | TMembershipManifest => x03 | TMembershipGrant => x04
  | TAudit => x05 | TKeyset => x06 | TAccountState => x07
  end.
Definition tag_from_u8 (b : byte) : option ObjectTag :=
  match b with
  | x01 => Some TVault | x02 => Some TItem | x03 => Some TMembershipManifest
  | x04 => Some TMembershipGrant | x05 => Some TAudit | x06 => Some TKeyset
  | x07 => Some TAccountState | _ => None
  end.

Record AuditObject := mkAuditObject {
  ao_vault_id : bytes;
  ao_entry_blob : bytes;
  ao_signature : bytes;
  ao_author_pubkey : bytes
}.

Record AccountStateObject := mkAccountObject {
  aso_author_pubkey : bytes;
  aso_version : N;
  aso_payload : bytes;
  aso_signature : bytes
}.

Inductive SyncObject :=
| OVault (v : VaultRecord)
| OItem (i : ItemRecord)
| OManifest (m : MembershipManifest)
| OGrant (g : MembershipGrant)
| OAudit (a : AuditObject)
| OKeyset (b : bytes)
| OAccountState (a : AccountStateObject).

#[global] Instance AuditObject_eq_dec : EqDecision AuditObject.
Proof. solve_decision. Defined.
#[global] Instance AccountStateObject_eq_dec : EqDecision AccountStateObject.
Proof. solve_decision. Defined.
#[global] Instance SyncObject_eq_dec : EqDecision SyncObject.
Proof. solve_decision. Defined.

Definition tag (o : SyncObject) : ObjectTag :=
  match o with
  | OVault _ => TVault | OItem _ => TItem | OManifest _ => TMembershipManifest
  | OGrant _ => TMembershipGrant | OAudit _ => TAudit | OKeyset _ => TKeyset
  | OAccountState _ => TAccountState
  end.

Definition obj_vault_id (o : SyncObject) : option bytes :=
  match o with
  | OVault v => Some (vr_vault_id v)
  | OItem i => Some (ir_vault_id i)
  | OManifest m => Some (mm_vault_id m)
  | OGrant g => Some (mg_vault_id g)
  | OAudit a => Some (ao_vault_id a)
  | OKeyset _ | OAccountState _ => None
  end.

Definition obj_key_epoch (o : SyncObject) : option N :=
  match o with
  | OVault v => Some (vr_key_epoch v)
  | OItem i => Some (ir_key_epoch i)
  | OManifest m => Some (mm_key_epoch m)
  | OGrant g => Some (mg_key_epoch g)
  | OAudit _ | OKeyset _ | OAccountState _ => None
  end.

(** ** Field codecs *)

Definition put_bytes (out b : bytes) : result SyncError bytes :=
  if u32_max <? len b then Err SFormat else Ok (out ++ u32_be (len b) ++ b).

(** [Reader]: what is left to read is the state *)
Definition Reader := M bytes SyncError.

Definition r_u8 : Reader byte := fun b =>
  match b with h :: t => (Ok h, t) | [] => (Err SFormat, b) end.
Definition r_take (n : nat) : Reader bytes := fun b =>
  if (length b <? n)%nat then (Err SFormat, b) else (Ok (take n b), drop n b).
Definition r_u32 : Reader N := s ← r_take 4; mret (be_decode s).
Definition r_u64 : Reader N := s ← r_take 8; mret (be_decode s).
Definition r_i64 : Reader Z := s ← r_take 8; mret (i64_of_u64 (be_decode s)).
Definition r_bytes : Reader bytes := n ← r_u32; r_take (N.to_nat n).
Definition r_finish : Reader unit := fun b =>
  match b with [] => (Ok tt, b) | _ => (Err SFormat, b) end.

Definition bool_u8 (b : bool) : byte := if b then x01 else x00.
Definition r_flag : Reader bool := b ← r_u8; mret (negb (bool_decide (b = x00))).

Definition sync_target_u8 (t : SyncTarget) : byte :=
  match t with Local => x00 | Cloud => x01 end.
Definition sync_target_from (b : byte) : result SyncError SyncTarget :=
  match b with x00 => Ok Local | x01 => Ok Cloud | _ => Err SFormat end.
Definition cache_policy_u8 (c : CachePolicy) : byte :=
  match c with OfflineAllowed => x00 | OnlineOnly => x01 end.
Definition cache_policy_from (b : byte) : result SyncError CachePolicy :=
  match b with x00 => Ok OfflineAllowed | x01 => Ok OnlineOnly | _ => Err SFormat end.
Definition role_u8 (r : MemberRole) : byte :=
  match r with Viewer => x00 | Editor => x01 | Admin => x02 end.
Definition role_from (b : byte) : result SyncError MemberRole :=
  ok_or (role_from_i64 (Z.of_N (Byte.to_N b))) SFormat.

(** ** Encoded length *)

Definition prefixed (b : bytes) : N := len b + 4.
Definition encoded_total (fields : list N) : N := foldl N.add 1 fields.

Definition encoded_len (o : SyncObject) : N :=
  match o with
  | OVault v => encoded_total [prefixed (vr_vault_id v); 1; prefixed (vr_name_blob v);
      prefixed (vr_wrapped_vk v); 8; 1; prefixed (vr_signature v);
      prefixed (vr_author_pubkey v); 8; 1]
  | OItem i => encoded_total [prefixed (ir_vault_id i); prefixed (ir_item_id i); 4;
      prefixed (ir_content_blob i); prefixed (ir_wrapped_item_key i); 8; 1;
      prefixed (ir_signature i); prefixed (ir_author_pubkey i); 8]
  | OManifest m => encoded_total [prefixed (mm_vault_id m); 8; prefixed (mm_manifest_blob m);
      prefixed (mm_signature m); prefixed (mm_author_pubkey m)]
  | OGrant g => encoded_total [prefixed (mg_vault_id g); prefixed (mg_member_pubkey g); 8; 1; 8;
      prefixed (mg_wrapped_vk g); prefixed (mg_signature g); prefixed (mg_author_pubkey g)]
  | OAudit a => encoded_total [prefixed (ao_vault_id a); prefixed (ao_entry_blob a);
      prefixed (ao_signature a); prefixed (ao_author_pubkey a)]
  | OKeyset b => encoded_total [prefixed b]
  | OAccountState a => encoded_total [8; prefixed (aso_payload a); prefixed (aso_signature a);
      prefixed (aso_author_pubkey a)]
  end.

(** ** Serialisation *)

Definition to_bytes (o : SyncObject) : result SyncError bytes :=
  let out := [tag_to_u8 (tag o)] in
  match o with
  | OVault v =>
      out ← put_bytes out (vr_vault_id v);
      let out := out ++ [sync_target_u8 (vr_sync_target v)] in
      out ← put_bytes out (vr_name_blob v);
      out ← put_bytes out (vr_wrapped_vk v);
      let out := out ++ u64_be (vr_version v) in
      let out := out ++ [bool_u8 (vr_tombstone v)] in
      out ← put_bytes out (vr_signature v);
      out ← put_bytes out (vr_author_pubkey v);
      let out := out ++ u64_be (vr_key_epoch v) in
      let out := out ++ [cache_policy_u8 (vr_cache_policy v)] in
      Ok out
  | OItem i =>
      out ← put_bytes out (ir_vault_id i);
      out ← put_bytes out (ir_item_id i);
      let out := out ++ u32_be (ir_item_type i) in
      out ← put_bytes out (ir_content_blob i);
      out ← put_bytes out (ir_wrapped_item_key i);
      let out := out ++ u64_be (ir_version i) in
      let out := out ++ [bool_u8 (ir_tombstone i)] in
      out ← put_bytes out (ir_signature i);
      out ← put_bytes out (ir_author_pubkey i);
      let out := out ++ u64_be (ir_key_epoch i) in
      Ok out
  | OManifest m =>
      out ← put_bytes out (mm_vault_id m);
      let out := out ++ u64_be (mm_key_epoch m) in
      out ← put_bytes out (mm_manifest_blob m);
      out ← put_bytes out (mm_signature m);
      put_bytes out (mm_author_pubkey m)
  | OGrant g =>
      out ← put_bytes out (mg_vault_id g);
      out ← put_bytes out (mg_member_pubkey g);
      let out := out ++ u64_be (mg_key_epoch g) in
      let out := out ++ [role_u8 (mg_role g)] in
      let out := out ++ i64_be (mg_not_after g) in
      out ← put_bytes out (mg_wrapped_vk g);
      out ← put_bytes out (mg_signature g);
      put_bytes out (mg_author_pubkey g)
  | OAudit a =>
      out ← put_bytes out (ao_vault_id a);
      out ← put_bytes out (ao_entry_blob a);
      out ← put_bytes out (ao_signature a);
      put_bytes out (ao_author_pubkey a)
  | OKeyset b => put_bytes out b
  | OAccountState a =>
      let out := out ++ u64_be (aso_version a) in
      out ← put_bytes out (aso_payload a);
      out ← put_bytes out (aso_signature a);
      put_bytes out (aso_author_pubkey a)
  end.

(** ** Parsing *)

Definition r_object (t : ObjectTag) : Reader SyncObject :=
  match t with
  | TVault =>
      vault_id ← r_bytes;
      sync_target ← (b ← r_u8; lift_result (sync_target_from b));
      name_blob ← r_bytes;
      wrapped_vk ← r_bytes;
      version ← r_u64;
      tombstone ← r_flag;
      signature ← r_bytes;
      author_pubkey ← r_bytes;
      key_epoch ← r_u64;
      cache_policy ← (b ← r_u8; lift_result (cache_policy_from b));
      mret (OVault (mkVaultRecord vault_id sync_target name_blob wrapped_vk version tombstone
        signature author_pubkey key_epoch cache_policy []))
  | TItem =>
      vault_id ← r_bytes;
      item_id ← r_bytes;
      item_type ← r_u32;
      content_blob ← r_bytes;
      wrapped_item_key ← r_bytes;
      version ← r_u64;
      tombstone ← r_flag;
      signature ← r_bytes;
      author_pubkey ← r_bytes;
      key_epoch ← r_u64;
      mret (OItem (mkItemRecord vault_id item_id item_type content_blob wrapped_item_key version
        tombstone signature author_pubkey 0 0 key_epoch))
  | TMembershipManifest =>
      vault_id ← r_bytes;
      key_epoch ← r_u64;
      manifest_blob ← r_bytes;
      signature ← r_bytes;
      author_pubkey ← r_bytes;
      mret (OManifest (mkManifest vault_id key_epoch manifest_blob signature author_pubkey))
  | TMembershipGrant =>
      vault_id ← r_bytes;
      member_pubkey ← r_bytes;
      key_epoch ← r_u64;
      role ← (b ← r_u8; lift_result (role_from b));
      not_after ← r_i64;
      wrapped_vk ← r_bytes;
      signature ← r_bytes;
      author_pubkey ← r_bytes;
      mret (OGrant (mkGrant vault_id member_pubkey key_epoch role not_after wrapped_vk signature
        author_pubkey))
  | TAudit =>
      vault_id ← r_bytes;
      entry_blob ← r_bytes;
      signature ← r_bytes;
      author_pubkey ← r_bytes;
      mret (OAudit (mkAuditObject vault_id entry_blob signature author_pubkey))
  | TKeyset => b ← r_bytes; mret (OKeyset b)
  | TAccountState =>
      version ← r_u64;
      payload ← r_bytes;
      signature ← r_bytes;
      author_pubkey ← r_bytes;
      mret (OAccountState (mkAccountObject author_pubkey version payload signature))
  end.

Definition r_tagged : Reader SyncObject :=
  t ← (b ← r_u8; lift_result (ok_or (tag_from_u8 b) SFormat));
  r_object t.

Definition r_whole : Reader SyncObject :=
  obj ← r_tagged;
  _ ← r_finish;
  mret obj.

Definition from_bytes (b : bytes) : result SyncError SyncObject := (r_whole b).1.

(** ** Lemmas: reading back what was written *)

#[local] Opaque u32_be u64_be i64_be.

Lemma bind_step {S E A B} (m : M S E A) (f : A -> M S E B) s a s' :
  m s = (Ok a, s') -> (m ≫= f) s = f a s'.
Proof. unfold mbind, M_bind. by intros ->. Qed.

Lemma r_take_app a rest n : length a = n -> r_take n (a ++ rest) = (Ok a, rest).
Proof.
  intros <-. unfold r_take. rewrite (proj2 (Nat.ltb_ge _ _)) by (rewrite length_app; lia).
  by rewrite take_app_length, drop_app_length.
Qed.

Lemma r_u8_cons b rest : r_u8 (b :: rest) = (Ok b, rest).
Proof. done. Qed.

Lemma r_u32_be n rest : n <= u32_max -> r_u32 (u32_be n ++ rest) = (Ok n, rest).
Proof.
  intros H. unfold r_u32. rewrite (bind_step _ _ _ _ _ (r_take_app _ _ _ (length_u32_be n))).
  by rewrite u32_decode.
Qed.
Lemma r_u64_be n rest : n <= u64_max -> r_u64 (u64_be n ++ rest) = (Ok n, rest).
Proof.
  intros H. unfold r_u64. rewrite (bind_step _ _ _ _ _ (r_take_app _ _ _ (length_u64_be n))).
  by rewrite u64_decode.
Qed.
Lemma r_i64_be z rest :
  (- 2 ^ 63 <= z < 2 ^ 63)%Z -> r_i64 (i64_be z ++ rest) = (Ok z, rest).
Proof.
  intros H. unfold r_i64. rewrite (bind_step _ _ _ _ _ (r_take_app _ _ _ (length_i64_be z))).
  by rewrite i64_decode.
Qed.
Lemma r_bytes_put b rest :
  len b <= u32_max -> r_bytes (u32_be (len b) ++ b ++ rest) = (Ok b, rest).
Proof.
  intros H. unfold r_bytes. rewrite (bind_step _ _ _ _ _ (r_u32_be _ _ H)).
  apply r_take_app. unfold len. lia.
Qed.
Lemma r_flag_u8 f rest : r_flag (bool_u8 f :: rest) = (Ok f, rest).
Proof. by destruct f. Qed.

(** a one-byte enum followed by anything *)
Lemma r_enum {A} (from : byte -> result SyncError A) b a rest :
  from b = Ok a -> (x ← r_u8; lift_result (from x)) (b :: rest) = (Ok a, rest).
Proof. intros H. by rewrite (bind_step _ _ _ _ _ (r_u8_cons _ _)), <-H. Qed.

Lemma put_bytes_Ok out b x :
  put_bytes out b = Ok x <-> len b <= u32_max /\ x = out ++ u32_be (len b) ++ b.
Proof.
  unfold put_bytes. destruct (N.ltb_spec u32_max (len b)); split; intros; naive_solver lia.
Qed.

(** what travels: the routing label and the local timestamps stay behind *)
Definition wire (o : SyncObject) : SyncObject :=
  match o with
  | OVault v => OVault (set_tenant [] v)
  | OItem i => OItem (with_times 0 0 i)
  | _ => o
  end.

(** every integer field fits its Rust type *)
Definition obj_in_range (o : SyncObject) : Prop :=
  match o with
  | OVault v => vr_version v <= u64_max /\ vr_key_epoch v <= u64_max
  | OItem i => ir_item_type i <= u32_max /\ ir_version i <= u64_max /\ ir_key_epoch i <= u64_max
  | OManifest m => mm_key_epoch m <= u64_max
  | OGrant g => mg_key_epoch g <= u64_max /\ (- 2 ^ 63 <= mg_not_after g < 2 ^ 63)%Z
  | OAccountState a => aso_version a <= u64_max
  | OAudit _ | OKeyset _ => True
  end.

(** [to_bytes] as the concatenation it writes *)
Ltac put_all H :=
  repeat match type of H with
  | _ ≫= _ = Ok _ =>
      let o := fresh "o" in let Hl := fresh "Hl" in
      apply bind_Ok in H as (o & [Hl ->]%put_bytes_Ok & H); cbn beta zeta in H
  end.

Lemma r_sync_target t rest :
  (x ← r_u8; lift_result (sync_target_from x)) (sync_target_u8 t :: rest) = (Ok t, rest).
Proof. apply r_enum. by destruct t. Qed.
Lemma r_cache_policy c rest :
  (x ← r_u8; lift_result (cache_policy_from x)) (cache_policy_u8 c :: rest) = (Ok c, rest).
Proof. apply r_enum. by destruct c. Qed.
Lemma r_role r rest :
  (x ← r_u8; lift_result (role_from x)) (role_u8 r :: rest) = (Ok r, rest).
Proof. apply r_enum. by destruct r. Qed.
Lemma r_tag t rest :
  (x ← r_u8; lift_result (ok_or (tag_from_u8 x) SFormat)) (tag_to_u8 t :: rest) = (Ok t, rest).
Proof. apply (r_enum (fun x => ok_or (tag_from_u8 x) SFormat)). by destruct t. Qed.

(** Runs the reader over a concatenation, field by field. *)
Ltac read_all :=
  repeat (etrans; [first
    [ eapply bind_step, r_bytes_put; eassumption
    | eapply bind_step, r_u64_be; eassumption
    | eapply bind_step, r_u32_be; eassumption
    | eapply bind_step, r_i64_be; split; eassumption
    | eapply bind_step, r_flag_u8
    | eapply bind_step, r_sync_target
    | eapply bind_step, r_cache_policy
    | eapply bind_step, r_role ] |]; cbn beta).

Lemma read_written o b rest :
  obj_in_range o -> to_bytes o = Ok b ->
  exists body, b = tag_to_u8 (tag o) :: body /\
    r_object (tag o) (body ++ rest) = (Ok (wire o), rest).
Proof.
  intros Hr H. unfold to_bytes in H.
  destruct o; cbn [obj_in_range] in Hr; destruct_and?; cbn beta zeta in H; put_all H;
    first [apply (inj Ok) in H as <-|apply put_bytes_Ok in H as [? ->]];
    rewrite <-?app_assoc; eexists; (split; [reflexivity|]); cbn [tag r_object];
    rewrite <-?app_assoc; cbn [app]; read_all;
    first [reflexivity|match goal with |- _ = (Ok (wire (_ ?x)), _) => by destruct x end].
Qed.

Lemma whole_of_object o b rest :
  obj_in_range o -> to_bytes o = Ok b -> r_whole (b ++ rest) =
    match rest with [] => (Ok (wire o), []) | _ => (Err SFormat, rest) end.
Proof.
  intros Hr Hb. destruct (read_written o b rest Hr Hb) as (body & -> & Hread).
  assert (r_tagged (tag_to_u8 (tag o) :: body ++ rest) = (Ok (wire o), rest)) as Ht.
  { unfold r_tagged. by rewrite (bind_step _ _ _ _ _ (r_tag _ _)). }
  unfold r_whole. cbn [app]. rewrite (bind_step _ _ _ _ _ Ht). by destruct rest.
Qed.

#[local] Transparent u32_be u64_be i64_be.

(** ** Lemmas: readers only look at what they consume *)

(** on success the reader took a prefix and would take it from any longer
    input too; its only error is [SFormat] *)
Definition stable {A} (p : Reader A) : Prop :=
  forall b, match p b with
  | (Ok a, rest) => forall r, p (b ++ r) = (Ok a, rest ++ r)
  | (Err e, _) => e = SFormat
  end.

Lemma stable_ret {A} (a : A) : stable (mret a).
Proof. by intros b. Qed.
Lemma stable_bind {A B} (p : Reader A) (f : A -> Reader B) :
  stable p -> (forall a, stable (f a)) -> stable (p ≫= f).
Proof.
  intros Hp Hf b. unfold mbind, M_bind. specialize (Hp b).
  destruct (p b) as [[a|e] b1]; [|done]. specialize (Hf a b1).
  destruct (f a b1) as [[x|e] b2]; [|done]. intros r. by rewrite Hp, Hf.
Qed.
Lemma stable_u8 : stable r_u8.
Proof. by intros [|h t]. Qed.
Lemma stable_take n : stable (r_take n).
Proof.
  intros b. unfold r_take. destruct (Nat.ltb_spec (length b) n) as [|Hn]; [done|]. intros r.
  rewrite (proj2 (Nat.ltb_ge _ _)) by (rewrite length_app; lia).
  by rewrite take_app_le, drop_app_le.
Qed.
Lemma stable_lift {A} (x : result SyncError A) :
  (forall e, x = Err e -> e = SFormat) -> stable (lift_result x).
Proof. intros He b. unfold lift_result. destruct x; [done|]. by apply He. Qed.
Lemma stable_enum {A} (from : byte -> result SyncError A) :
  (forall b e, from b = Err e -> e = SFormat) -> stable (b ← r_u8; lift_result (from b)).
Proof. intros H. apply stable_bind; [apply stable_u8|intros b; apply stable_lift, H]. Qed.
Lemma stable_u32 : stable r_u32.
Proof. apply stable_bind; [apply stable_take|intros; apply stable_ret]. Qed.
Lemma stable_u64 : stable r_u64.
Proof. apply stable_bind; [apply stable_take|intros; apply stable_ret]. Qed.
Lemma stable_i64 : stable r_i64.
Proof. apply stable_bind; [apply stable_take|intros; apply stable_ret]. Qed.
Lemma stable_bytes : stable r_bytes.
Proof. apply stable_bind; [apply stable_u32|intros; apply stable_take]. Qed.
Lemma stable_flag : stable r_flag.
Proof. apply stable_bind; [apply stable_u8|intros; apply stable_ret]. Qed.
Lemma ok_or_SFormat {A} (o : option A) e : ok_or o SFormat = Err e -> e = SFormat.
Proof. destruct o; simpl; [done|]. by intros [= <-]. Qed.
Lemma sync_target_from_err b e : sync_target_from b = Err e -> e = SFormat.
Proof. destruct b; simpl; by intros [= <-]. Qed.
Lemma cache_policy_from_err b e : cache_policy_from b = Err e -> e = SFormat.
Proof. destruct b; simpl; by intros [= <-]. Qed.
Lemma role_from_err b e : role_from b = Err e -> e = SFormat.
Proof. apply ok_or_SFormat. Qed.
Lemma stable_sync_target : stable (b ← r_u8; lift_result (sync_target_from b)).
Proof. apply stable_enum, sync_target_from_err. Qed.
Lemma stable_cache_policy : stable (b ← r_u8; lift_result (cache_policy_from b)).
Proof. apply stable_enum, cache_policy_from_err. Qed.
Lemma stable_role : stable (b ← r_u8; lift_result (role_from b)).
Proof. apply stable_enum, role_from_err. Qed.
Ltac stable_field :=
  first [apply stable_bytes|apply stable_u64|apply stable_u32|apply stable_i64|apply stable_flag
        |apply stable_sync_target|apply stable_cache_policy|apply stable_role].

Lemma stable_object t : stable (r_object t).
Proof.
  destruct t; cbn [r_object]; repeat (apply stable_bind; [stable_field|intros ?]);
    apply stable_ret.
Qed.

Lemma stable_tagged : stable r_tagged.
Proof.
  apply stable_bind; [|intros; apply stable_object].
  apply (stable_enum (fun b => ok_or (tag_from_u8 b) SFormat)). intros b e. apply ok_or_SFormat.
Qed.

(** ** Theorems *)

(** Every object a client sends is read back on the other side: the bytes
    parse to the same object without the routing label and the local
    timestamps, and their number is what [encoded_len] predicted. *)
Theorem object_roundtrip o b :
  obj_in_range o -> to_bytes o = Ok b ->
  from_bytes b = Ok (wire o) /\ len b = encoded_len o.
Proof.
  intros Hr Hb. split.
  - unfold from_bytes. rewrite <-(app_nil_r b), (whole_of_object o b []) by done. done.
  - unfold to_bytes in Hb. destruct o; cbn beta zeta in Hb; put_all Hb;
      first [apply (inj Ok) in Hb as <-|apply put_bytes_Ok in Hb as [? ->]];
      rewrite !len_app; unfold encoded_len, encoded_total, prefixed, len; cbn [foldl length];
      rewrite ?length_u32_be, ?length_u64_be, ?length_i64_be; lia.
Qed.

Definition sample_grant : MembershipGrant :=
  mkGrant (lit "v") (lit "m") 3 Editor (-5) (lit "wvk") (lit "sig") (lit "a").

Lemma object_roundtrip_witness :
  exists b, to_bytes (OGrant sample_grant) = Ok b /\ from_bytes b = Ok (OGrant sample_grant).
Proof.
  eexists. split; [vm_compute; reflexivity|].
  refine (proj1 (object_roundtrip (OGrant sample_grant) _ _ _));
    [vm_compute; split; [|split]; congruence|vm_compute; reflexivity].
Defined.

(** The parser is total and self-delimiting: every input either parses or
    is refused as malformed, and no accepted encoding is a proper prefix of
    another accepted one (a truncated or extended object is refused). *)
Theorem object_parser_prefix_free b :
  (forall e, from_bytes b = Err e -> e = SFormat) /\
  (forall o r, from_bytes b = Ok o -> r <> [] -> from_bytes (b ++ r) = Err SFormat).
Proof.
  pose proof (stable_tagged b) as Hobj. unfold from_bytes, r_whole. split.
  - intros e. unfold mbind, M_bind. destruct (r_tagged b) as [[o|e'] rest]; [|by intros [= <-]].
    destruct rest; simpl; [done|by intros [= <-]].
  - intros o r Ho Hr. unfold mbind, M_bind in *.
    destruct (r_tagged b) as [[o'|e'] rest]; [|done].
    rewrite Hobj. destruct rest; [|done]. by destruct r.
Qed.
