(* ===== verification/SyncPull.v ===== *)
(** * Pulling from an untrusted server (rust-core/crates/sync/src/engine.rs)

    [sync_pull], [apply_pulled_objects] and the handler of each kind of
    object. A handler takes the report so far and returns the new one: the
    engine's [&mut SyncReport], which a fatal error drops. The transport is an
    arbitrary function of the number of calls made so far, so a server may
    answer anything at any time. The loop of [sync_pull] takes fuel; running
    out is [None], and [SyncPullThy] gives an amount that is always enough. *)

From Stdlib Require Import Strings.Byte NArith ZArith Lia.
From stdpp Require Import base gmap sets list strings sorting countable.
From S2P Require Import Prelude Bytes CryptoPrims Crypto Storage Keychain Membership Authority SyncObject.

Local Open Scope N_scope.

Definition EM := M Storage SyncError.

(** [?] on calls into the other crates *)
Definition sstg {A} (m : SM A) : EM A := err_into SStorage m.

(** ** Cursor keys *)

Definition hex_lower (b : bytes) : bytes := hex b.

Definition PULL_CURSOR_PREFIX : bytes := lit "sync:pull".
Definition PUSH_CURSOR_PREFIX : bytes := lit "sync:push".
Definition ACCT_PUSH_CURSOR_PREFIX : bytes := lit "sync:acctpush".
Definition PUSH_REFUSED_PREFIX : bytes := lit "sync:pushrefused.v1".
Definition PUSH_FORBIDDEN_PREFIX : bytes := lit "sync:pushforbidden.v1".

(** [format!("{prefix}:{}", hex_lower(tenant))] *)
Definition tenant_key (prefix tenant : bytes) : bytes := prefix ++ lit ":" ++ hex_lower tenant.

Definition pull_cursor_key (tenant : bytes) : bytes := tenant_key PULL_CURSOR_PREFIX tenant.
Definition push_cursor_key (tenant : bytes) : bytes := tenant_key PUSH_CURSOR_PREFIX tenant.
Definition acct_push_cursor_key (tenant : bytes) : bytes :=
  tenant_key ACCT_PUSH_CURSOR_PREFIX tenant.
Definition push_refused_key (tenant : bytes) : bytes := tenant_key PUSH_REFUSED_PREFIX tenant.
Definition push_forbidden_key (tenant : bytes) : bytes := tenant_key PUSH_FORBIDDEN_PREFIX tenant.

Definition reset_pull_cursor (tenant : bytes) : EM unit :=
  sstg (set_sync_cursor (pull_cursor_key tenant) 0).

(** ** Context and reports *)

Record SyncContext := mkContext { genesis_owner : bytes; tenant : bytes }.

Inductive RejectReason :=
| BelowCursor
| SignatureFailed
| AuthorityFailed
| EpochBelowFloor
| GenerationBelowFloor
| Malformed.

Record Rejected := mkRejected {
  rj_server_seq : N;
  rj_vault_id : option bytes;
  rj_reason : RejectReason
}.

Record Conflict := mkConflict {
  cf_vault_id : bytes;
  cf_item_id : bytes;
  cf_version : N
}.

Record SyncReport := mkReport {
  applied : N;
  skipped_stale : N;
  conflicts : list Conflict;
  rejected : list Rejected
}.

#[global] Instance RejectReason_eq_dec : EqDecision RejectReason.
Proof. solve_decision. Defined.
#[global] Instance Rejected_eq_dec : EqDecision Rejected.
Proof. solve_decision. Defined.
#[global] Instance Conflict_eq_dec : EqDecision Conflict.
Proof. solve_decision. Defined.
#[global] Instance SyncReport_eq_dec : EqDecision SyncReport.
Proof. solve_decision. Defined.

Definition empty_report : SyncReport := mkReport 0 0 [] [].

(** [counter.saturating_add(1)] *)
Definition bump (counter : N) : N := sat_add64 counter 1.
Definition bump_applied (r : SyncReport) : SyncReport :=
  mkReport (bump (applied r)) (skipped_stale r) (conflicts r) (rejected r).
Definition bump_stale (r : SyncReport) : SyncReport :=
  mkReport (applied r) (bump (skipped_stale r)) (conflicts r) (rejected r).
Definition push_conflict (c : Conflict) (r : SyncReport) : SyncReport :=
  mkReport (applied r) (skipped_stale r) (conflicts r ++ [c]) (rejected r).
Definition reject (seq : N) (vault_id : option bytes) (why : RejectReason) (r : SyncReport)
    : SyncReport :=
  mkReport (applied r) (skipped_stale r) (conflicts r)
    (rejected r ++ [mkRejected seq vault_id why]).

(** ** Helpers *)

(** a monotonic put: applied, or skipped as stale *)
Definition put_lww (put : SM unit) : EM bool := fun s =>
  match put s with
  | (Ok _, s') => (Ok true, s')
  | (Err (VersionRollback _ _), s') => (Ok false, s')
  | (Err e, s') => (Err (SStorage e), s')
  end.

Definition anchor_of (s : Storage) (vault_id own : bytes) : bytes :=
  match get_vault_trust_anchor s vault_id with
  | Some a => ta_genesis_owner_pubkey a
  | None => own
  end.
Definition vault_anchor (s : Storage) (vault_id : bytes) (ctx : SyncContext) : bytes :=
  anchor_of s vault_id (genesis_owner ctx).

Definition manifest_content_eq (a b : MembershipManifest) : bool :=
  bytes_eqb (mm_manifest_blob a) (mm_manifest_blob b)
  && bytes_eqb (mm_signature a) (mm_signature b)
  && bytes_eqb (mm_author_pubkey a) (mm_author_pubkey b).

Definition vault_content_eq (a b : VaultRecord) : bool :=
  bytes_eqb (vr_wrapped_vk a) (vr_wrapped_vk b)
  && bytes_eqb (vr_name_blob a) (vr_name_blob b)
  && bytes_eqb (vr_signature a) (vr_signature b)
  && bytes_eqb (vr_author_pubkey a) (vr_author_pubkey b)
  && Bool.eqb (vr_tombstone a) (vr_tombstone b).

Definition item_content_eq (a b : ItemRecord) : bool :=
  bytes_eqb (ir_content_blob a) (ir_content_blob b)
  && bytes_eqb (ir_wrapped_item_key a) (ir_wrapped_item_key b)
  && bytes_eqb (ir_signature a) (ir_signature b)
  && bytes_eqb (ir_author_pubkey a) (ir_author_pubkey b)
  && Bool.eqb (ir_tombstone a) (ir_tombstone b).

(** [delta.sort_by_cached_key(|(seq, obj)| (seq, obj.to_bytes().unwrap_or_default()))] *)
Definition delta_key (o : N * SyncObject) : N * bytes := (o.1, unwrap_or [] (to_bytes o.2)).
Definition delta_leb (a b : N * SyncObject) : bool :=
  (a.1 <? b.1) || ((a.1 =? b.1) && bytes_leb (delta_key a).2 (delta_key b).2).
Definition sort_delta (l : list (N * SyncObject)) : list (N * SyncObject) :=
  stable_sort delta_leb l.

Definition advance_cursor (cursor_key : bytes) (cursor to : N) : EM N :=
  if to <? cursor then throw (CursorRollback cursor to)
  else
    _ ← sstg (set_sync_cursor cursor_key to);
    mret to.

Section pull.
Context `{P : CryptoPrims}.

(** ** The handlers: verify before apply *)

Definition process_vault (ctx : SyncContext) (v : VaultRecord) (seq : N) (report : SyncReport)
    : EM SyncReport :=
  s ← get_state;
  let vid := vr_vault_id v in
  let anchor := vault_anchor s vid ctx in
  match check_vault_record v anchor with
  | Some IFMalformed => mret (reject seq (Some vid) Malformed report)
  | Some IFSignatureInvalid => mret (reject seq (Some vid) SignatureFailed report)
  | _ =>
      let floor := default 0 (get_vault_epoch_floor s vid) in
      if vr_key_epoch v <? floor then mret (reject seq (Some vid) EpochBelowFloor report)
      else if is_err (verify_record_authority s vid (vr_author_pubkey v) (vr_key_epoch v) anchor)
      then mret (reject seq (Some vid) AuthorityFailed report)
      else
        let merge : EM SyncReport :=
          fresh ← put_lww (put_vault (set_tenant (tenant ctx) v));
          mret (if fresh : bool then bump_applied report else bump_stale report) in
        match get_vault s vid with
        | Some local =>
            _ ← (if unbound local && negb (length (tenant ctx) =? 0)%nat
                 then sstg (adopt_pulled_binding vid (tenant ctx)) else mret tt);
            if vr_version local =? vr_version v then
              if vault_content_eq local v then mret report
              else mret (push_conflict (mkConflict vid [] (vr_version v)) report)
            else merge
        | None => merge
        end
  end.

Definition process_item (ctx : SyncContext) (i : ItemRecord) (seq : N) (report : SyncReport)
    : EM SyncReport :=
  s ← get_state;
  let vid := ir_vault_id i in
  let anchor := vault_anchor s vid ctx in
  match check_item_record i anchor with
  | Some IFMalformed => mret (reject seq (Some vid) Malformed report)
  | Some IFSignatureInvalid => mret (reject seq (Some vid) SignatureFailed report)
  | _ =>
      let floor := default 0 (get_vault_epoch_floor s vid) in
      if ir_key_epoch i <? floor then mret (reject seq (Some vid) EpochBelowFloor report)
      else if is_err (verify_record_authority s vid (ir_author_pubkey i) (ir_key_epoch i) anchor)
      then mret (reject seq (Some vid) AuthorityFailed report)
      else
        let merge : EM SyncReport :=
          fresh ← put_lww (put_item i);
          mret (if fresh : bool then bump_applied report else bump_stale report) in
        match get_item s vid (ir_item_id i) with
        | Some local =>
            if ir_version local =? ir_version i then
              if item_content_eq local i then mret report
              else mret (push_conflict (mkConflict vid (ir_item_id i) (ir_version i)) report)
            else merge
        | None => merge
        end
  end.

(** the check-transaction: put the manifest, and undo it unless the chain
    verifies with it *)
Definition apply_manifest (m : MembershipManifest) (anchor : bytes) : EM bool :=
  atomically (
    _ ← sstg (put_membership_manifest m);
    s ← get_state;
    match verify_chain_to_epoch s (mm_vault_id m) (mm_key_epoch m) anchor with
    | Ok _ => mret true
    | Err _ => throw (SVault AuthorityInvalid)
    end).

Definition process_manifest (ctx : SyncContext) (m : MembershipManifest) (seq : N)
    (report : SyncReport) : EM SyncReport :=
  s ← get_state;
  let vid := mm_vault_id m in
  let floor := default 0 (get_vault_epoch_floor s vid) in
  if mm_key_epoch m <? floor then mret (reject seq (Some vid) EpochBelowFloor report)
  else
    local ← lift_result (map_err SStorage (get_membership_manifest s vid (mm_key_epoch m)));
    let anchor := vault_anchor s vid ctx in
    match local with
    | Some local =>
        if manifest_content_eq local m then
          if floor <? mm_key_epoch m then
            if is_err (verify_chain_to_epoch s vid (mm_key_epoch m) anchor)
            then mret (reject seq (Some vid) AuthorityFailed report)
            else
              _ ← sstg (set_vault_epoch_floor vid (mm_key_epoch m));
              mret report
          else mret report
        else
          mret (push_conflict (mkConflict vid (lit "__manifest__") (mm_key_epoch m)) report)
    | None => fun s =>
        match apply_manifest m anchor s with
        | (Ok true, s') =>
            (if floor <? mm_key_epoch m then
               _ ← sstg (set_vault_epoch_floor vid (mm_key_epoch m));
               mret (bump_applied report)
             else mret (bump_applied report)) s'
        | (Ok false, s') => (Ok report, s')
        | (Err (SVault AuthorityInvalid), s') =>
            (Ok (reject seq (Some vid) AuthorityFailed report), s')
        | (Err e, s') => (Err e, s')
        end
    end.

Definition process_grant (ctx : SyncContext) (g : MembershipGrant) (seq : N)
    (report : SyncReport) : EM SyncReport :=
  s ← get_state;
  let vid := mg_vault_id g in
  let floor := default 0 (get_vault_epoch_floor s vid) in
  if mg_key_epoch g <? floor then mret (reject seq (Some vid) EpochBelowFloor report)
  else
    match verify_chain_to_epoch s vid (mg_key_epoch g) (vault_anchor s vid ctx) with
    | Err _ => mret (reject seq (Some vid) AuthorityFailed report)
    | Ok members =>
        if is_err (verify_grant g vid members)
        then mret (reject seq (Some vid) AuthorityFailed report)
        else
          _ ← sstg (put_membership_grant g);
          mret (bump_applied report)
    end.

Definition audit_aad (vault_id : bytes) : AssociatedData := mkAAD vault_id (lit "__audit__") 0.

Definition process_audit (ctx : SyncContext) (a : AuditObject) (seq : N) (report : SyncReport)
    : EM SyncReport :=
  let vid := ao_vault_id a in
  match verifying_key_from_bytes (ao_author_pubkey a) with
  | Err _ => mret (reject seq (Some vid) Malformed report)
  | Ok author =>
      if negb (bytes_eqb (ao_author_pubkey a) (genesis_owner ctx))
      then mret (reject seq (Some vid) AuthorityFailed report)
      else if is_err (verify_version author (from_content (audit_aad vid) (ao_entry_blob a))
                        (ao_signature a))
      then mret (reject seq (Some vid) SignatureFailed report)
      else
        _ ← sstg (append_audit (ao_entry_blob a) (ao_signature a) (ao_author_pubkey a));
        mret (bump_applied report)
  end.

Definition process_keyset (blob : bytes) (seq : N) (report : SyncReport) : EM SyncReport :=
  match keyset_from_bytes blob with
  | Err _ => mret (reject seq None Malformed report)
  | Ok record =>
      floor ← query (fun s => map_err SKeychain (keyset_gen_floor s));
      if generation record <? default 0 floor
      then mret (reject seq None GenerationBelowFloor report)
      else mret report
  end.

Definition process_account_state (ctx : SyncContext) (a : AccountStateObject) (seq : N)
    (report : SyncReport) : EM SyncReport :=
  if negb (bytes_eqb (aso_author_pubkey a) (genesis_owner ctx))
  then mret (reject seq None AuthorityFailed report)
  else if is_err (v_verify_account_state (aso_author_pubkey a) (aso_version a) (aso_payload a)
                    (aso_signature a))
  then mret (reject seq None SignatureFailed report)
  else if i64_max <? aso_version a then mret (reject seq None Malformed report)
  else
    s ← get_state;
    let existing := get_account_state s (aso_author_pubkey a) in
    let cur := default 0 (as_version <$> existing) in
    if aso_version a <? cur then mret (bump_stale report)
    else if (aso_version a =? cur)
            && match existing with
               | Some r => bytes_leb (aso_signature a) (as_signature r)
               | None => false
               end
    then mret (bump_stale report)
    else
      _ ← sstg (set_account_state (aso_author_pubkey a) (aso_version a) (aso_payload a)
                  (aso_signature a));
      mret (bump_applied report).

Definition process_object (ctx : SyncContext) (obj : SyncObject) (seq : N) (report : SyncReport)
    : EM SyncReport :=
  match obj with
  | OVault v => process_vault ctx v seq report
  | OItem i => process_item ctx i seq report
  | OManifest m => process_manifest ctx m seq report
  | OGrant g => process_grant ctx g seq report
  | OAudit a => process_audit ctx a seq report
  | OKeyset b => process_keyset b seq report
  | OAccountState a => process_account_state ctx a seq report
  end.

(** ** The pull loop *)

(** [SyncTransport], as the pull uses it: what the server answers to its
    [n]-th call, whatever it is *)
Record Transport := mkTransport {
  report_version : nat -> N;
  delta_since : nat -> N -> list (N * SyncObject)
}.

(** one object of a page: the cursor and the report so far *)
Definition pull_one (ctx : SyncContext) (cursor_key : bytes) (floor : N)
    (acc : N * SyncReport) (so : N * SyncObject) : EM (N * SyncReport) :=
  let '(cursor, report) := acc in
  let '(seq, obj) := so in
  if seq <=? floor then mret (cursor, reject seq (obj_vault_id obj) BelowCursor report)
  else
    report ← process_object ctx obj seq report;
    if cursor <? seq then
      cursor ← advance_cursor cursor_key cursor seq;
      mret (cursor, report)
    else mret (cursor, report).

Definition pull_page (ctx : SyncContext) (cursor_key : bytes) (floor : N)
    (delta : list (N * SyncObject)) (report : SyncReport) : EM (N * SyncReport) :=
  fold_each (sort_delta delta) (floor, report) (pull_one ctx cursor_key floor).

(** [call] counts the calls of [delta_since] *)
Fixpoint pull_loop (fuel : nat) (t : Transport) (ctx : SyncContext) (cursor_key : bytes)
    (call : nat) (cursor : N) (report : SyncReport) (s : Storage)
    : option (result SyncError SyncReport * Storage) :=
  match fuel with
  | O => None
  | S fuel' =>
      let delta := delta_since t call cursor in
      match delta with
      | [] => Some (Ok report, s)
      | _ =>
          match pull_page ctx cursor_key cursor delta report s with
          | (Err e, s') => Some (Err e, s')
          | (Ok (cursor', report'), s') =>
              if cursor' =? cursor then Some (Ok report', s')
              else pull_loop fuel' t ctx cursor_key (S call) cursor' report' s'
          end
      end
  end.

Definition sync_pull (fuel : nat) (t : Transport) (ctx : SyncContext) (s : Storage)
    : option (result SyncError SyncReport * Storage) :=
  let cursor_key := pull_cursor_key (tenant ctx) in
  let last := default 0 (get_sync_cursor s cursor_key) in
  if report_version t 0 <? last
  then Some (Err (TransportRollback (report_version t 1) last), s)
  else pull_loop fuel t ctx cursor_key 0 last empty_report s.

(** a targeted set of objects, the cursor left alone *)
Definition apply_pulled_objects (ctx : SyncContext) (objects : list (N * SyncObject))
    : EM SyncReport :=
  fold_each (sort_delta objects) empty_report
    (fun report so => process_object ctx so.2 so.1 report).

End pull.
