(* ===== verification/SyncPullThy.v ===== *)
(** * Theorems about pulling

    An abstract specification of what a pull may write ([pull_write]) and the
    refinement of every handler and of the loop to it; what follows for the
    store whatever the server sends; last-writer-wins of items; termination;
    convergence of account states; isolation of the per-server cursors. *)

From Stdlib Require Import Strings.Byte NArith ZArith Lia.
From stdpp Require Import base gmap sets list strings sorting countable relations.
From S2P Require Import Prelude Bytes CryptoPrims Crypto Storage StorageInv Keychain KeychainThy.
From S2P Require Import Membership MembershipThy Authority SyncObject SyncPull.

Local Open Scope N_scope.

(** ** The specification: authorised writes *)

Section spec.
Context `{P : CryptoPrims}.
Variable ctx : SyncContext.

Definition epoch_at_floor (s : Storage) (vid : bytes) (e : N) : Prop :=
  default 0 (epoch_floor s !! vid) <= e.

Definition vault_authentic (s : Storage) (v : VaultRecord) : Prop :=
  vault_signed v /\ epoch_at_floor s (vr_vault_id v) (vr_key_epoch v) /\
  may_author s (vr_vault_id v) (vr_author_pubkey v) (vr_key_epoch v)
    (vault_anchor s (vr_vault_id v) ctx).

Definition item_authentic (s : Storage) (i : ItemRecord) : Prop :=
  item_signed i /\ epoch_at_floor s (ir_vault_id i) (ir_key_epoch i) /\
  may_author s (ir_vault_id i) (ir_author_pubkey i) (ir_key_epoch i)
    (vault_anchor s (ir_vault_id i) ctx).

Definition audit_signed (a : AuditObject) : Prop :=
  exists author, verifying_key_from_bytes (ao_author_pubkey a) = Ok author /\
    verify_version author (from_content (audit_aad (ao_vault_id a)) (ao_entry_blob a))
      (ao_signature a) = Ok tt.

Definition account_authentic (a : AccountStateObject) : Prop :=
  aso_author_pubkey a = genesis_owner ctx /\
  v_verify_account_state (aso_author_pubkey a) (aso_version a) (aso_payload a)
    (aso_signature a) = Ok tt.

(** [a] wins over the stored state: a higher version, or the same version and
    a greater signature *)
Definition account_wins (a : AccountStateObject) (old : AccountStateRecord) : Prop :=
  as_version old < aso_version a \/
  (as_version old = aso_version a /\ bytes_leb (aso_signature a) (as_signature old) = false).

(** One write an object may cause. *)
Inductive pull_write : SyncObject -> Storage -> Storage -> Prop :=
| pw_vault v s t d :
    vault_authentic s v -> vr_version v <= i64_max -> vr_key_epoch v <= i64_max ->
    (forall old, vaults s !! vr_vault_id v = Some old -> vr_version (row old) < vr_version v) ->
    (tenant ctx <> [] -> t = tenant ctx) ->
    d = default false (dirty <$> vaults s !! vr_vault_id v) ->
    pull_write (OVault v) s
      (set_vaults (<[vr_vault_id v := mkRow (set_tenant t v) d]>) s)
| pw_adopt v s old :
    vault_authentic s v -> vaults s !! vr_vault_id v = Some old ->
    unbound (row old) = true -> is_cloud (row old) = true -> tenant ctx <> [] ->
    pull_write (OVault v) s
      (set_vaults (<[vr_vault_id v := mkRow (set_tenant (tenant ctx) (row old)) (dirty old)]>) s)
| pw_item i s c u d :
    item_authentic s i -> ir_version i <= i64_max -> ir_key_epoch i <= i64_max ->
    (forall old, items s !! item_key i = Some old -> ir_version (row old) < ir_version i) ->
    d = default false (dirty <$> items s !! item_key i) ->
    pull_write (OItem i) s (set_items (<[item_key i := mkRow (with_times c u i) d]>) s)
| pw_manifest m s s' v :
    epoch_at_floor s (mm_vault_id m) (mm_key_epoch m) -> mm_key_epoch m <= i64_max ->
    manifests s !! manifest_key m = None ->
    s' = set_manifests (<[manifest_key m := mkRow m false]>) s ->
    Trusted s' (mm_vault_id m) (vault_anchor s (mm_vault_id m) ctx) (mm_key_epoch m) v ->
    pull_write (OManifest m) s s'
| pw_floor m s v :
    default 0 (epoch_floor s !! mm_vault_id m) < mm_key_epoch m -> mm_key_epoch m <= i64_max ->
    Trusted s (mm_vault_id m) (vault_anchor s (mm_vault_id m) ctx) (mm_key_epoch m) v ->
    pull_write (OManifest m) s (set_epoch_floor (<[mm_vault_id m := mm_key_epoch m]>) s)
| pw_grant g s v d :
    epoch_at_floor s (mg_vault_id g) (mg_key_epoch g) -> mg_key_epoch g <= i64_max ->
    Trusted s (mg_vault_id g) (vault_anchor s (mg_vault_id g) ctx) (mg_key_epoch g) v ->
    verify_grant g (mg_vault_id g) v = Ok tt ->
    d = default false (dirty <$> grants s !! grant_key g) ->
    pull_write (OGrant g) s (set_grants (<[grant_key g := mkRow g d]>) s)
| pw_audit a s :
    ao_author_pubkey a = genesis_owner ctx -> audit_signed a ->
    len (audit_log s) + 1 <= i64_max ->
    pull_write (OAudit a) s (set_audit_log (fun l => l ++
      [mkAudit (len (audit_log s) + 1) (ao_entry_blob a) (ao_signature a) (ao_author_pubkey a)
         (clock s)]) s)
| pw_account a s :
    account_authentic a -> aso_version a <= i64_max ->
    (forall old, account_state s !! aso_author_pubkey a = Some old -> account_wins a old) ->
    pull_write (OAccountState a) s (set_account_tbl (<[aso_author_pubkey a :=
      mkAccountState (aso_author_pubkey a) (aso_version a) (aso_payload a) (aso_signature a)
        (clock s)]>) s).

(** One step of a pull that was offered the objects [offered]. *)
Inductive pull_step (offered : SyncObject -> Prop) : Storage -> Storage -> Prop :=
| ps_write o s s' : offered o -> pull_write o s s' -> pull_step offered s s'
| ps_cursor s to :
    default 0 (sync_state s !! pull_cursor_key (tenant ctx)) < to -> to <= i64_max ->
    pull_step offered s (set_sync_state (<[pull_cursor_key (tenant ctx) := to]>) s).

(** ** Lemmas: the checks *)

Lemma check_item_signed i o :
  match check_item_record i o with
  | Some IFMalformed | Some IFSignatureInvalid => True
  | _ => item_signed i
  end.
Proof.
  unfold check_item_record, item_signed.
  destruct (verifying_key_from_bytes (ir_author_pubkey i)) as [pk|]; [|done].
  destruct (is_err _) eqn:E; [done|]. apply is_err_verify in E.
  destruct (negb _); by exists pk.
Qed.

Lemma check_vault_signed v o :
  match check_vault_record v o with
  | Some IFMalformed | Some IFSignatureInvalid => True
  | _ => vault_signed v
  end.
Proof.
  unfold check_vault_record, vault_signed.
  destruct (verifying_key_from_bytes (vr_author_pubkey v)) as [pk|]; [|done].
  destruct (is_err _) eqn:E; [done|]. apply is_err_verify in E.
  destruct (negb _); by exists pk.
Qed.

Lemma is_err_unit {E} (r : result E unit) : is_err r = false <-> r = Ok tt.
Proof. rewrite is_err_false. split; [intros [[] ?]; done|eauto]. Qed.

(** who may author does not depend on the vault rows *)
Lemma may_author_vaults f s vid a e o : may_author s vid a e o -> may_author (set_vaults f s) vid a e o.
Proof.
  unfold may_author.
  change (vault_is_membership_mode (set_vaults f s) vid) with (vault_is_membership_mode s vid).
  change (latest_membership_epoch (set_vaults f s) vid) with (latest_membership_epoch s vid).
  change (epoch_floor (set_vaults f s)) with (epoch_floor s).
  destruct (vault_is_membership_mode s vid); [|done]. intros (? & ? & v & Hv & ?).
  split_and!; [done..|]. exists v. split; [|done]. by eapply trusted_ext, Hv.
Qed.

Lemma vault_authentic_vaults f s v : vault_authentic s v -> vault_authentic (set_vaults f s) v.
Proof. intros (? & ? & ?). split_and!; [done..|]. by apply may_author_vaults. Qed.

(** ** Lemmas: writes of the store *)

(** a store operation that fails writes nothing *)
Definition fails_clean {A} (m : SM A) : Prop := forall s e s', m s = (Err e, s') -> s' = s.

Lemma put_vault_clean v : fails_clean (put_vault v).
Proof. unfold put_vault. intros s e s' H. by run_cases H. Qed.
Lemma put_item_clean i : fails_clean (put_item i).
Proof. unfold put_item. intros s e s' H. by run_cases H. Qed.
Lemma put_membership_manifest_clean m : fails_clean (put_membership_manifest m).
Proof. unfold put_membership_manifest. intros s e s' H. by run_cases H. Qed.
Lemma put_membership_grant_clean g : fails_clean (put_membership_grant g).
Proof. unfold put_membership_grant. intros s e s' H. by run_cases H. Qed.
Lemma append_audit_clean e sg a : fails_clean (append_audit e sg a).
Proof. unfold append_audit. intros s e' s' H. by run_cases H. Qed.
Lemma set_sync_cursor_clean k v : fails_clean (set_sync_cursor k v).
Proof. unfold set_sync_cursor. intros s e s' H. by run_cases H. Qed.
Lemma set_vault_epoch_floor_clean k v : fails_clean (set_vault_epoch_floor k v).
Proof. unfold set_vault_epoch_floor. intros s e s' H. by run_cases H. Qed.
Lemma set_account_state_clean a v p sg : fails_clean (set_account_state a v p sg).
Proof. unfold set_account_state. intros s e s' H. by run_cases H. Qed.

Lemma put_lww_run (put : SM unit) s r s' :
  put_lww put s = (r, s') ->
  (r = Ok true /\ put s = (Ok tt, s')) \/
  (exists e, put s = (Err e, s') /\
     r = match e with VersionRollback _ _ => Ok false | _ => Err (SStorage e) end).
Proof.
  unfold put_lww. destruct (put s) as [[[]|e] s1]; [|destruct e]; intros [= <- <-]; eauto.
Qed.

Lemma put_lww_write o (put : SM unit) s r s' :
  fails_clean put -> (forall s1, put s = (Ok tt, s1) -> rtc (pull_write o) s s1) ->
  put_lww put s = (r, s') -> rtc (pull_write o) s s'.
Proof.
  intros Hc Hw [[_ H]|(e & H & _)]%put_lww_run; [by apply Hw|].
  apply Hc in H as ->. apply rtc_refl.
Qed.

Lemma sstg_run {A} (m : SM A) s r s' :
  sstg m s = (r, s') -> exists r0, m s = (r0, s') /\ r = map_err SStorage r0.
Proof. unfold sstg, err_into. destruct (m s) as [r0 s0]. intros [= <- <-]. eauto. Qed.

(** a store write followed by a pure answer *)
Lemma sstg_write {A B} o (m : SM A) (k : B) s r s' :
  fails_clean m -> (forall a s1, m s = (Ok a, s1) -> rtc (pull_write o) s s1) ->
  (sstg m ≫= fun _ => mret k) s = (r, s') -> rtc (pull_write o) s s'.
Proof.
  intros Hc Hw [(a & s1 & (r0 & Hm & Hr)%sstg_run & Hk)|(e & (r0 & Hm & Hr)%sstg_run & _)]%M_bind_run;
    destruct r0; simplify_eq/=; [injection Hk as <- <-; eauto|].
  apply Hc in Hm as ->. apply rtc_refl.
Qed.

(** ** Lemmas: each handler refines the specification *)

(** whatever [m] answers, it wrote what [o] may write and nothing else *)
Definition writes_only {A} (o : SyncObject) (m : EM A) : Prop :=
  forall s r s', store_wf s -> m s = (r, s') -> rtc (pull_write o) s s'.

Lemma writes_ret {A} o (a : A) : writes_only o (mret a).
Proof. intros s r s' _ [= <- <-]. apply rtc_refl. Qed.

Lemma get_bind {S E A} (f : S -> M S E A) s : (get_state ≫= f) s = f s s.
Proof. done. Qed.

Lemma writes_get {A} o (f : Storage -> EM A) :
  (forall s r s', store_wf s -> f s s = (r, s') -> rtc (pull_write o) s s') ->
  writes_only o (get_state ≫= f).
Proof. intros H s r s' Hwf. apply (H s r s' Hwf). Qed.

Lemma merge_vault_writes v report s r s' :
  vault_authentic s v ->
  (fresh ← put_lww (put_vault (set_tenant (tenant ctx) v));
   mret (if fresh : bool then bump_applied report else bump_stale report)) s = (r, s') ->
  rtc (pull_write (OVault v)) s s'.
Proof.
  intros Ha [(b & s1 & Hp & [= <- <-])|(e & Hp & _)]%M_bind_run;
    (eapply put_lww_write; [apply put_vault_clean| |exact Hp]);
    (intros s2 (Hv & He & Hold & t & Ht & ->)%put_vault_Ok; cbn [vr_vault_id set_tenant] in *;
     rewrite set_tenant_twice; apply rtc_once, pw_vault; done).
Qed.

Lemma set_vaults_ext f g s : f (vaults s) = g (vaults s) -> set_vaults f s = set_vaults g s.
Proof. unfold set_vaults. by intros ->. Qed.
Lemma set_vaults_id f s : f (vaults s) = vaults s -> set_vaults f s = s.
Proof. unfold set_vaults. intros ->. by destruct s. Qed.

Lemma adopt_writes v local s r s' :
  vault_authentic s v -> get_vault s (vr_vault_id v) = Some local ->
  (if unbound local && negb (length (tenant ctx) =? 0)%nat
   then sstg (adopt_pulled_binding (vr_vault_id v) (tenant ctx)) else mret tt) s = (r, s') ->
  r = Ok tt /\ rtc (pull_write (OVault v)) s s' /\ exists f, s' = set_vaults f s.
Proof.
  intros Ha (old & Hold & ->)%fmap_Some H.
  destruct (unbound (row old)) eqn:Hu; cbn [andb] in H;
    [|injection H as <- <-; split_and!; [done|apply rtc_refl|by exists id; destruct s]].
  destruct (length (tenant ctx) =? 0)%nat eqn:Ht; cbn [negb] in H;
    [injection H as <- <-; split_and!; [done|apply rtc_refl|by exists id; destruct s]|].
  apply Nat.eqb_neq in Ht.
  unfold sstg, err_into, adopt_pulled_binding, update_tenant in H. cbn in H. injection H as <- <-.
  split_and!; [done| |by eexists].
  destruct (is_cloud (row old)) eqn:Hc.
  - apply rtc_once. rewrite (set_vaults_ext _ (<[vr_vault_id v :=
      mkRow (set_tenant (tenant ctx) (row old)) (dirty old)]>));
      [apply pw_adopt; [done..|by destruct (tenant ctx)]|].
    rewrite (update_where_one _ _ _ (vr_vault_id v) old); [done|done| |].
    + by rewrite bytes_eqb_refl, Hc, Hu.
    + intros k a. rewrite !andb_true_iff, bytes_eqb_true. naive_solver.
  - rewrite set_vaults_id; [apply rtc_refl|]. apply update_where_nothing.
    intros k a Hk. destruct (bytes_eqb k _) eqn:E; [|done]. apply bytes_eqb_true in E as ->.
    rewrite Hold in Hk. injection Hk as <-. by rewrite Hc.
Qed.

(** the tail of [process_vault], once the record is authentic *)
Lemma place_vault_writes v report s r s' :
  vault_authentic s v ->
  (let merge : EM SyncReport :=
     fresh ← put_lww (put_vault (set_tenant (tenant ctx) v));
     mret (if fresh : bool then bump_applied report else bump_stale report) in
   match get_vault s (vr_vault_id v) with
   | Some local =>
       _ ← (if unbound local && negb (length (tenant ctx) =? 0)%nat
            then sstg (adopt_pulled_binding (vr_vault_id v) (tenant ctx)) else mret tt);
       if vr_version local =? vr_version v then
         if vault_content_eq local v then mret report
         else mret (push_conflict (mkConflict (vr_vault_id v) [] (vr_version v)) report)
       else merge
   | None => merge
   end) s = (r, s') ->
  rtc (pull_write (OVault v)) s s'.
Proof.
  intros Ha. cbv zeta. destruct (get_vault s (vr_vault_id v)) as [local|] eqn:Hl;
    [|by apply merge_vault_writes].
  intros [(u & s1 & Had & H)|(e & Had & _)]%M_bind_run;
    destruct (adopt_writes v local s _ _ Ha Hl Had) as (_ & Hw & f & ->); [|exact Hw].
  etrans; [exact Hw|]. apply (vault_authentic_vaults f) in Ha.
  destruct (_ =? _); [|by eapply merge_vault_writes].
  destruct (vault_content_eq _ _); injection H as <- <-; apply rtc_refl.
Qed.

Ltac unchanged H := by (injection H as <- <-; apply rtc_refl).

Lemma process_vault_writes v seq report :
  writes_only (OVault v) (process_vault ctx v seq report).
Proof.
  apply writes_get. intros s r s' Hwf H. cbv zeta in H.
  pose proof (check_vault_signed v (vault_anchor s (vr_vault_id v) ctx)) as Hsig.
  destruct (check_vault_record _ _) as [[]|]; try unchanged H;
    (destruct (N.ltb_spec (vr_key_epoch v) (default 0 (get_vault_epoch_floor s (vr_vault_id v))))
       as [|Hfl]; [unchanged H|]);
    (destruct (is_err (verify_record_authority _ _ _ _ _)) eqn:Hau; [unchanged H|]);
    apply is_err_unit, authority_spec in Hau; try done;
    (eapply place_vault_writes; [by split_and!|exact H]).
Qed.

Lemma merge_item_writes i report s r s' :
  item_authentic s i ->
  (fresh ← put_lww (put_item i);
   mret (if fresh : bool then bump_applied report else bump_stale report)) s = (r, s') ->
  rtc (pull_write (OItem i)) s s'.
Proof.
  intros Ha [(b & s1 & Hp & [= <- <-])|(e & Hp & _)]%M_bind_run;
    (eapply put_lww_write; [apply put_item_clean| |exact Hp]);
    (intros s2 Hi; pose proof (put_item_Ok _ _ _ Hi) as
       (Hs & [rw d] & Hit & (c & u & Hr) & Hd & Hold); cbn [row dirty] in *; subst rw;
     apply rtc_once; rewrite Hs, Hit; clear Hs Hit; unfold put_item in Hi;
     apply (pw_item i s c u); try done; run_cases Hi; rewrite ?checked_version_Ok in *; naive_solver).
Qed.

Lemma process_item_writes i seq report :
  writes_only (OItem i) (process_item ctx i seq report).
Proof.
  apply writes_get. intros s r s' Hwf H. cbv zeta in H.
  pose proof (check_item_signed i (vault_anchor s (ir_vault_id i) ctx)) as Hsig.
  destruct (check_item_record _ _) as [[]|]; try unchanged H;
    (destruct (N.ltb_spec (ir_key_epoch i) (default 0 (get_vault_epoch_floor s (ir_vault_id i))))
       as [|Hfl]; [unchanged H|]);
    (destruct (is_err (verify_record_authority _ _ _ _ _)) eqn:Hau; [unchanged H|]);
    apply is_err_unit, authority_spec in Hau; try done;
    (assert (item_authentic s i) by (by split_and!));
    (destruct (get_item _ _ _) as [local|]; [|by eapply merge_item_writes]);
    (destruct (_ =? _); [|by eapply merge_item_writes]);
    destruct (item_content_eq _ _); unchanged H.
Qed.

Lemma set_floor_write m s v r s' (k : SyncReport) :
  default 0 (epoch_floor s !! mm_vault_id m) < mm_key_epoch m ->
  Trusted s (mm_vault_id m) (vault_anchor s (mm_vault_id m) ctx) (mm_key_epoch m) v ->
  (sstg (set_vault_epoch_floor (mm_vault_id m) (mm_key_epoch m)) ≫= fun _ => mret k) s = (r, s') ->
  rtc (pull_write (OManifest m)) s s'.
Proof.
  intros Hfl Hv. apply sstg_write; [apply set_vault_epoch_floor_clean|]. intros [] s1 H.
  unfold set_vault_epoch_floor in H. run_cases H. rewrite checked_version_Ok in *; destruct_and?; subst.
  by eapply rtc_once, pw_floor.
Qed.

Lemma put_membership_manifest_Ok' m s s' :
  put_membership_manifest m s = (Ok tt, s') ->
  mm_key_epoch m <= i64_max /\
  s' = set_manifests (<[manifest_key m :=
         mkRow m (default false (dirty <$> manifests s !! manifest_key m))]>) s.
Proof.
  unfold put_membership_manifest. intros H. run_cases H. rewrite checked_version_Ok in *.
  by destruct_and?; subst.
Qed.

Lemma get_manifest_Ok s vid e o :
  get_membership_manifest s vid e = Ok o -> e <= i64_max /\ o = manifest_at s vid e.
Proof.
  unfold get_membership_manifest. intros (x & [-> He]%checked_version_Ok & [= <-])%bind_Ok. done.
Qed.

Lemma trusted_of_chain s vid e owner v :
  e <= i64_max -> verify_chain_to_epoch s vid e owner = Ok v -> Trusted s vid owner e v.
Proof.
  intros Hmax Hv. apply chain_is_trusted; [|done..]. unfold verify_chain_to_epoch in Hv.
  destruct (N.eqb_spec e 0); [done|lia].
Qed.

(** the check-transaction keeps the manifest only when the chain verifies with it *)
Lemma apply_manifest_run m anchor s r s' :
  manifest_at s (mm_vault_id m) (mm_key_epoch m) = None ->
  apply_manifest m anchor s = (r, s') ->
  match r with
  | Ok b => b = true /\ mm_key_epoch m <= i64_max /\
      s' = set_manifests (<[manifest_key m := mkRow m false]>) s /\
      exists v, Trusted s' (mm_vault_id m) anchor (mm_key_epoch m) v
  | Err _ => s' = s
  end.
Proof.
  intros Hnone H. destruct r as [b|e]; [|by apply atomically_Err in H].
  unfold apply_manifest in H. rewrite atomically_Ok in H.
  apply M_bind_Ok in H as ([] & s1 & (r0 & Hp & Hr)%sstg_run & H).
  destruct r0 as [[]|]; [|done]. apply put_membership_manifest_Ok' in Hp as [Hmax ->].
  apply fmap_None in Hnone. unfold manifest_key in H at 2. rewrite Hnone in H. cbn [fmap option_fmap option_map default] in H.
  remember (set_manifests _ s) as s1 eqn:Hs1.
  rewrite get_bind in H.
  destruct (verify_chain_to_epoch _ _ _ _) as [v|] eqn:Hv; [|done]. injection H as <- <-.
  split_and!; [done..|]. exists v. by apply trusted_of_chain.
Qed.

Lemma process_manifest_writes m seq report :
  writes_only (OManifest m) (process_manifest ctx m seq report).
Proof.
  apply writes_get. intros s r s' Hwf H. cbv zeta in H.
  destruct (N.ltb_spec (mm_key_epoch m) (default 0 (get_vault_epoch_floor s (mm_vault_id m))))
    as [|Hfl]; [unchanged H|].
  apply M_bind_run in H as [(local & s1 & [Hg <-]%pair_eq & H)|(e & [_ <-]%pair_eq & _)];
    [|apply rtc_refl].
  apply map_err_Ok, get_manifest_Ok in Hg as [Hmax ->].
  destruct (manifest_at s (mm_vault_id m) (mm_key_epoch m)) as [local|] eqn:Hl.
  - destruct (manifest_content_eq local m); [|unchanged H].
    destruct (N.ltb_spec (default 0 (get_vault_epoch_floor s (mm_vault_id m))) (mm_key_epoch m))
      as [Hlt|]; [|unchanged H].
    destruct (is_err _) eqn:Hv; [unchanged H|].
    apply is_err_false in Hv as [v Hv]. apply trusted_of_chain in Hv; [|done].
    by eapply set_floor_write.
  - destruct (apply_manifest _ _ _) as [r1 s1] eqn:Ha.
    pose proof (apply_manifest_run _ _ _ _ _ Hl Ha) as Hr. destruct r1 as [b|e].
    + destruct Hr as (-> & _ & -> & v & Hv).
      assert (pull_write (OManifest m) s
                (set_manifests (<[manifest_key m := mkRow m false]>) s)) as Hw.
      { eapply pw_manifest; [exact Hfl|exact Hmax|by apply fmap_None in Hl|reflexivity|exact Hv]. }
      destruct (N.ltb_spec (default 0 (get_vault_epoch_floor s (mm_vault_id m))) (mm_key_epoch m))
        as [Hlt|]; [|injection H as <- <-; by apply rtc_once].
      eapply rtc_l; [exact Hw|]. by eapply set_floor_write.
    + subst s1. destruct e as [| | | | | | |[]| | |]; unchanged H.
Qed.

Lemma process_grant_writes g seq report :
  writes_only (OGrant g) (process_grant ctx g seq report).
Proof.
  apply writes_get. intros s r s' Hwf H. cbv zeta in H.
  destruct (N.ltb_spec (mg_key_epoch g) (default 0 (get_vault_epoch_floor s (mg_vault_id g))))
    as [|Hfl]; [unchanged H|].
  destruct (verify_chain_to_epoch _ _ _ _) as [v|] eqn:Hv; [|unchanged H].
  destruct (is_err _) eqn:Hg; [unchanged H|]. apply is_err_unit in Hg.
  eapply sstg_write; [apply put_membership_grant_clean| |exact H].
  intros [] s1 Hp. unfold put_membership_grant in Hp. run_cases Hp.
  rewrite checked_version_Ok in *; destruct_and?; subst.
  apply rtc_once, (pw_grant _ _ v); [done|done| |done|done]. by apply trusted_of_chain.
Qed.

Lemma process_audit_writes a seq report :
  writes_only (OAudit a) (process_audit ctx a seq report).
Proof.
  intros s r s' Hwf H. unfold process_audit in H. cbv zeta in H.
  destruct (verifying_key_from_bytes _) as [pk|] eqn:Hpk; [|unchanged H].
  destruct (bytes_eqb _ _) eqn:Ho; [|unchanged H]. apply bytes_eqb_true in Ho. cbn [negb] in H.
  destruct (is_err _) eqn:Hs; [unchanged H|]. apply is_err_verify in Hs.
  eapply sstg_write; [apply append_audit_clean| |exact H].
  intros n s1 Hp. unfold append_audit in Hp. rewrite get_bind in Hp. cbv zeta in Hp.
  destruct (N.ltb_spec i64_max (len (audit_log s) + 1)) as [|Hmax]; [done|].
  injection Hp as <- <-. apply rtc_once, pw_audit; [done|by exists pk|done].
Qed.

Lemma process_keyset_writes b seq report :
  writes_only (OKeyset b) (process_keyset b seq report).
Proof.
  intros s r s' Hwf H. unfold process_keyset in H.
  destruct (keyset_from_bytes b) as [k|]; [|unchanged H].
  apply M_bind_run in H as [(fl & s1 & [_ <-]%pair_eq & H)|(e & [_ <-]%pair_eq & _)];
    [|apply rtc_refl].
  destruct (_ <? _); unchanged H.
Qed.

Lemma process_account_writes a seq report :
  writes_only (OAccountState a) (process_account_state ctx a seq report).
Proof.
  intros s r s' Hwf H. unfold process_account_state in H.
  destruct (bytes_eqb _ _) eqn:Ho; [|unchanged H]. apply bytes_eqb_true in Ho. cbn [negb] in H.
  destruct (is_err _) eqn:Hs; [unchanged H|]. apply is_err_unit in Hs.
  destruct (N.ltb_spec i64_max (aso_version a)) as [|Hmax]; [unchanged H|].
  unfold mbind at 1, M_bind at 1, get_state at 1 in H. cbv zeta in H.
  destruct (_ <? _) eqn:Hlt; [unchanged H|]. apply N.ltb_ge in Hlt.
  destruct (_ && _) eqn:Htie; [unchanged H|].
  eapply sstg_write; [apply set_account_state_clean| |exact H].
  intros [] s1 Hp. unfold set_account_state in Hp.
  apply M_bind_Ok in Hp as (n & s2 & [[-> _]%checked_version_Ok <-]%pair_eq & Hp).
  injection Hp as <-. apply rtc_once, pw_account; [done..|]. intros old Hold.
  unfold get_account_state in *. rewrite Hold in *.
  cbn [fmap option_fmap option_map default from_option id] in *. unfold account_wins.
  destruct (N.eqb_spec (aso_version a) (as_version old)); [|left; lia].
  right. split; [done|exact Htie].
Qed.

Lemma process_object_writes o seq report : writes_only o (process_object ctx o seq report).
Proof.
  destruct o; [apply process_vault_writes|apply process_item_writes|apply process_manifest_writes
    |apply process_grant_writes|apply process_audit_writes|apply process_keyset_writes
    |apply process_account_writes].
Qed.

End spec.

(** ** What authorised writes preserve *)

(** no row of a table is gone, and exactly the rows flagged dirty before are so now: a row
    that is new is not *)
Definition flagged `{Countable K} {A} (m : gmap K (Row A)) (k : K) : bool := default false (dirty <$> m !! k).
Definition same_dirty `{Countable K} {A} (m m' : gmap K (Row A)) : Prop :=
  dom m ⊆ dom m' /\ forall k, flagged m' k = flagged m k.

(** the order in which account states replace one another *)
Definition account_rank_le (a b : N * bytes) : Prop :=
  a.1 < b.1 \/ (a.1 = b.1 /\ bytes_le a.2 b.2).
Definition rank_of (r : AccountStateRecord) : N * bytes := (as_version r, as_signature r).

#[global] Instance account_rank_preorder : PreOrder account_rank_le.
Proof.
  split.
  - intros a. right. split; [done|apply bytes_leb_refl].
  - intros a b c [?|[? ?]] [?|[? ?]]; [left; lia..|]. right. split; [congruence|].
    by eapply bytes_leb_trans.
Qed.

(** what the server cannot change or undo, whatever it sends *)
Record pull_safe (tenant : bytes) (s s' : Storage) : Prop := {
  safe_wf : store_wf s -> store_wf s';
  safe_versions : versions_grow s s';
  safe_manifests : forall k r, manifests s !! k = Some r -> manifests s' !! k = Some r;
  safe_floors : forall v e, epoch_floor s !! v = Some e ->
    exists e', epoch_floor s' !! v = Some e' /\ e <= e';
  safe_audit : audit_extends s s';
  safe_accounts : forall k a, account_state s !! k = Some a ->
    exists a', account_state s' !! k = Some a' /\ account_rank_le (rank_of a) (rank_of a');
  safe_cursor : default 0 (sync_state s !! pull_cursor_key tenant) <=
                default 0 (sync_state s' !! pull_cursor_key tenant);
  safe_other_cursors : forall k, k <> pull_cursor_key tenant ->
    sync_state s' !! k = sync_state s !! k;
  safe_dirty : same_dirty (vaults s) (vaults s') /\ same_dirty (items s) (items s') /\
    same_dirty (manifests s) (manifests s') /\ same_dirty (grants s) (grants s');
  safe_untouched : meta s' = meta s /\ trust_anchor s' = trust_anchor s /\
    pinned_member_keys s' = pinned_member_keys s /\ known_hosts s' = known_hosts s /\
    item_history s' = item_history s
}.

#[global] Instance same_dirty_preorder `{Countable K} {A} :
  PreOrder (same_dirty (K := K) (A := A)).
Proof.
  split; [done|]. intros a b c [H1 H2] [H3 H4]. split; [by etrans|]. intros k. by rewrite H4.
Qed.

Lemma same_dirty_insert `{Countable K} {A} k x d (m : gmap K (Row A)) :
  d = default false (dirty <$> m !! k) -> same_dirty m (<[k := mkRow x d]> m).
Proof.
  intros ->. split; [rewrite dom_insert; set_solver|]. intros k'. unfold flagged.
  destruct (decide (k' = k)) as [->|Hne]; [by rewrite lookup_insert_eq|by rewrite lookup_insert_ne].
Qed.

#[global] Instance pull_safe_preorder t : PreOrder (pull_safe t).
Proof.
  split.
  - intros s. split; try done; try (eexists; split; [done|]; reflexivity).
  - intros a b c H1 H2. split.
    + intros Hwf. by apply H2, H1.
    + etrans; [apply H1|apply H2].
    + intros k r Hr. by apply H2, H1.
    + intros v e (e1 & He1 & ?)%H1. apply H2 in He1 as (e2 & ? & ?).
      exists e2. split; [done|lia].
    + etrans; [apply H1|apply H2].
    + intros k x (x1 & Hx1 & ?)%H1. apply H2 in Hx1 as (x2 & ? & ?).
      exists x2. split; [done|]. by etrans.
    + etrans; [apply H1|apply H2].
    + intros k Hk. rewrite (safe_other_cursors _ _ _ H2) by done. by apply H1.
    + destruct (safe_dirty _ _ _ H1), (safe_dirty _ _ _ H2). destruct_and?. split_and!; by etrans.
    + destruct (safe_untouched _ _ _ H1), (safe_untouched _ _ _ H2). destruct_and?.
      split_and!; congruence.
Qed.

(** the fields of [pull_safe] a write leaves alone *)
Ltac safe_frame :=
  split; cbn [meta vaults items item_history known_hosts manifests grants pinned_member_keys
    audit_log epoch_floor sync_state trust_anchor account_state clock set_vaults set_items
    set_manifests set_grants set_audit_log set_epoch_floor set_sync_state set_account_tbl];
  try done; try reflexivity;
  try (by intros ? ? ?; eexists; split; [eassumption|]; reflexivity);
  try (by split_and!; reflexivity);
  try (unfold audit_extends; reflexivity);
  try (intros ?; wf_fields; fail).

Section preserve.
Context `{P : CryptoPrims}.
Variable ctx : SyncContext.

Lemma versions_vaults s f :
  table_grows vault_newer (vaults s) (f (vaults s)) -> versions_grow s (set_vaults f s).
Proof. intros H. split; [exact H|reflexivity]. Qed.
Lemma versions_items s f :
  table_grows item_newer (items s) (f (items s)) -> versions_grow s (set_items f s).
Proof. intros H. split; [reflexivity|exact H]. Qed.

Lemma pull_write_safe o s s' : pull_write ctx o s s' -> pull_safe (tenant ctx) s s'.
Proof.
  intros H. destruct H as [v s t d Ha Hv He Hold Ht Hd|v s old Ha Hold Hu Hc Ht
    |i s c u d Ha Hv He Hold Hd|m s s' v Hfl He Hnone -> Htr|m s v Hfl He Htr
    |g s v d Hfl He Htr Hg Hd|a s Ho Hs Hmax|a s Ha Hv Hold]; safe_frame.
  - apply versions_vaults, table_grows_insert; [apply _|]. intros r Hr. left. by apply Hold.
  - split_and!; [by apply same_dirty_insert|reflexivity..].
  - intros Hwf. wf_fields. apply map_Forall_insert_2; [|apply Hwf].
    apply (wf_vaults _ Hwf) in Hold. by apply vault_row_ok_tenant.
  - apply versions_vaults, table_grows_insert; [apply _|]. intros r Hr. simplify_eq.
    right. by exists (tenant ctx).
  - split_and!; [|reflexivity..]. apply same_dirty_insert. by rewrite Hold.
  - apply versions_items, table_grows_insert; [apply _|]. intros r Hr. left. by apply Hold.
  - split_and!; [reflexivity|by apply same_dirty_insert|reflexivity..].
  - intros k r Hk. rewrite lookup_insert_ne; [done|]. intros <-. congruence.
  - split_and!; [reflexivity..|apply same_dirty_insert; by rewrite Hnone|reflexivity].
  - intros v' e He'. destruct (decide (v' = mm_vault_id m)) as [->|Hne].
    + rewrite He' in Hfl. simpl in Hfl. exists (mm_key_epoch m). rewrite lookup_insert_eq.
      split; [done|lia].
    + exists e. by rewrite lookup_insert_ne.
  - split_and!; [reflexivity..|by apply same_dirty_insert].
  - intros Hwf. wf_fields. apply audit_ok_append; [apply Hwf|done|simpl; lia].
  - unfold audit_extends. by eexists.
  - intros k old Hk. destruct (decide (k = aso_author_pubkey a)) as [->|Hne].
    + eexists. rewrite lookup_insert_eq. split; [done|]. apply Hold in Hk as [?|[? Hs]].
      * by left.
      * right. split; [done|]. destruct (bytes_leb_total (as_signature old) (aso_signature a));
          [done|congruence].
    + exists old. by rewrite lookup_insert_ne.
Qed.

Lemma pull_write_cursors o s s' : pull_write ctx o s s' -> sync_state s' = sync_state s.
Proof. destruct 1; subst; done. Qed.

Lemma pull_step_safe offered s s' : pull_step ctx offered s s' -> pull_safe (tenant ctx) s s'.
Proof.
  destruct 1 as [o s s' _ H|s to Hlt Hmax]; [by eapply pull_write_safe|]. safe_frame.
  - rewrite lookup_insert_eq. simpl. lia.
  - intros k Hk. by rewrite lookup_insert_ne.
Qed.

Lemma pull_steps_safe offered s s' :
  rtc (pull_step ctx offered) s s' -> pull_safe (tenant ctx) s s'.
Proof.
  induction 1 as [|s s1 s' Hs _ IH]; [reflexivity|]. etrans; [by eapply pull_step_safe|done].
Qed.

Lemma writes_are_steps (offered : SyncObject -> Prop) o s s' :
  offered o -> rtc (pull_write ctx o) s s' ->
  rtc (pull_step ctx offered) s s' /\ sync_state s' = sync_state s.
Proof.
  intros Ho. induction 1 as [|s s1 s' Hs _ [IH1 IH2]]; [by split; [apply rtc_refl|]|].
  split; [eapply rtc_l; [by eapply ps_write|done]|].
  rewrite IH2. by eapply pull_write_cursors.
Qed.

(** ** The loop *)

Abbreviation key := (pull_cursor_key (tenant ctx)).
Abbreviation cursor_of s := (default 0 (sync_state s !! key)).

(** [c'] is where the cursor in the store stands after a successful part of a pull *)
Definition pulled (offered : SyncObject -> Prop) (s s' : Storage) : Prop :=
  rtc (pull_step ctx offered) s s' /\ store_wf s'.

Lemma pull_one_spec (offered : SyncObject -> Prop) floor cursor report seq o s r s' :
  offered o -> store_wf s -> cursor_of s = cursor -> floor <= cursor ->
  pull_one ctx key floor (cursor, report) (seq, o) s = (r, s') ->
  pulled offered s s' /\
  match r with
  | Ok (c, _) => cursor_of s' = c /\ cursor <= c /\ seq <= c
  | Err _ => True
  end.
Proof.
  intros Ho Hwf Hc Hfl H. unfold pull_one in H.
  assert (forall s1, rtc (pull_step ctx offered) s s1 -> pulled offered s s1) as Hp.
  { intros s1 H1. split; [done|]. by eapply pull_steps_safe. }
  destruct (N.leb_spec seq floor) as [Hle|Hgt].
  { injection H as <- <-. split; [apply Hp, rtc_refl|]. split_and!; [done|lia..]. }
  apply M_bind_run in H as [(rep & s1 & Hpo & H)|(e & Hpo & ->)];
    apply (process_object_writes ctx o seq report s _ _ Hwf) in Hpo;
    apply (writes_are_steps offered) in Hpo as [Hst Hcur]; try done; [|by split; [apply Hp|]].
  destruct (N.ltb_spec cursor seq) as [Hlt|Hge];
    [|injection H as <- <-; rewrite Hcur; split; [by apply Hp|]; split_and!; done || lia].
  apply M_bind_run in H as [(c & s2 & Ha & [= <- <-])|(e & Ha & ->)];
    unfold advance_cursor in Ha; rewrite (proj2 (N.ltb_ge _ _)) in Ha by lia.
  - apply M_bind_Ok in Ha as ([] & s3 & (r0 & Hset & Hr0)%sstg_run & [= <- <-]).
    destruct r0 as [[]|]; [|done]. unfold set_sync_cursor in Hset.
    apply M_bind_Ok in Hset as (n & s4 & [[-> Hmax]%checked_version_Ok <-]%pair_eq & [= <-]).
    split.
    + apply Hp. eapply rtc_r; [exact Hst|]. apply ps_cursor; [|done]. rewrite Hcur. lia.
    + cbn [sync_state set_sync_state]. rewrite lookup_insert_eq. split_and!; [done|lia..].
  - split; [|done].
    apply M_bind_run in Ha as [(? & ? & _ & [= ])|(e1 & (r0 & Hset & Hr0)%sstg_run & _)].
    destruct r0 as [[]|e0]; [done|]. apply set_sync_cursor_clean in Hset as ->. by apply Hp.
Qed.

Lemma pulled_trans offered s s1 s' : pulled offered s s1 -> pulled offered s1 s' -> pulled offered s s'.
Proof. intros [? _] [? ?]. split; [by etrans|done]. Qed.

Lemma pull_fold_spec (offered : SyncObject -> Prop) floor l cursor report s r s' :
  Forall (fun so => offered so.2) l -> store_wf s -> cursor_of s = cursor -> floor <= cursor ->
  fold_each l (cursor, report) (pull_one ctx key floor) s = (r, s') ->
  pulled offered s s' /\
  match r with
  | Ok (c, _) => cursor_of s' = c /\ cursor <= c /\ Forall (fun so => so.1 <= c) l
  | Err _ => True
  end.
Proof.
  intros Hl. revert cursor report s.
  induction Hl as [|[seq o] l Ho _ IH]; intros cursor report s Hwf Hc Hfl H.
  - injection H as <- <-. split; [by split; [apply rtc_refl|]|]. split_and!; [done|lia|constructor].
  - cbn [fold_each] in H. apply M_bind_run in H as [([c rep] & s1 & Ho1 & H)|(e & Ho1 & ->)];
      apply (pull_one_spec offered) in Ho1 as [Hp1 Hc1]; try done.
    destruct Hc1 as (Hc1 & Hle1 & Hseq). apply IH in H as [Hp2 Hr]; [|apply Hp1|done|lia].
    split; [by eapply pulled_trans|]. destruct r as [[c' rep']|]; [|done].
    destruct Hr as (? & ? & ?). split_and!; [done|lia|]. constructor; [simpl; lia|done].
Qed.

Lemma pull_page_spec (offered : SyncObject -> Prop) delta cursor report s r s' :
  Forall (fun so => offered so.2) delta -> store_wf s -> cursor_of s = cursor ->
  pull_page ctx key cursor delta report s = (r, s') ->
  pulled offered s s' /\
  match r with
  | Ok (c, _) => cursor_of s' = c /\ cursor <= c /\ Forall (fun so => so.1 <= c) delta
  | Err _ => True
  end.
Proof.
  intros Hd Hwf Hc H. apply (pull_fold_spec offered) in H as [Hp Hr]; [|..]; try done.
  - split; [done|]. destruct r as [[c rep]|]; [|done]. destruct Hr as (? & ? & Hall).
    split_and!; [done..|]. by rewrite <-(stable_sort_perm delta_leb delta).
  - by rewrite (stable_sort_perm delta_leb delta).
Qed.

(** what the transport ever hands out *)
Definition offered_by (t : Transport) (o : SyncObject) : Prop :=
  exists call c seq, (seq, o) ∈ delta_since t call c.

Lemma offered_page t call c : Forall (fun so => offered_by t so.2) (delta_since t call c).
Proof. apply list.Forall_forall. intros [seq o] Hin. by exists call, c, seq. Qed.

(** the loop only takes authorised steps, and when it returns normally the
    last answer held nothing above the cursor *)
Lemma pull_loop_spec fuel t call report s r s' :
  store_wf s ->
  pull_loop fuel t ctx key call (cursor_of s) report s = Some (r, s') ->
  pulled (offered_by t) s s' /\
  (is_ok r = true -> exists call' c, c <= cursor_of s' /\
     Forall (fun so => so.1 <= cursor_of s') (delta_since t call' c)).
Proof.
  revert call report s. induction fuel as [|fuel IH]; intros call report s Hwf H; [done|].
  cbn [pull_loop] in H. destruct (delta_since t call (cursor_of s)) as [|so delta] eqn:Hd.
  { injection H as <- <-. split; [by split; [apply rtc_refl|]|].
    intros _. exists call, (cursor_of s). by rewrite Hd. }
  rewrite <-Hd in H. destruct (pull_page _ _ _ _ _ _) as [[[c rep]|e] s1] eqn:Hp;
    apply (pull_page_spec (offered_by t)) in Hp as [Hpl Hc]; try done; try apply offered_page.
  - destruct Hc as (<- & Hle & Hall). destruct (_ =? _) eqn:Heq.
    + injection H as <- <-. split; [done|]. intros _. by exists call, (cursor_of s).
    + apply IH in H as [Hp2 Hend]; [|apply Hpl]. split; [by eapply pulled_trans|done].
  - injection H as <- <-. by split.
Qed.

(** each round moves the cursor up, and it cannot pass [i64::MAX] *)
Lemma pull_loop_terminates fuel t call report s :
  store_wf s -> (N.to_nat (i64_max - cursor_of s) < fuel)%nat ->
  is_Some (pull_loop fuel t ctx key call (cursor_of s) report s).
Proof.
  revert call report s. induction fuel as [|fuel IH]; intros call report s Hwf Hf; [lia|].
  cbn [pull_loop]. destruct (delta_since t call (cursor_of s)) as [|so delta] eqn:Hd; [by eexists|].
  rewrite <-Hd. destruct (pull_page _ _ _ _ _ _) as [[[c rep]|e] s1] eqn:Hp; [|by eexists].
  apply (pull_page_spec (offered_by t)) in Hp as [[Hpl Hwf1] (<- & Hle & Hall)]; try done;
    try apply offered_page.
  destruct (N.eqb_spec (cursor_of s1) (cursor_of s)) as [|Hne]; [by eexists|].
  apply IH; [done|]. assert (cursor_of s1 <= i64_max); [|lia].
  destruct (sync_state s1 !! key) as [c|] eqn:Hk; simpl; [|unfold i64_max; lia].
  by apply (wf_cursors _ Hwf1) in Hk.
Qed.

Lemma pull_loop_fuel fuel fuel' t call cursor report s x :
  (fuel <= fuel')%nat -> pull_loop fuel t ctx key call cursor report s = Some x ->
  pull_loop fuel' t ctx key call cursor report s = Some x.
Proof.
  revert fuel' call cursor report s. induction fuel as [|fuel IH]; intros fuel' call cursor report s Hf;
    [done|]. destruct fuel' as [|fuel']; [lia|]. cbn [pull_loop].
  destruct (delta_since t call cursor); [done|].
  destruct (pull_page _ _ _ _ _ _) as [[[c rep]|e] s1]; [|done].
  destruct (_ =? _); [done|]. apply IH. lia.
Qed.
End preserve.

(** ** Items: last writer wins *)

Section item_table.
Context `{P : CryptoPrims}.
Variable ctx : SyncContext.

(** the answer and the store after an authentic item *)
Definition merged_item (i : ItemRecord) (report : SyncReport) (s : Storage)
    : SyncReport * Storage :=
  match items s !! item_key i with
  | None =>
      (bump_applied report,
       set_items (<[item_key i := mkRow (with_times (clock s) (clock s) i) false]>) s)
  | Some old =>
      if ir_version (row old) <? ir_version i then
        (bump_applied report,
         set_items (<[item_key i :=
           mkRow (with_times (ir_created_at (row old)) (clock s) i) (dirty old)]>) s)
      else if ir_version i <? ir_version (row old) then (bump_stale report, s)
      else if item_content_eq (row old) i then (report, s)
      else (push_conflict (mkConflict (ir_vault_id i) (ir_item_id i) (ir_version i)) report, s)
  end.

Lemma checked_version_le v : v <= i64_max -> checked_version v = Ok v.
Proof. intros H. by apply checked_version_Ok. Qed.

Lemma put_item_run i s :
  ir_version i <= i64_max -> ir_key_epoch i <= i64_max ->
  put_item i s =
  match items s !! item_key i with
  | None => (Ok tt, set_items (<[item_key i := mkRow (with_times (clock s) (clock s) i) false]>) s)
  | Some old =>
      if ir_version (row old) <? ir_version i then
        (Ok tt, set_items (<[item_key i :=
           mkRow (with_times (ir_created_at (row old)) (clock s) i) (dirty old)]>) s)
      else (Err (VersionRollback (ir_version (row old)) (ir_version i)), s)
  end.
Proof.
  intros Hv He. unfold put_item, mbind, M_bind, lift_result, get_state.
  rewrite !checked_version_le by done.
  destruct (items s !! item_key i) as [old|]; [|done]. by destruct (_ <? _).
Qed.

Lemma place_item_run i report s :
  ir_version i <= i64_max -> ir_key_epoch i <= i64_max ->
  (let merge : EM SyncReport :=
     fresh ← put_lww (put_item i);
     mret (if fresh : bool then bump_applied report else bump_stale report) in
   match get_item s (ir_vault_id i) (ir_item_id i) with
   | Some local =>
       if ir_version local =? ir_version i then
         if item_content_eq local i then mret report
         else mret (push_conflict (mkConflict (ir_vault_id i) (ir_item_id i) (ir_version i)) report)
       else merge
   | None => merge
   end) s = (Ok (merged_item i report s).1, (merged_item i report s).2).
Proof.
  intros Hv He. cbv zeta. unfold get_item, merged_item.
  change (ir_vault_id i, ir_item_id i) with (item_key i).
  pose proof (put_item_run i s Hv He) as Hput.
  destruct (items s !! item_key i) as [old|]; cbn [fmap option_fmap option_map].
  - destruct (N.eqb_spec (ir_version (row old)) (ir_version i)) as [Heq|Hne].
    + rewrite Heq, !N.ltb_irrefl. by destruct (item_content_eq _ _).
    + unfold mbind, M_bind, put_lww. rewrite Hput.
      destruct (N.ltb_spec (ir_version (row old)) (ir_version i)); [done|].
      by rewrite (proj2 (N.ltb_lt (ir_version i) _)) by lia.
  - unfold mbind, M_bind, put_lww. by rewrite Hput.
Qed.

Lemma process_item_authentic i seq report s :
  store_wf s -> item_authentic ctx s i -> ir_version i <= i64_max -> ir_key_epoch i <= i64_max ->
  process_item ctx i seq report s = (Ok (merged_item i report s).1, (merged_item i report s).2).
Proof.
  intros Hwf (Hsig & Hfl & Hau) Hv He. unfold process_item. unfold mbind at 1, M_bind at 1, get_state at 1. cbv zeta.
  pose proof (check_item_signed i (vault_anchor s (ir_vault_id i) ctx)) as Hc.
  assert (forall x, check_item_record i x <> Some IFMalformed /\
                    check_item_record i x <> Some IFSignatureInvalid) as Hgood.
  { intros x. destruct Hsig as (pk & Hpk & Hok). unfold check_item_record. rewrite Hpk, Hok.
    cbn [is_err is_ok negb]. by destruct (negb _). }
  destruct (Hgood (vault_anchor s (ir_vault_id i) ctx)) as [Hm Hs].
  destruct (check_item_record _ _) as [[]|]; try done;
    (rewrite (proj2 (N.ltb_ge _ _)) by exact Hfl;
     apply authority_spec in Hau; [|done]; rewrite Hau; cbn [is_err is_ok negb];
     by apply place_item_run).
Qed.

Lemma process_item_rejects i seq report s :
  store_wf s -> ~ item_authentic ctx s i ->
  exists why, process_item ctx i seq report s = (Ok (reject seq (Some (ir_vault_id i)) why report), s).
Proof.
  intros Hwf Hna. unfold process_item. unfold mbind at 1, M_bind at 1, get_state at 1. cbv zeta.
  pose proof (check_item_signed i (vault_anchor s (ir_vault_id i) ctx)) as Hsig.
  destruct (check_item_record _ _) as [[]|]; try (by eexists);
    (destruct (N.ltb_spec (ir_key_epoch i) (default 0 (get_vault_epoch_floor s (ir_vault_id i))))
       as [|Hfl]; [by eexists|]);
    (destruct (is_err (verify_record_authority _ _ _ _ _)) eqn:Hau; [by eexists|]);
    apply is_err_unit, authority_spec in Hau; try done; by destruct Hna.
Qed.
End item_table.

(** ** Account states: one winner *)

Definition rank_leb (x y : N * bytes) : bool :=
  (x.1 <? y.1) || ((x.1 =? y.1) && bytes_leb x.2 y.2).

Lemma rank_leb_le x y : rank_leb x y = true <-> account_rank_le x y.
Proof.
  unfold rank_leb, account_rank_le, bytes_le.
  by rewrite orb_true_iff, andb_true_iff, N.ltb_lt, N.eqb_eq.
Qed.
Lemma rank_leb_trans x y z : rank_leb x y = true -> rank_leb y z = true -> rank_leb x z = true.
Proof. rewrite !rank_leb_le. apply transitivity. Qed.
Lemma rank_leb_total x y : rank_leb x y = true \/ rank_leb y x = true.
Proof.
  rewrite !rank_leb_le. unfold account_rank_le, bytes_le.
  destruct (N.lt_total x.1 y.1) as [|[|]], (bytes_leb_total x.2 y.2); auto.
Qed.
Lemma rank_leb_antisym x y : rank_leb x y = true -> rank_leb y x = true -> x = y.
Proof.
  rewrite !rank_leb_le. unfold account_rank_le, bytes_le. destruct x as [v g], y as [w h]. simpl.
  intros [?|[-> ?]] [?|[? ?]]; try lia. f_equal. by apply bytes_leb_antisym.
Qed.

Section accounts.
Context `{P : CryptoPrims}.
Variable ctx : SyncContext.

Definition account_ok (a : AccountStateObject) : bool :=
  bytes_eqb (aso_author_pubkey a) (genesis_owner ctx)
  && negb (is_err (v_verify_account_state (aso_author_pubkey a) (aso_version a) (aso_payload a)
                     (aso_signature a)))
  && (aso_version a <=? i64_max).

Definition account_row (now : Z) (a : AccountStateObject) : AccountStateRecord :=
  mkAccountState (genesis_owner ctx) (aso_version a) (aso_payload a) (aso_signature a) now.

(** [a] against the stored state *)
Definition account_beats (a : AccountStateObject) (old : AccountStateRecord) : bool :=
  (as_version old <? aso_version a)
  || ((as_version old =? aso_version a) && negb (bytes_leb (aso_signature a) (as_signature old))).

Definition account_merge (now : Z) (old : option AccountStateRecord) (a : AccountStateObject)
    : option AccountStateRecord :=
  if account_ok a then
    match old with
    | Some r => if account_beats a r then Some (account_row now a) else Some r
    | None => Some (account_row now a)
    end
  else old.

Definition process_accounts (l : list (N * AccountStateObject)) (report : SyncReport)
    : EM SyncReport :=
  fold_each l report (fun report sa => process_account_state ctx sa.2 sa.1 report).

Lemma store_account_run a (report : SyncReport) s :
  aso_version a <= i64_max ->
  exists report' s',
    ((_ ← sstg (set_account_state (genesis_owner ctx) (aso_version a) (aso_payload a)
                 (aso_signature a)); mret report) : EM SyncReport) s = (Ok report', s') /\
    clock s' = clock s /\
    account_state s' !! genesis_owner ctx = Some (account_row (clock s) a) /\
    forall k, k <> genesis_owner ctx -> account_state s' !! k = account_state s !! k.
Proof.
  intros Hmax. unfold sstg, err_into, set_account_state, mbind, M_bind, lift_result, get_state.
  rewrite checked_version_le by done. do 2 eexists. split; [reflexivity|]. cbn.
  split_and!; [done|by rewrite lookup_insert_eq|].
  intros k Hk. by rewrite lookup_insert_ne.
Qed.

Lemma process_account_merge a seq report s :
  exists report' s', process_account_state ctx a seq report s = (Ok report', s') /\
    clock s' = clock s /\
    account_state s' !! genesis_owner ctx =
      account_merge (clock s) (account_state s !! genesis_owner ctx) a /\
    forall k, k <> genesis_owner ctx -> account_state s' !! k = account_state s !! k.
Proof.
  unfold process_account_state, account_merge, account_ok.
  destruct (bytes_eqb _ _) eqn:Ho; cbn [negb andb]; [|by do 2 eexists].
  apply bytes_eqb_true in Ho.
  destruct (is_err _); cbn [negb andb]; [by do 2 eexists|].
  rewrite N.leb_antisym. destruct (N.ltb_spec i64_max (aso_version a)) as [|Hmax]; cbn [negb];
    [by do 2 eexists|].
  unfold mbind at 1, M_bind at 1, get_state at 1. cbv zeta. unfold get_account_state. rewrite Ho.
  pose proof (store_account_run a (bump_applied report) s Hmax) as Hset.
  destruct (account_state s !! genesis_owner ctx) as [old|] eqn:Hold;
    cbn [fmap option_fmap option_map default from_option id].
  - unfold account_beats.
    destruct (N.ltb_spec (aso_version a) (as_version old)) as [Hlt|Hge].
    { rewrite (proj2 (N.ltb_ge _ _)), (proj2 (N.eqb_neq (as_version old) _)) by lia.
      by do 2 eexists. }
    rewrite (N.eqb_sym (as_version old)).
    destruct (N.eqb_spec (aso_version a) (as_version old)) as [Heq|Hne]; cbn [andb].
    + rewrite Heq, N.ltb_irrefl. cbn [orb]. rewrite <-Heq.
      destruct (bytes_leb _ _); [by do 2 eexists|apply Hset].
    + rewrite (proj2 (N.ltb_lt _ _)) by lia. cbn [orb]. apply Hset.
  - rewrite (proj2 (N.ltb_ge _ _)) by lia. rewrite andb_false_r. apply Hset.
Qed.

Lemma process_accounts_merge l report s :
  exists report' s', process_accounts l report s = (Ok report', s') /\
    account_state s' !! genesis_owner ctx =
      foldl (account_merge (clock s)) (account_state s !! genesis_owner ctx) (l.*2) /\
    forall k, k <> genesis_owner ctx -> account_state s' !! k = account_state s !! k.
Proof.
  revert report s. induction l as [|[seq a] l IH]; intros report s; [by do 2 eexists|].
  destruct (process_account_merge a seq report s) as (rep1 & s1 & H1 & Hclk & Hm & Hother).
  destruct (IH rep1 s1) as (rep2 & s2 & H2 & Hf & Hother2).
  exists rep2, s2. split_and!.
  - unfold process_accounts. cbn [fold_each]. apply M_bind_run. left. by exists rep1, s1.
  - rewrite Hf, Hm, Hclk. done.
  - intros k Hk. rewrite Hother2, Hother; done.
Qed.

(** two valid states of the same version and signature carry the same payload *)
Definition signature_binds (l : list AccountStateObject) : Prop :=
  forall a b, a ∈ l -> b ∈ l -> account_ok a = true -> account_ok b = true ->
    aso_version a = aso_version b -> aso_signature a = aso_signature b ->
    aso_payload a = aso_payload b.

Lemma account_beats_rank a r :
  account_beats a r = negb (rank_leb (aso_version a, aso_signature a) (rank_of r)).
Proof.
  unfold account_beats, rank_leb, rank_of. cbn [fst snd].
  destruct (N.ltb_spec (as_version r) (aso_version a)), (N.ltb_spec (aso_version a) (as_version r)),
    (N.eqb_spec (as_version r) (aso_version a)), (N.eqb_spec (aso_version a) (as_version r));
    try lia; done.
Qed.

(** one of the two rows is the greater, or they are the same row *)
Ltac pick_winner := first [done | exfalso; intuition discriminate
  | match goal with H : _ -> _ -> account_row _ _ = _ |- _ => by rewrite (H eq_refl eq_refl) end].

Lemma account_merge_comm now o a b :
  signature_binds [a; b] ->
  account_merge now (account_merge now o a) b = account_merge now (account_merge now o b) a.
Proof.
  intros Hb. unfold account_merge.
  destruct (account_ok a) eqn:Ea, (account_ok b) eqn:Eb; try done.
  specialize (Hb a b ltac:(set_solver) ltac:(set_solver) Ea Eb).
  set (A := (aso_version a, aso_signature a)). set (B := (aso_version b, aso_signature b)).
  assert (rank_leb A B = true -> rank_leb B A = true -> account_row now a = account_row now b) as Heq.
  { intros HAB HBA. injection (rank_leb_antisym _ _ HAB HBA) as Hv Hs.
    unfold account_row. by rewrite Hv, Hs, (Hb Hv Hs). }
  pose proof (rank_leb_total A B) as Htot.
  assert (forall x, account_beats b (account_row x a) = negb (rank_leb B A)) as HbA
    by (intros x; apply account_beats_rank).
  assert (forall x, account_beats a (account_row x b) = negb (rank_leb A B)) as HaB
    by (intros x; apply account_beats_rank).
  destruct o as [r|]; rewrite ?(account_beats_rank a r), ?(account_beats_rank b r); fold A B.
  - pose proof (rank_leb_trans A (rank_of r) B) as T1. pose proof (rank_leb_trans B (rank_of r) A) as T2.
    pose proof (rank_leb_total A (rank_of r)) as T3. pose proof (rank_leb_total B (rank_of r)) as T4.
    destruct (rank_leb A (rank_of r)) eqn:EA, (rank_leb B (rank_of r)) eqn:EB; cbn [negb];
      rewrite ?HbA, ?HaB, ?account_beats_rank; fold A B; rewrite ?EA, ?EB;
      destruct (rank_leb A B), (rank_leb B A); cbn [negb]; pick_winner.
  - rewrite HbA, HaB. destruct (rank_leb A B), (rank_leb B A); cbn [negb]; pick_winner.
Qed.

Lemma account_fold_perm now o l l' :
  l ≡ₚ l' -> signature_binds l ->
  foldl (account_merge now) o l = foldl (account_merge now) o l'.
Proof.
  intros Hp. revert o. induction Hp as [|a l l' Hp IH|a b l|l1 l2 l3 H12 IH1 H23 IH2];
    intros o Hb; cbn [foldl].
  - done.
  - apply IH. intros x y Hx Hy. apply Hb; by right.
  - f_equal. apply account_merge_comm. intros x y Hx Hy. apply Hb; set_solver.
  - rewrite IH1 by done. apply IH2. intros x y Hx Hy. apply Hb; by rewrite H12.
Qed.
End accounts.

(** ** Cursor keys *)

Lemma hex_digit_inj a b : a < 16 -> b < 16 -> hex_digit a = hex_digit b -> a = b.
Proof.
  intros Ha Hb. unfold hex_digit. intros H.
  assert (forall x, x < 256 -> Byte.to_N (byte_of_N x) = x) as Hto.
  { intros x Hx. rewrite to_N_byte_of_N. by apply N.mod_small. }
  apply (f_equal Byte.to_N) in H.
  destruct (N.ltb_spec a 10), (N.ltb_spec b 10); rewrite !Hto in H by lia; lia.
Qed.

Lemma hex_inj a b : hex a = hex b -> a = b.
Proof.
  revert b. induction a as [|x a IH]; intros [|y b]; unfold hex; cbn; [done..|].
  intros [= H1 H2 H3]. f_equal; [|by apply IH].
  pose proof (to_N_bound x). pose proof (to_N_bound y).
  apply hex_digit_inj in H1; [|apply N.Div0.div_lt_upper_bound; lia..].
  apply hex_digit_inj in H2; [|apply N.mod_lt; lia..].
  rewrite <-(byte_of_N_to_N x), <-(byte_of_N_to_N y). f_equal.
  rewrite (N.div_mod (Byte.to_N x) 16), (N.div_mod (Byte.to_N y) 16) by lia. by rewrite H1, H2.
Qed.

(** every key family the engine keeps per server *)
Definition key_prefixes : list bytes :=
  [PULL_CURSOR_PREFIX; PUSH_CURSOR_PREFIX; ACCT_PUSH_CURSOR_PREFIX;
   PUSH_REFUSED_PREFIX; PUSH_FORBIDDEN_PREFIX].

(** no prefix, with the separator, starts another one *)
Lemma key_prefixes_free p q :
  p ∈ key_prefixes -> q ∈ key_prefixes -> (p ++ lit ":") `prefix_of` (q ++ lit ":") -> p = q.
Proof.
  assert (Forall (fun p => Forall (fun q =>
    (p ++ lit ":") `prefix_of` (q ++ lit ":") -> p = q) key_prefixes) key_prefixes) as H.
  { assert (bool_decide (Forall (fun p => Forall (fun q =>
      bool_decide ((p ++ lit ":") `prefix_of` (q ++ lit ":")) = true -> p = q) key_prefixes)
        key_prefixes) = true) as Hb by (vm_compute; reflexivity).
    apply bool_decide_eq_true in Hb. eapply Forall_impl; [exact Hb|]. intros x Hx.
    eapply Forall_impl; [exact Hx|]. intros y Hy Hpre. by apply Hy, bool_decide_eq_true. }
  rewrite list.Forall_forall in H. intros Hp Hq. specialize (H p Hp).
  rewrite list.Forall_forall in H. by apply H.
Qed.

Lemma tenant_key_inj p q t t' :
  p ∈ key_prefixes -> q ∈ key_prefixes -> tenant_key p t = tenant_key q t' -> p = q /\ t = t'.
Proof.
  intros Hp Hq H. unfold tenant_key in H. rewrite !app_assoc in H.
  assert (p = q) as <-.
  { assert ((p ++ lit ":") `prefix_of` (q ++ lit ":") \/ (q ++ lit ":") `prefix_of` (p ++ lit ":"))
      as [Hpre|Hpre]; [|by apply key_prefixes_free|symmetry; by apply key_prefixes_free].
    apply (prefix_weak_total _ _ ((p ++ lit ":") ++ hex_lower t)); [by eexists|].
    rewrite H. by eexists. }
  split; [done|]. apply app_inv_head in H. by apply hex_inj.
Qed.

(** ** Sample data *)

Definition sample_ctx : SyncContext := mkContext sample_owner (lit "t").

Definition sample_sign (vo : VersionedObject) : bytes :=
  unwrap_or [] (@sign_version Sample.prims (ek_signing (signing (sample_keyset x01))) vo).

Definition sample_signed_item (ver : N) : ItemRecord :=
  mkItemRecord (lit "v") (lit "i") 1 (lit "content") (lit "key") ver false
    (sample_sign (@from_content Sample.prims (item_aad (lit "v") (lit "i") ver) (lit "content")))
    sample_owner 0 0 1.

(** two pages, out of order, then nothing *)
Definition sample_transport : Transport := mkTransport (fun _ => 9)
  (fun call _ => match call with
     | O => [(4, OItem (sample_signed_item 2)); (3, OItem (sample_signed_item 1)); (0, OKeyset [])]
     | 1%nat => [(7, OItem (sample_signed_item 1))]
     | _ => []
     end).

Example sample_pull :
  fst <$> @sync_pull Sample.prims 4 sample_transport sample_ctx sample_shared =
  Some (Ok (mkReport 2 1 [] [mkRejected 0 None BelowCursor])).
Proof. vm_compute. reflexivity. Qed.

(** ** Theorems *)

(** C1. Verify before apply. Whatever a server answers, everything a pull
    writes is an authorised write of an object the server handed out: a record
    of the vault or item table carries its author's signature, is at or above
    the epoch floor and its author may write at that epoch; a manifest is kept
    only when authority flows from the vault's anchor through it; a grant is
    verified against the trusted member set; an audit entry or account state
    is signed by the account itself; the cursor only moves forward. *)
Theorem pull_refines_spec `{P : CryptoPrims} fuel t ctx s r s' :
  store_wf s -> sync_pull fuel t ctx s = Some (r, s') ->
  rtc (pull_step ctx (offered_by t)) s s'.
Proof.
  intros Hwf. unfold sync_pull. cbv zeta. destruct (_ <? _).
  - intros [= <- <-]. apply rtc_refl.
  - intros [[H _] _]%pull_loop_spec; done.
Qed.

Lemma sample_pull_runs : exists r s',
  @sync_pull Sample.prims 4 sample_transport sample_ctx sample_shared = Some (r, s') /\
  is_ok r = true.
Proof.
  pose proof sample_pull as H.
  destruct (sync_pull _ _ _ _) as [[r s']|]; [|done]. exists r, s'. split; [done|].
  by injection H as ->.
Qed.

Lemma pull_refines_spec_witness : exists s',
  rtc (@pull_step Sample.prims sample_ctx (offered_by sample_transport)) sample_shared s'.
Proof.
  destruct sample_pull_runs as (r & s' & H & _). exists s'.
  by apply (@pull_refines_spec Sample.prims _ _ _ _ _ _ sample_shared_wf H).
Defined.

(** C2. What no server can do through a pull, whether it succeeds or fails:
    break the store's invariant; roll back or drop a vault or item version,
    a manifest, an epoch floor, an audit entry, an account state or the pull
    cursor; touch another server's cursors, the keyset generation floor and
    the other meta slots, the pinned owners and member keys, the known hosts
    or the version history; or change which rows are flagged as waiting to be pushed, among
    the vaults, items, manifests and grants: no flag is set or cleared, and a row that comes
    with the pull has none. *)
Theorem pull_is_safe `{P : CryptoPrims} fuel t ctx s r s' :
  store_wf s -> sync_pull fuel t ctx s = Some (r, s') -> pull_safe (tenant ctx) s s'.
Proof.
  intros Hwf. unfold sync_pull. cbv zeta. destruct (_ <? _).
  - intros [= <- <-]. reflexivity.
  - intros [[H _] _]%pull_loop_spec; [|done]. by eapply pull_steps_safe.
Qed.

Lemma pull_is_safe_witness : exists s', pull_safe (lit "t") sample_shared s'.
Proof.
  destruct sample_pull_runs as (r & s' & H & _). exists s'.
  by apply (@pull_is_safe Sample.prims _ _ _ _ _ _ sample_shared_wf H).
Defined.

(** A pull always returns: each round moves the cursor up and the cursor
    cannot pass [i64::MAX], so that many rounds suffice whatever the server
    does, and more fuel changes nothing. A server that reports less than the
    cursor is refused and nothing is written. When the pull succeeds, the last
    answer of the server held nothing above the cursor left in the store. *)
Theorem pull_terminates `{P : CryptoPrims} t ctx s :
  store_wf s ->
  let last := default 0 (sync_state s !! pull_cursor_key (tenant ctx)) in
  exists r s',
    (forall fuel, (N.to_nat i64_max < fuel)%nat -> sync_pull fuel t ctx s = Some (r, s')) /\
    (report_version t 0 < last ->
       r = Err (TransportRollback (report_version t 1) last) /\ s' = s) /\
    (is_ok r = true -> exists call c,
       c <= default 0 (sync_state s' !! pull_cursor_key (tenant ctx)) /\
       Forall (fun so => so.1 <= default 0 (sync_state s' !! pull_cursor_key (tenant ctx)))
         (delta_since t call c)).
Proof.
  intros Hwf. cbv zeta. unfold sync_pull, get_sync_cursor. cbv zeta.
  set (last := default 0 _).
  destruct (N.ltb_spec (report_version t 0) last) as [Hlt|Hge].
  - do 2 eexists. split_and!; [done..|]. done.
  - destruct (pull_loop_terminates ctx (S (N.to_nat i64_max)) t 0 empty_report s Hwf)
      as [[r s'] Hr]; [lia|].
    exists r, s'. split_and!; [|lia|by eapply pull_loop_spec].
    intros fuel Hf. by eapply pull_loop_fuel.
Qed.

Lemma pull_terminates_witness : exists r s', forall fuel, (N.to_nat i64_max < fuel)%nat ->
  @sync_pull Sample.prims fuel sample_transport sample_ctx sample_shared = Some (r, s').
Proof.
  destruct (@pull_terminates Sample.prims sample_transport sample_ctx sample_shared
    sample_shared_wf) as (r & s' & H & _). by exists r, s'.
Defined.

(** Last writer wins, item by item. An item that is not authentic (bad
    signature, below the epoch floor, or an author without the right to write)
    is reported as rejected and nothing is written. An authentic one replaces
    an older row, keeping its creation time and its dirty flag, is skipped
    when older, ignored when identical, and at the same version with other
    content is reported as a conflict that leaves the local row alone. *)
Theorem pulled_item_outcome `{P : CryptoPrims} ctx i seq report s :
  store_wf s -> ir_version i <= i64_max -> ir_key_epoch i <= i64_max ->
  (item_authentic ctx s i ->
     process_item ctx i seq report s =
       (Ok (merged_item i report s).1, (merged_item i report s).2)) /\
  (~ item_authentic ctx s i -> exists why,
     process_item ctx i seq report s =
       (Ok (reject seq (Some (ir_vault_id i)) why report), s)).
Proof.
  intros Hwf Hv He. split; intros Ha; [by apply process_item_authentic|by apply process_item_rejects].
Qed.

Lemma sample_item_authentic :
  @item_authentic Sample.prims sample_ctx sample_shared (sample_signed_item 2).
Proof.
  set (i := sample_signed_item 2). set (owner := vault_anchor sample_shared (ir_vault_id i) sample_ctx).
  assert (@verify_record_authority Sample.prims sample_shared (ir_vault_id i) (ir_author_pubkey i)
            (ir_key_epoch i) owner = Ok tt) as Hau by (vm_compute; reflexivity).
  pose proof (@authority_spec Sample.prims sample_shared (ir_vault_id i) (ir_author_pubkey i)
    (ir_key_epoch i) owner sample_shared_wf) as [Hspec _].
  assert (@item_sig_failure Sample.prims i = None) as Hsig by (vm_compute; reflexivity).
  split; [by apply item_sig_failure_None|]. split; [vm_compute; discriminate|]. exact (Hspec Hau).
Qed.

Lemma pulled_item_outcome_witness :
  @process_item Sample.prims sample_ctx (sample_signed_item 2) 4 empty_report sample_shared =
  (Ok (merged_item (sample_signed_item 2) empty_report sample_shared).1,
   (merged_item (sample_signed_item 2) empty_report sample_shared).2).
Proof.
  apply (@pulled_item_outcome Sample.prims sample_ctx (sample_signed_item 2) 4 empty_report
    sample_shared sample_shared_wf).
  - vm_compute. discriminate.
  - vm_compute. discriminate.
  - exact sample_item_authentic.
Defined.

(** Devices of one account converge. Whatever order account states arrive
    in, processing never fails and every device ends with the same state, as
    long as a signature belongs to one payload; no other account's state is
    touched. *)
Theorem account_states_converge `{P : CryptoPrims} ctx l l' report report' s :
  l ≡ₚ l' -> signature_binds ctx (l.*2) ->
  exists r1 s1 r2 s2,
    process_accounts ctx l report s = (Ok r1, s1) /\
    process_accounts ctx l' report' s = (Ok r2, s2) /\
    account_state s1 = account_state s2 /\
    forall k, k <> genesis_owner ctx -> account_state s1 !! k = account_state s !! k.
Proof.
  intros Hp Hb.
  destruct (process_accounts_merge ctx l report s) as (r1 & s1 & H1 & Hf1 & Ho1).
  destruct (process_accounts_merge ctx l' report' s) as (r2 & s2 & H2 & Hf2 & Ho2).
  exists r1, s1, r2, s2. split_and!; [done|done| |done]. apply map_eq. intros k.
  destruct (decide (k = genesis_owner ctx)) as [->|Hk].
  - rewrite Hf1, Hf2. apply account_fold_perm; [by apply fmap_Permutation|done].
  - by rewrite Ho1, Ho2.
Qed.

Definition sample_account (ver : N) (payload : string) : AccountStateObject :=
  mkAccountObject sample_owner ver (lit payload)
    (@ks_sign_account_state Sample.prims (sample_keyset x01) ver (lit payload)).

Lemma account_states_converge_witness :
  exists r1 s1 r2 s2,
    @process_accounts Sample.prims sample_ctx
      [(1, sample_account 2 "a"); (2, sample_account 2 "b")] empty_report sample_shared = (Ok r1, s1) /\
    @process_accounts Sample.prims sample_ctx
      [(2, sample_account 2 "b"); (1, sample_account 2 "a")] empty_report sample_shared = (Ok r2, s2) /\
    account_state s1 = account_state s2 /\
    forall k, k <> sample_owner -> account_state s1 !! k = account_state sample_shared !! k.
Proof.
  apply (@account_states_converge Sample.prims sample_ctx); [constructor|].
  intros a b Ha Hb _ _ _. cbn [fmap list_fmap snd] in Ha, Hb.
  apply list_elem_of_In in Ha, Hb. simpl in Ha, Hb.
  destruct Ha as [<-|[<-|[]]], Hb as [<-|[<-|[]]]; intros Hs; try reflexivity;
    exfalso; revert Hs; vm_compute; discriminate.
Defined.

(** The per-server slots of the engine never collide: two keys of the five
    families (pull cursor, push cursor, account push cursor, refused and
    forbidden items) are equal only for the same family and the same server. *)
Theorem server_slots_disjoint p q t t' :
  p ∈ key_prefixes -> q ∈ key_prefixes ->
  tenant_key p t = tenant_key q t' -> p = q /\ t = t'.
Proof. apply tenant_key_inj. Qed.

Lemma server_slots_disjoint_witness :
  PULL_CURSOR_PREFIX = PULL_CURSOR_PREFIX /\ lit "a" = lit "a".
Proof. apply (server_slots_disjoint _ _ (lit "a") (lit "a")); [left|left|reflexivity]. Defined.

(** A targeted pull ("pull this vault") writes only what the handed-over
    objects authorise and moves no cursor. *)
Theorem targeted_pull_spec `{P : CryptoPrims} ctx objects s r s' :
  store_wf s -> apply_pulled_objects ctx objects s = (r, s') ->
  rtc (pull_step ctx (fun o => exists seq, (seq, o) ∈ objects)) s s' /\
  sync_state s' = sync_state s /\ pull_safe (tenant ctx) s s'.
Proof.
  intros Hwf H. set (off := fun o => exists seq, (seq, o) ∈ objects).
  assert (rtc (pull_step ctx off) s s' /\ sync_state s' = sync_state s) as [Hst Hc];
    [|split_and!; [done..|by eapply pull_steps_safe]].
  unfold apply_pulled_objects in H.
  assert (Forall (fun so => off so.2) (sort_delta objects)) as Hoff.
  { unfold sort_delta. rewrite stable_sort_perm. apply list.Forall_forall.
    intros [seq o] Hin. by exists seq. }
  revert s Hwf H. generalize empty_report.
  induction Hoff as [|[seq o] l Ho _ IH]; intros report s Hwf H; cbn [fold_each] in H.
  - injection H as <- <-. split; [apply rtc_refl|done].
  - apply M_bind_run in H as [(rep & s1 & Ho1 & H)|(e & Ho1 & ->)];
      apply (process_object_writes ctx o seq report s _ _ Hwf) in Ho1;
      apply (writes_are_steps ctx off) in Ho1 as [Hst Hcur]; try done.
    assert (store_wf s1) as Hwf1 by (by eapply pull_steps_safe).
    destruct (IH rep s1 Hwf1 H) as [Hst2 Hc2]. split; [by etrans|congruence].
Qed.

Lemma targeted_pull_spec_witness : exists r s',
  @apply_pulled_objects Sample.prims sample_ctx [(5, OItem (sample_signed_item 1))] sample_shared
    = (r, s') /\ sync_state s' = sync_state sample_shared.
Proof.
  destruct (@apply_pulled_objects Sample.prims sample_ctx [(5, OItem (sample_signed_item 1))]
    sample_shared) as [r s'] eqn:H.
  exists r, s'. split; [reflexivity|].
  destruct (@targeted_pull_spec Sample.prims _ _ _ _ _ sample_shared_wf H) as (_ & Hc & _).
  exact Hc.
Defined.

(** ** What a pull does not check *)

(** the deletion flag, the item type, the wrapped key and (in a single-owner
    vault) the epoch of an item are outside its signature *)
Definition with_tombstone (b : bool) (i : ItemRecord) : ItemRecord :=
  mkItemRecord (ir_vault_id i) (ir_item_id i) (ir_item_type i) (ir_content_blob i)
    (ir_wrapped_item_key i) (ir_version i) b (ir_signature i) (ir_author_pubkey i)
    (ir_created_at i) (ir_updated_at i) (ir_key_epoch i).

(** A server can hand out an authentic live item as deleted: the flag is not
    signed, so the item passes every check and is stored as a tombstone. *)
Lemma deletion_flag_not_authenticated `{P : CryptoPrims} ctx s i b :
  item_authentic ctx s i -> item_authentic ctx s (with_tombstone b i).
Proof. done. Qed.

Example server_deletes_live_item :
  let run := @process_item Sample.prims sample_ctx (with_tombstone true (sample_signed_item 1)) 5
               empty_report sample_shared in
  run.1 = Ok (bump_applied empty_report) /\
  (ir_tombstone <$> get_item run.2 (lit "v") (lit "i")) = Some true.
Proof. vm_compute. split; reflexivity. Qed.

(** One manifest with an epoch above [i64::MAX], signed by nobody, is a fatal
    error rather than a rejected object: the pull stops there with the cursor
    unmoved, so the next pull meets it again. *)
Lemma oversized_manifest_blocks_pull `{P : CryptoPrims} t ctx m seq s fuel :
  store_wf s -> i64_max < mm_key_epoch m ->
  default 0 (sync_state s !! pull_cursor_key (tenant ctx)) < seq ->
  default 0 (sync_state s !! pull_cursor_key (tenant ctx)) <= report_version t 0 ->
  (forall c, delta_since t 0 c = [(seq, OManifest m)]) ->
  sync_pull (S fuel) t ctx s = Some (Err (SStorage VersionOutOfRange), s).
Proof.
  intros Hwf Hm Hseq Hrep Hd. unfold sync_pull, get_sync_cursor. cbv zeta.
  rewrite (proj2 (N.ltb_ge _ _)) by done. cbn [pull_loop]. rewrite Hd.
  assert (forall rep, process_manifest ctx m seq rep s = (Err (SStorage VersionOutOfRange), s)) as Hp.
  { intros rep. unfold process_manifest. unfold mbind at 1, M_bind at 1, get_state at 1. cbv zeta.
    assert (default 0 (get_vault_epoch_floor s (mm_vault_id m)) <= i64_max) as Hfl.
    { unfold get_vault_epoch_floor. destruct (epoch_floor s !! mm_vault_id m) as [e|] eqn:He; simpl;
        [by apply (wf_floor _ Hwf) in He|unfold i64_max; lia]. }
    rewrite (proj2 (N.ltb_ge _ _)) by lia.
    unfold mbind at 1, M_bind at 1, lift_result, get_membership_manifest, checked_version.
    by rewrite (proj2 (N.leb_gt _ _)). }
  unfold pull_page, sort_delta. cbn [stable_sort foldr sort_insert fold_each].
  unfold mbind, M_bind, pull_one. rewrite (proj2 (N.leb_gt _ _)) by done.
  cbn [process_object]. unfold mbind, M_bind. by rewrite Hp.
Qed.
