(* ===== verification/SyncPush.v ===== *)
(** * Pushing to a server (rust-core/crates/sync/src/engine.rs)

    The push behind [sync_push] and its variants: the queues in dependency
    order, the cut into bounded requests, halving of a refused request,
    settling of what was accepted, remembered refusals, and
    [discard_unpushable]. The world of a push is the store, the [Push] struct
    and the log of requests sent so far with whether each was accepted; the
    server is an arbitrary function of the number of requests before and the
    objects sent. Loops take fuel; running out is [OutOfFuel], never a result of
    the code, and [SyncPushThy] shows that it does not happen. *)

From Stdlib Require Import Strings.Byte NArith ZArith Lia.
From stdpp Require Import base gmap sets list strings sorting countable.
From S2P Require Import Prelude Bytes CryptoPrims Crypto Storage Keychain Membership Authority SyncObject SyncPull.

Local Open Scope N_scope.

(** ** Limits and reports *)

Definition PUSH_BATCH_MAX_OBJECTS : N := 500.
Definition PUSH_BATCH_MAX_BYTES : N := 1024 * 1024.

Record TooLarge := mkTooLarge {
  tl_vault_id : bytes;
  tl_item_id : bytes;
  tl_item_type : N;
  tl_version : N;
  tl_bytes : N
}.

Inductive UnpushableReason := NotAuthorized | ServerRefused.

Record Unpushable := mkUnpushable {
  up_vault_id : bytes;
  up_item_id : bytes;
  up_item_type : N;
  up_version : N;
  up_author_pubkey : bytes;
  up_reason : UnpushableReason
}.

#[global] Instance TooLarge_eq_dec : EqDecision TooLarge.
Proof. solve_decision. Defined.
#[global] Instance UnpushableReason_eq_dec : EqDecision UnpushableReason.
Proof. solve_decision. Defined.
#[global] Instance Unpushable_eq_dec : EqDecision Unpushable.
Proof. solve_decision. Defined.

Definition unpushable_new (head : ItemVersion) (reason : UnpushableReason) : Unpushable :=
  mkUnpushable (iv_vault_id head) (iv_item_id head) (iv_item_type head) (iv_version head)
    (iv_author_pubkey head) reason.

Definition unpushable_is (u : Unpushable) (head : ItemVersion) : bool :=
  bytes_eqb (up_vault_id u) (iv_vault_id head)
  && bytes_eqb (up_item_id u) (iv_item_id head)
  && (up_version u =? iv_version head).

Record PushReport := mkPushReport {
  pushed : N;
  pr_too_large : list TooLarge;
  pr_unpushable : list Unpushable
}.

(** ** Remembered refusals *)

Definition read_refused : Reader TooLarge :=
  vid ← r_bytes; iid ← r_bytes; ty ← r_u32; v ← r_u64; n ← r_u64;
  mret (mkTooLarge vid iid ty v n).

Definition read_forbidden : Reader Unpushable :=
  vid ← r_bytes; iid ← r_bytes; ty ← r_u32; v ← r_u64; a ← r_bytes;
  mret (mkUnpushable vid iid ty v a ServerRefused).

(** [while !r.is_empty() { match read(&mut r) { .. } }]: each entry takes at
    least one byte, so as many rounds as bytes are enough *)
Fixpoint read_all {A} (fuel : nat) (read : Reader A) (b : bytes) : option (list A) :=
  match b with
  | [] => Some []
  | _ =>
      match fuel with
      | O => None
      | S fuel' =>
          match read b with
          | (Ok e, rest) => cons e <$> read_all fuel' read rest
          | (Err _, _) => None
          end
      end
  end.

Definition load_list {A} (read : Reader A) (s : Storage) (key : bytes) : list A :=
  match get_meta s key with
  | None => []
  | Some b => default [] (read_all (length b) read b)
  end.

Definition load_refused : Storage -> bytes -> list TooLarge := load_list read_refused.
Definition load_forbidden : Storage -> bytes -> list Unpushable := load_list read_forbidden.

Definition put_refused (out : bytes) (r : TooLarge) : result SyncError bytes :=
  out ← put_bytes out (tl_vault_id r);
  out ← put_bytes out (tl_item_id r);
  Ok (out ++ u32_be (tl_item_type r) ++ u64_be (tl_version r) ++ u64_be (tl_bytes r)).

Definition put_forbidden (out : bytes) (r : Unpushable) : result SyncError bytes :=
  out ← put_bytes out (up_vault_id r);
  out ← put_bytes out (up_item_id r);
  put_bytes (out ++ u32_be (up_item_type r) ++ u64_be (up_version r)) (up_author_pubkey r).

(** [for r in refused { put .. }] *)
Fixpoint put_all {A} (put : bytes -> A -> result SyncError bytes) (out : bytes) (l : list A)
    : result SyncError bytes :=
  match l with
  | [] => Ok out
  | r :: l => out ← put out r; put_all put out l
  end.

Definition save_list {A} (put : bytes -> A -> result SyncError bytes) (key : bytes) (l : list A)
    : EM unit :=
  out ← lift_result (put_all put [] l);
  sstg (set_meta key out).

Definition save_refused : bytes -> list TooLarge -> EM unit := save_list put_refused.
Definition save_forbidden : bytes -> list Unpushable -> EM unit := save_list put_forbidden.

Definition forget_push_refusals (tenant : bytes) : EM unit :=
  _ ← save_refused (push_refused_key tenant) [];
  save_forbidden (push_forbidden_key tenant) [].

(** ** One push in progress *)

Inductive Sent := SentDirty | SentAccount | SentAudit (seq : N).

Record Outgoing := mkOutgoing {
  og_objects : list SyncObject;
  og_sent : list Sent;
  og_sizes : list N;
  og_bytes : N
}.

Definition empty_outgoing : Outgoing := mkOutgoing [] [] [] 0.
Definition outgoing_add (r : Outgoing) (object : SyncObject) (sent : Sent) (size : N) : Outgoing :=
  mkOutgoing (og_objects r ++ [object]) (og_sent r ++ [sent]) (og_sizes r ++ [size])
    (sat_add64 (og_bytes r) size).

(** the answers of [Authority], kept per (vault, author, epoch) *)
Abbreviation Seen := (gmap (bytes * bytes * N) bool).

Record Push := mkPush {
  own : option bytes;
  seen : Seen;
  refused_key : bytes;
  forbidden_key : bytes;
  acct_key : bytes;
  audit_key : bytes;
  before_items : list (SyncObject * Sent);
  q_items : list (bytes * bytes);
  after_items : list (SyncObject * Sent);
  too_large : list TooLarge;
  unpushable : list Unpushable;
  acct_left : N;
  acct_version : option N
}.

Definition set_seen f p := mkPush (own p) (f (seen p)) (refused_key p) (forbidden_key p)
  (acct_key p) (audit_key p) (before_items p) (q_items p) (after_items p) (too_large p)
  (unpushable p) (acct_left p) (acct_version p).
Definition set_before f p := mkPush (own p) (seen p) (refused_key p) (forbidden_key p)
  (acct_key p) (audit_key p) (f (before_items p)) (q_items p) (after_items p) (too_large p)
  (unpushable p) (acct_left p) (acct_version p).
Definition set_q_items f p := mkPush (own p) (seen p) (refused_key p) (forbidden_key p)
  (acct_key p) (audit_key p) (before_items p) (f (q_items p)) (after_items p) (too_large p)
  (unpushable p) (acct_left p) (acct_version p).
Definition set_after f p := mkPush (own p) (seen p) (refused_key p) (forbidden_key p)
  (acct_key p) (audit_key p) (before_items p) (q_items p) (f (after_items p)) (too_large p)
  (unpushable p) (acct_left p) (acct_version p).
Definition set_too_large f p := mkPush (own p) (seen p) (refused_key p) (forbidden_key p)
  (acct_key p) (audit_key p) (before_items p) (q_items p) (after_items p) (f (too_large p))
  (unpushable p) (acct_left p) (acct_version p).
Definition set_unpushable f p := mkPush (own p) (seen p) (refused_key p) (forbidden_key p)
  (acct_key p) (audit_key p) (before_items p) (q_items p) (after_items p) (too_large p)
  (f (unpushable p)) (acct_left p) (acct_version p).
Definition set_acct f g p := mkPush (own p) (seen p) (refused_key p) (forbidden_key p)
  (acct_key p) (audit_key p) (before_items p) (q_items p) (after_items p) (too_large p)
  (unpushable p) (f (acct_left p)) (g (acct_version p)).

Inductive Stop := Failed (e : SyncError) | OutOfFuel.

Record World := mkWorld {
  w_store : Storage;
  w_push : Push;
  w_log : list (list SyncObject * bool)
}.

Definition PM := M World Stop.

Definition on_store {A} (m : EM A) : PM A := fun w =>
  let '(r, s') := m (w_store w) in (map_err Failed r, mkWorld s' (w_push w) (w_log w)).
Definition read_store {A} (f : Storage -> A) : PM A := fun w => (Ok (f (w_store w)), w).
Definition read_push {A} (f : Push -> A) : PM A := fun w => (Ok (f (w_push w)), w).
Definition on_push (f : Push -> Push) : PM unit :=
  modify (fun w => mkWorld (w_store w) (f (w_push w)) (w_log w)).

(** ** The authorship check of a push *)

Section may_write.
Context `{P : CryptoPrims}.

Definition may_write (s : Storage) (own : option bytes) (seen : Seen) (head : ItemVersion)
    : result SyncError (bool * Seen) :=
  match own with
  | None => Ok (true, seen)
  | Some own =>
      let key := (iv_vault_id head, iv_author_pubkey head, iv_key_epoch head) in
      match seen !! key with
      | Some known => Ok (known, seen)
      | None =>
          let anchor := anchor_of s (iv_vault_id head) own in
          match verify_record_authority s (iv_vault_id head) (iv_author_pubkey head)
                  (iv_key_epoch head) anchor with
          | Err (VStorage e) => Err (SVault (VStorage e))
          | outcome => Ok (is_ok outcome, <[key := is_ok outcome]> seen)
          end
      end
  end.

(** [unpushable_items]: the dirty items no push delivers, all servers *)
Fixpoint bound_tenants (vs : list VaultRecord) (tenants : list bytes) : list bytes :=
  match vs with
  | [] => tenants
  | v :: vs =>
      if negb (unbound v) && negb (existsb (bytes_eqb (vr_sync_tenant v)) tenants)
      then bound_tenants vs (tenants ++ [vr_sync_tenant v])
      else bound_tenants vs tenants
  end.

Fixpoint unpushable_heads (s : Storage) (own : bytes) (refused : list Unpushable)
    (heads : list ItemVersion) (seen : Seen) : result SyncError (list Unpushable * Seen) :=
  match heads with
  | [] => Ok ([], seen)
  | head :: heads =>
      match List.find (fun r => unpushable_is r head) refused with
      | Some r =>
          '(out, seen) ← unpushable_heads s own refused heads seen;
          Ok (r :: out, seen)
      | None =>
          '(allowed, seen) ← may_write s (Some own) seen head;
          '(out, seen) ← unpushable_heads s own refused heads seen;
          Ok (if allowed : bool then (out, seen)
              else (unpushable_new head NotAuthorized :: out, seen))
      end
  end.

Fixpoint unpushable_tenants (s : Storage) (own : bytes) (tenants : list bytes) (seen : Seen)
    : result SyncError (list Unpushable) :=
  match tenants with
  | [] => Ok []
  | tenant :: tenants =>
      let refused := load_forbidden s (push_forbidden_key tenant) in
      '(out, seen) ← unpushable_heads s own refused (list_dirty_bound_item_versions s tenant) seen;
      rest ← unpushable_tenants s own tenants seen;
      Ok (out ++ rest)
  end.

Definition unpushable_items (s : Storage) (own : bytes) : result SyncError (list Unpushable) :=
  unpushable_tenants s own (bound_tenants (list_vaults s) []) ∅.

(** ** Filling the queues *)

Definition server_refused (p : Push) : list Unpushable :=
  filter (fun u => up_reason u = ServerRefused) (unpushable p).

Definition push_save_forbidden : PM unit :=
  p ← read_push id;
  on_store (save_forbidden (forbidden_key p) (server_refused p)).

Definition queue_item (remembered : list TooLarge) (forbidden : list Unpushable)
    (head : ItemVersion) : PM unit :=
  let known := List.find (fun r =>
    bytes_eqb (tl_vault_id r) (iv_vault_id head)
    && bytes_eqb (tl_item_id r) (iv_item_id head)
    && (tl_version r =? iv_version head)) remembered in
  match known with
  | Some r => on_push (set_too_large (fun l => l ++ [r]))
  | None =>
      match List.find (fun f => unpushable_is f head) forbidden with
      | Some f => on_push (set_unpushable (fun l => l ++ [f]))
      | None =>
          s ← read_store id;
          p ← read_push id;
          '(allowed, seen) ← lift_result (map_err Failed (may_write s (own p) (seen p) head));
          _ ← on_push (set_seen (fun _ => seen));
          if allowed : bool
          then on_push (set_q_items (fun l => l ++ [(iv_vault_id head, iv_item_id head)]))
          else on_push (set_unpushable (fun l => l ++ [unpushable_new head NotAuthorized]))
      end
  end.

Definition queue (target_tenant : bytes) : PM unit :=
  s ← read_store id;
  _ ← on_push (set_before (fun q => q ++
        ((fun m => (OManifest m, SentDirty)) <$> list_dirty_bound_manifests s target_tenant)));
  _ ← on_push (set_before (fun q => q ++
        ((fun v => (OVault v, SentDirty)) <$> list_dirty_bound_vaults s target_tenant)));
  _ ← on_push (set_before (fun q => q ++
        ((fun g => (OGrant g, SentDirty)) <$> list_dirty_bound_grants s target_tenant)));
  p ← read_push id;
  let remembered := load_refused s (refused_key p) in
  let forbidden := load_forbidden s (forbidden_key p) in
  _ ← for_each (list_dirty_bound_item_versions s target_tenant)
        (queue_item remembered forbidden);
  p ← read_push id;
  _ ← (if decide (too_large p = remembered) then mret tt
       else on_store (save_refused (refused_key p) (too_large p)));
  if decide (server_refused p = forbidden) then mret tt else push_save_forbidden.

(** [Option<u64>::max]: [None] is below every [Some] *)
Definition option_max (a : option N) (b : N) : option N :=
  match a with Some a => Some (N.max a b) | None => Some b end.

Definition account_object (st : AccountStateRecord) : SyncObject :=
  OAccountState (mkAccountObject (as_author_pubkey st) (as_version st) (as_payload st)
    (as_signature st)).
Definition audit_object (e : AuditEntry) : SyncObject :=
  OAudit (mkAuditObject [] (ae_entry_blob e) (ae_signature e) (ae_author_pubkey e)).

Definition queue_account_wide : PM unit :=
  s ← read_store id;
  p ← read_push id;
  let last_acct := default 0 (get_sync_cursor s (acct_key p)) in
  _ ← for_each (list_account_states s) (fun st =>
        if last_acct <? as_version st then
          _ ← on_push (set_acct (fun n => sat_add64 n 1) (fun v => option_max v (as_version st)));
          on_push (set_after (fun q => q ++ [(account_object st, SentAccount)]))
        else mret tt);
  let push_cursor := default 0 (get_sync_cursor s (audit_key p)) in
  for_each (list_audit s push_cursor) (fun e =>
    on_push (set_after (fun q => q ++ [(audit_object e, SentAudit (ae_seq e))]))).

(** [while let Some((vault_id, item_id)) = self.items.pop_front()] *)
Fixpoint next_item (s : Storage) (q : list (bytes * bytes))
    : option ItemRecord * list (bytes * bytes) :=
  match q with
  | [] => (None, [])
  | (vault_id, item_id) :: q =>
      match get_item s vault_id item_id with
      | Some item => (Some item, q)
      | None => next_item s q
      end
  end.

Definition take_next : PM (option (SyncObject * Sent)) :=
  p ← read_push id;
  match before_items p with
  | queued :: rest => _ ← on_push (set_before (fun _ => rest)); mret (Some queued)
  | [] =>
      s ← read_store id;
      let '(item, rest) := next_item s (q_items p) in
      _ ← on_push (set_q_items (fun _ => rest));
      match item with
      | Some item => mret (Some (OItem item, SentDirty))
      | None =>
          match after_items p with
          | queued :: rest => _ ← on_push (set_after (fun _ => rest)); mret (Some queued)
          | [] => mret None
          end
      end
  end.

(** ** Sending *)

Variable server : nat -> list SyncObject -> result SyncError (list N).

(** [transport.push_objects(objects)]: the answer is a value, the request is logged *)
Definition push_objects (objects : list SyncObject) : PM (result SyncError (list N)) := fun w =>
  let answer := server (length (w_log w)) objects in
  (Ok answer, mkWorld (w_store w) (w_push w) (w_log w ++ [(objects, is_ok answer)])).

Definition clear_dirty (obj : SyncObject) : EM unit :=
  match obj with
  | OVault v => sstg (clear_vault_dirty (vr_vault_id v))
  | OItem i => sstg (clear_item_dirty (ir_vault_id i) (ir_item_id i))
  | OManifest m => sstg (clear_manifest_dirty (mm_vault_id m) (mm_key_epoch m))
  | OGrant g => sstg (clear_grant_dirty (mg_vault_id g) (mg_member_pubkey g) (mg_key_epoch g))
  | OAudit _ | OKeyset _ | OAccountState _ => mret tt
  end.

(** the body of the settling transaction: accounts counted, last audit number *)
Definition settle_one (acc : N * option N) (os : SyncObject * Sent) : EM (N * option N) :=
  let '(accounts, audit_seq) := acc in
  let '(obj, sent) := os in
  match sent with
  | SentDirty => _ ← clear_dirty obj; mret (accounts, audit_seq)
  | SentAccount => mret (sat_add64 accounts 1, audit_seq)
  | SentAudit seq => mret (accounts, Some seq)
  end.

(** [v.get(start..end)] *)
Definition get_range {A} (l : list A) (part : nat * nat) : option (list A) :=
  if ((part.1 <=? part.2) && (part.2 <=? length l))%nat
  then Some (take (part.2 - part.1) (drop part.1 l)) else None.

Definition settle (request : Outgoing) (part : nat * nat) : PM unit :=
  match get_range (og_objects request) part, get_range (og_sent request) part with
  | Some objects, Some sent =>
      '(accounts, audit_seq) ← on_store (atomically
          (fold_each (zip objects sent) (0, None) settle_one));
      p ← read_push id;
      _ ← match audit_seq with
          | Some seq => on_store (sstg (set_sync_cursor (audit_key p) seq))
          | None => mret tt
          end;
      _ ← on_push (set_acct (fun n => n - accounts) id);
      p ← read_push id;
      if acct_left p =? 0 then
        match acct_version p with
        | Some version =>
            _ ← on_push (set_acct id (fun _ => None));
            on_store (sstg (set_sync_cursor (acct_key p) version))
        | None => mret tt
        end
      else mret tt
  | _, _ => mret tt
  end.

Definition refuse (request : Outgoing) (index : nat) : PM unit :=
  match og_objects request !! index, og_sizes request !! index with
  | Some (OItem it), Some n =>
      _ ← on_push (set_too_large (fun l => l ++
            [mkTooLarge (ir_vault_id it) (ir_item_id it) (ir_item_type it) (ir_version it) n]));
      p ← read_push id;
      on_store (save_refused (refused_key p) (too_large p))
  | _, _ => throw (Failed PayloadTooLarge)
  end.

Definition forbid (request : Outgoing) (index : nat) : PM unit :=
  match og_objects request !! index with
  | Some (OItem it) =>
      _ ← on_push (set_unpushable (fun l => l ++
            [mkUnpushable (ir_vault_id it) (ir_item_id it) (ir_item_type it) (ir_version it)
               (ir_author_pubkey it) ServerRefused]));
      push_save_forbidden
  | _ => throw (Failed Forbidden)
  end.

(** the stack of parts still to send, its top first *)
Fixpoint send_parts (fuel : nat) (request : Outgoing) (pending : list (nat * nat)) (pushed : N)
    : PM N :=
  match pending with
  | [] => mret pushed
  | part :: pending =>
      match fuel with
      | O => throw OutOfFuel
      | S fuel =>
          match get_range (og_objects request) part with
          | None => send_parts fuel request pending pushed
          | Some objects =>
              answer ← push_objects objects;
              let len := (part.2 - part.1)%nat in
              match answer with
              | Ok _ =>
                  _ ← settle request part;
                  send_parts fuel request pending (sat_add64 pushed (N.of_nat len))
              | Err PayloadTooLarge =>
                  if (1 <? len)%nat then
                    let mid := (part.1 + len / 2)%nat in
                    send_parts fuel request ((part.1, mid) :: (mid, part.2) :: pending) pushed
                  else _ ← refuse request part.1; send_parts fuel request pending pushed
              | Err Forbidden =>
                  if (1 <? len)%nat then
                    let mid := (part.1 + len / 2)%nat in
                    send_parts fuel request ((part.1, mid) :: (mid, part.2) :: pending) pushed
                  else _ ← forbid request part.1; send_parts fuel request pending pushed
              | Err e => throw (Failed e)
              end
          end
      end
  end.

(** halving [n] objects down to single ones takes at most [2 n - 1] requests *)
Definition send_request (request : Outgoing) : PM N :=
  send_parts (2 * length (og_objects request)) request [(0%nat, length (og_objects request))] 0.

(** the inner loop of [send]: the request built and the object carried over *)
Fixpoint fill (fuel : nat) (request : Outgoing) (carried : option (SyncObject * Sent))
    : PM (Outgoing * option (SyncObject * Sent)) :=
  match fuel with
  | O => throw OutOfFuel
  | S fuel =>
      carried ← match carried with Some c => mret (Some c) | None => take_next end;
      match carried with
      | None => mret (request, None)
      | Some (object, sent) =>
          let size := encoded_len object in
          let full := (PUSH_BATCH_MAX_OBJECTS <=? len (og_objects request))
                      || (PUSH_BATCH_MAX_BYTES <? sat_add64 (og_bytes request) size) in
          if full && negb (length (og_objects request) =? 0)%nat
          then mret (request, Some (object, sent))
          else fill fuel (outgoing_add request object sent size) None
      end
  end.

Fixpoint send_loop (fuel : nat) (carried : option (SyncObject * Sent)) (pushed : N) : PM N :=
  match fuel with
  | O => throw OutOfFuel
  | S fuel' =>
      '(request, carried) ← fill fuel empty_outgoing carried;
      if (length (og_objects request) =? 0)%nat then mret pushed
      else
        n ← send_request request;
        send_loop fuel' carried (sat_add64 pushed n)
  end.

(** what is queued bounds the rounds of both loops *)
Definition queued (p : Push) : nat :=
  length (before_items p) + length (q_items p) + length (after_items p).

Definition send : PM N :=
  p ← read_push id;
  send_loop (2 + queued p) None 0.

(** ** The entry points *)

Definition new_push (target_tenant : bytes) (own : option bytes) : Push :=
  mkPush own ∅ (push_refused_key target_tenant) (push_forbidden_key target_tenant)
    (acct_push_cursor_key target_tenant) (push_cursor_key target_tenant)
    [] [] [] [] [] 0 None.

Definition run_push (target_tenant : bytes) (own : option bytes) (account_wide : bool)
    : PM PushReport :=
  _ ← on_push (fun _ => new_push target_tenant own);
  _ ← queue target_tenant;
  _ ← (if account_wide then queue_account_wide else mret tt);
  n ← send;
  p ← read_push id;
  mret (mkPushReport n (too_large p) (unpushable p)).

Definition sync_push (target_tenant : bytes) : PM PushReport := run_push target_tenant None true.
Definition sync_push_vault_data (target_tenant : bytes) : PM PushReport :=
  run_push target_tenant None false.
Definition sync_push_as (ctx : SyncContext) : PM PushReport :=
  run_push (tenant ctx) (Some (genesis_owner ctx)) true.
Definition sync_push_vault_data_as (ctx : SyncContext) : PM PushReport :=
  run_push (tenant ctx) (Some (genesis_owner ctx)) false.

(** ** Discarding edits no push delivers *)

Record Discarded := mkDiscarded {
  dropped : list Unpushable;
  removed : list Unpushable;
  released : list Unpushable;
  pulled_report : SyncReport
}.

(** [for blob in server_copy]: numbered 1, 2, ... *)
Fixpoint parse_copy (seq : N) (server_copy : list bytes) : result SyncError (list (N * SyncObject)) :=
  match server_copy with
  | [] => Ok []
  | blob :: rest =>
      let seq := sat_add64 seq 1 in
      match from_bytes blob with
      | Err _ => Err ServerCopyUnreadable
      | Ok object => objects ← parse_copy seq rest; Ok ((seq, object) :: objects)
      end
  end.

Definition held_items (vault_id : bytes) (objects : list (N * SyncObject)) : list bytes :=
  omap (fun so => match so.2 with
                  | OItem it => if bytes_eqb (ir_vault_id it) vault_id then Some (ir_item_id it)
                                else None
                  | _ => None
                  end) objects.

Definition drop_edit (acc : list Unpushable) (u : Unpushable) : EM (list Unpushable) :=
  gone ← sstg (discard_unpushed_item (up_vault_id u) (up_item_id u) (up_version u)
                 (up_author_pubkey u));
  mret (if gone : bool then acc ++ [u] else acc).

Definition release_item (acc : list Unpushable) (u : Unpushable) : EM (list Unpushable) :=
  s ← get_state;
  let unchanged := match get_item s (up_vault_id u) (up_item_id u) with
                   | Some it => (ir_version it =? up_version u)
                                && bytes_eqb (ir_author_pubkey it) (up_author_pubkey u)
                   | None => false
                   end in
  if unchanged then
    _ ← sstg (clear_item_dirty (up_vault_id u) (up_item_id u));
    mret (acc ++ [u])
  else mret acc.

Definition restore_history (held : list bytes) (acc : list Unpushable) (u : Unpushable)
    : EM (list Unpushable) :=
  if existsb (bytes_eqb (up_item_id u)) held then
    s ← get_state;
    match get_item s (up_vault_id u) (up_item_id u) with
    | None => throw NotRestored
    | Some restored =>
        _ ← sstg (delete_item_history_above (up_vault_id u) (up_item_id u) (ir_version restored));
        mret acc
    end
  else
    _ ← sstg (clear_item_history (up_vault_id u) (up_item_id u));
    mret (acc ++ [u]).

Definition same_item (a b : Unpushable) : bool :=
  bytes_eqb (up_vault_id a) (up_vault_id b) && bytes_eqb (up_item_id a) (up_item_id b).

Definition discard_transaction (ctx : SyncContext) (key : bytes) (held : list bytes)
    (mine theirs : list Unpushable) (copy : list (N * SyncObject)) : EM Discarded :=
  atomically (
    dropped ← fold_each mine [] drop_edit;
    released ← fold_each theirs [] release_item;
    pulled ← apply_pulled_objects ctx copy;
    removed ← fold_each dropped [] (restore_history held);
    s ← get_state;
    let settled (r : Unpushable) := existsb (fun u => same_item u r) (dropped ++ released) in
    let kept := List.filter (fun r => negb (settled r)) (load_forbidden s key) in
    _ ← save_forbidden key kept;
    mret (mkDiscarded dropped removed released pulled)).

Definition discard_unpushable (ctx : SyncContext) (vault_id : bytes) (server_copy : list bytes)
    : PM Discarded :=
  copy ← lift_result (map_err Failed (parse_copy 0 server_copy));
  let held := held_items vault_id copy in
  let key := push_forbidden_key (tenant ctx) in
  s ← read_store id;
  let others := List.filter (fun u => negb (bytes_eqb (up_vault_id u) vault_id))
                  (load_forbidden s key) in
  _ ← on_store (save_forbidden key others);
  report ← sync_push_vault_data_as ctx;
  let here := List.filter (fun u => bytes_eqb (up_vault_id u) vault_id) (pr_unpushable report) in
  let '(mine, theirs) :=
    List.partition (fun u => bytes_eqb (up_author_pubkey u) (genesis_owner ctx)) here in
  on_store (discard_transaction ctx key held mine theirs copy).

End may_write.
