(* ===== verification/SyncPushThy.v ===== *)
(** * Theorems about pushing

    What a push sends, in which order and to whom; what it settles and what
    it leaves for the next push; the bounds of a request; termination of the
    halving and of the sending loop; the record of refusals. *)

From Stdlib Require Import Strings.Byte NArith ZArith Lia.
From stdpp Require Import base gmap sets list strings sorting countable.
From S2P Require Import Prelude Bytes CryptoPrims Crypto Storage StorageInv Keychain KeychainThy.
From S2P Require Import Membership MembershipThy Authority SyncObject SyncPull SyncPullThy SyncPush.

Local Open Scope N_scope.

(** ** The record of refusals *)

Section codec.
Context {A : Type} (read : Reader A) (put : bytes -> A -> result SyncError bytes)
  (enc : A -> bytes) (fits : A -> Prop).
Hypothesis Hput : forall out a b, put out a = Ok b -> b = out ++ enc a.
Hypothesis Hread : forall out a b rest, put out a = Ok b -> fits a -> read (enc a ++ rest) = (Ok a, rest).
Hypothesis Henc : forall a, enc a <> [].

Lemma put_all_read l out b fuel :
  put_all put out l = Ok b -> Forall fits l ->
  exists body, b = out ++ body /\ ((length body <= fuel)%nat -> read_all fuel read body = Some l).
Proof.
  intros H Hf. revert out b fuel H. induction Hf as [|a l Ha _ IH]; intros out b fuel H.
  - injection H as <-. exists []. split; [by rewrite app_nil_r|]. by destruct fuel.
  - cbn [put_all] in H. apply bind_Ok in H as (b1 & H1 & H2).
    pose proof (Hput _ _ _ H1) as ->. specialize (IH _ _ (pred fuel) H2) as (body & -> & Hb).
    exists (enc a ++ body). split; [by rewrite app_assoc|]. rewrite length_app. intros Hl.
    pose proof (Henc a) as Hne. destruct (enc a) as [|x e] eqn:He; [done|].
    destruct fuel as [|fuel]; [simpl in Hl; lia|].
    change ((x :: e) ++ body) with (x :: (e ++ body)). cbn [read_all].
    change (x :: (e ++ body)) with ((x :: e) ++ body). rewrite <-He, (Hread _ _ _ body H1 Ha).
    simpl in Hb, Hl. rewrite Hb; [done|lia].
Qed.

Lemma save_load_list l key s s' :
  save_list put key l s = (Ok tt, s') -> Forall fits l -> load_list read s' key = l.
Proof.
  unfold save_list. intros (b & s1 & [Hb <-]%pair_eq & H)%M_bind_Ok Hf.
  apply (put_all_read _ _ _ (length b)) in Hb as (body & -> & Hr); [|done].
  injection H as <-. unfold load_list, get_meta. cbn. rewrite lookup_insert_eq. simpl in Hr. by rewrite Hr by done.
Qed.
End codec.

Definition enc_refused (r : TooLarge) : bytes :=
  u32_be (len (tl_vault_id r)) ++ tl_vault_id r ++ u32_be (len (tl_item_id r)) ++ tl_item_id r ++
  u32_be (tl_item_type r) ++ u64_be (tl_version r) ++ u64_be (tl_bytes r).
Definition enc_forbidden (r : Unpushable) : bytes :=
  u32_be (len (up_vault_id r)) ++ up_vault_id r ++ u32_be (len (up_item_id r)) ++ up_item_id r ++
  u32_be (up_item_type r) ++ u64_be (up_version r) ++
  u32_be (len (up_author_pubkey r)) ++ up_author_pubkey r.

(** the fields are machine integers *)
Definition refused_fits (r : TooLarge) : Prop :=
  tl_item_type r <= u32_max /\ tl_version r <= u64_max /\ tl_bytes r <= u64_max.
Definition forbidden_fits (r : Unpushable) : Prop :=
  up_item_type r <= u32_max /\ up_version r <= u64_max /\ up_reason r = ServerRefused.

#[local] Opaque u32_be u64_be.

Lemma put_refused_enc out r b :
  put_refused out r = Ok b -> b = out ++ enc_refused r.
Proof.
  unfold put_refused, enc_refused.
  intros (o1 & [_ ->]%put_bytes_Ok & (o2 & [_ ->]%put_bytes_Ok & [= <-])%bind_Ok)%bind_Ok.
  by rewrite <-!app_assoc.
Qed.
Lemma put_forbidden_enc out r b :
  put_forbidden out r = Ok b -> b = out ++ enc_forbidden r.
Proof.
  unfold put_forbidden, enc_forbidden.
  intros (o1 & [_ ->]%put_bytes_Ok & (o2 & [_ ->]%put_bytes_Ok & [_ ->]%put_bytes_Ok)%bind_Ok)%bind_Ok.
  by rewrite <-!app_assoc.
Qed.

Ltac read_field lem := rewrite (bind_step _ _ _ _ _ lem).

Lemma read_refused_enc out r b rest :
  put_refused out r = Ok b -> refused_fits r -> read_refused (enc_refused r ++ rest) = (Ok r, rest).
Proof.
  unfold put_refused. intros (o1 & [H1 _]%put_bytes_Ok & (o2 & [H2 _]%put_bytes_Ok & _)%bind_Ok)%bind_Ok
    (Ht & Hv & Hn).
  unfold read_refused, enc_refused. rewrite <-!app_assoc.
  read_field (r_bytes_put _ (u32_be (len (tl_item_id r)) ++ tl_item_id r ++
    u32_be (tl_item_type r) ++ u64_be (tl_version r) ++ u64_be (tl_bytes r) ++ rest) H1).
  read_field (r_bytes_put _ (u32_be (tl_item_type r) ++ u64_be (tl_version r) ++
    u64_be (tl_bytes r) ++ rest) H2).
  read_field (r_u32_be _ (u64_be (tl_version r) ++ u64_be (tl_bytes r) ++ rest) Ht).
  read_field (r_u64_be _ (u64_be (tl_bytes r) ++ rest) Hv).
  read_field (r_u64_be _ rest Hn). by destruct r.
Qed.

Lemma read_forbidden_enc out r b rest :
  put_forbidden out r = Ok b -> forbidden_fits r ->
  read_forbidden (enc_forbidden r ++ rest) = (Ok r, rest).
Proof.
  unfold put_forbidden.
  intros (o1 & [H1 _]%put_bytes_Ok & (o2 & [H2 _]%put_bytes_Ok & [H3 _]%put_bytes_Ok)%bind_Ok)%bind_Ok
    (Ht & Hv & Hr).
  unfold read_forbidden, enc_forbidden. rewrite <-!app_assoc.
  read_field (r_bytes_put _ (u32_be (len (up_item_id r)) ++ up_item_id r ++
    u32_be (up_item_type r) ++ u64_be (up_version r) ++ u32_be (len (up_author_pubkey r)) ++
    up_author_pubkey r ++ rest) H1).
  read_field (r_bytes_put _ (u32_be (up_item_type r) ++ u64_be (up_version r) ++
    u32_be (len (up_author_pubkey r)) ++ up_author_pubkey r ++ rest) H2).
  read_field (r_u32_be _ (u64_be (up_version r) ++ u32_be (len (up_author_pubkey r)) ++
    up_author_pubkey r ++ rest) Ht).
  read_field (r_u64_be _ (u32_be (len (up_author_pubkey r)) ++ up_author_pubkey r ++ rest) Hv).
  read_field (r_bytes_put _ rest H3). destruct r; simpl in *. by subst.
Qed.

Lemma prefix_not_nil n rest : u32_be n ++ rest <> [].
Proof.
  intros H. apply (f_equal length) in H. rewrite length_app, length_u32_be in H. simpl in H. lia.
Qed.

Lemma save_load_refused key l s s' :
  save_refused key l s = (Ok tt, s') -> Forall refused_fits l -> load_refused s' key = l.
Proof.
  apply (save_load_list read_refused put_refused enc_refused refused_fits).
  - apply put_refused_enc.
  - apply read_refused_enc.
  - intros r. apply prefix_not_nil.
Qed.

Lemma save_load_forbidden key l s s' :
  save_forbidden key l s = (Ok tt, s') -> Forall forbidden_fits l -> load_forbidden s' key = l.
Proof.
  apply (save_load_list read_forbidden put_forbidden enc_forbidden forbidden_fits).
  - apply put_forbidden_enc.
  - apply read_forbidden_enc.
  - intros r. apply prefix_not_nil.
Qed.

(** ** What a push may change in the store *)

(** the objects of the accepted requests of a log, in order *)
Definition accepted (l : list (list SyncObject * bool)) : list SyncObject :=
  concat ((filter (fun e => e.2 = true) l).*1).

Lemma accepted_app l k : accepted (l ++ k) = accepted l ++ accepted k.
Proof. unfold accepted. by rewrite list.filter_app, fmap_app, concat_app. Qed.

(** the same rows; a dirty flag goes only when the row itself was accepted *)
Definition only_cleared {K A} `{Countable K} (obj : A -> SyncObject) (acc : list SyncObject)
    (m m' : gmap K (Row A)) : Prop :=
  forall k, match m !! k, m' !! k with
  | Some r, Some r' => row r' = row r /\
      (dirty r' = dirty r \/ (dirty r' = false /\ obj (row r) ∈ acc))
  | None, None => True
  | _, _ => False
  end.

Lemma only_cleared_refl {K A} `{Countable K} obj acc (m : gmap K (Row A)) :
  only_cleared obj acc m m.
Proof. intros k. destruct (m !! k); auto. Qed.

Lemma only_cleared_trans {K A} `{Countable K} obj a1 a2 (m1 m2 m3 : gmap K (Row A)) :
  only_cleared obj a1 m1 m2 -> only_cleared obj a2 m2 m3 -> only_cleared obj (a1 ++ a2) m1 m3.
Proof.
  intros H12 H23 k. specialize (H12 k). specialize (H23 k).
  destruct (m1 !! k) as [r1|], (m2 !! k) as [r2|], (m3 !! k) as [r3|]; try done.
  destruct H12 as [E1 H12], H23 as [E2 H23]. rewrite E1 in *.
  split; [done|]. rewrite elem_of_app.
  destruct H12 as [D1|[D1 ?]], H23 as [D2|[D2 ?]]; rewrite D2, ?D1; auto.
Qed.

Lemma only_cleared_weaken {K A} `{Countable K} obj acc acc' (m m' : gmap K (Row A)) :
  acc ⊆ acc' -> only_cleared obj acc m m' -> only_cleared obj acc' m m'.
Proof.
  intros Hs Hm k. specialize (Hm k). destruct (m !! k), (m' !! k); naive_solver.
Qed.

Record push_frame (p : Push) (acc : list SyncObject) (s s' : Storage) : Prop := {
  pf_vaults : only_cleared OVault acc (vaults s) (vaults s');
  pf_items : only_cleared OItem acc (items s) (items s');
  pf_manifests : only_cleared OManifest acc (manifests s) (manifests s');
  pf_grants : only_cleared OGrant acc (grants s) (grants s');
  pf_meta : forall k, k <> refused_key p -> k <> forbidden_key p -> meta s' !! k = meta s !! k;
  pf_cursors : forall k, k <> acct_key p -> k <> audit_key p ->
    sync_state s' !! k = sync_state s !! k;
  pf_rest : item_history s' = item_history s /\ known_hosts s' = known_hosts s /\
    pinned_member_keys s' = pinned_member_keys s /\ audit_log s' = audit_log s /\
    epoch_floor s' = epoch_floor s /\ trust_anchor s' = trust_anchor s /\
    account_state s' = account_state s
}.

Lemma push_frame_refl p acc s : push_frame p acc s s.
Proof. split; try apply only_cleared_refl; done. Qed.

Lemma push_frame_trans p a1 a2 s1 s2 s3 :
  push_frame p a1 s1 s2 -> push_frame p a2 s2 s3 -> push_frame p (a1 ++ a2) s1 s3.
Proof.
  intros [V1 I1 M1 G1 T1 C1 R1] [V2 I2 M2 G2 T2 C2 R2].
  split; try (eapply only_cleared_trans; eassumption).
  - intros k ? ?. rewrite T2, T1; done.
  - intros k ? ?. rewrite C2, C1; done.
  - destruct_and?. split_and!; congruence.
Qed.

Lemma push_frame_weaken p acc acc' s s' :
  acc ⊆ acc' -> push_frame p acc s s' -> push_frame p acc' s s'.
Proof.
  intros Hs [V I Mn G T C R]. split; try (eapply only_cleared_weaken; eassumption); done.
Qed.

(** two pushes with the same keys frame alike *)
Definition same_keys (p q : Push) : Prop :=
  refused_key q = refused_key p /\ forbidden_key q = forbidden_key p /\
  acct_key q = acct_key p /\ audit_key q = audit_key p.

Lemma push_frame_keys p q acc s s' :
  same_keys p q -> push_frame q acc s s' -> push_frame p acc s s'.
Proof.
  intros (E1 & E2 & E3 & E4) H. split; try apply H; intros k ? ?; apply H; congruence.
Qed.

(** ** Objects that still stand in the store *)

(** [o] is the row the store holds under its key *)
Definition current (s : Storage) (o : SyncObject) : Prop :=
  match o with
  | OVault v => row <$> vaults s !! vr_vault_id v = Some v
  | OItem i => row <$> items s !! item_key i = Some i
  | OManifest m => row <$> manifests s !! manifest_key m = Some m
  | OGrant g => row <$> grants s !! grant_key g = Some g
  | _ => False
  end.

(** [o] has no row with a dirty flag *)
Definition untabled (o : SyncObject) : Prop :=
  match o with OAudit _ | OKeyset _ | OAccountState _ => True | _ => False end.

Definition sendable (s : Storage) (os : SyncObject * Sent) : Prop :=
  match os.2 with SentDirty => current s os.1 | _ => untabled os.1 end.

Lemma only_cleared_row {K A} `{Countable K} obj acc (m m' : gmap K (Row A)) k :
  only_cleared obj acc m m' -> row <$> m' !! k = row <$> m !! k.
Proof.
  intros Hc. specialize (Hc k). destruct (m !! k), (m' !! k); try done.
  simpl. f_equal. tauto.
Qed.

Lemma current_frame p acc s s' o : push_frame p acc s s' -> current s o -> current s' o.
Proof.
  intros H. destruct o; simpl; try done; intros <-; eapply only_cleared_row; apply H.
Qed.

Lemma sendable_frame p acc s s' os : push_frame p acc s s' -> sendable s os -> sendable s' os.
Proof. intros H. unfold sendable. destruct os.2; try done. by eapply current_frame. Qed.

Lemma only_cleared_clear {K A} `{Countable K} (obj : A -> SyncObject) (sel : K -> Row A -> bool)
    (m : gmap K (Row A)) k0 a :
  (forall k r, sel k r = true -> k = k0) -> row <$> m !! k0 = Some a ->
  only_cleared obj [obj a] m (update_where sel (set_row_dirty false) m).
Proof.
  intros Hsel Ha k. rewrite lookup_update_where. destruct (m !! k) as [r|] eqn:Hr; simpl; [|done].
  destruct (sel k r) eqn:Hs; simpl; [|auto]. split; [done|]. right. split; [done|].
  apply Hsel in Hs as ->. rewrite Hr in Ha. injection Ha as <-. by apply list_elem_of_singleton.
Qed.

Ltac frame_rest := try apply only_cleared_refl; try done.

Lemma clear_dirty_frame p o s r s' :
  current s o -> clear_dirty o s = (r, s') -> push_frame p [o] s s'.
Proof.
  intros Hc H. destruct o as [v|i|m|g|a|b|a]; simpl in Hc; try done; cbn [clear_dirty] in H;
    apply sstg_run in H as (r0 & H & _).
  - injection H as _ <-. split; frame_rest. eapply only_cleared_clear; [|done].
    intros k r1 ->%bytes_eqb_true. done.
  - injection H as _ <-. split; frame_rest. eapply only_cleared_clear; [|done].
    intros [k1 k2] r1. cbn [fst snd]. rewrite andb_true_iff, !bytes_eqb_true. by intros [-> ->].
  - unfold clear_manifest_dirty in H. run_cases H; [|apply push_frame_refl].
    rewrite checked_version_Ok in *. destruct_and?; subst.
    split; frame_rest. eapply only_cleared_clear; [|done].
    intros [k1 k2] r1. cbn [fst snd]. rewrite andb_true_iff, bytes_eqb_true, N.eqb_eq. by intros [-> ->].
  - unfold clear_grant_dirty in H. run_cases H; [|apply push_frame_refl].
    rewrite checked_version_Ok in *. destruct_and?; subst.
    split; frame_rest. eapply only_cleared_clear; [|done].
    intros [[k1 k2] k3] r1. cbn [fst snd]. rewrite !andb_true_iff, !bytes_eqb_true, N.eqb_eq.
    by intros [[-> ->] ->].
Qed.

(** [o]'s row no longer waits to be pushed *)
Definition clean (s : Storage) (o : SyncObject) : Prop :=
  match o with
  | OVault v => dirty <$> vaults s !! vr_vault_id v = Some false
  | OItem i => dirty <$> items s !! item_key i = Some false
  | OManifest m => dirty <$> manifests s !! manifest_key m = Some false
  | OGrant g => dirty <$> grants s !! grant_key g = Some false
  | _ => True
  end.

Lemma only_cleared_clean {K A} `{Countable K} obj acc (m m' : gmap K (Row A)) k :
  only_cleared obj acc m m' -> dirty <$> m !! k = Some false -> dirty <$> m' !! k = Some false.
Proof.
  intros Hc. specialize (Hc k). destruct (m !! k), (m' !! k); try done. simpl.
  intros [= Hd]. f_equal. destruct Hc as [_ [->|[-> _]]]; done.
Qed.

Lemma clean_frame p acc s s' o : push_frame p acc s s' -> clean s o -> clean s' o.
Proof. intros H. destruct o; simpl; try done; eapply only_cleared_clean; apply H. Qed.

Lemma cleared_lookup {K A} `{Countable K} (sel : K -> Row A -> bool) (m : gmap K (Row A)) k a :
  row <$> m !! k = Some a -> (forall r, sel k r = true) ->
  dirty <$> update_where sel (set_row_dirty false) m !! k = Some false.
Proof.
  intros Ha Hs. rewrite lookup_update_where. destruct (m !! k) as [r|]; [|done].
  simpl. by rewrite Hs.
Qed.

Lemma clear_dirty_clean o s s' : current s o -> clear_dirty o s = (Ok tt, s') -> clean s' o.
Proof.
  intros Hc H. destruct o as [v|i|m|g|a|b|a]; simpl in Hc; try done; cbn [clear_dirty] in H;
    apply sstg_run in H as (r0 & H & Hr); destruct r0 as [[]|]; try done.
  - injection H as <-. eapply cleared_lookup; [done|]. intros r. by rewrite bytes_eqb_refl.
  - injection H as <-. eapply cleared_lookup; [done|]. intros r. cbn [fst snd item_key].
    by rewrite !bytes_eqb_refl.
  - unfold clear_manifest_dirty in H. run_cases H. rewrite checked_version_Ok in *.
    destruct_and?; subst. eapply cleared_lookup; [done|]. intros r. cbn [fst snd manifest_key].
    by rewrite bytes_eqb_refl, N.eqb_refl.
  - unfold clear_grant_dirty in H. run_cases H. rewrite checked_version_Ok in *.
    destruct_and?; subst. eapply cleared_lookup; [done|]. intros r. cbn [fst snd grant_key].
    by rewrite !bytes_eqb_refl, N.eqb_refl.
Qed.

(** ** Settling an accepted part *)

Lemma untabled_clean s o : untabled o -> clean s o.
Proof. by destruct o. Qed.

Lemma settle_fold_frame p l acc s r s' :
  Forall (sendable s) l -> fold_each l acc settle_one s = (r, s') ->
  push_frame p (l.*1) s s' /\ (is_ok r = true -> Forall (clean s') (l.*1)).
Proof.
  intros Hl. revert acc s Hl. induction l as [|[o st] l IH]; intros acc s Hl H.
  - injection H as <- <-. split; [apply push_frame_refl|]. by constructor.
  - apply list.Forall_cons in Hl as [Ho Hl]. cbn [fold_each] in H.
    assert (forall acc1 s1, push_frame p [o] s s1 -> clean s1 o ->
              fold_each l acc1 settle_one s1 = (r, s') ->
              push_frame p (o :: l.*1) s s' /\ (is_ok r = true -> Forall (clean s') (o :: l.*1)))
      as Hgo.
    { intros acc1 s1 Hf Hset H1. apply IH in H1 as [Hf1 Hs1].
      - split; [by eapply (push_frame_trans _ [o])|]. intros Hr. constructor; [|by apply Hs1].
        by eapply clean_frame.
      - eapply list.Forall_impl; [exact Hl|]. intros os. by apply (sendable_frame p [o]). }
    destruct acc as [n q]. apply M_bind_run in H as [(acc1 & s1 & H1 & H)|(e & H1 & ->)];
      destruct st as [| |seq]; cbn [settle_one] in H1.
    + apply M_bind_Ok in H1 as ([] & s2 & H1 & [= <- <-]).
      eapply Hgo; [eapply clear_dirty_frame; [exact Ho|exact H1]| |exact H].
      eapply clear_dirty_clean; [exact Ho|exact H1].
    + injection H1 as <- <-. eapply Hgo; [apply push_frame_refl|by apply untabled_clean|exact H].
    + injection H1 as <- <-. eapply Hgo; [apply push_frame_refl|by apply untabled_clean|exact H].
    + apply M_bind_run in H1 as [(u & s2 & _ & [= ])|(e1 & H1 & _)].
      apply (clear_dirty_frame p) in H1; [|exact Ho]. split; [|done].
      eapply push_frame_weaken; [|exact H1]. set_solver.
    + done.
    + done.
Qed.

(** what sending leaves alone in the [Push] struct *)
Definition same_queues (p q : Push) : Prop :=
  same_keys p q /\ before_items q = before_items p /\ q_items q = q_items p /\
  after_items q = after_items p /\ own q = own p.
Definition reports_grow (p q : Push) : Prop :=
  too_large p `prefix_of` too_large q /\ unpushable p `prefix_of` unpushable q.

#[global] Instance same_queues_preorder : PreOrder same_queues.
Proof.
  split; unfold same_queues, same_keys; [intros p; split_and!; done|].
  intros p q r H1 H2. destruct_and?. split_and!; congruence.
Qed.
#[global] Instance reports_grow_preorder : PreOrder reports_grow.
Proof.
  split; unfold reports_grow; [intros p; split; done|].
  intros p q r [? ?] [? ?]. split; by etrans.
Qed.

(** the effect of a part of the sending: the requests [L] were logged *)
Record sends (L : list (list SyncObject * bool)) (w w' : World) : Prop := {
  sn_log : w_log w' = w_log w ++ L;
  sn_store : push_frame (w_push w) (accepted L) (w_store w) (w_store w');
  sn_queues : same_queues (w_push w) (w_push w');
  sn_reports : reports_grow (w_push w) (w_push w')
}.

Lemma sends_refl w : sends [] w w.
Proof. split; [by rewrite app_nil_r|apply push_frame_refl|reflexivity..]. Qed.

Lemma sends_trans L1 L2 w1 w2 w3 : sends L1 w1 w2 -> sends L2 w2 w3 -> sends (L1 ++ L2) w1 w3.
Proof.
  intros [G1 S1 Q1 R1] [G2 S2 Q2 R2]. split; [by rewrite G2, G1, app_assoc| |by etrans..].
  rewrite accepted_app. eapply push_frame_trans; [exact S1|].
  eapply push_frame_keys; [apply Q1|done].
Qed.

(** a store step that only writes the slots of this server *)
Lemma on_store_sends {A} (m : EM A) w r w' :
  (forall r0 s', m (w_store w) = (r0, s') -> push_frame (w_push w) [] (w_store w) s') ->
  on_store m w = (r, w') ->
  sends [] w w' /\ w_push w' = w_push w /\ r <> Err OutOfFuel.
Proof.
  intros Hm H. unfold on_store in H. destruct (m (w_store w)) as [r0 s'] eqn:E.
  injection H as <- <-. split_and!; [|done|by destruct r0].
  split; cbn; [by rewrite app_nil_r|by eapply Hm|reflexivity..].
Qed.

Lemma set_cursor_frame p k v s r s' :
  k = acct_key p \/ k = audit_key p ->
  sstg (set_sync_cursor k v) s = (r, s') -> push_frame p [] s s'.
Proof.
  intros Hk (r0 & H & _)%sstg_run. unfold set_sync_cursor in H. run_cases H; [|apply push_frame_refl].
  split; frame_rest. intros k' ? ?. cbn. rewrite lookup_insert_ne; [done|]. destruct Hk; congruence.
Qed.

Lemma save_list_frame {A} (put : bytes -> A -> result SyncError bytes) p k l s r s' :
  k = refused_key p \/ k = forbidden_key p ->
  save_list put k l s = (r, s') -> push_frame p [] s s'.
Proof.
  intros Hk [(b & s1 & [_ <-]%pair_eq & H)|(e & [_ <-]%pair_eq & _)]%M_bind_run;
    [|apply push_frame_refl]. injection H as _ <-.
  split; frame_rest. intros k' ? ?. cbn. rewrite lookup_insert_ne; [done|]. destruct Hk; congruence.
Qed.

(** [m], run at [w], sends nothing, keeps the queues and never runs out of fuel *)
Definition quietly {A} (w : World) (m : PM A) : Prop :=
  forall r w', m w = (r, w') -> sends [] w w' /\ r <> Err OutOfFuel.

Lemma quietly_ret {A} w (a : A) : quietly w (mret a).
Proof. intros r w' [= <- <-]. split; [apply sends_refl|done]. Qed.
Lemma quietly_fail {A} w e : quietly w (throw (Failed e) : PM A).
Proof. intros r w' [= <- <-]. split; [apply sends_refl|done]. Qed.

Lemma quietly_bind {A B} w (m : PM A) (f : A -> PM B) :
  quietly w m -> (forall a w', m w = (Ok a, w') -> quietly w' (f a)) -> quietly w (m ≫= f).
Proof.
  intros Hm Hf r w' [(a & w1 & H1 & H2)|(e & H1 & ->)]%M_bind_run.
  - apply Hm in H1 as Hs1. destruct Hs1 as [S1 _]. apply (Hf _ _ H1) in H2 as [S2 Hr].
    split; [by eapply (sends_trans [] [])|done].
  - apply Hm in H1 as [S1 Hr]. split; [done|]. congruence.
Qed.

Lemma quietly_read {A B} w (g : Push -> A) (f : A -> PM B) :
  quietly w (f (g (w_push w))) -> quietly w (read_push g ≫= f).
Proof. intros H. apply quietly_bind; [|intros a w' [= <- <-]; exact H].
  intros r w' [= <- <-]. split; [apply sends_refl|done].
Qed.

Lemma quietly_push w f :
  same_queues (w_push w) (f (w_push w)) -> reports_grow (w_push w) (f (w_push w)) ->
  quietly w (on_push f).
Proof.
  intros Hq Hr r w' [= <- <-]. split; [|done].
  split; cbn; [by rewrite app_nil_r|apply push_frame_refl|done|done].
Qed.

Lemma quietly_store {A} w (m : EM A) :
  (forall r0 s', m (w_store w) = (r0, s') -> push_frame (w_push w) [] (w_store w) s') ->
  quietly w (on_store m).
Proof. intros Hm r w' H. apply on_store_sends in H as (? & _ & ?); done. Qed.

Lemma reports_refl p q : too_large q = too_large p -> unpushable q = unpushable p -> reports_grow p q.
Proof. intros H1 H2. unfold reports_grow. by rewrite H1, H2. Qed.

Lemma push_save_forbidden_quiet w : quietly w push_save_forbidden.
Proof.
  apply quietly_read, quietly_store. intros r0 s' H. eapply save_list_frame; [|exact H]. by right.
Qed.

Lemma on_push_run f w w' (u : unit) :
  on_push f w = (Ok u, w') -> w' = mkWorld (w_store w) (f (w_push w)) (w_log w).
Proof. by intros [= _ <-]. Qed.

(** an item the server will not take alone is remembered and reported *)
Definition reported_in (refused : list TooLarge) (forbidden : list Unpushable) (o : SyncObject)
    : Prop :=
  exists it, o = OItem it /\
    ((exists n, mkTooLarge (ir_vault_id it) (ir_item_id it) (ir_item_type it) (ir_version it) n
        ∈ refused) \/
     mkUnpushable (ir_vault_id it) (ir_item_id it) (ir_item_type it) (ir_version it)
        (ir_author_pubkey it) ServerRefused ∈ forbidden).
Definition reported (p : Push) : SyncObject -> Prop := reported_in (too_large p) (unpushable p).

Lemma reported_grow p q o : reports_grow p q -> reported p o -> reported q o.
Proof.
  intros [[l1 H1] [l2 H2]] (it & -> & H). exists it. split; [done|]. rewrite H1, H2.
  setoid_rewrite elem_of_app. naive_solver.
Qed.

(** the push struct after adding to a report, then saving the record *)
Lemma report_and_save w f (save : Push -> EM unit) r w' :
  same_queues (w_push w) (f (w_push w)) -> reports_grow (w_push w) (f (w_push w)) ->
  (forall s r0 s', save (f (w_push w)) s = (r0, s') -> push_frame (f (w_push w)) [] s s') ->
  (on_push f ≫= fun _ => read_push id ≫= fun p => on_store (save p)) w = (r, w') ->
  sends [] w w' /\ r <> Err OutOfFuel /\ w_push w' = f (w_push w).
Proof.
  intros Hq Hr Hs H. set (w1 := mkWorld (w_store w) (f (w_push w)) (w_log w)).
  change (on_store (save (f (w_push w))) w1 = (r, w')) in H.
  apply on_store_sends in H as (S1 & Hp & Hne); [|intros r0 s'; apply Hs].
  split_and!; [|done|done].
  assert (sends [] w w1) as S0.
  { split; cbn; [by rewrite app_nil_r|apply push_frame_refl|done|done]. }
  by eapply (sends_trans [] []).
Qed.

Ltac no_send H := injection H as <- <-; split_and!; [apply sends_refl|done..].

Lemma refuse_spec request i w r w' :
  refuse request i w = (r, w') ->
  sends [] w w' /\ r <> Err OutOfFuel /\
  (is_ok r = true -> exists o, og_objects request !! i = Some o /\ reported (w_push w') o).
Proof.
  intros H. unfold refuse in H.
  destruct (og_objects request !! i) as [[v|it|m|g|a|b|a]|] eqn:Ho; try (no_send H).
  destruct (og_sizes request !! i) as [n|]; [|no_send H].
  apply (report_and_save w _ (fun p => save_refused (refused_key p) (too_large p))) in H
    as (Hs & Hne & Hp).
  - split_and!; [done..|]. intros _. exists (OItem it). split; [done|]. exists it.
    split; [done|]. left. exists n. rewrite Hp. cbn. apply elem_of_app. right.
    by apply list_elem_of_singleton.
  - split_and!; done.
  - split; [by eexists|done].
  - intros s r0 s' Hsv. eapply save_list_frame; [|exact Hsv]. by left.
Qed.

Lemma forbid_spec request i w r w' :
  forbid request i w = (r, w') ->
  sends [] w w' /\ r <> Err OutOfFuel /\
  (is_ok r = true -> exists o, og_objects request !! i = Some o /\ reported (w_push w') o).
Proof.
  intros H. unfold forbid in H.
  destruct (og_objects request !! i) as [[v|it|m|g|a|b|a]|] eqn:Ho; try (no_send H).
  apply (report_and_save w _ (fun p => save_forbidden (forbidden_key p) (server_refused p))) in H
    as (Hs & Hne & Hp).
  - split_and!; [done..|]. intros _. exists (OItem it). split; [done|]. exists it.
    split; [done|]. right. rewrite Hp. cbn. apply elem_of_app. right.
    by apply list_elem_of_singleton.
  - split_and!; done.
  - split; [done|by eexists].
  - intros s r0 s' Hsv. eapply save_list_frame; [|exact Hsv]. by right.
Qed.

(** the cursors moved after the settling transaction *)
Definition settle_cursors (accounts : N) (audit_seq : option N) : PM unit :=
  p ← read_push id;
  _ ← match audit_seq with
      | Some seq => on_store (sstg (set_sync_cursor (audit_key p) seq))
      | None => mret tt
      end;
  _ ← on_push (set_acct (fun n => n - accounts) id);
  p ← read_push id;
  if acct_left p =? 0 then
    match acct_version p with
    | Some version =>
        _ ← on_push (set_acct id (fun _ => None));
        on_store (sstg (set_sync_cursor (acct_key p) version))
    | None => mret tt
    end
  else mret tt.

Lemma settle_cursors_quiet w accounts audit_seq : quietly w (settle_cursors accounts audit_seq).
Proof.
  apply quietly_read. apply quietly_bind.
  { destruct audit_seq; [|apply quietly_ret]. apply quietly_store. intros r0 s' H.
    eapply set_cursor_frame; [|exact H]. by right. }
  intros _ w1 _. apply quietly_bind; [by apply quietly_push; [split_and!|apply reports_refl]|].
  intros _ w2 _. apply quietly_read. cbn [id]. destruct (acct_left _ =? 0); [|apply quietly_ret].
  destruct (acct_version _) as [v|]; [|apply quietly_ret].
  apply quietly_bind; [by apply quietly_push; [split_and!|apply reports_refl]|].
  intros [] w3 ->%on_push_run. apply quietly_store. intros r0 s' H. cbn [w_push w_store] in *.
  eapply set_cursor_frame; [|exact H]. by left.
Qed.

Lemma settle_spec request part objects sent w r w' :
  get_range (og_objects request) part = Some objects ->
  get_range (og_sent request) part = Some sent -> length objects = length sent ->
  Forall (sendable (w_store w)) (zip objects sent) ->
  settle request part w = (r, w') ->
  w_log w' = w_log w /\ push_frame (w_push w) objects (w_store w) (w_store w') /\
  same_queues (w_push w) (w_push w') /\ reports_grow (w_push w) (w_push w') /\
  r <> Err OutOfFuel /\ (is_ok r = true -> Forall (clean (w_store w')) objects).
Proof.
  intros Ho Hs Hlen Hall H. unfold settle in H. rewrite Ho, Hs in H.
  assert ((zip objects sent).*1 = objects) as Hz by (apply fst_zip; lia).
  apply M_bind_run in H as [([accounts audit_seq] & w1 & H1 & H)|(e & H1 & ->)];
    unfold on_store in H1; destruct (atomically _ _) as [r0 s1] eqn:Ha;
    injection H1 as Hr <-.
  - destruct r0 as [x|]; [|done]. rewrite atomically_Ok in Ha.
    apply (settle_fold_frame (w_push w)) in Ha as [Hf Hset]; [|done]. rewrite Hz in Hf, Hset.
    change (settle_cursors accounts audit_seq (mkWorld s1 (w_push w) (w_log w)) = (r, w')) in H.
    apply settle_cursors_quiet in H as [[G S Q R] Hne]. cbn [w_log w_push w_store] in *.
    rewrite app_nil_r in G. split_and!; try done.
    + rewrite <-(app_nil_r objects). by eapply push_frame_trans.
    + intros _. eapply list.Forall_impl; [by apply Hset|]. intros o. by eapply clean_frame.
  - destruct r0 as [|e0]; [done|]. injection Hr as <-. apply atomically_Err in Ha as ->.
    split_and!; try done. apply push_frame_refl.
Qed.

(** ** Halving *)

Definition valid_part (n : nat) (part : nat * nat) : Prop := (part.1 < part.2 <= n)%nat.
Definition part_of {A} (l : list A) (part : nat * nat) : list A :=
  take (part.2 - part.1) (drop part.1 l).

Lemma get_range_valid {A} (l : list A) part :
  valid_part (length l) part -> get_range l part = Some (part_of l part).
Proof.
  intros [H1 H2]. unfold get_range, part_of.
  by rewrite (proj2 (Nat.leb_le part.1 part.2)), (proj2 (Nat.leb_le part.2 (length l))) by lia.
Qed.

Lemma length_part_of {A} (l : list A) part :
  valid_part (length l) part -> length (part_of l part) = (part.2 - part.1)%nat.
Proof. intros [H1 H2]. unfold part_of. rewrite length_take, length_drop. lia. Qed.

Lemma part_of_split {A} (l : list A) a m b :
  (a <= m <= b)%nat -> part_of l (a, b) = part_of l (a, m) ++ part_of l (m, b).
Proof.
  intros H. unfold part_of. cbn [fst snd].
  rewrite <-(take_drop (m - a) (take (b - a) (drop a l))). f_equal.
  - rewrite take_take. f_equal. lia.
  - replace (b - a)%nat with ((m - a) + (b - m))%nat by lia.
    rewrite <-take_drop_commute, drop_drop. do 2 f_equal. lia.
Qed.

Section sending.
Variable server : nat -> list SyncObject -> result SyncError (list N).

Lemma sat_add_add a b c : sat_add64 (sat_add64 a b) c = sat_add64 a (b + c).
Proof. unfold sat_add64. lia. Qed.

Lemma sat_add_0 a : a <= u64_max -> sat_add64 a (len (A := SyncObject) []) = a.
Proof. unfold sat_add64, len. simpl. lia. Qed.

(** logging a request, before anything is settled *)
Definition logged (w : World) (objects : list SyncObject) (ok : bool) : World :=
  mkWorld (w_store w) (w_push w) (w_log w ++ [(objects, ok)]).

Lemma refused_sends w objects : sends [(objects, false)] w (logged w objects false).
Proof. split; [done|apply push_frame_refl|reflexivity|reflexivity]. Qed.

Lemma accepted_one objects : accepted [(objects, true)] = objects.
Proof. unfold accepted. rewrite filter_cons_True by done. apply app_nil_r. Qed.
Lemma refused_one objects : accepted [(objects, false)] = [].
Proof. done. Qed.

Lemma settle_sends request part objects sent w r w' :
  get_range (og_objects request) part = Some objects ->
  get_range (og_sent request) part = Some sent -> length objects = length sent ->
  Forall (sendable (w_store w)) (zip objects sent) ->
  settle request part (logged w objects true) = (r, w') ->
  sends [(objects, true)] w w' /\ r <> Err OutOfFuel /\
  (is_ok r = true -> Forall (clean (w_store w')) objects).
Proof.
  intros Ho Hs Hlen Hall H. eapply settle_spec in H as (G & F & Q & R & Hne & Hc); [|done..].
  split_and!; [|done..]. split; [done| |done..]. by rewrite accepted_one.
Qed.

(** the requests a list of parts may still take *)
Definition parts_cost (pending : list (nat * nat)) : nat :=
  list_sum ((fun part => 2 * (part.2 - part.1) - 1)%nat <$> pending).

(** the outcome of sending the parts [objs] of a request *)
Record parts_sent (O objs : list SyncObject) (pushed : N) (w : World) (r : result Stop N) (w' : World)
    : Prop := {
  pp_fuel : r <> Err OutOfFuel;
  pp_log : exists L, sends L w w' /\
    Forall (fun e => exists part, valid_part (length O) part /\ e.1 = part_of O part) L /\
    accepted L `sublist_of` objs /\
    forall n, r = Ok n ->
      n = sat_add64 pushed (len (accepted L)) /\ Forall (clean (w_store w')) (accepted L) /\
      exists left, objs ≡ₚ accepted L ++ left /\ Forall (reported (w_push w')) left
}.

(** a first part, then the rest *)
Lemma parts_sent_step O first rest pushed w w1 r w' L1 (left1 : list SyncObject) :
  sends L1 w w1 ->
  Forall (fun e => exists part, valid_part (length O) part /\ e.1 = part_of O part) L1 ->
  accepted L1 `sublist_of` first -> Forall (clean (w_store w1)) (accepted L1) ->
  first ≡ₚ accepted L1 ++ left1 -> Forall (reported (w_push w1)) left1 ->
  parts_sent O rest (sat_add64 pushed (len (accepted L1))) w1 r w' ->
  parts_sent O (first ++ rest) pushed w r w'.
Proof.
  intros S1 P1 A1 C1 E1 R1 [Hne (L2 & S2 & P2 & A2 & Hok)]. split; [done|].
  exists (L1 ++ L2). split_and!.
  - by eapply sends_trans.
  - by apply Forall_app.
  - rewrite accepted_app. by apply sublist_app.
  - intros n Hn. destruct (Hok n Hn) as (-> & C2 & left2 & E2 & R2).
    rewrite accepted_app, len_app, sat_add_add. split_and!; [done| |].
    + apply Forall_app. split; [|done]. eapply list.Forall_impl; [exact C1|].
      intros o. eapply clean_frame, S2.
    + exists (left1 ++ left2). split.
      * rewrite E1, E2. rewrite <-!app_assoc. f_equiv. rewrite !app_assoc. f_equiv.
        apply Permutation_app_comm.
      * apply Forall_app. split; [|done]. eapply list.Forall_impl; [exact R1|].
        intros o. eapply reported_grow, S2.
Qed.

Lemma sends_sendable L w w' l :
  sends L w w' -> Forall (sendable (w_store w)) l -> Forall (sendable (w_store w')) l.
Proof. intros S Hl. eapply list.Forall_impl; [exact Hl|]. intros os. eapply sendable_frame, S. Qed.

Lemma sendable_part s (O : list SyncObject) (S : list Sent) part :
  Forall (sendable s) (zip O S) -> Forall (sendable s) (zip (part_of O part) (part_of S part)).
Proof.
  intros H. unfold part_of. rewrite <-zip_with_take, <-zip_with_drop.
  by apply Forall_take, Forall_drop.
Qed.

Lemma parts_cost_cons part pending :
  parts_cost (part :: pending) = ((2 * (part.2 - part.1) - 1) + parts_cost pending)%nat.
Proof. done. Qed.

(** a single object the server refuses: it is reported, or the push stops *)
Lemma alone_spec request part pushed rest w r w' (m : PM unit) (k : PM N) :
  pushed <= u64_max ->
  valid_part (length (og_objects request)) part -> (part.2 - part.1 <= 1)%nat ->
  (forall w1 r1 w2, m w1 = (r1, w2) -> sends [] w1 w2 /\ r1 <> Err OutOfFuel /\
     (is_ok r1 = true -> exists o, og_objects request !! part.1 = Some o /\ reported (w_push w2) o)) ->
  (forall w2, sends [(part_of (og_objects request) part, false)] w w2 -> k w2 = (r, w') ->
     parts_sent (og_objects request) rest pushed w2 r w') ->
  (m ≫= fun _ => k) (logged w (part_of (og_objects request) part) false) = (r, w') ->
  parts_sent (og_objects request) (part_of (og_objects request) part ++ rest) pushed w r w'.
Proof.
  intros Hpu Hv Hl Hm Hk H. set (O := og_objects request) in *.
  pose proof (refused_sends w (part_of O part)) as S0.
  assert (exists part0, valid_part (length O) part0 /\ part_of O part = part_of O part0) as Hpart
    by (by exists part).
  apply M_bind_run in H as [([] & w2 & H1 & H)|(e & H1 & ->)]; apply Hm in H1 as (S1 & Hne & Hrep);
    pose proof (sends_trans _ _ _ _ _ S0 S1) as S2; rewrite app_nil_r in S2.
  - destruct (Hrep eq_refl) as (o & Ho & Hr).
    assert (part_of O part = [o]) as Hone.
    { unfold part_of. destruct Hv. replace (part.2 - part.1)%nat with 1%nat by lia.
      rewrite (drop_S _ _ _ Ho). done. }
    eapply (parts_sent_step _ _ _ _ _ w2 _ _ [(part_of O part, false)] [o]);
      [done|by constructor|apply sublist_nil_l|constructor|by rewrite Hone|by constructor|].
    rewrite refused_one, sat_add_0 by done. by apply Hk.
  - split; [congruence|]. exists [(part_of O part, false)].
    split_and!; [done|by constructor|apply sublist_nil_l|]. intros n [=].
Qed.

Lemma logged_part (O : list SyncObject) part (ok : bool) :
  valid_part (length O) part ->
  Forall (fun e => exists part0, valid_part (length O) part0 /\ e.1 = part_of O part0)
    [(part_of O part, ok)].
Proof. intros Hv. constructor; [by exists part|constructor]. Qed.

(** an accepted part: settled, then the rest *)
Lemma accepted_spec request part pushed rest w r w' (k : PM N) :
  length (og_objects request) = length (og_sent request) ->
  Forall (sendable (w_store w)) (zip (og_objects request) (og_sent request)) ->
  valid_part (length (og_objects request)) part ->
  (forall w1, sends [(part_of (og_objects request) part, true)] w w1 -> k w1 = (r, w') ->
     parts_sent (og_objects request) rest
       (sat_add64 pushed (N.of_nat (part.2 - part.1))) w1 r w') ->
  (settle request part ≫= fun _ => k) (logged w (part_of (og_objects request) part) true)
    = (r, w') ->
  parts_sent (og_objects request) (part_of (og_objects request) part ++ rest) pushed w r w'.
Proof.
  intros Hlen Hall Hv Hk H. set (O := og_objects request) in *.
  assert (get_range (og_sent request) part = Some (part_of (og_sent request) part)) as Hgs
    by (apply get_range_valid; by rewrite <-Hlen).
  apply M_bind_run in H as [([] & w1 & H1 & H)|(e & H1 & ->)];
    (eapply (settle_sends request part (part_of O part) (part_of (og_sent request) part)) in H1
       as (S1 & Hne & Hc);
     [|by apply get_range_valid|done
      |rewrite !length_part_of by (done || by rewrite <-Hlen); done|by apply sendable_part]).
  - eapply (parts_sent_step _ _ _ _ _ w1 _ _ [(part_of O part, true)] []);
      [done|by apply logged_part|by rewrite accepted_one|rewrite accepted_one; by apply Hc
      |by rewrite accepted_one, app_nil_r|constructor|].
    rewrite accepted_one. unfold len at 1. rewrite length_part_of by done. by apply Hk.
  - split; [congruence|]. exists [(part_of O part, true)].
    split_and!; [done|by apply logged_part| |intros n [=]].
    rewrite accepted_one. by apply sublist_inserts_r.
Qed.

(** a refused part that is halved: its halves take its place, in order *)
Lemma halved_spec O part mid rest pushed w r w' :
  pushed <= u64_max -> valid_part (length O) part -> (part.1 < mid < part.2)%nat ->
  parts_sent O (part_of O (part.1, mid) ++ part_of O (mid, part.2) ++ rest) pushed
    (logged w (part_of O part) false) r w' ->
  parts_sent O (part_of O part ++ rest) pushed w r w'.
Proof.
  intros Hpu Hv Hmid H. destruct part as [a b]. cbn [fst snd] in *.
  rewrite app_assoc, <-(part_of_split O a mid b) in H by lia.
  eapply (parts_sent_step O [] _ _ _ _ _ _ [(part_of O (a, b), false)] []);
    [apply refused_sends|by apply logged_part|apply sublist_nil_l|constructor|done|constructor|].
  by rewrite refused_one, sat_add_0.
Qed.

(** any other error of the server stops the push *)
Lemma stopped_spec O part objs pushed e w :
  valid_part (length O) part ->
  parts_sent O objs pushed w (Err (Failed e)) (logged w (part_of O part) false).
Proof.
  intros Hv. split; [done|]. exists [(part_of O part, false)].
  split_and!; [apply refused_sends|by apply logged_part|apply sublist_nil_l|intros n [=]].
Qed.

Lemma half_within n : (1 < n)%nat -> (0 < n / 2 < n)%nat.
Proof. intros Hn. split; [apply Nat.div_str_pos; lia|apply Nat.div_lt; lia]. Qed.

Lemma halves_valid n part mid pending :
  valid_part n part -> (part.1 < mid < part.2)%nat -> Forall (valid_part n) pending ->
  Forall (valid_part n) ((part.1, mid) :: (mid, part.2) :: pending).
Proof.
  intros [Hv1 Hv2] Hmid Hp.
  constructor; [|constructor; [|done]]; unfold valid_part; cbn [fst snd]; lia.
Qed.

Lemma send_parts_spec fuel request pending pushed w r w' :
  length (og_objects request) = length (og_sent request) -> pushed <= u64_max ->
  Forall (sendable (w_store w)) (zip (og_objects request) (og_sent request)) ->
  Forall (valid_part (length (og_objects request))) pending ->
  (parts_cost pending <= fuel)%nat ->
  send_parts server fuel request pending pushed w = (r, w') ->
  parts_sent (og_objects request) (concat (part_of (og_objects request) <$> pending)) pushed w r w'.
Proof.
  intros Hlen. revert pending pushed w. induction fuel as [|fuel IH];
    intros pending pushed w Hpu Hall Hval Hcost H.
  all: destruct pending as [|part pending].
  1, 3: injection H as <- <-; split; [done|]; exists []; split_and!; [apply sends_refl|constructor
    |done|]; intros n [= <-]; split_and!; [by rewrite sat_add_0|constructor|by exists []].
  { apply list.Forall_cons in Hval as [[Hv _] _]. rewrite parts_cost_cons in Hcost. lia. }
  apply list.Forall_cons in Hval as [Hv Hval]. rewrite parts_cost_cons in Hcost.
  assert (part.1 < part.2)%nat as Hlt by apply Hv.
  set (O := og_objects request) in *. cbn [fmap list_fmap concat].
  cbn [send_parts] in H. fold O in H. rewrite (get_range_valid O part Hv) in H.
  unfold mbind at 1, M_bind at 1, push_objects at 1 in H.
  destruct (server _ _) as [ids|e] eqn:Hsrv; cbn [is_ok] in H; cbv zeta in H.
  { eapply accepted_spec; [done..| |exact H]. intros w1 S1 H1.
    eapply IH; [unfold sat_add64; lia|by eapply sends_sendable|done|lia|exact H1]. }
  fold (logged w (part_of O part) false) in H.
  assert (forall w2, sends [(part_of O part, false)] w w2 ->
            send_parts server fuel request pending pushed w2 = (r, w') ->
            parts_sent O (concat (part_of O <$> pending)) pushed w2 r w') as Hrest.
  { intros w2 S2 H2. eapply IH; [done|by eapply sends_sendable|done|lia|exact H2]. }
  assert (forall mid, (part.1 < mid < part.2)%nat ->
    send_parts server fuel request ((part.1, mid) :: (mid, part.2) :: pending) pushed
      (logged w (part_of O part) false) = (r, w') ->
    parts_sent O (part_of O part ++ concat (part_of O <$> pending)) pushed w r w') as Hhalf.
  { intros mid Hmid H2. eapply halved_spec; [done..|].
    eapply IH in H2; [exact H2|done| |by apply halves_valid
      |rewrite !parts_cost_cons; cbn [fst snd]; lia].
    eapply sends_sendable; [apply refused_sends|done]. }
  destruct e; try (injection H as <- <-; by apply stopped_spec).
  all: destruct (Nat.ltb_spec 1 (part.2 - part.1)) as [Hbig|Hone];
    [eapply Hhalf; [|exact H]; pose proof (half_within _ Hbig); lia|].
  - eapply alone_spec; [done|exact Hv|lia|apply refuse_spec|exact Hrest|exact H].
  - eapply alone_spec; [done|exact Hv|lia|apply forbid_spec|exact Hrest|exact H].
Qed.
End sending.

(** ** The queues as one plan *)

Definition load_items (s : Storage) (q : list (bytes * bytes)) : list (SyncObject * Sent) :=
  omap (fun vi => (fun it => (OItem it, SentDirty)) <$> get_item s vi.1 vi.2) q.

(** what is still to send, in order *)
Definition plan (s : Storage) (p : Push) : list (SyncObject * Sent) :=
  before_items p ++ load_items s (q_items p) ++ after_items p.

Lemma next_item_spec s q x rest :
  next_item s q = (x, rest) ->
  load_items s q = option_list ((fun it => (OItem it, SentDirty)) <$> x) ++ load_items s rest /\
  (x = None -> rest = []).
Proof.
  induction q as [|[v i] q IH]; cbn [next_item]; [by intros [= <- <-]|].
  unfold load_items. cbn [omap list_omap fst snd].
  destruct (get_item s v i) as [it|] eqn:Hit; cbn [fmap option_fmap option_map].
  - intros [= <- <-]. done.
  - intros H. by apply IH.
Qed.

(** [p'] is [p] with other queues *)
Definition same_but_queues (p p' : Push) : Prop :=
  same_keys p p' /\ own p' = own p /\ too_large p' = too_large p /\ unpushable p' = unpushable p.

#[global] Instance same_but_queues_preorder : PreOrder same_but_queues.
Proof.
  split; unfold same_but_queues, same_keys; [intros p; split_and!; done|].
  intros p q r H1 H2. destruct_and?. split_and!; congruence.
Qed.

Ltac open_take :=
  unfold take_next, mbind, M_bind, read_push, read_store, on_push, modify, id; cbn.

Lemma take_next_spec w : exists x p',
  take_next w = (Ok x, mkWorld (w_store w) p' (w_log w)) /\
  option_list x ++ plan (w_store w) p' = plan (w_store w) (w_push w) /\
  (x = None -> plan (w_store w) p' = []) /\ same_but_queues (w_push w) p'.
Proof.
  destruct w as [s p log]. cbn [w_store w_push w_log].
  destruct (before_items p) as [|q rest] eqn:Hb.
  - destruct (next_item s (q_items p)) as [x rest] eqn:Hn.
    pose proof (next_item_spec _ _ _ _ Hn) as [Hl Hnone].
    destruct x as [it|].
    + exists (Some (OItem it, SentDirty)), (set_q_items (fun _ => rest) p).
      split_and!; [| |done|done].
      * open_take. rewrite Hb. cbn [w_store]. by rewrite Hn.
      * unfold plan. cbn. by rewrite Hb, Hl.
    + specialize (Hnone eq_refl) as ->. destruct (after_items p) as [|q rest] eqn:Ha.
      * exists None, (set_q_items (fun _ => []) p). split_and!; [| | |done].
        -- open_take. rewrite Hb. cbn [w_store]. by rewrite Hn, Ha.
        -- unfold plan. cbn. by rewrite Hb, Hl, Ha.
        -- intros _. unfold plan. cbn. by rewrite Hb, Ha.
      * exists (Some q), (set_after (fun _ => rest) (set_q_items (fun _ => []) p)).
        split_and!; [| |done|done].
        -- open_take. rewrite Hb. cbn [w_store]. by rewrite Hn, Ha.
        -- unfold plan. cbn. by rewrite Hb, Hl, Ha.
  - exists (Some q), (set_before (fun _ => rest) p). split_and!; [| |done|done].
    + open_take. by rewrite Hb.
    + unfold plan. cbn. by rewrite Hb.
Qed.

(** ** Cutting the plan into requests *)

Definition total (l : list SyncObject) : N := foldr N.add 0 (encoded_len <$> l).

Lemma total_app l k : total (l ++ k) = total l + total k.
Proof. unfold total. rewrite fmap_app, foldr_app. induction (encoded_len <$> l); simpl; lia. Qed.

(** the size of a request: at most 500 objects and 1 MiB, or one object alone *)
Definition bounded (l : list SyncObject) : Prop :=
  len l <= PUSH_BATCH_MAX_OBJECTS /\ (total l <= PUSH_BATCH_MAX_BYTES \/ (length l <= 1)%nat).

Lemma bounded_part l part : bounded l -> bounded (part_of l part).
Proof.
  intros [Hn Hb]. unfold part_of.
  assert (exists a b, l = a ++ take (part.2 - part.1) (drop part.1 l) ++ b) as (a & b & Hl).
  { exists (take part.1 l), (drop (part.2 - part.1) (drop part.1 l)). by rewrite !take_drop. }
  set (m := take _ _) in *. unfold bounded, len in *. rewrite Hl in Hn, Hb.
  rewrite !length_app in *. rewrite !total_app in Hb. split; [lia|]. destruct Hb; [left|right]; lia.
Qed.

Record request_ok (r : Outgoing) : Prop := {
  rq_sent : length (og_objects r) = length (og_sent r);
  rq_bytes : og_bytes r = N.min u64_max (total (og_objects r));
  rq_bounded : bounded (og_objects r)
}.

Definition pairs (r : Outgoing) : list (SyncObject * Sent) := zip (og_objects r) (og_sent r).

Lemma request_ok_empty : request_ok empty_outgoing.
Proof. split; [done|done|]. split; [done|by left]. Qed.

Lemma request_ok_add r o st :
  request_ok r ->
  ((PUSH_BATCH_MAX_OBJECTS <=? len (og_objects r))
   || (PUSH_BATCH_MAX_BYTES <? sat_add64 (og_bytes r) (encoded_len o)))
  && negb (length (og_objects r) =? 0)%nat = false ->
  request_ok (outgoing_add r o st (encoded_len o)).
Proof.
  intros [Hs Hb [Hn Ht]] Hfull. unfold outgoing_add.
  assert (total (og_objects r ++ [o]) = total (og_objects r) + encoded_len o) as Htot.
  { rewrite total_app. unfold total at 2. simpl. lia. }
  split; cbn [og_objects og_sent og_bytes].
  - rewrite !length_app. simpl. lia.
  - rewrite Htot, Hb. unfold sat_add64. lia.
  - destruct (og_objects r) as [|x l] eqn:Ho.
    + split; [done|]. right. simpl. lia.
    + cbn [length Nat.eqb negb] in Hfull. rewrite andb_true_r, orb_false_iff in Hfull.
      destruct Hfull as [H1%N.leb_gt H2%N.ltb_ge]. split.
      * unfold len in *. rewrite length_app. simpl in *. lia.
      * left. rewrite Htot. unfold sat_add64 in H2. rewrite Hb in H2.
        unfold PUSH_BATCH_MAX_BYTES, u64_max in *. lia.
Qed.

Lemma pairs_add r o st n :
  length (og_objects r) = length (og_sent r) ->
  pairs (outgoing_add r o st n) = pairs r ++ [(o, st)].
Proof. intros H. unfold pairs, outgoing_add. cbn. by rewrite zip_with_app. Qed.

(** what a pull of the queues leaves: the request, the carried object, the plan *)
Definition todo (carried : option (SyncObject * Sent)) (w : World) : list (SyncObject * Sent) :=
  option_list carried ++ plan (w_store w) (w_push w).

Lemma fill_spec fuel request carried w :
  request_ok request -> (length (todo carried w) < fuel)%nat ->
  exists request' carried' p',
    fill fuel request carried w =
      (Ok (request', carried'), mkWorld (w_store w) p' (w_log w)) /\
    request_ok request' /\ same_but_queues (w_push w) p' /\
    pairs request' ++ todo carried' (mkWorld (w_store w) p' (w_log w)) =
      pairs request ++ todo carried w /\
    (og_objects request' = [] ->
       og_objects request = [] /\ todo carried' (mkWorld (w_store w) p' (w_log w)) = []).
Proof.
  revert request carried w. induction fuel as [|fuel IH]; intros request carried w Hok Hf; [lia|].
  cbn [fill]. assert (exists x p', (match carried with Some c => mret (Some c) | None => take_next end) w =
     (Ok x, mkWorld (w_store w) p' (w_log w)) /\
     todo x (mkWorld (w_store w) p' (w_log w)) = todo carried w /\
     (x = None -> plan (w_store w) p' = []) /\ same_but_queues (w_push w) p')
    as (x & p' & Hx & Hplan & Hnone & Hsame).
  { destruct carried as [c|].
    - exists (Some c), (w_push w). by destruct w.
    - apply take_next_spec. }
  unfold mbind at 1, M_bind at 1. rewrite Hx. rewrite <-Hplan in *.
  set (w1 := mkWorld (w_store w) p' (w_log w)) in *.
  destruct x as [[o st]|].
  - destruct (_ && _) eqn:Hfull.
    + exists request, (Some (o, st)), p'. split_and!; [done..|].
      intros Ho. rewrite Ho in Hfull. by rewrite andb_false_r in Hfull.
    + pose proof (request_ok_add _ _ st Hok Hfull) as Hok1.
      destruct (IH (outgoing_add request o st (encoded_len o)) None w1 Hok1)
        as (rq & c & p2 & H & Hrq & Hs2 & Hpl & Hemp).
      { unfold todo in *. simpl in *. lia. }
      subst w1. cbn [w_store w_push w_log] in *.
      exists rq, c, p2. split_and!; [done|done|by etrans| |].
      * rewrite Hpl, pairs_add by apply Hok. by rewrite <-app_assoc.
      * intros Hrq0. destruct (Hemp Hrq0) as [Hbad _]. unfold outgoing_add in Hbad. cbn in Hbad.
        by apply app_nil in Hbad as [_ ?].
  - exists request, None, p'. split_and!; [done..|]. intros Ho. split; [done|]. by apply Hnone.
Qed.

(** ** The sending loop *)

(** the effect of a whole push, queues aside *)
Record pushes (L : list (list SyncObject * bool)) (w w' : World) : Prop := {
  ph_log : w_log w' = w_log w ++ L;
  ph_store : push_frame (w_push w) (accepted L) (w_store w) (w_store w');
  ph_keys : same_keys (w_push w) (w_push w');
  ph_reports : reports_grow (w_push w) (w_push w')
}.

Lemma sends_pushes L w w' : sends L w w' -> pushes L w w'.
Proof. intros [G S [K _] R]. by split. Qed.

Lemma requeue_pushes w p' :
  same_but_queues (w_push w) p' -> pushes [] w (mkWorld (w_store w) p' (w_log w)).
Proof.
  intros (K & _ & T & U). split; cbn; [by rewrite app_nil_r|apply push_frame_refl|done|].
  by apply reports_refl.
Qed.

Lemma pushes_trans L1 L2 w1 w2 w3 : pushes L1 w1 w2 -> pushes L2 w2 w3 -> pushes (L1 ++ L2) w1 w3.
Proof.
  intros [G1 S1 K1 R1] [G2 S2 K2 R2]. split; [by rewrite G2, G1, app_assoc| | |by etrans].
  - rewrite accepted_app. eapply push_frame_trans; [exact S1|]. by eapply push_frame_keys.
  - unfold same_keys in *. destruct_and?. split_and!; congruence.
Qed.

(** the outcome of sending the objects [objs] *)
Record delivery (objs : list SyncObject) (pushed : N) (w : World) (r : result Stop N) (w' : World)
    : Prop := {
  dl_fuel : r <> Err OutOfFuel;
  dl_log : exists L, pushes L w w' /\ Forall (fun e => bounded e.1) L /\
    accepted L `sublist_of` objs /\
    forall n, r = Ok n ->
      n = sat_add64 pushed (len (accepted L)) /\ Forall (clean (w_store w')) (accepted L) /\
      exists left, objs ≡ₚ accepted L ++ left /\ Forall (reported (w_push w')) left
}.

Lemma parts_bounded O L :
  bounded O ->
  Forall (fun e => exists part, valid_part (length O) part /\ e.1 = part_of O part) L ->
  Forall (fun e : list SyncObject * bool => bounded e.1) L.
Proof.
  intros Hb H. eapply list.Forall_impl; [exact H|]. intros e (part & _ & ->). by apply bounded_part.
Qed.

Lemma delivery_step O rest pushed w w1 n r w' :
  bounded O -> parts_sent O O 0 w (Ok n) w1 ->
  delivery rest (sat_add64 pushed n) w1 r w' -> delivery (O ++ rest) pushed w r w'.
Proof.
  intros Hb [_ (L1 & S1 & P1 & A1 & Hok1)] [Hne (L2 & S2 & P2 & A2 & Hok2)].
  destruct (Hok1 n eq_refl) as (Hn & C1 & left1 & E1 & R1).
  split; [done|]. exists (L1 ++ L2). split_and!.
  - eapply pushes_trans; [by apply sends_pushes|done].
  - apply Forall_app. split; [by eapply parts_bounded|done].
  - rewrite accepted_app. by apply sublist_app.
  - intros m Hm. destruct (Hok2 m Hm) as (-> & C2 & left2 & E2 & R2).
    rewrite accepted_app, len_app. split_and!.
    + rewrite Hn. unfold sat_add64. lia.
    + apply Forall_app. split; [|done]. eapply list.Forall_impl; [exact C1|].
      intros o. eapply clean_frame, S2.
    + exists (left1 ++ left2). split.
      * rewrite E1, E2. rewrite <-!app_assoc. f_equiv. rewrite !app_assoc. f_equiv.
        apply Permutation_app_comm.
      * apply Forall_app. split; [|done]. eapply list.Forall_impl; [exact R1|].
        intros o. eapply reported_grow, S2.
Qed.

Lemma delivery_stop O rest pushed w e w' :
  bounded O -> parts_sent O O 0 w (Err e) w' -> delivery (O ++ rest) pushed w (Err e) w'.
Proof.
  intros Hb [Hne (L & S & P1 & A & _)]. split; [congruence|]. exists L.
  split_and!; [by apply sends_pushes|by eapply parts_bounded| |intros n [=]].
  by apply sublist_inserts_r.
Qed.

Lemma delivery_requeue objs pushed w p' r w' :
  same_but_queues (w_push w) p' ->
  delivery objs pushed (mkWorld (w_store w) p' (w_log w)) r w' -> delivery objs pushed w r w'.
Proof.
  intros Hq [Hne (L & S & H)]. split; [done|]. exists L. split; [|done].
  apply (pushes_trans [] L _ _ _ (requeue_pushes _ _ Hq) S).
Qed.

Lemma get_item_frame p acc s s' v i : push_frame p acc s s' -> get_item s' v i = get_item s v i.
Proof. intros H. unfold get_item. eapply only_cleared_row, H. Qed.

Lemma plan_sends L w w' :
  sends L w w' -> plan (w_store w') (w_push w') = plan (w_store w) (w_push w).
Proof.
  intros [_ S (_ & B & I & A & _) _]. unfold plan, load_items. rewrite B, I, A. do 2 f_equal.
  clear I. induction (q_items (w_push w)) as [|vi q IH]; [done|].
  cbn [omap list_omap]. by rewrite (get_item_frame _ _ _ _ _ _ S), IH.
Qed.

Section loop.
Variable server : nat -> list SyncObject -> result SyncError (list N).

Lemma send_request_spec request w r w' :
  request_ok request -> og_objects request <> [] -> Forall (sendable (w_store w)) (pairs request) ->
  send_request server request w = (r, w') ->
  parts_sent (og_objects request) (og_objects request) 0 w r w'.
Proof.
  intros Hok Hne Hall H. unfold send_request in H.
  assert (0 < length (og_objects request))%nat as Hpos by (destruct (og_objects request); simpl; [done|lia]).
  apply send_parts_spec in H.
  - cbn [fmap list_fmap concat] in H. rewrite app_nil_r in H. unfold part_of in H.
    cbn [fst snd] in H. by rewrite Nat.sub_0_r, drop_0, take_ge in H by lia.
  - apply Hok.
  - unfold u64_max. lia.
  - done.
  - constructor; [|constructor]. unfold valid_part. cbn [fst snd]. lia.
  - rewrite parts_cost_cons. unfold parts_cost. simpl. lia.
Qed.

Lemma send_loop_spec fuel carried pushed w r w' :
  pushed <= u64_max -> (length (todo carried w) < fuel)%nat ->
  Forall (sendable (w_store w)) (todo carried w) ->
  send_loop server fuel carried pushed w = (r, w') ->
  delivery ((todo carried w).*1) pushed w r w'.
Proof.
  revert carried pushed w. induction fuel as [|fuel IH]; intros carried pushed w Hpu Hf Hall H; [lia|].
  cbn [send_loop] in H.
  destruct (fill_spec (S fuel) empty_outgoing carried w request_ok_empty Hf)
    as (rq & c & p' & Hfill & Hok & Hsame & Hpl & Hemp).
  unfold mbind at 1, M_bind at 1 in H. rewrite Hfill in H.
  change (pairs empty_outgoing ++ todo carried w) with (todo carried w) in Hpl.
  rewrite <-Hpl in *. apply (delivery_requeue _ _ _ p'); [done|].
  set (w1 := mkWorld (w_store w) p' (w_log w)) in *.
  assert ((pairs rq ++ todo c w1).*1 = og_objects rq ++ (todo c w1).*1) as Hfst.
  { rewrite fmap_app. f_equal. apply fst_zip. rewrite (rq_sent _ Hok). lia. }
  rewrite Hfst. apply Forall_app in Hall as [Hall1 Hall2].
  destruct (Nat.eqb_spec (length (og_objects rq)) 0) as [Hz%nil_length_inv|Hz].
  { injection H as <- <-. destruct (Hemp Hz) as [_ Htodo]. rewrite Htodo, Hz.
    split; [done|]. exists []. split_and!; [|constructor|done|].
    - apply sends_pushes, sends_refl.
    - intros n [= <-]. split_and!; [by rewrite sat_add_0|constructor|by exists []]. }
  assert (og_objects rq <> []) as Hne by (intros E; by rewrite E in Hz).
  apply M_bind_run in H as [(n & w2 & H1 & H)|(e & H1 & ->)];
    apply send_request_spec in H1; try done; [|by apply delivery_stop; [apply Hok|]].
  eapply delivery_step; [apply Hok|exact H1|].
  destruct H1 as [_ (L & S & _)].
  assert (todo c w2 = todo c w1) as Ht by (unfold todo; by rewrite (plan_sends _ _ _ S)).
  rewrite <-Ht in *. apply IH; [unfold sat_add64; lia| |by eapply sends_sendable|exact H].
  rewrite length_app in Hf. unfold pairs in Hf.
  rewrite length_zip_with, <-(rq_sent _ Hok), Nat.min_id in Hf. lia.
Qed.
End loop.
