(* ===== verification/SyncPushSpec.v ===== *)
(** * What a push promises

    The queues of a push as a function of the store ([push_plan]), the
    authorship cache against the check it caches, and the theorems about
    whole pushes. *)

From Stdlib Require Import Strings.Byte NArith ZArith Lia.
From stdpp Require Import base gmap sets list strings sorting countable.
From S2P Require Import Prelude Bytes CryptoPrims Crypto Storage StorageInv Keychain KeychainThy.
From S2P Require Import Membership MembershipThy Authority SyncObject SyncPull SyncPullThy.
From S2P Require Import SyncPush SyncPushThy.

Local Open Scope N_scope.

Section queue.
Context `{P : CryptoPrims}.

(** ** The authorship cache *)

(** the check itself, without the cache *)
Definition verdict (s : Storage) (own : option bytes) (vid author : bytes) (e : N) : bool :=
  match own with
  | None => true
  | Some o => is_ok (verify_record_authority s vid author e (anchor_of s vid o))
  end.

Definition seen_ok (s : Storage) (own : option bytes) (seen : Seen) : Prop :=
  forall vid author e b, seen !! (vid, author, e) = Some b -> b = verdict s own vid author e.

Lemma may_write_spec s own seen head b seen' :
  seen_ok s own seen -> may_write s own seen head = Ok (b, seen') ->
  b = verdict s own (iv_vault_id head) (iv_author_pubkey head) (iv_key_epoch head) /\
  seen_ok s own seen'.
Proof.
  intros Hs. unfold may_write, verdict. destruct own as [o|]; [|by intros [= <- <-]].
  destruct (seen !! _) as [known|] eqn:Hk.
  { intros [= <- <-]. split; [exact (Hs _ _ _ _ Hk)|done]. }
  set (out := verify_record_authority _ _ _ _ _).
  assert (forall x, x = is_ok out -> seen_ok s (Some o)
    (<[(iv_vault_id head, iv_author_pubkey head, iv_key_epoch head) := x]> seen)) as Hins.
  { intros x -> vid author e b'. destruct (decide ((vid, author, e) =
      (iv_vault_id head, iv_author_pubkey head, iv_key_epoch head))) as [E|Hne].
    - injection E as -> -> ->. rewrite lookup_insert_eq. by intros [= <-].
    - rewrite lookup_insert_ne by done. apply Hs. }
  fold out. destruct out as [u|[]]; intros H; try done; injection H as <- <-; split; try done;
    by apply Hins.
Qed.

(** ** Which dirty items are sent *)

Definition remembered_as (head : ItemVersion) (r : TooLarge) : bool :=
  bytes_eqb (tl_vault_id r) (iv_vault_id head)
  && bytes_eqb (tl_item_id r) (iv_item_id head)
  && (tl_version r =? iv_version head).

Definition to_send (s : Storage) (own : option bytes) (remembered : list TooLarge)
    (forbidden : list Unpushable) (head : ItemVersion) : bool :=
  match List.find (remembered_as head) remembered,
        List.find (fun f => unpushable_is f head) forbidden with
  | None, None => verdict s own (iv_vault_id head) (iv_author_pubkey head) (iv_key_epoch head)
  | _, _ => false
  end.

(** what queueing leaves alone *)
Record queueing (w w' : World) : Prop := {
  qg_store : w_store w' = w_store w;
  qg_log : w_log w' = w_log w;
  qg_keys : same_keys (w_push w) (w_push w');
  qg_own : own (w_push w') = own (w_push w);
  qg_before : before_items (w_push w') = before_items (w_push w);
  qg_after : after_items (w_push w') = after_items (w_push w)
}.

Lemma queueing_refl w : queueing w w.
Proof. by split. Qed.
Lemma queueing_trans w1 w2 w3 : queueing w1 w2 -> queueing w2 w3 -> queueing w1 w3.
Proof.
  intros [S1 G1 K1 O1 B1 A1] [S2 G2 K2 O2 B2 A2]. split; try congruence.
  unfold same_keys in *. destruct_and?. split_and!; congruence.
Qed.

Lemma queueing_push w f :
  same_keys (w_push w) (f (w_push w)) -> own (f (w_push w)) = own (w_push w) ->
  before_items (f (w_push w)) = before_items (w_push w) ->
  after_items (f (w_push w)) = after_items (w_push w) ->
  queueing w (mkWorld (w_store w) (f (w_push w)) (w_log w)).
Proof. intros. by split. Qed.

Lemma queue_item_spec remembered forbidden head w r w' :
  seen_ok (w_store w) (own (w_push w)) (seen (w_push w)) ->
  queue_item remembered forbidden head w = (r, w') ->
  queueing w w' /\ r <> Err OutOfFuel /\
  (is_ok r = true ->
     seen_ok (w_store w) (own (w_push w)) (seen (w_push w')) /\
     q_items (w_push w') = q_items (w_push w) ++
       (if to_send (w_store w) (own (w_push w)) remembered forbidden head
        then [(iv_vault_id head, iv_item_id head)] else [])).
Proof.
  intros Hs H. unfold queue_item in H. fold (remembered_as head) in H. unfold to_send.
  destruct (List.find (remembered_as head) remembered) as [t|].
  { injection H as <- <-. split_and!; [by apply queueing_push|done|]. intros _.
    split; [done|]. by rewrite app_nil_r. }
  destruct (List.find (fun f => unpushable_is f head) forbidden) as [u|].
  { injection H as <- <-. split_and!; [by apply queueing_push|done|]. intros _.
    split; [done|]. by rewrite app_nil_r. }
  unfold mbind, M_bind, read_store, read_push, lift_result, id in H.
  destruct (may_write _ _ _ _) as [[allowed seen']|e] eqn:Hm.
  - apply may_write_spec in Hm as [-> Hs']; [|done]. cbn [map_err] in H.
    destruct (verdict _ _ _ _ _); injection H as <- <-;
      (split_and!; [by split|done|]; intros _; split; [done|]; by rewrite ?app_nil_r).
  - injection H as <- <-. split_and!; [apply queueing_refl|done|done].
Qed.

Lemma queue_items_spec remembered forbidden heads w r w' :
  seen_ok (w_store w) (own (w_push w)) (seen (w_push w)) ->
  for_each heads (queue_item remembered forbidden) w = (r, w') ->
  queueing w w' /\ r <> Err OutOfFuel /\
  (is_ok r = true ->
     q_items (w_push w') = q_items (w_push w) ++
       ((fun h => (iv_vault_id h, iv_item_id h)) <$>
          List.filter (to_send (w_store w) (own (w_push w)) remembered forbidden) heads)).
Proof.
  revert w. induction heads as [|head heads IH]; intros w Hs H.
  { injection H as <- <-. split_and!; [apply queueing_refl|done|]. intros _.
    by rewrite app_nil_r. }
  cbn [for_each] in H. apply M_bind_run in H as [([] & w1 & H1 & H)|(e & H1 & ->)];
    apply queue_item_spec in H1 as (Q1 & Hne1 & Hok1); try done.
  destruct (Hok1 eq_refl) as [Hs1 Hq1]. destruct Q1 as [S1 G1 K1 O1 B1 A1].
  apply IH in H as (Q2 & Hne & Hok); [|by rewrite S1, O1].
  split_and!; [by eapply queueing_trans; [split|]|done|]. intros Hr.
  rewrite (Hok Hr), Hq1, S1, O1, <-app_assoc. f_equal. cbn [List.filter].
  by destruct (to_send _ _ _ _ _).
Qed.

(** ** The plan of a push *)

Definition sent_items (s : Storage) (tenant : bytes) (own : option bytes) : list SyncObject :=
  let heads := List.filter (to_send s own (load_refused s (push_refused_key tenant))
                              (load_forbidden s (push_forbidden_key tenant)))
                 (list_dirty_bound_item_versions s tenant) in
  omap (fun h => OItem <$> get_item s (iv_vault_id h) (iv_item_id h)) heads.

(** the account-wide part: newer than the cursors of this server *)
Definition sent_accounts (s : Storage) (tenant : bytes) : list SyncObject :=
  account_object <$> List.filter
    (fun st => default 0 (get_sync_cursor s (acct_push_cursor_key tenant)) <? as_version st)
    (list_account_states s).
Definition sent_audit (s : Storage) (tenant : bytes) : list SyncObject :=
  audit_object <$> list_audit s (default 0 (get_sync_cursor s (push_cursor_key tenant))).

(** everything a push offers the server, in dependency order *)
Definition push_plan (s : Storage) (tenant : bytes) (own : option bytes) (account_wide : bool)
    : list SyncObject :=
  (OManifest <$> list_dirty_bound_manifests s tenant) ++
  (OVault <$> list_dirty_bound_vaults s tenant) ++
  (OGrant <$> list_dirty_bound_grants s tenant) ++
  sent_items s tenant own ++
  (if account_wide then sent_accounts s tenant ++ sent_audit s tenant else []).

Lemma on_store_push {A} (m : EM A) w r w' :
  on_store m w = (r, w') -> w_push w' = w_push w /\ w_log w' = w_log w /\ r <> Err OutOfFuel.
Proof.
  unfold on_store. destruct (m (w_store w)) as [r0 s']. intros [= <- <-].
  split_and!; [done|done|by destruct r0].
Qed.

(** the records of refusals are rewritten when an entry became obsolete *)
Definition save_records (rem : list TooLarge) (forb : list Unpushable) : PM unit :=
  p ← read_push id;
  _ ← (if decide (too_large p = rem) then mret tt
       else on_store (save_refused (refused_key p) (too_large p)));
  if decide (server_refused p = forb) then mret tt else push_save_forbidden.

Lemma save_records_spec rem forb w r w' :
  save_records rem forb w = (r, w') ->
  sends [] w w' /\ w_push w' = w_push w /\ r <> Err OutOfFuel.
Proof.
  intros H. assert (quietly w (save_records rem forb)) as Hq.
  { apply quietly_read. cbn [id]. apply quietly_bind.
    - destruct (decide _); [apply quietly_ret|]. apply quietly_store. intros r0 s' Hs.
      eapply save_list_frame; [|exact Hs]. by left.
    - intros _ w1 _. destruct (decide _); [apply quietly_ret|apply push_save_forbidden_quiet]. }
  destruct (Hq _ _ H) as [Hs Hne]. split_and!; [done| |done].
  change ((((if decide (too_large (w_push w) = rem) then mret tt
            else on_store (save_refused (refused_key (w_push w)) (too_large (w_push w)))) ≫=
           fun _ => if decide (server_refused (w_push w) = forb) then mret tt else push_save_forbidden)
            w) = (r, w')) in H.
  destruct (decide (too_large (w_push w) = rem)), (decide (server_refused (w_push w) = forb)).
  - by injection H as <- <-.
  - by apply (on_store_push (save_forbidden _ _)) in H as (-> & _).
  - apply M_bind_run in H as [(u & w1 & (E & _)%on_store_push & H)|(? & (E & _)%on_store_push & _)];
      [by injection H as <- <-|done].
  - apply M_bind_run in H as [(u & w1 & (E & _)%on_store_push & H)|(? & (E & _)%on_store_push & _)];
      [|done]. rewrite <-E. by apply (on_store_push (save_forbidden _ _)) in H as (-> & _).
Qed.

(** the records live in [meta]: no cursor moves *)
Definition same_cursors (w w' : World) : Prop := sync_state (w_store w') = sync_state (w_store w).
#[local] Instance same_cursors_preorder : PreOrder same_cursors.
Proof. split; unfold same_cursors; [done|congruence]. Qed.

Lemma on_store_cursors {A} (put : bytes -> A -> result SyncError bytes) k l :
  preserves same_cursors (on_store (save_list put k l)).
Proof.
  intros w r w' H. unfold on_store in H. destruct (save_list put k l (w_store w)) as [r0 s'] eqn:E.
  injection H as <- <-. unfold same_cursors. cbn.
  apply M_bind_run in E as [(b & s1 & [_ <-]%pair_eq & E)|(e & [_ <-]%pair_eq & _)]; [|done].
  by injection E as _ <-.
Qed.

Lemma save_records_cursors rem forb : preserves same_cursors (save_records rem forb).
Proof.
  assert (forall (g : Push -> Push), preserves same_cursors (read_push g)) as Hr
    by (by intros g w r w' [= _ <-]).
  apply preserves_bind; [apply _|done|]. intros p. apply preserves_bind; [apply _| |].
  - destruct (decide _); [apply preserves_ret; apply _|apply on_store_cursors].
  - intros _. destruct (decide _); [apply preserves_ret; apply _|].
    apply preserves_bind; [apply _|done|]. intros q. apply on_store_cursors.
Qed.

(** the world after the queues of the vault data are filled *)
Lemma queue_spec tenant own0 w r w' :
  w_push w = new_push tenant own0 -> queue tenant w = (r, w') ->
  sends [] w (mkWorld (w_store w') (w_push w) (w_log w')) /\
  same_keys (w_push w) (w_push w') /\ r <> Err OutOfFuel /\
  (is_ok r = true ->
     sync_state (w_store w') = sync_state (w_store w) /\
     own (w_push w') = own0 /\ after_items (w_push w') = [] /\
     before_items (w_push w') = (fun o => (o, SentDirty)) <$>
       ((OManifest <$> list_dirty_bound_manifests (w_store w) tenant) ++
        (OVault <$> list_dirty_bound_vaults (w_store w) tenant) ++
        (OGrant <$> list_dirty_bound_grants (w_store w) tenant)) /\
     q_items (w_push w') = (fun h => (iv_vault_id h, iv_item_id h)) <$>
       List.filter (to_send (w_store w) own0 (load_refused (w_store w) (push_refused_key tenant))
                      (load_forbidden (w_store w) (push_forbidden_key tenant)))
         (list_dirty_bound_item_versions (w_store w) tenant)).
Proof.
  intros Hp H. destruct w as [s p log]. cbn [w_store w_push w_log] in *. subst p.
  set (bef := ((fun m => (OManifest m, SentDirty)) <$> list_dirty_bound_manifests s tenant) ++
              ((fun v => (OVault v, SentDirty)) <$> list_dirty_bound_vaults s tenant) ++
              ((fun g => (OGrant g, SentDirty)) <$> list_dirty_bound_grants s tenant)).
  set (w1 := mkWorld s (set_before (fun _ => bef) (new_push tenant own0)) log).
  set (rem := load_refused s (push_refused_key tenant)).
  set (forb := load_forbidden s (push_forbidden_key tenant)).
  assert ((for_each (list_dirty_bound_item_versions s tenant) (queue_item rem forb) ≫= fun _ =>
           save_records rem forb) w1 = (r, w')) as H1.
  { rewrite <-H. unfold queue, mbind, M_bind, read_store, read_push, on_push, modify, id. cbn.
    unfold w1, bef, set_before. cbn. by rewrite <-app_assoc. }
  assert (seen_ok (w_store w1) (own (w_push w1)) (seen (w_push w1))) as Hseen
    by (intros v a e b Hb; cbn in Hb; by rewrite lookup_empty in Hb).
  apply M_bind_run in H1 as [([] & w2 & Hq & H1)|(e & Hq & ->)];
    apply queue_items_spec in Hq as ([S2 G2 K2 O2 B2 A2] & Hne2 & Hok2); try done.
  - pose proof (save_records_cursors _ _ _ _ _ H1) as Hcur.
    apply save_records_spec in H1 as ([G3 F3 _ _] & E3 & Hne). rewrite E3.
    cbn [w_store w_push w_log w1] in *. rewrite G2, S2 in *. split_and!.
    + split; cbn; [done| |reflexivity|reflexivity].
      eapply push_frame_keys; [exact K2|done].
    + exact K2.
    + done.
    + intros _. rewrite O2, A2, B2, (Hok2 eq_refl). unfold same_cursors in Hcur. rewrite S2 in Hcur.
      split_and!; [done..| |done]. unfold bef. cbn. by rewrite !fmap_app, <-!list_fmap_compose.
  - cbn [w_store w_push w_log w1] in *. rewrite G2, S2. split_and!; [|done|congruence|done].
    apply (sends_refl (mkWorld s (new_push tenant own0) log)).
Qed.

(** a loop whose body only changes the [Push] struct *)
Lemma for_each_push {A} (body : A -> PM unit) (g : A -> Push -> Push) l w :
  (forall x w, body x w = (Ok tt, mkWorld (w_store w) (g x (w_push w)) (w_log w))) ->
  for_each l body w = (Ok tt, mkWorld (w_store w) (foldl (fun p x => g x p) (w_push w) l) (w_log w)).
Proof.
  intros Hb. revert w. induction l as [|x l IH]; intros w; cbn [for_each foldl]; [by destruct w|].
  unfold mbind, M_bind. rewrite Hb, IH. done.
Qed.

Definition add_account (last : N) (st : AccountStateRecord) (p : Push) : Push :=
  if last <? as_version st
  then set_after (fun q => q ++ [(account_object st, SentAccount)])
         (set_acct (fun n => sat_add64 n 1) (fun v => option_max v (as_version st)) p)
  else p.
Definition add_audit (e : AuditEntry) (p : Push) : Push :=
  set_after (fun q => q ++ [(audit_object e, SentAudit (ae_seq e))]) p.

(** only the last queue (and the account counters) grew *)
Definition queued_after (l : list (SyncObject * Sent)) (p p' : Push) : Prop :=
  same_but_queues p p' /\ before_items p' = before_items p /\ q_items p' = q_items p /\
  after_items p' = after_items p ++ l.

Lemma add_accounts_spec last l p :
  queued_after ((fun st => (account_object st, SentAccount)) <$>
                  List.filter (fun st => last <? as_version st) l)
    p (foldl (fun p st => add_account last st p) p l).
Proof.
  revert p. induction l as [|st l IH]; intros p; cbn [foldl List.filter].
  { unfold queued_after. cbn. by rewrite app_nil_r. }
  destruct (IH (add_account last st p)) as (Hs & Hb & Hq & Ha).
  unfold add_account in *. destruct (last <? as_version st); [|done].
  split_and!; [by etrans; [|exact Hs]|done..|]. rewrite Ha. cbn. by rewrite <-app_assoc.
Qed.

Lemma add_audits_spec l p :
  queued_after ((fun e => (audit_object e, SentAudit (ae_seq e))) <$> l)
    p (foldl (fun p e => add_audit e p) p l).
Proof.
  revert p. induction l as [|e l IH]; intros p; cbn [foldl].
  { unfold queued_after. cbn. by rewrite app_nil_r. }
  destruct (IH (add_audit e p)) as (Hs & Hb & Hq & Ha).
  split_and!; [by etrans; [|exact Hs]|done..|]. rewrite Ha. cbn. by rewrite <-app_assoc.
Qed.

Lemma queue_account_wide_spec w : exists p',
  queue_account_wide w = (Ok tt, mkWorld (w_store w) p' (w_log w)) /\
  queued_after
    (((fun st => (account_object st, SentAccount)) <$>
        List.filter (fun st => default 0 (get_sync_cursor (w_store w) (acct_key (w_push w)))
                               <? as_version st) (list_account_states (w_store w))) ++
     ((fun e => (audit_object e, SentAudit (ae_seq e))) <$>
        list_audit (w_store w) (default 0 (get_sync_cursor (w_store w) (audit_key (w_push w))))))
    (w_push w) p'.
Proof.
  destruct w as [s p log]. cbn [w_store w_push w_log].
  set (last := default 0 (get_sync_cursor s (acct_key p))).
  set (cur := default 0 (get_sync_cursor s (audit_key p))).
  set (p1 := foldl (fun p st => add_account last st p) p (list_account_states s)).
  exists (foldl (fun p e => add_audit e p) p1 (list_audit s cur)).
  pose proof (add_accounts_spec last (list_account_states s) p) as (S1 & B1 & Q1 & A1).
  pose proof (add_audits_spec (list_audit s cur) p1) as (S2 & B2 & Q2 & A2). fold p1 in S1, B1, Q1, A1.
  split.
  - unfold queue_account_wide. unfold mbind at 1, M_bind at 1, read_store at 1.
    unfold mbind at 1, M_bind at 1, read_push at 1. cbn [w_store w_push w_log id]. fold last cur.
    unfold mbind at 1, M_bind at 1. rewrite (for_each_push _ (add_account last)).
    + rewrite (for_each_push _ add_audit); [done|]. intros x w. done.
    + intros st w. unfold add_account. destruct (last <? as_version st); [done|by destruct w].
  - split_and!; [by etrans|congruence|congruence|]. rewrite A2, A1. by rewrite <-app_assoc.
Qed.

(** ** A whole push *)

Lemma load_items_heads s s1 p heads :
  push_frame p [] s s1 ->
  load_items s1 ((fun h => (iv_vault_id h, iv_item_id h)) <$> heads) =
  (fun o => (o, SentDirty)) <$>
    omap (fun h => OItem <$> get_item s (iv_vault_id h) (iv_item_id h)) heads.
Proof.
  intros Hf. induction heads as [|h heads IH]; [done|].
  unfold load_items in *. cbn [fmap list_fmap omap list_omap fst snd].
  rewrite (get_item_frame _ _ _ _ _ _ Hf). destruct (get_item s _ _) as [it|]; cbn; by rewrite IH.
Qed.

Lemma current_item s v i it : store_wf s -> get_item s v i = Some it -> current s (OItem it).
Proof.
  intros Hwf Hit. unfold get_item in Hit. apply fmap_Some in Hit as (r & Hr & ->).
  destruct (wf_items _ Hwf _ _ Hr) as [Hk _]. simpl. by rewrite Hk, Hr.
Qed.

(** the rows a push lists are the rows the store holds *)
Lemma plan_current s tenant own0 :
  store_wf s ->
  Forall (current s) ((OManifest <$> list_dirty_bound_manifests s tenant) ++
    (OVault <$> list_dirty_bound_vaults s tenant) ++
    (OGrant <$> list_dirty_bound_grants s tenant) ++ sent_items s tenant own0).
Proof.
  intros Hwf. rewrite !Forall_app. split_and!; apply list.Forall_forall; intros o Ho.
  - apply list_elem_of_fmap in Ho as (m & -> & (k & r & Hr & _ & _ & ->)%elem_of_dirty_manifests).
    destruct (wf_manifests _ Hwf _ _ Hr) as [Hk _]. simpl. by rewrite Hk, Hr.
  - apply list_elem_of_fmap in Ho as (v & -> & (k & Hr & _)%elem_of_dirty_vaults).
    destruct (wf_vaults _ Hwf _ _ Hr) as [Hk _]. simpl in *. by rewrite Hk, Hr.
  - apply list_elem_of_fmap in Ho as (g & -> & (k & r & Hr & _ & _ & ->)%elem_of_dirty_grants).
    destruct (wf_grants _ Hwf _ _ Hr) as [Hk _]. simpl. by rewrite Hk, Hr.
  - unfold sent_items in Ho. apply list_elem_of_omap in Ho as (h & _ & Hh).
    apply fmap_Some in Hh as (it & Hit & ->). by eapply current_item.
Qed.

Variable server : nat -> list SyncObject -> result SyncError (list N).

Lemma fst_tagged (st : Sent) (l : list SyncObject) : ((fun o => (o, st)) <$> l).*1 = l.
Proof. induction l as [|o l IH]; [done|]. cbn. by f_equal. Qed.

(** the plan the queues hold when sending starts *)
Lemma queues_plan tenant own0 aw s w1 :
  store_wf s -> push_frame (new_push tenant own0) [] s (w_store w1) ->
  before_items (w_push w1) = (fun o => (o, SentDirty)) <$>
    ((OManifest <$> list_dirty_bound_manifests s tenant) ++
     (OVault <$> list_dirty_bound_vaults s tenant) ++
     (OGrant <$> list_dirty_bound_grants s tenant)) ->
  q_items (w_push w1) = (fun h => (iv_vault_id h, iv_item_id h)) <$>
    List.filter (to_send s own0 (load_refused s (push_refused_key tenant))
                   (load_forbidden s (push_forbidden_key tenant)))
      (list_dirty_bound_item_versions s tenant) ->
  (after_items (w_push w1)).*1 = (if aw : bool then sent_accounts s tenant ++ sent_audit s tenant else []) ->
  Forall (fun os => os.2 <> SentDirty /\ untabled os.1) (after_items (w_push w1)) ->
  (todo None w1).*1 = push_plan s tenant own0 aw /\ Forall (sendable (w_store w1)) (todo None w1).
Proof.
  intros Hwf Hf Hb Hq Ha Hun.
  change (todo None w1) with (plan (w_store w1) (w_push w1)). unfold plan.
  rewrite Hb, Hq, (load_items_heads s _ _ _ Hf). fold (sent_items s tenant own0). split.
  - unfold push_plan. rewrite !fmap_app, Ha, !fst_tagged. by rewrite <-!app_assoc.
  - pose proof (plan_current s tenant own0 Hwf) as Hcur.
    rewrite !app_assoc in Hcur. rewrite !app_assoc. rewrite <-fmap_app.
    apply Forall_app. split.
    + apply list.Forall_fmap. eapply list.Forall_impl; [exact Hcur|].
      intros o Ho. by eapply current_frame.
    + eapply list.Forall_impl; [exact Hun|]. intros [o st] [Hst Hu]. unfold sendable. simpl in *.
      by destruct st.
Qed.

Record push_outcome (tenant : bytes) (own0 : option bytes) (aw : bool) (w : World)
    (r : result Stop PushReport) (w' : World) (L : list (list SyncObject * bool)) : Prop := {
  po_log : w_log w' = w_log w ++ L;
  po_store : push_frame (new_push tenant own0) (accepted L) (w_store w) (w_store w');
  po_bounded : Forall (fun e => bounded e.1) L;
  po_order : accepted L `sublist_of` push_plan (w_store w) tenant own0 aw;
  po_done : forall rep, r = Ok rep ->
    pushed rep = N.min u64_max (len (accepted L)) /\ Forall (clean (w_store w')) (accepted L) /\
    exists left, push_plan (w_store w) tenant own0 aw ≡ₚ accepted L ++ left /\
      Forall (reported_in (pr_too_large rep) (pr_unpushable rep)) left
}.

Lemma length_load_items s q : (length (load_items s q) <= length q)%nat.
Proof.
  unfold load_items. induction q as [|vi q IH]; [done|]. cbn [omap list_omap].
  destruct (get_item s _ _); simpl; lia.
Qed.

(** from filled queues to the outcome of the push *)
Lemma send_outcome tenant own0 aw w w2 r w' :
  store_wf (w_store w) -> push_frame (new_push tenant own0) [] (w_store w) (w_store w2) ->
  w_log w2 = w_log w -> same_keys (new_push tenant own0) (w_push w2) ->
  (todo None w2).*1 = push_plan (w_store w) tenant own0 aw ->
  Forall (sendable (w_store w2)) (todo None w2) ->
  (n ← send server; p ← read_push id; mret (mkPushReport n (too_large p) (unpushable p))) w2
    = (r, w') ->
  r <> Err OutOfFuel /\ exists L, push_outcome tenant own0 aw w r w' L.
Proof.
  intros Hwf Hf Hlog Hk Hplan Hall H.
  assert (length (todo None w2) < 2 + queued (w_push w2))%nat as Hfuel.
  { change (todo None w2) with (plan (w_store w2) (w_push w2)). unfold plan, queued.
    rewrite !length_app. pose proof (length_load_items (w_store w2) (q_items (w_push w2))). lia. }
  assert (forall r1 w3, send server w2 = (r1, w3) ->
    r1 <> Err OutOfFuel /\ exists L, w_log w3 = w_log w ++ L /\
      push_frame (new_push tenant own0) (accepted L) (w_store w) (w_store w3) /\
      Forall (fun e => bounded e.1) L /\
      accepted L `sublist_of` push_plan (w_store w) tenant own0 aw /\
      forall n, r1 = Ok n -> n = sat_add64 0 (len (accepted L)) /\
        Forall (clean (w_store w3)) (accepted L) /\
        exists left, push_plan (w_store w) tenant own0 aw ≡ₚ accepted L ++ left /\
          Forall (reported (w_push w3)) left) as Hsend.
  { intros r1 w3 Hs. change (send_loop server (2 + queued (w_push w2)) None 0 w2 = (r1, w3)) in Hs.
    apply send_loop_spec in Hs as [Hne (L & [G S _ _] & Hb & Ho & Hok)];
      [|unfold u64_max; lia|done|done].
    rewrite Hplan in Ho, Hok. split; [done|]. exists L. split_and!; [by rewrite G, Hlog| |done..].
    apply (push_frame_trans _ [] (accepted L) _ _ _ Hf). by eapply push_frame_keys. }
  apply M_bind_run in H as [(n & w3 & Hs & H)|(e & Hs & ->)];
    destruct (Hsend _ _ Hs) as [Hne (L & G & S & Hb & Ho & Hok)].
  - injection H as <- <-. split; [done|]. exists L. split; [done..|].
    intros rep [= <-]. destruct (Hok n eq_refl) as (-> & Hc & Hleft). done.
  - split; [congruence|]. exists L. split; [done..|]. intros rep [=].
Qed.

(** the account-wide queue, read after the vault data was queued *)
Lemma account_wide_plan tenant own0 s s1 p1 :
  push_frame (new_push tenant own0) [] s s1 -> sync_state s1 = sync_state s ->
  same_keys (new_push tenant own0) p1 ->
  let accts := (fun st => (account_object st, SentAccount)) <$>
        List.filter (fun st => default 0 (get_sync_cursor s1 (acct_key p1)) <? as_version st)
          (list_account_states s1) in
  let audits := (fun e => (audit_object e, SentAudit (ae_seq e))) <$>
        list_audit s1 (default 0 (get_sync_cursor s1 (audit_key p1))) in
  (accts ++ audits).*1 = sent_accounts s tenant ++ sent_audit s tenant /\
  Forall (fun os => os.2 <> SentDirty /\ untabled os.1) (accts ++ audits).
Proof.
  intros Hf Hcur (_ & _ & Ka & Kd). cbn in Ka, Kd. cbv zeta.
  destruct (pf_rest _ _ _ _ Hf) as (_ & _ & _ & Hlog & _ & _ & Hacc).
  unfold sent_accounts, sent_audit, get_sync_cursor, list_account_states, list_audit.
  rewrite Hcur, Hlog, Hacc, Ka, Kd. split.
  - rewrite fmap_app, <-!list_fmap_compose. done.
  - apply Forall_app. split; apply list.Forall_fmap, list.Forall_forall; intros x _; done.
Qed.

Lemma run_push_spec tenant own0 aw w r w' :
  store_wf (w_store w) -> run_push server tenant own0 aw w = (r, w') ->
  r <> Err OutOfFuel /\ exists L, push_outcome tenant own0 aw w r w' L.
Proof.
  intros Hwf H. unfold run_push in H.
  set (w0 := mkWorld (w_store w) (new_push tenant own0) (w_log w)).
  change ((queue tenant ≫= fun _ => (if aw then queue_account_wide else mret tt) ≫= fun _ =>
    n ← send server; p ← read_push id; mret (mkPushReport n (too_large p) (unpushable p))) w0
    = (r, w')) in H.
  apply M_bind_run in H as [([] & w1 & Hq & H)|(e & Hq & ->)];
    apply (queue_spec tenant own0) in Hq as ([G F _ _] & Hk & Hne & Hok); try done;
    cbn [w_store w_push w_log w0] in *; rewrite app_nil_r in G.
  - destruct (Hok eq_refl) as (Hcur & Hown & Ha & Hb & Hi).
    destruct aw.
    + destruct (queue_account_wide_spec w1) as (p' & Hw & Hs & Hb2 & Hi2 & Ha2).
      unfold mbind at 1, M_bind at 1 in H. rewrite Hw in H.
      pose proof (account_wide_plan _ _ _ _ _ F Hcur Hk) as [Hpl Hun]. cbv zeta in Hpl, Hun.
      rewrite Ha in Ha2. cbn [app] in Ha2. rewrite <-Ha2 in Hpl, Hun.
      destruct (queues_plan tenant own0 true (w_store w) (mkWorld (w_store w1) p' (w_log w1)))
        as [Hplan Hall]; cbn [w_store w_push w_log]; rewrite ?Hb2, ?Hi2; try done.
      eapply (send_outcome _ _ _ w (mkWorld (w_store w1) p' (w_log w1)));
        [done|exact F|done| |exact Hplan|exact Hall|exact H].
      cbn. destruct Hs as [Hs _]. unfold same_keys in *. destruct_and?. split_and!; congruence.
    + destruct (queues_plan tenant own0 false (w_store w) w1) as [Hplan Hall];
        rewrite ?Ha; try done.
      eapply send_outcome; [done|exact F|done|exact Hk|exact Hplan|exact Hall|exact H].
  - split; [congruence|]. exists []. split; cbn; [by rewrite app_nil_r|done|constructor|apply sublist_nil_l|].
    intros rep [=].
Qed.
End queue.

(** ** Sample data *)

(** the store of the membership samples, its vault bound to server "t" *)
Definition sample_bound : Storage :=
  (run_op (OpMarkItem (lit "v") (lit "i"))
    (run_op (OpPutItem (sample_signed_item 1))
      (run_op (OpSetVaultTenant (lit "v") (lit "t"))
        (run_op (OpPutVault (mkVaultRecord (lit "v") Cloud (lit "name") (lit "wk") 1 false []
           sample_owner 1 OfflineAllowed (lit "u"))) sample_shared).2).2).2).2.

Lemma sample_bound_wf : store_wf sample_bound.
Proof.
  unfold sample_bound.
  assert (forall op s, store_wf s -> store_wf (run_op op s).2) as Hstep.
  { intros op s Hs. destruct (run_op op s) as [r s'] eqn:E. by eapply run_op_wf. }
  do 4 apply Hstep. apply sample_shared_wf.
Qed.

(** a server that refuses items as not permitted and takes the rest *)
Definition sample_server (call : nat) (objects : list SyncObject) : result SyncError (list N) :=
  if existsb (fun o => match o with OItem _ => true | _ => false end) objects
  then Err Forbidden else Ok [].

Definition sample_world : World := mkWorld sample_bound (new_push [] None) [].

Lemma sample_world_wf : store_wf (w_store sample_world).
Proof. exact sample_bound_wf. Qed.

Abbreviation sample_run :=
  (@run_push Sample.prims sample_server (lit "t") (Some sample_owner) true sample_world).

(** manifest, vault record, grant and item in one request, halved twice: the
    item is singled out and left out *)
Example sample_push :
  (match sample_run.1 with
   | Ok rep => Some (pushed rep, up_item_id <$> pr_unpushable rep)
   | Err _ => None
   end) = Some (3, [lit "i"]) /\
  (fun e => (length e.1, e.2)) <$> w_log sample_run.2 =
    [(4%nat, false); (2%nat, true); (2%nat, false); (1%nat, true); (1%nat, false)].
Proof. vm_compute. split; reflexivity. Qed.

Lemma sample_push_runs : exists rep w', sample_run = (Ok rep, w').
Proof.
  pose proof sample_push as [H _]. destruct sample_run as [[rep|e] w']; [by exists rep, w'|done].
Qed.

(** ** Theorems *)

(** A push always comes to an end, whatever the server answers: halving a
    refused request and cutting the queues both shrink what is left, so the
    loops never run longer than the queues are. And no request is larger than
    the limits: at most 500 objects and 1 MiB of encoded bytes, or one object
    that is larger on its own. *)
Theorem push_terminates_bounded `{P : CryptoPrims} server t own0 aw w r w' :
  store_wf (w_store w) -> run_push server t own0 aw w = (r, w') ->
  r <> Err OutOfFuel /\
  exists L, w_log w' = w_log w ++ L /\
    Forall (fun e => len e.1 <= PUSH_BATCH_MAX_OBJECTS /\
                     (total e.1 <= PUSH_BATCH_MAX_BYTES \/ (length e.1 <= 1)%nat)) L.
Proof.
  intros Hwf [Hne (L & HL)]%run_push_spec; [|done]. split; [done|].
  exists L. split; [apply HL|exact (po_bounded _ _ _ _ _ _ _ HL)].
Qed.

Lemma push_terminates_bounded_witness : sample_run.1 <> Err OutOfFuel.
Proof.
  destruct sample_run as [r w'] eqn:E.
  apply (@push_terminates_bounded Sample.prims _ _ _ _ sample_world _ _ sample_world_wf E).
Defined.

(** C14. A push delivers what is waiting, in dependency order. What the server
    accepted is, in order, part of the plan: manifests, then vault records,
    then grants, then items, then account states and audit entries. When the
    push succeeds, everything of the plan was accepted except items the report
    names as too large or not permitted, and the count is exact. *)
Theorem push_delivers_in_order `{P : CryptoPrims} server t own0 aw w r w' :
  store_wf (w_store w) -> run_push server t own0 aw w = (r, w') ->
  exists L, w_log w' = w_log w ++ L /\
    accepted L `sublist_of` push_plan (w_store w) t own0 aw /\
    forall rep, r = Ok rep ->
      pushed rep = N.min u64_max (len (accepted L)) /\
      exists left, push_plan (w_store w) t own0 aw ≡ₚ accepted L ++ left /\
        Forall (reported_in (pr_too_large rep) (pr_unpushable rep)) left.
Proof.
  intros Hwf [_ (L & HL)]%run_push_spec; [|done]. exists L. split_and!; [apply HL|apply HL|].
  intros rep Hr. destruct (po_done _ _ _ _ _ _ _ HL rep Hr) as (? & _ & ?). done.
Qed.

Lemma push_delivers_in_order_witness : exists L,
  w_log sample_run.2 = L /\
  accepted L `sublist_of` @push_plan Sample.prims sample_bound (lit "t") (Some sample_owner) true.
Proof.
  destruct sample_run as [r w'] eqn:E.
  destruct (@push_delivers_in_order Sample.prims _ _ _ _ sample_world _ _ sample_world_wf E)
    as (L & Hlog & Hsub & _).
  exists L. split; [exact Hlog|exact Hsub].
Defined.

(** C13. A push settles only what was accepted: no row of the store changes but
    its dirty flag, a flag is cleared only when the server accepted that very
    row, and outside the dirty flags only this server's refusal records and
    its two push cursors change. After a successful push every accepted row is
    clean, so the next push does not send it again. *)
Theorem push_settles_only_accepted `{P : CryptoPrims} server t own0 aw w r w' :
  store_wf (w_store w) -> run_push server t own0 aw w = (r, w') ->
  exists L, w_log w' = w_log w ++ L /\
    push_frame (new_push t own0) (accepted L) (w_store w) (w_store w') /\
    (is_ok r = true -> Forall (clean (w_store w')) (accepted L)).
Proof.
  intros Hwf [_ (L & HL)]%run_push_spec; [|done]. exists L. split_and!; [apply HL|apply HL|].
  intros Hr. destruct r as [rep|]; [|done].
  by destruct (po_done _ _ _ _ _ _ _ HL rep eq_refl) as (_ & ? & _).
Qed.

Lemma push_settles_only_accepted_witness : exists L,
  push_frame (new_push (lit "t") (Some sample_owner)) (accepted L) sample_bound (w_store sample_run.2).
Proof.
  destruct sample_run as [r w'] eqn:E.
  destruct (@push_settles_only_accepted Sample.prims _ _ _ _ sample_world _ _ sample_world_wf E)
    as (L & _ & Hf & _).
  exists L. exact Hf.
Defined.

(** what a push to [t] by the account [own0] may hand over *)
Definition permitted `{P : CryptoPrims} (s : Storage) (t : bytes) (own0 : option bytes) (aw : bool)
    (o : SyncObject) : Prop :=
  match o with
  | OVault v => vr_sync_tenant v = t /\ is_cloud v = true
  | OItem i => bound_to s t (ir_vault_id i) = true /\
      forall k, own0 = Some k ->
        may_author s (ir_vault_id i) (ir_author_pubkey i) (ir_key_epoch i)
          (anchor_of s (ir_vault_id i) k)
  | OManifest m => bound_to s t (mm_vault_id m) = true
  | OGrant g => bound_to s t (mg_vault_id g) = true
  | OAudit _ | OAccountState _ => aw = true
  | OKeyset _ => False
  end.

Lemma plan_permitted `{P : CryptoPrims} s t own0 aw o :
  store_wf s -> o ∈ push_plan s t own0 aw -> permitted s t own0 aw o.
Proof.
  intros Hwf Ho. unfold push_plan in Ho. rewrite !elem_of_app in Ho.
  destruct Ho as [Ho|[Ho|[Ho|[Ho|Ho]]]].
  - apply list_elem_of_fmap in Ho as (m & -> & (k & r & Hr & Hb & _ & ->)%elem_of_dirty_manifests).
    destruct (wf_manifests _ Hwf _ _ Hr) as [Hk _]. simpl. by rewrite <-Hk in Hb.
  - by apply list_elem_of_fmap in Ho as (v & -> & (k & _ & ? & ?)%elem_of_dirty_vaults).
  - apply list_elem_of_fmap in Ho as (g & -> & (k & r & Hr & Hb & _ & ->)%elem_of_dirty_grants).
    destruct (wf_grants _ Hwf _ _ Hr) as [Hk _]. simpl. by rewrite <-Hk in Hb.
  - unfold sent_items in Ho. apply list_elem_of_omap in Ho as (h & Hin & Hh).
    apply list_elem_of_In, filter_In in Hin as [Hin Hsend]. apply list_elem_of_In in Hin.
    apply elem_of_dirty_items in Hin as (k & r & Hr & Hb & _ & ->).
    destruct (wf_items _ Hwf _ _ Hr) as [Hk _]. unfold get_item in Hh. cbn in Hh.
    change (ir_vault_id (row r), ir_item_id (row r)) with (item_key (row r)) in Hh.
    rewrite Hk, Hr in Hh. cbn in Hh. injection Hh as <-. split; [by rewrite <-Hk in Hb|].
    intros o0 ->. unfold to_send in Hsend. destruct (List.find _ _); [done|].
    destruct (List.find _ _); [done|]. cbn in Hsend.
    apply is_ok_true in Hsend as [[] Hv]. by apply authority_spec in Hv.
  - destruct aw; [|by apply not_elem_of_nil in Ho]. apply elem_of_app in Ho as [Ho|Ho];
      by apply list_elem_of_fmap in Ho as (x & -> & _).
Qed.

(** Nothing goes to the wrong server: every object of every accepted
    request belongs to a cloud vault bound to the server pushed to (or is an
    account-wide object, when those were asked for); a keyset is never sent.
    A push in the name of an account sends only items whose author may write
    them, although the answers of that check are cached. *)
Theorem push_stays_with_server `{P : CryptoPrims} server t own0 aw w r w' :
  store_wf (w_store w) -> run_push server t own0 aw w = (r, w') ->
  exists L, w_log w' = w_log w ++ L /\ Forall (permitted (w_store w) t own0 aw) (accepted L).
Proof.
  intros Hwf [_ (L & HL)]%run_push_spec; [|done]. exists L. split; [apply HL|].
  apply list.Forall_forall. intros o Ho. apply plan_permitted; [done|].
  eapply elem_of_sublist; [exact Ho|apply HL].
Qed.

Lemma push_stays_with_server_witness : exists L,
  w_log sample_run.2 = L /\
  Forall (@permitted Sample.prims sample_bound (lit "t") (Some sample_owner) true) (accepted L).
Proof.
  destruct sample_run as [r w'] eqn:E.
  destruct (@push_stays_with_server Sample.prims _ _ _ _ sample_world _ _ sample_world_wf E)
    as (L & Hlog & Hall).
  exists L. split; [exact Hlog|exact Hall].
Defined.

(** A refusal is remembered exactly: the record saved for a server reads
    back entry by entry (too-large items and items the server does not
    permit), so an unchanged refused item is recognised by every later push. *)
Theorem refusals_roundtrip key (tl : list TooLarge) (up : list Unpushable) s s1 s2 :
  save_refused key tl s = (Ok tt, s1) -> Forall refused_fits tl ->
  save_forbidden key up s = (Ok tt, s2) -> Forall forbidden_fits up ->
  load_refused s1 key = tl /\ load_forbidden s2 key = up.
Proof. intros. split; [by eapply save_load_refused|by eapply save_load_forbidden]. Qed.

Lemma refusals_roundtrip_witness :
  let tl := [mkTooLarge (lit "v") (lit "i") 3 7 9000000] in
  let up := [mkUnpushable (lit "v") (lit "i") 3 7 sample_owner ServerRefused] in
  load_refused (save_refused (lit "k") tl (empty_storage 0)).2 (lit "k") = tl /\
  load_forbidden (save_forbidden (lit "k") up (empty_storage 0)).2 (lit "k") = up.
Proof.
  cbv zeta. apply (refusals_roundtrip _ _ _ (empty_storage 0)).
  - vm_compute. reflexivity.
  - constructor; [|constructor]. repeat split; vm_compute; discriminate.
  - vm_compute. reflexivity.
  - constructor; [|constructor]. repeat split; vm_compute; discriminate.
Defined.

(** ** An empty server label *)

(** A push with an empty server label is not a no-op: it sends the dirty rows
    of every cloud vault that is bound to no server yet. *)
Example empty_label_pushes_unbound_vaults :
  let s := (run_op (OpMarkVault (lit "w")) (run_op (OpPutVault (mkVaultRecord (lit "w") Cloud
             (lit "name") (lit "wk") 1 false [] sample_owner 1 OfflineAllowed []))
             (empty_storage 0)).2).2 in
  let run := @run_push Sample.prims (fun _ _ => Ok []) [] None true
               (mkWorld s (new_push [] None) []) in
  (match run.1 with Ok rep => Some (pushed rep) | Err _ => None end) = Some 1.
Proof. vm_compute. reflexivity. Qed.
