(* ===== verification/ServerCodec.v ===== *)
(** * The server's parsers and signature checks (server/src/{codec,crypto}.rs,
      server/src/domain/{manifest,rbac}.rs, the encoders of modules/policy.rs)

    The server relays objects it cannot decrypt. It parses their open columns,
    checks record signatures and reads member sets with code of its own; the
    theorems say that this code agrees with the client's. An [AppError] is its
    [ErrorCode]: messages are not modelled. [Role] of [rbac.rs] has the
    constructors and codes of [MemberRole]. *)

From Stdlib Require Import Strings.Byte NArith ZArith Lia.
From stdpp Require Import base gmap sets list strings sorting countable.
From S2P Require Import Prelude Bytes CryptoPrims Crypto Storage StorageInv Keychain.
From S2P Require Import KeychainThy Membership MembershipThy Authority SyncObject AuthPayloads.

Local Open Scope N_scope.

(** ** error.rs *)

Inductive ErrorCode :=
| EUnauthenticated | EForbidden | ENotFound | EConflict | EGone | ERateLimited
| EPayloadTooLarge | EMalformed | ERollbackDetected | EInternal.

#[global] Instance ErrorCode_eq_dec : EqDecision ErrorCode.
Proof. solve_decision. Defined.

(** ** codec.rs: the cursor (also [Cursor] of crypto.rs) *)

Definition SReader := M bytes ErrorCode.

Definition s_u8 : SReader byte := fun b =>
  match b with h :: t => (Ok h, t) | [] => (Err EMalformed, b) end.
Definition s_take (n : nat) : SReader bytes := fun b =>
  if (length b <? n)%nat then (Err EMalformed, b) else (Ok (take n b), drop n b).
Definition s_u32 : SReader N := s ← s_take 4; mret (be_decode s).
Definition s_u64 : SReader N := s ← s_take 8; mret (be_decode s).
Definition s_bytes : SReader bytes := n ← s_u32; s_take (N.to_nat n).
Definition s_finish : SReader unit := fun b =>
  match b with [] => (Ok tt, b) | _ => (Err EMalformed, b) end.
(** [r.u8()? != 0] *)
Definition s_flag : SReader bool := b ← s_u8; mret (negb (bool_decide (b = x00))).
(** [let b = r.u8()?; if b > max { return Err(..) }] *)
Definition s_u8_upto (max : N) : SReader byte :=
  b ← s_u8;
  if max <? Byte.to_N b then throw EMalformed else mret b.

(** ** codec.rs: open columns *)

Record ParsedObject := mkParsed {
  p_tag_u8 : byte;
  p_vault_id : option bytes;
  p_item_id : option bytes;
  p_member_pubkey : option bytes;
  p_obj_version : option N;
  p_key_epoch : option N;
  p_tombstone : option bool;
  p_item_type : option N;
  p_sync_target : option byte;
  p_cache_policy : option byte;
  p_role : option byte;
  p_not_after : option Z;
  p_author_pubkey : option bytes;
  p_signature : option bytes;
  p_manifest_blob : option bytes;
  p_wrapped_vk : option bytes;
  p_entry_blob : option bytes
}.

#[global] Instance ParsedObject_eq_dec : EqDecision ParsedObject.
Proof. solve_decision. Defined.

(** the constructors of [ObjectTag] and its [from_u8] are the client's *)
Definition p_tag (p : ParsedObject) : option ObjectTag := tag_from_u8 (p_tag_u8 p).

(** one arm of [parse_open] *)
Definition parse_columns (tag_u8 : byte) (t : ObjectTag) : SReader ParsedObject :=
  match t with
  | TVault =>
      vault_id ← s_bytes;
      st ← s_u8_upto 1;
      _ ← s_bytes;
      _ ← s_bytes;
      version ← s_u64;
      tombstone ← s_flag;
      signature ← s_bytes;
      author ← s_bytes;
      key_epoch ← s_u64;
      cp ← s_u8_upto 1;
      mret (mkParsed tag_u8 (Some vault_id) None None (Some version) (Some key_epoch)
        (Some tombstone) None (Some st) (Some cp) None None (Some author) (Some signature)
        None None None)
  | TItem =>
      vault_id ← s_bytes;
      item_id ← s_bytes;
      item_type ← s_u32;
      _ ← s_bytes;
      _ ← s_bytes;
      version ← s_u64;
      tombstone ← s_flag;
      signature ← s_bytes;
      author ← s_bytes;
      key_epoch ← s_u64;
      mret (mkParsed tag_u8 (Some vault_id) (Some item_id) None (Some version) (Some key_epoch)
        (Some tombstone) (Some item_type) None None None None (Some author) (Some signature)
        None None None)
  | TMembershipManifest =>
      vault_id ← s_bytes;
      key_epoch ← s_u64;
      manifest_blob ← s_bytes;
      signature ← s_bytes;
      author ← s_bytes;
      mret (mkParsed tag_u8 (Some vault_id) None None None (Some key_epoch) None None None None
        None None (Some author) (Some signature) (Some manifest_blob) None None)
  | TMembershipGrant =>
      vault_id ← s_bytes;
      member ← s_bytes;
      key_epoch ← s_u64;
      role ← s_u8_upto 2;
      not_after ← (n ← s_u64; mret (i64_of_u64 n));
      wrapped_vk ← s_bytes;
      signature ← s_bytes;
      author ← s_bytes;
      mret (mkParsed tag_u8 (Some vault_id) None (Some member) None (Some key_epoch) None None
        None None (Some role) (Some not_after) (Some author) (Some signature) None
        (Some wrapped_vk) None)
  | TAudit =>
      vault_id ← s_bytes;
      entry_blob ← s_bytes;
      signature ← s_bytes;
      author ← s_bytes;
      mret (mkParsed tag_u8 (Some vault_id) None None None None None None None None None None
        (Some author) (Some signature) None None (Some entry_blob))
  | TKeyset =>
      _ ← s_bytes;
      mret (mkParsed tag_u8 None None None None None None None None None None None None None
        None None None)
  | TAccountState =>
      version ← s_u64;
      _ ← s_bytes;
      signature ← s_bytes;
      author ← s_bytes;
      mret (mkParsed tag_u8 None None None (Some version) None None None None None None None
        (Some author) (Some signature) None None None)
  end.

Definition parse_open (b : bytes) : result ErrorCode ParsedObject :=
  ((tag_u8 ← s_u8;
   t ← lift_result (ok_or (tag_from_u8 tag_u8) EMalformed);
   p ← parse_columns tag_u8 t;
   _ ← s_finish;
   mret p) b).1.

(** ** domain/manifest.rs and domain/rbac.rs *)

Record MemberSet := mkMemberSet { ms_key_epoch : N; ms_members : list (bytes * MemberRole) }.

(** [Role::from_u8] *)
Definition srv_role_from_u8 (b : byte) : option MemberRole :=
  match b with x00 => Some Viewer | x01 => Some Editor | x02 => Some Admin | _ => None end.
(** the derived order of [Role]: [Viewer < Editor < Admin] *)
Definition role_geb (r r' : MemberRole) : bool := (role_to_i64 r' <=? role_to_i64 r)%Z.

Definition ms_role_of (ms : MemberSet) (ed : bytes) : option MemberRole :=
  snd <$> List.find (fun m : bytes * MemberRole => bytes_eqb m.1 ed) (ms_members ms).

(** [split_at_checked], [split_first_chunk] *)
Definition s_split (n : nat) (b : bytes) : result ErrorCode (bytes * bytes) :=
  if (length b <? n)%nat then Err EMalformed else Ok (take n b, drop n b).

(** the loop of [parse_member_set]: [count] members, then nothing left; every
    member takes at least three bytes, so [fuel] above the length suffices *)
Fixpoint parse_set_members (fuel : nat) (count : N) (rest : bytes)
    : result ErrorCode (list (bytes * MemberRole)) :=
  match fuel with
  | O => Err EMalformed
  | S fuel =>
      if count =? 0 then
        if (length rest =? 0)%nat then Ok [] else Err EMalformed
      else
        '(head, tail) ← s_split 3 rest;
        match head with
        | role_byte :: len_bytes =>
            role ← ok_or (srv_role_from_u8 role_byte) EMalformed;
            '(ed, tail) ← s_split (N.to_nat (be_decode len_bytes)) tail;
            members ← parse_set_members fuel (count - 1) tail;
            Ok ((ed, role) :: members)
        | [] => Err EMalformed
        end
  end.

Definition parse_member_set (blob : bytes) : result ErrorCode MemberSet :=
  let dl := length MANIFEST_DOMAIN in
  if (length blob <? dl + 8 + 4)%nat then Err EMalformed
  else
    '(domain, rest) ← s_split dl blob;
    if negb (bytes_eqb domain MANIFEST_DOMAIN) then Err EMalformed
    else
      '(epoch, rest) ← s_split 8 rest;
      '(cnt, rest) ← s_split 4 rest;
      members ← parse_set_members (S (length rest)) (be_decode cnt) rest;
      Ok (mkMemberSet (be_decode epoch) members).

(** ** crypto.rs: signature blobs *)

Definition SIG_BLOB_LEN : nat := 3 + 64.
Definition ALG_ED25519 : N := 0x20.

Definition srv_parse_sig_blob (blob : bytes) : result ErrorCode bytes :=
  if negb (length blob =? SIG_BLOB_LEN)%nat then Err EMalformed
  else
    match blob with
    | version :: alg_hi :: alg_lo :: raw =>
        if negb (Byte.to_N version =? 1) then Err EMalformed
        else if negb (be_decode [alg_hi; alg_lo] =? ALG_ED25519) then Err EMalformed
        else if (length raw =? 64)%nat then Ok raw else Err EMalformed
    | _ => Err EMalformed
    end.

Definition domain_message (domain payload : bytes) : result ErrorCode bytes :=
  if u16_max <? len domain then Err EInternal
  else Ok (u16_be (len domain) ++ domain ++ payload).

(** ** crypto.rs: payloads *)

(** [RegistrationPayload::parse_canonical] *)
Definition reg_parse_canonical (b : bytes) : result ErrorCode RegistrationPayload :=
  match b with
  | l0 :: l1 :: rest =>
      let alen := N.to_nat (be_decode [l0; l1]) in
      if negb (length b =? 2 + alen + 64)%nat then Err EMalformed
      else
        '(account_id, keys) ← s_split alen rest;
        '(x25519_pub, e) ← s_split 32 keys;
        if (length e =? 32)%nat then Ok (mkRegistration account_id x25519_pub e) else Err EMalformed
  | _ => Err EMalformed
  end.

(** [RegistrationPayload::canonical] *)
Definition srv_reg_canonical (p : RegistrationPayload) : result ErrorCode bytes :=
  if u16_max <? len (rp_account_id p) then Err EMalformed
  else Ok (u16_be (len (rp_account_id p)) ++ rp_account_id p ++ rp_x25519_pub p ++ rp_ed25519_pub p).

(** the inner [put] of [ServerAuthChallenge::canonical] *)
Definition srv_put_u16 (out f : bytes) : result ErrorCode bytes :=
  if u16_max <? len f then Err EMalformed else Ok (out ++ u16_be (len f) ++ f).

(** [ServerAuthChallenge::canonical] *)
Definition srv_auth_canonical (c : ServerAuthChallenge) : result ErrorCode bytes :=
  out ← srv_put_u16 [] (ch_host c);
  out ← srv_put_u16 out (ch_account_id c);
  out ← srv_put_u16 out (ch_device_id c);
  out ← srv_put_u16 out (ch_key_id c);
  out ← srv_put_u16 out (ch_nonce c);
  Ok (out ++ u64_be (ch_expiry c)).

Record KeysetHeader := mkKeysetHeader {
  kh_mode : byte;
  kh_generation : N;
  kh_x25519_pub : bytes;
  kh_ed25519_pub : bytes
}.

Definition parse_keyset_header (blob : bytes) : result ErrorCode KeysetHeader :=
  if (length blob <? 8 + 64)%nat then Err EMalformed
  else
    match blob with
    | version :: mode :: g0 :: g1 :: g2 :: g3 :: k0 :: k1 :: _ =>
        if negb (Byte.to_N version =? 2) && negb (Byte.to_N version =? 3) then Err EMalformed
        else if negb (Byte.to_N mode =? 1) && negb (Byte.to_N mode =? 2) then Err EMalformed
        else
          let generation := be_decode [g0; g1; g2; g3] in
          let kdf_len := N.to_nat (be_decode [k0; k1]) in
          pos ← (if (0 <? kdf_len)%nat then
                   let stop := (8 + kdf_len)%nat in
                   if (length blob <? stop + 64)%nat then Err EMalformed else Ok stop
                 else Ok 8%nat);
          _ ← match Byte.to_N mode, (0 <? kdf_len)%nat with
              | 1, true | 2, false => Ok tt
              | _, _ => Err EMalformed
              end;
          if (length blob <? pos + 64 + 1)%nat then Err EMalformed
          else if (length blob <=? pos + 64)%nat then Err EMalformed
          else Ok (mkKeysetHeader mode generation (take 32 (drop pos blob))
                     (take 32 (drop (pos + 32) blob)))
    | _ => Err EMalformed
    end.

(** ** crypto.rs: record signatures *)

Definition aad_canonical (vault_id item_id : bytes) (version : N) : result ErrorCode bytes :=
  if (u16_max <? len vault_id) || (u16_max <? len item_id) then Err EMalformed
  else Ok (u16_be (len vault_id) ++ vault_id ++ u16_be (len item_id) ++ item_id ++ u64_be version).

Section server_crypto.
Context `{P : CryptoPrims}.

Definition verifying_key (vk_bytes : bytes) : result ErrorCode ed_pk :=
  if (length vk_bytes =? 32)%nat then ok_or (ed_pk_of_bytes vk_bytes) EMalformed
  else Err EMalformed.

Definition srv_domain_verify (vk_bytes domain payload sig_blob : bytes) : result ErrorCode unit :=
  vk ← verifying_key vk_bytes;
  sig ← srv_parse_sig_blob sig_blob;
  msg ← domain_message domain payload;
  guard (ed_verify_strict vk msg sig) EUnauthenticated.

Definition srv_verify_registration (p : RegistrationPayload) (sig_blob : bytes)
    : result ErrorCode unit :=
  payload ← srv_reg_canonical p;
  srv_domain_verify (rp_ed25519_pub p) REGISTRATION_SIG_DOMAIN payload sig_blob.

Definition srv_verify_server_auth (device_ed25519_pub : bytes) (c : ServerAuthChallenge)
    (sig_blob : bytes) : result ErrorCode unit :=
  payload ← srv_auth_canonical c;
  srv_domain_verify device_ed25519_pub SERVER_AUTH_SIG_DOMAIN payload sig_blob.

Definition verify_versioned (author vault_id item_id : bytes) (version : N)
    (content sig_blob : bytes) : result ErrorCode unit :=
  vk ← verifying_key author;
  sig ← srv_parse_sig_blob sig_blob;
  aad ← aad_canonical vault_id item_id version;
  let digest := sha256 content in
  guard (ed_verify_strict vk (SIG_DOMAIN ++ aad ++ digest) sig) EMalformed.

(** the arms of [verify_record_sig], over what is left after the tag *)
Definition verify_record_body (tag : N) : SReader unit :=
  match tag with
  | 1 =>
      vault_id ← s_bytes;
      _ ← s_u8;
      name_blob ← s_bytes;
      wrapped_vk ← s_bytes;
      version ← s_u64;
      _ ← s_u8;
      sig ← s_bytes;
      author ← s_bytes;
      lift_result (verify_versioned author vault_id (lit "__vault__") version
        (wrapped_vk ++ name_blob) sig)
  | 2 =>
      vault_id ← s_bytes;
      item_id ← s_bytes;
      _ ← s_u32;
      content_blob ← s_bytes;
      _ ← s_bytes;
      version ← s_u64;
      _ ← s_u8;
      sig ← s_bytes;
      author ← s_bytes;
      lift_result (verify_versioned author vault_id item_id version content_blob sig)
  | 3 =>
      vault_id ← s_bytes;
      key_epoch ← s_u64;
      manifest_blob ← s_bytes;
      sig ← s_bytes;
      author ← s_bytes;
      lift_result (verify_versioned author vault_id (lit "__manifest__") key_epoch manifest_blob sig)
  | 4 =>
      vault_id ← s_bytes;
      member ← s_bytes;
      key_epoch ← s_u64;
      role ← s_u8;
      not_after ← (n ← s_u64; mret (i64_of_u64 n));
      wrapped_vk ← s_bytes;
      sig ← s_bytes;
      author ← s_bytes;
      let content := lit "unissh-grant-v1" ++ [role] ++ i64_be not_after ++ wrapped_vk in
      lift_result (verify_versioned author vault_id member key_epoch content sig)
  | 5 | 6 => mret tt
  | 7 =>
      version ← s_u64;
      payload ← s_bytes;
      sig_blob ← s_bytes;
      author ← s_bytes;
      lift_result (
        vk ← verifying_key author;
        sig ← srv_parse_sig_blob sig_blob;
        guard (ed_verify_strict vk
          (lit "unissh-account-state-v1" ++ u64_be version ++ sha256 payload) sig) EMalformed)
  | _ => throw EMalformed
  end.

Definition verify_record_sig (b : bytes) : result ErrorCode unit :=
  ((tag ← s_u8; verify_record_body (Byte.to_N tag)) b).1.
End server_crypto.

(** ** The server reads what the client reads *)

(** the open columns of an object, as the client has it *)
Definition open_columns (o : SyncObject) : ParsedObject :=
  match o with
  | OVault v => mkParsed x01 (Some (vr_vault_id v)) None None (Some (vr_version v))
      (Some (vr_key_epoch v)) (Some (vr_tombstone v)) None (Some (sync_target_u8 (vr_sync_target v)))
      (Some (cache_policy_u8 (vr_cache_policy v))) None None (Some (vr_author_pubkey v))
      (Some (vr_signature v)) None None None
  | OItem i => mkParsed x02 (Some (ir_vault_id i)) (Some (ir_item_id i)) None (Some (ir_version i))
      (Some (ir_key_epoch i)) (Some (ir_tombstone i)) (Some (ir_item_type i)) None None None None
      (Some (ir_author_pubkey i)) (Some (ir_signature i)) None None None
  | OManifest m => mkParsed x03 (Some (mm_vault_id m)) None None None (Some (mm_key_epoch m)) None
      None None None None None (Some (mm_author_pubkey m)) (Some (mm_signature m))
      (Some (mm_manifest_blob m)) None None
  | OGrant g => mkParsed x04 (Some (mg_vault_id g)) None (Some (mg_member_pubkey g)) None
      (Some (mg_key_epoch g)) None None None None (Some (role_u8 (mg_role g)))
      (Some (mg_not_after g)) (Some (mg_author_pubkey g)) (Some (mg_signature g)) None
      (Some (mg_wrapped_vk g)) None
  | OAudit a => mkParsed x05 (Some (ao_vault_id a)) None None None None None None None None None
      None (Some (ao_author_pubkey a)) (Some (ao_signature a)) None None (Some (ao_entry_blob a))
  | OKeyset _ => mkParsed x06 None None None None None None None None None None None None None
      None None None
  | OAccountState a => mkParsed x07 None None None (Some (aso_version a)) None None None None None
      None None (Some (aso_author_pubkey a)) (Some (aso_signature a)) None None None
  end.

(** the server's reader [m'] follows the client's [m]: the same input left over,
    results related by [R], and a refusal for a refusal *)
Definition sim {A B} (R : A -> B -> Prop) (m : Reader A) (m' : SReader B) : Prop :=
  forall b, match m b with
            | (Ok a, t) => exists a', m' b = (Ok a', t) /\ R a a'
            | (Err _, _) => exists t, m' b = (Err EMalformed, t)
            end.

Lemma sim_ret {A B} (R : A -> B -> Prop) a b : R a b -> sim R (mret a) (mret b).
Proof. intros HR s. by exists b. Qed.

Lemma sim_bind {A A' B B'} (R : A -> A' -> Prop) (Q : B -> B' -> Prop) m m' k k' :
  sim R m m' -> (forall a a', R a a' -> sim Q (k a) (k' a')) -> sim Q (m ≫= k) (m' ≫= k').
Proof.
  intros Hm Hk b. specialize (Hm b). unfold mbind, M_bind.
  destruct (m b) as [[a|e] t].
  - destruct Hm as (a' & -> & HR). apply (Hk _ _ HR).
  - destruct Hm as (t' & ->). by exists t'.
Qed.

Lemma sim_u8 : sim eq r_u8 s_u8.
Proof. intros [|h t]; cbn; eauto. Qed.
Lemma sim_take n : sim eq (r_take n) (s_take n).
Proof. intros b. unfold r_take, s_take. destruct (_ <? _)%nat; eauto. Qed.
Lemma sim_u32 : sim eq r_u32 s_u32.
Proof. eapply sim_bind; [apply sim_take|]. intros a _ <-. by apply sim_ret. Qed.
Lemma sim_u64 : sim eq r_u64 s_u64.
Proof. eapply sim_bind; [apply sim_take|]. intros a _ <-. by apply sim_ret. Qed.
Lemma sim_bytes : sim eq r_bytes s_bytes.
Proof. eapply sim_bind; [apply sim_u32|]. intros a _ <-. apply sim_take. Qed.
Lemma sim_flag : sim eq r_flag s_flag.
Proof. eapply sim_bind; [apply sim_u8|]. intros a _ <-. by apply sim_ret. Qed.
Lemma sim_finish : sim eq r_finish s_finish.
Proof. intros [|h t]; cbn; eauto. Qed.
Lemma sim_i64 : sim eq r_i64 (n ← s_u64; mret (i64_of_u64 n)).
Proof.
  intros b. unfold r_i64, s_u64, mbind, M_bind, r_take, s_take. destruct (_ <? _)%nat; cbn; eauto.
Qed.

(** an enumerated byte: refused above [max] by the one, decoded by the other *)
Lemma sim_enum {A} (from : byte -> result SyncError A) (to : A -> byte) max :
  (forall b, match from b with Ok a => to a = b /\ Byte.to_N b <= max | Err _ => max < Byte.to_N b end) ->
  sim (fun a b => b = to a) (b ← r_u8; lift_result (from b)) (s_u8_upto max).
Proof.
  intros Hf [|h t]; [by eexists|]. specialize (Hf h).
  unfold s_u8_upto, lift_result, mbind, M_bind, r_u8, s_u8, mret, M_ret, throw.
  destruct (from h) as [a|e].
  - destruct Hf as [<- Hle]. destruct (N.ltb_spec max (Byte.to_N (to a))); [lia|]. by eexists.
  - destruct (N.ltb_spec max (Byte.to_N h)); [|lia]. by eexists.
Qed.

Lemma sim_sync_target :
  sim (fun a b => b = sync_target_u8 a) (b ← r_u8; lift_result (sync_target_from b)) (s_u8_upto 1).
Proof. apply sim_enum. by intros []. Qed.
Lemma sim_cache_policy :
  sim (fun a b => b = cache_policy_u8 a) (b ← r_u8; lift_result (cache_policy_from b)) (s_u8_upto 1).
Proof. apply sim_enum. by intros []. Qed.
Lemma sim_role :
  sim (fun a b => b = role_u8 a) (b ← r_u8; lift_result (role_from b)) (s_u8_upto 2).
Proof. apply sim_enum. by intros []. Qed.

Create HintDb readers discriminated.
#[export] Hint Resolve sim_u8 sim_u32 sim_u64 sim_bytes sim_flag sim_finish sim_i64 sim_sync_target
  sim_cache_policy sim_role : readers.

(** Reads field after field on both sides. *)
Ltac sim_fields :=
  repeat (eapply sim_bind; [solve [eauto with readers nocore]|intros ? ? ->]).

Lemma sim_columns t :
  sim (fun o p => tag o = t /\ p = open_columns o) (r_object t) (parse_columns (tag_to_u8 t) t).
Proof. destruct t; cbn [r_object parse_columns]; sim_fields; by apply sim_ret. Qed.

Lemma tag_from_to b t : tag_from_u8 b = Some t -> b = tag_to_u8 t.
Proof. destruct b; cbn; intros [= <-]; done. Qed.

(** the tag, then the body: both parsers with the tag byte taken off *)
Lemma from_bytes_cons h rest :
  from_bytes (h :: rest) =
  match tag_from_u8 h with
  | Some t => ((o ← r_object t; _ ← r_finish; mret o) rest).1
  | None => Err SFormat
  end.
Proof.
  unfold from_bytes, r_whole, r_tagged, lift_result, mbind, M_bind, r_u8.
  by destruct (tag_from_u8 h).
Qed.

Lemma sim_body t :
  sim (fun o p => tag o = t /\ p = open_columns o) (o ← r_object t; _ ← r_finish; mret o)
    (p ← parse_columns (tag_to_u8 t) t; _ ← s_finish; mret p).
Proof.
  eapply sim_bind; [apply sim_columns|]. intros o p Hp. cbn beta.
  eapply sim_bind; [apply sim_finish|]. intros _ _ _. by apply sim_ret.
Qed.

Lemma from_bytes_tag h rest o : from_bytes (h :: rest) = Ok o -> h = tag_to_u8 (tag o).
Proof.
  rewrite from_bytes_cons. destruct (tag_from_u8 h) as [t|] eqn:Ht; [|done].
  pose proof (sim_body t rest) as H. destruct ((o ← r_object t; _ ← r_finish; mret o) rest) as [[o'|] ?];
    cbn [fst]; [|done]. intros [= ->]. destruct H as (p & _ & <- & _). by apply tag_from_to.
Qed.

Lemma parse_open_agrees b :
  parse_open b = match from_bytes b with Ok o => Ok (open_columns o) | Err _ => Err EMalformed end.
Proof.
  destruct b as [|h rest]; [done|]. rewrite from_bytes_cons.
  unfold parse_open, lift_result, mbind at 1 2, M_bind at 1 2, s_u8.
  destruct (tag_from_u8 h) as [t|] eqn:Ht; cbn [ok_or]; [|done].
  apply tag_from_to in Ht as ->. pose proof (sim_body t rest) as H.
  destruct ((o ← r_object t; _ ← r_finish; mret o) rest) as [[o|e] ?]; cbn [fst].
  - destruct H as (p & Hp & _ & ->). by rewrite Hp.
  - destruct H as (t' & Hp). by rewrite Hp.
Qed.

(** ** Theorems: formats *)

(** The server's strict parser and the client's accept exactly the same byte
    strings and read the same values: on every input, [parse_open] returns the
    open columns of the object [from_bytes] returns, and refuses as malformed
    what [from_bytes] refuses. *)
Theorem server_codec_agrees b :
  parse_open b = match from_bytes b with Ok o => Ok (open_columns o) | Err _ => Err EMalformed end.
Proof. apply parse_open_agrees. Qed.

(** ** The server checks the signatures the client checks *)

Lemma sig_blob_agrees blob raw : srv_parse_sig_blob blob = Ok raw <-> parse_sig_blob blob = Ok raw.
Proof.
  unfold srv_parse_sig_blob, parse_sig_blob, parse_expecting, parse_header, SIG_BLOB_LEN, SIG_LEN.
  destruct blob as [|v [|h [|l body]]]; [done..|].
  change (length (v :: h :: l :: body) =? 3 + 64)%nat with (length body =? 64)%nat.
  unfold FORMAT_VERSION, ALG_ED25519, alg_from_u16. generalize (be_decode [h; l]) as a. intros a.
  destruct (Byte.to_N v =? 1); cbn [negb]; [|by destruct (negb _)].
  destruct (N.eqb_spec a 0x20) as [->|Hne]; cbn [negb].
  - cbn -[Nat.eqb decide]. case_decide; [|done]. cbn -[Nat.eqb].
    destruct (length body =? 64)%nat; cbn; [|done]. split; by intros [= ->].
  - split; [by destruct (negb _)|].
    repeat (destruct (a =? _); cbn -[decide]; try (case_decide; done)); done.
Qed.

Section verifies.
Context `{P : CryptoPrims}.

Lemma verifying_key_agrees b pk : verifying_key b = Ok pk <-> verifying_key_from_bytes b = Ok pk.
Proof.
  unfold verifying_key, verifying_key_from_bytes, ED25519_KEY_LEN.
  destruct (length b =? 32)%nat; [|done]. destruct (ed_pk_of_bytes b); cbn; [|done]. split; by intros [= ->].
Qed.

Lemma aad_agrees vid iid version a :
  aad_canonical vid iid version = Ok a <-> canonical (mkAAD vid iid version) = Ok a.
Proof. unfold aad_canonical, canonical. cbn. destruct (_ || _); [done|]. split; by intros [= <-]. Qed.

(** signed by [author] over (vault, item, version, content) *)
Definition signed_as (author vid iid : bytes) (version : N) (content sig : bytes) : Prop :=
  exists pk, verifying_key_from_bytes author = Ok pk /\
    verify_version pk (from_content (mkAAD vid iid version) content) sig = Ok tt.

Lemma verify_versioned_agrees author vid iid version content sig :
  verify_versioned author vid iid version content sig = Ok tt <->
  signed_as author vid iid version content sig.
Proof.
  unfold verify_versioned, signed_as, verify_version, signing_bytes. split.
  - intros (pk & Hpk%verifying_key_agrees & H)%bind_Ok.
    apply bind_Ok in H as (raw & Hr%sig_blob_agrees & H).
    apply bind_Ok in H as (a & Ha%aad_agrees & Hv%guard_Ok). exists pk. split; [done|].
    rewrite Hr. cbn [mbind result_bind from_content vo_aad vo_digest]. rewrite Ha.
    cbn [mbind result_bind]. by apply guard_Ok.
  - intros (pk & Hpk%verifying_key_agrees & H). apply bind_Ok in H as (raw & Hr%sig_blob_agrees & H).
    apply bind_Ok in H as (msg & Hm & Hv%guard_Ok). apply bind_Ok in Hm as (a & Ha%aad_agrees & [= <-]).
    rewrite Hpk. cbn [mbind result_bind]. rewrite Hr. cbn [mbind result_bind]. rewrite Ha.
    cbn [mbind result_bind]. by apply guard_Ok.
Qed.

(** what a client checks of the signature of a pulled object *)
Definition client_signed (o : SyncObject) : Prop :=
  match o with
  | OVault v => vault_signed v
  | OItem i => item_signed i
  | OManifest m => manifest_signed m
  | OGrant g => exists pk, verifying_key_from_bytes (mg_author_pubkey g) = Ok pk /\
      verify_version pk (from_content (grant_aad (mg_vault_id g) (mg_member_pubkey g) (mg_key_epoch g))
        (grant_signed_content (mg_role g) (mg_not_after g) (mg_wrapped_vk g))) (mg_signature g) = Ok tt
  | OAccountState a =>
      v_verify_account_state (aso_author_pubkey a) (aso_version a) (aso_payload a) (aso_signature a)
        = Ok tt
  | OAudit _ | OKeyset _ => True
  end.

(** when the client reads an object, what the server's walk over the same bytes says *)
Definition walk {A B} (R : A -> B -> Prop) (m : Reader A) (m' : SReader B) : Prop :=
  forall b a t, m b = (Ok a, t) -> exists a', m' b = (Ok a', t) /\ R a a'.
Definition verdict {A B} (R : A -> result ErrorCode B -> Prop) (m : Reader A) (m' : SReader B) : Prop :=
  forall b a t, m b = (Ok a, t) -> R a (m' b).1.

Lemma walk_sim {A B} (R : A -> B -> Prop) m m' : sim R m m' -> walk R m m'.
Proof. intros H b a t Hm. specialize (H b). by rewrite Hm in H. Qed.

(** a decoded byte the server only copies *)
Lemma walk_enum {A} (from : byte -> result SyncError A) (to : A -> byte) :
  (forall b a, from b = Ok a -> to a = b) ->
  walk (fun a b => b = to a) (b ← r_u8; lift_result (from b)) s_u8.
Proof.
  intros Hf b a t (h & t' & H1 & H2)%M_bind_Ok. destruct b as [|x b]; [done|].
  injection H1 as -> ->. unfold lift_result in H2. injection H2 as H2 ->.
  exists h. by rewrite (Hf _ _ H2).
Qed.
Lemma walk_flag : walk (fun _ _ => True) r_flag s_u8.
Proof. intros [|h b] a t; [done|]. intros [= _ <-]. by exists h. Qed.

Lemma verdict_bind {A A' B B'} (S : A -> A' -> Prop) (R : B -> result ErrorCode B' -> Prop) m m' k k' :
  walk S m m' -> (forall a a', S a a' -> verdict R (k a) (k' a')) -> verdict R (m ≫= k) (m' ≫= k').
Proof.
  intros Hm Hk b c t (a & t1 & H1 & H2)%M_bind_Ok. destruct (Hm _ _ _ H1) as (a' & H1' & HS).
  unfold mbind, M_bind. rewrite H1'. by apply (Hk _ _ HS _ _ _ H2).
Qed.
Lemma verdict_done {A B} (R : A -> result ErrorCode B -> Prop) m x :
  (forall b a t, m b = (Ok a, t) -> R a x) -> verdict R m (lift_result x).
Proof. intros H b a t Hm. by eapply H. Qed.
End verifies.

#[export] Hint Resolve walk_sim walk_flag : readers.

Lemma walk_sync_target :
  walk (fun a b => b = sync_target_u8 a) (b ← r_u8; lift_result (sync_target_from b)) s_u8.
Proof. apply walk_enum. by intros [] ? [= <-]. Qed.
Lemma walk_role :
  walk (fun a b => b = role_u8 a) (b ← r_u8; lift_result (role_from b)) s_u8.
Proof. apply walk_enum. intros b a. destruct b; cbn; intros [=]; by subst. Qed.
#[export] Hint Resolve walk_sync_target walk_role : readers.

(** Follows the server's walk field by field, up to its verdict. *)
Ltac walk_fields :=
  repeat (eapply verdict_bind; [solve [eauto with readers nocore]|intros ? ? Hf; cbv beta in Hf;
            subst; try clear Hf]).

Lemma verify_body_agrees `{P : CryptoPrims} t :
  verdict (fun o x => x = Ok tt <-> client_signed o) (r_object t)
    (verify_record_body (Byte.to_N (tag_to_u8 t))).
Proof.
  destruct t; cbn [tag_to_u8 Byte.to_N r_object verify_record_body].
  - walk_fields. apply verdict_done. intros b o t H.
    apply M_bind_Ok in H as (? & ? & _ & H). apply M_bind_Ok in H as (? & ? & _ & [= <- _]).
    apply verify_versioned_agrees.
  - walk_fields. apply verdict_done. intros b o t H.
    apply M_bind_Ok in H as (? & ? & _ & [= <- _]). apply verify_versioned_agrees.
  - walk_fields. apply verdict_done. intros b o t [= <- _]. apply verify_versioned_agrees.
  - walk_fields. apply verdict_done. intros b o t [= <- _].
    rewrite verify_versioned_agrees. unfold client_signed, signed_as, grant_signed_content.
    cbn [mg_role mg_author_pubkey]. by match goal with r : MemberRole |- _ => destruct r end.
  - intros b o t H. cbn. apply M_bind_Ok in H as (? & ? & _ & H).
    apply M_bind_Ok in H as (? & ? & _ & H). apply M_bind_Ok in H as (? & ? & _ & H).
    by apply M_bind_Ok in H as (? & ? & _ & [= <- _]).
  - intros b o t H. cbn. by apply M_bind_Ok in H as (? & ? & _ & [= <- _]).
  - walk_fields. apply verdict_done. intros b o t [= <- _]. cbn [client_signed].
    unfold v_verify_account_state, verify_account_state, account_state_message, digest_content.
    cbn [aso_author_pubkey aso_version aso_payload aso_signature]. split.
    + intros (pk & Hpk%verifying_key_agrees & H)%bind_Ok.
      apply bind_Ok in H as (raw & Hr%sig_blob_agrees & Hv%guard_Ok). rewrite Hpk.
      cbn [map_err mbind result_bind]. rewrite Hr. cbn [mbind result_bind].
      unfold ACCOUNT_STATE_SIG_DOMAIN. by rewrite Hv.
    + intros (pk & Hpk%map_err_Ok%verifying_key_agrees & H%map_err_Ok)%bind_Ok.
      apply bind_Ok in H as (raw & Hr%sig_blob_agrees & Hv%guard_Ok). rewrite Hpk.
      cbn [mbind result_bind]. rewrite Hr. cbn [mbind result_bind]. by apply guard_Ok.
Qed.

Lemma verify_record_agrees `{P : CryptoPrims} b o :
  from_bytes b = Ok o -> verify_record_sig b = Ok tt <-> client_signed o.
Proof.
  intros Ho. destruct b as [|h rest]; [done|]. pose proof (from_bytes_tag _ _ _ Ho) as Hh.
  rewrite from_bytes_cons in Ho. destruct (tag_from_u8 h) as [t|] eqn:Ht; [|done].
  apply tag_from_to in Ht. assert (t = tag o) as -> by (subst; by destruct t, (tag o)).
  destruct ((o ← r_object (tag o); _ ← r_finish; mret o) rest) as [r t'] eqn:E. cbn in Ho. subst r.
  apply M_bind_Ok in E as (o' & t1 & E1 & E). apply M_bind_Ok in E as (? & ? & _ & [= -> _]).
  rewrite Hh. apply (verify_body_agrees (tag o) _ _ _ E1).
Qed.

(** Of an object the client can read, the server accepts the record signature
    exactly when the client would: the same key, the same signed bytes and the
    same signature for vault records, items, manifests, grants and account
    states. *)
Theorem server_verifies_like_client `{P : CryptoPrims} b o :
  from_bytes b = Ok o -> verify_record_sig b = Ok tt <-> client_signed o.
Proof. apply verify_record_agrees. Qed.

Definition sample_manifest : MembershipManifest :=
  unwrap_or (mkManifest [] 0 [] [] [])
    (@build_manifest Sample.prims (sample_keyset x01) (lit "v") 1 sample_members).
Definition sample_manifest_bytes : bytes := unwrap_or [] (to_bytes (OManifest sample_manifest)).

Lemma server_verifies_like_client_witness :
  @verify_record_sig Sample.prims sample_manifest_bytes = Ok tt.
Proof.
  apply (@server_verifies_like_client Sample.prims sample_manifest_bytes (OManifest sample_manifest));
    [vm_compute; reflexivity|].
  exists x01. split; vm_compute; reflexivity.
Defined.

(** ** The server reads the member sets the client reads *)

Lemma set_members_agree fuel count p :
  parse_members fuel count p =
  match parse_set_members fuel count p with
  | Ok l => Ok ((fun m => mkMember m.1 m.2) <$> l)
  | Err _ => Err VFormat
  end.
Proof.
  revert count p. induction fuel as [|fuel IH]; intros count p; [done|]. cbn [parse_members parse_set_members].
  destruct (count =? 0); [by destruct (length p =? 0)%nat|].
  destruct p as [|b [|l0 [|l1 p]]]; [done| | |].
  - cbn. by destruct (role_from_u8 b).
  - cbn. by destruct (role_from_u8 b).
  - change (s_split 3 (b :: l0 :: l1 :: p)) with (Ok (E := ErrorCode) ([b; l0; l1], p)).
    change (split_at 2 (l0 :: l1 :: p)) with (Ok (E := VaultError) ([l0; l1], p)).
    change (role_from_u8 b) with (srv_role_from_u8 b). cbn [mbind result_bind].
    destruct (srv_role_from_u8 b) as [role|]; [|reflexivity].
    cbn [ok_or mbind result_bind]. unfold split_at, s_split.
    destruct (_ <? _)%nat; [reflexivity|]. cbn [mbind result_bind].
    rewrite IH. by destruct (parse_set_members fuel (count - 1) _).
Qed.

(** The server resolves roles from the member set the client verifies: on
    every signed payload the client's parser, asked for an epoch, returns the
    members the server's parser reads when the epoch in the payload is that one,
    and both refuse everything else. *)
Theorem member_sets_agree e blob :
  parse_member_payload e blob =
  match parse_member_set blob with
  | Ok set => if ms_key_epoch set =? e
              then Ok ((fun m => mkMember m.1 m.2) <$> ms_members set) else Err VFormat
  | Err _ => Err VFormat
  end.
Proof.
  unfold parse_member_payload, parse_member_set, MANIFEST_HEADER_LEN.
  set (dl := length MANIFEST_DOMAIN).
  destruct (Nat.ltb_spec (length blob) (dl + 8 + 4)) as [|Hlen]; [done|]. cbn [orb].
  unfold split_at, s_split. rewrite (proj2 (Nat.ltb_ge (length blob) dl)) by lia. cbn [mbind result_bind].
  destruct (bytes_eqb (take dl blob) MANIFEST_DOMAIN); cbn [negb]; [|done].
  assert (8 + 4 <= length (drop dl blob))%nat as Hd by (rewrite length_drop; lia).
  set (rest := drop dl blob) in *.
  rewrite (proj2 (Nat.ltb_ge (length rest) 8)) by lia. cbn [mbind result_bind].
  rewrite length_drop, (proj2 (Nat.ltb_ge (length rest - 8) 4)) by lia. cbn [mbind result_bind].
  rewrite set_members_agree.
  destruct (parse_set_members _ _ _) as [l|]; cbn [mbind result_bind ms_key_epoch ms_members];
    by destruct (be_decode (take 8 rest) =? e).
Qed.

(** ** What a client signs towards a server is accepted there *)

Lemma put_u16_Ok out f r : put_u16 out f = Ok r <-> len f <= u16_max /\ r = out ++ u16_be (len f) ++ f.
Proof.
  unfold put_u16. destruct (N.ltb_spec u16_max (len f)).
  - split; [done|lia].
  - split; [by intros [= <-]|by intros [_ ->]].
Qed.

Lemma auth_canonical_Ok c m :
  auth_canonical c = Ok m ->
  Forall (fun f => len f <= u16_max)
    [ch_host c; ch_account_id c; ch_device_id c; ch_key_id c; ch_nonce c] /\
  m = u16_be (len (ch_host c)) ++ ch_host c ++ u16_be (len (ch_account_id c)) ++ ch_account_id c ++
      u16_be (len (ch_device_id c)) ++ ch_device_id c ++ u16_be (len (ch_key_id c)) ++ ch_key_id c ++
      u16_be (len (ch_nonce c)) ++ ch_nonce c ++ u64_be (ch_expiry c).
Proof.
  unfold auth_canonical.
  intros (o1 & [H1 ->]%put_u16_Ok & H)%bind_Ok. apply bind_Ok in H as (o2 & [H2 ->]%put_u16_Ok & H).
  apply bind_Ok in H as (o3 & [H3 ->]%put_u16_Ok & H). apply bind_Ok in H as (o4 & [H4 ->]%put_u16_Ok & H).
  apply bind_Ok in H as (o5 & [H5 ->]%put_u16_Ok & [= <-]). split; [by repeat constructor|].
  by rewrite <-!(assoc_L (++)).
Qed.

Lemma srv_auth_agrees c : srv_auth_canonical c = map_err (fun _ => EMalformed) (auth_canonical c).
Proof.
  unfold srv_auth_canonical, auth_canonical, srv_put_u16, put_u16.
  destruct (u16_max <? len (ch_host c)); [done|]. cbn [mbind result_bind].
  destruct (u16_max <? len (ch_account_id c)); [done|]. cbn [mbind result_bind].
  destruct (u16_max <? len (ch_device_id c)); [done|]. cbn [mbind result_bind].
  destruct (u16_max <? len (ch_key_id c)); [done|]. cbn [mbind result_bind].
  by destruct (u16_max <? len (ch_nonce c)).
Qed.
Lemma srv_reg_agrees p : srv_reg_canonical p = map_err (fun _ => EMalformed) (reg_canonical p).
Proof. unfold srv_reg_canonical, reg_canonical. by destruct (_ <? _). Qed.

Section accepted.
Context `{P : CryptoPrims, !CryptoLaws P}.

(** a domain signature of a keyset passes the server's check of its public key *)
Lemma domain_signed_accepted ks domain payload sig :
  keyset_ok ks -> domain_sign (ek_signing (signing ks)) domain payload = Ok sig ->
  srv_domain_verify (ks_pub ks) domain payload sig = Ok tt.
Proof.
  intros [Hs _]. unfold domain_sign, srv_domain_verify, domain_signing_bytes, domain_message.
  destruct (u16_max <? len domain); [done|]. cbn [mbind result_bind]. intros [= <-].
  unfold ks_pub. rewrite Hs.
  rewrite (proj2 (verifying_key_agrees _ _) (verifying_key_public _)). cbn [mbind result_bind].
  rewrite (proj2 (sig_blob_agrees _ _) (parse_sig_blob_ok _ (ed_sig_len _ _))).
  cbn [mbind result_bind]. by rewrite ed_sign_verify.
Qed.

Lemma reg_canonical_parse p b :
  reg_ok p -> reg_canonical p = Ok b -> reg_parse_canonical b = Ok p.
Proof.
  intros [Hx He]. unfold reg_canonical. destruct (N.ltb_spec u16_max (len (rp_account_id p))) as [|Hl]; [done|].
  intros <-%(inj Ok). set (n := len (rp_account_id p)) in *.
  destruct (u16_be n) as [|l0 [|l1 [|]]] eqn:Hu; try (pose proof (length_u16_be n); by rewrite Hu in *).
  assert (be_decode [l0; l1] = n) as Hn by (rewrite <-Hu; by apply u16_decode).
  cbn [app]. unfold reg_parse_canonical. cbn beta iota zeta. rewrite Hn.
  assert (N.to_nat n = length (rp_account_id p)) as -> by (unfold n, len; lia).
  rewrite (proj2 (Nat.eqb_eq _ _)) by (cbn [length]; rewrite !length_app, Hx, He; lia). cbn [negb].
  unfold s_split. rewrite (proj2 (Nat.ltb_ge _ _)) by (rewrite !length_app; lia). cbn [mbind result_bind].
  rewrite take_app_length, drop_app_length.
  rewrite (proj2 (Nat.ltb_ge _ 32)) by (rewrite length_app; lia). cbn [mbind result_bind].
  rewrite <-Hx, take_app_length, drop_app_length, He, Hx. by destruct p.
Qed.
End accepted.

(** ** Theorems: logging in *)

(** Registering and logging in work between a client and a server that share
    no code: the registration a client signs with its own keys parses on the
    server to the same payload and verifies there, and the answer it signs to a
    login challenge verifies under its public key. What is signed fixes the
    challenge: no other host, account, device, key, nonce or expiry has the
    same signed bytes. *)
Theorem login_accepted `{P : CryptoPrims, !CryptoLaws P} ks :
  keyset_ok ks ->
  (forall p b sig, reg_ok p -> rp_ed25519_pub p = ks_pub ks -> reg_canonical p = Ok b ->
     sign_registration (ek_signing (signing ks)) p = Ok sig ->
     reg_parse_canonical b = Ok p /\ srv_verify_registration p sig = Ok tt) /\
  (forall c sig, sign_server_challenge ks c = Ok sig ->
     srv_verify_server_auth (ks_pub ks) c sig = Ok tt) /\
  (forall c c' m, ch_expiry c <= u64_max -> ch_expiry c' <= u64_max ->
     auth_canonical c = Ok m -> auth_canonical c' = Ok m -> c = c').
Proof.
  intros Hk. split_and!.
  - intros p b sig Hp He Hb Hs. split; [by apply reg_canonical_parse|].
    unfold sign_registration in Hs. rewrite Hb in Hs. unfold srv_verify_registration.
    rewrite srv_reg_agrees, Hb, He. cbn [map_err mbind result_bind] in *.
    by apply domain_signed_accepted.
  - intros c sig Hs%map_err_Ok. unfold sign_server_auth in Hs.
    apply bind_Ok in Hs as (m & Hm & Hs). unfold srv_verify_server_auth.
    rewrite srv_auth_agrees, Hm. cbn [map_err mbind result_bind]. by apply domain_signed_accepted.
  - intros c c' m He He' (Hf & ->)%auth_canonical_Ok (Hf' & Heq)%auth_canonical_Ok.
    rewrite !list.Forall_cons in Hf, Hf'. destruct_and!.
    do 5 (apply prefixed16_inj in Heq as [? Heq]; [|done..]).
    apply u64_be_inj in Heq; [|done..]. destruct c, c'; cbn in *. congruence.
Qed.

Lemma login_accepted_witness : exists sig,
  @sign_server_challenge Sample.prims (sample_keyset x01)
    (mkChallenge (lit "h") (lit "a") (lit "d") (lit "k") (lit "n") 9) = Ok sig /\
  @srv_verify_server_auth Sample.prims (Sample.key32 x01)
    (mkChallenge (lit "h") (lit "a") (lit "d") (lit "k") (lit "n") 9) sig = Ok tt.
Proof.
  eexists. split; [vm_compute; reflexivity|].
  refine (proj1 (proj2 (@login_accepted Sample.prims Sample.laws (sample_keyset x01)
    (sample_keyset_ok x01))) _ _ _).
  vm_compute. reflexivity.
Defined.

(** A keyset record a client can read is one the server can index: its header
    parser accepts it and reads the same mode, generation and public keys. *)
Theorem keyset_header_agrees b k :
  keyset_from_bytes b = Ok k ->
  parse_keyset_header b
    = Ok (mkKeysetHeader (mode_to_u8 (mode k)) (generation k) (x25519_public k) (ed25519_public k)).
Proof.
  unfold keyset_from_bytes, parse_keyset_header.
  destruct (Nat.ltb_spec (length b) (8 + 64)) as [|Hlen]; [done|].
  destruct b as [|v [|md [|g0 [|g1 [|g2 [|g3 [|k0 [|k1 rest]]]]]]]]; [done..|].
  unfold KEYSET_FORMAT_VERSION, KEYSET_FORMAT_LEGACY.
  rewrite (andb_comm (negb (Byte.to_N v =? 2))).
  destruct (negb (Byte.to_N v =? 3) && negb (Byte.to_N v =? 2)); [done|].
  intros (m & Hm & H)%bind_Ok.
  assert (mode_to_u8 m = md /\ (Byte.to_N md = 1 /\ m = Password \/ Byte.to_N md = 2 /\ m = SecretKeyOnly))
    as [<- Hmode] by (destruct md; cbn in Hm; try done; injection Hm as <-; cbn; auto).
  set (kl := N.to_nat (be_decode [k0; k1])) in *.
  set (blob := mode_to_u8 m :: g0 :: g1 :: g2 :: g3 :: k0 :: k1 :: rest) in *.
  assert (length (v :: blob) = (8 + length rest)%nat) as Hb by done.
  assert (forall n, drop (8 + n) (v :: blob) = drop n rest) as Hdrop by done.
  rewrite (proj2 (andb_false_iff _ _)) by
    (destruct Hmode as [[-> _]|[-> _]]; [by left|by right]).
  apply bind_Ok in H as ([kdf rest'] & Hkdf & H). apply bind_Ok in H as ([] & Hcons & H).
  destruct (Nat.ltb_spec (length rest') 64) as [|Hr]; [done|].
  destruct (length (drop 32 (drop 32 rest')) =? 0)%nat eqn:Hw; [done|]. injection H as <-.
  cbn [mode generation x25519_public ed25519_public].
  apply Nat.eqb_neq in Hw. rewrite !length_drop in Hw.
  destruct (Nat.ltb_spec 0 kl) as [Hkl|Hkl].
  - destruct (Nat.ltb_spec (length rest - kl) 64) as [|Hk]; [done|].
    apply bind_Ok in Hkdf as (p & _ & [= <- <-]). rewrite length_drop in Hw, Hr.
    rewrite Hb. rewrite (proj2 (Nat.ltb_ge _ _)) by lia. cbn [mbind result_bind].
    destruct Hmode as [[-> ->]|[_ ->]]; [|done]. cbn [mbind result_bind].
    rewrite (proj2 (Nat.ltb_ge _ _)), (proj2 (Nat.leb_gt _ _)) by lia.
    by rewrite <-Nat.add_assoc, !Hdrop, drop_drop.
  - injection Hkdf as <- <-. cbn [mbind result_bind].
    destruct Hmode as [[_ ->]|[-> ->]]; [done|]. cbn [mbind result_bind].
    rewrite Hb, (proj2 (Nat.ltb_ge _ _)), (proj2 (Nat.leb_gt _ _)) by lia.
    rewrite (Hdrop 32%nat). done.
Qed.

Lemma keyset_header_agrees_witness :
  parse_keyset_header (unwrap_or [] (keyset_to_bytes sample_ek))
    = Ok (mkKeysetHeader (mode_to_u8 (mode sample_ek)) (generation sample_ek)
            (x25519_public sample_ek) (ed25519_public sample_ek)).
Proof. apply (keyset_header_agrees _ sample_ek). vm_compute. reflexivity. Defined.
