(* ===== verification/ServerStore.v ===== *)
(** * The server's object log and access tables
      (server/src/store/{sync_repo,policy_repo,instance_repo,models}.rs)

    The tables the sync and policy handlers read and write, and their statements:
    the append-only log [objects], the snapshots [vaults], [membership_manifests]
    and [membership_grants] derived from it, the idempotency records, and of
    [instance] and [accounts] what these statements read. A statement is an
    expression over finite maps; a transaction is [atomically]. Handlers of one
    request run interleaved with others between their statements, so an operation
    that reads the store twice takes two states, and [push_objects] is split at
    the point where its transaction starts. Errors of the database engine,
    64-bit overflow of the sequence counter and the JSON text of a stored
    response are not modelled. *)

From Stdlib Require Import Strings.Byte NArith ZArith Lia.
From stdpp Require Import base gmap sets list strings sorting countable.
From S2P Require Import Prelude Bytes CryptoPrims Crypto Storage Membership SyncObject.
From S2P Require Import AuthPayloads ServerCodec.

Local Open Scope N_scope.

(** ** Rows *)

Record ObjectRow := mkObjectRow {
  o_server_seq : N;
  o_tag : byte;
  o_bytes : bytes;
  o_vault_id : option bytes;
  o_item_id : option bytes;
  o_member_pubkey : option bytes;
  o_obj_version : option N;
  o_key_epoch : option N;
  o_tombstone : option bool;
  o_item_type : option N;
  o_sync_target : option byte;
  o_cache_policy : option byte;
  o_role : option byte;
  o_author_pubkey : option bytes;
  o_received_at : Z
}.

Record SVaultRow := mkSVault {
  sv_space_id : option bytes;
  sv_owner_account_id : option bytes;
  sv_owner_pubkey : bytes;
  sv_access_policy : bytes;
  sv_space_wide_role : option Z;
  sv_manual_approve : bool;
  sv_latest_version : N;
  sv_latest_epoch : N;
  sv_sync_target : N;
  sv_cache_policy : N;
  sv_tombstone : bool;
  sv_created_at : Z
}.

Record ManifestRow := mkManifestRow {
  sm_blob : bytes;
  sm_signature : bytes;
  sm_author : bytes;
  sm_server_seq : N;
  sm_received_at : Z
}.

Record GrantRow := mkGrantRow {
  sg_role : N;
  sg_wrapped_vk : bytes;
  sg_signature : bytes;
  sg_author : bytes;
  sg_not_after : option Z;
  sg_revoked : bool;
  sg_server_seq : N;
  sg_received_at : Z
}.

Record IdempotencyRow := mkIdem {
  id_request_hash : bytes;
  id_response : list N;
  id_created_at : Z
}.

(** of an account, what these statements read *)
Record SAccountRow := mkAccount { ac_ed25519_pub : bytes; ac_is_owner : bool }.

Record ServerDB := mkDB {
  next_seq : N;
  owner_account_id : option bytes;
  accounts : gmap bytes SAccountRow;
  space_members : gset (bytes * bytes);
  objects : gmap N ObjectRow;
  s_vaults : gmap bytes SVaultRow;
  s_manifests : gmap (bytes * N) ManifestRow;
  s_grants : gmap (bytes * bytes * N) GrantRow;
  idempotency : gmap bytes IdempotencyRow
}.

Definition set_next_seq (f : N -> N) (s : ServerDB) := mkDB (f (next_seq s)) (owner_account_id s)
  (accounts s) (space_members s) (objects s) (s_vaults s) (s_manifests s) (s_grants s) (idempotency s).
Definition set_objects f (s : ServerDB) := mkDB (next_seq s) (owner_account_id s) (accounts s)
  (space_members s) (f (objects s)) (s_vaults s) (s_manifests s) (s_grants s) (idempotency s).
Definition set_s_vaults f (s : ServerDB) := mkDB (next_seq s) (owner_account_id s) (accounts s)
  (space_members s) (objects s) (f (s_vaults s)) (s_manifests s) (s_grants s) (idempotency s).
Definition set_s_manifests f (s : ServerDB) := mkDB (next_seq s) (owner_account_id s) (accounts s)
  (space_members s) (objects s) (s_vaults s) (f (s_manifests s)) (s_grants s) (idempotency s).
Definition set_s_grants f (s : ServerDB) := mkDB (next_seq s) (owner_account_id s) (accounts s)
  (space_members s) (objects s) (s_vaults s) (s_manifests s) (f (s_grants s)) (idempotency s).
Definition set_idempotency f (s : ServerDB) := mkDB (next_seq s) (owner_account_id s) (accounts s)
  (space_members s) (objects s) (s_vaults s) (s_manifests s) (s_grants s) (f (idempotency s)).

Definition SrvM := M ServerDB ErrorCode.

Record PushObj := mkPushObj { po_bytes : bytes; po_parsed : ParsedObject }.
Record PushResult := mkPushResult { pr_server_seq : list N; pr_replayed : bool }.

(** ** Column conversions *)

(** [opt_u64]: a column of SQLite and Postgres is an [i64] *)
Definition opt_u64 (o : option N) : result ErrorCode (option N) :=
  match o with
  | None => Ok None
  | Some v => if v <=? i64_max then Ok (Some v) else Err EMalformed
  end.
Definition req_u64 (o : option N) : result ErrorCode N :=
  v ← ok_or o EMalformed;
  if v <=? i64_max then Ok v else Err EMalformed.
Definition count_i64 (n : nat) : result ErrorCode N :=
  if N.of_nat n <=? i64_max then Ok (N.of_nat n) else Err EInternal.

(** ** Sequence numbers *)

Definition alloc_seqs (n : N) : SrvM N :=
  _ ← modify (set_next_seq (fun next => next + n));
  s ← get_state;
  mret (next_seq s - n).

Definition report_version (s : ServerDB) : N := next_seq s.

(** the old and the new value; never lowered *)
Definition bump_instance_seq_to (to : Z) : SrvM (N * N) :=
  old ← get_state;
  _ ← modify (set_next_seq (fun next => if (Z.of_N next <? to)%Z then Z.to_N to else next));
  new ← get_state;
  mret (next_seq old, next_seq new).
Definition bump_instance_seq_by (by_ : Z) : SrvM (N * N) :=
  old ← get_state;
  _ ← modify (set_next_seq (fun next => next + Z.to_N (Z.max by_ 0)));
  new ← get_state;
  mret (next_seq old, next_seq new).
Definition instance_generation (s : ServerDB) : N := next_seq s.

(** ** Writing objects *)

(** a primary key that is taken is an engine error *)
Definition insert_object (seq : N) (p : ParsedObject) (b : bytes) (now : Z) : SrvM unit :=
  obj_version ← lift_result (opt_u64 (p_obj_version p));
  key_epoch ← lift_result (opt_u64 (p_key_epoch p));
  s ← get_state;
  match objects s !! seq with
  | Some _ => throw EInternal
  | None =>
      modify (set_objects (<[seq := mkObjectRow seq (p_tag_u8 p) b (p_vault_id p) (p_item_id p)
        (p_member_pubkey p) obj_version key_epoch (p_tombstone p) (p_item_type p)
        (p_sync_target p) (p_cache_policy p) (p_role p) (p_author_pubkey p) now]>))
  end.

(** [WHERE ed25519_pub = ?]: the column is unique *)
Definition account_by_ed (s : ServerDB) (ed : bytes) : option (bytes * SAccountRow) :=
  head (filter (fun kv : bytes * SAccountRow => ac_ed25519_pub kv.2 = ed)
          (map_to_list (accounts s))).
Definition account_of_ed (s : ServerDB) (ed : bytes) : option bytes := fst <$> account_by_ed s ed.
Definition account_is_owner_by_ed (s : ServerDB) (ed : bytes) : bool :=
  default false (ac_is_owner ∘ snd <$> account_by_ed s ed).

Definition materialize_vault (p : ParsedObject) (now : Z) : SrvM unit :=
  vault_id ← lift_result (ok_or (p_vault_id p) EMalformed);
  author ← lift_result (ok_or (p_author_pubkey p) EMalformed);
  version ← lift_result (req_u64 (p_obj_version p));
  epoch ← lift_result (req_u64 (p_key_epoch p));
  let st := default 1 (Byte.to_N <$> p_sync_target p) in
  let cp := default 0 (Byte.to_N <$> p_cache_policy p) in
  let tomb := default false (p_tombstone p) in
  s ← get_state;
  match s_vaults s !! vault_id with
  | None =>
      modify (set_s_vaults (<[vault_id := mkSVault None (account_of_ed s author) author
        (lit "selective") None false version epoch st cp tomb now]>))
  | Some row =>
      if negb (bytes_eqb (sv_owner_pubkey row) author) then throw EConflict
      else
        let nv := N.max (sv_latest_version row) version in
        let ne := N.max (sv_latest_epoch row) epoch in
        let '(st, cp, tomb) :=
          if sv_latest_version row <? version then (st, cp, tomb)
          else (sv_sync_target row, sv_cache_policy row, sv_tombstone row) in
        modify (set_s_vaults (<[vault_id := mkSVault (sv_space_id row) (sv_owner_account_id row)
          (sv_owner_pubkey row) (sv_access_policy row) (sv_space_wide_role row)
          (sv_manual_approve row) nv ne st cp tomb (sv_created_at row)]>))
  end.

(** [INSERT ... ON CONFLICT (vault_id, key_epoch) DO NOTHING] *)
Definition materialize_manifest (seq : N) (p : ParsedObject) (now : Z) : SrvM unit :=
  let vault_id := default [] (p_vault_id p) in
  epoch ← lift_result (req_u64 (p_key_epoch p));
  let row := mkManifestRow (default [] (p_manifest_blob p)) (default [] (p_signature p))
               (default [] (p_author_pubkey p)) seq now in
  modify (set_s_manifests (fun t =>
    match t !! (vault_id, epoch) with Some _ => t | None => <[(vault_id, epoch) := row]> t end)).

(** [INSERT ... ON CONFLICT DO UPDATE], which leaves [revoked] as it is *)
Definition materialize_grant (seq : N) (p : ParsedObject) (now : Z) : SrvM unit :=
  let vault_id := default [] (p_vault_id p) in
  let member := default [] (p_member_pubkey p) in
  epoch ← lift_result (req_u64 (p_key_epoch p));
  let not_after := match p_not_after p with
                   | Some n => if (0 <? n)%Z then Some n else None
                   | None => None
                   end in
  modify (set_s_grants (fun t =>
    let revoked := default false (sg_revoked <$> t !! (vault_id, member, epoch)) in
    <[(vault_id, member, epoch) := mkGrantRow (default 0 (Byte.to_N <$> p_role p))
        (default [] (p_wrapped_vk p)) (default [] (p_signature p)) (default [] (p_author_pubkey p))
        not_after revoked seq now]> t)).

(** older account states of the same author leave the log *)
Definition compact_account_state (p : ParsedObject) : SrvM unit :=
  match p_author_pubkey p with
  | Some author =>
      version ← lift_result (opt_u64 (p_obj_version p));
      modify (set_objects (delete_where (fun _ o =>
        bool_decide (o_tag o = x07) && bool_decide (o_author_pubkey o = Some author)
        && match o_obj_version o, version with
           | Some v, Some v' => v <? v'
           | _, _ => false
           end)))
  | None => mret tt
  end.

Definition materialize (seq : N) (p : ParsedObject) (now : Z) : SrvM unit :=
  match p_tag p with
  | Some TVault => materialize_vault p now
  | Some TMembershipManifest => materialize_manifest seq p now
  | Some TMembershipGrant => materialize_grant seq p now
  | Some TAccountState => if p_obj_version p is Some _ then compact_account_state p else mret tt
  | _ => mret tt
  end.

(** [for (seq, it) in (base + 1..).zip(items)]; the sequence numbers used *)
Fixpoint append_objects (seq : N) (items : list PushObj) (now : Z) : SrvM (list N) :=
  match items with
  | [] => mret []
  | it :: items =>
      _ ← insert_object seq (po_parsed it) (po_bytes it) now;
      _ ← materialize seq (po_parsed it) now;
      seqs ← append_objects (seq + 1) items now;
      mret (seq :: seqs)
  end.

(** ** Push *)

Definition idem_result (rec : IdempotencyRow) (req_hash : bytes) : result ErrorCode PushResult :=
  if bytes_eqb (id_request_hash rec) req_hash then Ok (mkPushResult (id_response rec) true)
  else Err EConflict.

(** the fast path: an answer recorded for the key *)
Definition push_lookup (idem : option bytes) (req_hash : bytes) (s : ServerDB)
    : option (result ErrorCode PushResult) :=
  k ← idem; rec ← idempotency s !! k; Some (idem_result rec req_hash).

(** the transaction up to its commit; [None] when another push took the key *)
Definition push_tx (idem : option bytes) (req_hash : bytes) (items : list PushObj) (now : Z)
    : SrvM (option PushResult) :=
  n ← lift_result (count_i64 (length items));
  base ← alloc_seqs n;
  seqs ← append_objects (base + 1) items now;
  match idem with
  | None => mret (Some (mkPushResult seqs false))
  | Some k =>
      s ← get_state;
      match idempotency s !! k with
      | Some _ => mret None
      | None =>
          _ ← modify (set_idempotency (<[k := mkIdem req_hash seqs now]>));
          mret (Some (mkPushResult seqs false))
      end
  end.

(** the transaction and what follows it: commit, or roll back and answer with
    the record of the push that took the key *)
Definition push_commit (idem : option bytes) (req_hash : bytes) (items : list PushObj) (now : Z)
    : SrvM PushResult := fun s =>
  match push_tx idem req_hash items now s with
  | (Ok (Some r), s') => (Ok r, s')
  | (Ok None, _) => (default (Err EConflict) (push_lookup idem req_hash s), s)
  | (Err e, _) => (Err e, s)
  end.

Definition push_objects (idem : option bytes) (req_hash : bytes) (items : list PushObj) (now : Z)
    : SrvM PushResult := fun s =>
  match push_lookup idem req_hash s with
  | Some r => (r, s)
  | None => push_commit idem req_hash items now s
  end.

(** of [cleanup_expired], the statement on these tables *)
Definition cleanup_idempotency (idem_cutoff : Z) : SrvM unit :=
  modify (set_idempotency (delete_where (fun _ r => (id_created_at r <? idem_cutoff)%Z))).

(** ** Reading: membership tables *)

(** [SELECT MAX(key_epoch) FROM membership_manifests WHERE vault_id = ?] *)
Definition latest_manifest_epoch (s : ServerDB) (vault_id : bytes) : option N :=
  match (filter (fun k : bytes * N => k.1 = vault_id) ((map_to_list (s_manifests s)).*1)).*2 with
  | [] => None
  | e :: es => Some (foldr N.max e es)
  end.

Definition get_manifest (s : ServerDB) (vault_id : bytes) (epoch : N) : option ManifestRow :=
  s_manifests s !! (vault_id, epoch).
Definition get_vault_owner (s : ServerDB) (vault_id : bytes) : option bytes :=
  sv_owner_pubkey <$> s_vaults s !! vault_id.
Definition account_ed (s : ServerDB) (account_id : bytes) : option bytes :=
  ac_ed25519_pub <$> accounts s !! account_id.

(** not revoked, not expired *)
Definition grant_active (now : Z) (g : GrantRow) : bool :=
  negb (sg_revoked g) && match sg_not_after g with None => true | Some n => (now <? n)%Z end.

Definition member_has_active_grant (s : ServerDB) (vault_id : bytes) (epoch : N) (member : bytes)
    (now : Z) : bool :=
  match s_grants s !! (vault_id, member, epoch) with
  | Some g => grant_active now g
  | None => false
  end.

(** [ORDER BY member_pubkey] *)
Definition list_grants (s : ServerDB) (vault_id : bytes) (epoch : N) (non_revoked_only : bool)
    : list (bytes * GrantRow) :=
  sort_on fst (omap (fun kg : (bytes * bytes * N) * GrantRow =>
    let '(v, m, e, g) := kg in
    if bytes_eqb v vault_id && (e =? epoch) && (negb non_revoked_only || negb (sg_revoked g))
    then Some (m, g) else None) (map_to_list (s_grants s))).

(** ** Reading: the delta *)

(** the two [EXISTS] of the visibility conditions: the owner of a vault, or the
    holder of an active grant at its latest manifest epoch *)
Definition can_read_vault (s : ServerDB) (member : bytes) (now : Z) (vault_id : bytes) : bool :=
  bool_decide (get_vault_owner s vault_id = Some member)
  || match latest_manifest_epoch s vault_id with
     | Some e => member_has_active_grant s vault_id e member now
     | None => false
     end.

(** [DELTA_VISIBLE] *)
Definition delta_visible (s : ServerDB) (member : bytes) (now : Z) (o : ObjectRow) : bool :=
  (match o_vault_id o with None | Some [] => true | _ => false end
   && (bool_decide (o_tag o = x05) || bool_decide (o_tag o = x06)))
  || match o_vault_id o with Some v => can_read_vault s member now v | None => false end
  || (bool_decide (o_tag o = x07) && bool_decide (o_author_pubkey o = Some member)).

(** [DELTA_VISIBLE_IN_VAULT] *)
Definition delta_visible_in_vault (s : ServerDB) (vault_id member : bytes) (now : Z) (o : ObjectRow)
    : bool :=
  bool_decide (o_vault_id o = Some vault_id) && can_read_vault s member now vault_id.

Definition delta_filter (s : ServerDB) (vault : option bytes) (member : bytes) (now : Z)
    : ObjectRow -> bool :=
  match vault with
  | None => delta_visible s member now
  | Some v => delta_visible_in_vault s v member now
  end.

(** [SELECT ... WHERE server_seq > ? AND p ORDER BY server_seq ASC] *)
Definition rows_after (s : ServerDB) (cursor : N) (p : ObjectRow -> bool) : list ObjectRow :=
  stable_sort (fun a b => o_server_seq a <=? o_server_seq b)
    (select_where (fun seq o => (cursor <? seq) && p o) (objects s)).

Definition delta_rows (s : ServerDB) (cursor upto limit : N) (member : bytes) (now : Z)
    (vault : option bytes) : list ObjectRow :=
  take (N.to_nat limit)
    (rows_after s cursor (fun o => (o_server_seq o <=? upto) && delta_filter s vault member now o)).

Definition delta_since (s : ServerDB) (cursor limit : N) (member : bytes) (now : Z)
    : list ObjectRow :=
  delta_rows s cursor i64_max limit member now None.
Definition delta_since_vault (s : ServerDB) (cursor limit : N) (member : bytes) (now : Z)
    (vault_id : bytes) : list ObjectRow :=
  delta_rows s cursor i64_max limit member now (Some vault_id).

(** the loop of [page_len] *)
Fixpoint page_len_from (total : N) (taken : nat) (sizes : list N) (max_bytes : N) : nat :=
  match sizes with
  | [] => taken
  | size :: sizes =>
      let total := sat_add64 total size in
      if (0 <? taken)%nat && (max_bytes <? total) then taken
      else page_len_from total (S taken) sizes max_bytes
  end.
Definition page_len (sizes : list N) (limit : nat) (max_bytes : N) : nat :=
  page_len_from 0 0 (take limit sizes) max_bytes.

Record DeltaPage := mkPage { dp_rows : list ObjectRow; dp_has_more : bool; dp_next_cursor : N }.

(** the page is planned on one state of the store and read from a later one *)
Definition delta_page (s1 s2 : ServerDB) (cursor limit max_bytes : N) (member : bytes) (now : Z)
    (vault : option bytes) : DeltaPage :=
  let plan := take (S (N.to_nat limit)) (rows_after s1 cursor (delta_filter s1 vault member now)) in
  let keep := page_len ((fun o => len (o_bytes o)) <$> plan) (N.to_nat limit) max_bytes in
  let planned_more := (keep <? length plan)%nat in
  let plan := take keep plan in
  match list.last plan with
  | None => mkPage [] false cursor
  | Some o =>
      let upto := o_server_seq o in
      let rows := delta_rows s2 cursor upto (N.of_nat (length plan)) member now vault in
      let next_cursor := if (length rows <? length plan)%nat then upto
                         else match list.last rows with Some r => o_server_seq r | None => upto end in
      mkPage rows (planned_more || (next_cursor <? upto)) next_cursor
  end.

(** ** The catalog of vaults a member can read *)

Record AccessibleVault := mkAccessible {
  av_vault_id : bytes;
  av_latest_version : N;
  av_latest_epoch : N;
  av_tombstone : bool;
  av_record_bytes : option bytes
}.

(** [ORDER BY obj_version DESC, server_seq DESC LIMIT 1], NULL versions last *)
Definition newer (a b : ObjectRow) : bool :=
  let va := default 0 (N.succ <$> o_obj_version a) in
  let vb := default 0 (N.succ <$> o_obj_version b) in
  (vb <? va) || ((vb =? va) && (o_server_seq b <=? o_server_seq a)).

Definition latest_record (s : ServerDB) (vault_id : bytes) : option bytes :=
  o_bytes <$> head (stable_sort newer (select_where (fun _ o =>
    bool_decide (o_vault_id o = Some vault_id) && bool_decide (o_tag o = x01)) (objects s))).

Definition list_accessible_vaults (s : ServerDB) (member : bytes) (now : Z) : list AccessibleVault :=
  (fun kv : bytes * SVaultRow =>
     mkAccessible kv.1 (sv_latest_version kv.2) (sv_latest_epoch kv.2) (sv_tombstone kv.2)
       (latest_record s kv.1)) <$>
  stable_sort (fun a b => (sv_created_at a.2 <? sv_created_at b.2)%Z
      || ((sv_created_at a.2 =? sv_created_at b.2)%Z && bytes_leb a.1 b.1))
    (filter (fun kv => can_read_vault s member now kv.1 = true) (map_to_list (s_vaults s))).

(** ** Vault claims and who may touch a vault *)

(** the INSERT; a primary key that is taken is an engine error *)
Definition claim_insert (vault_id owner_pubkey : bytes) (owner_account space_id : option bytes)
    (access_policy : bytes) (space_wide_role : option Z) (manual_approve : bool) (now : Z)
    : SrvM unit :=
  s ← get_state;
  match s_vaults s !! vault_id with
  | Some _ => throw EInternal
  | None =>
      modify (set_s_vaults (<[vault_id := mkSVault space_id owner_account owner_pubkey
        access_policy space_wide_role manual_approve 0 0 1 0 false now]>))
  end.

(** the SELECT and what follows from it: [None] when the row is to be inserted *)
Definition claim_lookup (vault_id owner_pubkey : bytes) : SrvM (option bool) :=
  s ← get_state;
  match s_vaults s !! vault_id with
  | Some row => if bytes_eqb (sv_owner_pubkey row) owner_pubkey then mret (Some false) else throw EConflict
  | None => mret None
  end.

(** both statements, which no transaction holds together: others may write in between *)
Definition claim_vault (vault_id owner_pubkey : bytes) (owner_account space_id : option bytes)
    (access_policy : bytes) (space_wide_role : option Z) (manual_approve : bool) (now : Z)
    : SrvM bool :=
  known ← claim_lookup vault_id owner_pubkey;
  match known with
  | Some b => mret b
  | None =>
      _ ← claim_insert vault_id owner_pubkey owner_account space_id access_policy space_wide_role manual_approve now;
      mret true
  end.

Definition can_touch_vault (s : ServerDB) (account_id vault_id : bytes) : bool :=
  match s_vaults s !! vault_id with
  | None => true
  | Some v =>
      match sv_space_id v with
      | Some sid => bool_decide ((sid, account_id) ∈ space_members s)
      | None => bool_decide (sv_owner_account_id v = Some account_id)
                || bool_decide (account_ed s account_id = Some (sv_owner_pubkey v))
      end
  end.

(** vaults where the member holds an unrevoked grant at the epoch of the vault row;
    in one space, or in all *)
Definition live_grants (s : ServerDB) (member : bytes) (in_scope : SVaultRow -> bool) : list bytes :=
  omap (fun kg : (bytes * bytes * N) * GrantRow =>
    let '(v, m, e, g) := kg in
    match s_vaults s !! v with
    | Some row =>
        if bytes_eqb m member && negb (sg_revoked g) && (e =? sv_latest_epoch row) && in_scope row
        then Some v else None
    | None => None
    end) (map_to_list (s_grants s)).
Definition vaults_with_live_grant_in_space (s : ServerDB) (member space_id : bytes) : list bytes :=
  live_grants s member (fun row => bool_decide (sv_space_id row = Some space_id)).
Definition vaults_with_live_grant (s : ServerDB) (member : bytes) : list bytes :=
  live_grants s member (fun _ => true).

(** ** Publishing grants *)

(** [SELECT MAX(server_seq) FROM objects WHERE vault_id = o.vault_id AND p] *)
Definition is_newest (s : ServerDB) (vault_id : bytes) (p : ObjectRow -> bool) (o : ObjectRow) : bool :=
  let among := select_where (fun _ o' => bool_decide (o_vault_id o' = Some vault_id) && p o') (objects s) in
  existsb (fun o' => o_server_seq o' =? o_server_seq o) among && forallb (fun o' => o_server_seq o' <=? o_server_seq o) among.

(** NULL is equal to nothing *)
Definition sql_eq {A} `{EqDecision A} (a b : option A) : bool :=
  match a, b with Some x, Some y => bool_decide (x = y) | _, _ => false end.

Definition reemit_class (o : ObjectRow) : N :=
  match o_tag o with x01 => 0 | x03 => 1 | _ => 2 end.

(** the current set of a vault: its newest record, the newest manifest of every
    earlier epoch, the newest row of every item unless that is a deletion *)
Definition reemitted (s : ServerDB) (vault_id : bytes) (new_epoch : N) (o : ObjectRow) : bool :=
  bool_decide (o_vault_id o = Some vault_id) &&
  ((bool_decide (o_tag o = x01) && is_newest s vault_id (fun o' => bool_decide (o_tag o' = x01)) o)
   || (bool_decide (o_tag o = x03)
       && match o_key_epoch o with Some e => e <? new_epoch | None => false end
       && is_newest s vault_id (fun o' =>
            bool_decide (o_tag o' = x03) && sql_eq (o_key_epoch o') (o_key_epoch o)) o)
   || (bool_decide (o_tag o = x02) && bool_decide (o_tombstone o = Some false)
       && is_newest s vault_id (fun o' =>
            bool_decide (o_tag o' = x02) && sql_eq (o_item_id o') (o_item_id o)) o)).

Definition reemit_rows (s : ServerDB) (vault_id : bytes) (new_epoch : N) : list ObjectRow :=
  stable_sort (fun a b => (reemit_class a <? reemit_class b)
      || ((reemit_class a =? reemit_class b) && (o_server_seq a <=? o_server_seq b)))
    (select_where (fun _ o => reemitted s vault_id new_epoch o) (objects s)).

(** the rows parsed again, ready to be appended *)
Fixpoint reparse (rows : list ObjectRow) : result ErrorCode (list PushObj) :=
  match rows with
  | [] => Ok []
  | r :: rows =>
      parsed ← parse_open (o_bytes r);
      rest ← reparse rows;
      Ok (mkPushObj (o_bytes r) parsed :: rest)
  end.

Definition reemit (vault_id : bytes) (new_epoch : N) (now : Z) : SrvM unit :=
  s ← get_state;
  let rows := reemit_rows s vault_id new_epoch in
  if (length rows =? 0)%nat then mret tt
  else
    m ← lift_result (count_i64 (length rows));
    rbase ← alloc_seqs m;
    items ← lift_result (reparse rows);
    _ ← append_objects (rbase + 1) items now;
    mret tt.

(** [UPDATE membership_grants SET revoked = 1 WHERE vault_id = ? AND key_epoch = ?] *)
Definition revoke_grants (vault_id : bytes) (revoke_epoch : Z) : SrvM unit :=
  modify (set_s_grants (update_where
    (fun k _ => bytes_eqb k.1.1 vault_id && (Z.of_N k.2 =? revoke_epoch)%Z)
    (fun g => mkGrantRow (sg_role g) (sg_wrapped_vk g) (sg_signature g) (sg_author g)
                (sg_not_after g) true (sg_server_seq g) (sg_received_at g)))).

Definition store_grants_publish (vault_id : bytes) (manifest : PushObj) (grants : list PushObj)
    (revoke_epoch : option Z) (now : Z) : SrvM (list N) :=
  atomically (
    n ← lift_result (count_i64 (S (length grants)));
    base ← alloc_seqs n;
    seqs ← append_objects (base + 1) (manifest :: grants) now;
    let new_epoch := default 0 (p_key_epoch (po_parsed manifest)) in
    _ ← lift_result (if new_epoch <=? i64_max then Ok tt else Err EMalformed);
    _ ← reemit vault_id new_epoch now;
    _ ← match revoke_epoch with
        | Some re => revoke_grants vault_id re
        | None => mret tt
        end;
    mret seqs).
