(* ===== verification/ServerApi.v ===== *)
(** * The server's sync and policy handlers
      (server/src/modules/{sync,policy}.rs)

    What a request is checked for before it reaches the store, and the answers of
    the read endpoints. A request is its decoded content (JSON and base64 are
    the framework's); the authenticated device and account are arguments. Marking
    pending actions and the server's own audit events write other tables and are
    not modelled. *)

From Stdlib Require Import Strings.Byte NArith ZArith Lia.
From stdpp Require Import base gmap sets list strings sorting countable.
From S2P Require Import Prelude Bytes CryptoPrims Crypto Storage Membership SyncObject.
From S2P Require Import AuthPayloads ServerCodec ServerStore.

Local Open Scope N_scope.

Record ServerConfig := mkConfig {
  validate_signatures : bool;
  max_objects_per_push : N;
  max_object_bytes : N;
  delta_page_size : Z;
  delta_max_page_size : Z;
  delta_max_page_bytes : N
}.

(** ** policy.rs: roles *)

Definition epoch_i64 (e : option N) : result ErrorCode (option N) :=
  match e with
  | None => Ok None
  | Some e => if e <=? i64_max then Ok (Some e) else Err EMalformed
  end.

Definition author_role (s : ServerDB) (vault_id : bytes) (epoch : N) (author : bytes)
    : result ErrorCode (option MemberRole) :=
  from_manifest ←
    match get_manifest s vault_id epoch with
    | Some m =>
        ms ← parse_member_set (sm_blob m);
        if negb (ms_key_epoch ms =? epoch) then Err EMalformed
        else Ok (ms_role_of ms author)
    | None => Ok None
    end;
  match from_manifest with
  | Some r => Ok (Some r)
  | None =>
      match get_vault_owner s vault_id with
      | Some owner => if bytes_eqb owner author then Ok (Some Admin) else Ok None
      | None => Ok (Some Admin)
      end
  end.

Definition genesis_ed (s : ServerDB) : option bytes :=
  match owner_account_id s with Some aid => account_ed s aid | None => None end.

(** one object of [write_accept] *)
Definition accept_object (s : ServerDB) (device : bytes) (acl_only : bool) (p : ParsedObject)
    : result ErrorCode unit :=
  match p_tag p with
  | Some TVault | Some TItem =>
      if acl_only then Ok tt
      else
        vault_id ← ok_or (p_vault_id p) EMalformed;
        epoch ← epoch_i64 (p_key_epoch p);
        let obj_author := default device (p_author_pubkey p) in
        role ← author_role s vault_id (default 0 epoch) obj_author;
        match role with
        | Some r => if role_geb r Editor then Ok tt else Err EForbidden
        | None => Err EForbidden
        end
  | Some TMembershipManifest | Some TMembershipGrant =>
      vault_id ← ok_or (p_vault_id p) EMalformed;
      epoch ← epoch_i64 (p_key_epoch p);
      let obj_author := default device (p_author_pubkey p) in
      role ← author_role s vault_id (default 0 epoch) obj_author;
      if bool_decide (role = Some Admin) then Ok tt else Err EForbidden
  | Some TAudit =>
      if acl_only then Ok tt
      else match genesis_ed s with
           | Some g => if bytes_eqb g (default [] (p_author_pubkey p)) then Ok tt else Err EForbidden
           | None => Err EForbidden
           end
  | Some TKeyset => Ok tt
  | Some TAccountState =>
      if acl_only then Ok tt
      else if bytes_eqb (default [] (p_author_pubkey p)) device then Ok tt else Err EForbidden
  | None => if acl_only then Ok tt else Err EMalformed
  end.

Fixpoint write_accept (s : ServerDB) (device : bytes) (items : list PushObj) (acl_only : bool)
    : result ErrorCode unit :=
  match items with
  | [] => Ok tt
  | it :: items =>
      _ ← accept_object s device acl_only (po_parsed it);
      write_accept s device items acl_only
  end.

(** ** sync.rs: push *)

Section api.
Context `{P : CryptoPrims}.

(** the first loop of [push]: size, format, structural rules *)
Definition check_object (cfg : ServerConfig) (genesis : option bytes) (device b : bytes)
    : result ErrorCode PushObj :=
  if max_object_bytes cfg <? len b then Err EPayloadTooLarge
  else
    parsed ← parse_open b;
    let t := p_tag parsed in
    if bool_decide (t = Some TVault) && negb (bool_decide (p_sync_target parsed = Some x01))
    then Err EMalformed
    else if bool_decide (t = Some TAudit)
            && match genesis with
               | Some g => negb (bool_decide (p_author_pubkey parsed = Some g))
               | None => false
               end
    then Err EForbidden
    else if bool_decide (t = Some TAccountState)
            && negb (bool_decide (p_author_pubkey parsed = Some device))
    then Err EForbidden
    else Ok (mkPushObj b parsed).

Definition is_acl (p : ParsedObject) : bool :=
  match p_tag p with Some TMembershipManifest | Some TMembershipGrant => true | _ => false end.

(** the second loop: signatures of access objects always, of the rest by configuration *)
Fixpoint check_signatures (validate : bool) (items : list PushObj) : result ErrorCode unit :=
  match items with
  | [] => Ok tt
  | it :: items =>
      _ ← (if is_acl (po_parsed it) || validate then verify_record_sig (po_bytes it) else Ok tt);
      check_signatures validate items
  end.

(** everything [push] checks before it writes *)
Definition push_checks (cfg : ServerConfig) (s : ServerDB) (device : bytes) (objs : list bytes)
    : result ErrorCode (list PushObj) :=
  if max_objects_per_push cfg <? len objs then Err EPayloadTooLarge
  else
    items ← traverse (check_object cfg (genesis_ed s) device) objs;
    _ ← check_signatures (validate_signatures cfg) items;
    _ ← write_accept s device items (negb (validate_signatures cfg));
    Ok items.

Definition push (cfg : ServerConfig) (device body : bytes) (objs : list bytes)
    (idem : option bytes) (now : Z) : SrvM (list N) :=
  items ← query (fun s => push_checks cfg s device objs);
  _ ← lift_result (match idem with
                   | Some k => if 128 <? len k then Err EMalformed else Ok tt
                   | None => Ok tt
                   end);
  let req_hash := sha256 (device ++ body) in
  res ← push_objects idem req_hash items now;
  mret (pr_server_seq res).

(** ** sync.rs: delta *)

(** [None]: [clamp] panics on an empty range *)
Definition delta (cfg : ServerConfig) (s1 s2 : ServerDB) (device : bytes) (cursor limit : option Z)
    (vault : option bytes) (now : Z) : option DeltaPage :=
  let cursor := Z.to_N (Z.max (default 0%Z cursor) 0) in
  let max := delta_max_page_size cfg in
  if (max <? 1)%Z then None
  else
    let limit := Z.to_N (Z.max 1 (Z.min (default (delta_page_size cfg) limit) max)) in
    Some (delta_page s1 s2 cursor limit (delta_max_page_bytes cfg) device now vault).

(** ** policy.rs: publishing grants *)

Fixpoint check_grants (objs : list bytes) : result ErrorCode (list PushObj) :=
  match objs with
  | [] => Ok []
  | b :: objs =>
      parsed ← parse_open b;
      if negb (bool_decide (p_tag parsed = Some TMembershipGrant)) then Err EMalformed
      else
        _ ← verify_record_sig b;
        rest ← check_grants objs;
        Ok (mkPushObj b parsed :: rest)
  end.

(** everything [grants_publish] checks before it writes: the vault, the manifest
    and the grants *)
Definition publish_checks (s : ServerDB) (account_id m_bytes : bytes) (grants : list bytes)
    (revoke_epoch new_epoch : option Z) : result ErrorCode (bytes * PushObj * list PushObj) :=
  m_parsed ← parse_open m_bytes;
  if negb (bool_decide (p_tag m_parsed = Some TMembershipManifest)) then Err EMalformed
  else
    _ ← verify_record_sig m_bytes;
    vault_id ← ok_or (p_vault_id m_parsed) EMalformed;
    parsed_epoch ← epoch_i64 (p_key_epoch m_parsed);
    let parsed_epoch := Z.of_N <$> parsed_epoch in
    epoch ← ok_or (match new_epoch with Some e => Some e | None => parsed_epoch end) EMalformed;
    if negb (bool_decide (parsed_epoch = Some epoch)) then Err EMalformed
    else if bool_decide (revoke_epoch = Some epoch) then Err EConflict
    else if negb (can_touch_vault s account_id vault_id) then Err EForbidden
    else
      role ← author_role s vault_id (Z.to_N epoch) (default [] (p_author_pubkey m_parsed));
      if negb (bool_decide (role = Some Admin)) then Err EForbidden
      else
        gs ← check_grants grants;
        Ok (vault_id, mkPushObj m_bytes m_parsed, gs).

Definition grants_publish (account_id m_bytes : bytes) (grants : list bytes)
    (revoke_epoch new_epoch : option Z) (now : Z) : SrvM (list N) :=
  checked ← query (fun s => publish_checks s account_id m_bytes grants revoke_epoch new_epoch);
  let '(vault_id, manifest, gs) := checked in
  store_grants_publish vault_id manifest gs revoke_epoch now.

(** ** policy.rs: reading grants *)

Definition put_u32 (out b : bytes) : result ErrorCode bytes :=
  if u32_max <? len b then Err EInternal else Ok (out ++ u32_be (len b) ++ b).

Definition manifest_object_bytes (vault_id : bytes) (key_epoch : N) (m : ManifestRow)
    : result ErrorCode bytes :=
  let out := [x03] in
  out ← put_u32 out vault_id;
  let out := out ++ u64_be key_epoch in
  out ← put_u32 out (sm_blob m);
  out ← put_u32 out (sm_signature m);
  put_u32 out (sm_author m).

Definition grant_object_bytes (vault_id member : bytes) (key_epoch : N) (g : GrantRow)
    : result ErrorCode bytes :=
  let out := [x04] in
  out ← put_u32 out vault_id;
  out ← put_u32 out member;
  let out := out ++ u64_be key_epoch in
  let out := out ++ [match sg_role g with 0 => x00 | 1 => x01 | _ => x02 end] in
  let out := out ++ i64_be (Z.max (default 0%Z (sg_not_after g)) 0) in
  out ← put_u32 out (sg_wrapped_vk g);
  out ← put_u32 out (sg_signature g);
  put_u32 out (sg_author g).

Record GrantsResp := mkGrantsResp {
  gr_manifest : bytes;
  gr_grants : list bytes;
  gr_key_epoch : N
}.

(** an epoch as the request has it; a negative one matches no row *)
Definition epoch_row {A} (e : Z) (f : N -> option A) : option A :=
  if (e <? 0)%Z then None else f (Z.to_N e).

Definition grants_get (s : ServerDB) (device vault_id : bytes) (key_epoch : option Z) (now : Z)
    : result ErrorCode GrantsResp :=
  let epoch_opt := match key_epoch with
                   | Some e => Some e
                   | None => Z.of_N <$> latest_manifest_epoch s vault_id
                   end in
  let is_admin := account_is_owner_by_ed s device in
  let active := default false (epoch_row (default 0%Z epoch_opt) (fun e =>
                  Some (member_has_active_grant s vault_id e device now))) in
  if negb (is_admin || active) then Err EForbidden
  else
    epoch ← ok_or epoch_opt ENotFound;
    manifest ← ok_or (epoch_row epoch (get_manifest s vault_id)) ENotFound;
    let epoch := Z.to_N epoch in
    m_bytes ← manifest_object_bytes vault_id epoch manifest;
    grants ← traverse (fun mg : bytes * GrantRow => grant_object_bytes vault_id mg.1 epoch mg.2)
               (list_grants s vault_id epoch true);
    Ok (mkGrantsResp m_bytes grants epoch).
End api.
