(* ===== verification/ServerInv.v ===== *)
(** * The server's log and its derived tables: invariant, growth, exactly-once

    Every write the server's tables of ServerStore.v receive is an event
    ([ServerEvent], run by [run_event]): the commit of a push, the publication of
    grants, the insertion of a claimed vault, the two bumps of the sequence counter, the expiry of
    idempotency records, and any change of the account directory. The theorems
    are about every interleaving of them ([run_events]). *)

From Stdlib Require Import Strings.Byte NArith ZArith Lia.
From stdpp Require Import base gmap sets list strings sorting countable.
From S2P Require Import Prelude Bytes CryptoPrims Crypto Storage StorageInv Membership SyncObject.
From S2P Require Import AuthPayloads ServerCodec ServerStore.

Local Open Scope N_scope.

(** ** Events *)

Inductive ServerEvent :=
| EvPush (idem : option bytes) (req_hash : bytes) (items : list PushObj) (now : Z)
| EvPublish (vault_id : bytes) (manifest : PushObj) (grants : list PushObj)
    (revoke_epoch : option Z) (now : Z)
| EvClaim (vault_id owner_pubkey : bytes) (owner_account space_id : option bytes)
    (access_policy : bytes) (space_wide_role : option Z) (manual_approve : bool) (now : Z)
| EvBumpTo (to : Z)
| EvBumpBy (by_ : Z)
| EvCleanup (idem_cutoff : Z)
| EvDirectory (owner : option bytes) (accts : gmap bytes SAccountRow)
    (members : gset (bytes * bytes)).

Definition run_event (ev : ServerEvent) (s : ServerDB) : ServerDB :=
  match ev with
  | EvPush idem h items now => (push_commit idem h items now s).2
  | EvPublish v m gs re now => (store_grants_publish v m gs re now s).2
  | EvClaim v o a sp pol r b now => (claim_insert v o a sp pol r b now s).2
  | EvBumpTo to => (bump_instance_seq_to to s).2
  | EvBumpBy by_ => (bump_instance_seq_by by_ s).2
  | EvCleanup cutoff => (cleanup_idempotency cutoff s).2
  | EvDirectory owner accts members => mkDB (next_seq s) owner accts members (objects s)
      (s_vaults s) (s_manifests s) (s_grants s) (idempotency s)
  end.

Definition run_events (evs : list ServerEvent) (s : ServerDB) : ServerDB :=
  foldl (fun s ev => run_event ev s) s evs.

(** the columns written with an object are those parsed from its bytes, as both
    handlers build them *)
Definition parsed_ok (it : PushObj) : Prop := parse_open (po_bytes it) = Ok (po_parsed it).
Definition event_ok (ev : ServerEvent) : Prop :=
  match ev with
  | EvPush _ _ items _ => Forall parsed_ok items
  | EvPublish _ m gs _ _ => Forall parsed_ok (m :: gs)
  | _ => True
  end.

Definition empty_db : ServerDB := mkDB 0 None ∅ ∅ ∅ ∅ ∅ ∅ ∅.

(** ** The invariant *)

(** the open columns of row [o] are those of [p] *)
Definition row_of (seq : N) (p : ParsedObject) (b : bytes) (now : Z) : ObjectRow :=
  mkObjectRow seq (p_tag_u8 p) b (p_vault_id p) (p_item_id p) (p_member_pubkey p) (p_obj_version p)
    (p_key_epoch p) (p_tombstone p) (p_item_type p) (p_sync_target p) (p_cache_policy p) (p_role p)
    (p_author_pubkey p) now.

(** object [p] is in the log at [seq] *)
Definition logged (s : ServerDB) (seq : N) (p : ParsedObject) : Prop :=
  exists b now, objects s !! seq = Some (row_of seq p b now) /\ parse_open b = Ok p.

Definition manifest_row_of (p : ParsedObject) (m : ManifestRow) : Prop :=
  sm_blob m = default [] (p_manifest_blob p) /\ sm_signature m = default [] (p_signature p) /\
  sm_author m = default [] (p_author_pubkey p).
Definition grant_row_of (p : ParsedObject) (g : GrantRow) : Prop :=
  sg_role g = default 0 (Byte.to_N <$> p_role p) /\ sg_wrapped_vk g = default [] (p_wrapped_vk p) /\
  sg_signature g = default [] (p_signature p) /\ sg_author g = default [] (p_author_pubkey p).

(** what the log says of a vault record, a manifest and a grant is in the tables *)
Definition derived (s : ServerDB) (seq : N) (p : ParsedObject) : Prop :=
  match p_tag p with
  | Some TVault => exists v row, p_vault_id p = Some v /\ s_vaults s !! v = Some row /\
      p_author_pubkey p = Some (sv_owner_pubkey row) /\
      (exists n, p_obj_version p = Some n /\ n <= sv_latest_version row) /\
      (exists e, p_key_epoch p = Some e /\ e <= sv_latest_epoch row)
  | Some TMembershipManifest => exists e m, p_key_epoch p = Some e /\
      s_manifests s !! (default [] (p_vault_id p), e) = Some m /\ sm_server_seq m <= seq
  | Some TMembershipGrant => exists e g, p_key_epoch p = Some e /\
      s_grants s !! (default [] (p_vault_id p), default [] (p_member_pubkey p), e) = Some g /\
      seq <= sg_server_seq g
  | _ => True
  end.

(** [hi] bounds the sequence numbers in use *)
Record log_inv (hi : N) (s : ServerDB) : Prop := {
  li_rows : forall seq o, objects s !! seq = Some o ->
    0 < seq <= hi /\ exists p, logged s seq p /\ o_server_seq o = seq;
  li_derived : forall seq p, logged s seq p -> derived s seq p;
  li_manifests : forall v e m, s_manifests s !! (v, e) = Some m ->
    exists p, logged s (sm_server_seq m) p /\ p_tag p = Some TMembershipManifest /\
      default [] (p_vault_id p) = v /\ p_key_epoch p = Some e /\ manifest_row_of p m;
  li_grants : forall v k e g, s_grants s !! (v, k, e) = Some g ->
    exists p, logged s (sg_server_seq g) p /\ p_tag p = Some TMembershipGrant /\
      default [] (p_vault_id p) = v /\ default [] (p_member_pubkey p) = k /\
      p_key_epoch p = Some e /\ grant_row_of p g;
  li_vaults : forall v row, s_vaults s !! v = Some row ->
    (exists seq p, logged s seq p /\ p_tag p = Some TVault /\ p_vault_id p = Some v /\
       p_obj_version p = Some (sv_latest_version row)) \/
    sv_latest_version row = 0 /\ sv_latest_epoch row = 0 /\
    forall seq p, logged s seq p -> p_tag p = Some TVault -> p_vault_id p <> Some v
}.

Definition server_inv (s : ServerDB) : Prop :=
  log_inv (next_seq s) s /\
  map_Forall (fun _ r => Forall (fun seq => 0 < seq <= next_seq s) (id_response r)) (idempotency s).

(** ** Growth *)

(** nothing recorded is lost: an object stays, or it is an account state that a
    newer one of the same author replaced; owners never change, versions and
    epochs only rise; the first manifest of an epoch stays; a revocation stays *)
Record db_grows (s s' : ServerDB) : Prop := {
  dg_next : next_seq s <= next_seq s';
  dg_objects : forall k o, objects s !! k = Some o -> objects s' !! k = Some o \/
    o_tag o = x07 /\ exists k' o' v v', objects s' !! k' = Some o' /\ o_tag o' = x07 /\
      o_author_pubkey o' = o_author_pubkey o /\ o_obj_version o = Some v /\
      o_obj_version o' = Some v' /\ v < v';
  dg_vaults : forall k r, s_vaults s !! k = Some r -> exists r', s_vaults s' !! k = Some r' /\
    sv_owner_pubkey r' = sv_owner_pubkey r /\ sv_owner_account_id r' = sv_owner_account_id r /\
    sv_space_id r' = sv_space_id r /\ sv_latest_version r <= sv_latest_version r' /\
    sv_latest_epoch r <= sv_latest_epoch r';
  dg_manifests : s_manifests s ⊆ s_manifests s';
  dg_grants : forall k g, s_grants s !! k = Some g -> exists g', s_grants s' !! k = Some g' /\
    (sg_revoked g = true -> sg_revoked g' = true)
}.

#[global] Instance db_grows_preorder : PreOrder db_grows.
Proof.
  split.
  - intros s. split; [lia|eauto|naive_solver lia|done|eauto].
  - intros s1 s2 s3 [H1 H2 H3 H4 H5] [K1 K2 K3 K4 K5]. split; [lia| | |by etrans|].
    + intros k o Ho. destruct (H2 _ _ Ho) as [Ho'|(Ht & k' & o' & v & v' & Ho' & Ht' & Ha & Hv & Hv' & Hlt)];
        [by apply K2|right; split; [done|]].
      destruct (K2 _ _ Ho') as [Ho''|(_ & k2 & o2 & w & w' & ? & ? & ? & ? & ? & ?)];
        [by exists k', o', v, v'|].
      exists k2, o2, v, w'. split_and!; [done|done|congruence|done|done|].
      assert (w = v') by congruence. lia.
    + intros k r Hr. destruct (H3 _ _ Hr) as (r' & Hr' & ? & ? & ? & ? & ?).
      destruct (K3 _ _ Hr') as (r2 & Hr2 & ? & ? & ? & ? & ?).
      exists r2. split_and!; [done|congruence|congruence|congruence|lia|lia].
    + intros k g Hg. destruct (H5 _ _ Hg) as (g' & Hg' & ?).
      destruct (K5 _ _ Hg') as (g2 & Hg2 & ?). eauto.
Qed.

(** new objects lie above every number given out before *)
Definition fresh_above (s s' : ServerDB) : Prop :=
  forall k o, objects s' !! k = Some o -> objects s !! k = Some o \/ next_seq s < k.

(** ** Appending one object *)

Definition vault_update (p : ParsedObject) (s s' : ServerDB) : Prop :=
  exists v a n e row', p_vault_id p = Some v /\ p_author_pubkey p = Some a /\
    p_obj_version p = Some n /\ p_key_epoch p = Some e /\
    s_vaults s' = <[v := row']> (s_vaults s) /\ sv_owner_pubkey row' = a /\
    match s_vaults s !! v with
    | None => sv_latest_version row' = n /\ sv_latest_epoch row' = e
    | Some row => sv_owner_pubkey row = a /\ sv_latest_version row' = N.max (sv_latest_version row) n /\
        sv_latest_epoch row' = N.max (sv_latest_epoch row) e /\
        sv_owner_account_id row' = sv_owner_account_id row /\ sv_space_id row' = sv_space_id row
    end.

Definition manifest_update (seq : N) (p : ParsedObject) (s s' : ServerDB) : Prop :=
  exists e m, p_key_epoch p = Some e /\ sm_server_seq m = seq /\ manifest_row_of p m /\
    s_manifests s' = match s_manifests s !! (default [] (p_vault_id p), e) with
                     | Some _ => s_manifests s
                     | None => <[(default [] (p_vault_id p), e) := m]> (s_manifests s)
                     end.

Definition grant_update (seq : N) (p : ParsedObject) (s s' : ServerDB) : Prop :=
  exists e g, p_key_epoch p = Some e /\ sg_server_seq g = seq /\ grant_row_of p g /\
    s_grants s' = <[(default [] (p_vault_id p), default [] (p_member_pubkey p), e) := g]> (s_grants s) /\
    sg_revoked g = default false (sg_revoked <$>
      s_grants s !! (default [] (p_vault_id p), default [] (p_member_pubkey p), e)).

(** row [o] is an account state the object [p] replaces *)
Definition superseded (p : ParsedObject) (o : ObjectRow) : Prop :=
  p_tag p = Some TAccountState /\ o_tag o = x07 /\ o_author_pubkey o = p_author_pubkey p /\
  exists v v', o_obj_version o = Some v /\ p_obj_version p = Some v' /\ v < v'.

Record appended (seq : N) (p : ParsedObject) (b : bytes) (now : Z) (s s' : ServerDB) : Prop := {
  ap_fresh : objects s !! seq = None;
  ap_new : objects s' !! seq = Some (row_of seq p b now);
  ap_back : forall k o, objects s' !! k = Some o -> k = seq \/ objects s !! k = Some o;
  ap_kept : forall k o, objects s !! k = Some o -> objects s' !! k = Some o \/ superseded p o;
  ap_vaults : if bool_decide (p_tag p = Some TVault) then vault_update p s s'
              else s_vaults s' = s_vaults s;
  ap_manifests : if bool_decide (p_tag p = Some TMembershipManifest) then manifest_update seq p s s'
                 else s_manifests s' = s_manifests s;
  ap_grants : if bool_decide (p_tag p = Some TMembershipGrant) then grant_update seq p s s'
              else s_grants s' = s_grants s;
  ap_next : next_seq s' = next_seq s;
  ap_idem : idempotency s' = idempotency s
}.

Lemma tag_x07 b : tag_from_u8 b = Some TAccountState <-> b = x07.
Proof. split; [by destruct b|by intros ->]. Qed.

Lemma opt_u64_Ok o x : opt_u64 o = Ok x -> x = o.
Proof. unfold opt_u64. repeat case_match; naive_solver. Qed.
Lemma req_u64_Ok o x : req_u64 o = Ok x -> o = Some x.
Proof. unfold req_u64. intros (v & Hv%ok_or_Ok & H)%bind_Ok. case_match; naive_solver. Qed.

Lemma insert_object_Ok seq p b now s u s' :
  insert_object seq p b now s = (Ok u, s') ->
  objects s !! seq = None /\ s' = set_objects (<[seq := row_of seq p b now]>) s.
Proof.
  unfold insert_object. intros (v & s1 & [= Hv <-] & H)%M_bind_Ok.
  apply M_bind_Ok in H as (e & s2 & [= He <-] & H). apply opt_u64_Ok in Hv as ->.
  apply opt_u64_Ok in He as ->. apply M_bind_Ok in H as (? & ? & [= <- <-] & H).
  destruct (objects s !! seq); [done|]. by injection H as _ <-.
Qed.

Lemma materialize_vault_Ok p now s u s' :
  materialize_vault p now s = (Ok u, s') ->
  vault_update p s s' /\ exists f, s' = set_s_vaults f s.
Proof.
  unfold materialize_vault. intros (v & s1 & [= Hv%ok_or_Ok <-] & H)%M_bind_Ok.
  apply M_bind_Ok in H as (a & s2 & [= Ha%ok_or_Ok <-] & H).
  apply M_bind_Ok in H as (n & s3 & [= Hn%req_u64_Ok <-] & H).
  apply M_bind_Ok in H as (e & s4 & [= He%req_u64_Ok <-] & H).
  apply M_bind_Ok in H as (? & ? & [= <- <-] & H). unfold vault_update.
  destruct (s_vaults s !! v) as [row|] eqn:Hrow.
  - destruct (bytes_eqb (sv_owner_pubkey row) a) eqn:Hb; [|done]. apply bytes_eqb_true in Hb.
    simpl in H. destruct (sv_latest_version row <? n); injection H as _ <-;
      (split; [|by eexists]); eexists v, a, n, e, _; rewrite Hrow; split_and!; done.
  - injection H as _ <-. split; [|by eexists]. eexists v, a, n, e, _. rewrite Hrow. split_and!; done.
Qed.

Lemma materialize_manifest_Ok seq p now s u s' :
  materialize_manifest seq p now s = (Ok u, s') ->
  manifest_update seq p s s' /\ exists f, s' = set_s_manifests f s.
Proof.
  unfold materialize_manifest. intros (e & s1 & [= He%req_u64_Ok <-] & [= _ <-])%M_bind_Ok.
  split; [|by eexists]. eexists e, (mkManifestRow _ _ _ seq now). by repeat split.
Qed.

Lemma materialize_grant_Ok seq p now s u s' :
  materialize_grant seq p now s = (Ok u, s') ->
  grant_update seq p s s' /\ exists f, s' = set_s_grants f s.
Proof.
  unfold materialize_grant. intros (e & s1 & [= He%req_u64_Ok <-] & [= _ <-])%M_bind_Ok.
  split; [|by eexists]. eexists e, (mkGrantRow _ _ _ _ _ _ seq now). by repeat split.
Qed.

Lemma compact_account_state_Ok p s u s' :
  compact_account_state p s = (Ok u, s') -> exists f, s' = set_objects f s /\
    forall k o, (f (objects s) !! k = Some o -> objects s !! k = Some o) /\
      (objects s !! k = Some o -> f (objects s) !! k = Some o \/
        o_tag o = x07 /\ o_author_pubkey o = p_author_pubkey p /\
        exists v v', o_obj_version o = Some v /\ p_obj_version p = Some v' /\ v < v').
Proof.
  unfold compact_account_state. destruct (p_author_pubkey p) as [a|].
  2:{ intros [= _ <-]. exists id. destruct s. split; [done|]. intros. auto. }
  intros (v & s1 & [= Hv%opt_u64_Ok <-] & [= _ <-])%M_bind_Ok. subst v.
  eexists. split; [reflexivity|]. intros k o. split; [by intros [? _]%lookup_delete_where|].
  intros Ho. match goal with |- delete_where ?p ?m !! k = _ \/ _ => destruct (p k o) eqn:Hp end.
  - right. apply andb_true_iff in Hp as [[?%bool_decide_eq_true ?%bool_decide_eq_true]%andb_true_iff Hp].
    repeat case_match; try done. apply N.ltb_lt in Hp. naive_solver.
  - left. by apply lookup_delete_where.
Qed.

Lemma append_one_Ok seq p b now s u s1 u' s2 :
  insert_object seq p b now s = (Ok u, s1) -> materialize seq p now s1 = (Ok u', s2) ->
  appended seq p b now s s2.
Proof.
  intros [Hnone ->]%insert_object_Ok Hm.
  assert (Hb : forall k o, <[seq := row_of seq p b now]> (objects s) !! k = Some o ->
            k = seq \/ objects s !! k = Some o).
  { intros k o. rewrite lookup_insert_Some. naive_solver. }
  assert (Hk : forall k o, objects s !! k = Some o ->
            <[seq := row_of seq p b now]> (objects s) !! k = Some o).
  { intros k o Ho. rewrite lookup_insert_ne; [done|congruence]. }
  unfold materialize in Hm. destruct (p_tag p) as [[]|] eqn:Ht.
  3: apply materialize_manifest_Ok in Hm as [Hm [f ->]].
  3: split; rewrite ?Ht; simpl; try done; [by apply lookup_insert_eq|eauto].
  3: apply materialize_grant_Ok in Hm as [Hm [f ->]].
  3: split; rewrite ?Ht; simpl; try done; [by apply lookup_insert_eq|eauto].
  1: apply materialize_vault_Ok in Hm as [Hm [f ->]].
  1: split; rewrite ?Ht; simpl; try done; [by apply lookup_insert_eq|eauto].
  1-3,5: injection Hm as _ <-;
    split; rewrite ?Ht; simpl; try done; [by apply lookup_insert_eq|eauto].
  assert (exists f, s2 = set_objects f (set_objects (<[seq := row_of seq p b now]>) s) /\
    forall k o, (f (<[seq := row_of seq p b now]> (objects s)) !! k = Some o ->
                 <[seq := row_of seq p b now]> (objects s) !! k = Some o) /\
      (<[seq := row_of seq p b now]> (objects s) !! k = Some o ->
       f (<[seq := row_of seq p b now]> (objects s)) !! k = Some o \/
        o_tag o = x07 /\ o_author_pubkey o = p_author_pubkey p /\
        exists v v', o_obj_version o = Some v /\ p_obj_version p = Some v' /\ v < v'))
    as (f & -> & Hf).
  { destruct (p_obj_version p) as [w|] eqn:Hw.
    - apply compact_account_state_Ok in Hm. by rewrite Hw in Hm.
    - injection Hm as _ <-. exists id. split; [by destruct s|]. auto. }
  split; rewrite ?Ht; simpl; try done.
  - destruct (Hf seq (row_of seq p b now)) as [_ H].
    destruct (H (lookup_insert_eq _ _ _)) as [?|(_ & _ & v & v' & E & E' & ?)]; [done|].
    simpl in E. assert (v = v') by congruence. lia.
  - intros k o Ho%Hf. auto.
  - intros k o Ho%Hk%Hf. unfold superseded. rewrite Ht. naive_solver.
Qed.

Lemma append_one_grows seq p b now s s' : appended seq p b now s s' -> db_grows s s'.
Proof.
  intros [Hf Hnew Hb Hk Hv Hm Hg Hn Hi]. split.
  - lia.
  - intros k o Ho. destruct (Hk _ _ Ho) as [?|(Ht & ? & ? & v & v' & ? & ? & ?)]; [by left|right].
    split; [done|]. exists seq, (row_of seq p b now), v, v'. apply tag_x07 in Ht. naive_solver.
  - clear Hm Hg. intros k r Hr. case_bool_decide; [|rewrite Hv; naive_solver lia].
    destruct Hv as (v & a & n & e & row' & _ & _ & _ & _ & -> & Ho & Hrow).
    destruct (decide (k = v)) as [->|]; [|rewrite lookup_insert_ne by done; naive_solver lia].
    rewrite lookup_insert_eq. rewrite Hr in Hrow. exists row'. naive_solver lia.
  - clear Hv Hg. case_bool_decide; [|by rewrite Hm]. destruct Hm as (e & m & _ & _ & _ & ->).
    case_match eqn:Hx; [done|]. by apply insert_subseteq.
  - clear Hv Hm. intros k g Hk'. case_bool_decide; [|rewrite Hg; eauto].
    destruct Hg as (e & g' & _ & _ & _ & -> & Hr). rewrite lookup_insert. case_decide as Hd; [|eauto].
    subst k. rewrite Hk' in Hr. simpl in Hr. exists g'. split; [done|congruence].
Qed.

Section append_inv.
Context (seq hi : N) (p : ParsedObject) (b : bytes) (now : Z) (s s' : ServerDB).
Context (Hparse : parse_open b = Ok p) (Happ : appended seq p b now s s').
Context (Hinv : log_inv hi s) (Hhi : hi < seq).

Lemma appended_logged : logged s' seq p.
Proof. exists b, now. by split; [apply Happ|]. Qed.

Lemma logged_back k q : logged s' k q -> k = seq /\ q = p \/ logged s k q /\ k <= hi.
Proof.
  intros (b' & now' & Ho & Hp). destruct (decide (k = seq)) as [->|Hk].
  - left. split; [done|]. rewrite (ap_new _ _ _ _ _ _ Happ) in Ho.
    injection Ho as _ -> _ _ _ _ _ _ _ _ _ _ _ _. congruence.
  - right. destruct (ap_back _ _ _ _ _ _ Happ _ _ Ho) as [?|Ho']; [done|].
    split; [by exists b', now'|]. apply (li_rows _ _ Hinv _ _ Ho').
Qed.

Lemma logged_kept k q : p_tag q <> Some TAccountState -> logged s k q -> logged s' k q.
Proof.
  intros Ht (b' & now' & Ho & Hp).
  destruct (ap_kept _ _ _ _ _ _ Happ _ _ Ho) as [?|(_ & Hx & _)]; [by exists b', now'|].
  destruct Ht. by apply tag_x07.
Qed.

Lemma derived_new : derived s' seq p.
Proof.
  destruct Happ as [_ _ _ _ Hv Hm Hg _ _]. unfold derived.
  destruct (p_tag p) as [[]|]; try done; clear Hparse Happ.
  - rewrite bool_decide_true in Hv by done. destruct Hv as (v & a & n & e & row' & Hv & Ha & Hn & He & Hs & Ho & Hrow).
    exists v, row'. rewrite Hs, lookup_insert_eq, Ho. split_and!; [done..|exists n|exists e].
    all: clear Hm Hg; destruct (s_vaults s !! v); naive_solver lia.
  - rewrite bool_decide_true in Hm by done. destruct Hm as (e & m & He & Hsm & _ & Hs). exists e. rewrite Hs.
    destruct (s_manifests s !! _) as [m'|] eqn:Hm'.
    + exists m'. split_and!; [done..|]. destruct (li_manifests _ _ Hinv _ _ _ Hm') as (q & Hq & _).
      destruct Hq as (? & ? & Hq & _). apply (li_rows _ _ Hinv) in Hq. lia.
    + exists m. rewrite lookup_insert_eq, Hsm. done.
  - rewrite bool_decide_true in Hg by done. destruct Hg as (e & g & He & Hsg & _ & Hs & _). exists e, g. rewrite Hs, lookup_insert_eq, Hsg. done.
Qed.

Lemma derived_kept k q : k <= hi -> derived s k q -> derived s' k q.
Proof.
  intros Hk. pose proof (append_one_grows _ _ _ _ _ _ Happ) as Hgrow. unfold derived.
  destruct (p_tag q) as [[]|]; try done.
  - intros (v & row & ? & Hrow & ? & (n & ? & ?) & (e & ? & ?)).
    destruct (dg_vaults _ _ Hgrow _ _ Hrow) as (row' & ? & ? & ? & ? & ? & ?).
    exists v, row'. split_and!; [done..|congruence| |]; eexists; (split; [done|lia]).
  - intros (e & m & ? & Hm & ?). exists e, m. split_and!; [done| |done].
    by eapply lookup_weaken; [|apply Hgrow].
  - intros (e & g & ? & Hg & ?). pose proof (ap_grants _ _ _ _ _ _ Happ) as Hup.
    case_bool_decide; [|rewrite Hup; eauto].
    destruct Hup as (e' & g' & _ & Hsg & _ & -> & _). exists e. rewrite lookup_insert.
    case_decide; [|eauto]. exists g'. split_and!; [done..|lia].
Qed.

Lemma append_one_inv : log_inv seq s'.
Proof.
  pose proof appended_logged as Hnew. destruct Happ as [_ Hrow Hb _ Hv Hm Hg _ _]. split.
  - intros k o Ho. destruct (Hb _ _ Ho) as [->|Ho'].
    + split; [lia|]. exists p. split; [done|]. rewrite Hrow in Ho. by injection Ho as <-.
    + destruct (li_rows _ _ Hinv _ _ Ho') as (? & q & (b' & now' & Hq & ?) & ?). split; [lia|].
      exists q. split; [|done]. exists b', now'. split; [congruence|done].
  - intros k q [[-> ->]|[Hq Hk]]%logged_back; [apply derived_new|].
    apply derived_kept; [done|]. by apply (li_derived _ _ Hinv).
  - intros v e m Hx. assert (Hold : s_manifests s !! (v, e) = Some m -> exists q,
      logged s' (sm_server_seq m) q /\ p_tag q = Some TMembershipManifest /\
      default [] (p_vault_id q) = v /\ p_key_epoch q = Some e /\ manifest_row_of q m).
    { intros (q & Hq & Ht & ?)%(li_manifests _ _ Hinv). exists q. split; [|done].
      apply logged_kept; congruence. }
    clear Hv Hg. case_bool_decide; [|rewrite Hm in Hx; auto].
    destruct Hm as (e' & m' & He & Hs & Hr & Hm). rewrite Hm in Hx. case_match; [auto|].
    apply lookup_insert_Some in Hx as [[[= <- <-] <-]|[_ Hx]]; [|auto].
    exists p. by rewrite Hs.
  - intros v k e g Hx. assert (Hold : s_grants s !! (v, k, e) = Some g -> exists q,
      logged s' (sg_server_seq g) q /\ p_tag q = Some TMembershipGrant /\
      default [] (p_vault_id q) = v /\ default [] (p_member_pubkey q) = k /\
      p_key_epoch q = Some e /\ grant_row_of q g).
    { intros (q & Hq & Ht & ?)%(li_grants _ _ Hinv). exists q. split; [|done].
      apply logged_kept; congruence. }
    clear Hv Hm. case_bool_decide; [|rewrite Hg in Hx; auto].
    destruct Hg as (e' & g' & He & Hs & Hr & Hg & _). rewrite Hg in Hx.
    apply lookup_insert_Some in Hx as [[[= <- <- <-] <-]|[_ Hx]]; [|auto].
    exists p. by rewrite Hs.
  - intros v row Hx.
    assert (Hold : forall row0 k q, p_obj_version q = Some (sv_latest_version row0) -> p_tag q = Some TVault -> p_vault_id q = Some v ->
      logged s k q -> exists k q, logged s' k q /\ p_tag q = Some TVault /\ p_vault_id q = Some v /\ p_obj_version q = Some (sv_latest_version row0)).
    { intros row0 k q ? Ht ? Hq. exists k, q. split; [|done]. apply logged_kept; congruence. }
    clear Hm Hg. case_bool_decide as Ht.
    2:{ rewrite Hv in Hx. destruct (li_vaults _ _ Hinv _ _ Hx) as [(k & q & Hq & ? & ? & ?)|(? & ? & Hno)]; [left; by eapply Hold|right].
        split_and!; [done..|]. intros k q [[-> ->]|[Hq _]]%logged_back; [done|by eapply Hno]. }
    destruct Hv as (v' & a & n & e & row' & Hpv & ? & Hn & ? & Hs & _ & Hup). rewrite Hs in Hx.
    apply lookup_insert_Some in Hx as [[<- <-]|[Hne Hx]].
    + left. destruct (s_vaults s !! v') as [row0|] eqn:Hr0; [|exists seq, p; naive_solver].
      destruct Hup as (_ & Hmax & _). rewrite Hmax.
      destruct (N.max_spec (sv_latest_version row0) n) as [[_ ->]|[Hle ->]]; [by exists seq, p|].
      destruct (li_vaults _ _ Hinv _ _ Hr0) as [(k & q & Hq & ? & ? & ?)|(Hzero & _)]; [by eapply Hold|].
      exists seq, p. split_and!; [done..|]. rewrite Hn. f_equal. lia.
    + destruct (li_vaults _ _ Hinv _ _ Hx) as [(k & q & Hq & ? & ? & ?)|(? & ? & Hno)]; [left; by eapply Hold|right].
      split_and!; [done..|]. intros k q [[-> ->]|[Hq _]]%logged_back; [congruence|by eapply Hno].
Qed.
End append_inv.

(** ** Appending a batch *)

(** [lo], [lo + 1], ..., [n] numbers in all *)
Fixpoint seqs_from (lo : N) (n : nat) : list N :=
  match n with O => [] | S n => lo :: seqs_from (lo + 1) n end.

Lemma seqs_from_bounds lo n : Forall (fun k => lo <= k < lo + N.of_nat n) (seqs_from lo n).
Proof.
  revert lo. induction n as [|n IH]; intros lo; simpl; [constructor|].
  constructor; [lia|]. eapply Forall_impl; [|apply IH]. simpl. lia.
Qed.
Lemma seqs_from_sorted lo n : StronglySorted N.lt (seqs_from lo n).
Proof.
  revert lo. induction n as [|n IH]; intros lo; simpl; [constructor|].
  constructor; [apply IH|]. eapply Forall_impl; [|apply seqs_from_bounds]. simpl. lia.
Qed.
Lemma length_seqs_from lo n : length (seqs_from lo n) = n.
Proof. revert lo. by induction n as [|n IH]; intros lo; simpl; rewrite ?IH. Qed.

(** object [it] is in the log at [seq], byte for byte *)
Definition stored (s : ServerDB) (seq : N) (it : PushObj) : Prop :=
  exists now, objects s !! seq = Some (row_of seq (po_parsed it) (po_bytes it) now).

(** it still is, or it is an account state and a newer one of its author is *)
Definition kept (s : ServerDB) (seq : N) (it : PushObj) : Prop :=
  stored s seq it \/
  p_tag (po_parsed it) = Some TAccountState /\ exists k o v v', objects s !! k = Some o /\ o_tag o = x07 /\
    o_author_pubkey o = p_author_pubkey (po_parsed it) /\ p_obj_version (po_parsed it) = Some v /\ o_obj_version o = Some v' /\ v < v'.

Record batch_appended (hi : N) (items : list PushObj) (s s' : ServerDB) : Prop := {
  ba_inv : log_inv (hi + N.of_nat (length items)) s';
  ba_grows : db_grows s s';
  ba_next : next_seq s' = next_seq s;
  ba_idem : idempotency s' = idempotency s;
  ba_back : forall k o, objects s' !! k = Some o -> objects s !! k = Some o \/
    hi < k /\ exists it, it ∈ items /\ o_bytes o = po_bytes it /\ o_tag o = p_tag_u8 (po_parsed it);
  ba_kept : Forall2 (kept s') (seqs_from (hi + 1) (length items)) items
}.

Lemma stored_grows s s' seq it :
  db_grows s s' -> p_tag (po_parsed it) <> Some TAccountState -> stored s seq it -> stored s' seq it.
Proof.
  intros Hg Ht (now & Ho). destruct (dg_objects _ _ Hg _ _ Ho) as [?|[Hx _]]; [by exists now|].
  destruct Ht. by apply tag_x07.
Qed.

Lemma kept_grows s s' seq it : db_grows s s' -> kept s seq it -> kept s' seq it.
Proof.
  intros Hg [(now & Ho)|(Ht & k & o & v & v' & Ho & Htag & Ha & Hv & Hv' & Hlt)].
  - destruct (dg_objects _ _ Hg _ _ Ho) as [?|(Htag & k & o & v & v' & ? & ? & ? & ? & ? & ?)]; [left; by exists now|right].
    split; [by apply tag_x07|]. by exists k, o, v, v'.
  - right. split; [done|]. destruct (dg_objects _ _ Hg _ _ Ho) as [?|(_ & k2 & o2 & w & w' & ? & ? & ? & ? & ? & ?)]; [by exists k, o, v, v'|].
    exists k2, o2, v, w'. split_and!; [done|done|congruence|done|done|]. assert (w = v') by congruence. lia.
Qed.

Lemma append_objects_Ok items hi now s seqs s' :
  Forall parsed_ok items -> log_inv hi s -> append_objects (hi + 1) items now s = (Ok seqs, s') ->
  seqs = seqs_from (hi + 1) (length items) /\ batch_appended hi items s s'.
Proof.
  revert hi s seqs. induction items as [|it items IH]; intros hi s seqs Hp Hinv H; simpl in H.
  - injection H as <- <-. split; [done|]. split; simpl; [by rewrite N.add_0_r|done..|by left|constructor].
  - inversion Hp as [|? ? Hp1 Hp2]; subst. clear Hp.
    apply M_bind_Ok in H as (u & s1 & H1 & H). apply M_bind_Ok in H as (u' & s2 & H2 & H).
    apply M_bind_Ok in H as (seqs' & s3 & H3 & [= <- <-]).
    pose proof (append_one_Ok _ _ _ _ _ _ _ _ _ H1 H2) as Ha.
    pose proof (append_one_inv _ _ _ _ _ _ _ Hp1 Ha Hinv ltac:(lia)) as Hinv2.
    destruct (IH _ _ _ Hp2 Hinv2 H3) as (-> & [Ki Kg Kn Kd Kb Ks]). split; [done|].
    pose proof (append_one_grows _ _ _ _ _ _ Ha) as Hg. split.
    + simpl. by replace (hi + N.of_nat (S (length items))) with (hi + 1 + N.of_nat (length items)) by lia.
    + by etrans.
    + rewrite Kn. apply Ha.
    + rewrite Kd. apply Ha.
    + intros k o [Ho|(? & it' & ? & ?)]%Kb; [|right; split; [lia|]; exists it'; split; [by right|done]].
      destruct (ap_back _ _ _ _ _ _ Ha _ _ Ho) as [->|?]; [right; split; [lia|]|by left].
      exists it. split; [by left|]. rewrite (ap_new _ _ _ _ _ _ Ha) in Ho. by injection Ho as <-.
    + constructor; [|exact Ks]. eapply kept_grows; [done|]. left. exists now. apply Ha.
Qed.

Lemma log_inv_hi hi hi' s : hi <= hi' -> log_inv hi s -> log_inv hi' s.
Proof.
  intros Hle [H1 H2 H3 H4 H5]. split; [|done..].
  intros seq o Ho. destruct (H1 _ _ Ho). split; [lia|done].
Qed.

(** the tables the invariant is about *)
Definition same_log (s s' : ServerDB) : Prop :=
  objects s' = objects s /\ s_vaults s' = s_vaults s /\ s_manifests s' = s_manifests s /\
  s_grants s' = s_grants s.

Lemma log_inv_same hi s s' : same_log s s' -> log_inv hi s -> log_inv hi s'.
Proof.
  intros (E1 & E2 & E3 & E4) [H1 H2 H3 H4 H5].
  split; unfold derived, logged in *; rewrite ?E1, ?E2, ?E3, ?E4; done.
Qed.

Lemma same_log_grows s s' : same_log s s' -> next_seq s <= next_seq s' -> db_grows s s'.
Proof.
  intros (E1 & E2 & E3 & E4) Hn. split; rewrite ?E1, ?E2, ?E3, ?E4; [done|eauto| |done|eauto].
  intros k r Hr. exists r. split_and!; (done || lia).
Qed.


(** ** The operations *)

(** what every operation does to a store whose log is in order *)
Definition advances (s s' : ServerDB) : Prop :=
  log_inv (next_seq s) s -> log_inv (next_seq s') s' /\ db_grows s s' /\ fresh_above s s'.

#[global] Instance advances_preorder : PreOrder advances.
Proof.
  split.
  - intros s H. split_and!; [done|done|]. intros k o Ho. by left.
  - intros s1 s2 s3 H1 H2 Hi. destruct (H1 Hi) as (Hi2 & Hg & Hf).
    destruct (H2 Hi2) as (Hi3 & Hg' & Hf'). split_and!; [done|by etrans|].
    intros k o [Ho|?]%Hf'; [by apply Hf|right]. pose proof (dg_next _ _ Hg). lia.
Qed.

Lemma same_log_advances s s' : same_log s s' -> next_seq s <= next_seq s' -> advances s s'.
Proof.
  intros Hs Hn Hi. split_and!; [|by apply same_log_grows|].
  - eapply log_inv_same; [done|]. by eapply log_inv_hi.
  - intros k o Ho. left. by destruct Hs as [<- _].
Qed.

(** [n] numbers allocated, then [n] objects appended under them *)
Record committed (items : list PushObj) (seqs : list N) (s s' : ServerDB) : Prop := {
  cm_seqs : seqs = seqs_from (next_seq s + 1) (length items);
  cm_next : next_seq s' = next_seq s + N.of_nat (length items);
  cm_inv : log_inv (next_seq s') s';
  cm_grows : db_grows s s';
  cm_new : forall k o, objects s' !! k = Some o -> objects s !! k = Some o \/
    next_seq s < k /\ exists it, it ∈ items /\ o_bytes o = po_bytes it /\ o_tag o = p_tag_u8 (po_parsed it);
  cm_idem : idempotency s' = idempotency s;
  cm_kept : Forall2 (kept s') seqs items
}.

Lemma cm_stored items seqs s s' : committed items seqs s s' ->
  Forall2 (fun seq it => p_tag (po_parsed it) <> Some TAccountState -> stored s' seq it) seqs items.
Proof. intros Hc. eapply Forall2_impl; [|apply (cm_kept _ _ _ _ Hc)]. by intros seq it [?|[? _]] ?. Qed.

Lemma alloc_append items now s base s1 seqs s2 :
  Forall parsed_ok items -> log_inv (next_seq s) s ->
  alloc_seqs (N.of_nat (length items)) s = (Ok base, s1) ->
  append_objects (base + 1) items now s1 = (Ok seqs, s2) -> committed items seqs s s2.
Proof.
  intros Hp Hi Ha H. unfold alloc_seqs in Ha.
  apply M_bind_Ok in Ha as (u & s0 & [= _ <-] & Ha).
  apply M_bind_Ok in Ha as (s0 & ? & [= <- <-] & [= Hb <-]). simpl in Hb.
  replace base with (next_seq s) in * by lia. clear Hb base.
  assert (Hsame : same_log s (set_next_seq (fun next => next + N.of_nat (length items)) s)) by done.
  destruct (append_objects_Ok _ _ _ _ _ _ Hp (log_inv_same _ _ _ Hsame Hi) H) as (-> & [Ki Kg Kn Kd Kb Ks]).
  simpl in Kn. split; [done|done|by rewrite Kn| |exact Kb|done|done].
  etrans; [|exact Kg]. apply same_log_grows; [done|simpl; lia].
Qed.

Lemma committed_advances items seqs s s' : committed items seqs s s' -> advances s s'.
Proof.
  intros [? ? ? ? Hnew ? ?] _. split_and!; [done..|].
  intros k o Ho. destruct (Hnew _ _ Ho) as [?|[? _]]; auto.
Qed.

Lemma count_i64_Ok n x : count_i64 n = Ok x -> x = N.of_nat n.
Proof. unfold count_i64. case_match; naive_solver. Qed.

Lemma push_tx_Ok idem h items now s r s' :
  Forall parsed_ok items -> log_inv (next_seq s) s -> push_tx idem h items now s = (Ok (Some r), s') ->
  exists s1, committed items (pr_server_seq r) s s1 /\ pr_replayed r = false /\
    match idem with
    | None => s' = s1
    | Some k => idempotency s !! k = None /\
        s' = set_idempotency (<[k := mkIdem h (pr_server_seq r) now]>) s1
    end.
Proof.
  intros Hp Hi H. unfold push_tx in H. apply M_bind_Ok in H as (n & ? & [= Hn%count_i64_Ok <-] & H).
  subst n. apply M_bind_Ok in H as (base & s1 & Ha & H). apply M_bind_Ok in H as (seqs & s2 & Hs & H).
  pose proof (alloc_append _ _ _ _ _ _ _ Hp Hi Ha Hs) as Hc. destruct idem as [k|].
  - apply M_bind_Ok in H as (? & ? & [= <- <-] & H).
    destruct (idempotency s2 !! k) eqn:Hk; [done|].
    apply M_bind_Ok in H as (? & ? & [= _ <-] & [= <- <-]).
    rewrite (cm_idem _ _ _ _ Hc) in Hk. by exists s2.
  - injection H as <- <-. by exists s2.
Qed.

Lemma push_tx_taken idem h items now s s' :
  push_tx idem h items now s = (Ok None, s') -> exists k, idem = Some k.
Proof.
  unfold push_tx. intros (n & ? & _ & H)%M_bind_Ok. apply M_bind_Ok in H as (? & ? & _ & H).
  apply M_bind_Ok in H as (? & ? & _ & H). destruct idem as [k|]; [by exists k|done].
Qed.

Lemma push_commit_advances idem h items now :
  Forall parsed_ok items -> preserves advances (push_commit idem h items now).
Proof.
  intros Hp s r s' H Hi. unfold push_commit in H.
  destruct (push_tx idem h items now s) as [[[r'|]|e] s1] eqn:Ht; injection H as <- <-.
  2,3: by apply (reflexivity (R := advances)).
  destruct (push_tx_Ok _ _ _ _ _ _ _ Hp Hi Ht) as (s2 & Hc & _ & Hs).
  assert (same_log s2 s1 /\ next_seq s2 = next_seq s1) as [Hsame Hn].
  { destruct idem; [destruct Hs as [_ ->]|subst]; done. }
  revert Hi. change (advances s s1). etrans; [by eapply committed_advances|].
  apply same_log_advances; [done|lia].
Qed.

Lemma reparse_Ok rows items : reparse rows = Ok items ->
  Forall parsed_ok items /\ po_bytes <$> items = o_bytes <$> rows.
Proof.
  revert items. induction rows as [|r rows IH]; intros items H; simpl in H.
  - injection H as <-. by split; [constructor|].
  - apply bind_Ok in H as (p & Hp & H). apply bind_Ok in H as (rest & Hr & [= <-]).
    destruct (IH _ Hr) as [? ?]. split; [by constructor|]. simpl. by f_equal.
Qed.

Lemma reemit_Ok vault_id e now s u s' :
  log_inv (next_seq s) s -> reemit vault_id e now s = (Ok u, s') ->
  exists items seqs, committed items seqs s s' /\ Forall parsed_ok items /\
    po_bytes <$> items = o_bytes <$> reemit_rows s vault_id e.
Proof.
  intros Hi H. unfold reemit in H. apply M_bind_Ok in H as (? & ? & [= <- <-] & H).
  destruct (Nat.eqb_spec (length (reemit_rows s vault_id e)) 0) as [E|_].
  - injection H as _ <-. apply nil_length_inv in E. rewrite E. exists [], []. split; [|by split].
    split; [done|simpl; lia|done|done| |done|constructor]. intros k o Ho. by left.
  - apply M_bind_Ok in H as (m & ? & [= Hm%count_i64_Ok <-] & H). subst m.
    apply M_bind_Ok in H as (base & s1 & Ha & H). apply M_bind_Ok in H as (items & ? & [= Hr <-] & H).
    apply M_bind_Ok in H as (seqs & s2 & Hs & [= _ <-]). apply reparse_Ok in Hr as [Hp Hb].
    exists items, seqs. split; [|done]. eapply alloc_append; [done..| |exact Hs].
    rewrite <-Ha. do 2 f_equal. apply (f_equal length) in Hb. by rewrite !length_fmap in Hb.
Qed.

Lemma revoke_grants_lookup v re s k :
  s_grants (revoke_grants v re s).2 !! k =
  (fun g => if bytes_eqb k.1.1 v && (Z.of_N k.2 =? re)%Z
            then mkGrantRow (sg_role g) (sg_wrapped_vk g) (sg_signature g) (sg_author g)
                   (sg_not_after g) true (sg_server_seq g) (sg_received_at g)
            else g) <$> s_grants s !! k.
Proof. unfold revoke_grants. simpl. by rewrite lookup_update_where. Qed.

Lemma revoke_grants_advances v re : preserves advances (revoke_grants v re).
Proof.
  intros s r s' H Hi. pose proof (revoke_grants_lookup v re s) as Hl. rewrite H in Hl. simpl in Hl.
  injection H as _ Hs. assert (objects s' = objects s /\ s_vaults s' = s_vaults s /\
    s_manifests s' = s_manifests s /\ next_seq s' = next_seq s) as (E1 & E2 & E3 & E4) by by subst.
  clear Hs. destruct Hi as [H1 H2 H3 H4 H5]. split_and!.
  - split; unfold logged in *; rewrite ?E1, ?E2, ?E3, ?E4; [done| |done| |done].
    + intros seq p Hp. pose proof (H2 _ _ Hp) as Hd. unfold derived in *. rewrite ?E2, ?E3.
      destruct (p_tag p) as [[]|]; try done. destruct Hd as (e & g & ? & Hg & ?). exists e.
      rewrite Hl, Hg. simpl. case_match; eauto.
    + intros v' k e g. rewrite Hl. intros (g' & Hg' & ->)%fmap_Some.
      destruct (H4 _ _ _ _ Hg') as (p & ?). exists p. by case_match.
  - split; rewrite ?E1, ?E2, ?E3, ?E4; [done|eauto| |done|].
    { intros k r' Hr. exists r'. split_and!; (done || lia). }
    intros k g Hg. rewrite Hl, Hg. simpl. eexists. split; [done|]. by case_match.
  - intros k o. rewrite E1. by left.
Qed.

#[local] Strategy opaque [count_i64 i64_max N.leb].

Lemma publish_Ok v m gs re now s seqs s' :
  Forall parsed_ok (m :: gs) -> log_inv (next_seq s) s ->
  store_grants_publish v m gs re now s = (Ok seqs, s') ->
  exists s1 s2 items seqs', committed (m :: gs) seqs s s1 /\
    committed items seqs' s1 s2 /\ Forall parsed_ok items /\
    po_bytes <$> items = o_bytes <$> reemit_rows s1 v (default 0 (p_key_epoch (po_parsed m))) /\
    s' = match re with Some re => (revoke_grants v re s2).2 | None => s2 end.
Proof.
  intros Hp Hi H. unfold store_grants_publish in H. rewrite atomically_Ok in H. change (S (length gs)) with (length (m :: gs)) in H.
  apply M_bind_Ok in H as (n & ? & Hn & H). apply pair_equal_spec in Hn as [->%count_i64_Ok <-].
  apply M_bind_Ok in H as (base & s0 & Ha & H). apply M_bind_Ok in H as (seqs' & s1 & Hs & H).
  pose proof (alloc_append _ _ _ _ _ _ _ Hp Hi Ha Hs) as Hc.
  apply M_bind_Ok in H as (? & ? & Hn & H). apply pair_equal_spec in Hn as [_ <-].
  apply M_bind_Ok in H as (? & s2 & Hr & H).
  destruct (reemit_Ok _ _ _ _ _ _ (cm_inv _ _ _ _ Hc) Hr) as (items & seqs2 & Hc2 & Hp2 & Hb).
  apply M_bind_Ok in H as (? & s3 & Hv & [= <- <-]). exists s1, s2, items, seqs2.
  split_and!; [done..|]. destruct re; [|by injection Hv as _ <-]. by rewrite Hv.
Qed.

Lemma publish_Err v m gs re now s e s' :
  store_grants_publish v m gs re now s = (Err e, s') -> s' = s.
Proof. apply atomically_Err. Qed.

Lemma publish_event v m gs re now s r s' :
  store_grants_publish v m gs re now s = (r, s') -> s' = run_event (EvPublish v m gs re now) s.
Proof. intros H. cbn [run_event]. by rewrite H. Qed.

Lemma publish_advances v m gs re now :
  Forall parsed_ok (m :: gs) -> preserves advances (store_grants_publish v m gs re now).
Proof.
  intros Hp s [seqs|e] s' H.
  2:{ apply publish_Err in H as ->. reflexivity. }
  intros Hi. destruct (publish_Ok _ _ _ _ _ _ _ _ Hp Hi H) as (s1 & s2 & items & seqs' & H1 & H2 & _ & _ & ->).
  revert Hi. change (advances s (match re with Some re => (revoke_grants v re s2).2 | None => s2 end)).
  etrans; [by eapply committed_advances|]. etrans; [by eapply committed_advances|].
  destruct re; [|reflexivity]. by eapply revoke_grants_advances.
Qed.

Lemma publish_idem v m gs re now s r s' :
  Forall parsed_ok (m :: gs) -> log_inv (next_seq s) s ->
  store_grants_publish v m gs re now s = (r, s') -> idempotency s' = idempotency s.
Proof.
  intros Hp Hi H. destruct r as [seqs|e]; [|by apply publish_Err in H as ->].
  destruct (publish_Ok _ _ _ _ _ _ _ _ Hp Hi H) as (s1 & s2 & items & seqs' & H1 & H2 & _ & _ & ->).
  rewrite <-(cm_idem _ _ _ _ H1), <-(cm_idem _ _ _ _ H2). by destruct re.
Qed.

Lemma claim_advances v o a sp pol r b now : preserves advances (claim_insert v o a sp pol r b now).
Proof.
  intros s x s' H. unfold claim_insert in H.
  apply M_bind_run in H as [(? & ? & [= <- <-] & H)|(? & [=] & _)].
  destruct (s_vaults s !! v) as [row|] eqn:Hrow; [injection H as _ <-; reflexivity|].
  injection H as _ <-. intros [H1 H2 H3 H4 H5]. split_and!.
  - split; [done| |done|done|].
    + intros seq p Hp. specialize (H2 _ _ Hp). unfold derived in *. destruct (p_tag p) as [[]|]; try done.
      destruct H2 as (v' & row' & ? & Hv & ?). exists v', row'. simpl.
      rewrite lookup_insert_ne by congruence. done.
    + intros v' row'. simpl. intros [[<- <-]|[_ Hv]]%lookup_insert_Some; [right|by apply H5].
      split_and!; [done..|]. intros seq p Hp Ht Hpv. specialize (H2 _ _ Hp). unfold derived in H2. rewrite Ht in H2.
      destruct H2 as (v' & row' & ? & Hv' & _). congruence.
  - split; simpl; [done|eauto| |done|eauto].
    intros k row' Hk. rewrite lookup_insert_ne by congruence. exists row'. split_and!; (done || lia).
  - intros k o'. by left.
Qed.

(** ** Events preserve the invariant *)

Lemma run_event_advances ev s : event_ok ev -> advances s (run_event ev s).
Proof.
  destruct ev; simpl; intros Hok.
  - destruct (push_commit _ _ _ _ s) eqn:H. by eapply push_commit_advances.
  - destruct (store_grants_publish _ _ _ _ _ s) eqn:H. by eapply publish_advances.
  - destruct (claim_insert _ _ _ _ _ _ _ _ s) eqn:H. by eapply claim_advances.
  - apply same_log_advances; [done|]. simpl. destruct (Z.ltb_spec (Z.of_N (next_seq s)) to); lia.
  - apply same_log_advances; [done|simpl; lia].
  - by apply same_log_advances.
  - by apply same_log_advances.
Qed.

(** the idempotency records after an event: what was there, less what expired,
    and the record of the push *)
Lemma run_event_idem ev s k r :
  event_ok ev -> log_inv (next_seq s) s -> idempotency (run_event ev s) !! k = Some r ->
  idempotency s !! k = Some r \/
  Forall (fun seq => 0 < seq <= next_seq (run_event ev s)) (id_response r).
Proof.
  intros Hok Hi. destruct ev; simpl in *; try by left.
  - unfold push_commit. destruct (push_tx idem req_hash items now s) as [[[r'|]|e] s1] eqn:Ht; try by left.
    destruct (push_tx_Ok _ _ _ _ _ _ _ Hok Hi Ht) as (s2 & Hc & _ & Hs). simpl.
    destruct idem as [k'|]; [destruct Hs as [_ ->]|subst]; simpl; rewrite ?(cm_idem _ _ _ _ Hc); [|by left].
    intros [[<- <-]|[_ ?]]%lookup_insert_Some; [right|by left]. simpl.
    rewrite (cm_seqs _ _ _ _ Hc), (cm_next _ _ _ _ Hc). eapply Forall_impl; [|apply seqs_from_bounds].
    simpl. lia.
  - destruct (store_grants_publish _ _ _ _ _ s) eqn:H. simpl.
    rewrite (publish_idem _ _ _ _ _ _ _ _ Hok Hi H). by left.
  - unfold claim_insert, mbind, M_bind, get_state.
    destruct (s_vaults s !! vault_id); by left.
  - intros [? _]%lookup_delete_where. by left.
Qed.

Lemma run_event_inv ev s : event_ok ev -> server_inv s -> server_inv (run_event ev s).
Proof.
  intros Hok [Hi Hd]. destruct (run_event_advances ev s Hok Hi) as (Hi' & Hg & _). split; [done|].
  intros k r [Hr|?]%run_event_idem; [|done..]. eapply Forall_impl; [|exact (Hd _ _ Hr)].
  pose proof (dg_next _ _ Hg). simpl. lia.
Qed.

Lemma run_events_advances evs s :
  Forall event_ok evs -> server_inv s -> server_inv (run_events evs s) /\ advances s (run_events evs s).
Proof.
  intros Hok. revert s. induction Hok as [|ev evs Hev _ IH]; intros s Hs; [by split|].
  simpl. destruct (IH _ (run_event_inv _ _ Hev Hs)) as [? ?]. split; [done|].
  etrans; [by apply run_event_advances|done].
Qed.

Lemma empty_inv : server_inv empty_db.
Proof. split; [|done]. split; try done. by intros seq p (? & ? & ? & ?). Qed.

Definition keeps_record (created : Z) (ev : ServerEvent) : Prop :=
  match ev with EvCleanup cutoff => (cutoff <= created)%Z | _ => True end.

Lemma run_event_keeps_idem ev s k r :
  event_ok ev -> log_inv (next_seq s) s -> keeps_record (id_created_at r) ev ->
  idempotency s !! k = Some r -> idempotency (run_event ev s) !! k = Some r.
Proof.
  intros Hok Hi Hkeep Hr. destruct ev; simpl in *; try done.
  - unfold push_commit. destruct (push_tx idem req_hash items now s) as [[[r'|]|e] s1] eqn:Ht; try done.
    destruct (push_tx_Ok _ _ _ _ _ _ _ Hok Hi Ht) as (s2 & Hc & _ & Hs). simpl.
    destruct idem as [k'|]; [destruct Hs as [Hk ->]|subst]; simpl; rewrite ?(cm_idem _ _ _ _ Hc); [|done].
    rewrite lookup_insert_ne; [done|congruence].
  - destruct (store_grants_publish _ _ _ _ _ s) eqn:H. simpl.
    by rewrite (publish_idem _ _ _ _ _ _ _ _ Hok Hi H).
  - unfold claim_insert, mbind, M_bind, get_state. by destruct (s_vaults s !! vault_id).
  - apply lookup_delete_where. split; [done|]. apply Z.ltb_ge. lia.
Qed.


(** a push under a key that is recorded leaves the store as it is; with another body it is
    refused *)
Lemma push_commit_taken k h items now s r :
  Forall parsed_ok items -> log_inv (next_seq s) s -> idempotency s !! k = Some r ->
  (push_commit (Some k) h items now s).2 = s /\
  (id_request_hash r <> h -> exists e, (push_commit (Some k) h items now s).1 = Err e).
Proof.
  intros Hp Hi Hr. unfold push_commit.
  destruct (push_tx (Some k) h items now s) as [[[r'|]|e] s1] eqn:Ht; [|split; [done|]..|by split; [|eauto]].
  - destruct (push_tx_Ok _ _ _ _ _ _ _ Hp Hi Ht) as (s2 & _ & _ & Hk & _). congruence.
  - intros Hne. unfold push_lookup, idem_result. simpl. rewrite Hr. simpl. rewrite (proj2 (bytes_eqb_false _ _)) by done. eauto.
Qed.

(** *** What was appended once can be appended again *)

Definition fits (it : PushObj) : Prop :=
  is_ok (opt_u64 (p_obj_version (po_parsed it))) = true /\ is_ok (opt_u64 (p_key_epoch (po_parsed it))) = true.

Definition readmits (s : ServerDB) (it : PushObj) : Prop :=
  fits it /\
  match p_tag (po_parsed it) with
  | Some TVault => exists v row, p_vault_id (po_parsed it) = Some v /\ s_vaults s !! v = Some row /\
      p_author_pubkey (po_parsed it) = Some (sv_owner_pubkey row) /\
      is_Some (p_obj_version (po_parsed it)) /\ is_Some (p_key_epoch (po_parsed it))
  | Some TMembershipManifest | Some TMembershipGrant => is_Some (p_key_epoch (po_parsed it))
  | _ => True
  end.

Lemma readmits_grows s s' it : db_grows s s' -> readmits s it -> readmits s' it.
Proof.
  intros Hg [Hf Ht]. split; [done|]. destruct (p_tag (po_parsed it)) as [[]|]; try done.
  destruct Ht as (v & row & ? & Hr & Ha & ?). destruct (dg_vaults _ _ Hg _ _ Hr) as (row' & ? & Ho & _).
  exists v, row'. by rewrite Ho.
Qed.

Lemma insert_object_fits seq it now s u s' :
  insert_object seq (po_parsed it) (po_bytes it) now s = (Ok u, s') -> fits it.
Proof.
  unfold insert_object. intros (v & s1 & [= Hv <-] & H)%M_bind_Ok. apply M_bind_Ok in H as (e & s2 & [= He <-] & _).
  unfold fits. by rewrite Hv, He.
Qed.

Lemma appended_readmits seq it now s s' : fits it -> appended seq (po_parsed it) (po_bytes it) now s s' -> readmits s' it.
Proof.
  intros Hf Ha. split; [done|]. destruct Ha as [_ _ _ _ Hv Hm Hg _ _]. destruct (p_tag (po_parsed it)) as [[]|]; try done.
  - rewrite bool_decide_true in Hv by done. destruct Hv as (v & a & n & e & row' & Hv & Ha & Hn & He & Hs & Ho & _).
    exists v, row'. rewrite Hs, lookup_insert_eq, Ho, Hn, He. by split_and!.
  - rewrite bool_decide_true in Hm by done. destruct Hm as (e & m & He & _). by eexists.
  - rewrite bool_decide_true in Hg by done. destruct Hg as (e & g & He & _). by eexists.
Qed.

Lemma append_objects_readmits items hi now s seqs s' :
  Forall parsed_ok items -> log_inv hi s -> append_objects (hi + 1) items now s = (Ok seqs, s') -> Forall (readmits s') items.
Proof.
  revert hi s seqs. induction items as [|it items IH]; intros hi s seqs Hp Hinv H; [constructor|].
  inversion Hp as [|? ? Hp1 Hp2]; subst. simpl in H.
  apply M_bind_Ok in H as (u & s1 & H1 & H). apply M_bind_Ok in H as (u' & s2 & H2 & H).
  apply M_bind_Ok in H as (seqs' & s3 & H3 & [= <- <-]).
  pose proof (append_one_Ok _ _ _ _ _ _ _ _ _ H1 H2) as Ha.
  pose proof (append_one_inv _ _ _ _ _ _ _ Hp1 Ha Hinv ltac:(lia)) as Hinv2.
  constructor; [|by eapply IH]. destruct (append_objects_Ok _ _ _ _ _ _ Hp2 Hinv2 H3) as [_ Hb].
  eapply readmits_grows; [apply (ba_grows _ _ _ _ Hb)|]. eapply appended_readmits; [by eapply insert_object_fits|done].
Qed.

Lemma insert_object_again seq it now s :
  fits it -> objects s !! seq = None -> exists s', insert_object seq (po_parsed it) (po_bytes it) now s = (Ok tt, s').
Proof.
  intros [[v Hv]%is_ok_true [e He]%is_ok_true] Hn. unfold insert_object, mbind, M_bind, lift_result, get_state, modify.
  rewrite Hv, He, Hn. by eexists.
Qed.

Lemma materialize_again seq it now s : readmits s it -> exists s', materialize seq (po_parsed it) now s = (Ok tt, s').
Proof.
  intros [[Hv He] Ht]. unfold materialize.
  assert (Hreq : forall o, is_ok (opt_u64 o) = true -> is_Some o -> exists n, req_u64 o = Ok n).
  { intros o Ho [n ->]. unfold req_u64, opt_u64 in *. simpl in *. case_match; [eauto|done]. }
  destruct (p_tag (po_parsed it)) as [[]|]; try by eexists.
  - destruct Ht as (v & row & Hpv & Hr & Ha & Hn & Hk). destruct (Hreq _ Hv Hn) as [n Hn'], (Hreq _ He Hk) as [e He'].
    unfold materialize_vault, mbind, M_bind, lift_result, get_state, modify. rewrite Hpv, Ha. cbn [ok_or]. rewrite Hn', He', Hr, bytes_eqb_refl.
    simpl. destruct (_ <? _); by eexists.
  - destruct (Hreq _ He Ht) as [e He']. unfold materialize_manifest, mbind, M_bind, lift_result, modify. rewrite He'. by eexists.
  - destruct (Hreq _ He Ht) as [e He']. unfold materialize_grant, mbind, M_bind, lift_result, modify. rewrite He'. by eexists.
  - destruct (p_obj_version (po_parsed it)) as [w|] eqn:Hw; [|by eexists]. unfold compact_account_state.
    destruct (p_author_pubkey (po_parsed it)); [|by eexists]. apply is_ok_true in Hv as [x Hx].
    unfold mbind, M_bind, lift_result, modify. rewrite Hw, Hx. by eexists.
Qed.

Lemma append_objects_again items hi now s :
  Forall parsed_ok items -> log_inv hi s -> Forall (readmits s) items ->
  exists seqs s', append_objects (hi + 1) items now s = (Ok seqs, s').
Proof.
  revert hi s. induction items as [|it items IH]; intros hi s Hp Hinv Hr; [by do 2 eexists|].
  inversion Hp as [|? ? Hp1 Hp2]; subst. inversion Hr as [|? ? Hr1 Hr2]; subst.
  assert (Hfree : objects s !! (hi + 1) = None).
  { destruct (objects s !! (hi + 1)) eqn:E; [|done]. apply (li_rows _ _ Hinv) in E. lia. }
  destruct (insert_object_again (hi + 1) it now s (proj1 Hr1) Hfree) as [s1 H1].
  assert (Hr1' : readmits s1 it) by (by apply insert_object_Ok in H1 as [_ ->]).
  destruct (materialize_again (hi + 1) it now s1 Hr1') as [s2 H2].
  pose proof (append_one_Ok _ _ _ _ _ _ _ _ _ H1 H2) as Ha.
  pose proof (append_one_inv _ _ _ _ _ _ _ Hp1 Ha Hinv ltac:(lia)) as Hinv2.
  destruct (IH (hi + 1) s2 Hp2 Hinv2) as (seqs & s' & H3).
  { eapply Forall_impl; [|exact Hr2]. intros x. apply readmits_grows. by eapply append_one_grows. }
  exists ((hi + 1) :: seqs), s'. simpl. unfold mbind, M_bind. by rewrite H1, H2, H3.
Qed.

(** the transaction of a push that went through before gets as far as the key *)
Lemma push_tx_again k h items now s rec :
  Forall parsed_ok items -> log_inv (next_seq s) s -> Forall (readmits s) items -> is_ok (count_i64 (length items)) = true ->
  idempotency s !! k = Some rec -> exists s', push_tx (Some k) h items now s = (Ok None, s').
Proof.
  intros Hp Hi Hr [n Hn]%is_ok_true Hk. pose proof (count_i64_Ok _ _ Hn) as ->.
  set (s0 := set_next_seq (fun next => next + N.of_nat (length items)) s).
  destruct (append_objects_again items (next_seq s) now s0 Hp) as (seqs & s' & H).
  { by eapply log_inv_same; [|exact Hi]. }
  { eapply Forall_impl; [|exact Hr]. intros it. by apply readmits_grows, same_log_grows; [|simpl; lia]. }
  assert (Ha : alloc_seqs (N.of_nat (length items)) s = (Ok (next_seq s), s0)).
  { transitivity (@Ok ErrorCode _ (next_seq s0 - N.of_nat (length items)), s0); [done|]. do 2 f_equal. simpl. lia. }
  exists s'. unfold push_tx, mbind, M_bind, lift_result, modify, get_state, mret, M_ret. rewrite Hn, Ha, H.
  destruct (append_objects_Ok items (next_seq s) now s0 seqs s' Hp) as [_ Hb]; [by eapply log_inv_same; [|exact Hi]|done|].
  rewrite (ba_idem _ _ _ _ Hb). simpl. by rewrite Hk.
Qed.

Lemma push_tx_readmits idem h items now s r s' :
  Forall parsed_ok items -> log_inv (next_seq s) s -> push_tx idem h items now s = (Ok (Some r), s') ->
  Forall (readmits s') items /\ is_ok (count_i64 (length items)) = true.
Proof.
  intros Hp Hi H. unfold push_tx in H. apply M_bind_Ok in H as (n & ? & [= Hn <-] & H). rewrite Hn. split; [|done].
  pose proof (count_i64_Ok _ _ Hn) as ->. apply M_bind_Ok in H as (base & s1 & Ha & H). apply M_bind_Ok in H as (seqs & s2 & Hs & H).
  unfold alloc_seqs in Ha. apply M_bind_Ok in Ha as (u & s0 & [= _ <-] & Ha).
  apply M_bind_Ok in Ha as (s0 & ? & [= <- <-] & [= Hb <-]). simpl in Hb. replace base with (next_seq s) in Hs by lia.
  apply append_objects_readmits in Hs; [|done|by eapply log_inv_same; [|exact Hi]].
  assert (Hg : db_grows s2 s').
  { destruct idem as [k|]; [|injection H as _ <-; reflexivity]. apply M_bind_Ok in H as (? & ? & [= <- <-] & H).
    destruct (idempotency s2 !! k); [done|]. apply M_bind_Ok in H as (? & ? & [= _ <-] & [= _ <-]). by apply same_log_grows. }
  eapply Forall_impl; [|exact Hs]. intros it. by apply readmits_grows.
Qed.

Lemma run_events_keep_idem evs s k r :
  Forall event_ok evs -> Forall (keeps_record (id_created_at r)) evs -> server_inv s ->
  idempotency s !! k = Some r -> idempotency (run_events evs s) !! k = Some r.
Proof.
  intros Hok. revert s. induction Hok as [|ev evs Hev _ IH]; intros s Hk Hs Hr; [done|].
  inversion Hk; subst. simpl. apply IH; [done|by apply run_event_inv|].
  apply run_event_keeps_idem; [done|apply Hs|done..].
Qed.

(** ** Objects to evaluate on *)

Definition obj_bytes (o : SyncObject) : bytes := unwrap_or [] (to_bytes o).
Definition no_columns : ParsedObject :=
  mkParsed x00 None None None None None None None None None None None None None None None None.
Definition push_obj (o : SyncObject) : PushObj :=
  mkPushObj (obj_bytes o) (unwrap_or no_columns (parse_open (obj_bytes o))).

Definition sample_batch : list PushObj :=
  [push_obj (OVault (sample_vault 1)); push_obj (OItem (sample_item 3))].
Definition sample_push (k : string) (now : Z) : ServerEvent :=
  EvPush (Some (lit k)) (lit "hash") sample_batch now.
Definition sample_events : list ServerEvent :=
  [EvBumpTo 3; sample_push "k1" 10; sample_push "k1" 11; EvCleanup 5; sample_push "k2" 20].

Lemma sample_batch_parsed : Forall parsed_ok sample_batch.
Proof. repeat constructor; vm_compute; reflexivity. Qed.
Lemma sample_events_ok : Forall event_ok sample_events.
Proof. repeat (constructor; try exact sample_batch_parsed). Qed.

(** ** Theorems *)

(** C19. After any interleaving of pushes, publications, claims, counter bumps,
    expiries and account changes from an empty database, the log and the tables
    agree: every object lies under its own number, at most the last one given out,
    with columns parsed from its bytes; every manifest and grant row comes from an
    object of the log and every such object has its row, the earliest one of its
    epoch respectively the latest one of its member; a vault row comes from records of the
    log, has their author as owner, their highest version and an epoch at least as high as
    any of them, or it was claimed, has version and epoch 0, and the log holds no record of
    the vault; and no recorded answer names a number never given out. *)
Theorem server_invariant evs : Forall event_ok evs -> server_inv (run_events evs empty_db).
Proof. intros Hok. by apply run_events_advances; [|apply empty_inv]. Qed.

Lemma server_invariant_witness :
  server_inv (run_events sample_events empty_db) /\ next_seq (run_events sample_events empty_db) = 7.
Proof. split; [apply server_invariant, sample_events_ok|vm_compute; reflexivity]. Defined.

(** The server forgets nothing and never inserts behind a reader: from any
    state in order, whatever happens next, an object stays unless it is an account
    state that a newer one of the same author replaced, owners of vaults never
    change, versions and epochs never fall, the first manifest of an epoch stays,
    a revoked grant stays revoked, and every new object gets a number above the
    last one given out before, so no cursor skips it. *)
Theorem log_only_grows s evs :
  server_inv s -> Forall event_ok evs ->
  db_grows s (run_events evs s) /\ fresh_above s (run_events evs s).
Proof. intros Hs Hok. by apply (run_events_advances evs s Hok Hs), Hs. Qed.

Lemma log_only_grows_witness :
  db_grows (run_events (take 2 sample_events) empty_db) (run_events sample_events empty_db).
Proof.
  apply (log_only_grows (run_events (take 2 sample_events) empty_db) (drop 2 sample_events)).
  - apply run_events_advances; [|apply empty_inv]. repeat (constructor; try exact sample_batch_parsed).
  - repeat (constructor; try exact sample_batch_parsed).
Defined.

(** C17. A push under an idempotency key takes effect once. It gets the next
    consecutive numbers and its objects are in the log under them, byte for byte, but for an
    account state that a newer one of its author has replaced. As long as its record has not
    expired, whatever happens in between: a retry gets the same numbers and changes nothing,
    and so does a concurrent retry that has passed the lookup and reaches its transaction;
    the key with another body is refused and changes nothing, concurrently too. *)
Theorem push_exactly_once k h items now s r s1 evs :
  server_inv s -> Forall parsed_ok items ->
  push_commit (Some k) h items now s = (Ok r, s1) -> pr_replayed r = false ->
  Forall event_ok evs -> Forall (keeps_record now) evs ->
  let s2 := run_events evs s1 in
  pr_server_seq r = seqs_from (next_seq s + 1) (length items) /\
  Forall2 (kept s2) (pr_server_seq r) items /\
  (forall items' now', push_objects (Some k) h items' now' s2
     = (Ok (mkPushResult (pr_server_seq r) true), s2)) /\
  (forall now', push_commit (Some k) h items now' s2 = (Ok (mkPushResult (pr_server_seq r) true), s2)) /\
  (forall h' items' now', h' <> h -> push_objects (Some k) h' items' now' s2 = (Err EConflict, s2)) /\
  (forall h' items' now', Forall parsed_ok items' -> h' <> h ->
     exists e, push_commit (Some k) h' items' now' s2 = (Err e, s2)).
Proof.
  intros Hs Hp H Hrep Hok Hkeep s2. unfold push_commit in H.
  destruct (push_tx (Some k) h items now s) as [[[r'|]|e] s'] eqn:Ht; [|injection H as Hr _|done].
  2:{ unfold push_lookup in Hr. simpl in Hr. destruct (idempotency s !! k) as [rec|]; [|done].
      simpl in Hr. unfold idem_result in Hr. case_match; [|done]. by injection Hr as <-. }
  injection H as -> ->. destruct Hs as [Hi Hd].
  destruct (push_tx_Ok _ _ _ _ _ _ _ Hp Hi Ht) as (s0 & Hc & _ & Hk & E).
  destruct (push_tx_readmits _ _ _ _ _ _ _ Hp Hi Ht) as [Hre Hcount].
  assert (Hs1 : server_inv s1).
  { pose proof (run_event_inv (EvPush (Some k) h items now) s Hp (conj Hi Hd)) as Hs1.
    simpl in Hs1. unfold push_commit in Hs1. by rewrite Ht in Hs1. }
  destruct (run_events_advances evs s1 Hok Hs1) as [[Hi2 _] Hadv]. destruct (Hadv (proj1 Hs1)) as (_ & Hg & _).
  assert (Hrec : idempotency s2 !! k = Some (mkIdem h (pr_server_seq r) now)).
  { apply run_events_keep_idem; [done..|]. subst s1. apply lookup_insert_eq. }
  assert (Hlk : forall h', push_lookup (Some k) h' s2 = Some (idem_result (mkIdem h (pr_server_seq r) now) h')).
  { intros h'. unfold push_lookup. simpl. by rewrite Hrec. }
  assert (Hsame : idem_result (mkIdem h (pr_server_seq r) now) h = Ok (mkPushResult (pr_server_seq r) true)).
  { unfold idem_result. simpl. by rewrite bytes_eqb_refl. }
  assert (Hother : forall h', h' <> h -> idem_result (mkIdem h (pr_server_seq r) now) h' = Err EConflict).
  { intros h' Hne. unfold idem_result. simpl. by rewrite (proj2 (bytes_eqb_false _ _)) by congruence. }
  split_and!.
  - apply Hc.
  - eapply Forall2_impl; [|exact (cm_kept _ _ _ _ Hc)]. intros seq it Hst. eapply kept_grows; [done|].
    subst s1. exact Hst.
  - intros items' now'. unfold push_objects. by rewrite Hlk, Hsame.
  - intros now'. assert (Hre2 : Forall (readmits s2) items).
    { eapply Forall_impl; [|exact Hre]. intros it. by apply readmits_grows. }
    destruct (push_tx_again k h items now' s2 _ Hp Hi2 Hre2 Hcount Hrec) as [s3 H3].
    unfold push_commit. rewrite H3, Hlk. simpl. by rewrite Hsame.
  - intros h' items' now' Hne. unfold push_objects. by rewrite Hlk, Hother.
  - intros h' items' now' Hp' Hne. destruct (push_commit_taken k h' items' now' s2 _ Hp' Hi2 Hrec) as [H2 H1].
    destruct H1 as [e He]; [simpl; congruence|]. exists e. by rewrite (surjective_pairing (push_commit _ _ _ _ _)), He, H2.
Qed.

Lemma push_exactly_once_witness : exists r s1,
  push_commit (Some (lit "k1")) (lit "hash") sample_batch 10 empty_db = (Ok r, s1) /\
  push_objects (Some (lit "k1")) (lit "hash") [] 30 (run_events sample_events s1)
    = (Ok (mkPushResult [1; 2] true), run_events sample_events s1) /\
  push_commit (Some (lit "k1")) (lit "hash") sample_batch 31 (run_events sample_events s1)
    = (Ok (mkPushResult [1; 2] true), run_events sample_events s1).
Proof.
  destruct (run_ok (fun r => (pr_server_seq r, pr_replayed r))
    (push_commit (Some (lit "k1")) (lit "hash") sample_batch 10) empty_db ([1; 2], false))
    as (r & [= Hr Hrep] & H); [vm_compute; reflexivity|].
  eexists r, _. split; [exact H|]. rewrite <-Hr.
  destruct (push_exactly_once (lit "k1") (lit "hash") sample_batch 10 empty_db r _ sample_events empty_inv
    sample_batch_parsed H Hrep sample_events_ok) as (_ & _ & H3 & H4 & _).
  - repeat (constructor; try done).
  - split; [exact (H3 [] 30%Z)|exact (H4 31%Z)].
Defined.
