(* ===== verification/ServerDelta.v ===== *)
(** * Reading the server's log in pages

    [delta_page] plans a page on one state of the store and reads it from a later
    one. The theorems say what a reader that follows the cursor gets, whatever is
    written meanwhile. *)

From Stdlib Require Import Strings.Byte NArith ZArith Lia.
From stdpp Require Import base gmap sets list strings sorting countable.
From S2P Require Import Prelude Bytes CryptoPrims Crypto Storage StorageInv Membership SyncObject.
From S2P Require Import AuthPayloads ServerCodec ServerStore ServerApi ServerInv.

Local Open Scope N_scope.

(** ** The rows after a cursor *)

(** every row lies under its own number *)
Definition keyed (s : ServerDB) : Prop :=
  forall seq o, objects s !! seq = Some o -> o_server_seq o = seq.

Lemma log_inv_keyed hi s : log_inv hi s -> keyed s.
Proof. intros H seq o Ho. by destruct (li_rows _ _ H _ _ Ho) as (_ & p & _ & ?). Qed.

Definition seq_lt (a b : ObjectRow) : Prop := o_server_seq a < o_server_seq b.

#[global] Instance seq_lt_trans : Transitive seq_lt.
Proof. intros a b c. unfold seq_lt. lia. Qed.

Section rows.
Context (s : ServerDB) (Hs : keyed s).

Lemma elem_of_rows_after cursor p o :
  o ∈ rows_after s cursor p <->
  objects s !! o_server_seq o = Some o /\ cursor < o_server_seq o /\ p o = true.
Proof.
  unfold rows_after. rewrite elem_of_stable_sort, elem_of_select_where. split.
  - intros (seq & Ho & [H1%N.ltb_lt H2]%andb_true_iff). pose proof (Hs _ _ Ho). by subst.
  - intros (Ho & H1 & H2). exists (o_server_seq o). split; [done|]. by rewrite (proj2 (N.ltb_lt _ _) H1), H2.
Qed.

Lemma rows_after_NoDup cursor p : NoDup (o_server_seq <$> rows_after s cursor p).
Proof.
  unfold rows_after. rewrite stable_sort_perm. unfold select_where. rewrite <-list_fmap_compose.
  rewrite (list_fmap_ext _ fst).
  - apply (sublist_NoDup _ (map_to_list (objects s)).*1); [apply NoDup_fst_map_to_list|].
    by apply fmap_sublist, sublist_filter.
  - intros i [k o] Hi. apply list_elem_of_lookup_2, list_elem_of_filter in Hi as [_ Hi].
    apply elem_of_map_to_list in Hi. by apply Hs.
Qed.

Lemma rows_after_sorted cursor p : StronglySorted seq_lt (rows_after s cursor p).
Proof.
  pose proof (rows_after_NoDup cursor p) as Hd. revert Hd. unfold rows_after at 1 2.
  match goal with |- NoDup (_ <$> ?l) -> _ => assert (Hl : StronglySorted (leb_rel (fun a b => o_server_seq a <=? o_server_seq b)) l) end.
  { apply stable_sort_sorted.
    - intros x y. rewrite !N.leb_le. lia.
    - intros x y z. rewrite !N.leb_le. lia. }
  induction Hl as [|x l Hl IH Hx]; [constructor|]. rewrite fmap_cons. intros [Hn Hd]%list.NoDup_cons.
  constructor; [by apply IH|]. rewrite list.Forall_forall in *. intros y Hy. specialize (Hx y Hy).
  apply N.leb_le in Hx. unfold seq_lt. assert (o_server_seq x <> o_server_seq y); [|lia].
  intros E. apply Hn. rewrite E. by apply list_elem_of_fmap_2.
Qed.
End rows.

(** two ascending lists with the same rows are equal *)
Lemma seq_sorted_unique (l l' : list ObjectRow) :
  StronglySorted seq_lt l -> StronglySorted seq_lt l' -> (forall o, o ∈ l <-> o ∈ l') -> l = l'.
Proof.
  intros Hl. revert l'. induction Hl as [|x l Hl IH Hx]; intros l' Hl' Heq.
  - destruct l' as [|y l']; [done|]. specialize (Heq y). set_solver.
  - destruct Hl' as [|y l' Hl' Hy]; [specialize (Heq x); set_solver|].
    rewrite list.Forall_forall in Hx, Hy.
    assert (x = y) as ->.
    { assert (x ∈ y :: l') as [->|Hx']%elem_of_cons by (apply Heq; by left); [done|].
      assert (y ∈ x :: l) as [->|Hy']%elem_of_cons by (apply Heq; by left); [done|].
      specialize (Hx _ Hy'). specialize (Hy _ Hx'). unfold seq_lt in *. lia. }
    f_equal. apply IH; [done|]. intros o. split; intros Ho.
    + assert (o ∈ y :: l') as [->|?]%elem_of_cons by (apply Heq; by right); [|done].
      specialize (Hx _ Ho). unfold seq_lt in Hx. lia.
    + assert (o ∈ y :: l) as [->|?]%elem_of_cons by (apply Heq; by right); [|done].
      specialize (Hy _ Ho). unfold seq_lt in Hy. lia.
Qed.

Lemma sorted_le_last (l : list ObjectRow) o x :
  StronglySorted seq_lt l -> list.last l = Some o -> x ∈ l -> o_server_seq x <= o_server_seq o.
Proof.
  intros Hl (l' & ->)%last_Some [Hx| ->%list_elem_of_singleton]%elem_of_app; [|lia].
  pose proof (StronglySorted_app_1_elem_of _ _ _ _ _ Hl Hx (list_elem_of_here o [])) as H.
  unfold seq_lt in H. lia.
Qed.

Lemma sorted_take n (l : list ObjectRow) : StronglySorted seq_lt l -> StronglySorted seq_lt (take n l).
Proof. rewrite <-(take_drop n l) at 1. apply StronglySorted_app_1_l. Qed.

Section page.
Context (s : ServerDB) (Hs : keyed s).

Lemma rows_after_ext cursor p q :
  (forall o, objects s !! o_server_seq o = Some o -> cursor < o_server_seq o -> p o = q o) ->
  rows_after s cursor p = rows_after s cursor q.
Proof.
  intros Hpq. apply seq_sorted_unique; [by apply rows_after_sorted..|]. intros o.
  rewrite !elem_of_rows_after by done. split; intros (? & ? & ?); split_and!; try done;
    [rewrite <-Hpq|rewrite Hpq]; done.
Qed.

(** the first rows are the rows up to the last of them *)
Lemma rows_prefix cursor p n o :
  list.last (take n (rows_after s cursor p)) = Some o ->
  take n (rows_after s cursor p)
    = rows_after s cursor (fun x => (o_server_seq x <=? o_server_seq o) && p x).
Proof.
  intros Hlast. pose proof (rows_after_sorted s Hs cursor p) as Hsort.
  apply seq_sorted_unique; [by apply sorted_take|by apply rows_after_sorted|]. intros x.
  rewrite elem_of_rows_after by done. split.
  - intros Hx. pose proof (sorted_le_last _ _ _ (sorted_take n _ Hsort) Hlast Hx) as Hle.
    apply elem_of_take in Hx as (i & Hx%list_elem_of_lookup_2 & _).
    apply elem_of_rows_after in Hx as (? & ? & Hp); [|done]. split_and!; [done..|].
    by rewrite (proj2 (N.leb_le _ _) Hle), Hp.
  - intros (Ho & Hc & [Hle%N.leb_le Hp]%andb_true_iff).
    assert (Hx : x ∈ rows_after s cursor p) by by apply elem_of_rows_after.
    rewrite <-(take_drop n (rows_after s cursor p)) in Hx, Hsort. apply elem_of_app in Hx as [Hx|Hx]; [done|].
    apply last_Some_elem_of in Hlast.
    pose proof (StronglySorted_app_1_elem_of _ _ _ _ _ Hsort Hlast Hx) as Hlt. unfold seq_lt in Hlt. lia.
Qed.
End page.

(** ** How many rows a page takes *)

Definition total_size (sizes : list N) : N := foldr N.add 0 sizes.

Lemma total_size_submseteq l k : l ⊆+ k -> total_size l <= total_size k.
Proof. induction 1; simpl in *; lia. Qed.

Lemma page_len_from_spec sizes total taken max :
  let n := page_len_from total taken sizes max in
  (taken <= n <= taken + length sizes)%nat /\
  (sizes <> [] -> taken = 0%nat -> (1 <= n)%nat) /\
  (max < u64_max -> (taken < n)%nat -> (1 < n)%nat ->
   total + total_size (take (n - taken) sizes) <= max).
Proof.
  revert total taken. induction sizes as [|size sizes IH]; intros total taken; simpl.
  { split_and!; [lia..|done|lia]. }
  destruct ((0 <? taken)%nat && (max <? sat_add64 total size)) eqn:E.
  { split_and!; [lia..| |lia]. intros _ ->. done. }
  destruct (IH (sat_add64 total size) (S taken)) as (H1 & _ & H3). simpl in H1.
  split_and!; [lia..|lia|]. intros Hmax Hlt H1n.
  set (n := page_len_from _ _ _ _) in *.
  replace (n - taken)%nat with (S (n - S taken)) by lia. simpl.
  unfold sat_add64 in *. destruct (decide (S taken < n)%nat) as [Hlt'|Hge].
  - specialize (H3 Hmax Hlt' H1n). lia.
  - replace (n - S taken)%nat with 0%nat by lia. simpl.
    apply andb_false_iff in E as [E%Nat.ltb_ge|E%N.ltb_ge]; lia.
Qed.

Lemma page_len_spec sizes limit max :
  let n := page_len sizes limit max in
  (n <= limit)%nat /\ (n <= length sizes)%nat /\
  (sizes <> [] -> limit <> 0%nat -> (1 <= n)%nat) /\
  (max < u64_max -> (1 < n)%nat -> total_size (take n sizes) <= max).
Proof.
  unfold page_len. destruct (page_len_from_spec (take limit sizes) 0 0 max) as (H1 & H2 & H3).
  simpl in *. rewrite length_take in H1. rewrite Nat.sub_0_r, take_take in H3. split_and!; [lia|lia| |].
  - intros Hne Hl. apply H2; [|done]. destruct sizes, limit; done.
  - intros Hm Hn. rewrite Nat.min_l in H3 by lia. apply H3; lia.
Qed.

(** ** One page *)

(** what a page promises its reader *)
Record page_spec (s1 s2 : ServerDB) (cursor limit max_bytes : N) (member : bytes) (now : Z)
    (vault : option bytes) (pg : DeltaPage) : Prop := {
  pg_rows : dp_rows pg = rows_after s2 cursor (fun o =>
    (o_server_seq o <=? dp_next_cursor pg) && delta_filter s2 vault member now o);
  pg_cursor : cursor <= dp_next_cursor pg;
  pg_progress : dp_has_more pg = true -> cursor < dp_next_cursor pg;
  pg_complete : dp_has_more pg = false -> forall seq o, objects s1 !! seq = Some o -> cursor < seq ->
    delta_filter s1 vault member now o = true -> seq <= dp_next_cursor pg;
  pg_count : (length (dp_rows pg) <= N.to_nat limit)%nat;
  pg_bytes : Forall (fun o => objects s1 !! o_server_seq o = Some o /\ delta_filter s1 vault member now o = true) (dp_rows pg) ->
    max_bytes < u64_max -> (1 < length (dp_rows pg))%nat ->
    total_size ((fun o => len (o_bytes o)) <$> dp_rows pg) <= max_bytes;
  pg_some : s1 = s2 -> dp_has_more pg = true -> dp_rows pg <> []
}.

Lemma take_whole {A} n (l : list A) : (length (take n l) < n)%nat -> take n l = l.
Proof. rewrite length_take. intros H. apply take_ge. lia. Qed.

(** the plan: the first rows visible now, none if and only if none is *)
Definition plan_of (s : ServerDB) (cursor limit max_bytes : N) (member : bytes) (now : Z)
    (vault : option bytes) : nat :=
  page_len ((fun o => len (o_bytes o)) <$>
    take (S (N.to_nat limit)) (rows_after s cursor (delta_filter s vault member now)))
    (N.to_nat limit) max_bytes.

Section delta_page.
Context (s1 s2 : ServerDB) (cursor limit max_bytes : N) (member : bytes) (now : Z)
        (vault : option bytes).
Context (Hs1 : keyed s1) (Hs2 : keyed s2) (Hlimit : 0 < limit).

#[local] Abbreviation all1 := (rows_after s1 cursor (delta_filter s1 vault member now)).
#[local] Abbreviation keep := (plan_of s1 cursor limit max_bytes member now vault).

Lemma keep_spec :
  (keep <= N.to_nat limit)%nat /\ (keep <= length all1)%nat /\
  (all1 <> [] -> (1 <= keep)%nat) /\
  (max_bytes < u64_max -> (1 < keep)%nat ->
   total_size ((fun o => len (o_bytes o)) <$> take keep all1) <= max_bytes).
Proof.
  unfold plan_of. set (plan := take _ _).
  destruct (page_len_spec ((fun o => len (o_bytes o)) <$> plan) (N.to_nat limit) max_bytes) as (H1 & H2 & H3 & H4).
  rewrite length_fmap in H2. unfold plan in H2 at 2. rewrite length_take in H2. split_and!; [lia|lia| |].
  - intros Hne. apply H3; [|lia]. unfold plan. by destruct all1.
  - intros Hm Hk. specialize (H4 Hm Hk). rewrite <-fmap_take in H4. unfold plan in H4 at 2.
    rewrite take_take, Nat.min_l in H4; [done|lia].
Qed.

Lemma keep_take : take keep (take (S (N.to_nat limit)) all1) = take keep all1.
Proof. rewrite take_take, Nat.min_l; [done|]. pose proof keep_spec. lia. Qed.

Lemma keep_all : (keep <? length (take (S (N.to_nat limit)) all1))%nat = false -> take keep all1 = all1.
Proof.
  rewrite Nat.ltb_ge, length_take. intros H. apply take_ge. pose proof keep_spec. lia.
Qed.

Lemma delta_page_spec :
  page_spec s1 s2 cursor limit max_bytes member now vault
    (delta_page s1 s2 cursor limit max_bytes member now vault).
Proof.
  destruct keep_spec as (Hk1 & Hk2 & Hk3 & Hk4). unfold delta_page.
  change (page_len _ _ _) with keep. rewrite keep_take.
  destruct (list.last (take keep all1)) as [o|] eqn:Hlast.
  2:{ assert (all1 = []) as Hnil.
      { destruct all1 as [|x l] eqn:E; [done|]. apply last_None in Hlast.
        assert (1 <= keep)%nat by by apply Hk3. destruct keep; [lia|done]. }
      split; simpl; [|lia|done| |lia|lia|done].
      - symmetry. apply elem_of_nil_inv. intros x. rewrite elem_of_rows_after by done.
        intros (_ & ? & [?%N.leb_le _]%andb_true_iff). lia.
      - intros _ seq x Hx Hc Hf. pose proof (Hs1 _ _ Hx). subst seq.
        assert (x ∈ all1) as Hin by by apply elem_of_rows_after. rewrite Hnil in Hin. by apply elem_of_nil in Hin. }
  assert (Ho : o ∈ all1).
  { apply last_Some_elem_of in Hlast. apply elem_of_take in Hlast as (i & ?%list_elem_of_lookup_2 & _). done. }
  apply elem_of_rows_after in Ho as (_ & Ho & _); [|done].
  assert (Hlen : length (take keep all1) = keep) by (rewrite length_take; lia). rewrite Hlen.
  assert (Hpos : (1 <= keep)%nat). { apply Hk3. intros E. by rewrite E, take_nil in Hlast. }
  unfold delta_rows. rewrite Nat2N.id.
  set (R := rows_after s2 cursor (fun x => (o_server_seq x <=? o_server_seq o) && delta_filter s2 vault member now x)).
  assert (Hbytes : Forall (fun o => objects s1 !! o_server_seq o = Some o /\ delta_filter s1 vault member now o = true) (take keep R) ->
    max_bytes < u64_max -> (1 < length (take keep R))%nat -> total_size ((fun o => len (o_bytes o)) <$> take keep R) <= max_bytes).
  { intros Hvis Hm Hl. rewrite length_take in Hl. etrans; [|apply Hk4; [done|lia]]. apply total_size_submseteq, fmap_submseteq.
    apply NoDup_submseteq; [apply (sublist_NoDup _ R); [by eapply NoDup_fmap_1, rows_after_NoDup|apply sublist_take]|]. intros x Hx.
    rewrite (rows_prefix s1 Hs1 _ _ _ _ Hlast). rewrite list.Forall_forall in Hvis. destruct (Hvis _ Hx) as [Hx1 Hf].
    apply elem_of_take in Hx as (i & Hx%list_elem_of_lookup_2 & _).
    apply elem_of_rows_after in Hx as (_ & Hc & [Hle _]%andb_true_iff); [|done].
    apply elem_of_rows_after; [done|]. by rewrite Hle, Hf. }
  assert (Hsome : s1 = s2 -> take keep R <> []).
  { intros <-. subst R. rewrite <-(rows_prefix s1 Hs1 _ _ _ _ Hlast), take_take, Nat.min_id.
    intros E. by rewrite E in Hlast. }
  assert (Hdone : forall next, o_server_seq o <= next ->
    (keep <? length (take (S (N.to_nat limit)) all1))%nat = false ->
    forall seq x, objects s1 !! seq = Some x -> cursor < seq ->
      delta_filter s1 vault member now x = true -> seq <= next).
  { intros next Hn Hall%keep_all seq x Hx Hc Hf. pose proof (Hs1 _ _ Hx). subst seq.
    rewrite Hall in Hlast. etrans; [|exact Hn]. apply (sorted_le_last _ _ _ (rows_after_sorted s1 Hs1 _ _) Hlast).
    by apply elem_of_rows_after. }
  destruct (Nat.ltb_spec (length (take keep R)) keep) as [Hlt|Hge].
  - split; simpl; rewrite ?N.ltb_irrefl, ?orb_false_r; [by apply take_whole|lia|lia| |lia|done|auto].
    by apply Hdone.
  - destruct (list.last (take keep R)) as [r|] eqn:Hr.
    2:{ apply last_None in Hr. rewrite Hr in Hge. simpl in Hge. lia. }
    assert (Hin : r ∈ R).
    { apply last_Some_elem_of, elem_of_take in Hr as (i & ?%list_elem_of_lookup_2 & _). done. }
    apply elem_of_rows_after in Hin as (_ & Hrc & [Hru%N.leb_le _]%andb_true_iff); [|done].
    split; simpl; [|lia|lia| | |done|auto].
    + unfold R in Hr |- *. rewrite (rows_prefix s2 Hs2 _ _ _ _ Hr). apply rows_after_ext; [done|].
      intros x _ _. destruct (N.leb_spec (o_server_seq x) (o_server_seq r)); simpl; [|done].
      by rewrite (proj2 (N.leb_le _ _)) by lia.
    + intros [Hall Hnext%N.ltb_ge]%orb_false_iff. by apply Hdone.
    + rewrite length_take. lia.
Qed.
End delta_page.

(** ** Following the cursor *)

Section reader.
Context (limit max_bytes : N) (member : bytes) (vault : option bytes).

(** pages asked for one after another, each with the two states of the store it
    is planned on and read from and the time of the request: all rows received
    and the last cursor *)
Fixpoint read_pages (reads : list (ServerDB * ServerDB * Z)) (cursor : N) : list ObjectRow * N :=
  match reads with
  | [] => ([], cursor)
  | (s1, s2, now) :: reads =>
      let pg := delta_page s1 s2 cursor limit max_bytes member now vault in
      let '(rows, last) := read_pages reads (dp_next_cursor pg) in
      (dp_rows pg ++ rows, last)
  end.

(** until the server says there is no more *)
Fixpoint read_all (fuel : nat) (s : ServerDB) (now : Z) (cursor : N) : option (list ObjectRow) :=
  match fuel with
  | O => None
  | S fuel =>
      let pg := delta_page s s cursor limit max_bytes member now vault in
      if dp_has_more pg
      then rows ← read_all fuel s now (dp_next_cursor pg); Some (dp_rows pg ++ rows)
      else Some (dp_rows pg)
  end.

Context (Hlimit : 0 < limit).

Definition reads_ok (reads : list (ServerDB * ServerDB * Z)) : Prop :=
  Forall (fun r => server_inv r.1.1 /\ server_inv r.1.2) reads.

Lemma inv_keyed s : server_inv s -> keyed s.
Proof. intros [H _]. by eapply log_inv_keyed. Qed.

Lemma read_pages_range reads cursor rows last :
  reads_ok reads -> read_pages reads cursor = (rows, last) ->
  cursor <= last /\ StronglySorted seq_lt rows /\
  Forall (fun o => cursor < o_server_seq o <= last) rows.
Proof.
  intros Hok. revert cursor rows. induction Hok as [|[[s1 s2] now] reads [H1 H2] _ IH]; intros cursor rows H; simpl in H.
  { injection H as <- <-. split_and!; [lia|constructor..]. }
  destruct (delta_page_spec s1 s2 cursor limit max_bytes member now vault (inv_keyed _ H1) (inv_keyed _ H2) Hlimit)
    as [Hrows Hc _ _ _ _ _]. set (pg := delta_page _ _ _ _ _ _ _ _) in *.
  destruct (read_pages reads (dp_next_cursor pg)) as [rest last'] eqn:Hrest. injection H as <- <-.
  destruct (IH _ _ Hrest) as (Hl & Hs & Hr).
  assert (Hpg : Forall (fun o => cursor < o_server_seq o <= dp_next_cursor pg) (dp_rows pg)).
  { apply list.Forall_forall. intros o. rewrite Hrows, elem_of_rows_after by by apply inv_keyed.
    intros (_ & ? & [?%N.leb_le _]%andb_true_iff). lia. }
  split_and!; [lia| |].
  - apply StronglySorted_app_2; [|rewrite Hrows; by apply rows_after_sorted, inv_keyed|done].
    intros x y Hx Hy. rewrite list.Forall_forall in Hpg, Hr. specialize (Hpg _ Hx). specialize (Hr _ Hy).
    unfold seq_lt. lia.
  - apply Forall_app. split; [eapply Forall_impl; [|exact Hpg]|eapply Forall_impl; [|exact Hr]]; simpl; lia.
Qed.

Lemma read_pages_visible reads cursor rows last o :
  reads_ok reads -> read_pages reads cursor = (rows, last) -> cursor < o_server_seq o <= last ->
  Forall (fun r => objects r.1.2 !! o_server_seq o = Some o /\
                   delta_filter r.1.2 vault member r.2 o = true) reads ->
  o ∈ rows.
Proof.
  intros Hok. revert cursor rows. induction Hok as [|[[s1 s2] now] reads [H1 H2] _ IH]; intros cursor rows H Ho Hvis; simpl in H.
  { injection H as <- <-. lia. }
  inversion Hvis as [|? ? [Hobj Hf] Hvis']; subst; simpl in *.
  destruct (delta_page_spec s1 s2 cursor limit max_bytes member now vault (inv_keyed _ H1) (inv_keyed _ H2) Hlimit)
    as [Hrows Hc _ _ _ _ _]. set (pg := delta_page _ _ _ _ _ _ _ _) in *.
  destruct (read_pages reads (dp_next_cursor pg)) as [rest last'] eqn:Hrest. injection H as <- <-.
  apply elem_of_app. destruct (N.le_gt_cases (o_server_seq o) (dp_next_cursor pg)) as [Hle|Hgt].
  - left. rewrite Hrows, elem_of_rows_after by by apply inv_keyed. split_and!; [done|lia|].
    by rewrite (proj2 (N.leb_le _ _) Hle), Hf.
  - right. eapply IH; [exact Hrest|lia|done].
Qed.

Lemma rows_after_split s cursor mid p :
  keyed s -> cursor <= mid ->
  rows_after s cursor (fun o => (o_server_seq o <=? mid) && p o) ++ rows_after s mid p = rows_after s cursor p.
Proof.
  intros Hs Hle. apply seq_sorted_unique.
  - apply StronglySorted_app_2; [|by apply rows_after_sorted..]. intros x y Hx Hy.
    apply elem_of_rows_after in Hx as (_ & _ & [?%N.leb_le _]%andb_true_iff); [|done].
    apply elem_of_rows_after in Hy as (_ & ? & _); [|done]. unfold seq_lt. lia.
  - by apply rows_after_sorted.
  - intros o. rewrite elem_of_app, !elem_of_rows_after by done. rewrite andb_true_iff, N.leb_le.
    destruct (N.le_gt_cases (o_server_seq o) mid); intuition lia.
Qed.

Lemma read_all_spec fuel s now cursor :
  keyed s -> (length (rows_after s cursor (delta_filter s vault member now)) < fuel)%nat ->
  read_all fuel s now cursor = Some (rows_after s cursor (delta_filter s vault member now)).
Proof.
  intros Hs. revert cursor. induction fuel as [|fuel IH]; intros cursor Hfuel; [lia|]. simpl.
  destruct (delta_page_spec s s cursor limit max_bytes member now vault Hs Hs Hlimit)
    as [Hrows Hc _ Hd _ _ Hne]. set (pg := delta_page _ _ _ _ _ _ _ _) in *.
  pose proof (rows_after_split s cursor (dp_next_cursor pg) (delta_filter s vault member now) Hs Hc) as Hsplit.
  rewrite <-Hrows in Hsplit. destruct (dp_has_more pg) eqn:Hmore.
  - rewrite IH; [by rewrite <-Hsplit|]. rewrite <-Hsplit, length_app in Hfuel.
    specialize (Hne eq_refl eq_refl). destruct (dp_rows pg); [done|]. simpl in Hfuel. lia.
  - f_equal. rewrite <-Hsplit. rewrite <-(app_nil_r (dp_rows pg)) at 1. f_equal. symmetry.
    apply elem_of_nil_inv. intros o. rewrite elem_of_rows_after by done. intros (Ho & Hlt & Hf).
    specialize (Hd eq_refl _ _ Ho ltac:(lia) Hf). lia.
Qed.
End reader.

(** the states a page is planned on and read from, both reached from [s] *)
Definition later_reads (s : ServerDB) (reads : list (ServerDB * ServerDB * Z)) : Prop :=
  Forall (fun r => exists evs evs', Forall event_ok evs /\ Forall event_ok evs' /\
    r.1.1 = run_events evs s /\ r.1.2 = run_events evs' (run_events evs s)) reads.

Lemma later_reads_cons s evs evs' now reads :
  Forall event_ok evs -> Forall event_ok evs' -> later_reads s reads ->
  later_reads s ((run_events evs s, run_events evs' (run_events evs s), now) :: reads).
Proof. intros H H' Hr. constructor; [|done]. by exists evs, evs'. Qed.

Lemma later_reads_ok s reads : server_inv s -> later_reads s reads -> reads_ok reads.
Proof.
  intros Hs Hl. eapply Forall_impl; [|exact Hl]. intros [[s1 s2] now] (evs & evs' & H & H' & E1 & E2).
  simpl in *. subst. split; [|apply run_events_advances; [done|]]; by apply run_events_advances.
Qed.

Lemma later_reads_keep s reads seq o :
  server_inv s -> later_reads s reads -> objects s !! seq = Some o -> o_tag o <> x07 ->
  Forall (fun r => objects r.1.2 !! seq = Some o) reads.
Proof.
  intros Hs Hl Ho Ht. eapply Forall_impl; [|exact Hl].
  intros [[s1 s2] now] (evs & evs' & H & H' & E1 & E2). simpl in *. subst.
  destruct (run_events_advances evs s H Hs) as [Hs1 Ha]. destruct (Ha (proj1 Hs)) as (_ & Hg & _).
  destruct (run_events_advances evs' _ H' Hs1) as [_ Ha']. destruct (Ha' (proj1 Hs1)) as (_ & Hg' & _).
  destruct (dg_objects _ _ Hg _ _ Ho) as [Ho1|[? _]]; [|done].
  by destruct (dg_objects _ _ Hg' _ _ Ho1) as [Ho2|[? _]].
Qed.

Lemma delta_answer cfg s1 s2 device cursor limit vault now pg :
  server_inv s1 -> server_inv s2 -> delta cfg s1 s2 device cursor limit vault now = Some pg ->
  page_spec s1 s2 (Z.to_N (Z.max (default 0%Z cursor) 0))
    (Z.to_N (Z.max 1 (Z.min (default (delta_page_size cfg) limit) (delta_max_page_size cfg))))
    (delta_max_page_bytes cfg) device now vault pg.
Proof.
  intros H1 H2. unfold delta. case_match; [done|]. intros [= <-].
  apply delta_page_spec; [by apply inv_keyed..|lia].
Qed.

(** ** Theorems *)

Definition sample_cfg : ServerConfig := mkConfig false 100 1000 500 1000 60.
Definition sample_db : ServerDB := run_events sample_events empty_db.

Lemma sample_db_inv : server_inv sample_db.
Proof. apply run_events_advances; [exact sample_events_ok|apply empty_inv]. Qed.

(** C37. A page of the delta holds exactly the rows that are visible to the reader
    when it is read and lie after its cursor up to the next one, in order, at most
    as many as the limit. A page of several rows keeps to the byte budget (one below the
    largest number of 64 bits) if each of them was visible already when the page was planned:
    a single row may exceed it, and so may rows that came into sight in between. While it
    says there is more, the cursor moves on; when it says there is no more, no row that was visible when
    it was planned lies beyond. *)
Theorem delta_page_exact cfg s1 s2 device cursor limit vault now pg :
  server_inv s1 -> server_inv s2 -> delta cfg s1 s2 device cursor limit vault now = Some pg ->
  page_spec s1 s2 (Z.to_N (Z.max (default 0%Z cursor) 0))
    (Z.to_N (Z.max 1 (Z.min (default (delta_page_size cfg) limit) (delta_max_page_size cfg))))
    (delta_max_page_bytes cfg) device now vault pg.
Proof. apply delta_answer. Qed.

Lemma delta_page_exact_witness : exists pg,
  delta sample_cfg sample_db sample_db (lit "owner") None (Some 3%Z) None 0 = Some pg /\
  page_spec sample_db sample_db 0 3 60 (lit "owner") 0 None pg /\
  (o_server_seq <$> dp_rows pg, dp_has_more pg, dp_next_cursor pg) = ([4], true, 4).
Proof.
  eexists. split; [reflexivity|]. split; [|vm_compute; reflexivity].
  exact (delta_page_exact sample_cfg sample_db sample_db (lit "owner") None (Some 3%Z) None 0 _
    sample_db_inv sample_db_inv eq_refl).
Defined.

(** C18. Readers that follow the cursor never miss a row and never see one twice,
    whatever the server does between and during their requests: the rows received
    come in strictly ascending order within the cursors passed, and every object
    of the log (account states apart) that lies within them and is visible
    whenever a page is read has been received. *)
Theorem pages_never_skip s reads limit max_bytes member vault cursor rows last :
  server_inv s -> later_reads s reads -> 0 < limit ->
  read_pages limit max_bytes member vault reads cursor = (rows, last) ->
  StronglySorted seq_lt rows /\ Forall (fun o => cursor < o_server_seq o <= last) rows /\
  forall seq o, objects s !! seq = Some o -> o_tag o <> x07 -> cursor < seq <= last ->
    Forall (fun r => delta_filter r.1.2 vault member r.2 o = true) reads -> o ∈ rows.
Proof.
  intros Hs Hl Hlim H. pose proof (later_reads_ok _ _ Hs Hl) as Hok.
  destruct (read_pages_range limit max_bytes member vault Hlim _ _ _ _ Hok H) as (_ & Hsort & Hrange).
  split_and!; [done..|]. intros seq o Ho Ht Hseq Hvis. pose proof (inv_keyed _ Hs _ _ Ho) as <-.
  apply (read_pages_visible limit max_bytes member vault Hlim _ _ _ _ _ Hok H Hseq).
  apply Forall_and; [by eapply later_reads_keep|done].
Qed.

Lemma pages_never_skip_witness : exists rows last,
  let s' := run_events [sample_push "k3" 40] sample_db in
  read_pages 1 60 (lit "owner") None
    [(run_events [] sample_db, run_events [sample_push "k3" 40] (run_events [] sample_db), 0%Z);
     (s', run_events [] s', 1%Z)] 4
    = (rows, last) /\ o_server_seq <$> rows = [5; 6] /\ StronglySorted seq_lt rows.
Proof.
  eexists _, _. split; [apply surjective_pairing|]. split; [vm_compute; reflexivity|].
  refine (proj1 (pages_never_skip sample_db _ 1 60 (lit "owner") None 4 _ _ sample_db_inv _ _
    (surjective_pairing _)));
    [|lia].
  assert (Hev : Forall event_ok [sample_push "k3" 40]) by (constructor; [exact sample_batch_parsed|done]).
  apply later_reads_cons with (evs := []) (evs' := [sample_push "k3" 40]); [done|exact Hev|].
  apply later_reads_cons with (evs := [sample_push "k3" 40]) (evs' := []); [exact Hev|done|].
  constructor.
Defined.

(** A reader of a store at rest gets everything: asking from its cursor until
    the server says there is no more takes at most one request more than there are
    rows to get, and yields exactly the rows visible to it after its cursor, in
    order. *)
Theorem reader_gets_everything s limit max_bytes member vault now cursor fuel :
  server_inv s -> 0 < limit ->
  (length (rows_after s cursor (delta_filter s vault member now)) < fuel)%nat ->
  read_all limit max_bytes member vault fuel s now cursor
    = Some (rows_after s cursor (delta_filter s vault member now)).
Proof. intros Hs Hl Hf. by apply read_all_spec; [|apply inv_keyed|]. Qed.

Lemma reader_gets_everything_witness :
  read_all 1 60 (lit "owner") None 5 sample_db 0 0
    = Some (rows_after sample_db 0 (delta_filter sample_db None (lit "owner") 0)) /\
  o_server_seq <$> rows_after sample_db 0 (delta_filter sample_db None (lit "owner") 0) = [4; 5; 6; 7].
Proof.
  split; [|vm_compute; reflexivity]. apply reader_gets_everything; [exact sample_db_inv|lia|].
  vm_compute. lia.
Defined.
