(* ===== verification/ServerAccess.v ===== *)
(** * Who reads and writes what on the server

    The handlers against the events of ServerInv.v, what a membership publication
    gives its members and takes from the others, and the checks on objects that
    decide about access. *)

From Stdlib Require Import Strings.Byte NArith ZArith Lia.
From stdpp Require Import base gmap sets list strings sorting countable.
From S2P Require Import Prelude Bytes CryptoPrims Crypto Storage StorageInv Membership MembershipThy.
From S2P Require Import SyncObject SyncPullThy AuthPayloads ServerCodec ServerStore ServerApi ServerInv ServerDelta.

Local Open Scope N_scope.

(** ** What the handlers hand to the store *)

Section handlers.
Context `{P : CryptoPrims}.

Lemma check_object_Ok cfg genesis device b it :
  check_object cfg genesis device b = Ok it ->
  parsed_ok it /\ po_bytes it = b /\ len b <= max_object_bytes cfg /\
  (p_tag (po_parsed it) = Some TAccountState -> p_author_pubkey (po_parsed it) = Some device).
Proof.
  unfold check_object. destruct (N.ltb_spec (max_object_bytes cfg) (len b)); [done|].
  intros (p & Hp & H')%bind_Ok. case_match; [done|]. case_match; [done|].
  destruct (bool_decide (p_tag p = Some TAccountState) && _) eqn:E; [done|]. injection H' as <-.
  split_and!; [done..|]. simpl. intros Ht. rewrite bool_decide_true in E by done.
  by apply negb_false_iff, bool_decide_eq_true in E.
Qed.

Lemma traverse_Ok {E A B} (f : A -> result E B) xs ys :
  traverse f xs = Ok ys <-> Forall2 (fun x y => f x = Ok y) xs ys.
Proof.
  revert ys. induction xs as [|x xs IH]; intros ys; simpl.
  - split; [intros [= <-]; constructor|by inversion 1].
  - rewrite bind_Ok. split.
    + intros (y & Hy & (ys' & Hys & [= <-])%bind_Ok). constructor; [done|by apply IH].
    + inversion 1 as [|? y ? ys' Hy Hys]; subst. exists y. split; [done|].
      apply bind_Ok. exists ys'. by rewrite IH.
Qed.

(** an access object has a valid signature *)
Definition acl_sig_ok (b : bytes) (p : ParsedObject) : Prop :=
  is_acl p = true -> verify_record_sig b = Ok tt.
Definition acl_signed (it : PushObj) : Prop := acl_sig_ok (po_bytes it) (po_parsed it).

Lemma check_signatures_Ok validate items u :
  check_signatures validate items = Ok u ->
  Forall (fun it => is_acl (po_parsed it) || validate = true -> verify_record_sig (po_bytes it) = Ok tt) items.
Proof.
  induction items as [|it items IH]; simpl; [constructor|]. intros ([] & H1 & H2)%bind_Ok.
  constructor; [|by apply IH]. intros Ha. by rewrite Ha in H1.
Qed.

Lemma write_accept_Ok s device items acl_only u :
  write_accept s device items acl_only = Ok u ->
  Forall (fun it => accept_object s device acl_only (po_parsed it) = Ok tt) items.
Proof.
  induction items as [|it items IH]; simpl; [constructor|]. intros ([] & H1 & H2)%bind_Ok.
  constructor; [done|by apply IH].
Qed.

Lemma checked_objects (R : PushObj -> Prop) (f : bytes -> result ErrorCode PushObj) objs items :
  (forall b it, f b = Ok it -> R it /\ po_bytes it = b) -> traverse f objs = Ok items ->
  Forall R items /\ po_bytes <$> items = objs.
Proof.
  intros Hf. rewrite traverse_Ok. induction 1 as [|b it objs' its Hb _ [IH1 IH2]]; [done|].
  destruct (Hf _ _ Hb) as [? <-]. split; [by constructor|]. simpl. by f_equal.
Qed.

(** what the three passes over the objects establish of each *)
Definition checked (cfg : ServerConfig) (s : ServerDB) (device : bytes) (it : PushObj) : Prop :=
  (parsed_ok it /\ len (po_bytes it) <= max_object_bytes cfg /\
   (p_tag (po_parsed it) = Some TAccountState -> p_author_pubkey (po_parsed it) = Some device)) /\
  (is_acl (po_parsed it) || validate_signatures cfg = true -> verify_record_sig (po_bytes it) = Ok tt) /\
  accept_object s device (negb (validate_signatures cfg)) (po_parsed it) = Ok tt.

Lemma push_checks_Ok cfg s device objs items :
  push_checks cfg s device objs = Ok items ->
  len objs <= max_objects_per_push cfg /\ po_bytes <$> items = objs /\
  Forall (checked cfg s device) items.
Proof.
  unfold push_checks. destruct (N.ltb_spec (max_objects_per_push cfg) (len objs)); [done|].
  intros (its & Ht & H')%bind_Ok. apply bind_Ok in H' as (u & Hs & H').
  apply bind_Ok in H' as (u' & Hw & [= <-]).
  eapply (checked_objects (fun it => parsed_ok it /\ len (po_bytes it) <= max_object_bytes cfg /\
    (p_tag (po_parsed it) = Some TAccountState -> p_author_pubkey (po_parsed it) = Some device))) in Ht
    as [Hp ?].
  2:{ intros b it (? & <- & ? & ?)%check_object_Ok. done. }
  apply check_signatures_Ok in Hs. apply write_accept_Ok in Hw.
  split_and!; [done..|]. apply Forall_and; [done|]. by apply Forall_and.
Qed.

Lemma checked_parsed cfg s device items :
  Forall (checked cfg s device) items -> Forall parsed_ok items /\ Forall acl_signed items.
Proof.
  intros H. split; (eapply Forall_impl; [|exact H]); intros it ((? & _ & _) & Hs & _); [done|].
  intros Ha. apply Hs. by rewrite Ha.
Qed.

Lemma check_grants_Ok objs items : check_grants objs = Ok items ->
  Forall parsed_ok items /\ po_bytes <$> items = objs /\
  Forall (fun it => p_tag (po_parsed it) = Some TMembershipGrant /\
                    verify_record_sig (po_bytes it) = Ok tt) items.
Proof.
  revert items. induction objs as [|b objs IH]; intros items; simpl; [by intros [= <-]|].
  intros (p & Hp & H)%bind_Ok. destruct (negb _) eqn:Ht; [done|].
  apply bind_Ok in H as ([] & Hv & H). apply bind_Ok in H as (rest & Hr & [= <-]).
  destruct (IH _ Hr) as (? & ? & ?). apply negb_false_iff, bool_decide_eq_true in Ht.
  split_and!; [by constructor|simpl; by f_equal|by constructor].
Qed.

Lemma publish_checks_Ok s account_id m_bytes grants re ne v m gs :
  publish_checks s account_id m_bytes grants re ne = Ok (v, m, gs) ->
  exists e author, parse_open m_bytes = Ok (po_parsed m) /\ po_bytes m = m_bytes /\
    p_tag (po_parsed m) = Some TMembershipManifest /\ verify_record_sig m_bytes = Ok tt /\
    p_vault_id (po_parsed m) = Some v /\ p_key_epoch (po_parsed m) = Some e /\ e <= i64_max /\
    re <> Some (Z.of_N e) /\ can_touch_vault s account_id v = true /\
    author = default [] (p_author_pubkey (po_parsed m)) /\
    author_role s v e author = Ok (Some Admin) /\ check_grants grants = Ok gs.
Proof.
  unfold publish_checks. intros (p & Hp & H)%bind_Ok. destruct (negb _) eqn:Ht; [done|].
  apply negb_false_iff, bool_decide_eq_true in Ht.
  apply bind_Ok in H as ([] & Hv & H). apply bind_Ok in H as (v' & Hvid%ok_or_Ok & H).
  apply bind_Ok in H as (pe & Hpe & H). apply bind_Ok in H as (epoch & Hep%ok_or_Ok & H).
  destruct (negb _) eqn:He in H; [done|]. apply negb_false_iff, bool_decide_eq_true in He.
  case_bool_decide as Hre; [done|]. destruct (can_touch_vault s account_id v') eqn:Hc; [|done].
  simpl in H. apply bind_Ok in H as (role & Hrole & H).
  destruct (negb _) eqn:Hadm in H; [done|]. apply negb_false_iff, bool_decide_eq_true in Hadm.
  apply bind_Ok in H as (gs' & Hgs & [= <- <- <-]). simpl.
  destruct pe as [e|]; [|done]. injection He as <-. unfold epoch_i64 in Hpe.
  destruct (p_key_epoch p) as [e'|] eqn:Hke; [|done].
  destruct (N.leb_spec e' i64_max); [|done]. injection Hpe as ->.
  exists e, (default [] (p_author_pubkey p)). rewrite N2Z.id in Hrole. by subst.
Qed.
End handlers.

(** ** What holds of every object that enters the log holds of the log *)

Section log_all.
Context (Q : bytes -> ParsedObject -> Prop).

Definition item_all (it : PushObj) : Prop := Q (po_bytes it) (po_parsed it).
Definition log_all (s : ServerDB) : Prop := forall seq o p,
  objects s !! seq = Some o -> parse_open (o_bytes o) = Ok p -> Q (o_bytes o) p.

Definition event_all (ev : ServerEvent) : Prop :=
  match ev with
  | EvPush _ _ items _ => Forall item_all items
  | EvPublish _ m gs _ _ => Forall item_all (m :: gs)
  | _ => True
  end.

Lemma committed_all items seqs s s' :
  committed items seqs s s' -> Forall parsed_ok items -> Forall item_all items ->
  log_all s -> log_all s'.
Proof.
  intros Hc Hp Hi Hs seq o p Ho Hparse.
  destruct (cm_new _ _ _ _ Hc _ _ Ho) as [?|(_ & it & Hit & Hb & _)]; [by eapply Hs|].
  rewrite list.Forall_forall in Hi, Hp. specialize (Hi _ Hit). specialize (Hp _ Hit).
  unfold item_all, parsed_ok in *. rewrite Hb in *. rewrite Hparse in Hp. by injection Hp as ->.
Qed.

Lemma elem_of_reemit_rows s v e o :
  o ∈ reemit_rows s v e <-> exists seq, objects s !! seq = Some o /\ reemitted s v e o = true.
Proof. unfold reemit_rows. by rewrite elem_of_stable_sort, elem_of_select_where. Qed.

Lemma reemitted_all s v e items :
  log_all s -> Forall parsed_ok items -> po_bytes <$> items = o_bytes <$> reemit_rows s v e ->
  Forall item_all items.
Proof.
  intros Hs Hp Hb. apply list.Forall_forall. intros it Hit.
  assert (po_bytes it ∈ o_bytes <$> reemit_rows s v e) as (o & Hbo & Ho)%list_elem_of_fmap
    by (rewrite <-Hb; by apply list_elem_of_fmap_2).
  apply elem_of_reemit_rows in Ho as (seq & Ho & _). rewrite list.Forall_forall in Hp.
  unfold item_all. rewrite Hbo. apply (Hs _ _ _ Ho). rewrite <-Hbo. by apply Hp.
Qed.

Lemma run_event_all ev s :
  event_ok ev -> event_all ev -> log_inv (next_seq s) s -> log_all s -> log_all (run_event ev s).
Proof.
  intros Hok Hsg Hi Hs. destruct ev; simpl in *; try done.
  - unfold push_commit. destruct (push_tx idem req_hash items now s) as [[[r'|]|e] s1] eqn:Ht; try done.
    destruct (push_tx_Ok _ _ _ _ _ _ _ Hok Hi Ht) as (s2 & Hc & _ & E). simpl.
    pose proof (committed_all _ _ _ _ Hc Hok Hsg Hs). destruct idem; [destruct E as [_ ->]|subst]; done.
  - destruct (store_grants_publish _ _ _ _ _ s) as [[seqs|e] s'] eqn:H;
      [|apply publish_Err in H as ->; done].
    destruct (publish_Ok _ _ _ _ _ _ _ _ Hok Hi H) as (s1 & s2 & items & seqs' & H1 & H2 & Hp & Hb & ->).
    pose proof (committed_all _ _ _ _ H1 Hok Hsg Hs) as Hs1.
    pose proof (reemitted_all _ _ _ _ Hs1 Hp Hb) as Hi2.
    pose proof (committed_all _ _ _ _ H2 Hp Hi2 Hs1). by destruct revoke_epoch.
  - unfold claim_insert, mbind, M_bind, get_state. by destruct (s_vaults s !! vault_id).
Qed.

Lemma run_events_all evs s :
  Forall event_ok evs -> Forall event_all evs -> server_inv s -> log_all s ->
  log_all (run_events evs s).
Proof.
  intros Hok. revert s. induction Hok as [|ev evs Hev _ IH]; intros s Hsg Hi Hs; [done|].
  inversion Hsg; subst. simpl. apply IH; [done|by apply run_event_inv|].
  by apply run_event_all; [| |apply Hi|].
Qed.
End log_all.

(** ** Theorems: what reaches the tables *)

Section reaches.
Context `{P : CryptoPrims}.

Definition event_signed (ev : ServerEvent) : Prop := event_all acl_sig_ok ev.

(** a change one event makes, with the objects the handlers let through *)
Definition one_event (s s' : ServerDB) : Prop :=
  s' = s \/ exists ev, event_ok ev /\ event_signed ev /\ s' = run_event ev s.

Lemma push_objects_run idem h items now s r s' :
  push_objects idem h items now s = (r, s') ->
  (s' = s \/ s' = run_event (EvPush idem h items now) s) /\ (forall e, r = Err e -> s' = s).
Proof.
  unfold push_objects. destruct (push_lookup idem h s); [intros [= <- <-]; auto|]. intros H. split.
  - right. simpl. by rewrite H.
  - intros e ->. unfold push_commit in H. by destruct (push_tx idem h items now s) as [[[?|]|?] ?]; simplify_eq.
Qed.

Lemma push_run cfg device body objs idem now s r s' :
  push cfg device body objs idem now s = (r, s') ->
  one_event s s' /\ (forall e, r = Err e -> s' = s).
Proof.
  unfold push. intros [(items & s1 & H1 & H)|(e & [= _ <-] & ->)]%M_bind_run; [|split; [by left|done]].
  unfold query in H1. injection H1 as Hc <-. apply push_checks_Ok in Hc as (_ & _ & [Hp Hs]%checked_parsed).
  apply M_bind_run in H as [([] & s1 & [= _ <-] & H)|(e & [= _ <-] & ->)]; [|split; [by left|done]].
  apply M_bind_run in H as [(res & s1 & H & [= <- <-])|(e & H & ->)];
    apply push_objects_run in H as [Hs' He].
  - split; [|done]. destruct Hs' as [->| ->]; [by left|right].
    by exists (EvPush idem (sha256 (device ++ body)) items now).
  - split; [|by intros; apply (He e)]. left. by apply (He e).
Qed.

Lemma publish_run account_id m_bytes grants re ne now s r s' :
  grants_publish account_id m_bytes grants re ne now s = (r, s') ->
  one_event s s' /\ (forall e, r = Err e -> s' = s).
Proof.
  unfold grants_publish. intros [([[v m] gs] & s1 & H1 & H)|(e & [= _ <-] & ->)]%M_bind_run; [|split; [by left|done]].
  unfold query in H1. injection H1 as Hc <-.
  apply publish_checks_Ok in Hc as (e & a & Hp & Hb & Ht & Hv & _ & _ & _ & _ & _ & _ & _ & Hg).
  apply check_grants_Ok in Hg as (Hpg & _ & Hvg). split.
  - right. exists (EvPublish v m gs re now). split_and!.
    + constructor; [|done]. unfold parsed_ok. by rewrite Hb.
    + constructor; [by intros _; rewrite Hb|]. eapply Forall_impl; [|exact Hvg]. by intros it [_ ?] _.
    + simpl. by rewrite H.
  - intros e' ->. by apply publish_Err in H.
Qed.

(** The push and the publication of grants change the store by one event whose
    objects are parsed from the bytes received and whose manifests and grants have
    valid signatures, whatever the signature setting; a refused request changes
    nothing. *)
Theorem handlers_refine_events cfg device body objs idem now account_id m_bytes grants re ne s :
  let pushed := push cfg device body objs idem now s in
  let published := grants_publish account_id m_bytes grants re ne now s in
  one_event s pushed.2 /\ one_event s published.2 /\
  (is_err pushed.1 = true -> pushed.2 = s) /\ (is_err published.1 = true -> published.2 = s).
Proof.
  destruct (push cfg device body objs idem now s) as [r s'] eqn:H.
  destruct (grants_publish account_id m_bytes grants re ne now s) as [r2 s2] eqn:H2.
  apply push_run in H as [? He]. apply publish_run in H2 as [? He2]. simpl.
  split_and!; [done..| |]; intros Herr; [destruct r|destruct r2]; try done; eauto.
Qed.

(** Every row of the access tables is one a client accepts as signed: a grant
    row at (vault, member, epoch) carries the role, wrapped key, author and
    signature of a grant object for exactly that vault, member and epoch with a
    valid signature by that author, and a manifest row those of a validly signed
    manifest of that vault and epoch. *)
Theorem access_rows_authentic evs :
  Forall event_ok evs -> Forall event_signed evs ->
  let s := run_events evs empty_db in
  (forall v k e g, s_grants s !! (v, k, e) = Some g -> exists G,
     mg_vault_id G = v /\ mg_member_pubkey G = k /\ mg_key_epoch G = e /\
     sg_role g = Byte.to_N (role_u8 (mg_role G)) /\ sg_wrapped_vk g = mg_wrapped_vk G /\
     sg_author g = mg_author_pubkey G /\ sg_signature g = mg_signature G /\ client_signed (OGrant G)) /\
  (forall v e m, s_manifests s !! (v, e) = Some m -> client_signed (OManifest
     (mkManifest v e (sm_blob m) (sm_signature m) (sm_author m)))).
Proof.
  intros Hok Hsg s. destruct (run_events_advances evs empty_db Hok empty_inv) as [[Hi _] _].
  pose proof (run_events_all acl_sig_ok evs empty_db Hok Hsg empty_inv ltac:(done)) as Hs.
  fold s in Hi, Hs. split.
  - intros v k e g Hg. destruct (li_grants _ _ Hi _ _ _ _ Hg) as (p & (b & now & Ho & Hp) & Ht & Hv & Hk & He & Hr & Hw & Hsig & Ha).
    specialize (Hs _ _ _ Ho Hp). unfold acl_sig_ok, is_acl in Hs. rewrite Ht in Hs.
    specialize (Hs eq_refl). simpl in Hs. rewrite parse_open_agrees in Hp.
    destruct (from_bytes b) as [o|] eqn:Hb; [|done]. injection Hp as <-.
    rewrite (verify_record_agrees _ _ Hb) in Hs. destruct o as [| | |G| | |]; try done.
    exists G. simpl in *. injection He as <-. split_and!; done.
  - intros v e m Hm. destruct (li_manifests _ _ Hi _ _ _ Hm) as (p & (b & now & Ho & Hp) & Ht & Hv & He & Hbl & Hsig & Ha).
    specialize (Hs _ _ _ Ho Hp). unfold acl_sig_ok, is_acl in Hs. rewrite Ht in Hs.
    specialize (Hs eq_refl). simpl in Hs. rewrite parse_open_agrees in Hp.
    destruct (from_bytes b) as [o|] eqn:Hb; [|done]. injection Hp as <-.
    rewrite (verify_record_agrees _ _ Hb) in Hs. destruct o as [| |M| | | |]; try done.
    simpl in *. injection He as <-. subst v. rewrite Hbl, Hsig, Ha. by destruct M.
Qed.
End reaches.

(** ** What a push may write *)

(** [a] holds at least role [r] in vault [v] at epoch [e]: by the manifest of that
    epoch, or as the owner the manifest does not list, or because nobody owns [v] *)
Definition holds_role (s : ServerDB) (v : bytes) (e : N) (a : bytes) (r : MemberRole) : Prop :=
  (exists m ms r', s_manifests s !! (v, e) = Some m /\ parse_member_set (sm_blob m) = Ok ms /\
     ms_key_epoch ms = e /\ ms_role_of ms a = Some r' /\ role_geb r' r = true) \/
  ((forall m ms, s_manifests s !! (v, e) = Some m -> parse_member_set (sm_blob m) = Ok ms ->
      ms_role_of ms a = None) /\
   match s_vaults s !! v with Some row => sv_owner_pubkey row = a | None => True end).

Lemma author_role_spec s v e a r r' :
  author_role s v e a = Ok (Some r') -> role_geb r' r = true -> holds_role s v e a r.
Proof.
  unfold author_role, get_manifest, get_vault_owner. intros (from & Hf & H)%bind_Ok Hr.
  assert (Hl : match from with
    | Some x => exists m ms, s_manifests s !! (v, e) = Some m /\ parse_member_set (sm_blob m) = Ok ms /\
        ms_key_epoch ms = e /\ ms_role_of ms a = Some x
    | None => forall m ms, s_manifests s !! (v, e) = Some m -> parse_member_set (sm_blob m) = Ok ms ->
        ms_role_of ms a = None
    end).
  { destruct (s_manifests s !! (v, e)) as [m|]; [|by injection Hf as <-].
    apply bind_Ok in Hf as (ms & Hms & Hf). destruct (N.eqb_spec (ms_key_epoch ms) e); [|done].
    injection Hf as <-. destruct (ms_role_of ms a) eqn:E; [by exists m, ms|].
    intros m' ms' [= <-] Hms'. rewrite Hms in Hms'. by injection Hms' as <-. }
  destruct from as [x|].
  - injection H as ->. destruct Hl as (m & ms & ? & ? & ? & ?). left. by exists m, ms, r'.
  - right. split; [done|]. destruct (s_vaults s !! v) as [row|]; simpl in H; [|done].
    destruct (bytes_eqb (sv_owner_pubkey row) a) eqn:E; [|done]. by apply bytes_eqb_true.
Qed.

Definition push_permitted `{P : CryptoPrims} (cfg : ServerConfig) (s : ServerDB) (device : bytes)
    (it : PushObj) : Prop :=
  let p := po_parsed it in
  len (po_bytes it) <= max_object_bytes cfg /\
  match p_tag p with
  | Some TMembershipManifest | Some TMembershipGrant =>
      verify_record_sig (po_bytes it) = Ok tt /\
      exists v e a, p_vault_id p = Some v /\ p_key_epoch p = Some e /\ p_author_pubkey p = Some a /\
        holds_role s v e a Admin
  | Some TVault | Some TItem => validate_signatures cfg = true ->
      verify_record_sig (po_bytes it) = Ok tt /\
      exists v e a, p_vault_id p = Some v /\ p_key_epoch p = Some e /\ p_author_pubkey p = Some a /\
        holds_role s v e a Editor
  | Some TAccountState => p_author_pubkey p = Some device
  | Some TAudit => validate_signatures cfg = true -> is_Some (genesis_ed s) /\ genesis_ed s = p_author_pubkey p
  | Some TKeyset => True
  | None => False
  end.

(** the open columns of an object are those of its kind *)
Lemma parsed_columns it : parsed_ok it -> exists o, from_bytes (po_bytes it) = Ok o /\ po_parsed it = open_columns o.
Proof.
  unfold parsed_ok. rewrite parse_open_agrees. destruct (from_bytes (po_bytes it)) as [o|]; [|done].
  intros [= <-]. by exists o.
Qed.

Lemma epoch_i64_Ok e x : epoch_i64 e = Ok x -> x = e.
Proof. unfold epoch_i64. repeat case_match; naive_solver. Qed.

Lemma accept_author s device p v e a x (k : option MemberRole -> result ErrorCode unit) :
  p_vault_id p = Some v -> p_key_epoch p = Some e -> p_author_pubkey p = Some a ->
  (vault_id ← ok_or (p_vault_id p) EMalformed;
   epoch ← epoch_i64 (p_key_epoch p);
   role ← author_role s vault_id (default 0 epoch) (default device (p_author_pubkey p));
   k role) = Ok tt ->
  (forall role, k role = Ok tt -> exists r, role = Some r /\ role_geb r x = true) ->
  exists v e a, p_vault_id p = Some v /\ p_key_epoch p = Some e /\ p_author_pubkey p = Some a /\
    holds_role s v e a x.
Proof.
  intros Hv He Ha (v' & Hv'%ok_or_Ok & H)%bind_Ok Hk. apply bind_Ok in H as (ep & Hep%epoch_i64_Ok & H).
  apply bind_Ok in H as (role & Hr & H). rewrite Hep, He, Ha in Hr. simpl in Hr.
  assert (v' = v) as -> by congruence. destruct (Hk _ H) as (r & -> & Hge). exists v, e, a.
  split_and!; [done..|]. by eapply author_role_spec.
Qed.

Lemma editor_writes role :
  match role with Some r => if role_geb r Editor then Ok tt else Err EForbidden | None => Err EForbidden end
    = Ok tt -> exists r, role = Some r /\ role_geb r Editor = true.
Proof. destruct role as [r|]; [|done]. destruct (role_geb r Editor) eqn:E; [|done]. by exists r. Qed.
Lemma admin_governs role :
  (if bool_decide (role = Some Admin) then Ok tt else Err EForbidden) = Ok tt ->
  exists r, role = Some r /\ role_geb r Admin = true.
Proof. case_bool_decide; [|done]. by exists Admin. Qed.

Lemma checked_permitted `{P : CryptoPrims} cfg s device it :
  checked cfg s device it -> push_permitted cfg s device it.
Proof.
  intros ((Hp & Hlen & Hacc) & Hsig & Hok). destruct (parsed_columns _ Hp) as (o & _ & Hcols).
  unfold push_permitted. split; [done|]. unfold is_acl in Hsig. unfold accept_object in Hok.
  destruct o as [v|i|m|g|a|k|a]; rewrite Hcols in Hok, Hsig, Hacc |- *; cbn [p_tag] in *.
  - intros Hv. rewrite Hv in Hok, Hsig. split; [by apply Hsig|].
    exact (accept_author s device (open_columns (OVault v)) _ _ _ _ _ eq_refl eq_refl eq_refl Hok editor_writes).
  - intros Hv. rewrite Hv in Hok, Hsig. split; [by apply Hsig|].
    exact (accept_author s device (open_columns (OItem i)) _ _ _ _ _ eq_refl eq_refl eq_refl Hok editor_writes).
  - split; [by apply Hsig|].
    exact (accept_author s device (open_columns (OManifest m)) _ _ _ _ _ eq_refl eq_refl eq_refl Hok admin_governs).
  - split; [by apply Hsig|].
    exact (accept_author s device (open_columns (OGrant g)) _ _ _ _ _ eq_refl eq_refl eq_refl Hok admin_governs).
  - intros Hv. rewrite Hv in Hok. simpl in Hok. destruct (genesis_ed s) as [ed|]; [|done].
    destruct (bytes_eqb ed (ao_author_pubkey a)) eqn:E; [|done]. apply bytes_eqb_true in E as ->.
    split; [by eexists|done].
  - done.
  - by apply Hacc.
Qed.

(** What a push may write: at most the configured number of objects, none larger
    than allowed; manifests and grants only with a valid signature by an admin of
    their vault at their epoch, also when signature checks are off; when they are
    on, records and items only with a valid signature by an editor or admin of their
    vault at their epoch, and audit entries only by the instance owner; account
    states only of the pushing account; and exactly the objects received. *)
Theorem push_enforces_roles `{P : CryptoPrims} cfg s device objs items :
  push_checks cfg s device objs = Ok items ->
  po_bytes <$> items = objs /\ len objs <= max_objects_per_push cfg /\
  Forall (push_permitted cfg s device) items.
Proof.
  intros (? & ? & H)%push_checks_Ok. split_and!; [done..|].
  eapply Forall_impl; [|exact H]. apply checked_permitted.
Qed.

(** ** A team vault on the server to evaluate on *)

(** vault [vid] of the account with key [owner] *)
Definition team_vault (vid : string) (owner : byte) : PushObj :=
  push_obj (OVault (mkVaultRecord (lit vid) Cloud (lit "name") (lit "vk") 1 false (lit "sig")
    (Sample.key32 owner) 1 OfflineAllowed [])).
Definition team_item (vid : string) (owner : byte) (ver : N) : PushObj :=
  push_obj (OItem (mkItemRecord (lit vid) (lit "i") 2 (lit "secret") (lit "ik") ver false (lit "sig")
    (Sample.key32 owner) 0 0 1)).
Definition team_manifest (vid : string) (admin : byte) (e : N) (members : list Member) : PushObj :=
  push_obj (OManifest (unwrap_or (mkManifest [] 0 [] [] [])
    (@build_manifest Sample.prims (sample_keyset admin) (lit vid) e members))).
Definition team_grant (vid : string) (admin member : byte) (e : N) : PushObj :=
  push_obj (OGrant (unwrap_or (mkGrant [] [] 0 Viewer 0 [] [] [])
    (@build_grant Sample.prims (sample_keyset admin) (lit vid) (Sample.key32 member)
       (Sample.key32 member) Viewer e sample_vk []))).

(** x01 owns vault "v" and admits x02 at epoch 1 *)
Definition team_events : list ServerEvent :=
  [EvPush None (lit "h") [team_vault "v" x01; team_item "v" x01 1] 1;
   EvPublish (lit "v") (team_manifest "v" x01 1 sample_members) [team_grant "v" x01 x02 1] None 2].
Definition team_db : ServerDB := run_events team_events empty_db.

(** Splits a [Forall] over a list written out. *)
Ltac each_elem tac :=
  lazymatch goal with
  | |- Forall _ [] => apply List.Forall_nil
  | |- Forall _ (_ :: _) => apply list.Forall_cons; split; [tac|each_elem tac]
  end.

Lemma parsed_push_obj o : is_ok (parse_open (obj_bytes o)) = true -> parsed_ok (push_obj o).
Proof. unfold parsed_ok, push_obj. simpl. by destruct (parse_open (obj_bytes o)). Qed.
Ltac parsed_item := apply parsed_push_obj; vm_compute; reflexivity.

Lemma team_events_ok : Forall event_ok team_events.
Proof. unfold team_events. each_elem ltac:(cbn [event_ok]; each_elem parsed_item). Qed.
Lemma team_events_signed : Forall (@event_signed Sample.prims) team_events.
Proof.
  unfold team_events. each_elem ltac:(unfold event_signed, event_all;
    each_elem ltac:(intros H; vm_compute in H |- *; first [discriminate H|reflexivity])).
Qed.
Lemma team_db_inv : server_inv team_db.
Proof. apply run_events_advances; [exact team_events_ok|apply empty_inv]. Qed.

Lemma access_rows_authentic_witness : exists G, mg_vault_id G = lit "v" /\
  mg_member_pubkey G = Sample.key32 x02 /\ @client_signed Sample.prims (OGrant G).
Proof.
  destruct (@access_rows_authentic Sample.prims team_events team_events_ok team_events_signed) as [H _].
  assert (Hg : is_Some (s_grants (run_events team_events empty_db) !! (lit "v", Sample.key32 x02, 1)))
    by (vm_compute; eauto).
  destruct Hg as [g Hg]. destruct (H _ _ _ _ Hg) as (G & H1 & H2 & _ & _ & _ & _ & _ & H3).
  exists G. exact (conj H1 (conj H2 H3)).
Defined.

(** ** Revocation *)

Lemma latest_manifest_epoch_Some s v e :
  (exists m, s_manifests s !! (v, e) = Some m) ->
  (forall e' m, s_manifests s !! (v, e') = Some m -> e' <= e) -> latest_manifest_epoch s v = Some e.
Proof.
  intros (m & Hm) Hmax. unfold latest_manifest_epoch.
  set (l := (filter _ _).*2). assert (Hl : forall e', e' ∈ l <-> exists m, s_manifests s !! (v, e') = Some m).
  { intros e'. unfold l. rewrite list_elem_of_fmap. split.
    - intros ([v' e''] & -> & [Hv Hin]%list_elem_of_filter). simpl in *. subst v'.
      apply list_elem_of_fmap in Hin as ([k m'] & -> & Hin%elem_of_map_to_list). by exists m'.
    - intros (m' & Hm'). exists (v, e'). split; [done|]. apply list_elem_of_filter. split; [done|].
      apply list_elem_of_fmap. exists (v, e', m'). by rewrite elem_of_map_to_list. }
  assert (He : e ∈ l) by (apply Hl; by exists m).
  assert (Hle : Forall (fun e' => e' <= e) l).
  { apply list.Forall_forall. intros e' (m' & ?)%Hl. by eapply Hmax. }
  clearbody l. clear -He Hle. destruct l as [|x l]; [by apply elem_of_nil in He|]. f_equal.
  inversion Hle as [|? ? Hx Hl]; subst. clear Hle.
  assert (Hb : forall l, Forall (fun e' => e' <= e) l -> x <= e ->
    x <= foldr N.max x l <= e /\ Forall (fun e' => e' <= foldr N.max x l) l).
  { clear. induction 1 as [|y l Hy Hl IH]; intros Hx; simpl; [split; [lia|constructor]|].
    destruct (IH Hx) as [? ?]. split; [lia|]. constructor; [lia|]. eapply Forall_impl; [|done]. simpl. lia. }
  destruct (Hb l Hl Hx) as [? Hall]. apply elem_of_cons in He as [->|He]; [lia|].
  rewrite list.Forall_forall in Hall. specialize (Hall _ He). lia.
Qed.

(** object [p] lets [member] into vault [v] at or after epoch [e] *)
Definition admits (v member : bytes) (e : N) (p : ParsedObject) : Prop :=
  default [] (p_vault_id p) = v /\
  match p_tag p with
  | Some TMembershipGrant => default [] (p_member_pubkey p) = member /\ p_key_epoch p = Some e
  | Some TMembershipManifest => exists e', p_key_epoch p = Some e' /\ e < e'
  | _ => False
  end.
Definition not_admitting (v member : bytes) (e : N) (_ : bytes) (p : ParsedObject) : Prop :=
  ~ admits v member e p.

(** with no such object in the log, the manifest of epoch [e] in the tables and
    another owner, [member] cannot read [v] *)
Lemma shut_out v member e s now row :
  server_inv s -> log_all (not_admitting v member e) s -> is_Some (s_manifests s !! (v, e)) ->
  s_vaults s !! v = Some row -> sv_owner_pubkey row <> member ->
  can_read_vault s member now v = false.
Proof.
  intros [Hi _] Hlog [m Hm] Hrow Hown. unfold can_read_vault, get_vault_owner. rewrite Hrow. simpl.
  rewrite bool_decide_false by congruence. simpl.
  assert (Hfree : forall seq p, logged s seq p -> ~ admits v member e p).
  { intros seq p (b & t & Ho & Hp). exact (Hlog _ _ _ Ho Hp). }
  rewrite (latest_manifest_epoch_Some s v e); [|by exists m|].
  - unfold member_has_active_grant. destruct (s_grants s !! (v, member, e)) as [g|] eqn:Hg; [|done].
    destruct (li_grants _ _ Hi _ _ _ _ Hg) as (p & Hl & Ht & Hv & Hk & He & _).
    destruct (Hfree _ _ Hl). unfold admits. by rewrite Ht.
  - intros e' m' Hm'. destruct (li_manifests _ _ Hi _ _ _ Hm') as (p & Hl & Ht & Hv & He & _).
    destruct (N.le_gt_cases e' e) as [|Hgt]; [done|]. destruct (Hfree _ _ Hl). unfold admits. rewrite Ht.
    split; [done|]. by exists e'.
Qed.

(** no row of a vault the reader cannot read is visible *)
Lemma invisible hi s v member now vault seq o :
  log_inv hi s -> v <> [] -> can_read_vault s member now v = false ->
  objects s !! seq = Some o -> o_vault_id o = Some v -> delta_filter s vault member now o = false.
Proof.
  intros Hi Hv Hr Ho Hvid. destruct vault as [v'|]; simpl.
  - unfold delta_visible_in_vault. rewrite Hvid. case_bool_decide as E; [|done]. injection E as <-. done.
  - unfold delta_visible. rewrite Hvid, Hr. destruct v as [|v0 v]; [done|]. simpl.
    destruct (li_rows _ _ Hi _ _ Ho) as (_ & p & (b & t & Hrow & Hp) & _).
    rewrite Ho in Hrow. injection Hrow as ->. simpl in *. rewrite parse_open_agrees in Hp.
    destruct (from_bytes b) as [obj|]; [|done]. injection Hp as <-. by destruct obj.
Qed.

Lemma not_admitting_manifest v member e b p :
  p_tag p = Some TMembershipManifest -> p_key_epoch p = Some e -> not_admitting v member e b p.
Proof. intros Ht He [_ Ha]. rewrite Ht in Ha. destruct Ha as (e' & ? & ?). simplify_eq. lia. Qed.

(** a published manifest has its row *)
Lemma publish_manifest_row v m gs re now s seqs s' e :
  server_inv s -> event_ok (EvPublish v m gs re now) ->
  store_grants_publish v m gs re now s = (Ok seqs, s') ->
  p_tag (po_parsed m) = Some TMembershipManifest -> p_vault_id (po_parsed m) = Some v ->
  p_key_epoch (po_parsed m) = Some e -> is_Some (s_manifests s' !! (v, e)).
Proof.
  intros [Hi _] Hok H Ht Hv He.
  destruct (publish_Ok _ _ _ _ _ _ _ _ Hok Hi H) as (s1 & s2 & items & seqs' & H1 & H2 & _ & _ & ->).
  pose proof (cm_stored _ _ _ _ H1) as Hst. inversion Hst as [|q ? ? ? Hq _]; subst.
  destruct Hq as (t & Ho); [by rewrite Ht|].
  assert (Hl : logged s1 q (po_parsed m)) by (exists (po_bytes m), t; split; [done|by inversion Hok]).
  apply (li_derived _ _ (cm_inv _ _ _ _ H1)) in Hl. unfold derived in Hl. rewrite Ht, Hv in Hl.
  destruct Hl as (e' & row & He' & Hrow & _). simplify_eq. simpl in Hrow.
  assert (s_manifests s2 !! (v, e) = Some row).
  { eapply lookup_weaken; [exact Hrow|]. apply H2. }
  destruct re; by exists row.
Qed.

(** C20. Revocation holds from the publication on. Once a manifest of a new epoch of
    a vault is published without a grant of that epoch for somebody (not its owner),
    then as long as nobody enters such a grant or a later manifest, that account
    cannot read the vault: no page of any delta holds one of its objects, planned
    on whatever state, and the catalog does not list it. *)
Theorem revoked_member_shut_out v m gs re now s seqs s' e member row evs :
  server_inv s -> event_ok (EvPublish v m gs re now) ->
  store_grants_publish v m gs re now s = (Ok seqs, s') ->
  p_tag (po_parsed m) = Some TMembershipManifest -> p_vault_id (po_parsed m) = Some v ->
  p_key_epoch (po_parsed m) = Some e -> v <> [] ->
  log_all (not_admitting v member e) s -> Forall (item_all (not_admitting v member e)) gs ->
  s_vaults s !! v = Some row -> sv_owner_pubkey row <> member ->
  Forall event_ok evs -> Forall (event_all (not_admitting v member e)) evs ->
  let s2 := run_events evs s' in
  (forall now', can_read_vault s2 member now' v = false) /\
  (forall cfg s1 cursor limit vault now' pg o, server_inv s1 ->
     delta cfg s1 s2 member cursor limit vault now' = Some pg -> o ∈ dp_rows pg ->
     o_vault_id o <> Some v) /\
  (forall now', v ∉ (av_vault_id <$> list_accessible_vaults s2 member now')).
Proof.
  intros Hs Hok H Ht Hv He Hne Hlog Hgs Hrow Hown Hoks Hall s2.
  pose proof (publish_manifest_row _ _ _ _ _ _ _ _ _ Hs Hok H Ht Hv He) as Hm.
  pose proof (publish_event _ _ _ _ _ _ _ _ H) as Hs'.
  pose proof (run_event_inv _ _ Hok Hs) as Hinv'. rewrite <-Hs' in Hinv'.
  assert (Hlog' : log_all (not_admitting v member e) s').
  { rewrite Hs'. apply run_event_all; [done| |apply Hs|done].
    constructor; [by apply not_admitting_manifest|done]. }
  destruct (run_events_advances evs s' Hoks Hinv') as [Hinv2 Hadv]. destruct (Hadv (proj1 Hinv')) as (_ & Hg2 & _).
  pose proof (run_event_advances _ s Hok (proj1 Hs)) as (_ & Hg & _). rewrite <-Hs' in Hg.
  destruct (dg_vaults _ _ Hg _ _ Hrow) as (row1 & Hrow1 & Ho1 & _).
  destruct (dg_vaults _ _ Hg2 _ _ Hrow1) as (row2 & Hrow2 & Ho2 & _).
  assert (Hout : forall now', can_read_vault s2 member now' v = false).
  { intros now'. apply (shut_out v member e s2 now' row2); [done| | |done|congruence].
    - by apply run_events_all.
    - destruct Hm as [mr Hm]. exists mr. eapply lookup_weaken; [exact Hm|apply Hg2]. }
  split_and!; [done| |].
  - intros cfg s1 cursor limit vault now' pg o H1 Hd Hin Hvid. apply delta_answer in Hd; [|done..].
    rewrite (pg_rows _ _ _ _ _ _ _ _ _ Hd) in Hin.
    apply elem_of_rows_after in Hin as (Ho & _ & [_ Hf]%andb_true_iff); [|by apply inv_keyed].
    by rewrite (invisible _ _ _ _ _ _ _ _ (proj1 Hinv2) Hne (Hout now') Ho Hvid) in Hf.
  - intros now' Hin. unfold list_accessible_vaults in Hin. rewrite <-list_fmap_compose in Hin.
    apply list_elem_of_fmap in Hin as ([v' r] & Hv' & Hin). simpl in Hv'. rewrite <-Hv' in Hin.
    rewrite elem_of_stable_sort in Hin. apply list_elem_of_filter in Hin as [Hr _]. simpl in Hr.
    by rewrite Hout in Hr.
Qed.

(** x01 rotates "v" to epoch 2 without x02 *)
Definition rotation_manifest : PushObj := team_manifest "v" x01 2 [mkMember (Sample.key32 x01) Admin].
Definition rotated_db : ServerDB :=
  (store_grants_publish (lit "v") rotation_manifest [] (Some 1%Z) 3 team_db).2.

(** [not_admitting] decided, for evaluation *)
Definition admitsb (v member : bytes) (e : N) (p : ParsedObject) : bool :=
  bool_decide (default [] (p_vault_id p) = v) &&
  match p_tag p with
  | Some TMembershipGrant => bool_decide (default [] (p_member_pubkey p) = member) &&
      bool_decide (p_key_epoch p = Some e)
  | Some TMembershipManifest => match p_key_epoch p with Some e' => e <? e' | None => false end
  | _ => false
  end.
Lemma admitsb_false v member e b p : admitsb v member e p = false -> not_admitting v member e b p.
Proof.
  intros Hb [Hv Ha]. unfold admitsb in Hb. rewrite bool_decide_true in Hb by done. simpl in Hb.
  destruct (p_tag p) as [[]|]; try done.
  - destruct Ha as (e' & He & Hlt%N.ltb_lt). rewrite He in Hb. congruence.
  - destruct Ha as [Hk He]. by rewrite !bool_decide_true in Hb.
Qed.
Lemma log_all_check (Q : bytes -> ParsedObject -> Prop) (f : ParsedObject -> bool) s :
  (forall b p, f p = false -> Q b p) ->
  forallb (fun o => match parse_open (o_bytes o) with Ok p => negb (f p) | Err _ => true end)
    ((map_to_list (objects s)).*2) = true -> log_all Q s.
Proof.
  intros HQ Hf seq o p Ho Hp. apply HQ. rewrite forallb_forall in Hf. specialize (Hf o).
  rewrite Hp in Hf. apply negb_true_iff, Hf, list_elem_of_In, list_elem_of_fmap.
  exists (seq, o). by rewrite elem_of_map_to_list.
Qed.

Lemma revoked_member_shut_out_witness :
  can_read_vault team_db (Sample.key32 x02) 10 (lit "v") = true /\
  (forall now', can_read_vault (run_events [] rotated_db) (Sample.key32 x02) now' (lit "v") = false).
Proof.
  split; [vm_compute; reflexivity|].
  destruct (run_ok (fun l => l) (store_grants_publish (lit "v") rotation_manifest [] (Some 1%Z) 3)
    team_db [7]) as (seqs & _ & H); [vm_compute; reflexivity|].
  assert (exists row, s_vaults team_db !! lit "v" = Some row /\ sv_owner_pubkey row = Sample.key32 x01)
    as (row & Hrow & Hown) by (eexists; split; vm_compute; reflexivity).
  refine (proj1 (revoked_member_shut_out (lit "v") rotation_manifest [] (Some 1%Z) 3 team_db seqs _ 2
    (Sample.key32 x02) row [] team_db_inv _ H _ _ _ _ _ _ Hrow _ _ _)).
  - cbn [event_ok]. each_elem parsed_item.
  - vm_compute. reflexivity.
  - vm_compute. reflexivity.
  - vm_compute. reflexivity.
  - discriminate.
  - apply (log_all_check _ (admitsb (lit "v") (Sample.key32 x02) 2)); [apply admitsb_false|].
    vm_compute. reflexivity.
  - apply List.Forall_nil.
  - rewrite Hown. vm_compute. discriminate.
  - apply List.Forall_nil.
  - apply List.Forall_nil.
Defined.

(** ** What a publication hands to its members *)

(** row [o] is what the log holds now of a vault: the newest row of its kind and
    identity, and no deletion *)
Definition newest_of (s : ServerDB) (v : bytes) (p : ObjectRow -> Prop) (o : ObjectRow) : Prop :=
  forall seq o', objects s !! seq = Some o' -> o_vault_id o' = Some v -> p o' ->
    o_server_seq o' <= o_server_seq o.
Definition current_row (s : ServerDB) (v : bytes) (e : N) (o : ObjectRow) : Prop :=
  o_vault_id o = Some v /\
  (o_tag o = x01 /\ newest_of s v (fun o' => o_tag o' = x01) o \/
   (exists e', o_tag o = x03 /\ o_key_epoch o = Some e' /\ e' < e /\
      newest_of s v (fun o' => o_tag o' = x03 /\ o_key_epoch o' = Some e') o) \/
   (exists i, o_tag o = x02 /\ o_item_id o = Some i /\ o_tombstone o = Some false /\
      newest_of s v (fun o' => o_tag o' = x02 /\ o_item_id o' = Some i) o)).

Lemma is_newest_spec s v f (p : ObjectRow -> Prop) seq o :
  objects s !! seq = Some o -> o_vault_id o = Some v -> f o = true ->
  newest_of s v p o -> (forall o', f o' = true -> p o') -> is_newest s v f o = true.
Proof.
  intros Ho Hv Hfo Hn Hf. unfold is_newest. cbv zeta. apply andb_true_iff. split.
  - apply existsb_exists. exists o. split; [|by apply N.eqb_eq]. apply list_elem_of_In, elem_of_select_where.
    exists seq. split; [done|]. by rewrite bool_decide_true.
  - apply forallb_forall. intros o' Hin%list_elem_of_In.
    apply elem_of_select_where in Hin as (seq' & Ho' & [Hv'%bool_decide_eq_true Hp%Hf]%andb_true_iff).
    apply N.leb_le. by eapply Hn.
Qed.

Lemma sql_eq_true {A} `{EqDecision A} (a b : option A) x : b = Some x -> sql_eq a b = true <-> a = Some x.
Proof. intros ->. destruct a; simpl; [|done]. rewrite bool_decide_eq_true. naive_solver. Qed.

Lemma current_reemitted s v e seq o : objects s !! seq = Some o -> current_row s v e o -> reemitted s v e o = true.
Proof.
  intros Ho [Hv Hk]. unfold reemitted. rewrite bool_decide_true by done. simpl.
  rewrite !orb_true_iff, !andb_true_iff, !bool_decide_eq_true.
  destruct Hk as [[Ht Hn]|[(e' & Ht & He & Hlt & Hn)|(i & Ht & Hi & Htomb & Hn)]].
  - left; left. split; [done|]. eapply (is_newest_spec _ _ _ _ _ _ Ho Hv); [by apply bool_decide_eq_true|exact Hn|].
    intros o'. apply bool_decide_eq_true.
  - left; right. rewrite He. split_and!; [done|by apply N.ltb_lt|].
    eapply (is_newest_spec _ _ _ _ _ _ Ho Hv); [by rewrite bool_decide_true, (proj2 (sql_eq_true _ _ e' eq_refl))|exact Hn|].
    intros o' [H1%bool_decide_eq_true H2]%andb_true_iff. split; [done|]. by apply (sql_eq_true _ (Some e')).
  - right. split_and!; [done..|].
    eapply (is_newest_spec _ _ _ _ _ _ Ho Hv); [by rewrite bool_decide_true, (proj2 (sql_eq_true _ _ i Hi))|exact Hn|].
    intros o' [H1%bool_decide_eq_true H2]%andb_true_iff. split; [done|]. by apply (sql_eq_true _ _ _ Hi).
Qed.

(** appending the manifest of an epoch and its grants does not age the rest *)
Lemma current_kept m gs seqs s s1 v e o seq :
  committed (m :: gs) seqs s s1 -> Forall parsed_ok (m :: gs) ->
  p_tag (po_parsed m) = Some TMembershipManifest -> p_key_epoch (po_parsed m) = Some e ->
  Forall (fun g => p_tag (po_parsed g) = Some TMembershipGrant) gs ->
  objects s !! seq = Some o -> current_row s v e o ->
  objects s1 !! seq = Some o /\ current_row s1 v e o.
Proof.
  intros Hc Hp Ht He Hgs Ho [Hv Hk].
  assert (Hnew : forall seq' o', objects s1 !! seq' = Some o' -> objects s !! seq' = Some o' \/
    o_tag o' = x04 \/ o_tag o' = x03 /\ o_key_epoch o' = Some e).
  { intros seq' o' Ho'. destruct (cm_new _ _ _ _ Hc _ _ Ho') as [?|(_ & it & Hit & Hb & Htag)]; [by left|right].
    destruct (li_rows _ _ (cm_inv _ _ _ _ Hc) _ _ Ho') as (_ & q & (b & t & Hrow & Hq) & _).
    rewrite list.Forall_forall in Hp. specialize (Hp _ Hit). unfold parsed_ok in Hp.
    rewrite Ho' in Hrow. injection Hrow as ->. simpl in *. subst b. rewrite Hq in Hp. injection Hp as ->.
    apply elem_of_cons in Hit as [->|Hit].
    - right. unfold p_tag in Ht. split; [|done]. by destruct (p_tag_u8 (po_parsed m)).
    - left. rewrite list.Forall_forall in Hgs. specialize (Hgs _ Hit). unfold p_tag in Hgs.
      by destruct (p_tag_u8 (po_parsed it)). }
  assert (Hnewest : forall p : ObjectRow -> Prop, (forall o', p o' -> o_tag o' <> x04) ->
    (forall o', p o' -> o_tag o' = x03 -> o_key_epoch o' <> Some e) -> newest_of s v p o -> newest_of s1 v p o).
  { intros p H4 H3 Hn seq' o' Ho' Hv' Hpo.
    destruct (Hnew _ _ Ho') as [?|[?|[? ?]]]; [by eapply Hn|by destruct (H4 o')|by destruct (H3 o')]. }
  split.
  - destruct (dg_objects _ _ (cm_grows _ _ _ _ Hc) _ _ Ho) as [?|[Ht7 _]]; [done|].
    destruct Hk as [[? _]|[(? & ? & _)|(? & ? & _)]]; congruence.
  - split; [done|]. destruct Hk as [[? Hn]|[(e' & ? & ? & ? & Hn)|(i & ? & ? & ? & Hn)]].
    + left. split; [done|]. apply Hnewest; [|..|done]; intros o' ?; congruence.
    + right; left. exists e'. split_and!; [done..|]. apply Hnewest; [..|done]; intros o' [? ?]; [congruence|].
      intros _ ?. simplify_eq. lia.
    + right; right. exists i. split_and!; [done..|]. apply Hnewest; [..|done]; intros o' [? ?]; congruence.
Qed.

(** each row of the current set is appended again, byte for byte *)
Lemma reemit_copies s1 s2 v e items seqs o seq :
  committed items seqs s1 s2 -> Forall parsed_ok items ->
  po_bytes <$> items = o_bytes <$> reemit_rows s1 v e -> log_inv (next_seq s1) s1 ->
  objects s1 !! seq = Some o -> reemitted s1 v e o = true -> o_tag o <> x07 ->
  exists seq' o', next_seq s1 < seq' /\ objects s2 !! seq' = Some o' /\ o_bytes o' = o_bytes o /\
    o_vault_id o' = o_vault_id o.
Proof.
  intros Hc Hp Hb Hi Ho Hr Ht.
  assert (Hin : o_bytes o ∈ po_bytes <$> items).
  { rewrite Hb. apply list_elem_of_fmap_2, elem_of_reemit_rows. eauto. }
  apply list_elem_of_fmap in Hin as (it & Hbit & Hit).
  destruct (li_rows _ _ Hi _ _ Ho) as (_ & p & (b & t & Hrow & Hparse) & _).
  rewrite Ho in Hrow. injection Hrow as ->. simpl in *.
  rewrite list.Forall_forall in Hp. specialize (Hp _ Hit). unfold parsed_ok in Hp.
  rewrite <-Hbit, Hparse in Hp. injection Hp as Hpp.
  apply list_elem_of_lookup in Hit as [i Hit].
  destruct (Forall2_lookup_r _ _ _ _ _ (cm_stored _ _ _ _ Hc) Hit) as (seq' & Hseq' & Hst).
  destruct Hst as (t' & Ho'); [rewrite <-Hpp; by intros ?%tag_x07|].
  exists seq'. eexists. split_and!; [|exact Ho'|done|simpl; by rewrite <-Hpp].
  rewrite (cm_seqs _ _ _ _ Hc) in Hseq'.
  pose proof (seqs_from_bounds (next_seq s1 + 1) (length items)) as Hbd. rewrite list.Forall_forall in Hbd.
  specialize (Hbd _ (list_elem_of_lookup_2 _ _ _ Hseq')). lia.
Qed.

Lemma visible_row s member now v cursor seq o :
  server_inv s -> can_read_vault s member now v = true -> objects s !! seq = Some o ->
  o_vault_id o = Some v -> cursor < seq -> o ∈ rows_after s cursor (delta_filter s None member now).
Proof.
  intros Hs Hr Ho Hv Hc. pose proof (inv_keyed _ Hs _ _ Ho). subst seq.
  apply elem_of_rows_after; [by apply inv_keyed|]. split_and!; [done..|]. simpl. unfold delta_visible.
  by rewrite Hv, Hr, orb_true_r.
Qed.

(** A publication hands its members the whole vault: whoever can read the vault
    after it, however far its cursor had moved before, finds behind its cursor the
    published manifest and every current row of the vault, byte for byte: the newest
    vault record, the newest manifest of every earlier epoch and the newest row of
    every item that is not a deletion. *)
Theorem publication_reaches_members v m gs re now s seqs s' e member now' cursor :
  server_inv s -> event_ok (EvPublish v m gs re now) ->
  store_grants_publish v m gs re now s = (Ok seqs, s') ->
  p_tag (po_parsed m) = Some TMembershipManifest -> p_vault_id (po_parsed m) = Some v ->
  p_key_epoch (po_parsed m) = Some e ->
  Forall (fun g => p_tag (po_parsed g) = Some TMembershipGrant) gs ->
  can_read_vault s' member now' v = true -> cursor <= next_seq s ->
  let rows := rows_after s' cursor (delta_filter s' None member now') in
  po_bytes m ∈ (o_bytes <$> rows) /\
  forall seq o, objects s !! seq = Some o -> current_row s v e o -> o_bytes o ∈ (o_bytes <$> rows).
Proof.
  intros Hs Hok H Ht Hv He Hgs Hread Hcur rows.
  assert (Hinv' : server_inv s').
  { rewrite (publish_event _ _ _ _ _ _ _ _ H). by apply run_event_inv. }
  destruct (publish_Ok _ _ _ _ _ _ _ _ Hok (proj1 Hs) H) as (s1 & s2 & items & seqs' & H1 & H2 & Hp & Hb & Hs').
  rewrite He in Hb. simpl in Hb.
  assert (Hobj : objects s' = objects s2) by (rewrite Hs'; by destruct re).
  assert (Hfind : forall seq o, objects s2 !! seq = Some o -> o_vault_id o = Some v -> cursor < seq ->
    o_bytes o ∈ (o_bytes <$> rows)).
  { intros seq o Ho Hvo Hlt. apply list_elem_of_fmap_2. eapply visible_row; [done..| |done|done]. by rewrite Hobj. }
  pose proof (cm_next _ _ _ _ H1) as Hn1. split.
  - pose proof (cm_stored _ _ _ _ H1) as Hst. rewrite (cm_seqs _ _ _ _ H1) in Hst.
    simpl in Hst. inversion Hst as [|? ? ? ? Hq _]; subst.
    destruct (stored_grows _ _ _ _ (cm_grows _ _ _ _ H2) ltac:(by rewrite Ht) (Hq ltac:(by rewrite Ht))) as (t & Ho).
    apply (Hfind _ _ Ho); [done|lia].
  - intros seq o Ho Hcr.
    destruct (current_kept _ _ _ _ _ _ _ _ _ H1 Hok Ht He Hgs Ho Hcr) as [Ho1 Hcr1].
    assert (Ht7 : o_tag o <> x07).
    { destruct Hcr as [_ [[-> _]|[(? & -> & _)|(? & -> & _)]]]; done. }
    destruct (reemit_copies _ _ _ _ _ _ _ _ H2 Hp Hb (cm_inv _ _ _ _ H1) Ho1 (current_reemitted _ _ _ _ _ Ho1 Hcr1) Ht7)
      as (seq' & o' & Hlt & Ho' & Hbo & Hvo).
    rewrite <-Hbo. apply (Hfind _ _ Ho'); [rewrite Hvo; apply Hcr|lia].
Qed.

Lemma newest_of_check s v f (p : ObjectRow -> Prop) o :
  is_newest s v f o = true -> (forall o', p o' -> f o' = true) -> newest_of s v p o.
Proof.
  unfold is_newest. cbv zeta. rewrite andb_true_iff, forallb_forall. intros [_ Hn] Hf seq o' Ho Hv Hp.
  apply N.leb_le, Hn, list_elem_of_In, elem_of_select_where. exists seq. split; [done|].
  by rewrite bool_decide_true, (Hf _ Hp).
Qed.

(** x01 admits x03 at epoch 2 *)
Definition admission_manifest : PushObj :=
  team_manifest "v" x01 2 [mkMember (Sample.key32 x01) Admin; mkMember (Sample.key32 x03) Editor].
Definition admission_grant : PushObj := team_grant "v" x01 x03 2.
Definition admitted_db : ServerDB :=
  (store_grants_publish (lit "v") admission_manifest [admission_grant] (Some 1%Z) 3 team_db).2.

Lemma publication_reaches_members_witness :
  can_read_vault team_db (Sample.key32 x03) 10 (lit "v") = false /\
  po_bytes (team_item "v" x01 1) ∈ (o_bytes <$> rows_after admitted_db (next_seq team_db)
    (delta_filter admitted_db None (Sample.key32 x03) 10)).
Proof.
  split; [vm_compute; reflexivity|].
  destruct (run_ok (fun l => l) (store_grants_publish (lit "v") admission_manifest [admission_grant]
    (Some 1%Z) 3) team_db [7; 8]) as (seqs & _ & H); [vm_compute; reflexivity|].
  assert (exists o, objects team_db !! 6 = Some o /\ o_vault_id o = Some (lit "v") /\ o_tag o = x02 /\
    o_item_id o = Some (lit "i") /\ o_tombstone o = Some false /\ o_bytes o = po_bytes (team_item "v" x01 1) /\
    is_newest team_db (lit "v") (fun o' => bool_decide (o_tag o' = x02) && bool_decide (o_item_id o' = Some (lit "i"))) o = true)
    as (o & Ho & Hv & Ht & Hi & Htomb & Hb & Hn)
    by (eexists; repeat (split; [vm_compute; reflexivity|]); vm_compute; reflexivity).
  rewrite <-Hb.
  refine (proj2 (publication_reaches_members (lit "v") admission_manifest [admission_grant] (Some 1%Z) 3
    team_db seqs _ 2 (Sample.key32 x03) 10 (next_seq team_db) team_db_inv _ H _ _ _ _ _ _) 6 o Ho _).
  - cbn [event_ok]. each_elem parsed_item.
  - vm_compute. reflexivity.
  - vm_compute. reflexivity.
  - vm_compute. reflexivity.
  - each_elem ltac:(vm_compute; reflexivity).
  - vm_compute. reflexivity.
  - apply N.le_refl.
  - split; [exact Hv|]. right; right. exists (lit "i"). split; [exact Ht|]. split; [exact Hi|].
    split; [exact Htomb|]. apply (newest_of_check _ _ _ _ _ Hn). intros o' [Ht' Hi'].
    by rewrite !bool_decide_true.
Defined.

(** ** Where the code lets through more, or less, than it says *)

(** [grants_publish] checks the manifest's author against the manifest's vault, but of
    a grant only its own signature: with a manifest for a vault of its own, an account
    can enter a grant for itself on somebody else's vault, and read its objects. *)
Lemma publish_admits_to_foreign_vault : exists seqs s',
  @grants_publish Sample.prims (lit "a3") (po_bytes (team_manifest "w" x03 1 [mkMember (Sample.key32 x03) Admin]))
    [po_bytes (team_grant "v" x03 x03 1)] None None 5 team_db = (Ok seqs, s') /\
  can_read_vault team_db (Sample.key32 x03) 10 (lit "v") = false /\
  can_read_vault s' (Sample.key32 x03) 10 (lit "v") = true.
Proof.
  destruct (run_ok (fun l => l) (@grants_publish Sample.prims (lit "a3")
    (po_bytes (team_manifest "w" x03 1 [mkMember (Sample.key32 x03) Admin]))
    [po_bytes (team_grant "v" x03 x03 1)] None None 5) team_db [7; 8]) as (seqs & _ & H);
    [vm_compute; reflexivity|].
  eexists seqs, _. split; [exact H|]. split; vm_compute; reflexivity.
Qed.

(** the versions of item "i" among the rows a reader gets *)
Definition item_versions (rows : list ObjectRow) : list (option N) :=
  o_obj_version <$> filter (fun o => o_item_id o = Some (lit "i")) rows.

(** the publication repeats the row of an item that was pushed last, not the one with
    the highest version: after a late push of an older version, a member whose cursor
    had passed the log before it was admitted is handed the older one. *)
Lemma republished_item_may_be_stale :
  let late := run_events
    [EvPush None (lit "h2") [team_item "v" x01 5] 3; EvPush None (lit "h3") [team_item "v" x01 4] 4] team_db in
  let s' := run_event (EvPublish (lit "v") admission_manifest [admission_grant] None 5) late in
  item_versions (rows_after late 0 (delta_filter late None (Sample.key32 x01) 10))
    = [Some 1; Some 1; Some 5; Some 4] /\
  item_versions (rows_after s' (next_seq late) (delta_filter s' None (Sample.key32 x03) 10)) = [Some 4].
Proof. vm_compute. split; reflexivity. Qed.

(** the author of a pushed record need not be the pushing device: with signatures
    validated, the device x03, no member of "v", pushes a record signed by x01 *)
Lemma push_accepts_foreign_author :
  let item := obj_bytes (OItem (sample_signed_item 2)) in
  exists items, @push_checks Sample.prims (mkConfig true 100 1000 500 1000 60) team_db (Sample.key32 x03) [item]
    = Ok items /\ po_bytes <$> items = [item] /\ (p_author_pubkey ∘ po_parsed) <$> items = [Some sample_owner].
Proof. eexists. split; [vm_compute; reflexivity|]. split; vm_compute; reflexivity. Qed.

(** the revocation queue asks for grants at the epoch of the vault row, which only a
    vault record moves, while reading goes by the latest manifest: right after the
    publication x03 reads "v", but is not found among the holders of live grants *)
Lemma live_grants_lag_behind_publication :
  can_read_vault admitted_db (Sample.key32 x03) 10 (lit "v") = true /\
  vaults_with_live_grant admitted_db (Sample.key32 x03) = [] /\
  vaults_with_live_grant team_db (Sample.key32 x02) = [lit "v"].
Proof. split; [|split]; vm_compute; reflexivity. Qed.

Lemma push_enforces_roles_witness : exists items,
  @push_checks Sample.prims (mkConfig true 100 1000 500 1000 60) team_db (Sample.key32 x03)
    [obj_bytes (OItem (sample_signed_item 2)); po_bytes admission_manifest] = Ok items /\
  Forall (@push_permitted Sample.prims (mkConfig true 100 1000 500 1000 60) team_db (Sample.key32 x03)) items.
Proof.
  destruct (@push_checks Sample.prims (mkConfig true 100 1000 500 1000 60) team_db (Sample.key32 x03)
    [obj_bytes (OItem (sample_signed_item 2)); po_bytes admission_manifest]) as [items|e] eqn:H.
  - exists items. split; [reflexivity|].
    exact (proj2 (proj2 (@push_enforces_roles Sample.prims _ _ _ _ _ H))).
  - exfalso. revert H. vm_compute. discriminate.
Defined.
