(* ===== verification/ServerAudit.v ===== *)
(** * The server's audit log and its hash chain
      (server/src/store/audit_repo.rs, server/src/modules/audit.rs)

    The table [audit_log] is a list of rows in no particular order; every query
    sorts by [seq]. Each row stores the running hash of the chain. An append is one
    transaction under a write lock, so it is one step. JSON is the framework's: an
    event is its serialised bytes. The column [space_id] is exported and is written by
    nothing here.

    The theorems: the log the server writes always verifies; two logs verify with the same
    head exactly when they agree on what the chain covers; exports and listings return exactly the rows asked for. *)

From Stdlib Require Import Strings.Byte NArith ZArith Lia.
From stdpp Require Import base gmap sets list strings sorting countable.
From S2P Require Import Prelude Bytes CryptoPrims Crypto Storage StorageInv SyncObject.
From S2P Require Import ServerCodec ServerStore ServerApi.

Local Open Scope N_scope.

Record AuditLogRow := mkAuditRow {
  au_seq : N;
  au_source : bytes;
  au_entry_blob : bytes;
  au_signature : option bytes;
  au_author_pubkey : option bytes;
  au_vault_id : option bytes;
  au_space_id : option bytes;
  au_recorded_at : Z;
  au_server_seq : option Z;
  au_prev_hash : option bytes
}.

#[global] Instance AuditLogRow_eq_dec : EqDecision AuditLogRow.
Proof. solve_decision. Defined.

(** [ORDER BY seq ASC] *)
Definition seq_leb (a b : AuditLogRow) : bool := au_seq a <=? au_seq b.
Definition by_seq (t : list AuditLogRow) : list AuditLogRow := stable_sort seq_leb t.

Definition AuditM := M (list AuditLogRow) ErrorCode.

(** ** The record encoding *)

(** the length is cut to 32 bits *)
Definition put_lp (buf b : bytes) : bytes := buf ++ u32_be (len b) ++ b.
Definition put_opt (buf : bytes) (b : option bytes) : bytes :=
  match b with Some x => put_lp (buf ++ [x01]) x | None => buf ++ [x00] end.

Definition audit_record_bytes (seq : N) (source entry_blob : bytes)
    (signature author vault_id : option bytes) (recorded_at : Z) (server_seq : option Z) : bytes :=
  let b := lit "unissh-audit-chain-v2" in
  let b := b ++ i64_be (Z.of_N seq) in
  let b := put_lp b source in
  let b := put_lp b entry_blob in
  let b := put_opt b signature in
  let b := put_opt b author in
  let b := put_opt b vault_id in
  let b := b ++ i64_be recorded_at in
  b ++ i64_be (default (-1)%Z server_seq).

(** the record of a row *)
Definition row_record (r : AuditLogRow) : bytes :=
  audit_record_bytes (au_seq r) (au_source r) (au_entry_blob r) (au_signature r)
    (au_author_pubkey r) (au_vault_id r) (au_recorded_at r) (au_server_seq r).

Definition zero_hash : bytes := replicate 32 x00.

Section audit.
Context `{P : CryptoPrims}.

Definition chain_hash (prev record : bytes) : bytes := sha256 (prev ++ record).

(** ** Appending *)

(** [SELECT COALESCE(MAX(seq), 0)] *)
Definition max_audit_seq (t : list AuditLogRow) : N := foldr N.max 0 (au_seq <$> t).

(** [SELECT prev_hash ... WHERE prev_hash IS NOT NULL ORDER BY seq DESC LIMIT 1] *)
Definition chain_head (t : list AuditLogRow) : bytes :=
  default zero_hash (list.last (omap au_prev_hash (by_seq t))).

Definition append_audit_row (source entry_blob : bytes) (signature author vault_id : option bytes)
    (server_seq : option Z) (now : Z) : AuditM N :=
  t ← get_state;
  let seq := max_audit_seq t + 1 in
  let prev := chain_head t in
  let record := audit_record_bytes seq source entry_blob signature author vault_id now server_seq in
  let chain := chain_hash prev record in
  _ ← modify (fun t => t ++ [mkAuditRow seq source entry_blob signature author vault_id None now
                               server_seq (Some chain)]);
  mret seq.

Definition append_audit_server_observed (blob : bytes) (vault_id : option bytes) (now : Z) : AuditM N :=
  append_audit_row (lit "server-observed") blob None None vault_id None now.

Definition append_audit_client_signed (entry_blob signature author : bytes) (vault_id : option bytes)
    (server_seq : option Z) (now : Z) : AuditM N :=
  append_audit_row (lit "client-signed") entry_blob (Some signature) (Some author) vault_id
    server_seq now.

(** ** Reading *)

Definition query_audit (t : list AuditLogRow) (since_seq : Z) (limit : N) : list AuditLogRow :=
  take (N.to_nat limit) (filter (fun r => (since_seq <= Z.of_N (au_seq r))%Z) (by_seq t)).

Definition export_audit_page (t : list AuditLogRow) (from_seq to_seq : Z) (limit : N)
    : list AuditLogRow :=
  take (N.to_nat limit)
    (filter (fun r => (from_seq <= Z.of_N (au_seq r) <= to_seq)%Z) (by_seq t)).

(** ** Verifying *)

Record ChainVerdict := mkVerdict {
  cv_ok : bool;
  cv_count : N;
  cv_broken_at : option N;
  cv_head : option bytes
}.

Fixpoint verify_rows (expected : bytes) (count : N) (head : option bytes) (rows : list AuditLogRow)
    : ChainVerdict :=
  match rows with
  | [] => mkVerdict true count None head
  | r :: rows =>
      let count := count + 1 in
      let computed := chain_hash expected (row_record r) in
      match au_prev_hash r with
      | Some stored =>
          if bytes_eqb stored computed then verify_rows computed count (Some computed) rows
          else mkVerdict false count (Some (au_seq r)) head
      | None => mkVerdict false count (Some (au_seq r)) head
      end
  end.

Definition verify_audit_chain (t : list AuditLogRow) : ChainVerdict :=
  verify_rows zero_hash 0 None (by_seq t).

(** ** modules/audit.rs *)

Definition audit_append (s : ServerDB) (b : bytes) (now : Z) : AuditM N :=
  p ← lift_result (parse_open b);
  _ ← lift_result (if bool_decide (p_tag p = Some TAudit) then Ok tt else Err EMalformed);
  entry_blob ← lift_result (ok_or (p_entry_blob p) EMalformed);
  signature ← lift_result (ok_or (p_signature p) EMalformed);
  author ← lift_result (ok_or (p_author_pubkey p) EMalformed);
  owner_ed ← lift_result (ok_or (genesis_ed s) EForbidden);
  if negb (bytes_eqb author owner_ed) then throw EForbidden
  else
    let vault_id := match p_vault_id p with Some [] => None | v => v end in
    append_audit_client_signed entry_blob signature author vault_id None now.

Record AuditPage := mkAuditPage {
  ap_entries : list AuditLogRow;
  ap_has_more : bool;
  ap_next_since : Z
}.

(** for an owner; [None]: [clamp] panics on an empty range *)
Definition audit_query (cfg : ServerConfig) (t : list AuditLogRow) (since_seq limit : option Z)
    : option AuditPage :=
  let since := Z.max (default 0%Z since_seq) 0 in
  let max := delta_max_page_size cfg in
  if (max <? 1)%Z then None
  else
    let limit := Z.to_N (Z.max 1 (Z.min (default (delta_page_size cfg) limit) max)) in
    let rows := query_audit t since limit in
    Some (mkAuditPage rows (len rows =? limit)
            (match list.last rows with Some r => Z.of_N (au_seq r) + 1 | None => since end)%Z).

(** the stream of pages of an export; page [i] is read from the table as it is then,
    [tbl i]; [fuel] bounds the number of pages *)
Fixpoint export_pages (fuel : nat) (tbl : nat -> list AuditLogRow) (i : nat) (page : N) (next to : Z)
    : option (list AuditLogRow) :=
  match fuel with
  | O => None
  | S fuel =>
      if (to <? next)%Z then Some []
      else
        let rows := export_audit_page (tbl i) next to page in
        match list.last rows with
        | None => Some []
        | Some last =>
            rest ← export_pages fuel tbl (S i) page (Z.of_N (au_seq last) + 1) to;
            Some (rows ++ rest)
        end
  end.

(** for an owner; [tbl 0] is the table when the request arrives *)
Definition audit_export (fuel : nat) (cfg : ServerConfig) (tbl : nat -> list AuditLogRow)
    (from_seq to_seq : option Z) : result ErrorCode (option (list AuditLogRow)) :=
  let from := default 1%Z from_seq in
  if (from <? 1)%Z then Err EMalformed
  else if match to_seq with Some to => (to <? from)%Z | None => false end then Err EMalformed
  else
    let head := Z.of_N (max_audit_seq (tbl 0%nat)) in
    let to := match to_seq with Some to => Z.min to head | None => head end in
    let page := Z.to_N (Z.max (delta_page_size cfg) 1) in
    Ok (export_pages fuel tbl 1 page from to).

(** ** Histories of the log *)

(** what writes to the log: the server's own observations, and posted objects with
    the tables the handler saw *)
Inductive AuditEvent :=
| EvObserved (blob : bytes) (vault_id : option bytes) (now : Z)
| EvPosted (s : ServerDB) (object : bytes) (now : Z).

Definition run_audit_event (t : list AuditLogRow) (e : AuditEvent) : list AuditLogRow :=
  match e with
  | EvObserved blob vault_id now => (append_audit_server_observed blob vault_id now t).2
  | EvPosted s object now => (audit_append s object now t).2
  end.

Definition run_audit (t : list AuditLogRow) (evs : list AuditEvent) : list AuditLogRow :=
  foldl run_audit_event t evs.

(** ** Theory: what the verifier accepts *)

(** the hash after [rows], starting from [e] *)
Definition chain_end (e : bytes) (rows : list AuditLogRow) : bytes :=
  foldl (fun e r => chain_hash e (row_record r)) e rows.

(** every row stores the hash of the chain up to it *)
Fixpoint chained (e : bytes) (rows : list AuditLogRow) : Prop :=
  match rows with
  | [] => True
  | r :: rows => au_prev_hash r = Some (chain_hash e (row_record r))
                 /\ chained (chain_hash e (row_record r)) rows
  end.

Lemma chained_app e l l' : chained e (l ++ l') <-> chained e l /\ chained (chain_end e l) l'.
Proof. revert e. induction l as [|r l IH]; intros e; simpl; [tauto|]. rewrite IH. tauto. Qed.

Lemma chain_end_app e l l' : chain_end e (l ++ l') = chain_end (chain_end e l) l'.
Proof. apply foldl_app. Qed.

Lemma verify_rows_ok e n h rows :
  cv_ok (verify_rows e n h rows) = true <-> chained e rows.
Proof.
  revert e n h. induction rows as [|r rows IH]; intros e n h; simpl; [tauto|].
  destruct (au_prev_hash r) as [st|]; simpl; [|naive_solver].
  destruct (bytes_eqb st _) eqn:E; simpl.
  - apply bytes_eqb_true in E as ->. rewrite IH. tauto.
  - split; [done|]. intros [[= ->] _]. by rewrite bytes_eqb_refl in E.
Qed.

Lemma verify_rows_chained e n h rows :
  chained e rows ->
  verify_rows e n h rows
  = mkVerdict true (n + len rows) None (if rows is [] then h else Some (chain_end e rows)).
Proof.
  revert e n h. induction rows as [|r rows IH]; intros e n h; simpl.
  { intros _. f_equal. unfold len. simpl. lia. }
  intros [-> Hc]. rewrite bytes_eqb_refl, IH by done. f_equal; [unfold len; simpl; lia|].
  by destruct rows.
Qed.

Lemma chained_last e rows :
  chained e rows -> rows <> [] -> list.last (omap au_prev_hash rows) = Some (chain_end e rows).
Proof.
  induction rows as [|r rows _] using rev_ind; [done|].
  rewrite chained_app. intros (_ & Hr & _) _. rewrite chain_end_app, omap_app. simpl.
  rewrite Hr. apply last_snoc.
Qed.

(** ** Theory: the numbering, and reading by number *)

Definition audit_lt (a b : AuditLogRow) : Prop := au_seq a < au_seq b.

(** rows are numbered 1, 2, ... in the order they were written *)
Definition numbered (t : list AuditLogRow) : Prop :=
  forall i r, t !! i = Some r -> au_seq r = N.of_nat (S i).

Lemma numbered_snoc t r : numbered (t ++ [r]) <-> numbered t /\ au_seq r = N.of_nat (S (length t)).
Proof.
  split.
  - intros H. split; [|apply H; by apply list_lookup_middle].
    intros i x Hi. apply H. by apply lookup_app_l_Some.
  - intros [Ht Hr] i x [Hi|[? Hi]]%lookup_app_Some; [by apply Ht|].
    apply list_lookup_singleton_Some in Hi as [Hl <-]. rewrite Hr. do 2 f_equal. lia.
Qed.

Lemma numbered_bound t r : numbered t -> r ∈ t -> 1 <= au_seq r <= len t.
Proof.
  intros Ht [i Hi]%list_elem_of_lookup. rewrite (Ht _ _ Hi). apply lookup_lt_Some in Hi.
  unfold len. lia.
Qed.

Lemma numbered_sorted t : numbered t -> StronglySorted audit_lt t.
Proof.
  induction t as [|r t IH] using rev_ind; [constructor|]. intros [Ht Hr]%numbered_snoc.
  apply StronglySorted_app. split_and!; [|by apply IH|repeat constructor].
  intros x y Hx ->%list_elem_of_singleton. pose proof (numbered_bound _ _ Ht Hx).
  unfold audit_lt, len in *. lia.
Qed.

Lemma sorted_by_seq t : StronglySorted audit_lt t -> by_seq t = t.
Proof.
  intros H. apply stable_sort_id. induction H as [|x l Hl IH Hx]; constructor; [done|].
  eapply Forall_impl; [|exact Hx]. intros y Hy. apply N.leb_le. unfold audit_lt in Hy. lia.
Qed.

Lemma numbered_max t : numbered t -> max_audit_seq t = len t.
Proof.
  unfold max_audit_seq. induction t as [|r t IH] using rev_ind; [done|].
  intros [Ht Hr]%numbered_snoc. rewrite fmap_app, foldr_app. simpl. rewrite Hr.
  assert (Hg : forall l n, foldr N.max n l = N.max (foldr N.max 0 l) n).
  { clear. induction l as [|x l IH]; intros n; simpl; [lia|]. rewrite (IH n). lia. }
  rewrite Hg, (IH Ht). unfold len. rewrite length_app. simpl. lia.
Qed.

Lemma sorted_filter (Q : AuditLogRow -> Prop) `{forall r, Decision (Q r)} t :
  StronglySorted audit_lt t -> StronglySorted audit_lt (filter Q t).
Proof.
  induction 1 as [|x l Hl IH Hx]; [constructor|]. rewrite filter_cons.
  destruct (decide (Q x)); [|done]. constructor; [done|].
  rewrite list.Forall_forall in *. intros y [_ Hy]%list_elem_of_filter. by apply Hx.
Qed.

Lemma audit_le_last t r x :
  StronglySorted audit_lt t -> list.last t = Some r -> x ∈ t -> au_seq x <= au_seq r.
Proof.
  intros Hl (l' & ->)%last_Some [Hx| ->%list_elem_of_singleton]%elem_of_app; [|lia].
  pose proof (StronglySorted_app_1_elem_of _ _ _ _ _ Hl Hx (list_elem_of_here r [])) as H.
  unfold audit_lt in H. lia.
Qed.

Section paging.
Context (Q : Z -> AuditLogRow -> Prop) `{forall a r, Decision (Q a r)}.
Context (Q_from : forall a b r, (a <= b)%Z -> Q b r <-> Q a r /\ (b <= Z.of_N (au_seq r))%Z).

(** what follows a page is what lies above its last row *)
Lemma page_rest t a n r :
  StronglySorted audit_lt t -> (forall r, Q a r -> (a <= Z.of_N (au_seq r))%Z) ->
  list.last (take n (filter (Q a) t)) = Some r ->
  filter (Q a) t = take n (filter (Q a) t) ++ filter (Q (Z.of_N (au_seq r) + 1)) t.
Proof.
  intros Ht Ha Hlast. set (l := filter (Q a) t) in *. set (b := (Z.of_N (au_seq r) + 1)%Z).
  assert (Hr : r ∈ l). { apply last_Some_elem_of in Hlast. by eapply elem_of_take in Hlast as (? & ?%list_elem_of_lookup_2 & _). }
  assert (Hab : (a <= b)%Z).
  { apply list_elem_of_filter in Hr as [Hr _]. specialize (Ha _ Hr). lia. }
  assert (Hl : StronglySorted audit_lt l) by by apply sorted_filter.
  transitivity (take n l ++ drop n l); [by rewrite take_drop|]. f_equal.
  transitivity (filter (Q b) l).
  2: { apply list_filter_filter_l. intros x Hx. by apply (Q_from a b) in Hx as [? _]. }
  rewrite <-(take_drop n l) at 2. rewrite list.filter_app. rewrite <-(take_drop n l) in Hl.
  rewrite filter_none, filter_all; [done| |]; apply list.Forall_forall; intros x Hx.
  - apply (Q_from a b); [done|]. apply last_Some_elem_of in Hlast. split.
    + apply (proj1 (list_elem_of_filter (Q a) t x)). change (x ∈ l).
      rewrite <-(take_drop n l). apply elem_of_app. by right.
    + pose proof (StronglySorted_app_1_elem_of _ _ _ _ _ Hl Hlast Hx) as Hlt.
      unfold audit_lt in Hlt. lia.
  - intros [_ Hq]%(Q_from a b); [|done]. apply StronglySorted_app_1_l in Hl.
    pose proof (audit_le_last _ _ _ Hl Hlast Hx). lia.
Qed.
End paging.

(** ** Theory: appending *)

Definition audit_inv (t : list AuditLogRow) : Prop := numbered t /\ chained zero_hash t.

Lemma inv_by_seq t : audit_inv t -> by_seq t = t.
Proof. intros [Ht _]. by apply sorted_by_seq, numbered_sorted. Qed.

Lemma inv_chain_head t : audit_inv t -> chain_head t = chain_end zero_hash t.
Proof.
  intros Hi. unfold chain_head. rewrite inv_by_seq by done. destruct t as [|r t]; [done|].
  by rewrite (chained_last zero_hash) by (done || apply Hi).
Qed.

(** an append never fails, and adds one row that continues the numbers and the chain *)
Lemma append_row_spec t source blob sig author vid ss now :
  audit_inv t ->
  exists r,
    append_audit_row source blob sig author vid ss now t = (Ok (len t + 1), t ++ [r]) /\
    audit_inv (t ++ [r]) /\
    r = mkAuditRow (len t + 1) source blob sig author vid None now ss (au_prev_hash r).
Proof.
  intros Hi. pose proof Hi as [Hn Hc]. rewrite <-(numbered_max t Hn).
  exists (mkAuditRow (max_audit_seq t + 1) source blob sig author vid None now ss
            (Some (chain_hash (chain_head t) (audit_record_bytes (max_audit_seq t + 1) source blob
                     sig author vid now ss)))).
  split; [reflexivity|]. split; [split|reflexivity].
  - apply numbered_snoc. split; [done|]. cbn [au_seq]. rewrite numbered_max by done. unfold len. lia.
  - apply chained_app. split; [done|]. rewrite <-inv_chain_head by done. by split.
Qed.

(** a post either appends the row it names or leaves the log alone *)
Lemma audit_append_cases s b now t :
  audit_inv t ->
  (exists e, audit_append s b now t = (Err e, t)) \/
  (exists p blob sig author r,
     parse_open b = Ok p /\ p_tag p = Some TAudit /\ p_entry_blob p = Some blob /\
     p_signature p = Some sig /\ p_author_pubkey p = Some author /\ genesis_ed s = Some author /\
     audit_append s b now t = (Ok (len t + 1), t ++ [r]) /\ audit_inv (t ++ [r]) /\
     r = mkAuditRow (len t + 1) (lit "client-signed") blob (Some sig) (Some author)
           (match p_vault_id p with Some [] => None | v => v end) None now None (au_prev_hash r)).
Proof.
  intros Hi. unfold audit_append, mbind, M_bind, lift_result, throw.
  destruct (parse_open b) as [p|e]; [|eauto]. case_bool_decide; [|eauto].
  destruct (p_entry_blob p) as [blob|] eqn:Eb; cbn; [|eauto].
  destruct (p_signature p) as [sig|] eqn:Es; cbn; [|eauto].
  destruct (p_author_pubkey p) as [author|] eqn:Ea; cbn; [|eauto].
  destruct (genesis_ed s) as [owner|] eqn:Eo; cbn; [|eauto].
  destruct (bytes_eqb author owner) eqn:E; cbn; [|eauto]. apply bytes_eqb_true in E as <-.
  right. edestruct (append_row_spec t) as (r & Hrun & Hi' & Hr); [done|].
  exists p, blob, sig, author, r. split_and!; [done..| |done|exact Hr]. exact Hrun.
Qed.

Lemma run_event_step t e :
  audit_inv t -> audit_inv (run_audit_event t e) /\ t `prefix_of` run_audit_event t e.
Proof.
  intros Hi. destruct e as [blob vid now|s b now]; cbn [run_audit_event].
  - unfold append_audit_server_observed.
    edestruct (append_row_spec t) as (r & -> & Hi' & _); [done|]. split; [done|by eexists].
  - destruct (audit_append_cases s b now t Hi) as [[e ->]|(p & blob & sig & author & r & _ & _ & _ & _ & _ & _ & -> & Hi' & _)].
    + by split.
    + split; [done|by eexists].
Qed.

Lemma run_audit_step t evs :
  audit_inv t -> audit_inv (run_audit t evs) /\ t `prefix_of` run_audit t evs.
Proof.
  revert t. induction evs as [|e evs IH]; intros t Hi; [by split|].
  destruct (run_event_step t e Hi) as [Hi1 H1]. destruct (IH _ Hi1) as [Hi2 H2].
  split; [done|]. by etrans.
Qed.

Lemma empty_log_inv : audit_inv [].
Proof. split; [|done]. intros i r. by rewrite lookup_nil. Qed.

(** Whatever sequence of observations and posts the server has seen, refused posts
    included, its audit log verifies completely with the hash of its last row as head,
    the rows are numbered 1, 2, ... without gaps, and later events only add rows. *)
Theorem audit_log_verifies evs more :
  let t := run_audit [] evs in
  verify_audit_chain t = mkVerdict true (len t) None (list.last t ≫= au_prev_hash) /\
  numbered t /\
  t `prefix_of` run_audit t more.
Proof.
  intros t. destruct (run_audit_step [] evs empty_log_inv) as [Hi _]. fold t in Hi.
  split_and!; [|apply Hi|by apply run_audit_step].
  unfold verify_audit_chain. rewrite inv_by_seq by done. destruct Hi as [_ Hc].
  rewrite verify_rows_chained by done. f_equal.
  destruct t as [|r t'] using rev_ind; [done|]. apply chained_app in Hc as (_ & Hr & _).
  rewrite last_snoc, chain_end_app. cbn. rewrite Hr. by destruct t'.
Qed.

(** ** Theory: the record encoding determines the record *)

Definition fits (b : bytes) : Prop := len b <= u32_max.
Definition opt_fits (b : option bytes) : Prop := match b with Some x => fits x | None => True end.
Definition is_i64 (z : Z) : Prop := (- 2 ^ 63 <= z < 2 ^ 63)%Z.

(** fields within the widths of the encoding, which those of the databases do not exceed *)
Definition row_fits (r : AuditLogRow) : Prop :=
  is_i64 (Z.of_N (au_seq r)) /\ fits (au_source r) /\ fits (au_entry_blob r) /\
  opt_fits (au_signature r) /\ opt_fits (au_author_pubkey r) /\ opt_fits (au_vault_id r) /\
  is_i64 (au_recorded_at r) /\ is_i64 (default (-1)%Z (au_server_seq r)).

(** what the chain covers of a row: not [space_id], and a [server_seq] of -1 is none *)
Definition covered (r : AuditLogRow) : AuditLogRow :=
  mkAuditRow (au_seq r) (au_source r) (au_entry_blob r) (au_signature r) (au_author_pubkey r) (au_vault_id r) None
    (au_recorded_at r) (Some (default (-1)%Z (au_server_seq r))) (au_prev_hash r).

Lemma i64_be_inj x y : is_i64 x -> is_i64 y -> i64_be x = i64_be y -> x = y.
Proof. intros Hx Hy H. by rewrite <-(i64_decode x), H, i64_decode. Qed.

Lemma i64_field_inj x y r s :
  is_i64 x -> is_i64 y -> i64_be x ++ r = i64_be y ++ s -> x = y /\ r = s.
Proof.
  intros Hx Hy H. apply app_inj_len in H as [H ->]; [|by rewrite !length_i64_be].
  by apply i64_be_inj in H.
Qed.

Lemma lp_field_inj a b r s :
  fits a -> fits b -> u32_be (len a) ++ a ++ r = u32_be (len b) ++ b ++ s -> a = b /\ r = s.
Proof.
  intros Ha Hb H. apply app_inj_len in H as [Hl H]; [|by rewrite !length_u32_be].
  apply (f_equal be_decode) in Hl. rewrite !u32_decode in Hl by done.
  apply app_inj_len; [unfold len in Hl; lia|done].
Qed.

(** [put_opt] on the right *)
Definition opt_bytes (b : option bytes) : bytes :=
  match b with Some x => x01 :: u32_be (len x) ++ x | None => [x00] end.

Lemma opt_field_inj a b r s :
  opt_fits a -> opt_fits b -> opt_bytes a ++ r = opt_bytes b ++ s -> a = b /\ r = s.
Proof.
  destruct a as [a|], b as [b|]; intros Ha Hb H; cbn [opt_bytes app] in H; try done.
  - apply (f_equal tail) in H. cbn [tail] in H. rewrite <-!app_assoc in H. by apply lp_field_inj in H as [-> ->].
  - by injection H.
Qed.

Lemma row_record_eq r :
  row_record r = lit "unissh-audit-chain-v2" ++ i64_be (Z.of_N (au_seq r)) ++
    u32_be (len (au_source r)) ++ au_source r ++
    u32_be (len (au_entry_blob r)) ++ au_entry_blob r ++
    opt_bytes (au_signature r) ++ opt_bytes (au_author_pubkey r) ++ opt_bytes (au_vault_id r) ++
    i64_be (au_recorded_at r) ++ i64_be (default (-1)%Z (au_server_seq r)) ++ [].
Proof.
  assert (Hopt : forall buf b, put_opt buf b = buf ++ opt_bytes b).
  { intros buf [b|]; [|done]. unfold put_opt, put_lp. simpl. by rewrite <-app_assoc. }
  unfold row_record, audit_record_bytes. cbv zeta. rewrite !Hopt, app_nil_r. unfold put_lp.
  by rewrite <-!app_assoc.
Qed.

(** the record fixes every column it covers; the stored hash is none of them *)
Lemma row_record_inj r r' :
  row_fits r -> row_fits r' -> au_prev_hash r = au_prev_hash r' ->
  row_record r = row_record r' -> covered r = covered r'.
Proof.
  intros (A1 & A2 & A3 & A4 & A5 & A6 & A7 & A8) (B1 & B2 & B3 & B4 & B5 & B6 & B7 & B8) Hp.
  rewrite !row_record_eq. intros H%app_inv_head.
  apply i64_field_inj in H as [E1 H]; [|done..]. apply lp_field_inj in H as [E2 H]; [|done..].
  apply lp_field_inj in H as [E3 H]; [|done..]. apply opt_field_inj in H as [E4 H]; [|done..].
  apply opt_field_inj in H as [E5 H]; [|done..]. apply opt_field_inj in H as [E6 H]; [|done..].
  apply i64_field_inj in H as [E7 H]; [|done..]. apply i64_field_inj in H as [E8 _]; [|done..].
  apply N2Z.inj in E1. unfold covered. congruence.
Qed.

Lemma covered_record r r' : covered r = covered r' ->
  row_record r = row_record r' /\ au_prev_hash r = au_prev_hash r' /\ au_seq r = au_seq r'.
Proof. intros [=]. split_and!; [|done..]. rewrite !row_record_eq. congruence. Qed.

(** ** Theory: the chain fixes the log *)

(** what the chain hashes, row by row *)
Fixpoint chain_inputs (e : bytes) (rows : list AuditLogRow) : list bytes :=
  match rows with
  | [] => []
  | r :: rows => (e ++ row_record r) :: chain_inputs (chain_hash e (row_record r)) rows
  end.

(** SHA-256 has no collision among the messages [l], and maps none of them to the
    starting value of the chain *)
Definition hash_safe (l : list bytes) : Prop :=
  (forall x y, x ∈ l -> y ∈ l -> sha256 x = sha256 y -> x = y) /\
  (forall x, x ∈ l -> sha256 x <> zero_hash).

Lemma chain_inputs_app e l l' :
  chain_inputs e (l ++ l') = chain_inputs e l ++ chain_inputs (chain_end e l) l'.
Proof. revert e. induction l as [|r l IH]; intros e; simpl; [done|]. by rewrite IH. Qed.

Lemma hash_safe_sub l l' : l ⊆ l' -> hash_safe l' -> hash_safe l.
Proof. intros Hs [H1 H2]. split; intros x; [intros y|]; eauto. Qed.

Section tamper.
Context `{CL : !CryptoLaws P}.

Lemma chain_end_len rows : length (chain_end zero_hash rows) = 32%nat.
Proof.
  destruct rows as [|r rows _] using rev_ind; [done|].
  rewrite chain_end_app. apply sha256_len.
Qed.

Lemma chain_fixes_rows rows rows' :
  Forall row_fits rows -> Forall row_fits rows' ->
  chained zero_hash rows -> chained zero_hash rows' ->
  hash_safe (chain_inputs zero_hash rows ++ chain_inputs zero_hash rows') ->
  chain_end zero_hash rows = chain_end zero_hash rows' ->
  covered <$> rows = covered <$> rows'.
Proof.
  revert rows'. induction rows as [|r rows IH] using rev_ind; intros rows';
    destruct rows' as [|r' rows' _] using rev_ind; [done| | |]; intros Hf Hf' Hc Hc' [Hs1 Hs2] He;
    rewrite ?chain_inputs_app, ?chain_end_app in *; cbn [chain_inputs] in Hs1, Hs2.
  - exfalso. eapply Hs2; [|symmetry; exact He]. set_solver.
  - exfalso. eapply Hs2; [|exact He]. set_solver.
  - rewrite list.Forall_app, list.Forall_singleton in Hf, Hf'. destruct Hf as [Hf Hr], Hf' as [Hf' Hr'].
    apply chained_app in Hc as (Hc & Hp & _). apply chained_app in Hc' as (Hc' & Hp' & _).
    apply Hs1 in He as E; [|set_solver..].
    apply app_inj_len in E as [Ee Er]; [|by rewrite !chain_end_len].
    rewrite !fmap_app. cbn [fmap list_fmap]. f_equal.
    + apply IH; [done..| |done]. refine (hash_safe_sub _ _ _ (conj Hs1 Hs2)). set_solver.
    + f_equal. apply row_record_inj; [done..| |done]. by rewrite Hp, Hp', Ee, Er.
Qed.

Lemma verify_rows_covered rows rows' e n h :
  covered <$> rows = covered <$> rows' -> verify_rows e n h rows = verify_rows e n h rows'.
Proof.
  revert rows' e n h. induction rows as [|r rows IH]; intros [|r' rows'] e n h H; try done.
  injection H as Hr H. destruct (covered_record r r') as (E1 & E2 & E3); [unfold covered; congruence|]. cbn [verify_rows].
  rewrite E1, E2, E3. destruct (au_prev_hash r'); [|done]. destruct (bytes_eqb _ _); [by apply IH|done].
Qed.

(** C25. Two logs, of fields within the widths of the encoding, of which one verifies: the
    other verifies with the same head exactly if both agree, row by row and in order, on what
    the chain covers, unless SHA-256 collides on the records of these two logs. So with the
    head hash kept, no row can be inserted, removed or reordered and nothing of a row be
    edited without notice, but for two edits that always go unnoticed: of [space_id], and of
    [server_seq] between none and -1. *)
Theorem chain_is_tamper_evident t t' :
  Forall row_fits t -> Forall row_fits t' -> cv_ok (verify_audit_chain t) = true ->
  hash_safe (chain_inputs zero_hash (by_seq t) ++ chain_inputs zero_hash (by_seq t')) ->
  cv_ok (verify_audit_chain t') = true /\ cv_head (verify_audit_chain t') = cv_head (verify_audit_chain t) <->
  covered <$> by_seq t' = covered <$> by_seq t.
Proof.
  unfold verify_audit_chain. intros Hf Hf' Hc Hs. split.
  - intros [Hc'%verify_rows_ok Hh]. apply verify_rows_ok in Hc. rewrite !verify_rows_chained in Hh by done. cbn in Hh. symmetry.
    apply chain_fixes_rows; [by unfold by_seq; rewrite stable_sort_perm..|done|done|done|].
    destruct (by_seq t), (by_seq t'); simplify_eq; done.
  - intros H. by rewrite (verify_rows_covered _ _ _ _ _ H).
Qed.
End tamper.

(** ** Theory: exports and pages *)

Definition in_range (from to : Z) (r : AuditLogRow) : Prop := (from <= Z.of_N (au_seq r) <= to)%Z.
#[global] Instance in_range_dec from to r : Decision (in_range from to r).
Proof. unfold in_range. apply _. Defined.

Lemma prefix_range t t' from to :
  numbered t' -> t `prefix_of` t' -> (to <= Z.of_N (len t))%Z ->
  filter (in_range from to) t' = filter (in_range from to) t.
Proof.
  intros Hn [k ->] Hto. rewrite list.filter_app, (filter_none _ k), app_nil_r; [done|].
  apply list.Forall_forall. intros r [i Hi]%list_elem_of_lookup [_ Hle].
  specialize (Hn (length t + i)%nat r).
  rewrite lookup_app_r, Nat.add_comm, Nat.add_sub in Hn by lia. specialize (Hn Hi).
  unfold len in Hto. lia.
Qed.

Lemma export_pages_exact t tbl fuel i page next to :
  (forall j, audit_inv (tbl j) /\ t `prefix_of` tbl j) -> (to <= Z.of_N (len t))%Z -> 1 <= page ->
  (length (filter (in_range next to) t) < fuel)%nat ->
  export_pages fuel tbl i page next to = Some (filter (in_range next to) t).
Proof.
  intros Htbl Hto Hp. revert i next. induction fuel as [|fuel IH]; intros i next Hfuel; [lia|].
  cbn [export_pages]. destruct (Z.ltb_spec to next).
  { rewrite filter_none; [done|]. apply list.Forall_forall. intros r _ [? ?]. lia. }
  destruct (Htbl i) as [Hi Hpre]. unfold export_audit_page. rewrite inv_by_seq by done.
  change (fun r => (next <= Z.of_N (au_seq r) <= to)%Z) with (in_range next to).
  rewrite (prefix_range t (tbl i)) by (done || apply Hi).
  assert (Hs : StronglySorted audit_lt t).
  { destruct Hi as [Hi _]. apply numbered_sorted in Hi. destruct Hpre as [k E]. rewrite E in Hi.
    by apply StronglySorted_app_1_l in Hi. }
  destruct (list.last (take (N.to_nat page) (filter (in_range next to) t))) as [r|] eqn:Hl.
  - assert (E := page_rest (fun a => in_range a to)
      ltac:(intros a b x; unfold in_range; lia) t next (N.to_nat page) r Hs
      ltac:(intros x; unfold in_range; lia) Hl).
    rewrite IH; [simpl; by rewrite <-E|]. rewrite E, length_app in Hfuel.
    apply last_Some in Hl as [l' Hl]. rewrite Hl, length_app in Hfuel. simpl in Hfuel. lia.
  - apply last_None in Hl. destruct (filter (in_range next to) t); [done|].
    destruct (N.to_nat page) eqn:?; [lia|done].
Qed.

(** a range one may ask for, and the rows in it *)
Definition range_ok (from to : option Z) : Prop :=
  (1 <= default 1 from /\ default (default 1 from) to >= default 1 from)%Z.
Definition asked_for (from to : option Z) (r : AuditLogRow) : Prop :=
  (default 1 from <= Z.of_N (au_seq r) <= default (Z.of_N (au_seq r)) to)%Z.
#[global] Instance asked_for_dec from to r : Decision (asked_for from to r).
Proof. unfold asked_for. apply _. Defined.

(** An export ends, in at most one page more than there are rows, with exactly the rows
    of the asked range that existed when the request arrived, in order, whatever is
    appended between its pages; an impossible range is refused. *)
Theorem audit_export_exact cfg tbl fuel from to :
  audit_inv (tbl 0%nat) -> (forall j, exists evs, tbl j = run_audit (tbl 0%nat) evs) ->
  (length (tbl 0%nat) < fuel)%nat ->
  (range_ok from to ->
     audit_export fuel cfg tbl from to = Ok (Some (filter (asked_for from to) (tbl 0%nat)))) /\
  (~ range_ok from to -> audit_export fuel cfg tbl from to = Err EMalformed).
Proof.
  intros Hi Htbl Hfuel. unfold audit_export, range_ok, asked_for.
  destruct (Z.ltb_spec (default 1 from)%Z 1) as [|Hf]; [split; [lia|done]|].
  destruct to as [to|]; cbn [from_option id].
  1: destruct (Z.ltb_spec to (default 1 from)%Z); [split; [lia|done]|].
  all: split; [intros _|lia]; f_equal; rewrite (export_pages_exact (tbl 0%nat)).
  all: try (intros j; destruct (Htbl j) as [evs ->]; by apply run_audit_step).
  all: try (eapply Nat.le_lt_trans; [apply length_filter|done]).
  all: rewrite ?(numbered_max (tbl 0%nat)) by apply Hi; try lia.
  all: f_equal; apply filter_ext_in; intros r Hr.
  all: pose proof (numbered_bound _ _ (proj1 Hi) Hr); unfold in_range; simpl; lia.
Qed.

Definition from_seq (a : Z) (r : AuditLogRow) : Prop := (a <= Z.of_N (au_seq r))%Z.
#[global] Instance from_seq_dec a r : Decision (from_seq a r).
Proof. unfold from_seq. apply _. Defined.

Lemma query_page t since limit :
  audit_inv t -> 1 <= limit ->
  let rows := query_audit t since limit in
  let next := (match list.last rows with Some r => Z.of_N (au_seq r) + 1 | None => since end)%Z in
  filter (from_seq since) t = rows ++ filter (from_seq next) t /\
  (len rows <> limit -> filter (from_seq next) t = []).
Proof.
  intros Hi Hl. unfold query_audit. rewrite inv_by_seq by done. cbv zeta.
  change (filter (fun r => (since <= Z.of_N (au_seq r))%Z) t) with (filter (from_seq since) t).
  set (next := (match list.last (take (N.to_nat limit) (filter (from_seq since) t)) with
                | Some r => Z.of_N (au_seq r) + 1 | None => since end)%Z).
  assert (E : filter (from_seq since) t = take (N.to_nat limit) (filter (from_seq since) t) ++ filter (from_seq next) t).
  { subst next. destruct (list.last (take _ _)) as [r|] eqn:E.
    - refine (page_rest from_seq _ t since (N.to_nat limit) r _ _ E); [unfold from_seq; lia| |done].
      apply numbered_sorted, Hi.
    - apply last_None in E. by rewrite E. }
  split; [done|]. intros Hlen. rewrite <-(take_drop (N.to_nat limit) (filter _ t)) in E at 1.
  apply app_inv_head in E. rewrite <-E. apply drop_ge.
  unfold len in Hlen. rewrite length_take in Hlen. lia.
Qed.

(** A page of the audit listing holds the next rows from the asked number on; the rest
    is what lies from the returned number on, and there is no rest when the page says so. *)
Theorem audit_query_pages cfg t since limit pg :
  audit_inv t -> audit_query cfg t since limit = Some pg ->
  filter (from_seq (Z.max (default 0%Z since) 0)) t
    = ap_entries pg ++ filter (from_seq (ap_next_since pg)) t /\
  (ap_has_more pg = false -> filter (from_seq (ap_next_since pg)) t = []) /\
  (Z.of_N (len (ap_entries pg)) <= delta_max_page_size cfg)%Z.
Proof.
  intros Hi. unfold audit_query. destruct (Z.ltb_spec (delta_max_page_size cfg) 1); [done|].
  set (limit' := Z.to_N _). intros [= <-]. cbn [ap_entries ap_has_more ap_next_since].
  destruct (query_page t (Z.max (default 0%Z since) 0) limit' Hi) as [H1 H2]; [lia|].
  split_and!; [exact H1| |].
  - intros Hm%N.eqb_neq. by apply H2.
  - unfold query_audit, len. rewrite length_take. lia.
Qed.

(** ** What the chain does not show *)

(** A log that lost its newest entries verifies like the whole log did. *)
Lemma truncated_log_verifies t cut :
  audit_inv (t ++ cut) -> cv_ok (verify_audit_chain t) = true /\ audit_inv t.
Proof.
  intros [Hn Hc%chained_app].
  assert (Hi : audit_inv t).
  { split; [|apply Hc]. intros i r Hi. apply Hn. by apply lookup_app_l_Some. }
  split; [|done]. apply verify_rows_ok. rewrite inv_by_seq by done. apply Hc.
Qed.

(** a check of [hash_safe] by evaluation *)
Definition hash_safe_b (l : list bytes) : bool :=
  forallb (fun x => negb (bytes_eqb (sha256 x) zero_hash) &&
                    forallb (fun y => negb (bytes_eqb (sha256 x) (sha256 y)) || bytes_eqb x y) l) l.

Lemma hash_safe_by_eval l : hash_safe_b l = true -> hash_safe l.
Proof.
  unfold hash_safe_b. intros H. rewrite forallb_forall in H. split.
  - intros x y Hx%list_elem_of_In Hy%list_elem_of_In E. apply H, andb_prop in Hx as [_ Hx].
    rewrite forallb_forall in Hx. specialize (Hx y Hy). rewrite E, bytes_eqb_refl in Hx.
    by apply bytes_eqb_true.
  - intros x Hx%list_elem_of_In E. apply H, andb_prop in Hx as [Hx _].
    by rewrite E, bytes_eqb_refl in Hx.
Qed.
End audit.

(** ** Evaluations *)

Definition log_owner : bytes := replicate 32 x0a.
Definition claimed_db : ServerDB :=
  mkDB 0 (Some (lit "acct")) {[ lit "acct" := mkAccount log_owner true ]} ∅ ∅ ∅ ∅ ∅ ∅.
(** an audit object in the owner's name, with no signature at all *)
Definition bogus_entry : bytes :=
  unwrap_or [] (to_bytes (OAudit (mkAuditObject [] (lit "entry") [] log_owner))).
Definition audit_events : list AuditEvent :=
  [EvObserved (lit "login") None 100; EvPosted claimed_db bogus_entry 101;
   EvPosted claimed_db (lit "junk") 102; EvObserved (lit "logout") (Some (lit "v")) 103].
Definition audit_log : list AuditLogRow := run_audit (P := Sample.prims) [] audit_events.

(** An entry in the owner's name is stored without any signature of the owner. *)
Example unsigned_entry_stored :
  au_source <$> audit_log !! 1%nat = Some (lit "client-signed") /\
  au_author_pubkey <$> audit_log !! 1%nat = Some (Some log_owner) /\
  au_signature <$> audit_log !! 1%nat = Some (Some []).
Proof. vm_compute. done. Qed.

Lemma audit_log_inv : audit_inv (P := Sample.prims) audit_log.
Proof. apply run_audit_step, empty_log_inv. Qed.

(** the log in another order, with a space written to a row *)
Definition edited_log : list AuditLogRow :=
  reverse ((fun r => mkAuditRow (au_seq r) (au_source r) (au_entry_blob r) (au_signature r) (au_author_pubkey r) (au_vault_id r)
    (Some (lit "space")) (au_recorded_at r) (au_server_seq r) (au_prev_hash r)) <$> audit_log).

Lemma chain_is_tamper_evident_witness :
  cv_ok (verify_audit_chain (P := Sample.prims) edited_log) = true /\
  cv_head (verify_audit_chain (P := Sample.prims) edited_log) = cv_head (verify_audit_chain (P := Sample.prims) audit_log) /\
  edited_log <> reverse audit_log.
Proof.
  enough (H : cv_ok (verify_audit_chain (P := Sample.prims) edited_log) = true /\
    cv_head (verify_audit_chain (P := Sample.prims) edited_log) = cv_head (verify_audit_chain (P := Sample.prims) audit_log))
    by (destruct H; split_and!; [done|done|vm_compute; discriminate]).
  apply (chain_is_tamper_evident (CL := Sample.laws) audit_log edited_log).
  1,2: repeat (constructor; [vm_compute; intuition congruence|]); constructor.
  1: vm_compute; reflexivity.
  2: vm_compute; reflexivity.
  apply hash_safe_by_eval. vm_compute. reflexivity.
Defined.

Lemma audit_export_exact_witness :
  audit_export 9 (mkConfig false 100 1000 2 1000 60)
    (fun i => match i with O => take 2 audit_log | _ => audit_log end) (Some 2%Z) None
  = Ok (Some (filter (asked_for (Some 2%Z) None) (take 2 audit_log))).
Proof.
  eapply (audit_export_exact (P := Sample.prims)).
  - apply (run_audit_step [] (take 2 audit_events)), empty_log_inv.
  - intros [|j]; [by exists []|]. exists (drop 2 audit_events). vm_compute. reflexivity.
  - vm_compute. lia.
  - split; vm_compute; congruence.
Defined.

Lemma audit_query_pages_witness : exists pg,
  audit_query (mkConfig false 100 1000 2 1000 60) audit_log (Some 2%Z) (Some 1%Z) = Some pg /\
  filter (from_seq 2%Z) audit_log = ap_entries pg ++ filter (from_seq (ap_next_since pg)) audit_log.
Proof.
  eexists. split; [reflexivity|].
  apply (audit_query_pages (P := Sample.prims) (mkConfig false 100 1000 2 1000 60) audit_log
           (Some 2%Z) (Some 1%Z)); [apply audit_log_inv|reflexivity].
Defined.
