(* ===== verification/ServerSyslog.v ===== *)
(** * Text of the syslog lines (server/src/audit_sinks/syslog.rs)

    The date of a line and the escaping of its structured data. The date routine is
    compared with the calendar itself: day by day, from the first of January 1970. *)

From Stdlib Require Import Strings.Byte NArith ZArith Lia.
From stdpp Require Import base gmap sets list strings sorting countable.
From S2P Require Import Prelude Bytes.

Local Open Scope Z_scope.

(** ** Escaping *)

(** the bytes quote, backslash and closing bracket *)
Definition sd_special (c : byte) : bool :=
  bool_decide (c = x22) || bool_decide (c = x5c) || bool_decide (c = x5d).

(** on the UTF-8 bytes: the special characters are single bytes that occur in no other *)
Fixpoint sd_escape (v : bytes) : bytes :=
  match v with
  | [] => []
  | c :: v => (if sd_special c then [x5c; c] else [c]) ++ sd_escape v
  end.

(** ** Dates *)

(** days since 1970-01-01 to year, month and day *)
Definition civil (days : Z) : Z * Z * Z :=
  let z := days + 719468 in
  let era := z / 146097 in
  let doe := z mod 146097 in
  let yoe := (doe - doe / 1460 + doe / 36524 - doe / 146096) / 365 in
  let doy := doe - (365 * yoe + yoe / 4 - yoe / 100) in
  let mp := (5 * doy + 2) / 153 in
  let d := doy - (153 * mp + 2) / 5 + 1 in
  let m := if mp <? 10 then mp + 3 else mp - 9 in
  let y := yoe + era * 400 + (if m <=? 2 then 1 else 0) in
  (y, m, d).

Definition digit (n : Z) : byte := default x00 (Byte.of_N (48 + Z.to_N (n mod 10))).
(** [{:02}] and [{:04}] of numbers below 100 and 10000 *)
Definition pad2 (n : Z) : bytes := [digit (n / 10); digit n].
Definition pad4 (n : Z) : bytes := [digit (n / 1000); digit (n / 100); digit (n / 10); digit n].

Definition rfc3339 (secs : Z) : bytes :=
  let days := secs / 86400 in
  let sod := secs mod 86400 in
  let '(y, m, d) := civil days in
  if negb ((0 <=? y) && (y <=? 9999)) then lit "-"
  else pad4 y ++ lit "-" ++ pad2 m ++ lit "-" ++ pad2 d ++ lit "T" ++
       pad2 (sod / 3600) ++ lit ":" ++ pad2 (sod mod 3600 / 60) ++ lit ":" ++ pad2 (sod mod 60) ++
       lit "Z".

(** ** The calendar *)

Definition is_leap (y : Z) : bool := ((y mod 4 =? 0) && negb (y mod 100 =? 0)) || (y mod 400 =? 0).

Definition month_length (y m : Z) : Z :=
  if m =? 2 then (if is_leap y then 29 else 28)
  else if (m =? 4) || (m =? 6) || (m =? 9) || (m =? 11) then 30 else 31.

Definition next_day (date : Z * Z * Z) : Z * Z * Z :=
  let '(y, m, d) := date in
  if d <? month_length y m then (y, m, d + 1)
  else if m <? 12 then (y, m + 1, 1)
  else (y + 1, 1, 1).

Definition valid_date (date : Z * Z * Z) : bool :=
  let '(y, m, d) := date in (1 <=? m) && (m <=? 12) && (1 <=? d) && (d <=? month_length y m).

(** ** Unescaping *)

Fixpoint sd_unescape (v : bytes) : bytes :=
  match v with
  | x5c :: c :: v => c :: sd_unescape v
  | c :: v => c :: sd_unescape v
  | [] => []
  end.

Lemma sd_unescape_escape v : sd_unescape (sd_escape v) = v.
Proof.
  induction v as [|c v IH]; [done|]. cbn [sd_escape].
  destruct (sd_special c) eqn:E; cbn [app]; [cbn; by rewrite IH|].
  assert (Hc : c <> x5c) by (intros ->; vm_compute in E; done).
  transitivity (c :: sd_unescape (sd_escape v)); [|by rewrite IH].
  destruct c; try reflexivity. done.
Qed.

(** whether a byte string has a quote or bracket that is not escaped *)
Fixpoint sd_closed (v : bytes) : bool :=
  match v with
  | x5c :: c :: v => sd_closed v
  | x5c :: [] => false
  | c :: v => negb (sd_special c) && sd_closed v
  | [] => true
  end.

Lemma sd_escape_closed v : sd_closed (sd_escape v) = true.
Proof.
  induction v as [|c v IH]; [done|]. cbn [sd_escape].
  destruct (sd_special c) eqn:E; cbn [app]; [exact IH|].
  assert (Hc : c <> x5c) by (intros ->; vm_compute in E; done).
  transitivity (negb (sd_special c) && sd_closed (sd_escape v)); [|by rewrite E, IH].
  destruct c; try reflexivity. done.
Qed.

(** ** 400 years *)

(** the date at day [doe] of era 0 *)
Definition era_date (doe : Z) : Z * Z * Z := civil (doe - 719468).

Definition shift_years (k : Z) (date : Z * Z * Z) : Z * Z * Z :=
  let '(y, m, d) := date in (y + 400 * k, m, d).

Lemma civil_era days :
  civil days = shift_years ((days + 719468) / 146097) (era_date ((days + 719468) mod 146097)).
Proof.
  unfold era_date, civil. rewrite Z.sub_add. set (z := days + 719468).
  rewrite (Z.div_small (z mod 146097) 146097) by (apply Z.mod_pos_bound; lia). rewrite Zmod_mod.
  cbv zeta. cbn [shift_years]. f_equal; f_equal. lia.
Qed.

Lemma is_leap_shift y k : is_leap (y + 400 * k) = is_leap y.
Proof.
  unfold is_leap.
  replace (y + 400 * k) with (y + (4 * k) * 100) at 2 by lia.
  replace (y + 400 * k) with (y + k * 400) at 2 by lia.
  replace (y + 400 * k) with (y + (100 * k) * 4) by lia.
  by rewrite !Z_mod_plus_full.
Qed.

Lemma month_length_shift y m k : month_length (y + 400 * k) m = month_length y m.
Proof. unfold month_length. by rewrite is_leap_shift. Qed.

Lemma next_day_shift k date : next_day (shift_years k date) = shift_years k (next_day date).
Proof.
  destruct date as [[y m] d]. cbn [shift_years next_day]. rewrite month_length_shift.
  destruct (d <? _); [done|]. destruct (m <? 12); [done|]. cbn. f_equal. f_equal. lia.
Qed.

(** ** Years of an era, each from the first of March *)

Definition year_of_era (doe : Z) : Z := (doe - doe / 1460 + doe / 36524 - doe / 146096) / 365.
Definition year_start (y : Z) : Z := 365 * y + y / 4 - y / 100.
(** with the February of the following calendar year *)
Definition year_length (y : Z) : Z := if is_leap (y + 1) then 366 else 365.

Fixpoint each_below (n : nat) (p : Z -> bool) : bool :=
  match n with O => true | S n => p (Z.of_nat n) && each_below n p end.

Lemma each_below_spec n p k : each_below n p = true -> 0 <= k < Z.of_nat n -> p k = true.
Proof.
  induction n as [|n IH]; intros H Hk; [lia|]. cbn [each_below] in H. apply andb_prop in H as [H1 H2].
  destruct (decide (k = Z.of_nat n)) as [->|]; [done|]. apply IH; [done|lia].
Qed.

Lemma year_of_era_step x :
  0 <= x -> x + 1 < 146097 ->
  x - x / 1460 + x / 36524 - x / 146096
  <= x + 1 - (x + 1) / 1460 + (x + 1) / 36524 - (x + 1) / 146096.
Proof.
  intros H0 H1. assert (x / 36524 <= (x + 1) / 36524) by (apply Z.div_le_mono; lia).
  assert ((x + 1) / 1460 <= x / 1460 + 1) by (Z.to_euclidean_division_equations; lia).
  rewrite (Z.div_small x 146096) by lia.
  destruct (decide (x = 146095)) as [->|]; [vm_compute; congruence|].
  rewrite (Z.div_small (x + 1) 146096) by lia. lia.
Qed.

Lemma year_of_era_mono a b : 0 <= a <= b -> b < 146097 -> year_of_era a <= year_of_era b.
Proof.
  intros Ha. replace b with (a + Z.of_nat (Z.to_nat (b - a))) by lia.
  generalize (Z.to_nat (b - a)). intros n. induction n as [|n IH]; intros Hb.
  - by rewrite Z.add_0_r.
  - etrans; [apply IH; lia|]. unfold year_of_era. apply Z.div_le_mono; [lia|].
    replace (a + Z.of_nat (S n)) with (a + Z.of_nat n + 1) in * by lia.
    apply year_of_era_step; lia.
Qed.

(** where year [n] would begin *)
Definition year_bound (n : Z) : Z := if n =? 400 then 146097 else year_start n.

Definition year_ok (y : Z) : bool :=
  (year_of_era (year_start y) =? y) && (year_of_era (year_start y + year_length y - 1) =? y) &&
  (year_start y + year_length y =? year_bound (y + 1)) && (0 <=? year_start y).

Lemma years_ok : each_below 400 year_ok = true.
Proof. vm_compute. reflexivity. Qed.

Lemma year_ok_spec y :
  0 <= y < 400 ->
  year_of_era (year_start y) = y /\ year_of_era (year_start y + year_length y - 1) = y /\
  year_start y + year_length y = year_bound (y + 1) /\ 0 <= year_start y.
Proof.
  intros Hy. pose proof (each_below_spec 400 year_ok y years_ok ltac:(lia)) as H.
  apply andb_prop in H as [[[H1 H2]%andb_prop H3]%andb_prop H4]. lia.
Qed.

Lemma year_exists n doe :
  (n <= 400)%nat -> 0 <= doe < year_bound (Z.of_nat n) ->
  exists y, 0 <= y < Z.of_nat n /\ year_start y <= doe < year_start y + year_length y.
Proof.
  induction n as [|n IH]; intros Hn Hd; [change (0 <= doe < 0) in Hd; lia|].
  destruct (year_ok_spec (Z.of_nat n) ltac:(lia)) as (_ & _ & He & _).
  destruct (decide (year_start (Z.of_nat n) <= doe)).
  - exists (Z.of_nat n). replace (Z.of_nat (S n)) with (Z.of_nat n + 1) in Hd by lia. lia.
  - destruct IH as (y & Hy & Hb); [lia| |exists y; lia].
    unfold year_bound. destruct (Z.eqb_spec (Z.of_nat n) 400); lia.
Qed.

Lemma year_bound_le y : 0 <= y < 400 -> year_bound (y + 1) <= 146097.
Proof.
  intros Hy. unfold year_bound. destruct (Z.eqb_spec (y + 1) 400); [lia|].
  unfold year_start. Z.to_euclidean_division_equations; lia.
Qed.

(** the routine finds the year a day lies in *)
Lemma year_unique y doe :
  0 <= y < 400 -> year_start y <= doe < year_start y + year_length y -> year_of_era doe = y.
Proof.
  intros Hy Hb. destruct (year_ok_spec y Hy) as (H1 & H2 & H3 & H4).
  pose proof (year_bound_le y Hy). apply Z.le_antisymm.
  - etrans; [apply (year_of_era_mono _ (year_start y + year_length y - 1)); lia|]. by rewrite H2.
  - etrans; [|apply (year_of_era_mono (year_start y)); lia]. by rewrite H1.
Qed.

Lemma year_found doe :
  0 <= doe < 146097 ->
  0 <= year_of_era doe < 400 /\
  year_start (year_of_era doe) <= doe < year_start (year_of_era doe) + year_length (year_of_era doe).
Proof.
  intros Hd. destruct (year_exists 400 doe) as (y & Hy & Hb); [lia|exact Hd|].
  rewrite (year_unique y doe) by lia. lia.
Qed.

(** ** Months of such a year *)

Definition month_day (doy : Z) : Z * Z :=
  let mp := (5 * doy + 2) / 153 in
  (if mp <? 10 then mp + 3 else mp - 9, doy - (153 * mp + 2) / 5 + 1).

(** the date of day [doy] of year [y] *)
Definition year_date (y doy : Z) : Z * Z * Z :=
  let '(m, d) := month_day doy in (y + (if m <=? 2 then 1 else 0), m, d).

Lemma era_date_year doe :
  0 <= doe < 146097 -> era_date doe = year_date (year_of_era doe) (doe - year_start (year_of_era doe)).
Proof.
  intros Hd. unfold era_date, civil.
  rewrite Z.sub_add, (Z.div_small doe 146097), (Z.mod_small doe 146097) by lia.
  unfold year_date, month_day. cbv zeta. fold (year_of_era doe). fold (year_start (year_of_era doe)).
  rewrite Z.mul_0_l, Z.add_0_r. done.
Qed.

(** before the 28th of February the next day is the same in every year *)
Definition month_ok (doy : Z) : bool :=
  let '(m, d) := month_day doy in
  (negb (m =? 2) || (d <? 28)) && bool_decide (next_day (year_date 0 doy) = year_date 0 (doy + 1)).

Lemma months_ok : each_below 364 month_ok = true.
Proof. vm_compute. reflexivity. Qed.

(** year 0 is a leap year *)
Definition day_valid (doy : Z) : bool :=
  let '(m, d) := month_day doy in
  valid_date (0, m, d) && (negb (m =? 2) || (d <=? 28) || (365 <=? doy)).

Lemma days_valid : each_below 366 day_valid = true.
Proof. vm_compute. reflexivity. Qed.

Lemma next_day_any_year y a m d :
  m <> 2 \/ d < 28 ->
  next_day (y + a, m, d) = let '(a', m', d') := next_day (a, m, d) in (y + a', m', d').
Proof.
  intros H. assert (Hm : (d <? month_length (y + a) m) = (d <? month_length a m)).
  { unfold month_length. destruct (Z.eqb_spec m 2); [|done].
    destruct (is_leap (y + a)), (is_leap a); try done.
    all: destruct (Z.ltb_spec d 29), (Z.ltb_spec d 28); lia. }
  unfold next_day. rewrite Hm. destruct (d <? month_length a m), (m <? 12); rewrite ?Z.add_assoc; done.
Qed.

Lemma year_date_next y doy : 0 <= doy < 364 -> next_day (year_date y doy) = year_date y (doy + 1).
Proof.
  intros Hd. pose proof (each_below_spec 364 month_ok doy months_ok ltac:(lia)) as H.
  unfold month_ok, year_date in *. destruct (month_day doy) as [m d], (month_day (doy + 1)) as [m' d'].
  apply andb_prop in H as [H Hn%bool_decide_eq_true].
  rewrite next_day_any_year by lia. rewrite !Z.add_0_l in Hn. by rewrite Hn.
Qed.

Lemma year_date_valid y doy :
  0 <= doy < year_length y -> valid_date (year_date y doy) = true.
Proof.
  intros Hd. assert (doy < 366) by (unfold year_length in Hd; destruct (is_leap (y + 1)); lia).
  pose proof (each_below_spec 366 day_valid doy days_valid ltac:(lia)) as H'.
  unfold day_valid, year_date, valid_date, month_length in *. destruct (month_day doy) as [m d].
  change (is_leap 0) with true in H'. destruct (Z.eqb_spec m 2) as [->|]; [|lia].
  unfold year_length in Hd. cbn in *. destruct (is_leap (y + 1)); lia.
Qed.

(** the last days of February *)
Lemma february_end y :
  year_date y 364 = (y + 1, 2, 28) /\ year_date y 365 = (y + 1, 2, 29) /\ year_date y 0 = (y, 3, 1).
Proof. unfold year_date. cbn. by rewrite Z.add_0_r. Qed.

Lemma year_last_day y :
  next_day (year_date y (year_length y - 1)) = year_date (y + 1) 0.
Proof.
  destruct (february_end y) as (H1 & H2 & _), (february_end (y + 1)) as (_ & _ & ->).
  unfold year_length. destruct (is_leap (y + 1)) eqn:E; [change (366 - 1) with 365|change (365 - 1) with 364];
    rewrite ?H1, ?H2; cbn; unfold month_length; by rewrite E.
Qed.

Lemma year_inner_day y doy :
  0 <= doy -> doy + 1 < year_length y -> next_day (year_date y doy) = year_date y (doy + 1).
Proof.
  intros H0 H1. destruct (decide (doy < 364)); [by apply year_date_next|].
  unfold year_length in H1. destruct (is_leap (y + 1)) eqn:E; [|lia].
  replace doy with 364 by lia. destruct (february_end y) as (-> & H & _).
  change (364 + 1) with 365. rewrite H. cbn. unfold month_length. by rewrite E.
Qed.

(** the day after a day of an era *)
Lemma era_next doe :
  0 <= doe < 146097 ->
  next_day (era_date doe) = if doe =? 146096 then shift_years 1 (era_date 0) else era_date (doe + 1).
Proof.
  intros Hd. destruct (year_found doe Hd) as [Hy Hb]. rewrite era_date_year by done.
  set (y := year_of_era doe) in *. destruct (year_ok_spec y Hy) as (_ & _ & He & _).
  pose proof (year_bound_le y Hy) as Hle.
  destruct (decide (doe + 1 < year_start y + year_length y)).
  - rewrite year_inner_day by lia. destruct (Z.eqb_spec doe 146096); [lia|].
    rewrite (era_date_year (doe + 1)), (year_unique y (doe + 1)) by lia. f_equal. lia.
  - replace (doe - year_start y) with (year_length y - 1) by lia. rewrite year_last_day.
    assert (Hdoe : doe + 1 = year_bound (y + 1)) by lia. unfold year_bound in Hdoe.
    destruct (Z.eqb_spec (y + 1) 400) as [->|Hne].
    + destruct (Z.eqb_spec doe 146096); [|lia]. vm_compute. reflexivity.
    + assert (Hl : 365 <= year_length (y + 1)) by (unfold year_length; destruct (is_leap _); lia).
      destruct (year_ok_spec (y + 1)) as (_ & _ & He' & _); [lia|].
      pose proof (year_bound_le (y + 1) ltac:(lia)).
      destruct (Z.eqb_spec doe 146096); [lia|].
      rewrite (era_date_year (doe + 1)), (year_unique (y + 1) (doe + 1)) by lia. f_equal. lia.
Qed.

Lemma civil_next days : civil (days + 1) = next_day (civil days).
Proof.
  rewrite !civil_era, next_day_shift. set (z := days + 719468).
  replace (days + 1 + 719468) with (z + 1) by lia.
  pose proof (Z.mod_pos_bound z 146097 ltac:(lia)) as Hm. rewrite era_next by done.
  pose proof (Z.div_mod z 146097 ltac:(lia)) as Hz.
  destruct (Z.eqb_spec (z mod 146097) 146096) as [E|E].
  - rewrite <-(Z.div_unique (z + 1) 146097 (z / 146097 + 1) 0), <-(Z.mod_unique (z + 1) 146097 (z / 146097 + 1) 0) by lia.
    destruct (era_date 0) as [[y m] d]. cbn. f_equal. f_equal. lia.
  - by rewrite <-(Z.div_unique (z + 1) 146097 (z / 146097) (z mod 146097 + 1)),
      <-(Z.mod_unique (z + 1) 146097 (z / 146097) (z mod 146097 + 1)) by lia.
Qed.

Lemma valid_shift k date : valid_date (shift_years k date) = valid_date date.
Proof. destruct date as [[y m] d]. cbn. by rewrite month_length_shift. Qed.

(** The date of the syslog lines is the Gregorian calendar: day 0 is the first of
    January 1970, every day, before and after, is followed by its next day, and every
    date is a valid one. *)
Theorem civil_is_gregorian :
  civil 0 = (1970, 1, 1) /\
  forall days, civil (days + 1) = next_day (civil days) /\ valid_date (civil days) = true.
Proof.
  split; [reflexivity|]. intros days. split; [apply civil_next|].
  rewrite civil_era, valid_shift.
  pose proof (Z.mod_pos_bound (days + 719468) 146097 ltac:(lia)) as Hm.
  destruct (year_found _ Hm). rewrite era_date_year by done. apply year_date_valid. lia.
Qed.

(** the last second before and the first of year 10000 *)
Example rfc3339_edges :
  rfc3339 253402300799 = lit "9999-12-31T23:59:59Z" /\ rfc3339 253402300800 = lit "-" /\
  rfc3339 951782400 = lit "2000-02-29T00:00:00Z".
Proof. vm_compute. done. Qed.
