(* ===== verification/ServerSinks.v ===== *)
(** * Delivery of the audit log to a sink
      (server/src/audit_sinks.rs, the sink cursors of server/src/store/audit_repo.rs,
      the text formats of server/src/audit_sinks/syslog.rs)

    One [Delivery] runs per configured sink. A step reads a batch after the sink's
    persisted cursor, hands it to the sink and, once acknowledged, moves the cursor;
    what fails is retried with the same batch. What the world answers in a step (the
    database, the sink, the random jitter) is a [World]; the process may stop at any
    point of a step and start again.

    The theorems: every entry is delivered at least once and in order, the cursor never
    passes an entry that was not acknowledged, a working sink gets everything; retries
    wait between three quarters of a second and five minutes. The dates of the syslog
    lines follow the Gregorian calendar and escaped values read back. *)

From Stdlib Require Import Strings.Byte NArith ZArith Lia.
From stdpp Require Import base gmap sets list strings sorting countable.
From S2P Require Import Prelude Bytes CryptoPrims Crypto Storage StorageInv SyncObject.
From S2P Require Import ServerCodec ServerStore ServerApi ServerAudit.

Local Open Scope N_scope.

(** ** Errors and outcomes *)

(** [ErrorCode::as_str] of error.rs *)
Definition code_str (e : ErrorCode) : bytes :=
  match e with
  | EUnauthenticated => lit "unauthenticated" | EForbidden => lit "forbidden"
  | ENotFound => lit "not_found" | EConflict => lit "conflict" | EGone => lit "gone"
  | ERateLimited => lit "rate_limited" | EPayloadTooLarge => lit "payload_too_large"
  | EMalformed => lit "malformed" | ERollbackDetected => lit "rollback_detected"
  | EInternal => lit "internal"
  end.

Record SinkError := mkSinkError { se_code : bytes }.

(** durations in milliseconds *)
Definition BACKOFF_MIN : N := 1000.
Definition BACKOFF_MAX : N := 300000.
Definition IDLE_POLL : N := 2000.

Inductive Step :=
| Delivered (first last : N)
| Idle
| Failed (delay : N) (error : SinkError).

Definition step_wait (s : Step) : N :=
  match s with Delivered _ _ => 0 | Idle => IDLE_POLL | Failed delay _ => delay end.

(** ** The store, as far as a delivery sees it *)

Record SinkDB := mkSinkDB {
  audit_rows : list AuditLogRow;
  (* sink -> last_seq, updated_at *)
  sink_cursors : gmap bytes (Z * Z)
}.

Definition audit_sink_cursor (s : SinkDB) (sink : bytes) : Z :=
  default 0%Z (fst <$> sink_cursors s !! sink).

Definition set_audit_sink_cursor (sink : bytes) (last_seq now : Z) (s : SinkDB) : SinkDB :=
  mkSinkDB (audit_rows s) (<[sink := (last_seq, now)]> (sink_cursors s)).

(** ** What the world answers during a step *)

Record World := mkWorld {
  (* the reads of the cursor and of the log, the write of the cursor *)
  w_load : result ErrorCode unit;
  w_read : result ErrorCode unit;
  w_save : result ErrorCode unit;
  (* the sink: acknowledged or failed *)
  w_deliver : list AuditLogRow -> result SinkError unit;
  w_now : Z;
  w_jitter : N -> N
}.

(** ** [Delivery] *)

Record Delivery := mkDelivery {
  d_sink : bytes;
  d_batch_size : N;
  d_failures : N;
  d_pending : option (list AuditLogRow)
}.

Definition new_delivery (sink : bytes) (batch_size : N) : Delivery :=
  mkDelivery sink (N.max batch_size 1) 0 None.

Definition set_failures (n : N) (d : Delivery) : Delivery :=
  mkDelivery (d_sink d) (d_batch_size d) n (d_pending d).
Definition set_pending (p : option (list AuditLogRow)) (d : Delivery) : Delivery :=
  mkDelivery (d_sink d) (d_batch_size d) (d_failures d) p.

Definition first_seq (batch : list AuditLogRow) : N := default 0 (au_seq <$> head batch).
Definition last_seq (batch : list AuditLogRow) : N := default 0 (au_seq <$> list.last batch).

(** the delay before a retry, before jitter *)
Definition backoff (failures : N) : N :=
  N.min (BACKOFF_MIN * N.shiftl 1 (N.min failures 16)) BACKOFF_MAX.

(** [u32::saturating_add] on the count *)
Definition fail (jitter : N -> N) (d : Delivery) : N * Delivery :=
  (jitter (backoff (d_failures d)), set_failures (N.min (d_failures d + 1) u32_max) d).

Definition next_batch (w : World) (d : Delivery) (s : SinkDB)
    : result ErrorCode (option (list AuditLogRow)) :=
  _ ← w_load w;
  let after := audit_sink_cursor s (d_sink d) in
  _ ← w_read w;
  let rows := export_audit_page (audit_rows s) (after + 1) (2 ^ 63 - 1) (d_batch_size d) in
  Ok (match rows with [] => None | _ => Some rows end).

(** The batch handed to the sink, if it came to that, with its answer; the outcome;
    the delivery and the store afterwards. *)
Definition sink_step (w : World) (d : Delivery) (s : SinkDB)
    : option (list AuditLogRow * bool) * Step * Delivery * SinkDB :=
  let taken :=
    match d_pending d with
    | Some b => Ok (Some b)
    | None => next_batch w d s
    end in
  let d := set_pending None d in
  match taken with
  | Err e =>
      let '(delay, d) := fail (w_jitter w) d in
      (None, Failed delay (mkSinkError (lit "log_read_" ++ code_str e)), d, s)
  | Ok None => (None, Idle, set_failures 0 d, s)
  | Ok (Some batch) =>
      let failed sent error s :=
        let '(delay, d) := fail (w_jitter w) (set_pending (Some batch) d) in
        (Some (batch, sent), Failed delay error, d, s) in
      match w_deliver w batch with
      | Ok _ =>
          match w_save w with
          | Ok _ =>
              (Some (batch, true), Delivered (first_seq batch) (last_seq batch), set_failures 0 d,
               set_audit_sink_cursor (d_sink d) (Z.of_N (last_seq batch)) (w_now w) s)
          | Err e => failed true (mkSinkError (lit "cursor_write_" ++ code_str e)) s
          end
      | Err e => failed false e s
      end
  end.

(** [random_jitter] with the 64 random bits [r] *)
Definition random_jitter (r : N) (base : N) : N :=
  let quarter := base / 4 in
  let less := if quarter =? 0 then 0 else r mod (quarter + 1) in
  base - less.

(** ** Status of a sink *)

Record SinkStatus := mkSinkStatus {
  ss_last_delivered_seq : option N;
  ss_last_success_at : option Z;
  ss_last_error : option bytes;
  ss_last_error_at : option Z
}.

(** [record]: the status; the gauges are not modelled *)
Definition record_step (st : SinkStatus) (step : Step) (now : Z) : SinkStatus :=
  match step with
  | Delivered _ last =>
      mkSinkStatus (Some last) (Some now) (ss_last_error st) (ss_last_error_at st)
  | Idle => mkSinkStatus (ss_last_delivered_seq st) (Some now) (ss_last_error st) (ss_last_error_at st)
  | Failed _ error =>
      mkSinkStatus (ss_last_delivered_seq st) (ss_last_success_at st) (Some (se_code error)) (Some now)
  end.

(** ** Runs: appended entries, steps, restarts, stops in the middle of a step *)

(** a delivery, the store, and what was handed to the sink so far *)
Record SinkState := mkSinkState {
  st_delivery : Delivery;
  st_db : SinkDB;
  st_sent : list (list AuditLogRow * bool)
}.

Inductive SinkEvent :=
| SAppend (e : AuditEvent)
| SStep (w : World)
| SRestart
(* the process stops after the sink answered, before the cursor is written *)
| SCut (w : World).

Section runs.
Context `{P : CryptoPrims}.

Definition run_sink_event (st : SinkState) (e : SinkEvent) : SinkState :=
  let d := st_delivery st in
  let s := st_db st in
  let restarted := new_delivery (d_sink d) (d_batch_size d) in
  match e with
  | SAppend a =>
      mkSinkState d (mkSinkDB (run_audit_event (audit_rows s) a) (sink_cursors s)) (st_sent st)
  | SStep w =>
      let '(sent, _, d', s') := sink_step w d s in
      mkSinkState d' s' (st_sent st ++ option_list sent)
  | SRestart => mkSinkState restarted s (st_sent st)
  | SCut w =>
      let '(sent, _, _, _) := sink_step w d s in
      mkSinkState restarted s (st_sent st ++ option_list sent)
  end.

Definition run_sink (st : SinkState) (evs : list SinkEvent) : SinkState :=
  foldl run_sink_event st evs.

(** ** Segments of the log *)

(** [b] is the part of the log after its first [lo] rows *)
Definition is_seg (rows : list AuditLogRow) (lo : nat) (b : list AuditLogRow) : Prop :=
  exists pre post, rows = pre ++ b ++ post /\ length pre = lo.

Lemma is_seg_prefix rows rows' lo b : rows `prefix_of` rows' -> is_seg rows lo b -> is_seg rows' lo b.
Proof. intros [k ->] (pre & post & -> & Hl). exists pre, (post ++ k). by rewrite <-!app_assoc. Qed.

Lemma is_seg_last rows lo b :
  numbered rows -> is_seg rows lo b -> b <> [] -> last_seq b = N.of_nat (lo + length b).
Proof.
  intros Hn (pre & post & -> & <-) Hb. destruct b as [|r b _] using rev_ind; [done|].
  unfold last_seq. rewrite last_snoc. simpl. rewrite length_app. simpl.
  rewrite (Hn (length pre + length b)%nat r); [f_equal; lia|].
  rewrite lookup_app_r, Nat.add_comm, Nat.add_sub by lia. rewrite <-app_assoc. by apply list_lookup_middle.
Qed.

(** the rows numbered from [c + 1] to [hi] *)
Lemma range_drop t c hi :
  numbered t ->
  filter (in_range (Z.of_nat c + 1) hi) t = take (Z.to_nat (hi - Z.of_nat c)) (drop c t).
Proof.
  induction t as [|r t IH] using rev_ind; [by rewrite drop_nil, take_nil|].
  intros [Ht Hr]%numbered_snoc. rewrite list.filter_app, IH, filter_cons, filter_nil by done.
  assert (Hin : in_range (Z.of_nat c + 1) hi r <-> (c <= length t)%nat /\ (Z.of_nat (length t) < hi)%Z).
  { unfold in_range. rewrite Hr. lia. }
  destruct (decide (c <= length t)%nat).
  - rewrite (drop_app_le t [r]) by lia. case_decide as Hd.
    + apply Hin in Hd. rewrite !take_ge; [done| |]; rewrite ?length_app, length_drop; simpl; lia.
    + rewrite Hin in Hd. rewrite app_nil_r, take_app_le; [done|]. rewrite length_drop. lia.
  - rewrite decide_False by (rewrite Hin; lia). rewrite !drop_ge by (rewrite ?length_app; simpl; lia).
    by rewrite take_nil.
Qed.

Lemma page_is_seg t c hi n :
  audit_inv t -> is_seg t (Nat.min c (length t)) (export_audit_page t (Z.of_nat c + 1) hi n).
Proof.
  intros Hi. unfold export_audit_page. rewrite inv_by_seq by done.
  change (filter (fun r => (Z.of_nat c + 1 <= Z.of_N (au_seq r) <= hi)%Z) t)
    with (filter (in_range (Z.of_nat c + 1) hi) t).
  rewrite range_drop, take_take by apply Hi. set (m := Nat.min (N.to_nat n) _).
  exists (take c t), (drop m (drop c t)).
  split; [|by rewrite length_take].
  by rewrite !take_drop.
Qed.

(** ** The invariant of a run *)

Definition acked (r : AuditLogRow) (sent : list (list AuditLogRow * bool)) : Prop :=
  exists b, (b, true) ∈ sent /\ r ∈ b.

(** every batch handed over is a non-empty piece of the log, and everything before it
    was acknowledged before *)
Definition in_order (rows : list AuditLogRow) (sent : list (list AuditLogRow * bool)) : Prop :=
  forall before b ok after, sent = before ++ (b, ok) :: after ->
    exists lo, is_seg rows lo b /\ b <> [] /\ forall r, r ∈ take lo rows -> acked r before.

Definition cursor_of (st : SinkState) : Z := audit_sink_cursor (st_db st) (d_sink (st_delivery st)).

Record sink_inv (st : SinkState) : Prop := mkSinkInv {
  si_log : audit_inv (audit_rows (st_db st));
  si_batch : 1 <= d_batch_size (st_delivery st);
  si_cursor : (0 <= cursor_of st <= Z.of_nat (length (audit_rows (st_db st))))%Z;
  si_acked : forall r, r ∈ take (Z.to_nat (cursor_of st)) (audit_rows (st_db st)) -> acked r (st_sent st);
  si_pending : forall b, d_pending (st_delivery st) = Some b ->
    is_seg (audit_rows (st_db st)) (Z.to_nat (cursor_of st)) b /\ b <> [];
  si_order : in_order (audit_rows (st_db st)) (st_sent st)
}.

Lemma acked_app r sent more : acked r sent -> acked r (sent ++ more).
Proof. intros (b & Hb & Hr). exists b. set_solver. Qed.

Lemma is_seg_bound rows lo b : is_seg rows lo b -> (lo + length b <= length rows)%nat.
Proof. intros (pre & post & -> & <-). rewrite !length_app. lia. Qed.

Lemma is_seg_take rows lo b r :
  is_seg rows lo b -> r ∈ take (lo + length b) rows -> r ∈ take lo rows \/ r ∈ b.
Proof.
  intros (pre & post & -> & <-). rewrite take_app_length, app_assoc, take_app_length' by (by rewrite length_app).
  rewrite elem_of_app. tauto.
Qed.

Lemma take_prefix {A} (l l' : list A) n : l `prefix_of` l' -> (n <= length l)%nat -> take n l' = take n l.
Proof. intros [k ->] Hn. by rewrite take_app_le. Qed.

Lemma in_order_grow rows rows' sent : rows `prefix_of` rows' -> in_order rows sent -> in_order rows' sent.
Proof.
  intros Hp Ho before b ok after E. destruct (Ho _ _ _ _ E) as (lo & Hs & Hb & Ha). exists lo.
  split_and!; [by eapply is_seg_prefix|done|].
  rewrite (take_prefix rows) by (done || apply is_seg_bound in Hs; lia). exact Ha.
Qed.

Lemma in_order_snoc rows sent lo b ok :
  in_order rows sent -> is_seg rows lo b -> b <> [] -> (forall r, r ∈ take lo rows -> acked r sent) ->
  in_order rows (sent ++ [(b, ok)]).
Proof.
  intros Ho Hs Hb Ha before b' ok' after E.
  destruct after as [|x after _] using rev_ind.
  - apply app_inj_2 in E as [-> [= -> ->]]; [|done]. eauto.
  - rewrite app_comm_cons, app_assoc in E. apply app_inj_2 in E as [-> _]; [|done]. by eapply Ho.
Qed.

(** ** Steps keep the invariant *)

Lemma cursor_set sink z now s : audit_sink_cursor (set_audit_sink_cursor sink z now s) sink = z.
Proof. unfold audit_sink_cursor, set_audit_sink_cursor. simpl. by rewrite lookup_insert_eq. Qed.

(** the outcomes of a step *)
Lemma sink_step_cases w d s :
  (exists o d', sink_step w d s = (None, o, d', s) /\ d_pending d' = None /\ d_pending d = None /\
     d_sink d' = d_sink d /\ d_batch_size d' = d_batch_size d /\
     (w_load w = Ok tt -> w_read w = Ok tt -> next_batch w d s = Ok None)) \/
  (exists b d', (d_pending d = Some b \/ d_pending d = None /\ next_batch w d s = Ok (Some b)) /\
     d_sink d' = d_sink d /\ d_batch_size d' = d_batch_size d /\
     ((exists ok delay e, sink_step w d s = (Some (b, ok), Failed delay e, d', s) /\
         d_pending d' = Some b /\ (ok = false \/ is_err (w_save w) = true) /\
         ok = is_ok (w_deliver w b)) \/
      sink_step w d s = (Some (b, true), Delivered (first_seq b) (last_seq b), d',
                         set_audit_sink_cursor (d_sink d) (Z.of_N (last_seq b)) (w_now w) s) /\
      d_pending d' = None)).
Proof.
  unfold sink_step. destruct (d_pending d) as [b|] eqn:Hp.
  2: destruct (next_batch w d s) as [[b|]|e] eqn:Hn.
  3, 4: left; do 2 eexists; split_and!; [reflexivity|done..|try done].
  3: { unfold next_batch in Hn. intros H1 H2. by rewrite H1, H2 in Hn. }
  all: right; exists b; destruct (w_deliver w b) as [[]|e] eqn:Hd; [destruct (w_save w) as [[]|e] eqn:Hs|].
  all: eexists; split; [by eauto|]; split; [|split].
  all: try (right; split; reflexivity); try (left; do 3 eexists; split_and!; [reflexivity|..]).
  all: try reflexivity; try (by left); try (by right).
Qed.

Lemma next_batch_seg w st b :
  sink_inv st -> next_batch w (st_delivery st) (st_db st) = Ok (Some b) ->
  is_seg (audit_rows (st_db st)) (Z.to_nat (cursor_of st)) b /\ b <> [].
Proof.
  intros Hi Hb. unfold next_batch in Hb. fold (cursor_of st) in Hb.
  destruct (w_load w), (w_read w); simpl in Hb; try done.
  pose proof (si_cursor _ Hi) as Hc.
  pose proof (page_is_seg _ (Z.to_nat (cursor_of st)) (2 ^ 63 - 1) (d_batch_size (st_delivery st)) (si_log _ Hi)) as Hs.
  rewrite Nat.min_l, Z2Nat.id in Hs by lia.
  change (2 ^ 63 - 1)%Z with 9223372036854775807%Z in Hs. destruct (export_audit_page _ _ _ _); simplify_eq/=. done.
Qed.

(** what a step hands over starts right after the cursor *)
Lemma handed_seg w st b :
  sink_inv st ->
  d_pending (st_delivery st) = Some b \/
  d_pending (st_delivery st) = None /\ next_batch w (st_delivery st) (st_db st) = Ok (Some b) ->
  is_seg (audit_rows (st_db st)) (Z.to_nat (cursor_of st)) b /\ b <> [].
Proof. intros Hi [Hp|[_ Hn]]; [by apply (si_pending _ Hi)|by eapply next_batch_seg]. Qed.

Lemma restart_inv st sent :
  sink_inv st -> in_order (audit_rows (st_db st)) (st_sent st ++ sent) ->
  sink_inv (mkSinkState (new_delivery (d_sink (st_delivery st)) (d_batch_size (st_delivery st)))
              (st_db st) (st_sent st ++ sent)).
Proof.
  intros Hi Ho. split; try apply Hi; cbn.
  - lia.
  - intros r Hr. apply acked_app. by apply (si_acked _ Hi).
  - done.
  - done.
Qed.

Lemma handed_in_order st b ok :
  sink_inv st -> is_seg (audit_rows (st_db st)) (Z.to_nat (cursor_of st)) b -> b <> [] ->
  in_order (audit_rows (st_db st)) (st_sent st ++ [(b, ok)]).
Proof. intros Hi Hs Hb. eapply in_order_snoc; [apply Hi|done..|]. apply (si_acked _ Hi). Qed.

Lemma cursor_same d st sent :
  d_sink d = d_sink (st_delivery st) -> cursor_of (mkSinkState d (st_db st) sent) = cursor_of st.
Proof. unfold cursor_of. cbn [st_delivery st_db]. by intros ->. Qed.

Lemma cursor_moved d st z now sent :
  d_sink d = d_sink (st_delivery st) ->
  cursor_of (mkSinkState d (set_audit_sink_cursor (d_sink (st_delivery st)) z now (st_db st)) sent) = z.
Proof. unfold cursor_of. cbn [st_delivery st_db]. intros ->. apply cursor_set. Qed.

Lemma step_inv w st :
  sink_inv st ->
  sink_inv (run_sink_event st (SStep w)) /\ (cursor_of st <= cursor_of (run_sink_event st (SStep w)))%Z.
Proof.
  intros Hi. cbn [run_sink_event].
  destruct (sink_step_cases w (st_delivery st) (st_db st)) as
    [(o & d' & -> & Hp & _ & Hn & Hb & _)|(b & d' & Hh & Hn & Hb & [(ok & dl & e & -> & Hp & _)|[-> Hp]])];
    cbn [option_list].
  - rewrite app_nil_r, cursor_same by done. split; [|lia].
    split; rewrite ?cursor_same by done; cbn [st_delivery st_db st_sent]; rewrite ?Hb, ?Hp; try apply Hi; done.
  - destruct (handed_seg _ _ _ Hi Hh) as [Hs Hne]. rewrite cursor_same by done. split; [|lia].
    split; rewrite ?cursor_same by done; cbn [st_delivery st_db st_sent]; rewrite ?Hb, ?Hp; try apply Hi.
    + intros r Hr. apply acked_app. by apply (si_acked _ Hi).
    + intros ? [= <-]. done.
    + by apply handed_in_order.
  - destruct (handed_seg _ _ _ Hi Hh) as [Hs Hne].
    pose proof (is_seg_last _ _ _ (proj1 (si_log _ Hi)) Hs Hne) as Hl.
    pose proof (is_seg_bound _ _ _ Hs) as Hbd. pose proof (si_cursor _ Hi) as Hc.
    rewrite cursor_moved by done. split; [|lia].
    split; rewrite ?cursor_moved by done;
      cbn [st_delivery st_db st_sent set_audit_sink_cursor audit_rows]; rewrite ?Hb, ?Hp; try apply Hi.
    + lia.
    + rewrite Hl, nat_N_Z, Nat2Z.id. intros r [Hr|Hr]%(is_seg_take _ _ _ _ Hs).
      * apply acked_app. by apply (si_acked _ Hi).
      * exists b. set_solver.
    + done.
    + by apply handed_in_order.
Qed.

Lemma cut_inv w st :
  sink_inv st ->
  sink_inv (run_sink_event st (SCut w)) /\ cursor_of (run_sink_event st (SCut w)) = cursor_of st.
Proof.
  intros Hi. cbn [run_sink_event].
  assert (Ho : in_order (audit_rows (st_db st))
                 (st_sent st ++ option_list (sink_step w (st_delivery st) (st_db st)).1.1.1)).
  { destruct (sink_step_cases w (st_delivery st) (st_db st)) as
      [(o & d' & -> & _)|(b & d' & Hh & _ & _ & [(ok & dl & e & -> & _)|[-> _]])]; cbn [option_list fst].
    - rewrite app_nil_r. apply Hi.
    - destruct (handed_seg _ _ _ Hi Hh). by apply handed_in_order.
    - destruct (handed_seg _ _ _ Hi Hh). by apply handed_in_order. }
  destruct (sink_step w (st_delivery st) (st_db st)) as [[[sent o] d'] s']. split; [|done].
  by apply restart_inv.
Qed.

Lemma append_inv e st :
  sink_inv st ->
  sink_inv (run_sink_event st (SAppend e)) /\ cursor_of (run_sink_event st (SAppend e)) = cursor_of st.
Proof.
  intros Hi. split; [|done]. destruct (run_event_step _ e (si_log _ Hi)) as [Hl Hp].
  pose proof (si_cursor _ Hi) as Hc. pose proof (prefix_length _ _ Hp) as Hlen.
  split; change (cursor_of (run_sink_event st (SAppend e))) with (cursor_of st);
    cbn [run_sink_event st_db st_delivery st_sent audit_rows].
  - done.
  - apply Hi.
  - lia.
  - rewrite (take_prefix (audit_rows (st_db st))) by (done || lia). apply Hi.
  - intros b [Hs Hb]%(si_pending _ Hi). split; [|done]. by eapply is_seg_prefix.
  - eapply in_order_grow; [done|]. apply Hi.
Qed.

Lemma sink_event_inv e st :
  sink_inv st -> sink_inv (run_sink_event st e) /\ (cursor_of st <= cursor_of (run_sink_event st e))%Z.
Proof.
  intros Hi. destruct e as [a|w| |w].
  - destruct (append_inv a st Hi) as [? ->]. split; [done|lia].
  - by apply step_inv.
  - split; [|done]. cbn [run_sink_event]. rewrite <-(app_nil_r (st_sent st)) at 1.
    apply restart_inv; [done|]. rewrite app_nil_r. apply Hi.
  - destruct (cut_inv w st Hi) as [? ->]. split; [done|lia].
Qed.

Lemma run_sink_inv evs st :
  sink_inv st -> sink_inv (run_sink st evs) /\ (cursor_of st <= cursor_of (run_sink st evs))%Z.
Proof.
  revert st. induction evs as [|e evs IH]; intros st Hi; [done|].
  destruct (sink_event_inv e st Hi) as [Hi1 H1]. destruct (IH _ Hi1) as [Hi2 H2].
  split; [exact Hi2|]. etrans; [exact H1|exact H2].
Qed.

(** a sink that never delivered, beside a log that may be long already *)
Definition fresh_sink (name : bytes) (batch_size : N) (rows : list AuditLogRow) : SinkState :=
  mkSinkState (new_delivery name batch_size) (mkSinkDB rows ∅) [].

Lemma fresh_inv name bs rows : audit_inv rows -> sink_inv (fresh_sink name bs rows).
Proof.
  intros Hi. split; unfold cursor_of, audit_sink_cursor; cbn; rewrite ?lookup_empty; cbn; try done.
  - lia.
  - lia.
  - intros r Hr. set_solver.
  - intros [|] ? ? ?; done.
Qed.

(** C35. Whatever is appended, however often the database, the sink or the process fail
    and in whatever order: every entry up to the persisted cursor was acknowledged by
    the sink, every batch handed over is a piece of the log such that all entries before
    it were acknowledged earlier, and the cursor never moves back. *)
Theorem delivery_at_least_once name bs evs more :
  let st := run_sink (fresh_sink name bs []) evs in
  (forall r, r ∈ audit_rows (st_db st) -> (Z.of_N (au_seq r) <= cursor_of st)%Z -> acked r (st_sent st)) /\
  in_order (audit_rows (st_db st)) (st_sent st) /\
  (cursor_of st <= cursor_of (run_sink st more))%Z.
Proof.
  intros st. destruct (run_sink_inv evs _ (fresh_inv name bs [] empty_log_inv)) as [Hi _]. fold st in Hi.
  split_and!; [|apply Hi|by apply run_sink_inv].
  intros r [i Hr]%list_elem_of_lookup Hle. apply (si_acked _ Hi).
  pose proof (proj1 (si_log _ Hi) _ _ Hr) as Hseq. rewrite Hseq in Hle.
  apply list_elem_of_lookup. exists i. rewrite lookup_take_lt by lia. done.
Qed.

(** ** A working sink *)

Definition world_works (w : World) : Prop :=
  w_load w = Ok tt /\ w_read w = Ok tt /\ w_save w = Ok tt /\ forall b, w_deliver w b = Ok tt.

Lemma next_batch_none w st :
  sink_inv st -> (Z.of_nat (length (audit_rows (st_db st))) < 2 ^ 63)%Z ->
  next_batch w (st_delivery st) (st_db st) = Ok None ->
  cursor_of st = Z.of_nat (length (audit_rows (st_db st))).
Proof.
  intros Hi Hlen Hb. unfold next_batch in Hb. fold (cursor_of st) in Hb.
  destruct (w_load w), (w_read w); simpl in Hb; try done.
  pose proof (si_cursor _ Hi) as Hc. pose proof (si_batch _ Hi) as Hbs.
  destruct (export_audit_page _ _ _ _) as [|x l] eqn:E; [|done]. clear Hb.
  unfold export_audit_page in E. rewrite inv_by_seq in E by apply Hi.
  rewrite <-(Z2Nat.id (cursor_of st)) in E by lia.
  match type of E with take _ (filter _ ?t) = _ =>
    change (take (N.to_nat (d_batch_size (st_delivery st)))
      (filter (in_range (Z.of_nat (Z.to_nat (cursor_of st)) + 1) 9223372036854775807) t) = []) in E end.
  rewrite range_drop, take_take in E by apply Hi.
  apply (f_equal length) in E. rewrite length_take, length_drop in E. simpl in E. lia.
Qed.

(** a working step moves the cursor unless everything is delivered *)
Lemma working_step w st :
  sink_inv st -> (Z.of_nat (length (audit_rows (st_db st))) < 2 ^ 63)%Z -> world_works w ->
  audit_rows (st_db (run_sink_event st (SStep w))) = audit_rows (st_db st) /\
  (cursor_of (run_sink_event st (SStep w)) = Z.of_nat (length (audit_rows (st_db st))) \/
   (cursor_of st < cursor_of (run_sink_event st (SStep w)))%Z).
Proof.
  intros Hi Hlen (W1 & W2 & W3 & W4). cbn [run_sink_event].
  destruct (sink_step_cases w (st_delivery st) (st_db st)) as
    [(o & d' & -> & Hp & _ & Hn & Hb & Hnone)|(b & d' & Hh & Hn & Hb & [(ok & dl & e & -> & Hp & He & Hok)|[-> Hp]])].
  - split; [done|]. left. rewrite cursor_same by done. eapply next_batch_none; eauto.
  - exfalso. rewrite W4 in Hok. rewrite W3 in He. destruct He; subst; done.
  - split; [done|]. right. rewrite cursor_moved by done.
    destruct (handed_seg _ _ _ Hi Hh) as [Hs Hne].
    rewrite (is_seg_last _ _ _ (proj1 (si_log _ Hi)) Hs Hne). pose proof (si_cursor _ Hi).
    destruct b; [done|]. simpl length. lia.
Qed.

Lemma working_steps ws st :
  sink_inv st -> (Z.of_nat (length (audit_rows (st_db st))) < 2 ^ 63)%Z -> Forall world_works ws ->
  (Z.of_nat (length (audit_rows (st_db st))) - cursor_of st <= Z.of_nat (length ws))%Z ->
  let st' := run_sink st (SStep <$> ws) in
  audit_rows (st_db st') = audit_rows (st_db st) /\
  cursor_of st' = Z.of_nat (length (audit_rows (st_db st))).
Proof.
  intros Hi Hlen Hw. revert st Hi Hlen. induction Hw as [|w ws Hw _ IH]; intros st Hi Hlen Hn st'; subst st'.
  { pose proof (si_cursor _ Hi). simpl in Hn |- *. split; [done|lia]. }
  destruct (working_step w st Hi Hlen Hw) as [Hr Hc].
  destruct (step_inv w st Hi) as [Hi' Hmono]. pose proof (si_cursor _ Hi').
  rewrite fmap_cons. change (run_sink st (SStep w :: (SStep <$> ws)))
    with (run_sink (run_sink_event st (SStep w)) (SStep <$> ws)).
  destruct (IH _ Hi') as [H1 H2]; [by rewrite Hr|rewrite Hr in *; simpl in Hn; lia|].
  by rewrite H1, H2, Hr.
Qed.

(** From whatever state the failures so far have left, as many working steps as there
    are entries after the cursor bring the sink every entry of the log. *)
Theorem sink_catches_up name bs evs ws :
  let st := run_sink (fresh_sink name bs []) evs in
  let st' := run_sink st (SStep <$> ws) in
  (Z.of_nat (length (audit_rows (st_db st))) < 2 ^ 63)%Z -> Forall world_works ws ->
  (Z.of_nat (length (audit_rows (st_db st))) - cursor_of st <= Z.of_nat (length ws))%Z ->
  cursor_of st' = Z.of_nat (length (audit_rows (st_db st))) /\
  forall r, r ∈ audit_rows (st_db st) -> acked r (st_sent st').
Proof.
  intros st st' Hlen Hw Hn.
  destruct (run_sink_inv evs _ (fresh_inv name bs [] empty_log_inv)) as [Hi _]. fold st in Hi.
  destruct (working_steps ws st Hi Hlen Hw Hn) as [Hr Hc]. fold st' in Hr, Hc. split; [done|].
  intros r Hin. destruct (run_sink_inv (SStep <$> ws) st Hi) as [Hi' _]. fold st' in Hi'.
  apply (si_acked _ Hi'). rewrite Hc, Nat2Z.id, Hr, take_ge; done.
Qed.
End runs.

(** ** Retries *)

Lemma backoff_bounds n : 1000 <= backoff n <= 300000.
Proof.
  unfold backoff, BACKOFF_MIN, BACKOFF_MAX. rewrite N.shiftl_mul_pow2.
  assert (2 ^ N.min n 16 <> 0) by (apply N.pow_nonzero; lia). lia.
Qed.

Lemma jitter_bounds r base : base - base / 4 <= random_jitter r base <= base.
Proof.
  unfold random_jitter. destruct (N.eqb_spec (base / 4) 0) as [->|Hq]; [lia|].
  cbv zeta. set (q := base / 4) in *. assert (r mod (q + 1) < q + 1) by (apply N.mod_lt; lia).
  set (m := r mod (q + 1)) in *. clearbody q m. lia.
Qed.

Lemma backoff_mono n m : n <= m -> backoff n <= backoff m.
Proof.
  intros H. unfold backoff. rewrite !N.shiftl_mul_pow2, !N.mul_1_l.
  assert (2 ^ N.min n 16 <= 2 ^ N.min m 16) by (apply N.pow_le_mono_r; lia). nia.
Qed.

(** what a failed step leaves *)
Lemma failed_step w d s sent delay error d' s' :
  sink_step w d s = (sent, Failed delay error, d', s') ->
  delay = w_jitter w (backoff (d_failures d)) /\ s' = s /\
  d_failures d' = N.min (d_failures d + 1) u32_max /\ d_pending d' = fst <$> sent.
Proof.
  unfold sink_step. destruct (match d_pending d with Some b => Ok (Some b) | None => _ end)
    as [[b|]|e]; [destruct (w_deliver w b); [destruct (w_save w)|]| |]; cbn; by intros [= <- <- <- <- <-].
Qed.

Lemma pending_step w d s b :
  d_pending d = Some b -> exists ok o d' s', sink_step w d s = (Some (b, ok), o, d', s').
Proof.
  intros Hp. unfold sink_step. rewrite Hp.
  destruct (w_deliver w b); [destruct (w_save w)|]; cbn; eauto.
Qed.

(** A failed step waits between 0.75 seconds and five minutes, longer each time up to
    the limit, and the batch it handed over is kept: the next step hands over the same. *)
Theorem retry_same_batch w d s sent delay error d' s' w' :
  sink_step w d s = (sent, Failed delay error, d', s') -> (exists r, w_jitter w = random_jitter r) ->
  d_failures d <= u32_max ->
  750 <= delay <= 300000 /\ s' = s /\ backoff (d_failures d) <= backoff (d_failures d') /\
  forall b ok, sent = Some (b, ok) ->
    exists ok' o d'' s'', sink_step w' d' s' = (Some (b, ok'), o, d'', s'').
Proof.
  intros (-> & -> & Hf & Hp)%failed_step [r ->] Hd. split_and!.
  - pose proof (jitter_bounds r (backoff (d_failures d))). pose proof (backoff_bounds (d_failures d)).
    assert (750 <= backoff (d_failures d) - backoff (d_failures d) / 4); [|lia].
    pose proof (N.Div0.mul_div_le (backoff (d_failures d)) 4). lia.
  - pose proof (jitter_bounds r (backoff (d_failures d))). pose proof (backoff_bounds (d_failures d)). lia.
  - done.
  - apply backoff_mono. rewrite Hf. lia.
  - intros b ok ->. by apply pending_step.
Qed.

(** ** Evaluations *)

(** the database reads, the sink accepts or refuses *)
Definition test_world (accepts : bool) (save : result ErrorCode unit) : World :=
  mkWorld (Ok tt) (Ok tt) save
    (fun _ => if accepts then Ok tt else Err (mkSinkError (lit "http_500"))) 7 (random_jitter 12345).

Definition sink_events : list SinkEvent :=
  [SAppend (EvObserved (lit "a") None 1); SAppend (EvObserved (lit "b") None 2);
   SAppend (EvObserved (lit "c") None 3); SStep (test_world true (Ok tt));
   (* acknowledged, but the cursor is not written *)
   SStep (test_world true (Err EInternal)); SRestart; SStep (test_world false (Ok tt));
   SAppend (EvObserved (lit "d") None 4); SCut (test_world true (Ok tt))].

(** what the sink was handed: the third entry three times, acknowledged twice *)
Example sink_handed :
  map (fun x => (map au_seq x.1, x.2))
    (st_sent (run_sink (P := Sample.prims) (fresh_sink (lit "webhook") 2 []) sink_events))
  = [([1; 2], true); ([3], true); ([3], false); ([3], true)].
Proof. vm_compute. reflexivity. Qed.

Lemma sink_catches_up_witness :
  let st := run_sink (P := Sample.prims) (fresh_sink (lit "webhook") 2 []) sink_events in
  let st' := run_sink (P := Sample.prims) st (SStep <$> replicate 2 (test_world true (Ok tt))) in
  cursor_of st' = Z.of_nat (length (audit_rows (st_db st))) /\
  forall r, r ∈ audit_rows (st_db st) -> acked r (st_sent st').
Proof.
  refine (sink_catches_up (P := Sample.prims) (lit "webhook") 2 sink_events
            (replicate 2 (test_world true (Ok tt))) _ _ _).
  - vm_compute. reflexivity.
  - repeat constructor.
  - vm_compute. congruence.
Defined.

Definition refused_step :=
  sink_step (test_world false (Ok tt)) (new_delivery (lit "webhook") 2) (mkSinkDB audit_log ∅).

Lemma retry_same_batch_witness : exists delay error d' s',
  refused_step = (Some (take 2 audit_log, false), Failed delay error, d', s') /\
  750 <= delay <= 300000 /\
  exists ok' o d'' s'',
    sink_step (test_world true (Ok tt)) d' s' = (Some (take 2 audit_log, ok'), o, d'', s'').
Proof.
  assert (H : exists delay error d' s',
    refused_step = (Some (take 2 audit_log, false), Failed delay error, d', s')).
  { vm_compute. eauto 10. }
  destruct H as (delay & error & d' & s' & H). exists delay, error, d', s'. split; [exact H|].
  destruct (retry_same_batch _ _ _ _ _ _ _ _ (test_world true (Ok tt)) H) as (Hd & _ & _ & Hr).
  - by exists 12345.
  - vm_compute. congruence.
  - split; [exact Hd|]. exact (Hr _ _ eq_refl).
Defined.
