(* ===== verification/AutoOutput.v ===== *)
(** * Retained output of automated commands (automation/src/output.rs)

    The output of a command arrives in packets of two streams and is kept in chunks of
    at most 16 KiB that never cut a UTF-8 character, so that a page can show text as
    text. Readers hold plain integer cursors into the list of chunks.

    [std::str::from_utf8] of the standard library is modelled by [utf8_scan]: how many
    bytes are valid, and whether the rest is invalid or merely incomplete. Encoding of a
    chunk in a response (text or base64) is not modelled: a page is its chunks. *)

From Stdlib Require Import Strings.Byte NArith ZArith Lia.
From stdpp Require Import base gmap sets list strings sorting countable.
From S2P Require Import Prelude Bytes.

Local Open Scope nat_scope.

(** ** [std::str::from_utf8] *)

Inductive Utf8End := UValid | UInvalid | UIncomplete.

Definition in_byte_range (lo hi : N) (b : byte) : bool :=
  (lo <=? Byte.to_N b)%N && (Byte.to_N b <=? hi)%N.

(** the ranges allowed for the bytes after a first byte; [None]: not a first byte *)
Definition utf8_tail (b : byte) : option (list (N * N)) :=
  let cont := (128, 191)%N in
  if in_byte_range 0 127 b then Some []
  else if in_byte_range 194 223 b then Some [cont]
  else if in_byte_range 224 224 b then Some [(160, 191)%N; cont]
  else if in_byte_range 225 236 b then Some [cont; cont]
  else if in_byte_range 237 237 b then Some [(128, 159)%N; cont]
  else if in_byte_range 238 239 b then Some [cont; cont]
  else if in_byte_range 240 240 b then Some [(144, 191)%N; cont; cont]
  else if in_byte_range 241 243 b then Some [cont; cont; cont]
  else if in_byte_range 244 244 b then Some [(128, 143)%N; cont; cont]
  else None.

(** the bytes after a first byte: complete with the rest, invalid, or cut short *)
Inductive TailResult := TComplete (rest : bytes) | TInvalid | TShort.

Fixpoint match_tail (ranges : list (N * N)) (l : bytes) : TailResult :=
  match ranges, l with
  | [], _ => TComplete l
  | _ :: _, [] => TShort
  | (lo, hi) :: ranges, b :: l => if in_byte_range lo hi b then match_tail ranges l else TInvalid
  end.

(** [valid_up_to] and how the scan ended; the fuel is the length *)
Fixpoint utf8_scan (fuel : nat) (l : bytes) : nat * Utf8End :=
  match fuel, l with
  | _, [] => (0, UValid)
  | O, _ => (0, UInvalid)
  | S fuel, b :: l' =>
      match utf8_tail b with
      | None => (0, UInvalid)
      | Some ranges =>
          match match_tail ranges l' with
          | TInvalid => (0, UInvalid)
          | TShort => (0, UIncomplete)
          | TComplete rest =>
              let '(n, e) := utf8_scan fuel rest in (S (length ranges) + n, e)
          end
      end
  end.

Definition from_utf8 (l : bytes) : nat * Utf8End := utf8_scan (length l) l.

(** ** The buffer *)

Record Chunk := mkChunk { c_stderr : bool; c_data : bytes }.

Record OutputBuffer := mkOutput {
  ob_chunks : list Chunk;
  ob_stdout : bytes;
  ob_stderr : bytes
}.

Definition empty_output : OutputBuffer := mkOutput [] [] [].

Definition ob_pending (stderr : bool) (b : OutputBuffer) : bytes :=
  if stderr then ob_stderr b else ob_stdout b.
Definition set_pending (stderr : bool) (p : bytes) (b : OutputBuffer) : OutputBuffer :=
  if stderr then mkOutput (ob_chunks b) (ob_stdout b) p else mkOutput (ob_chunks b) p (ob_stderr b).

Definition CHUNK_LIMIT : nat := N.to_nat 4094.
Definition CHUNK_BYTES : nat := N.to_nat (16 * 1024).

(** the sizes are large: proofs use these bounds only *)
Lemma CHUNK_BYTES_pos : 3 < CHUNK_BYTES.
Proof. unfold CHUNK_BYTES. lia. Qed.

(** how much of a slice becomes a chunk *)
Definition complete_prefix (part : bytes) : nat :=
  match from_utf8 part with
  | (n, UIncomplete) => n
  | _ => length part
  end.

(** the loop over [data], what is left of it after [offset]; the fuel is its length.
    The new chunks, the new pending bytes and how far it came. *)
Fixpoint push_loop (fuel : nat) (stderr : bool) (chunks : list Chunk) (data : bytes)
    : list Chunk * bytes * nat :=
  match fuel, data with
  | O, _ | _, [] => (chunks, [], 0)
  | S fuel, _ =>
      if CHUNK_LIMIT <=? length chunks then (chunks, [], 0)
      else
        let part := take CHUNK_BYTES data in
        match complete_prefix part with
        | O =>
            let '(chunks, pending, n) := push_loop fuel stderr chunks (drop (length part) data) in
            (chunks, part ++ pending, length part + n)
        | S _ as complete =>
            let '(chunks, pending, n) :=
              push_loop fuel stderr (chunks ++ [mkChunk stderr (take complete part)])
                (drop complete data) in
            (chunks, pending, complete + n)
        end
  end.

Definition push (b : OutputBuffer) (stderr : bool) (bytes : bytes) : nat * OutputBuffer :=
  if (CHUNK_LIMIT <=? length (ob_chunks b)) || (length bytes =? 0) then (0, b)
  else
    let prior := ob_pending stderr b in
    let data := prior ++ bytes in
    let '(chunks, pending, offset) := push_loop (length data) stderr (ob_chunks b) data in
    (offset - length prior,
     set_pending stderr pending (mkOutput chunks (ob_stdout b) (ob_stderr b))).

Definition flush_stream (stderr : bool) (b : OutputBuffer) : OutputBuffer :=
  match ob_pending stderr b with
  | [] => b
  | p => set_pending stderr [] (mkOutput (ob_chunks b ++ [mkChunk stderr p]) (ob_stdout b) (ob_stderr b))
  end.

Definition flush (b : OutputBuffer) : OutputBuffer := flush_stream true (flush_stream false b).

(** ** Pages *)

Definition PAGE_BYTES : nat := N.to_nat (64 * 1024).

Lemma chunk_fits_page : CHUNK_BYTES <= PAGE_BYTES.
Proof. unfold CHUNK_BYTES, PAGE_BYTES. lia. Qed.
#[global] Opaque CHUNK_BYTES CHUNK_LIMIT PAGE_BYTES.

(** the chunks of a page from a list of chunks, within what is left of the page *)
Fixpoint page_chunks (used : nat) (chunks : list Chunk) : list Chunk :=
  match chunks with
  | [] => []
  | c :: chunks =>
      if PAGE_BYTES <? used + length (c_data c) then []
      else c :: page_chunks (used + length (c_data c)) chunks
  end.

(** the page at a cursor with the next cursor; [None]: output expired *)
Definition page (b : OutputBuffer) (cursor : nat) : option (list Chunk * nat) :=
  if length (ob_chunks b) <? cursor then None
  else
    let chunks := page_chunks 0 (drop cursor (ob_chunks b)) in
    Some (chunks, cursor + length chunks).

Definition has_more (b : OutputBuffer) (cursor : nat) : bool := cursor <? length (ob_chunks b).

(** a cursor on the wire: [usize::from_str] takes an optional plus sign and decimal digits *)
Fixpoint parse_digits (acc : N) (l : bytes) : option N :=
  match l with
  | [] => Some acc
  | b :: l =>
      if in_byte_range 48 57 b then
        let acc := (acc * 10 + (Byte.to_N b - 48))%N in
        if (acc <=? u64_max)%N then parse_digits acc l else None
      else None
  end.
Definition parse_usize (l : bytes) : option N :=
  match l with
  | [] | [x2b] => None
  | x2b :: l => parse_digits 0 l
  | l => parse_digits 0 l
  end.

(** [usize::to_string] *)
Definition dec_digit (n : N) : byte := default x00 (Byte.of_N (48 + n mod 10)%N).
Fixpoint print_digits (fuel : nat) (n : N) : bytes :=
  match fuel with
  | O => []
  | S fuel => if (n <? 10)%N then [dec_digit n] else print_digits fuel (n / 10)%N ++ [dec_digit n]
  end.
Definition print_usize (n : N) : bytes := print_digits 20 n.

Definition page_at (b : OutputBuffer) (cursor : option bytes) : option (list Chunk * bytes) :=
  cursor ← parse_usize (default (lit "0") cursor);
  '(chunks, next) ← page b (N.to_nat cursor);
  Some (chunks, print_usize (N.of_nat next)).

(** ** Theory: incomplete characters *)

Lemma in_byte_range_spec lo hi b :
  in_byte_range lo hi b = true <-> (lo <= Byte.to_N b <= hi)%N.
Proof. unfold in_byte_range. rewrite andb_true_iff, !N.leb_le. tauto. Qed.

Lemma utf8_tail_len b ranges : utf8_tail b = Some ranges -> length ranges <= 3.
Proof.
  unfold utf8_tail. repeat case_match; intros [= <-]; simpl; lia.
Qed.

Lemma match_tail_complete ranges l rest :
  match_tail ranges l = TComplete rest -> length l = length ranges + length rest.
Proof.
  revert l. induction ranges as [|[lo hi] ranges IH]; intros [|b l]; simpl; try (by intros [= <-]).
  destruct (in_byte_range lo hi b); [|done]. intros H%IH. lia.
Qed.

Lemma match_tail_short ranges l : match_tail ranges l = TShort -> length l < length ranges.
Proof.
  revert l. induction ranges as [|[lo hi] ranges IH]; intros [|b l]; simpl; try done; [lia|].
  destruct (in_byte_range lo hi b); [|done]. intros H%IH. lia.
Qed.

Lemma match_tail_app ranges l k : match_tail ranges l = TInvalid -> match_tail ranges (l ++ k) = TInvalid.
Proof.
  revert l. induction ranges as [|[lo hi] ranges IH]; intros [|b l]; simpl; try done.
  destruct (in_byte_range lo hi b); [|done]. apply IH.
Qed.

Lemma utf8_scan_le fuel l : (utf8_scan fuel l).1 <= length l.
Proof.
  revert l. induction fuel as [|fuel IH]; intros [|b l]; simpl; try lia.
  destruct (utf8_tail b) as [ranges|]; simpl; [|lia].
  destruct (match_tail ranges l) as [rest| |] eqn:E; simpl; [|lia..].
  apply match_tail_complete in E. specialize (IH rest).
  destruct (utf8_scan fuel rest) as [n e]. simpl in *. lia.
Qed.

(** a slice of which nothing is complete is the start of one character *)
Definition cut_char (p : bytes) : Prop := p <> [] /\ from_utf8 p = (0, UIncomplete).

Lemma cut_char_shape p :
  cut_char p -> exists b l ranges, p = b :: l /\ utf8_tail b = Some ranges /\ match_tail ranges l = TShort.
Proof.
  intros [Hp H]. destruct p as [|b l]; [done|]. unfold from_utf8 in H. simpl in H.
  destruct (utf8_tail b) as [ranges|] eqn:Et; [|done].
  destruct (match_tail ranges l) as [rest| |] eqn:E; [|done|eauto 10].
  destruct (utf8_scan (length l) rest) as [n e]. done.
Qed.

Lemma cut_char_len p : cut_char p -> length p <= 3.
Proof.
  intros (b & l & ranges & -> & Ht%utf8_tail_len & Hs%match_tail_short)%cut_char_shape. simpl. lia.
Qed.

Lemma complete_prefix_zero part : part <> [] -> complete_prefix part = 0 -> cut_char part.
Proof.
  intros Hp H. split; [done|]. unfold complete_prefix in H.
  destruct (from_utf8 part) as [n e]. destruct e; [destruct part; done..|]. by subst.
Qed.

Lemma complete_prefix_le part : complete_prefix part <= length part.
Proof.
  unfold complete_prefix, from_utf8. pose proof (utf8_scan_le (length part) part) as H.
  destruct (utf8_scan (length part) part) as [n []]; simpl in H; lia.
Qed.

(** more bytes after a cut character complete it or show it invalid *)
Lemma complete_after_cut p k :
  cut_char p -> complete_prefix (p ++ k) = 0 \/ length p <= complete_prefix (p ++ k).
Proof.
  intros (b & l & ranges & -> & Ht & Hs)%cut_char_shape. apply match_tail_short in Hs.
  unfold complete_prefix, from_utf8. simpl. rewrite Ht.
  destruct (match_tail ranges (l ++ k)) as [rest| |] eqn:E.
  - destruct (utf8_scan (length (l ++ k)) rest) as [n []]; simpl; rewrite ?length_app; lia.
  - right. simpl. rewrite length_app. lia.
  - by left.
Qed.

(** ** Theory: the buffer *)

Definition stream (stderr : bool) (chunks : list Chunk) : bytes :=
  concat (c_data <$> filter (fun c => c_stderr c = stderr) chunks).

(** everything kept of a stream *)
Definition content (stderr : bool) (b : OutputBuffer) : bytes :=
  stream stderr (ob_chunks b) ++ ob_pending stderr b.

Lemma stream_app st l l' : stream st (l ++ l') = stream st l ++ stream st l'.
Proof. unfold stream. by rewrite list.filter_app, fmap_app, concat_app. Qed.

Lemma stream_one st st' data : stream st [mkChunk st' data] = if bool_decide (st' = st) then data else [].
Proof. unfold stream. rewrite filter_cons. case_decide; case_bool_decide; simpl in *; try done. by rewrite app_nil_r. Qed.

Definition chunk_ok (c : Chunk) : Prop := c_data c <> [] /\ length (c_data c) <= CHUNK_BYTES.
Definition pending_ok (p : bytes) : Prop := p = [] \/ cut_char p.

Record output_ok (b : OutputBuffer) : Prop := mkOutputOk {
  oo_chunks : Forall chunk_ok (ob_chunks b);
  oo_count : length (ob_chunks b) <= CHUNK_LIMIT;
  oo_stdout : pending_ok (ob_stdout b);
  oo_stderr : pending_ok (ob_stderr b)
}.

Lemma push_loop_spec fuel st chunks data chunks' pending n :
  length data <= fuel -> length chunks <= CHUNK_LIMIT ->
  push_loop fuel st chunks data = (chunks', pending, n) ->
  exists new, chunks' = chunks ++ new /\ Forall chunk_ok new /\ Forall (fun c => c_stderr c = st) new /\
    length chunks' <= CHUNK_LIMIT /\ pending_ok pending /\
    concat (c_data <$> new) ++ pending = take n data /\ n <= length data /\
    (n < length data -> length chunks' = CHUNK_LIMIT).
Proof.
  revert chunks data chunks' pending n.
  induction fuel as [|fuel IH]; intros chunks [|x data] chunks' pending n Hf Hc; cbn [push_loop].
  1, 3: intros [= <- <- <-]; exists []; rewrite app_nil_r; split_and!; simpl; try done; [by left|lia].
  { simpl in Hf. lia. }
  destruct (Nat.leb_spec CHUNK_LIMIT (length chunks)).
  { intros [= <- <- <-]. exists []. rewrite app_nil_r. split_and!; simpl; try done; [by left|lia|lia]. }
  set (part := take CHUNK_BYTES (x :: data)).
  assert (Hp : part <> []).
  { intros E%(f_equal length). unfold part in E. rewrite length_take in E. pose proof CHUNK_BYTES_pos. simpl in E. lia. }
  assert (Hpl : length part <= CHUNK_BYTES) by (unfold part; rewrite length_take; lia).
  pose proof (complete_prefix_le part) as Hle.
  destruct (complete_prefix part) as [|m] eqn:Ec.
  - apply complete_prefix_zero in Ec; [|done]. pose proof (cut_char_len _ Ec) as Hl3.
    assert (Hd : part = x :: data).
    { unfold part in *. rewrite length_take in Hl3. apply take_ge. pose proof CHUNK_BYTES_pos. lia. }
    rewrite Hd, drop_ge by lia. destruct fuel; cbn [push_loop]; intros [= <- <- <-];
      exists []; rewrite !app_nil_r, Nat.add_0_r; split_and!; simpl; auto; try lia.
    all: try (right; by rewrite <-Hd). all: by rewrite take_ge.
  - set (k := S m) in *. assert (Hk : k <= length (x :: data)) by (unfold part in Hle; rewrite length_take in Hle; lia).
    destruct (push_loop fuel st (chunks ++ [mkChunk st (take k part)]) (drop k (x :: data)))
      as [[c2 p2] n2] eqn:E. intros [= <- <- <-].
    assert (Htake : take k part = take k (x :: data)).
    { unfold part. rewrite take_take. f_equal. unfold part in Hle. rewrite length_take in Hle. lia. }
    assert (Hlk : length (take k part) = k) by (rewrite length_take; lia).
    apply IH in E as (new & -> & Hok & Hst & Hcnt & Hpend & Hcat & Hn & Hlim);
      [|rewrite length_drop; simpl in Hf |- *; lia|rewrite length_app; simpl; lia].
    exists (mkChunk st (take k part) :: new).
    rewrite length_drop in Hn, Hlim. split_and!; auto.
    + by rewrite <-app_assoc.
    + constructor; [|done]. split; simpl; [|lia]. intros E0. rewrite E0 in Hlk. done.
    + rewrite fmap_cons. cbn [concat c_data]. rewrite <-app_assoc, Hcat, Htake. apply take_take_drop.
    + lia.
    + intros Hlt. apply Hlim. lia.
Qed.

(** the bytes pending from before are always taken *)
Lemma push_loop_first fuel st chunks p k chunks' pending n :
  pending_ok p -> length chunks < CHUNK_LIMIT -> length (p ++ k) <= fuel ->
  push_loop fuel st chunks (p ++ k) = (chunks', pending, n) -> length p <= n.
Proof.
  intros [->|Hp] Hc Hf; [simpl; lia|]. pose proof (cut_char_len _ Hp) as Hl.
  destruct fuel as [|fuel]; [destruct p; [by destruct Hp|simpl in Hf; lia]|].
  destruct (p ++ k) as [|x data] eqn:Ed; [destruct p; [by destruct Hp|done]|].
  cbn [push_loop]. destruct (Nat.leb_spec CHUNK_LIMIT (length chunks)); [lia|].
  assert (Hpart : take CHUNK_BYTES (x :: data) = p ++ take (CHUNK_BYTES - length p) k).
  { rewrite <-Ed. rewrite take_app. f_equal. apply take_ge. pose proof CHUNK_BYTES_pos. lia. }
  rewrite Hpart. destruct (complete_after_cut p (take (CHUNK_BYTES - length p) k) Hp) as [->|Hle].
  - destruct (push_loop _ _ _ _) as [[? ?] ?]. intros [= _ _ <-]. rewrite length_app. lia.
  - destruct (complete_prefix _) as [|m]; [lia|].
    destruct (push_loop _ _ _ _) as [[? ?] ?]. intros [= _ _ <-]. lia.
Qed.

Lemma stream_same st new : Forall (fun c => c_stderr c = st) new -> stream st new = concat (c_data <$> new).
Proof. intros H. unfold stream. by rewrite filter_all. Qed.
Lemma stream_other st new : Forall (fun c => c_stderr c = st) new -> stream (negb st) new = [].
Proof.
  intros H. unfold stream. rewrite filter_none; [done|]. eapply Forall_impl; [|exact H].
  simpl. intros c -> E. by destruct st.
Qed.

Lemma pending_ok_of st b : output_ok b -> pending_ok (ob_pending st b).
Proof. intros Hb. destruct st; apply Hb. Qed.

(** Storing a packet loses nothing it counts: the stream grows by exactly the bytes
    reported as kept, the other stream and every chunk already published stay as they
    are (so a cursor keeps its meaning), characters are never cut between chunks, at
    most three bytes wait for the rest of a character, and a packet is cut short only
    when the buffer is full. *)
Theorem push_lossless b st packet :
  output_ok b ->
  let '(n, b') := push b st packet in
  output_ok b' /\ n <= length packet /\
  content st b' = content st b ++ take n packet /\ content (negb st) b' = content (negb st) b /\
  ob_chunks b `prefix_of` ob_chunks b' /\ length (ob_pending st b') <= 3 /\
  (n < length packet -> length (ob_chunks b') = CHUNK_LIMIT).
Proof.
  intros Hb. unfold push.
  assert (Hpl : forall p, pending_ok p -> length p <= 3).
  { intros p [->|Hp]; [simpl; lia|by apply cut_char_len]. }
  destruct (Nat.leb_spec CHUNK_LIMIT (length (ob_chunks b))) as [Hfull|Hroom]; simpl.
  { rewrite take_0, app_nil_r. split_and!; auto; try lia.
    - by apply Hpl, pending_ok_of.
    - intros _. pose proof (oo_count _ Hb). lia. }
  destruct (Nat.eqb_spec (length packet) 0) as [H0|Hne]; simpl.
  { rewrite take_0, app_nil_r. split_and!; auto; try lia. by apply Hpl, pending_ok_of. }
  destruct (push_loop _ _ _ _) as [[chunks p] n] eqn:E.
  pose proof (push_loop_first _ _ _ _ _ _ _ _ (pending_ok_of st b Hb) Hroom (le_n _) E) as Hprior.
  apply push_loop_spec in E as (new & -> & Hok & Hst & Hcnt & Hp & Hcat & Hn & Hlim); [|done|lia].
  set (b' := set_pending st p _).
  assert (Hchunks : ob_chunks b' = ob_chunks b ++ new) by (unfold b'; by destruct st).
  assert (Hsame : ob_pending st b' = p) by (unfold b'; by destruct st).
  assert (Hother : ob_pending (negb st) b' = ob_pending (negb st) b) by (unfold b'; by destruct st).
  rewrite length_app in Hn, Hlim. split_and!.
  - assert (Hall : pending_ok (ob_stdout b') /\ pending_ok (ob_stderr b')).
    { pose proof (oo_stdout _ Hb). pose proof (oo_stderr _ Hb). unfold b'; by destruct st. }
    split; [| |apply Hall|apply Hall]; rewrite Hchunks; [|done].
    apply Forall_app. split; [apply Hb|done].
  - lia.
  - unfold content. rewrite Hchunks, Hsame, stream_app, (stream_same _ _ Hst), <-!app_assoc, Hcat.
    f_equal. rewrite take_app, (take_ge (ob_pending st b)) by lia. done.
  - unfold content. by rewrite Hchunks, Hother, stream_app, (stream_other _ _ Hst), app_nil_r.
  - rewrite Hchunks. by eexists.
  - rewrite Hsame. by apply Hpl.
  - intros Hlt. rewrite Hchunks. apply Hlim. lia.
Qed.

(** no more is counted than was given *)
Lemma push_saved_le b st packet : (push b st packet).1 <= length packet.
Proof.
  unfold push. destruct (Nat.leb_spec CHUNK_LIMIT (length (ob_chunks b))) as [|Hroom]; simpl; [lia|].
  destruct (length packet =? 0); simpl; [lia|]. destruct (push_loop _ _ _ _) as [[chunks p] n] eqn:E.
  apply push_loop_spec in E as (new & _ & _ & _ & _ & _ & _ & Hn & _); [|done|lia].
  rewrite length_app in Hn. simpl. lia.
Qed.

Lemma flush_stream_spec st b :
  let b' := flush_stream st b in
  content st b' = content st b /\ content (negb st) b' = content (negb st) b /\
  ob_pending st b' = [] /\ ob_pending (negb st) b' = ob_pending (negb st) b /\
  ob_chunks b `prefix_of` ob_chunks b' /\ length (ob_chunks b') <= S (length (ob_chunks b)).
Proof.
  unfold flush_stream. destruct (ob_pending st b) as [|x p] eqn:Ep; cbn zeta.
  { split_and!; auto. }
  set (b' := set_pending _ _ _).
  assert (Hc : ob_chunks b' = ob_chunks b ++ [mkChunk st (x :: p)]) by (unfold b'; by destruct st).
  assert (Hs : ob_pending st b' = []) by (unfold b'; by destruct st).
  assert (Ho : ob_pending (negb st) b' = ob_pending (negb st) b) by (unfold b'; by destruct st).
  unfold content. rewrite Hc, Hs, Ho, !stream_app, !stream_one, length_app, Ep. split_and!; auto.
  - rewrite bool_decide_eq_true_2 by done. by rewrite app_nil_r.
  - rewrite bool_decide_eq_false_2 by (by destruct st). by rewrite app_nil_r.
  - by eexists.
  - simpl. lia.
Qed.

(** closing the buffer keeps both streams whole *)
Lemma flush_spec b :
  (forall st, content st (flush b) = content st b /\ ob_pending st (flush b) = []) /\
  ob_chunks b `prefix_of` ob_chunks (flush b) /\ length (ob_chunks (flush b)) <= 2 + length (ob_chunks b).
Proof.
  unfold flush.
  destruct (flush_stream_spec false b) as (A1 & A2 & A3 & A4 & A5 & A6).
  destruct (flush_stream_spec true (flush_stream false b)) as (B1 & B2 & B3 & B4 & B5 & B6).
  simpl negb in *. split_and!; [|by etrans|lia].
  intros []; split; [by rewrite B1|done|by rewrite B2|by rewrite B4].
Qed.

(** ** Theory: reading pages *)

Lemma page_chunks_prefix used l : page_chunks used l `prefix_of` l.
Proof.
  revert used. induction l as [|c l IH]; intros used; simpl; [done|].
  destruct (PAGE_BYTES <? _); [apply prefix_nil|]. by apply prefix_cons.
Qed.

Lemma page_chunks_bytes used l :
  used <= PAGE_BYTES -> used + length (concat (c_data <$> page_chunks used l)) <= PAGE_BYTES.
Proof.
  revert used. induction l as [|c l IH]; intros used Hu; cbn [page_chunks]; [simpl; lia|].
  destruct (Nat.ltb_spec PAGE_BYTES (used + length (c_data c))); [simpl; lia|].
  rewrite fmap_cons. cbn [concat]. rewrite length_app. specialize (IH (used + length (c_data c)) ltac:(lia)). lia.
Qed.

(** a reader that follows the cursor until there is no more *)
Fixpoint read_output (fuel : nat) (b : OutputBuffer) (cursor : nat) : option (list Chunk) :=
  match fuel with
  | O => None
  | S fuel =>
      '(chunks, next) ← page b cursor;
      if has_more b next then rest ← read_output fuel b next; Some (chunks ++ rest) else Some chunks
  end.

Lemma page_progress b cursor :
  Forall (fun c => length (c_data c) <= PAGE_BYTES) (ob_chunks b) -> cursor < length (ob_chunks b) ->
  exists c l, page b cursor = Some (c :: l, cursor + S (length l)) /\
    c :: l `prefix_of` drop cursor (ob_chunks b).
Proof.
  intros Hok Hlt. unfold page. destruct (Nat.ltb_spec (length (ob_chunks b)) cursor); [lia|].
  pose proof (page_chunks_prefix 0 (drop cursor (ob_chunks b))) as Hp.
  destruct (drop cursor (ob_chunks b)) as [|c l] eqn:E.
  { apply (f_equal length) in E. rewrite length_drop in E. simpl in E. lia. }
  assert (Hc : length (c_data c) <= PAGE_BYTES).
  { rewrite list.Forall_forall in Hok. apply Hok.
    assert (Hin : c ∈ drop cursor (ob_chunks b)) by (rewrite E; by left).
    rewrite <-(take_drop cursor (ob_chunks b)). apply elem_of_app. by right. }
  simpl in *. destruct (Nat.ltb_spec PAGE_BYTES (length (c_data c))); [lia|].
  eexists _, _. split; [reflexivity|done].
Qed.

(** A reader that follows the cursors gets every chunk after its cursor, once and in
    order, each page within 64 KiB, in at most as many requests as there are chunks; a
    cursor beyond the output is refused. *)
Theorem pages_cover_output b cursor fuel :
  Forall chunk_ok (ob_chunks b) -> length (ob_chunks b) - cursor < fuel ->
  read_output fuel b cursor
  = (if length (ob_chunks b) <? cursor then None else Some (drop cursor (ob_chunks b))) /\
  forall chunks next, page b cursor = Some (chunks, next) ->
    length (concat (c_data <$> chunks)) <= PAGE_BYTES.
Proof.
  intros Hok Hfuel. split.
  - assert (Hsz : Forall (fun c => length (c_data c) <= PAGE_BYTES) (ob_chunks b)).
    { eapply Forall_impl; [|exact Hok]. intros c [_ H]. pose proof chunk_fits_page. lia. }
    revert cursor Hfuel. induction fuel as [|fuel IH]; intros cursor Hfuel; [lia|]. cbn [read_output].
    destruct (decide (cursor < length (ob_chunks b))) as [Hlt|Hge].
    + destruct (page_progress b cursor Hsz Hlt) as (c & l & -> & [k Hk]). simpl.
      destruct (Nat.ltb_spec (length (ob_chunks b)) cursor); [lia|].
      assert (Hlen : cursor + S (length l) <= length (ob_chunks b)).
      { apply (f_equal length) in Hk. rewrite length_drop in Hk. rewrite length_app in Hk. simpl in Hk. lia. }
      assert (Hdrop : drop (cursor + S (length l)) (ob_chunks b) = k).
      { rewrite <-drop_drop, Hk. change (S (length l)) with (length (c :: l)). apply drop_app_length. }
      unfold has_more. destruct (Nat.ltb_spec (cursor + S (length l)) (length (ob_chunks b))).
      * rewrite IH by lia. destruct (Nat.ltb_spec (length (ob_chunks b)) (cursor + S (length l))); [lia|].
        simpl. by rewrite Hdrop, Hk.
      * rewrite drop_ge in Hdrop by lia. subst k. by rewrite Hk, app_nil_r.
    + unfold page. destruct (Nat.ltb_spec (length (ob_chunks b)) cursor); [done|]. simpl.
      rewrite drop_ge by lia. simpl. unfold has_more.
      destruct (Nat.ltb_spec (cursor + 0) (length (ob_chunks b))); [lia|done].
  - intros chunks next. unfold page. destruct (_ <? _); [done|]. intros [= <- _].
    apply (page_chunks_bytes 0). lia.
Qed.

(** ** Theory: cursors on the wire *)

Lemma dec_digit_value n : in_byte_range 48 57 (dec_digit n) = true /\ (Byte.to_N (dec_digit n) - 48 = n mod 10)%N.
Proof.
  unfold dec_digit. assert (Hm : (n mod 10 < 10)%N) by (apply N.mod_lt; done).
  destruct (n mod 10)%N as [|p]; [done|]. do 4 (destruct p; try done; try lia).
Qed.

Lemma parse_digits_app acc l k :
  parse_digits acc (l ++ k) = (acc ← parse_digits acc l; parse_digits acc k).
Proof.
  revert acc. induction l as [|b l IH]; intros acc; simpl; [done|].
  destruct (in_byte_range 48 57 b); [|done]. destruct (_ <=? _)%N; [apply IH|done].
Qed.

Lemma parse_print_digits fuel n :
  (n < 10 ^ N.of_nat fuel)%N -> (n <= u64_max)%N -> fuel <> 0 ->
  parse_digits 0 (print_digits fuel n) = Some n.
Proof.
  revert n. induction fuel as [|fuel IH]; intros n Hn Hmax Hf; [done|]. cbn [print_digits].
  destruct (dec_digit_value n) as [Hr Hv].
  assert (Hlast : forall acc, (acc * 10 + n mod 10 <= u64_max)%N ->
            parse_digits acc [dec_digit n] = Some (acc * 10 + n mod 10)%N).
  { intros acc Ha. simpl. rewrite Hr, Hv. by rewrite (proj2 (N.leb_le _ _) Ha). }
  destruct (N.ltb_spec n 10) as [Hlt|Hge].
  - rewrite Hlast; rewrite N.mod_small by done; [f_equal; lia|lia].
  - pose proof (N.div_mod n 10 ltac:(done)) as Hdm.
    rewrite parse_digits_app, IH.
    + simpl. rewrite Hr, Hv. replace (n / 10 * 10 + n mod 10)%N with n by lia.
      by rewrite (proj2 (N.leb_le _ _) Hmax).
    + apply N.Div0.div_lt_upper_bound. rewrite Nat2N.inj_succ, N.pow_succ_r' in Hn. done.
    + assert (n / 10 <= n)%N by (apply N.Div0.div_le_upper_bound; lia). lia.
    + intros ->. simpl in Hn. lia.
Qed.

(** a printed cursor reads back *)
Lemma parse_print_usize n : (n <= u64_max)%N -> parse_usize (print_usize n) = Some n.
Proof.
  intros Hn. assert (H : parse_digits 0 (print_usize n) = Some n).
  { apply parse_print_digits; [|done|done]. unfold u64_max in Hn. simpl N.of_nat. lia. }
  assert (Hd : exists b l, print_usize n = b :: l /\ b <> x2b).
  { assert (Hg : forall fuel m, fuel <> 0 -> exists b l, print_digits fuel m = b :: l /\ b <> x2b).
    { induction fuel as [|fuel IH]; intros m Hf; [done|]. cbn [print_digits].
      assert (Hx : dec_digit m <> x2b).
      { intros E. pose proof (proj1 (dec_digit_value m)) as Hr. by rewrite E in Hr. }
      destruct (m <? 10)%N; [eauto|]. destruct fuel; [simpl; eauto|].
      destruct (IH (m / 10)%N) as (b & l & -> & Hb); [done|]. simpl. eauto. }
    by apply Hg. }
  destruct Hd as (b & l & E & Hb). rewrite E in *. unfold parse_usize.
  destruct b; try done; by destruct l.
Qed.

(** ** Evaluations *)

(** a euro sign cut between two packets *)
Example split_character :
  let '(n1, b1) := push empty_output false (lit "a" ++ [xe2; x82]) in
  let '(n2, b2) := push b1 false [xac; x21] in
  (n1, n2) = (3, 2) /\ c_data <$> ob_chunks b2 = [lit "a"; [xe2; x82; xac; x21]].
Proof. vm_compute. done. Qed.

Lemma empty_output_ok : output_ok empty_output.
Proof. split; simpl; [apply List.Forall_nil|lia|by left|by left]. Qed.

Lemma push_lossless_witness :
  content false (push empty_output false (lit "a" ++ [xe2; x82])).2 = lit "a" ++ [xe2; x82].
Proof.
  pose proof (push_lossless empty_output false (lit "a" ++ [xe2; x82]) empty_output_ok) as H.
  exact (proj1 (proj2 (proj2 H))).
Defined.

Definition two_chunks : OutputBuffer := mkOutput [mkChunk false (lit "x"); mkChunk true (lit "yz")] [] [].

Lemma pages_cover_output_witness :
  read_output 3 two_chunks 0 = Some [mkChunk false (lit "x"); mkChunk true (lit "yz")].
Proof.
  refine (proj1 (pages_cover_output two_chunks 0 3 _ _)).
  - pose proof CHUNK_BYTES_pos. repeat constructor; simpl; try done; lia.
  - simpl. lia.
Defined.
