(* ===== verification/AutoText.v ===== *)
(** * Text of automated commands
      (automation/src/working_directory.rs, [visible] of automation/src/approval.rs, the
      checks of mcp/src/contract.rs)

    What is handed to the remote shell, what the user is shown before, and which
    requests are let through. Shell text is bytes; [visible] works on characters, here
    their code points. Environments are [BTreeMap]s: finite maps listed in key order. *)

From Stdlib Require Import Strings.Byte NArith ZArith Lia.
From stdpp Require Import base gmap sets list strings sorting countable.
From S2P Require Import Prelude Bytes AutoOutput.

Local Open Scope N_scope.

(** the entries of a [BTreeMap] in order *)
Definition entries {A} (m : gmap bytes A) : list (bytes * A) := sort_on fst (map_to_list m).

Lemma elem_of_entries {A} (m : gmap bytes A) k v : (k, v) ∈ entries m <-> m !! k = Some v.
Proof. unfold entries. by rewrite elem_of_sort_on, elem_of_map_to_list. Qed.

(** ** working_directory.rs *)

(** [replace]: a quote becomes quote, backslash, quote, quote *)
Fixpoint sh_escape (v : bytes) : bytes :=
  match v with
  | [] => []
  | x27 :: v => x27 :: x5c :: x27 :: x27 :: sh_escape v
  | c :: v => c :: sh_escape v
  end.

Definition or_exit : bytes := lit "' || exit" ++ [x0a].

Definition sh_command (command : bytes) (cwd : option bytes) : bytes :=
  match cwd with
  | None => command
  | Some cwd => lit "cd '" ++ sh_escape cwd ++ or_exit ++ command
  end.

Definition sh_export (kv : bytes * bytes) : bytes :=
  lit "export " ++ kv.1 ++ lit "='" ++ sh_escape kv.2 ++ or_exit.

Definition with_env (command_text : bytes) (cwd : option bytes) (env : gmap bytes bytes) : bytes :=
  concat (sh_export <$> entries env) ++ sh_command command_text cwd.

(** ** contract.rs: the checks of [parse] *)

Definition ascii_alphabetic (b : byte) : bool := in_byte_range 65 90 b || in_byte_range 97 122 b.
Definition ascii_alphanumeric (b : byte) : bool := ascii_alphabetic b || in_byte_range 48 57 b.

Definition contains_nul (l : bytes) : bool := existsb (fun b => bool_decide (b = x00)) l.

Definition valid_name (k : bytes) : bool :=
  match k with
  | [] => false
  | b :: k =>
      (ascii_alphabetic b || bool_decide (b = x5f)) &&
      forallb (fun b => ascii_alphanumeric b || bool_decide (b = x5f)) k
  end.

Definition valid_input (stdin : option bytes) (env : gmap bytes bytes) : bool :=
  (match stdin with Some s => len s <=? 32768 | None => true end) &&
  (len (entries env) <=? 64) &&
  (foldr N.add 0 ((fun kv => len kv.1 + len kv.2) <$> entries env) <=? 16384) &&
  forallb (fun kv => valid_name kv.1 && negb (contains_nul kv.2)) (entries env).

Definition valid_wait (wait : option N) : bool :=
  match wait with Some ms => ms <=? 30000 | None => true end.

Definition valid_command (command request_key : bytes) (timeout : option N) (cwd : option bytes) : bool :=
  negb (len command =? 0) && (len command <=? 32 * 1024) && negb (contains_nul command) &&
  (match cwd with
   | Some path =>
       (match path with x2f :: _ => true | _ => false end) && (len path <=? 32768) && negb (contains_nul path)
   | None => true
   end) &&
  negb (len request_key =? 0) && (len request_key <=? 128) &&
  (match timeout with Some ms => (1 <=? ms) && (ms <=? 86400000) | None => true end).

(** ** [visible] *)

Definition is_control (c : N) : bool := (c <=? 31) || ((127 <=? c) && (c <=? 159)).

Definition hidden (c : N) : bool :=
  is_control c || (c =? 173) || (c =? 1564) || ((8203 <=? c) && (c <=? 8207)) ||
  ((8234 <=? c) && (c <=? 8238)) || ((8288 <=? c) && (c <=? 8292)) ||
  ((8294 <=? c) && (c <=? 8297)) || (c =? 65279).

(** lower-case hexadecimal, four digits: every hidden character is below 65536 *)
Definition hex_char (n : N) : N := let d := n mod 16 in if d <? 10 then 48 + d else 87 + d.
Definition hex4 (n : N) : list N := [hex_char (n / 4096); hex_char (n / 256); hex_char (n / 16); hex_char n].

Definition visible_char (c : N) : list N :=
  if c =? 34 then [92; 34]
  else if c =? 92 then [92; 92]
  else if c =? 10 then [92; 110]
  else if c =? 13 then [92; 114]
  else if c =? 9 then [92; 116]
  else if c =? 8 then [92; 98]
  else if c =? 12 then [92; 102]
  else if hidden c then [92; 117] ++ hex4 c
  else [c].

Definition visible (text : list N) : list N := [34] ++ concat (visible_char <$> text) ++ [34].

(** ** Theory: the shell reads the literals back *)

(** A word of the POSIX shell: quoted text, escaped characters and plain characters up to
    white space or an operator. [quoted]: inside single quotes. *)
Definition sh_plain (c : byte) : bool :=
  ascii_alphanumeric c || bool_decide (c = x5f) || bool_decide (c = x3d) || bool_decide (c = x2f).

Fixpoint sh_word (quoted : bool) (l : bytes) : option (bytes * bytes) :=
  match l with
  | [] => if quoted then None else Some ([], [])
  | c :: l' =>
      if quoted then
        if bool_decide (c = x27) then sh_word false l'
        else '(w, rest) ← sh_word true l'; Some (c :: w, rest)
      else if bool_decide (c = x27) then sh_word true l'
      else if bool_decide (c = x5c) then
        match l' with
        | d :: l'' => '(w, rest) ← sh_word false l''; Some (d :: w, rest)
        | [] => None
        end
      else if sh_plain c then '(w, rest) ← sh_word false l'; Some (c :: w, rest)
      else Some ([], l)
  end.

(** quoting protects any text, whatever follows a space *)
Lemma sh_word_quoted v rest :
  sh_word true (sh_escape v ++ x27 :: x20 :: rest) = Some (v, x20 :: rest).
Proof.
  induction v as [|c v IH]; [done|].
  destruct (decide (c = x27)) as [->|Hc].
  - cbn. rewrite IH. done.
  - assert (E : sh_escape (c :: v) = c :: sh_escape v) by (destruct c; done).
    rewrite E. cbn [app sh_word]. rewrite bool_decide_eq_false_2 by done. by rewrite IH.
Qed.

Lemma sh_word_plain k l w rest :
  Forall (fun c => sh_plain c = true) k -> sh_word false l = Some (w, rest) ->
  sh_word false (k ++ l) = Some (k ++ w, rest).
Proof.
  intros Hk Hl. induction Hk as [|c k Hc _ IH]; [done|]. cbn [app sh_word].
  assert (c <> x27 /\ c <> x5c) as [H1 H2] by (split; intros ->; done).
  rewrite !bool_decide_eq_false_2, Hc, IH by done. done.
Qed.

Definition strip (p l : bytes) : option bytes :=
  if bool_decide (take (length p) l = p) then Some (drop (length p) l) else None.

Lemma strip_app p l : strip p (p ++ l) = Some l.
Proof. unfold strip. rewrite take_app_length, bool_decide_eq_true_2 by done. by rewrite drop_app_length. Qed.

(** a guarded line: a builtin with one word; the script goes on only if it succeeds *)
Definition sh_guarded (builtin : bytes) (l : bytes) : option (bytes * bytes) :=
  l ← strip builtin l;
  '(w, l) ← sh_word false l;
  l ← strip (lit " || exit" ++ [x0a]) l;
  Some (w, l).

Fixpoint sh_exports (n : nat) (l : bytes) : option (list bytes * bytes) :=
  match n with
  | O => Some ([], l)
  | S n =>
      '(w, l) ← sh_guarded (lit "export ") l;
      '(ws, l) ← sh_exports n l;
      Some (w :: ws, l)
  end.

Lemma sh_guarded_quoted builtin k v l :
  Forall (fun c => sh_plain c = true) k ->
  sh_guarded builtin (builtin ++ k ++ x27 :: sh_escape v ++ or_exit ++ l) = Some (k ++ v, l).
Proof.
  intros Hk. unfold sh_guarded. rewrite strip_app. cbn [mbind option_bind].
  rewrite (sh_word_plain k (x27 :: sh_escape v ++ or_exit ++ l) v (x20 :: lit "|| exit" ++ [x0a] ++ l));
    [|done|].
  - cbn [mbind option_bind]. change (x20 :: lit "|| exit" ++ [x0a] ++ l) with ((lit " || exit" ++ [x0a]) ++ l).
    by rewrite strip_app.
  - change (sh_word true (sh_escape v ++ x27 :: x20 :: lit "|| exit" ++ [x0a] ++ l)
            = Some (v, x20 :: lit "|| exit" ++ [x0a] ++ l)). apply sh_word_quoted.
Qed.

Lemma valid_name_plain k : valid_name k = true -> Forall (fun c => sh_plain c = true) k.
Proof.
  unfold valid_name. destruct k as [|b k]; [done|]. intros [Hb Hk]%andb_prop. unfold sh_plain.
  constructor.
  - apply orb_prop in Hb as [Hb|Hb].
    + unfold ascii_alphanumeric. by rewrite Hb.
    + rewrite Hb. by rewrite orb_true_r.
  - apply list.Forall_forall. intros c Hc. rewrite forallb_forall in Hk.
    apply list_elem_of_In in Hc. apply Hk, orb_prop in Hc as [-> | ->]; [done|by rewrite orb_true_r].
Qed.

(** C34. Whatever the directory and the values contain, quotes, newlines and shell syntax
    included, a POSIX shell reads them as literals: the script consists of one export per
    variable with exactly its value, a change to exactly the given directory, each
    stopping the script when it fails, and then the command unchanged. *)
Theorem with_env_literal command cwd env :
  Forall (fun kv => valid_name kv.1 = true) (entries env) ->
  exists script,
    sh_exports (length (entries env)) (with_env command cwd env)
      = Some ((fun kv => kv.1 ++ lit "=" ++ kv.2) <$> entries env, script) /\
    match cwd with
    | None => script = command
    | Some dir => sh_guarded (lit "cd ") script = Some (dir, command)
    end.
Proof.
  intros Hn. exists (sh_command command cwd). split.
  - unfold with_env. generalize (sh_command command cwd). intros l.
    induction Hn as [|[k v] kvs Hk _ IH]; [done|].
    rewrite !fmap_cons. cbn [length sh_exports concat]. rewrite <-app_assoc.
    unfold sh_export at 1. cbn [fst snd] in *. rewrite <-!app_assoc.
    change (lit "export " ++ k ++ lit "='" ++ sh_escape v ++ or_exit ++ concat (sh_export <$> kvs) ++ l)
      with (lit "export " ++ k ++ [x3d] ++ x27 :: sh_escape v ++ or_exit ++ (concat (sh_export <$> kvs) ++ l)).
    rewrite (app_assoc k [x3d]). rewrite sh_guarded_quoted.
    + cbn [mbind option_bind]. rewrite IH. cbn [mbind option_bind]. by rewrite <-app_assoc.
    + apply Forall_app. split; [by apply valid_name_plain|]. by repeat constructor.
  - destruct cwd as [dir|]; [|done].
    exact (sh_guarded_quoted (lit "cd ") [] dir command (List.Forall_nil _)).
Qed.

(** ** Theory: what is shown determines the command *)

Definition hex_value (c : N) : N := if c <? 58 then c - 48 else c - 87.

(** reads a JSON string up to its closing quote *)
Fixpoint read_string (l : list N) : option (list N) :=
  match l with
  | [] => None
  | c :: l =>
      if c =? 34 then match l with [] => Some [] | _ => None end
      else if c =? 92 then
        match l with
        | [] => None
        | e :: l =>
            if e =? 117 then
              match l with
              | a :: b :: c :: d :: l =>
                  t ← read_string l;
                  Some (hex_value a * 4096 + hex_value b * 256 + hex_value c * 16 + hex_value d :: t)
              | _ => None
              end
            else
              x ← (if e =? 110 then Some 10 else if e =? 114 then Some 13 else if e =? 116 then Some 9
                   else if e =? 98 then Some 8 else if e =? 102 then Some 12
                   else if (e =? 34) || (e =? 92) then Some e else None);
              t ← read_string l;
              Some (x :: t)
        end
      else t ← read_string l; Some (c :: t)
  end.

Lemma hex_value_char n : hex_value (hex_char n) = n mod 16.
Proof.
  unfold hex_value, hex_char. assert (n mod 16 < 16) by (apply N.mod_lt; done). cbv zeta.
  generalize dependent (n mod 16). intros d Hd. destruct (N.ltb_spec d 10).
  - destruct (N.ltb_spec (48 + d) 58); lia.
  - destruct (N.ltb_spec (87 + d) 58); lia.
Qed.

Lemma hex4_value n :
  n < 65536 ->
  (n / 4096) mod 16 * 4096 + (n / 256) mod 16 * 256 + (n / 16) mod 16 * 16 + n mod 16 = n.
Proof.
  intros Hn.
  replace (n / 256) with (n / 16 / 16) by (by rewrite N.Div0.div_div).
  replace (n / 4096) with (n / 16 / 16 / 16) by (by rewrite !N.Div0.div_div).
  pose proof (N.div_mod n 16 ltac:(done)) as H1.
  pose proof (N.div_mod (n / 16) 16 ltac:(done)) as H2.
  pose proof (N.div_mod (n / 16 / 16) 16 ltac:(done)) as H3.
  rewrite (N.mod_small (n / 16 / 16 / 16)); [lia|].
  rewrite !N.Div0.div_div. apply N.Div0.div_lt_upper_bound. lia.
Qed.

Lemma hidden_spec c :
  hidden c = true -> c <= 31 \/ 127 <= c <= 159 \/ 173 <= c <= 65279.
Proof.
  unfold hidden, is_control. rewrite !orb_true_iff, !andb_true_iff, !N.leb_le, !N.eqb_eq. lia.
Qed.

Lemma hidden_small c : hidden c = true -> c < 65536.
Proof. intros H%hidden_spec. lia. Qed.

Lemma read_visible_char c l t :
  read_string l = Some t -> read_string (visible_char c ++ l) = Some (c :: t).
Proof.
  intros H. unfold visible_char.
  destruct (N.eqb_spec c 34) as [->|H34]; [cbn; by rewrite H|].
  destruct (N.eqb_spec c 92) as [->|H92]; [cbn; by rewrite H|].
  do 5 (match goal with |- context [if ?c =? ?k then _ else _] =>
          destruct (N.eqb_spec c k) as [->|]; [cbn; by rewrite H|] end).
  destruct (hidden c) eqn:Eh.
  - cbn [app hex4 read_string]. cbn. rewrite H. cbn. rewrite !hex_value_char.
    by rewrite hex4_value by by apply hidden_small.
  - cbn [app read_string]. rewrite (proj2 (N.eqb_neq c 34) H34), (proj2 (N.eqb_neq c 92) H92). by rewrite H.
Qed.

Lemma hex_char_shown n : hidden (hex_char n) = false.
Proof.
  unfold hex_char. assert (n mod 16 < 16) by (apply N.mod_lt; done). cbv zeta.
  generalize dependent (n mod 16). intros d Hd.
  destruct (hidden _) eqn:E; [|done]. apply hidden_spec in E. destruct (N.ltb_spec d 10); lia.
Qed.

Lemma visible_char_shown c : Forall (fun c => hidden c = false) (visible_char c).
Proof.
  unfold visible_char.
  do 7 (match goal with |- context [if ?c =? ?k then _ else _] =>
          destruct (N.eqb_spec c k) as [->|]; [by repeat constructor|] end).
  destruct (hidden c) eqn:Eh; [|by repeat constructor].
  constructor; [done|]. constructor; [done|]. repeat (constructor; [apply hex_char_shown|]). constructor.
Qed.

(** What the approval dialog shows of a command contains no control, bidi or listed
    invisible character, and reading it back as a JSON string gives the command exactly:
    two different commands never look the same in characters. *)
Theorem visible_faithful text :
  Forall (fun c => hidden c = false) (visible text) /\
  match visible text with q :: l => read_string l = Some text | [] => False end.
Proof.
  unfold visible. split.
  - cbn [app]. constructor; [done|]. apply Forall_app. split; [|by repeat constructor].
    induction text as [|c text IH]; [constructor|]. rewrite fmap_cons. cbn [concat].
    apply Forall_app. split; [apply visible_char_shown|done].
  - cbn [app]. induction text as [|c text IH]; [done|]. rewrite fmap_cons. cbn [concat].
    rewrite <-app_assoc. by apply read_visible_char.
Qed.

(** Tag characters (U+E0020 to U+E007F), which are invisible too, are shown as they are. *)
Example visible_keeps_tag_characters : visible [917569] = [34; 917569; 34].
Proof. reflexivity. Qed.

(** ** Evaluations *)

Definition sample_env : gmap bytes bytes := {[ lit "A" := lit "x'y; $(z)" ]}.

Lemma with_env_literal_witness : exists script,
  sh_exports 1 (with_env (lit "ls") (Some (lit "/a'b")) sample_env)
    = Some ([lit "A=x'y; $(z)"], script) /\
  sh_guarded (lit "cd ") script = Some (lit "/a'b", lit "ls").
Proof.
  refine (with_env_literal (lit "ls") (Some (lit "/a'b")) sample_env _).
  vm_compute. by repeat constructor.
Defined.
