(* ===== verification/BrokerState.v ===== *)
(** * State of the automation broker
      (the types of automation/src/lib.rs and automation/src/access.rs, the limits and
      the eviction of automation/src/limits.rs)

    Grants, sessions and runs are kept in [BTreeMap]s keyed by random identifiers. A
    cancellation flag is shared between the record of a session or run and the thread
    that works for it: flags live in a table of their own and records hold a number.
    Instants are milliseconds of one clock. The payload of a target, which only the
    executor understands, is left out. The free connection slots a step finds are an
    argument of it; [Limiter] is the counter behind them. *)

From Stdlib Require Import Strings.Byte NArith ZArith Lia.
From stdpp Require Import base gmap sets list strings sorting countable.
From S2P Require Import Prelude Bytes Storage AutoOutput AutoText.

Local Open Scope N_scope.

(** ** contract.rs: errors *)

Inductive ToolError :=
| TimeoutLimit | RequestConflict | Locked | GrantRequired | GrantExpired | TargetUnavailable
| HostUntrusted | HostChanged | SessionNotReady | ToolSessionClosed | ConnectionLost | Busy
| ApprovalDenied | ApprovalExpired | ApprovalUnavailable | OutputExpired | OutcomeUnknown.

#[global] Instance ToolError_eq_dec : EqDecision ToolError.
Proof. solve_decision. Defined.

(** ** limits.rs: ceilings *)

Record GrantLimits := mkGrantLimits {
  max_connections : N;
  max_active_commands : N;
  retained_commands : N;
  retained_sessions : N;
  output_per_run_bytes : N
}.

Definition MiB : N := 1024 * 1024.
Definition in_range_incl (lo hi x : N) : bool := (lo <=? x) && (x <=? hi).

Definition default_grant_limits : GrantLimits := mkGrantLimits 4 8 128 32 MiB.

Definition grant_limits_valid (l : GrantLimits) : bool :=
  in_range_incl 1 64 (max_connections l) && in_range_incl 1 256 (max_active_commands l) &&
  in_range_incl (max_active_commands l) 10000 (retained_commands l) &&
  in_range_incl (max_connections l) 1000 (retained_sessions l) &&
  in_range_incl MiB (64 * MiB) (output_per_run_bytes l) && (output_per_run_bytes l mod MiB =? 0).

Record BrokerLimits := mkBrokerLimits {
  all_connections : N;
  all_retained_commands : N;
  output_total_bytes : N
}.

Definition default_broker_limits : BrokerLimits := mkBrokerLimits 8 256 (8 * MiB).

Definition broker_limits_valid (l : BrokerLimits) : bool :=
  in_range_incl 1 256 (all_connections l) && in_range_incl 16 100000 (all_retained_commands l) &&
  in_range_incl MiB (1024 * MiB) (output_total_bytes l) && (output_total_bytes l mod MiB =? 0).

(** ** limits.rs: the limiter *)

Record Limiter := mkLimiter { lm_capacity : N; lm_used : N }.

Definition new_limiter (capacity : N) : Limiter := mkLimiter capacity 0.
Definition set_capacity (capacity : N) (l : Limiter) : Limiter := mkLimiter capacity (lm_used l).
Definition try_acquire (l : Limiter) : option Limiter :=
  if lm_used l <? lm_capacity l then Some (mkLimiter (lm_capacity l) (lm_used l + 1)) else None.
(** dropping a slot *)
Definition release (l : Limiter) : Limiter := mkLimiter (lm_capacity l) (lm_used l - 1).

(** ** lib.rs: targets, grants, sessions, runs *)

Record TargetInfo := mkTargetInfo {
  ti_vault_id : bytes; ti_profile_id : bytes; ti_vault : bytes; ti_groups : list bytes;
  ti_tags : list bytes; ti_label : bytes; ti_host : bytes; ti_port : N; ti_user : bytes
}.

Record Target := mkTarget { t_info : TargetInfo; t_revision : N * N }.

Inductive ApprovalMode := Manual | Trusted.

#[global] Instance ApprovalMode_eq_dec : EqDecision ApprovalMode.
Proof. solve_decision. Defined.

Record Grant := mkGrant {
  g_max_timeout_ms : N;
  g_approval_mode : ApprovalMode;
  g_limits : GrantLimits;
  g_epoch : bytes;
  g_label : bytes;
  g_revision : N * N;
  g_until : option N;
  g_targets : gmap bytes Target
}.

Definition Cancel : Type := N.

Inductive SessionState := SConnecting | SReady | SClosed.

#[global] Instance SessionState_eq_dec : EqDecision SessionState.
Proof. solve_decision. Defined.

Record Session := mkSession {
  s_created_unix_ms : N;
  s_connected_at : option N;
  s_connected_unix_ms : option N;
  s_owner : bytes;
  s_epoch : bytes;
  s_target : bytes;
  s_request_key : bytes;
  s_state : SessionState;
  s_error : option ToolError;
  s_cancel : Cancel;
  s_connection : option N;
  s_idle : N;
  s_expires_at : option N
}.

Inductive RunState :=
| AwaitingApproval | Queued | RConnecting | Running | Cancelling | Completed | RFailed | Cancelled | Denied.

#[global] Instance RunState_eq_dec : EqDecision RunState.
Proof. solve_decision. Defined.

(** the fields of a [Run] that are written once, when it is submitted *)
Record Submission := mkSubmission {
  sb_owner : bytes;
  sb_epoch : bytes;
  sb_target : bytes;
  sb_session : option bytes;
  sb_key : bytes;
  sb_command : bytes;
  sb_stdin : option bytes;
  sb_env : gmap bytes bytes;
  sb_cwd : option bytes;
  sb_timeout_ms : N
}.

#[global] Instance Submission_eq_dec : EqDecision Submission.
Proof. solve_decision. Defined.

Record Run := mkRun {
  r_sub : Submission;
  r_created_unix_ms : N;
  r_cancel : Cancel;
  r_approval_until : N;
  r_state : RunState;
  r_error : option ToolError;
  r_started_at : option N;
  r_started_unix_ms : option N;
  r_finished_at : option N;
  r_exit_code : option N;
  r_recording : bool;
  r_output : OutputBuffer;
  r_bytes : N;
  r_truncated : bool;
  r_worker : bool
}.

Definition r_owner (r : Run) : bytes := sb_owner (r_sub r).
Definition r_epoch (r : Run) : bytes := sb_epoch (r_sub r).
Definition finished (r : Run) : bool := bool_decide (is_Some (r_finished_at r)).

Record State := mkState {
  grants : gmap bytes Grant;
  sessions : gmap bytes Session;
  runs : gmap bytes Run;
  retained_bytes : N
}.

Definition empty_state : State := mkState ∅ ∅ ∅ 0.

Definition GRANTS_TOTAL : nat := 32.

(** ** access.rs: saved consent *)

Record SavedAccess := mkSavedAccess {
  sa_integration_id : bytes;
  sa_label : bytes;
  sa_targets : list TargetInfo;
  sa_fingerprint : bytes;
  sa_expires_unix : option N;
  sa_approval_mode : ApprovalMode;
  sa_max_timeout_ms : N;
  sa_limits : GrantLimits
}.

(** ** lib.rs: updates of a run *)

Definition set_run_state (s : RunState) (r : Run) : Run :=
  mkRun (r_sub r) (r_created_unix_ms r) (r_cancel r) (r_approval_until r) s (r_error r)
    (r_started_at r) (r_started_unix_ms r) (r_finished_at r) (r_exit_code r) (r_recording r)
    (r_output r) (r_bytes r) (r_truncated r) (r_worker r).

Definition set_started (s : RunState) (now unix_ms : N) (r : Run) : Run :=
  mkRun (r_sub r) (r_created_unix_ms r) (r_cancel r) (r_approval_until r) s (r_error r)
    (Some now) (Some unix_ms) (r_finished_at r) (r_exit_code r) (r_recording r)
    (r_output r) (r_bytes r) (r_truncated r) true.

Definition set_worker (w : bool) (r : Run) : Run :=
  mkRun (r_sub r) (r_created_unix_ms r) (r_cancel r) (r_approval_until r) (r_state r) (r_error r)
    (r_started_at r) (r_started_unix_ms r) (r_finished_at r) (r_exit_code r) (r_recording r)
    (r_output r) (r_bytes r) (r_truncated r) w.

Definition set_recording (rec : bool) (r : Run) : Run :=
  mkRun (r_sub r) (r_created_unix_ms r) (r_cancel r) (r_approval_until r) (r_state r) (r_error r)
    (r_started_at r) (r_started_unix_ms r) (r_finished_at r) (r_exit_code r) rec
    (r_output r) (r_bytes r) (r_truncated r) (r_worker r).

Definition set_exit_code (code : option N) (r : Run) : Run :=
  mkRun (r_sub r) (r_created_unix_ms r) (r_cancel r) (r_approval_until r) (r_state r) (r_error r)
    (r_started_at r) (r_started_unix_ms r) (r_finished_at r) code (r_recording r)
    (r_output r) (r_bytes r) (r_truncated r) (r_worker r).

Definition set_output (o : OutputBuffer) (bytes : N) (truncated : bool) (r : Run) : Run :=
  mkRun (r_sub r) (r_created_unix_ms r) (r_cancel r) (r_approval_until r) (r_state r) (r_error r)
    (r_started_at r) (r_started_unix_ms r) (r_finished_at r) (r_exit_code r) (r_recording r)
    o bytes truncated (r_worker r).

Definition finish (now : N) (state : RunState) (error : option ToolError) (r : Run) : Run :=
  mkRun (r_sub r) (r_created_unix_ms r) (r_cancel r) (r_approval_until r) state error
    (r_started_at r) (r_started_unix_ms r) (Some now) (r_exit_code r) (r_recording r)
    (flush (r_output r)) (r_bytes r) (r_truncated r) (r_worker r).

Definition set_runs (f : gmap bytes Run -> gmap bytes Run) (s : State) : State :=
  mkState (grants s) (sessions s) (f (runs s)) (retained_bytes s).
Definition set_sessions (f : gmap bytes Session -> gmap bytes Session) (s : State) : State :=
  mkState (grants s) (f (sessions s)) (runs s) (retained_bytes s).
Definition set_grants (f : gmap bytes Grant -> gmap bytes Grant) (s : State) : State :=
  mkState (f (grants s)) (sessions s) (runs s) (retained_bytes s).
Definition set_retained (n : N) (s : State) : State :=
  mkState (grants s) (sessions s) (runs s) n.

(** [state.runs.values().map(|r| r.bytes).sum()] *)
Definition sum_bytes (m : gmap bytes Run) : N := map_fold (fun _ r n => r_bytes r + n) 0 m.

(** ** limits.rs: eviction *)

(** the order of [(bool, Instant, String)] *)
Definition evict_leb (a b : bool * N * bytes) : bool :=
  let '(f1, t1, i1) := a in
  let '(f2, t2, i2) := b in
  if Bool.eqb f1 f2 then (t1 <? t2) || ((t1 =? t2) && bytes_leb i1 i2) else negb f1.

Definition evict_key (owner : option bytes) (e : bytes * Run) : option (bool * N * bytes) :=
  (fun at_ => (match owner with Some o => negb (bytes_eqb (r_owner e.2) o) | None => false end, at_, e.1))
    <$> r_finished_at e.2.

Definition evictable (s : State) (owner : option bytes) (with_output : bool) : list bytes :=
  snd <$> stable_sort evict_leb
    (omap (evict_key owner)
       (filter (fun e => negb (r_worker e.2) && (negb with_output || (0 <? r_bytes e.2)) = true)
          (entries (runs s)))).

Definition remove_run (id : bytes) (s : State) : State :=
  match runs s !! id with
  | Some run => mkState (grants s) (sessions s) (delete id (runs s)) (retained_bytes s - r_bytes run)
  | None => s
  end.

Definition remove_runs (ids : list bytes) (s : State) : State := foldl (fun s id => remove_run id s) s ids.

Definition owned_runs (owner : bytes) (s : State) : gmap bytes Run :=
  filter (fun e => r_owner e.2 = owner) (runs s).

Fixpoint take_while {A} (p : A -> bool) (l : list A) : list A :=
  match l with
  | [] => []
  | x :: l => if p x then x :: take_while p l else []
  end.

Definition admit_run (owner : bytes) (per_grant total : N) (s : State) : bool * State :=
  let any := evictable s (Some owner) false in
  let own := length (take_while (fun id =>
    match runs s !! id with Some r => bytes_eqb (r_owner r) owner | None => false end) any) in
  let own_excess := (size (owned_runs owner s) + 1 - N.to_nat per_grant)%nat in
  let total_excess := (size (runs s) + 1 - N.to_nat total)%nat in
  let dropped := Nat.max own_excess total_excess in
  if (own <? own_excess)%nat || (length any <? dropped)%nat then (false, s)
  else (true, remove_runs (take dropped any) s).

(** the order of [(u64, String)] *)
Definition closed_leb (a b : N * bytes) : bool :=
  (a.1 <? b.1) || ((a.1 =? b.1) && bytes_leb a.2 b.2).

Definition admit_session (owner : bytes) (retained : N) (s : State) : bool * State :=
  let mine := filter (fun e => s_owner e.2 = owner) (sessions s) in
  let excess := (size mine + 1 - N.to_nat retained)%nat in
  let closed := (fun e => (s_created_unix_ms e.2, e.1)) <$>
    filter (fun e => s_owner e.2 = owner /\ s_state e.2 = SClosed) (entries (sessions s)) in
  if (length closed <? excess)%nat then (false, s)
  else
    let gone := snd <$> take excess (stable_sort closed_leb closed) in
    (true, set_sessions (fun m => foldl (fun m id => delete id m) m gone) s).

(** frees output, oldest first, while [enough] says it is not *)
Fixpoint evict_until (enough : State -> bool) (ids : list bytes) (s : State) : State :=
  match ids with
  | [] => s
  | id :: ids => if enough s then s else evict_until enough ids (remove_run id s)
  end.

Definition trim (limits : BrokerLimits) (s : State) : State :=
  let excess := (size (runs s) - N.to_nat (all_retained_commands limits))%nat in
  let s := remove_runs (take excess (evictable s None false)) s in
  evict_until (fun s => retained_bytes s <=? output_total_bytes limits) (evictable s None true) s.

Definition output_room (owner : bytes) (needed total : N) (s : State) : N * State :=
  let s := evict_until (fun s => needed <=? total - retained_bytes s) (evictable s (Some owner) true) s in
  (total - retained_bytes s, s).
