(* ===== verification/Broker.v ===== *)
(** * The automation broker (automation/src/lib.rs, access.rs, approval.rs)

    Every definition here is one section of the source that runs under the state lock
    or the admission gate, so it is one step; threads interleave between them. What the
    executor, the clocks and the random generator answer within a step is an [Env].
    Responses are records instead of JSON; the preview of a command and the reports for
    the native review screen are left out. [Worker] and [Opener] are the threads that
    the broker starts. The 64-bit revocation counter does not wrap in the model. *)

From Stdlib Require Import Strings.Byte NArith ZArith Lia.
From stdpp Require Import base gmap sets list strings sorting countable.
From S2P Require Import Prelude Bytes Storage AutoOutput AutoText BrokerState.

Local Open Scope N_scope.

(** ** The broker and what it asks *)

Record Broker := mkBroker {
  b_state : State;
  b_limits : BrokerLimits;
  b_revocation_epoch : N;
  b_suspended : bool;
  b_manual_approval : bool;
  b_recorded : bool;
  b_access_revision : option (N * N);
  (* the consents the executor keeps *)
  b_saved : list SavedAccess;
  (* the cancellation flags handed out so far *)
  b_flags : gmap N bool;
  b_next_flag : N
}.

Definition new_broker : Broker :=
  mkBroker empty_state default_broker_limits 0 false true false None [] ∅ 0.

Record Env := mkEnv {
  e_now : N;
  e_unix : N;
  e_unix_ms : N;
  (* the answers to the calls of one step, in order *)
  e_revision : nat -> result ToolError (N * N);
  e_fingerprint : result ToolError bytes;
  e_resolve : bytes -> bytes -> result ToolError Target;
  e_load : result ToolError unit;
  e_save : result ToolError unit;
  (* random identifiers, in order *)
  e_id : nat -> bytes;
  (* whether a connection slot of the grant, and of the application, is free *)
  e_owner_slot : bool;
  e_slot : bool
}.

Definition BrokerM := M Broker ToolError.

Definition with_state (f : State -> State) (b : Broker) : Broker :=
  mkBroker (f (b_state b)) (b_limits b) (b_revocation_epoch b) (b_suspended b) (b_manual_approval b)
    (b_recorded b) (b_access_revision b) (b_saved b) (b_flags b) (b_next_flag b).
Definition with_flags (f : gmap N bool -> gmap N bool) (b : Broker) : Broker :=
  mkBroker (b_state b) (b_limits b) (b_revocation_epoch b) (b_suspended b) (b_manual_approval b)
    (b_recorded b) (b_access_revision b) (b_saved b) (f (b_flags b)) (b_next_flag b).
Definition with_saved (saved : list SavedAccess) (b : Broker) : Broker :=
  mkBroker (b_state b) (b_limits b) (b_revocation_epoch b) (b_suspended b) (b_manual_approval b)
    (b_recorded b) (b_access_revision b) saved (b_flags b) (b_next_flag b).
Definition with_lifecycle (epoch : N) (suspended : bool) (rev : option (N * N)) (b : Broker) : Broker :=
  mkBroker (b_state b) (b_limits b) epoch suspended (b_manual_approval b) (b_recorded b) rev
    (b_saved b) (b_flags b) (b_next_flag b).
Definition with_limits (l : BrokerLimits) (b : Broker) : Broker :=
  mkBroker (b_state b) l (b_revocation_epoch b) (b_suspended b) (b_manual_approval b)
    (b_recorded b) (b_access_revision b) (b_saved b) (b_flags b) (b_next_flag b).
Definition with_recorded (b : Broker) : Broker :=
  mkBroker (b_state b) (b_limits b) (b_revocation_epoch b) (b_suspended b) (b_manual_approval b)
    true (b_access_revision b) (b_saved b) (b_flags b) (b_next_flag b).
(** [Arc::new(AtomicBool::new(false))] *)
Definition with_new_flag (b : Broker) : Broker :=
  mkBroker (b_state b) (b_limits b) (b_revocation_epoch b) (b_suspended b) (b_manual_approval b)
    (b_recorded b) (b_access_revision b) (b_saved b) (<[b_next_flag b := false]> (b_flags b))
    (b_next_flag b + 1).

Definition cancelled (b : Broker) (c : Cancel) : bool := default false (b_flags b !! c).
Definition cancel (c : Cancel) (b : Broker) : Broker := with_flags (<[c := true]>) b.
Definition cancel_all (cs : list Cancel) (b : Broker) : Broker := foldl (fun b c => cancel c b) b cs.

Definition update_run (id : bytes) (f : Run -> Run) (b : Broker) : Broker :=
  with_state (set_runs (alter f id)) b.
Definition update_session (id : bytes) (f : Session -> Session) (b : Broker) : Broker :=
  with_state (set_sessions (alter f id)) b.

Definition expired_at (now : N) (until : option N) : bool :=
  match until with Some u => u <=? now | None => false end.

(** ** Revocation *)

Definition matches_owner (owner : option bytes) (s : bytes) : bool :=
  match owner with None => true | Some o => bytes_eqb o s end.

Definition revoke_inner (owner : option bytes) (b : Broker) : Broker :=
  let s := b_state b in
  let gone_sessions := filter (fun e => matches_owner owner (s_owner e.2) = true) (sessions s) in
  let gone_runs := filter (fun e => matches_owner owner (r_owner e.2) = true) (runs s) in
  let b := cancel_all ((fun e => s_cancel e.2) <$> map_to_list gone_sessions) b in
  let b := cancel_all ((fun e => r_cancel e.2) <$> map_to_list gone_runs) b in
  let runs' := filter (fun e => matches_owner owner (r_owner e.2) = false) (runs s) in
  with_state (fun s =>
    mkState (filter (fun e => matches_owner owner e.1 = false) (grants s))
      (filter (fun e => matches_owner owner (s_owner e.2) = false) (sessions s))
      runs' (sum_bytes runs')) b.

Definition bump_epoch (b : Broker) : Broker :=
  with_lifecycle (b_revocation_epoch b + 1) (b_suspended b) (b_access_revision b) b.

Definition revoke (owner : option bytes) (b : Broker) : Broker := revoke_inner owner (bump_epoch b).

Definition grant_stale (now : N) (revision : option (N * N)) (g : Grant) : bool :=
  expired_at now (g_until g) || negb (bool_decide (Some (g_revision g) = revision)).

Definition ok_of {E A} (r : result E A) : option A := match r with Ok a => Some a | Err _ => None end.

Definition revoke_expired (e : Env) (owner epoch : bytes) (b : Broker) : Broker :=
  match grants (b_state b) !! owner with
  | Some g =>
      if bytes_eqb (g_epoch g) epoch && grant_stale (e_now e) (ok_of (e_revision e 0)) g
      then revoke (Some owner) b else b
  | None => b
  end.

(** ** access.rs *)

Definition save_grant (e : Env) (owner label : bytes) (targets : gmap bytes Target) (seconds : option N)
    (mode : ApprovalMode) (max_timeout_ms : N) (limits : GrantLimits) (fingerprint : bytes) : BrokerM unit :=
  _ ← lift_result (e_load e);
  b ← get_state;
  let saved := filter (fun s => sa_integration_id s <> owner) (b_saved b) in
  if (GRANTS_TOTAL <=? length saved)%nat then throw Busy
  else
    _ ← lift_result (e_save e);
    modify (with_saved (saved ++
      [mkSavedAccess owner label ((fun t => t_info t.2) <$> entries targets) fingerprint
         ((fun s => e_unix e + s) <$> seconds) mode max_timeout_ms limits])).

Definition forget_access (e : Env) (owner : option bytes) : BrokerM unit :=
  _ ← modify (revoke owner);
  _ ← lift_result (e_load e);
  b ← get_state;
  _ ← lift_result (e_save e);
  modify (with_saved (match owner with
                      | Some o => filter (fun s => sa_integration_id s <> o) (b_saved b)
                      | None => []
                      end)).

Definition suspend (b : Broker) : Broker :=
  let b := with_lifecycle (b_revocation_epoch b + 1) true (b_access_revision b) b in
  let b := revoke_inner None b in
  with_lifecycle (b_revocation_epoch b) (b_suspended b) None b.

Definition resume_if_current (epoch : N) (b : Broker) : Broker :=
  if b_revocation_epoch b =? epoch then with_lifecycle (b_revocation_epoch b) false None b else b.

(** the targets of a consent, if all resolve at the revision *)
Fixpoint resolve_all (e : Env) (revision : N * N) (n : nat) (infos : list TargetInfo)
    : option (gmap bytes Target) :=
  match infos with
  | [] => Some ∅
  | info :: infos =>
      match e_resolve e (ti_vault_id info) (ti_profile_id info) with
      | Ok target =>
          if bool_decide (t_revision target = revision)
          then rest ← resolve_all e revision (S n) infos; Some (<[e_id e n := target]> rest)
          else None
      | Err _ => None
      end
  end.

(** the grant a consent gives; [n]: how many identifiers were used before *)
Definition restore_consent (e : Env) (revision : N * N) (fingerprint : bytes) (live : gmap bytes Grant)
    (n : nat) (c : SavedAccess) : option (bytes * Grant) :=
  if negb (bytes_eqb (sa_fingerprint c) fingerprint)
     || (match sa_expires_unix c with Some until => until <=? e_unix e | None => false end)
     || (length (sa_targets c) =? 0)%nat || (64 <? length (sa_targets c))%nat
     || negb (in_range_incl 1 86400000 (sa_max_timeout_ms c)) then None
  else if negb (grant_limits_valid (sa_limits c)) then None
  else if bool_decide (is_Some (live !! sa_integration_id c)) then None
  else
    targets ← resolve_all e revision n (sa_targets c);
    if negb (size targets =? length (sa_targets c))%nat then None
    else
      until ← match sa_expires_unix c with
              | Some expiry => if 0 <? expiry - e_unix e
                               then Some (Some (e_now e + (expiry - e_unix e) * 1000)) else None
              | None => Some None
              end;
      Some (sa_integration_id c,
            mkGrant (sa_max_timeout_ms c) (sa_approval_mode c) (sa_limits c)
              (e_id e (n + length (sa_targets c))) (sa_label c) revision until targets).

Fixpoint restore_consents (e : Env) (revision : N * N) (fingerprint : bytes) (live : gmap bytes Grant)
    (n : nat) (saved : list SavedAccess) : list (bytes * Grant) :=
  match saved with
  | [] => []
  | c :: saved =>
      option_list (restore_consent e revision fingerprint live n c) ++
      restore_consents e revision fingerprint live (n + length (sa_targets c) + 1) saved
  end.

(** [entry(owner).or_insert(grant)] for each *)
Definition insert_new (m : gmap bytes Grant) (g : bytes * Grant) : gmap bytes Grant :=
  match m !! g.1 with Some _ => m | None => <[g.1 := g.2]> m end.

Definition restore_access (e : Env) (b : Broker) : Broker :=
  if b_suspended b then b
  else
    match e_revision e 0 with
    | Err _ => b
    | Ok revision =>
        if bool_decide (b_access_revision b = Some revision) then b
        else
          match e_load e, e_fingerprint e with
          | Ok _, Ok fingerprint =>
              let found := restore_consents e revision fingerprint (grants (b_state b)) 0 (b_saved b) in
              if negb (bool_decide (ok_of (e_revision e 1) = Some revision)) then b
              else
                let b := with_state (set_grants (fun m => foldl insert_new m (take GRANTS_TOTAL found))) b in
                with_lifecycle (b_revocation_epoch b) (b_suspended b) (Some revision) b
          | _, _ => b
          end
    end.

(** ** Granting *)

(** [None]: the ticket does not parse *)
Definition Ticket : Type := option (N * (N * N)).

Definition grant_ticket (e : Env) : BrokerM Ticket :=
  b ← get_state;
  revision ← lift_result (e_revision e 0);
  mret (Some (b_revocation_epoch b, revision)).

Fixpoint resolve_targets (e : Env) (revision : N * N) (n : nat) (targets : list (bytes * bytes))
    : result ToolError (gmap bytes Target) :=
  match targets with
  | [] => Ok ∅
  | (vault, profile) :: targets =>
      target ← e_resolve e vault profile;
      if negb (bool_decide (t_revision target = revision)) then Err GrantExpired
      else rest ← resolve_targets e revision (S n) targets; Ok (<[e_id e n := target]> rest)
  end.

(** The generation and the suspension are read again under the gate before anything is
    written, so the earlier reads decide nothing that this one does not. *)
Definition grant_with_limits (e : Env) (owner label : bytes) (targets : list (bytes * bytes))
    (seconds : option N) (ticket : Ticket) (mode : ApprovalMode) (max_timeout_ms : N)
    (limits : GrantLimits) : BrokerM unit :=
  if negb (in_range_incl 1 86400000 max_timeout_ms) then throw TimeoutLimit
  else if negb (grant_limits_valid limits) || (length owner =? 0)%nat || (length targets =? 0)%nat
          || (64 <? length targets)%nat || bool_decide (seconds = Some 0) then throw TargetUnavailable
  else
    '(generation, revision) ← lift_result (ok_or ticket GrantExpired);
    b ← get_state;
    if negb (b_revocation_epoch b =? generation) then throw GrantExpired
    else
      now_revision ← lift_result (e_revision e 0);
      if negb (bool_decide (now_revision = revision)) then throw GrantExpired
      else
        fingerprint ← lift_result (e_fingerprint e);
        resolved ← lift_result (resolve_targets e revision 0 targets);
        last_revision ← lift_result (e_revision e 1);
        if negb (bool_decide (last_revision = revision)) then throw GrantExpired
        else if b_suspended b then throw Locked
        else if (GRANTS_TOTAL <=? size (grants (b_state b)))%nat
                && negb (bool_decide (is_Some (grants (b_state b) !! owner))) then throw Busy
        else
          _ ← save_grant e owner label resolved seconds mode max_timeout_ms limits fingerprint;
          _ ← modify (revoke_inner (Some owner));
          modify (with_state (set_grants (<[owner :=
            mkGrant max_timeout_ms mode limits (e_id e (length targets)) label revision
              ((fun s => e_now e + s * 1000) <$> seconds) resolved]>))).

Definition set_limits (limits : BrokerLimits) : BrokerM unit :=
  if negb (broker_limits_valid limits) then throw TargetUnavailable
  else modify (fun b => with_state (trim limits) (with_limits limits b)).

Definition set_manual_approval_available (available : bool) (b : Broker) : Broker :=
  mkBroker (b_state b) (b_limits b) (b_revocation_epoch b) (b_suspended b) available
    (b_recorded b) (b_access_revision b) (b_saved b) (b_flags b) (b_next_flag b).

(** ** The sweep *)

(** grants to look at again: expired or of another revision *)
Definition expired_grants (e : Env) (b : Broker) : list (bytes * bytes) :=
  (fun g => (g.1, g_epoch g.2)) <$>
    filter (fun g => grant_stale (e_now e) (ok_of (e_revision e 0)) g.2 = true) (entries (grants (b_state b))).

Definition IDLE_MS : N := 300000.

Definition close_session (error : option ToolError) (s : Session) : Session :=
  mkSession (s_created_unix_ms s) (s_connected_at s) (s_connected_unix_ms s) (s_owner s) (s_epoch s)
    (s_target s) (s_request_key s) SClosed error (s_cancel s) None (s_idle s) (s_expires_at s).

Definition expire_approval (now : N) (r : Run) : Run :=
  if bool_decide (r_state r = AwaitingApproval) && (r_approval_until r <=? now)
  then finish now Denied (Some ApprovalExpired) r else r.

(** sessions with an unfinished run *)
Definition session_active (m : gmap bytes Run) (sid : bytes) : bool :=
  existsb (fun e => negb (finished e.2) && bool_decide (sb_session (r_sub e.2) = Some sid)) (map_to_list m).

(** what the sweep does to a session; [invalid]: connections found dead just before *)
Definition sweep_session (now : N) (active : bytes -> bool) (invalid : list (bytes * N)) (sid : bytes)
    (s : Session) : Session :=
  let s := if bool_decide (s_state s = SReady) && negb (active sid) && (IDLE_MS <=? now - s_idle s)
           then close_session (s_error s) s else s in
  if existsb (fun x => bytes_eqb x.1 sid && bool_decide (s_connection s = Some x.2)) invalid
  then close_session (Some ConnectionLost) s else s.

(** the sessions it closes: their flags are raised *)
Definition swept_flags (before after : gmap bytes Session) : list Cancel :=
  omap (fun e => match after !! e.1 with
                 | Some s => if bool_decide (s_connection e.2 <> s_connection s \/ s_state e.2 <> s_state s)
                             then Some (s_cancel s) else None
                 | None => None
                 end) (map_to_list before).

(** the last section of [sweep] *)
Definition sweep_records (e : Env) (invalid : list (bytes * N)) (b : Broker) : Broker :=
  let s := b_state b in
  let runs' := expire_approval (e_now e) <$> runs s in
  let sessions' := map_imap (fun sid x => Some (sweep_session (e_now e) (session_active runs') invalid sid x))
                     (sessions s) in
  let b := cancel_all (swept_flags (sessions s) sessions') b in
  with_state (fun s => mkState (grants s) sessions' runs' (sum_bytes runs')) b.

(** all sections, one after the other *)
Definition sweep (e : Env) (invalid : list (bytes * N)) (b : Broker) : Broker :=
  let b := foldl (fun b x => revoke_expired e x.1 x.2 b) b (expired_grants e b) in
  sweep_records e invalid (restore_access e b).

(** ** Requests of an integration *)

Inductive RunTarget := Existing (session_id : bytes) | OneShot (target_id : bytes).

Inductive ToolRequest :=
| GetAccessStatus (cursor : option bytes)
| ListCommands (cursor : option bytes)
| ListTargets (cursor : option bytes)
| ListSessions (cursor : option bytes)
| OpenSession (target_id request_key : bytes)
| CloseSession (session_id : bytes)
| RunCommand (where_ : RunTarget) (command request_key : bytes) (timeout_ms : option N)
    (cwd stdin : option bytes) (env : gmap bytes bytes)
| GetCommand (run_id : bytes) (output_cursor : option bytes)
| CancelCommand (run_id : bytes).

(** [session_json] and [run_json] *)
Record SessionView := mkSessionView {
  sv_id : bytes; sv_target : bytes; sv_state : SessionState; sv_error : option ToolError;
  sv_expires_at : option N
}.
Record RunView := mkRunView {
  rv_id : bytes; rv_session : option bytes; rv_target : bytes; rv_state : RunState;
  rv_error : option ToolError
}.

Definition session_json (id : bytes) (s : Session) : SessionView :=
  mkSessionView id (s_target s) (s_state s) (s_error s) (s_expires_at s).
Definition run_json (id : bytes) (r : Run) : RunView :=
  mkRunView id (sb_session (r_sub r)) (sb_target (r_sub r)) (r_state r) (r_error r).

Record RunPage := mkRunPage {
  rp_run : RunView; rp_chunks : list Chunk; rp_next_cursor : bytes; rp_truncated : bool;
  rp_exit_code : option N
}.

Definition run_page (id : bytes) (r : Run) (cursor : option bytes) : result ToolError RunPage :=
  '(chunks, next) ← ok_or (page_at (r_output r) cursor) OutputExpired;
  Ok (mkRunPage (run_json id r) chunks next (r_truncated r) (r_exit_code r)).

Inductive Response :=
| RStatus (error : option ToolError) (mode : option ApprovalMode) (max_timeout_ms : N) (limits : GrantLimits)
| RTargets (targets : list (bytes * TargetInfo))
| RSessions (sessions : list SessionView)
| RSession (session : SessionView)
| RCommands (runs : list (RunView * bytes * option N))
| RRun (run : RunView)
| RPage (page : RunPage).

(** a thread that connects a session *)
Record Opener := mkOpener {
  o_session : bytes; o_target : Target; o_deadline : option N; o_label : bytes; o_stop : Cancel
}.

(** what a request's locked section leaves to do *)
Inductive Reply :=
| Answer (r : Response)
| Opening (o : Opener) (r : Response)
(* a run was recorded; trusted ones are started next *)
| Submitted (run_id : bytes) (mode : ApprovalMode).

Definition access_status (e : Env) (b : Broker) (owner : bytes) : Response :=
  let grant :=
    match grants (b_state b) !! owner, e_revision e 0 with
    | Some g, Ok revision =>
        if bool_decide (revision = g_revision g) && negb (expired_at (e_now e) (g_until g))
        then Some g else None
    | _, _ => None
    end in
  let error :=
    match e_revision e 0, grant with
    | Err err, _ => Some err
    | Ok _, None => Some GrantRequired
    | Ok _, Some _ => None
    end in
  RStatus error (g_approval_mode <$> grant) (from_option g_max_timeout_ms 600000 grant)
    (from_option g_limits default_grant_limits grant).

Definition no_cursor (cursor : option bytes) (err : ToolError) : result ToolError unit :=
  match cursor with Some _ => Err err | None => Ok tt end.

Definition open_sessions (owner : bytes) (s : State) : nat :=
  length (filter (fun e => s_owner e.2 = owner /\ (s_state e.2 = SConnecting \/ s_state e.2 = SReady))
            (map_to_list (sessions s))).

Definition open_session (e : Env) (owner : bytes) (grant : Grant) (target_id request_key : bytes)
    : BrokerM Reply :=
  b ← get_state;
  match find (fun x => bytes_eqb (s_owner x.2) owner && bytes_eqb (s_epoch x.2) (g_epoch grant)
                       && bytes_eqb (s_request_key x.2) request_key) (entries (sessions (b_state b))) with
  | Some (sid, s) =>
      if bytes_eqb (s_target s) target_id then mret (Answer (RSession (session_json sid s)))
      else throw RequestConflict
  | None =>
      let limits := g_limits grant in
      if (N.to_nat (max_connections limits) <=? open_sessions owner (b_state b))%nat then throw Busy
      else
        target ← lift_result (ok_or (g_targets grant !! target_id) TargetUnavailable);
        if negb (e_owner_slot e) || negb (e_slot e) then throw Busy
        else
          let '(ok, s) := admit_session owner (retained_sessions limits) (b_state b) in
          if negb ok then throw Busy
          else
            let sid := e_id e 0 in
            let stop := b_next_flag b in
            let session := mkSession (e_unix_ms e) None None owner (g_epoch grant) target_id request_key
              SConnecting None stop None (e_now e)
              ((fun d => e_unix e + (d - e_now e) / 1000) <$> g_until grant) in
            _ ← modify (fun b => with_state (fun _ => set_sessions (<[sid := session]>) s) (with_new_flag b));
            mret (Opening (mkOpener sid target (g_until grant) (g_label grant) stop)
                    (RSession (session_json sid session)))
  end.

Definition close_request (e : Env) (owner session_id : bytes) : BrokerM Reply :=
  b ← get_state;
  match sessions (b_state b) !! session_id with
  | Some s =>
      if negb (bytes_eqb (s_owner s) owner) then throw ToolSessionClosed
      else
        let s' := close_session (s_error s) s in
        let hit (r : Run) := bytes_eqb (r_owner r) owner
                             && bool_decide (sb_session (r_sub r) = Some session_id) in
        let flags := (fun x => r_cancel x.2) <$>
          filter (fun x => hit x.2 = true) (map_to_list (runs (b_state b))) in
        _ ← modify (fun b => update_session session_id (fun _ => s')
              (with_state (set_runs (fmap (fun r =>
                 if hit r && (bool_decide (r_state r = AwaitingApproval) || bool_decide (r_state r = Queued))
                 then finish (e_now e) Cancelled None r else r)))
              (cancel_all flags (cancel (s_cancel s) b))));
        mret (Answer (RSession (session_json session_id s')))
  | None => throw ToolSessionClosed
  end.

Definition unfinished_of (owner : bytes) (s : State) : nat :=
  length (filter (fun x => r_owner x.2 = owner /\ finished x.2 = false) (map_to_list (runs s))).

(** the same command, whatever the state of the run *)
Definition same_request (r : Run) (sub : Submission) : bool := bool_decide (r_sub r = sub).

Definition run_request (e : Env) (owner : bytes) (grant : Grant) (where_ : RunTarget)
    (command key : bytes) (timeout : option N) (cwd stdin : option bytes) (env : gmap bytes bytes)
    : BrokerM Reply :=
  b ← get_state;
  '(session, target_id) ← lift_result
     (match where_ with
      | Existing sid =>
          match sessions (b_state b) !! sid with
          | Some s => if bytes_eqb (s_owner s) owner then Ok (Some sid, s_target s) else Err ToolSessionClosed
          | None => Err ToolSessionClosed
          end
      | OneShot target_id => Ok (None, target_id)
      end);
  let timeout_ms := default (N.min 120000 (g_max_timeout_ms grant)) timeout in
  if g_max_timeout_ms grant <? timeout_ms then throw TimeoutLimit
  else
    let sub := mkSubmission owner (g_epoch grant) target_id session key command stdin env cwd timeout_ms in
    match find (fun x => bytes_eqb (r_owner x.2) owner && bytes_eqb (r_epoch x.2) (g_epoch grant)
                         && bytes_eqb (sb_key (r_sub x.2)) key) (entries (runs (b_state b))) with
    | Some (rid, r) =>
        if same_request r sub
        then pg ← lift_result (run_page rid r None); mret (Answer (RPage pg))
        else throw RequestConflict
    | None =>
        if negb (bool_decide (is_Some (g_targets grant !! target_id))) then throw TargetUnavailable
        else
          _ ← lift_result
            (match session with
             | Some sid =>
                 if negb (bool_decide (s_state <$> sessions (b_state b) !! sid = Some SReady))
                 then Err SessionNotReady
                 else if session_active (runs (b_state b)) sid then Err Busy else Ok tt
             | None => Ok tt
             end);
          if (N.to_nat (max_active_commands (g_limits grant)) <=? unfinished_of owner (b_state b))%nat
          then throw Busy
          else if bool_decide (g_approval_mode grant = Manual) && negb (b_manual_approval b)
          then throw ApprovalUnavailable
          else
            let '(ok, s) := admit_run owner (retained_commands (g_limits grant))
                              (all_retained_commands (b_limits b)) (b_state b) in
            if negb ok then throw Busy
            else
              let rid := e_id e 0 in
              let run := mkRun sub (e_unix_ms e) (b_next_flag b) (e_now e + 120000)
                (if bool_decide (g_approval_mode grant = Manual) then AwaitingApproval else Queued)
                None None None None None false empty_output 0 false false in
              _ ← modify (fun b => with_state (fun _ => set_runs (<[rid := run]>) s) (with_new_flag b));
              mret (Submitted rid (g_approval_mode grant))
    end.

Definition owned_run (b : Broker) (owner rid : bytes) : result ToolError Run :=
  match runs (b_state b) !! rid with
  | Some r => if bytes_eqb (r_owner r) owner then Ok r else Err OutcomeUnknown
  | None => Err OutcomeUnknown
  end.

Definition cancel_request (e : Env) (owner rid : bytes) : BrokerM Reply :=
  b ← get_state;
  r ← lift_result (owned_run b owner rid);
  let r' := if finished r then r
            else if bool_decide (r_state r = AwaitingApproval) || bool_decide (r_state r = Queued)
            then finish (e_now e) Cancelled None r
            else set_run_state Cancelling r in
  _ ← modify (fun b => if finished r then b else update_run rid (fun _ => r') (cancel (r_cancel r) b));
  mret (Answer (RRun (run_json rid r'))).

(** the section of [request] under the state lock, after the sweep *)
Definition request_locked (e : Env) (owner : bytes) (req : ToolRequest) : BrokerM Reply :=
  match req with
  | GetAccessStatus cursor =>
      _ ← lift_result (no_cursor cursor TargetUnavailable);
      b ← get_state;
      mret (Answer (access_status e b owner))
  | _ =>
      revision ← lift_result (e_revision e 0);
      b ← get_state;
      grant ← lift_result (ok_or (grants (b_state b) !! owner) GrantRequired);
      if negb (bool_decide (g_revision grant = revision)) || expired_at (e_now e) (g_until grant)
      then throw GrantExpired
      else
        match req with
        | GetAccessStatus _ => throw TargetUnavailable
        | ListCommands cursor =>
            _ ← lift_result (no_cursor cursor TargetUnavailable);
            mret (Answer (RCommands ((fun x => (run_json x.1 x.2, sb_key (r_sub x.2), r_exit_code x.2)) <$>
              filter (fun x => r_owner x.2 = owner) (entries (runs (b_state b))))))
        | ListTargets cursor =>
            _ ← lift_result (no_cursor cursor TargetUnavailable);
            mret (Answer (RTargets ((fun x => (x.1, t_info x.2)) <$> entries (g_targets grant))))
        | ListSessions cursor =>
            _ ← lift_result (no_cursor cursor ToolSessionClosed);
            mret (Answer (RSessions ((fun x => session_json x.1 x.2) <$>
              filter (fun x => s_owner x.2 = owner) (entries (sessions (b_state b))))))
        | OpenSession target_id key => open_session e owner grant target_id key
        | CloseSession sid => close_request e owner sid
        | RunCommand where_ command key timeout cwd stdin env =>
            run_request e owner grant where_ command key timeout cwd stdin env
        | GetCommand rid cursor =>
            r ← lift_result (owned_run b owner rid);
            pg ← lift_result (run_page rid r cursor);
            mret (Answer (RPage pg))
        | CancelCommand rid => cancel_request e owner rid
        end
  end.

(** ** Approval and start *)

(** a run's thread; [w_conn]: the connection of its session *)
Record Worker := mkWorker {
  w_target : Target;
  w_label : bytes;
  w_sub : Submission;
  w_command : bytes;
  w_stop : Cancel;
  w_deadline : N;
  w_conn : option N
}.

Definition awaiting (b : Broker) (now : N) (r : Run) : bool :=
  bool_decide (r_state r = AwaitingApproval) && negb (cancelled b (r_cancel r)) && (now <? r_approval_until r).

Record PendingApproval := mkPendingApproval {
  pa_run_id : bytes;
  pa_integration_id : bytes;
  pa_application : bytes;
  pa_target : TargetInfo;
  pa_command : bytes;
  pa_cwd : option bytes;
  pa_stdin : option bytes;
  pa_env : gmap bytes bytes;
  pa_timeout_ms : N;
  pa_expires_in : N
}.

Definition pending_of (now : N) (s : State) (id : bytes) (r : Run) : option (N * PendingApproval) :=
  grant ← grants s !! r_owner r;
  if negb (bytes_eqb (g_epoch grant) (r_epoch r)) then None
  else
    target ← g_targets grant !! sb_target (r_sub r);
    Some (r_created_unix_ms r,
          mkPendingApproval id (r_owner r) (g_label grant) (t_info target) (sb_command (r_sub r))
            (sb_cwd (r_sub r)) (sb_stdin (r_sub r)) (sb_env (r_sub r)) (sb_timeout_ms (r_sub r))
            (r_approval_until r - now)).

Definition pending_approvals (e : Env) (b : Broker) : list PendingApproval :=
  snd <$> stable_sort (fun x y => x.1 <=? y.1)
    (omap (fun x => pending_of (e_now e) (b_state b) x.1 x.2)
       (filter (fun x => awaiting b (e_now e) x.2 = true) (entries (runs (b_state b))))).

Definition is_pending (e : Env) (b : Broker) (rid : bytes) : bool :=
  match runs (b_state b) !! rid with
  | Some r =>
      awaiting b (e_now e) r &&
      match grants (b_state b) !! r_owner r with
      | Some g => bytes_eqb (g_epoch g) (r_epoch r) && bool_decide (is_Some (g_targets g !! sb_target (r_sub r)))
      | None => false
      end
  | None => false
  end.

Definition approval_unavailable (e : Env) (rid : bytes) : BrokerM unit :=
  b ← get_state;
  match runs (b_state b) !! rid with
  | Some r =>
      if awaiting b (e_now e) r
      then modify (update_run rid (finish (e_now e) RFailed (Some ApprovalUnavailable)))
      else throw ApprovalExpired
  | None => throw ApprovalExpired
  end.

(** the section of [start_run] under the state lock, after the sweep; the worker it
    starts, none when the user denied *)
Definition start_run (e : Env) (rid : bytes) (allowed : bool) (mode : ApprovalMode) : BrokerM (option Worker) :=
  b ← get_state;
  run ← lift_result (ok_or (runs (b_state b) !! rid) ApprovalExpired);
  let sub := r_sub run in
  if negb (bool_decide (r_state run = match mode with Manual => AwaitingApproval | Trusted => Queued end))
     || cancelled b (r_cancel run) || (r_approval_until run <=? e_now e) then throw ApprovalExpired
  else if negb allowed then
    _ ← modify (update_run rid (finish (e_now e) Denied (Some ApprovalDenied)));
    mret None
  else
    grant ← lift_result
      (match grants (b_state b) !! r_owner run with
       | Some g => if bytes_eqb (g_epoch g) (r_epoch run) && negb (expired_at (e_now e) (g_until g))
                   then Ok g else Err GrantExpired
       | None => Err GrantExpired
       end);
    if negb (bool_decide (g_approval_mode grant = mode)) then throw ApprovalDenied
    else
      target ← lift_result (ok_or (g_targets grant !! sb_target sub) TargetUnavailable);
      let runtime_deadline := e_now e + sb_timeout_ms sub in
      let deadline := match g_until grant with Some u => N.min u runtime_deadline | None => runtime_deadline end in
      connection ← lift_result
        (match sb_session sub with
         | Some sid =>
             match sessions (b_state b) !! sid with
             | Some s =>
                 if bool_decide (s_state s = SReady) && negb (cancelled b (s_cancel s))
                 then c ← ok_or (s_connection s) SessionNotReady; Ok (Some c)
                 else Err ToolSessionClosed
             | None => Err ToolSessionClosed
             end
         | None => if negb (e_slot e) || negb (e_owner_slot e) then Err Busy else Ok None
         end);
      _ ← modify (update_run rid (set_started (match connection with None => RConnecting | Some _ => Running end)
                                    (e_now e) (e_unix_ms e)));
      mret (Some (mkWorker target (g_label grant) sub
                    (with_env (sb_command sub) (sb_cwd sub) (sb_env sub)) (r_cancel run) deadline connection)).

(** after a trusted run could not be started *)
Definition fail_start (e : Env) (rid : bytes) (error : ToolError) (b : Broker) : Broker :=
  update_run rid (fun r => if finished r then r else finish (e_now e) RFailed (Some error) r) b.

(** ** The thread of a run *)

(** where the thread is; [PEnd]: the result, and whether it had a connection *)
Inductive Phase :=
| PRecord
| PConnect
| PExec (conn : N)
| PLoop (conn : N)
| PEnd (res : result ToolError unit) (conn : option N)
| PDone.

Definition worker_record (e : Env) (rid : bytes) (outcome : result ToolError bool) (b : Broker)
    : Broker * Phase :=
  match outcome with
  | Err error => (update_run rid (fun r => set_worker false (finish (e_now e) RFailed (Some error) r)) b, PDone)
  | Ok recorded =>
      let b := if recorded then with_recorded b else b in
      (update_run rid (set_recording recorded) b, PConnect)
  end.

(** [Broker::connect]: a failure raises the flag *)
Definition worker_connect (w : Worker) (outcome : result ToolError N) (b : Broker) : Broker * Phase :=
  match w_conn w with
  | Some c => (b, PExec c)
  | None =>
      match outcome with
      | Ok c => (b, PExec c)
      | Err error => (cancel (w_stop w) b, PEnd (Err error) None)
      end
  end.

(** Under the admission gate: the command is handed to the connection, if it still may.
    The answer says whether it was. *)
Definition worker_exec (e : Env) (rid : bytes) (w : Worker) (conn : N) (outcome : result ToolError unit)
    (b : Broker) : Broker * Phase * bool :=
  if cancelled b (w_stop w) || (w_deadline w <=? e_now e) then (b, PEnd (Err GrantExpired) (Some conn), false)
  else
    let b := update_run rid (set_run_state Running) b in
    match outcome with
    | Ok _ => (b, PLoop conn, true)
    | Err error => (b, PEnd (Err error) (Some conn), true)
    end.

Definition worker_poll (e : Env) (rid : bytes) (w : Worker) (conn : N) (valid : bool) (b : Broker) : Phase :=
  if cancelled b (w_stop w) || (w_deadline w <=? e_now e) || negb valid
  then PEnd (Err OutcomeUnknown) (Some conn)
  else match runs (b_state b) !! rid with
       | Some r => if finished r then PEnd (Ok tt) (Some conn) else PLoop conn
       | None => PEnd (Ok tt) (Some conn)
       end.

Definition touch_session (now : N) (s : Session) : Session :=
  mkSession (s_created_unix_ms s) (s_connected_at s) (s_connected_unix_ms s) (s_owner s) (s_epoch s)
    (s_target s) (s_request_key s) (s_state s) (s_error s) (s_cancel s) (s_connection s) now (s_expires_at s).

Definition worker_end (e : Env) (rid : bytes) (w : Worker) (res : result ToolError unit) (conn : option N)
    (b : Broker) : Broker :=
  match runs (b_state b) !! rid with
  | None => b
  | Some run =>
      let stopped := cancelled b (w_stop w) in
      let run' :=
        if finished run then run
        else finish (e_now e)
               (if stopped && (bool_decide (is_Some conn) || bool_decide (r_state run = Cancelling))
                then Cancelled else RFailed)
               (Some (match res with Err error => error | Ok _ => OutcomeUnknown end)) run in
      let b := update_run rid (fun _ => set_worker false run') b in
      match sb_session (r_sub run) with
      | Some sid => update_session sid (touch_session (e_now e)) b
      | None => b
      end
  end.

(** ** The thread that connects a session *)

Definition ready_session (e : Env) (conn : N) (s : Session) : Session :=
  mkSession (s_created_unix_ms s) (Some (e_now e)) (Some (e_unix_ms e)) (s_owner s) (s_epoch s)
    (s_target s) (s_request_key s) SReady (s_error s) (s_cancel s) (Some conn) (e_now e) (s_expires_at s).

Definition fail_session (error : ToolError) (s : Session) : Session :=
  mkSession (s_created_unix_ms s) (s_connected_at s) (s_connected_unix_ms s) (s_owner s) (s_epoch s)
    (s_target s) (s_request_key s) SClosed (Some error) (s_cancel s) (s_connection s) (s_idle s) (s_expires_at s).

Definition session_opened (e : Env) (o : Opener) (outcome : result ToolError N) (b : Broker) : Broker :=
  let b := match outcome with Err _ => cancel (o_stop o) b | Ok _ => b end in
  match sessions (b_state b) !! o_session o with
  | Some s =>
      if negb (bool_decide (s_state s = SConnecting)) then b
      else
        match outcome with
        | Ok c =>
            if negb (cancelled b (s_cancel s)) then update_session (o_session o) (ready_session e c) b
            else update_session (o_session o) (fail_session GrantExpired) b
        | Err error => update_session (o_session o) (fail_session error) b
        end
  | None => b
  end.

(** ** [RunSink] *)

Definition live_run (b : Broker) (rid : bytes) : option Run :=
  r ← runs (b_state b) !! rid;
  if negb (cancelled b (r_cancel r)) && negb (finished r) then Some r else None.

Definition sink_data (e : Env) (rid : bytes) (stderr : bool) (data : bytes) (b : Broker) : Broker :=
  let total := output_total_bytes (b_limits b) in
  match live_run b rid with
  | None => b
  | Some r =>
      match grants (b_state b) !! r_owner r with
      | Some g =>
          if negb (bytes_eqb (g_epoch g) (r_epoch r)) || expired_at (e_now e) (g_until g) then b
          else
            let wanted := N.min (output_per_run_bytes (g_limits g) - r_bytes r) (len data) in
            let '(remaining, s) := output_room (r_owner r) wanted total (b_state b) in
            let b := with_state (fun _ => s) b in
            match live_run b rid with
            | None => b
            | Some r =>
                let kept := N.min wanted remaining in
                let '(saved, o) := push (r_output r) stderr (take (N.to_nat kept) data) in
                let saved := N.of_nat saved in
                with_state (fun s => set_retained (retained_bytes s + saved) s)
                  (update_run rid (fun _ => set_output o (r_bytes r + saved)
                                     (r_truncated r || (saved <? len data)) r) b)
            end
      | None => b
      end
  end.

Definition sink_exited (e : Env) (rid : bytes) (code : option N) (b : Broker) : Broker :=
  match live_run b rid with
  | None => b
  | Some _ =>
      update_run rid (fun r =>
        match code with
        | Some _ => finish (e_now e) Completed None (set_exit_code code r)
        | None => finish (e_now e) RFailed (Some OutcomeUnknown) (set_exit_code code r)
        end) b
  end.
