(* ===== verification/BrokerInv.v ===== *)
(** * Runs of the automation broker

    A [System] is the broker with the threads it started and a log of what matters to
    the user: grants, submissions, approvals, and every command handed to a connection.
    Its steps are the sections of [Broker]; any sequence of [BrokerEvent]s is a run, so
    every interleaving of requests, native calls, sweeps, threads and output is covered.
    Random identifiers do not repeat: an event that would reuse one is no step. *)

From Stdlib Require Import Strings.Byte NArith ZArith Lia.
From stdpp Require Import base gmap sets list strings sorting countable.
From S2P Require Import Prelude Bytes Storage AutoOutput AutoText BrokerState Broker.

Local Open Scope N_scope.

(** ** The system *)

Inductive LogEntry :=
| LGranted (owner : bytes) (g : Grant)
| LRestored (owner : bytes) (g : Grant)
| LSubmitted (rid : bytes) (sub : Submission)
| LApproved (rid : bytes)
(* a command handed to a connection, at a time, by a thread started with this grant *)
| LExec (rid : bytes) (target : Target) (command : bytes) (stdin : option bytes) (now : N)
| LSuspended
| LForgot (owner : option bytes).

Record System := mkSystem {
  sy_broker : Broker;
  sy_workers : gmap bytes (Worker * Phase);
  sy_openers : gmap bytes Opener;
  sy_used : gset bytes;
  sy_log : list LogEntry
}.

Definition new_system : System := mkSystem new_broker ∅ ∅ ∅ [].

Inductive BrokerEvent :=
| EGrant (e : Env) (owner label : bytes) (targets : list (bytes * bytes)) (seconds : option N)
    (ticket : Ticket) (mode : ApprovalMode) (max_timeout_ms : N) (limits : GrantLimits)
| ERevoke (owner : option bytes)
| EForget (e : Env) (owner : option bytes)
| ESuspend
| EResume (epoch : N)
| ESetLimits (limits : BrokerLimits)
| ESetManual (available : bool)
| ERevokeExpired (e : Env) (owner epoch : bytes)
| ERestore (e : Env)
| ESweepRecords (e : Env) (invalid : list (bytes * N))
| ERequest (e : Env) (owner : bytes) (req : ToolRequest)
| EStart (e : Env) (rid : bytes) (allowed : bool) (mode : ApprovalMode)
| EFailStart (e : Env) (rid : bytes) (error : ToolError)
| EUnavailable (e : Env) (rid : bytes)
| EOpened (e : Env) (sid : bytes) (outcome : result ToolError N)
| EWRecord (e : Env) (rid : bytes) (outcome : result ToolError bool)
| EWConnect (rid : bytes) (outcome : result ToolError N)
| EWExec (e : Env) (rid : bytes) (outcome : result ToolError unit)
| EWPoll (e : Env) (rid : bytes) (valid : bool)
| EWEnd (e : Env) (rid : bytes)
| EData (e : Env) (rid : bytes) (stderr : bool) (data : bytes)
| EExited (e : Env) (rid : bytes) (code : option N).

Definition on_broker (b : Broker) (st : System) : System :=
  mkSystem b (sy_workers st) (sy_openers st) (sy_used st) (sy_log st).
Definition log (l : list LogEntry) (st : System) : System :=
  mkSystem (sy_broker st) (sy_workers st) (sy_openers st) (sy_used st) (sy_log st ++ l).
Definition set_phase (rid : bytes) (w : Worker) (p : Phase) (st : System) : System :=
  mkSystem (sy_broker st) (<[rid := (w, p)]> (sy_workers st)) (sy_openers st) (sy_used st) (sy_log st).

(** the grants of [after] that were not there before *)
Definition new_grants (before after : gmap bytes Grant) : list (bytes * Grant) :=
  filter (fun g => before !! g.1 = None) (map_to_list after).

Definition request_step (st : System) (e : Env) (owner : bytes) (req : ToolRequest) : System :=
  if bool_decide (e_id e 0 ∈ sy_used st) then st
  else
    let '(r, b) := request_locked e owner req (sy_broker st) in
    let st := on_broker b st in
    match r with
    | Ok (Submitted rid _) =>
        let st := mkSystem b (sy_workers st) (sy_openers st) ({[rid]} ∪ sy_used st) (sy_log st) in
        match runs (b_state b) !! rid with
        | Some run => log [LSubmitted rid (r_sub run)] st
        | None => st
        end
    | Ok (Opening o _) =>
        mkSystem b (sy_workers st) (<[o_session o := o]> (sy_openers st)) ({[o_session o]} ∪ sy_used st) (sy_log st)
    | _ => st
    end.

(** a step of the thread of a run *)
Definition worker_step (st : System) (rid : bytes)
    (f : Worker -> Phase -> option (Broker * Phase * list LogEntry)) : System :=
  match sy_workers st !! rid with
  | Some (w, p) =>
      match f w p with
      | Some (b, p', l) => log l (set_phase rid w p' (on_broker b st))
      | None => st
      end
  | None => st
  end.

Definition sys_step (st : System) (ev : BrokerEvent) : System :=
  let b := sy_broker st in
  match ev with
  | EGrant e owner label targets seconds ticket mode max_timeout limits =>
      match grant_with_limits e owner label targets seconds ticket mode max_timeout limits b with
      | (Ok _, b') =>
          let st := on_broker b' st in
          match grants (b_state b') !! owner with
          | Some g => log [LGranted owner g] st
          | None => st
          end
      | (Err _, b') => on_broker b' st
      end
  | ERevoke owner => on_broker (revoke owner b) st
  | EForget e owner =>
      match forget_access e owner b with
      | (Ok _, b') => log [LForgot owner] (on_broker b' st)
      | (Err _, b') => on_broker b' st
      end
  | ESuspend => log [LSuspended] (on_broker (suspend b) st)
  | EResume epoch => on_broker (resume_if_current epoch b) st
  | ESetLimits limits => on_broker (set_limits limits b).2 st
  | ESetManual available => on_broker (set_manual_approval_available available b) st
  | ERevokeExpired e owner epoch => on_broker (revoke_expired e owner epoch b) st
  | ERestore e =>
      let b' := restore_access e b in
      log ((fun g => LRestored g.1 g.2) <$> new_grants (grants (b_state b)) (grants (b_state b')))
        (on_broker b' st)
  | ESweepRecords e invalid => on_broker (sweep_records e invalid b) st
  | ERequest e owner req => request_step st e owner req
  | EStart e rid allowed mode =>
      match start_run e rid allowed mode b with
      | (Ok (Some w), b') =>
          log (match mode with Manual => [LApproved rid] | Trusted => [] end)
            (set_phase rid w PRecord (on_broker b' st))
      | (_, b') => on_broker b' st
      end
  | EFailStart e rid error => on_broker (fail_start e rid error b) st
  | EUnavailable e rid => on_broker (approval_unavailable e rid b).2 st
  | EOpened e sid outcome =>
      match sy_openers st !! sid with
      | Some o => mkSystem (session_opened e o outcome b) (sy_workers st) (delete sid (sy_openers st))
                    (sy_used st) (sy_log st)
      | None => st
      end
  | EWRecord e rid outcome =>
      worker_step st rid (fun w p =>
        match p with
        | PRecord => let '(b', p') := worker_record e rid outcome b in Some (b', p', [])
        | _ => None
        end)
  | EWConnect rid outcome =>
      worker_step st rid (fun w p =>
        match p with
        | PConnect => let '(b', p') := worker_connect w outcome b in Some (b', p', [])
        | _ => None
        end)
  | EWExec e rid outcome =>
      worker_step st rid (fun w p =>
        match p with
        | PExec conn =>
            let '(b', p', sent) := worker_exec e rid w conn outcome b in
            Some (b', p', if sent : bool
                          then [LExec rid (w_target w) (w_command w) (sb_stdin (w_sub w)) (e_now e)] else [])
        | _ => None
        end)
  | EWPoll e rid valid =>
      worker_step st rid (fun w p =>
        match p with
        | PLoop conn => Some (b, worker_poll e rid w conn valid b, [])
        | _ => None
        end)
  | EWEnd e rid =>
      worker_step st rid (fun w p =>
        match p with
        | PEnd res conn => Some (worker_end e rid w res conn b, PDone, [])
        | _ => None
        end)
  | EData e rid stderr data => on_broker (sink_data e rid stderr data b) st
  | EExited e rid code => on_broker (sink_exited e rid code b) st
  end.

Definition run_broker (st : System) (evs : list BrokerEvent) : System := foldl sys_step st evs.

(** ** The output counter *)

(** the counter is the sum *)
Definition counted (s : State) : Prop := retained_bytes s = sum_bytes (runs s).

Lemma sum_bytes_alt m : sum_bytes m = map_fold (fun _ => N.add) 0 (r_bytes <$> m).
Proof. unfold sum_bytes. by rewrite map_fold_fmap. Qed.

Lemma sum_bytes_ext m m' : r_bytes <$> m' = r_bytes <$> m -> sum_bytes m' = sum_bytes m.
Proof. intros E. by rewrite !sum_bytes_alt, E. Qed.

Lemma sum_bytes_insert k r m : m !! k = None -> sum_bytes (<[k := r]> m) = r_bytes r + sum_bytes m.
Proof. intros Hk. unfold sum_bytes. apply (map_fold_insert_L (fun _ r n => r_bytes r + n)); [intros; lia|done]. Qed.

Lemma sum_bytes_delete k r m : m !! k = Some r -> sum_bytes m = r_bytes r + sum_bytes (delete k m).
Proof. intros Hk. unfold sum_bytes. apply (map_fold_delete_L (fun _ r n => r_bytes r + n)); [intros; lia|done]. Qed.

Lemma sum_bytes_alter f k r m :
  m !! k = Some r -> sum_bytes (alter f k m) + r_bytes r = sum_bytes m + r_bytes (f r).
Proof.
  intros Hk. assert (Ha : alter f k m !! k = Some (f r)) by by rewrite lookup_alter_eq, Hk.
  rewrite (sum_bytes_delete k (f r) _ Ha), (sum_bytes_delete k r m Hk), delete_alter_eq. lia.
Qed.

Lemma counted_remove_run id s : counted s -> counted (remove_run id s).
Proof.
  unfold counted, remove_run. intros E. destruct (runs s !! id) as [r|] eqn:Hr; [|done]. cbn.
  rewrite E, (sum_bytes_delete id r _ Hr). lia.
Qed.

Lemma counted_remove_runs ids s : counted s -> counted (remove_runs ids s).
Proof. unfold remove_runs. revert s. induction ids as [|id ids IH]; intros s E; [done|]. by apply IH, counted_remove_run. Qed.

(** ** Eviction removes finished records without a thread, and nothing else *)

Lemma elem_of_evictable s owner out id :
  id ∈ evictable s owner out ->
  exists r, runs s !! id = Some r /\ r_worker r = false /\ finished r = true /\ (out = true -> 0 < r_bytes r).
Proof.
  unfold evictable. intros Hin. apply list_elem_of_fmap in Hin as ([[f t] i] & -> & Hin). cbn [snd].
  rewrite stable_sort_perm in Hin. apply list_elem_of_omap in Hin as ([k r] & Hin & Hk).
  apply list_elem_of_filter in Hin as [Hc Hin%elem_of_entries]. unfold evict_key in Hk. cbn in Hk, Hc.
  destruct (r_finished_at r) as [t'|] eqn:Ef; [|done]. injection Hk as _ _ ->.
  apply andb_prop in Hc as [Hw Ho]. exists r. split_and!; [done|by destruct (r_worker r)| |].
  - unfold finished. rewrite Ef. by apply bool_decide_eq_true_2.
  - intros ->. by apply N.ltb_lt.
Qed.

Lemma remove_runs_spec ids s :
  grants (remove_runs ids s) = grants s /\ sessions (remove_runs ids s) = sessions s /\
  forall k, runs (remove_runs ids s) !! k = if bool_decide (k ∈ ids) then None else runs s !! k.
Proof.
  unfold remove_runs. revert s. induction ids as [|id ids IH]; intros s; cbn [foldl].
  { split_and!; [done..|]. intros k. done. }
  destruct (IH (remove_run id s)) as (H1 & H2 & H3).
  assert (Hr : grants (remove_run id s) = grants s /\ sessions (remove_run id s) = sessions s /\
               runs (remove_run id s) = delete id (runs s)).
  { unfold remove_run. destruct (runs s !! id) eqn:E; [done|]. by rewrite delete_id. }
  destruct Hr as (G1 & G2 & G3). rewrite H1, H2, G1, G2. split_and!; [done..|].
  intros k. rewrite H3, G3. case_bool_decide as Hk.
  - by rewrite bool_decide_eq_true_2 by set_solver.
  - destruct (decide (k = id)) as [->|Hne].
    + rewrite bool_decide_eq_true_2 by set_solver. by rewrite lookup_delete_eq.
    + rewrite bool_decide_eq_false_2 by set_solver. by rewrite lookup_delete_ne.
Qed.

Lemma evict_until_spec enough ids s : exists n, evict_until enough ids s = remove_runs (take n ids) s.
Proof.
  revert s. induction ids as [|id ids IH]; intros s; simpl; [by exists 0%nat|].
  destruct (enough s); [by exists 0%nat|]. destruct (IH (remove_run id s)) as [n ->]. by exists (S n).
Qed.

(** a state that lost only finished records without a thread *)
Definition evicted (s s' : State) : Prop :=
  grants s' = grants s /\ sessions s' = sessions s /\ (counted s -> counted s') /\
  forall k, runs s' !! k = runs s !! k \/
    (runs s' !! k = None /\ exists r, runs s !! k = Some r /\ r_worker r = false /\ finished r = true).

Lemma evicted_refl s : evicted s s.
Proof. split_and!; [done..|]. by left. Qed.

Lemma evicted_trans s1 s2 s3 : evicted s1 s2 -> evicted s2 s3 -> evicted s1 s3.
Proof.
  intros (G1 & S1 & C1 & R1) (G2 & S2 & C2 & R2). split_and!; [congruence..|auto|]. intros k.
  destruct (R2 k) as [H2|[H2 (r & Hr & Hw & Hf)]].
  - destruct (R1 k) as [H1|[H1 Hr]]; [left; congruence|right]. split; [congruence|done].
  - destruct (R1 k) as [H1|[H1 _]]; [|congruence]. right. split; [done|]. exists r. split_and!; congruence.
Qed.

Lemma evicted_remove_runs s owner out n : evicted s (remove_runs (take n (evictable s owner out)) s).
Proof.
  destruct (remove_runs_spec (take n (evictable s owner out)) s) as (H1 & H2 & H3).
  split_and!; [done..|apply counted_remove_runs|]. intros k. rewrite H3. case_bool_decide as Hk; [|by left].
  right. split; [done|].
  assert (Hin : k ∈ evictable s owner out).
  { rewrite <-(take_drop n (evictable s owner out)). apply elem_of_app. by left. }
  apply elem_of_evictable in Hin as (r & ? & ? & ? & _). eauto.
Qed.

Lemma evicted_admit_run owner per total s : evicted s (admit_run owner per total s).2.
Proof.
  unfold admit_run. cbv zeta. destruct (_ || _); [apply evicted_refl|]. apply evicted_remove_runs.
Qed.

Lemma evicted_until s owner out enough : evicted s (evict_until enough (evictable s owner out) s).
Proof. destruct (evict_until_spec enough (evictable s owner out) s) as [n ->]. apply evicted_remove_runs. Qed.

Lemma evicted_trim l s : evicted s (trim l s).
Proof. unfold trim. cbv zeta. eapply evicted_trans; [apply evicted_remove_runs|apply evicted_until]. Qed.

Lemma evicted_output_room owner needed total s : evicted s (output_room owner needed total s).2.
Proof. apply evicted_until. Qed.

Lemma admit_session_spec owner retained s :
  grants (admit_session owner retained s).2 = grants s /\ runs (admit_session owner retained s).2 = runs s /\
  retained_bytes (admit_session owner retained s).2 = retained_bytes s /\
  forall k x, sessions (admit_session owner retained s).2 !! k = Some x -> sessions s !! k = Some x.
Proof.
  unfold admit_session. cbv zeta. destruct (_ <? _)%nat; [done|]. cbn. split_and!; [done..|].
  generalize (snd <$> take (size (filter (λ e : bytes * Session, s_owner e.2 = owner) (sessions s)) + 1 -
                 N.to_nat retained) (stable_sort closed_leb
                 ((fun e : bytes * Session => (s_created_unix_ms e.2, e.1)) <$>
                  filter (fun e => s_owner e.2 = owner /\ s_state e.2 = SClosed) (entries (sessions s))))).
  intros gone. induction gone as [|id gone IH] using rev_ind; intros k x; [done|].
  rewrite foldl_snoc. intros [_ H]%lookup_delete_Some. by apply IH.
Qed.

(** ** Flags *)

Lemma cancelled_cancel b c x : cancelled (cancel c b) x = bool_decide (x = c) || cancelled b x.
Proof.
  unfold cancelled, cancel, with_flags. simpl. destruct (decide (x = c)) as [->|Hne].
  - rewrite lookup_insert_eq, bool_decide_eq_true_2 by done. done.
  - rewrite lookup_insert_ne, bool_decide_eq_false_2 by done. done.
Qed.

Lemma cancelled_all b cs x : cancelled (cancel_all cs b) x = bool_decide (x ∈ cs) || cancelled b x.
Proof.
  unfold cancel_all. revert b. induction cs as [|c cs IH]; intros b; simpl.
  { done. }
  rewrite IH, cancelled_cancel, orb_assoc. f_equal. rewrite <-bool_decide_or.
  apply bool_decide_ext. set_solver.
Qed.

(** raising flags changes nothing else *)
Lemma cancel_all_rest cs b :
  let b' := cancel_all cs b in
  b_state b' = b_state b /\ b_limits b' = b_limits b /\ b_revocation_epoch b' = b_revocation_epoch b /\
  b_suspended b' = b_suspended b /\ b_manual_approval b' = b_manual_approval b /\
  b_access_revision b' = b_access_revision b /\ b_saved b' = b_saved b /\ b_next_flag b' = b_next_flag b.
Proof.
  unfold cancel_all. revert b. induction cs as [|c cs IH]; intros b; simpl; [done|].
  destruct (IH (cancel c b)) as (H1 & H2 & H3 & H4 & H5 & H6 & H7 & H8).
  rewrite H1, H2, H3, H4, H5, H6, H7, H8. done.
Qed.

(** ** What most steps keep *)

Definition started (r : Run) : Prop := r_state r <> AwaitingApproval /\ r_state r <> Queued.

(** a run does not go back to waiting, stays finished, and keeps no more output, or no
    more than the limit *)
Definition onward (limit : N) (r r' : Run) : Prop :=
  (started r -> started r') /\ (finished r = true -> finished r' = true) /\ r_bytes r' <= N.max (r_bytes r) limit.

Lemma onward_refl limit r : onward limit r r.
Proof. split_and!; [done..|lia]. Qed.
#[export] Hint Resolve onward_refl : core.

Lemma onward_trans limit r1 r2 r3 : onward limit r1 r2 -> onward limit r2 r3 -> onward limit r1 r3.
Proof. intros (? & ? & ?) (? & ? & ?). split_and!; [auto..|lia]. Qed.

(** the same, with as much output *)
Definition steady (r r' : Run) : Prop :=
  (started r -> started r') /\ (finished r = true -> finished r' = true) /\ r_bytes r' = r_bytes r.

Lemma steady_refl r : steady r r.
Proof. done. Qed.
#[export] Hint Resolve steady_refl : core.

Lemma onward_steady limit r r' : steady r r' -> onward limit r r'.
Proof. intros (? & ? & ?). split_and!; [done..|lia]. Qed.

(** the output limit of a run *)
Definition per_run (b : Broker) (r : Run) : N :=
  from_option (fun g => output_per_run_bytes (g_limits g)) 0 (grants (b_state b) !! r_owner r).

(** an update that keeps what was submitted, the flag and the thread, and does not put
    a run back to waiting *)
Definition mild (f : Run -> Run) : Prop :=
  forall r, r_sub (f r) = r_sub r /\ r_cancel (f r) = r_cancel r /\ r_worker (f r) = r_worker r /\
            steady r (f r).

(** No grant changes, runs lose at most finished records, flags are only raised. The
    thread of the run [ex] may have ended or started. *)
Record keeps (ex : option bytes) (b b' : Broker) : Prop := mkKeeps {
  k_grants : grants (b_state b') = grants (b_state b);
  k_saved : b_saved b' = b_saved b;
  k_suspended : b_suspended b' = b_suspended b;
  k_next : b_next_flag b <= b_next_flag b';
  k_flags : forall c, c < b_next_flag b -> cancelled b' c = false -> cancelled b c = false;
  k_runs : forall k r', runs (b_state b') !! k = Some r' ->
    exists r, runs (b_state b) !! k = Some r /\ r_sub r' = r_sub r /\ r_cancel r' = r_cancel r /\
      (ex <> Some k -> r_worker r' = r_worker r) /\ onward (per_run b r) r r';
  k_workers : forall k r, ex <> Some k -> runs (b_state b) !! k = Some r -> r_worker r = true -> is_Some (runs (b_state b') !! k);
  k_counted : counted (b_state b) -> counted (b_state b')
}.

Lemma keeps_weaken ex b b' : keeps None b b' -> keeps ex b b'.
Proof.
  intros [G V U N F R W C]. split; try done.
  - intros k r' Hr. destruct (R k r' Hr) as (r & ? & ? & ? & ? & ?). exists r. split_and!; auto.
  - intros k r _. by apply W.
Qed.

Lemma keeps_refl ex b : keeps ex b b.
Proof. split; [done..|lia|done| |eauto|done]. intros k r' Hr. exists r'. auto. Qed.

Lemma keeps_trans ex b1 b2 b3 : keeps ex b1 b2 -> keeps ex b2 b3 -> keeps ex b1 b3.
Proof.
  intros [G1 V1 U1 N1 F1 R1 W1 C1] [G2 V2 U2 N2 F2 R2 W2 C2]. split; [congruence..|lia| | | |auto].
  - intros c Hc H. apply F1; [done|]. apply F2; [lia|done].
  - intros k r3 H3. destruct (R2 k r3 H3) as (r2 & H2 & Hs2 & Hc2 & Hw2 & Ht2).
    destruct (R1 k r2 H2) as (r1 & H1 & Hs1 & Hc1 & Hw1 & Ht1). exists r1.
    split; [done|]. split; [congruence|]. split; [congruence|].
    assert (El : per_run b2 r2 = per_run b1 r1) by (unfold per_run, r_owner; by rewrite G1, Hs1).
    rewrite El in Ht2. split; [|by eapply onward_trans].
    intros Hne. rewrite Hw2 by done. auto.
  - intros k r1 Hne H1 Hw. destruct (W1 k r1 Hne H1 Hw) as [r2 H2]. eapply W2; [done..|].
    destruct (R1 k r2 H2) as (r & Hr & _ & _ & Hw2 & _). rewrite Hw2 by done. congruence.
Qed.

(** a step that only touches other fields *)
Lemma keeps_same b b' :
  b_state b' = b_state b -> b_saved b' = b_saved b -> b_suspended b' = b_suspended b ->
  b_next_flag b' = b_next_flag b -> (forall c, cancelled b' c = false -> cancelled b c = false) -> keeps None b b'.
Proof.
  intros Es Ev Eu En Ef. split; rewrite ?Es, ?En; [done..|lia|auto| |eauto|done]. intros k r' Hr. exists r'. auto.
Qed.

Lemma keeps_cancel_all cs b : keeps None b (cancel_all cs b).
Proof.
  destruct (cancel_all_rest cs b) as (? & _ & _ & ? & _ & _ & ? & ?). apply keeps_same; try done.
  intros c. rewrite cancelled_all. by intros [_ ?]%orb_false_elim.
Qed.

Lemma keeps_cancel c b : keeps None b (cancel c b).
Proof. apply (keeps_cancel_all [c] b). Qed.

(** a step of the state alone *)
Lemma keeps_state ex (f : State -> State) b :
  grants (f (b_state b)) = grants (b_state b) ->
  (forall k r', runs (f (b_state b)) !! k = Some r' ->
    exists r, runs (b_state b) !! k = Some r /\ r_sub r' = r_sub r /\ r_cancel r' = r_cancel r /\
      (ex <> Some k -> r_worker r' = r_worker r) /\ onward (per_run b r) r r') ->
  (forall k r, ex <> Some k -> runs (b_state b) !! k = Some r -> r_worker r = true ->
     is_Some (runs (f (b_state b)) !! k)) ->
  (counted (b_state b) -> counted (f (b_state b))) ->
  keeps ex b (with_state f b).
Proof. intros Hg Hr Hw Hc. split; done. Qed.

Lemma keeps_evicted (f : State -> State) b : evicted (b_state b) (f (b_state b)) -> keeps None b (with_state f b).
Proof.
  intros (Hg & _ & Hc & Hr). apply keeps_state; [done| | |done].
  - intros k r' H. exists r'. destruct (Hr k) as [E|[E _]]; [rewrite <-E; auto|congruence].
  - intros k r _ H Hw. destruct (Hr k) as [E|[E (r' & H' & Hw' & _)]]; [rewrite E; eauto|congruence].
Qed.

(** an update of runs that leaves the records of the state where they are *)
Lemma keeps_mild (f : State -> State) b :
  grants (f (b_state b)) = grants (b_state b) ->
  (forall k, match runs (b_state b) !! k, runs (f (b_state b)) !! k with
             | Some r, Some r' => r_sub r' = r_sub r /\ r_cancel r' = r_cancel r /\ r_worker r' = r_worker r /\
                                  steady r r'
             | None, None => True
             | _, _ => False
             end) ->
  retained_bytes (f (b_state b)) = retained_bytes (b_state b) \/
  retained_bytes (f (b_state b)) = sum_bytes (runs (f (b_state b))) ->
  keeps None b (with_state f b).
Proof.
  intros Hg Hm Hret. apply keeps_state; [done| | |].
  - intros k r' Hr. specialize (Hm k). rewrite Hr in Hm. destruct (runs (b_state b) !! k) as [r|]; [|done].
    exists r. destruct Hm as (? & ? & ? & ?). do 4 (split; [done|]). by apply onward_steady.
  - intros k r _ Hr _. specialize (Hm k). rewrite Hr in Hm. destruct (runs _ !! k); [eauto|done].
  - intros Hc. destruct Hret as [E|E]; [|exact E]. unfold counted. rewrite E, Hc. symmetry.
    apply sum_bytes_ext, map_eq. intros k. rewrite !lookup_fmap. specialize (Hm k).
    destruct (runs (b_state b) !! k), (runs (f (b_state b)) !! k); try done. cbn. f_equal. apply Hm.
Qed.

Lemma mild_match f m k (Hf : mild f) :
  match m !! k, (alter f k m : gmap bytes Run) !! k with
  | Some r, Some r' => r_sub r' = r_sub r /\ r_cancel r' = r_cancel r /\ r_worker r' = r_worker r /\
                       steady r r'
  | None, None => True
  | _, _ => False
  end.
Proof. rewrite lookup_alter_eq. destruct (m !! k) as [r|]; simpl; [apply Hf|done]. Qed.

Lemma keeps_update_run id f b : mild f -> keeps None b (update_run id f b).
Proof.
  intros Hf. apply keeps_mild; [done| |by left]. intros k. cbn. destruct (decide (k = id)) as [->|Hne].
  - by apply mild_match.
  - rewrite lookup_alter_ne by done. destruct (runs (b_state b) !! k); auto.
Qed.

(** the same, for one run with a known record *)
Lemma keeps_replace ex rid f r b :
  runs (b_state b) !! rid = Some r -> r_sub (f r) = r_sub r -> r_cancel (f r) = r_cancel r ->
  (ex <> Some rid -> r_worker (f r) = r_worker r) -> steady r (f r) ->
  keeps ex b (update_run rid f b).
Proof.
  intros Hr Hs Hc Hw Ht. apply keeps_state; [done| | |].
  - intros k r0. cbn. intros [(<- & r1 & H1 & ->)|[Hne H]]%lookup_alter_Some; [|eauto 10].
    assert (r1 = r) as -> by congruence. exists r. do 4 (split; [done|]). by apply onward_steady.
  - intros k r0 _ H _. cbn. destruct (decide (k = rid)) as [->|Hne].
    + rewrite lookup_alter_eq, Hr. eauto.
    + rewrite lookup_alter_ne by done. eauto.
  - unfold counted. cbn. intros E. pose proof (sum_bytes_alter f rid r _ Hr). destruct Ht as (_ & _ & Hb). lia.
Qed.

Lemma keeps_sessions f b : keeps None b (with_state (set_sessions f) b).
Proof. apply keeps_mild; [done| |by left]. intros k. cbn. destruct (runs (b_state b) !! k); auto. Qed.

Ltac mild_same := intros ?; do 3 (split; [done|]); done.

Lemma mild_finish now s e : s <> AwaitingApproval -> s <> Queued -> mild (finish now s e).
Proof. intros H1 H2. mild_same. Qed.

Lemma mild_if (f g : Run -> Run) (p : Run -> bool) : mild f -> mild g -> mild (fun r => if p r then f r else g r).
Proof. intros Hf Hg r. destruct (p r); [apply Hf|apply Hg]. Qed.

Lemma mild_id : mild (fun r => r).
Proof. mild_same. Qed.

Lemma mild_state s : s <> AwaitingApproval -> s <> Queued -> mild (set_run_state s).
Proof. intros H1 H2. mild_same. Qed.

Create HintDb broker.
#[export] Hint Resolve keeps_refl keeps_cancel keeps_cancel_all keeps_update_run keeps_sessions
  mild_finish mild_if mild_id mild_state : broker.
#[export] Hint Extern 1 (_ <> _) => discriminate : broker.
#[export] Hint Extern 2 (mild _) => mild_same : broker.

(** ** Operations that keep grants and threads *)

(** one step of a computation whose answer is known *)
Ltac mstep H :=
  unfold mbind, M_bind, get_state, modify, lift_result, throw, mret, M_ret in H; cbn beta iota zeta in H.

Lemma keeps_new_flag b : keeps None b (with_new_flag b).
Proof.
  split; [done|done|done|cbn; lia| | |eauto|done].
  - intros c Hc. unfold cancelled. cbn. by rewrite lookup_insert_ne by lia.
  - intros k r' Hr. exists r'. auto.
Qed.

Lemma keeps_set_limits l b : keeps None b (set_limits l b).2.
Proof.
  unfold set_limits. destruct (negb _); [apply keeps_refl|].
  eapply keeps_trans; [apply (keeps_same b (with_limits l b)); done|]. apply keeps_evicted, evicted_trim.
Qed.

Lemma keeps_sweep_records e invalid b : keeps None b (sweep_records e invalid b).
Proof.
  unfold sweep_records. eapply keeps_trans; [apply keeps_cancel_all|]. apply keeps_mild; [done| |by right].
  intros k. cbn. destruct (cancel_all_rest (swept_flags (sessions (b_state b))
    (map_imap (fun sid x => Some (sweep_session (e_now e) (session_active (expire_approval (e_now e) <$> runs (b_state b)))
       invalid sid x)) (sessions (b_state b)))) b) as [-> _].
  rewrite lookup_fmap. destruct (runs (b_state b) !! k) as [r|]; simpl; [|done].
  unfold expire_approval. destruct (_ && _); do 3 (split; [done|]); done.
Qed.

Lemma keeps_fail_start e rid error b : keeps None b (fail_start e rid error b).
Proof. apply keeps_update_run. apply mild_if; auto with broker. Qed.

Lemma keeps_unavailable e rid b : keeps None b (approval_unavailable e rid b).2.
Proof.
  unfold approval_unavailable, mbind, M_bind, get_state. destruct (runs (b_state b) !! rid); [|apply keeps_refl].
  destruct (awaiting _ _ _); [|apply keeps_refl]. apply keeps_update_run. auto with broker.
Qed.

Lemma keeps_session_opened e o outcome b : keeps None b (session_opened e o outcome b).
Proof.
  unfold session_opened. cbv zeta. set (b1 := match outcome with Ok _ => b | Err _ => cancel (o_stop o) b end).
  apply (keeps_trans None b b1); [unfold b1; destruct outcome; auto with broker|].
  repeat case_match; first [apply keeps_refl|apply keeps_sessions].
Qed.

Lemma live_run_Some b rid r :
  live_run b rid = Some r -> runs (b_state b) !! rid = Some r /\ cancelled b (r_cancel r) = false /\ finished r = false.
Proof.
  unfold live_run. intros (r0 & Hr & E)%bind_Some. destruct (cancelled b (r_cancel r0)) eqn:Ec; [done|].
  destruct (finished r0) eqn:Ef; [done|]. cbn in E. by injection E as ->.
Qed.

(** a run that is live after making room is the run it was *)
Lemma live_run_room b rid owner wanted total remaining s r r1 :
  output_room owner wanted total (b_state b) = (remaining, s) ->
  live_run b rid = Some r -> live_run (with_state (fun _ => s) b) rid = Some r1 -> r1 = r.
Proof.
  intros Eo (Hr & _)%live_run_Some (Hr1 & _)%live_run_Some.
  destruct (evicted_output_room owner wanted total (b_state b)) as (_ & _ & _ & He). rewrite Eo in He. cbn in He, Hr1.
  destruct (He rid) as [E|[E _]]; congruence.
Qed.

Lemma keeps_sink_data e rid stderr data b : keeps None b (sink_data e rid stderr data b).
Proof.
  unfold sink_data. destruct (live_run b rid) as [r|] eqn:El0; [|auto with broker].
  destruct (grants (b_state b) !! r_owner r) as [g|] eqn:Eg; [|auto with broker].
  destruct (_ || _); [auto with broker|].
  set (wanted := N.min _ _). destruct (output_room _ _ _ _) as [remaining s] eqn:Eo.
  pose proof (evicted_output_room (r_owner r) wanted (output_total_bytes (b_limits b)) (b_state b)) as He.
  rewrite Eo in He. set (b1 := with_state (fun _ => s) b).
  apply (keeps_trans None b b1); [by apply keeps_evicted|].
  destruct (live_run b1 rid) as [r1|] eqn:El; [|auto with broker].
  pose proof (live_run_room _ _ _ _ _ _ _ _ _ Eo El0 El) as ->. apply live_run_Some in El as [Hr1 _].
  pose proof (push_saved_le (r_output r) stderr (take (N.to_nat (N.min wanted remaining)) data)) as Hle.
  destruct (push _ _ _) as [saved o]. cbn [fst] in Hle. rewrite length_take in Hle.
  destruct He as (Hg & _).
  set (r' := set_output _ _ _ r). assert (Hb : r_bytes r' = r_bytes r + N.of_nat saved) by done.
  assert (Hlim : r_bytes r' <= N.max (r_bytes r) (per_run b1 r)).
  { unfold per_run. cbn in Hg |- *. rewrite Hg, Eg. cbn. lia. }
  apply (keeps_state None (fun s => set_retained (retained_bytes s + N.of_nat saved) (set_runs (alter (fun _ => r') rid) s)) b1);
    [done| | |]; cbn [set_retained set_runs runs].
  - intros k r0 [(<- & r2 & H2 & ->)|[Hne H]]%lookup_alter_Some; [|eauto 10].
    exists r. do 4 (split; [done|]). split; [done|]. split; done.
  - intros k r0 _ H _. destruct (decide (k = rid)) as [->|Hne].
    + rewrite lookup_alter_eq, Hr1. eauto.
    + rewrite lookup_alter_ne by done. eauto.
  - unfold counted. cbn [set_retained set_runs runs retained_bytes]. intros E.
    pose proof (sum_bytes_alter (fun _ => r') rid r _ Hr1). lia.
Qed.

Lemma keeps_sink_exited e rid code b : keeps None b (sink_exited e rid code b).
Proof.
  unfold sink_exited. destruct (live_run b rid); [|auto with broker].
  apply keeps_update_run. destruct code; mild_same.
Qed.

Lemma keeps_close_request e owner sid b : keeps None b (close_request e owner sid b).2.
Proof.
  unfold close_request, mbind, M_bind, get_state. destruct (sessions (b_state b) !! sid) as [s|]; [|apply keeps_refl].
  destruct (negb _); [apply keeps_refl|]. cbn [modify mret M_ret snd].
  eapply keeps_trans; [apply keeps_cancel|]. eapply keeps_trans; [apply keeps_cancel_all|].
  eapply keeps_trans; [|apply keeps_sessions]. apply keeps_mild; [done| |by left]. intros k. cbn. rewrite lookup_fmap.
  destruct (runs _ !! k) as [r|]; simpl; [|done]. destruct (_ && _); do 3 (split; [done|]); done.
Qed.

Lemma keeps_cancel_request e owner rid b : keeps None b (cancel_request e owner rid b).2.
Proof.
  unfold cancel_request, mbind, M_bind, get_state, lift_result.
  destruct (owned_run b owner rid) as [r|] eqn:Er; [|apply keeps_refl]. cbn [modify mret M_ret snd].
  destruct (finished r); [apply keeps_refl|]. eapply keeps_trans; [apply keeps_cancel|].
  unfold owned_run in Er. destruct (runs (b_state b) !! rid) as [r0|] eqn:Hr; [|done].
  destruct (bytes_eqb _ _); [|done]. injection Er as ->.
  eapply keeps_replace; [done|by destruct (_ || _)..|]. split_and!; by destruct (_ || _).
Qed.

Lemma keeps_open_session e owner g target key b : keeps None b (open_session e owner g target key b).2.
Proof.
  unfold open_session, mbind, M_bind, get_state, lift_result.
  destruct (find _ _) as [[sid s]|]; [destruct (bytes_eqb _ _); apply keeps_refl|].
  destruct (_ <=? _)%nat; [apply keeps_refl|]. destruct (ok_or _ _) as [t|]; [|apply keeps_refl].
  destruct (_ || _); [apply keeps_refl|].
  destruct (admit_session _ _ _) as [ok s] eqn:Ea. destruct (negb ok); [apply keeps_refl|].
  cbn [modify mret M_ret snd]. eapply keeps_trans; [apply keeps_new_flag|]. 
  destruct (admit_session_spec owner (retained_sessions (g_limits g)) (b_state b)) as (Hg & Hr & Hret & _).
  rewrite Ea in Hg, Hr, Hret. apply keeps_mild; [done| |by left]. intros k. cbn. cbn in Hr. rewrite Hr.
  destruct (runs (b_state b) !! k); auto.
Qed.

(** what a submission adds: a record that waits, under the caller's grant, with a flag
    of its own *)
Definition adds_run (e : Env) (owner : bytes) (b b' : Broker) (rid : bytes) (mode : ApprovalMode) : Prop :=
  exists b1 g run,
    keeps None b b1 /\ b_next_flag b1 = b_next_flag b + 1 /\ b_flags b1 = <[b_next_flag b := false]> (b_flags b) /\
    b' = with_state (set_runs (<[rid := run]>)) b1 /\
    rid = e_id e 0 /\ grants (b_state b) !! owner = Some g /\ r_owner run = owner /\ r_epoch run = g_epoch g /\
    is_Some (g_targets g !! sb_target (r_sub run)) /\ sb_timeout_ms (r_sub run) <= g_max_timeout_ms g /\
    r_cancel run = b_next_flag b /\ r_worker run = false /\ r_finished_at run = None /\ r_bytes run = 0 /\
    mode = g_approval_mode g /\ expired_at (e_now e) (g_until g) = false /\
    (* no other record of this key under this grant, and no other run in the session *)
    (forall k r, runs (b_state b) !! k = Some r -> r_owner r = owner -> r_epoch r = g_epoch g ->
       sb_key (r_sub r) <> sb_key (r_sub run)) /\
    (forall sid, sb_session (r_sub run) = Some sid -> session_active (runs (b_state b)) sid = false) /\
    (unfinished_of owner (b_state b) < N.to_nat (max_active_commands (g_limits g)))%nat.

Lemma run_request_spec e owner g where_ command key timeout cwd stdin env b r b' :
  grants (b_state b) !! owner = Some g -> expired_at (e_now e) (g_until g) = false ->
  run_request e owner g where_ command key timeout cwd stdin env b = (r, b') ->
  match r with
  | Ok (Submitted rid mode) => adds_run e owner b b' rid mode
  | _ => b' = b
  end.
Proof.
  intros Hg Hexp. unfold run_request, mbind, M_bind, get_state, lift_result, throw.
  destruct (match where_ with Existing _ => _ | OneShot _ => _ end) as [[session target]|]; [|by intros [= <- <-]].
  destruct (N.ltb_spec (g_max_timeout_ms g) (default (N.min 120000 (g_max_timeout_ms g)) timeout)) as [|Hto];
    [by intros [= <- <-]|].
  destruct (find _ _) as [[rid r0]|] eqn:Ef.
  { destruct (same_request _ _); [|by intros [= <- <-]]. destruct (run_page _ _ _); by intros [= <- <-]. }
  destruct (bool_decide (is_Some (g_targets g !! target))) eqn:Et; cbn [negb]; [|by intros [= <- <-]].
  destruct (match session with Some _ => _ | None => _ end) as [[]|] eqn:Es; [|by intros [= <- <-]].
  destruct (Nat.leb_spec (N.to_nat (max_active_commands (g_limits g))) (unfinished_of owner (b_state b)));
    [by intros [= <- <-]|].
  destruct (_ && _); [by intros [= <- <-]|].
  destruct (admit_run _ _ _ _) as [ok s] eqn:Ea. destruct ok; cbn [negb]; [|by intros [= <- <-]].
  cbn [modify mret M_ret]. intros [= <- <-].
  set (run := mkRun _ _ _ _ _ _ _ _ _ _ _ _ _ _ _).
  exists (with_state (fun _ => s) (with_new_flag b)), g, run. split_and!; try done.
  - eapply keeps_trans; [apply keeps_new_flag|]. apply keeps_evicted. cbn.
    replace s with (admit_run owner (retained_commands (g_limits g)) (all_retained_commands (b_limits b)) (b_state b)).2
      by (by rewrite Ea). apply evicted_admit_run.
  - by apply bool_decide_eq_true_1 in Et.
  - intros k r1 Hr1 Ho He Hk. apply elem_of_entries in Hr1. apply list_elem_of_In in Hr1.
    eapply find_none in Ef; [|exact Hr1]. cbn [snd] in Ef. cbn in Hk.
    by rewrite Ho, He, Hk, !bytes_eqb_refl in Ef.
  - intros sid Hs. cbn in Hs. subst session. destruct (negb _); [done|]. by destruct (session_active _ _).
Qed.

(** the answers of the other requests *)
Ltac answers := unfold mbind, M_bind, get_state, lift_result, throw, mret, M_ret, modify;
  repeat (case_match; simplify_eq/=); congruence.

Lemma open_session_answer e owner g t k b rid m : (open_session e owner g t k b).1 <> Ok (Submitted rid m).
Proof. unfold open_session. answers. Qed.
Lemma close_answer e owner sid b rid m : (close_request e owner sid b).1 <> Ok (Submitted rid m).
Proof. unfold close_request. answers. Qed.
Lemma cancel_answer e owner id b rid m : (cancel_request e owner id b).1 <> Ok (Submitted rid m).
Proof. unfold cancel_request. answers. Qed.

Lemma request_locked_spec e owner req b r b' :
  request_locked e owner req b = (r, b') ->
  match r with
  | Ok (Submitted rid mode) => adds_run e owner b b' rid mode
  | _ => keeps None b b'
  end.
Proof.
  assert (Hkeep : forall (x : result ToolError Reply * Broker), x = (r, b') ->
    (forall rid m, x.1 <> Ok (Submitted rid m)) -> keeps None b x.2 ->
    match r with Ok (Submitted rid mode) => adds_run e owner b b' rid mode | _ => keeps None b b' end).
  { intros [r1 b1] [= -> ->] Hne Hk. cbn in Hne, Hk. destruct r as [[| |]|]; try done. by destruct (Hne run_id mode). }
  unfold request_locked. destruct req.
  { intros H. apply (Hkeep _ H); unfold mbind, M_bind, get_state, lift_result; destruct (no_cursor _ _); try done;
      apply keeps_refl. }
  all: unfold mbind, M_bind, get_state, lift_result, throw; cbn beta iota zeta.
  all: destruct (e_revision e 0) as [rev|]; [|intros [= <- <-]; apply keeps_refl].
  all: destruct (grants (b_state b) !! owner) as [g|] eqn:Eg; cbn [ok_or]; [|intros [= <- <-]; apply keeps_refl].
  all: destruct (negb _ || expired_at _ _) eqn:Eexp; [intros [= <- <-]; apply keeps_refl|].
  all: apply orb_false_elim in Eexp as [_ Eexp].
  - destruct (no_cursor _ _); intros [= <- <-]; apply keeps_refl.
  - destruct (no_cursor _ _); intros [= <- <-]; apply keeps_refl.
  - destruct (no_cursor _ _); intros [= <- <-]; apply keeps_refl.
  - intros H. apply (Hkeep _ H); [intros; apply open_session_answer|apply keeps_open_session].
  - intros H. apply (Hkeep _ H); [intros; apply close_answer|apply keeps_close_request].
  - intros H. eapply run_request_spec in H; [|done..]. destruct r as [[| |]|]; try (subst; apply keeps_refl). done.
  - destruct (owned_run _ _ _); [|intros [= <- <-]; apply keeps_refl].
    destruct (run_page _ _ _); intros [= <- <-]; apply keeps_refl.
  - intros H. apply (Hkeep _ H); [intros; apply cancel_answer|apply keeps_cancel_request].
Qed.
