(* ===== verification/BrokerSteps.v ===== *)
(** * The invariant of the automation broker

    What holds of grants, runs and threads of a [BrokerInv.System] at any time, and that
    every event keeps it. *)

From Stdlib Require Import Strings.Byte NArith ZArith Lia.
From stdpp Require Import base gmap sets list strings sorting countable.
From S2P Require Import Prelude Bytes Storage AutoOutput AutoText BrokerState Broker BrokerInv.

Local Open Scope N_scope.

(** ** The invariant *)

(** the grant of a submission: of its owner, of its epoch, for its target *)
Definition covers (b : Broker) (sub : Submission) (g : Grant) : Prop :=
  grants (b_state b) !! sb_owner sub = Some g /\ g_epoch g = sb_epoch sub /\
  is_Some (g_targets g !! sb_target sub) /\ sb_timeout_ms sub <= g_max_timeout_ms g.

Definition within (deadline : N) (until : option N) : Prop :=
  match until with Some u => deadline <= u | None => True end.

(** what lets a thread work *)
Definition authorized (st : System) (rid : bytes) (w : Worker) : Prop :=
  exists r g, runs (b_state (sy_broker st)) !! rid = Some r /\ r_sub r = w_sub w /\ r_cancel r = w_stop w /\
    r_worker r = true /\ covers (sy_broker st) (w_sub w) g /\
    g_targets g !! sb_target (w_sub w) = Some (w_target w) /\ within (w_deadline w) (g_until g) /\
    (g_approval_mode g = Trusted \/ LApproved rid ∈ sy_log st).

Definition past_exec (p : Phase) : Prop := match p with PLoop _ | PEnd _ _ | PDone => True | _ => False end.

Record sys_inv (st : System) : Prop := mkSysInv {
  v_runs : forall rid r, runs (b_state (sy_broker st)) !! rid = Some r ->
    (exists g, covers (sy_broker st) (r_sub r) g) /\ rid ∈ sy_used st /\
    LSubmitted rid (r_sub r) ∈ sy_log st /\ r_cancel r < b_next_flag (sy_broker st);
  v_workers : forall rid w p, sy_workers st !! rid = Some (w, p) ->
    rid ∈ sy_used st /\ w_stop w < b_next_flag (sy_broker st) /\ LSubmitted rid (w_sub w) ∈ sy_log st /\
    w_command w = with_env (sb_command (w_sub w)) (sb_cwd (w_sub w)) (sb_env (w_sub w)) /\
    (forall r, runs (b_state (sy_broker st)) !! rid = Some r -> started r) /\
    (p <> PDone -> cancelled (sy_broker st) (w_stop w) = false -> authorized st rid w);
  v_exec : forall rid t c i n, LExec rid t c i n ∈ sy_log st ->
    exists w p, sy_workers st !! rid = Some (w, p) /\ past_exec p;
  v_grants : forall o g, grants (b_state (sy_broker st)) !! o = Some g ->
    LGranted o g ∈ sy_log st \/ LRestored o g ∈ sy_log st
}.

Lemma inv_new : sys_inv new_system.
Proof. split; cbn; intros *; rewrite ?lookup_empty; [done..|by intros ?%not_elem_of_nil|done]. Qed.

(** threads only move on; the one whose record changed is done *)
Definition threads_move (ex : option bytes) (ws ws' : gmap bytes (Worker * Phase)) : Prop :=
  (forall rid w p', ws' !! rid = Some (w, p') ->
     exists p, ws !! rid = Some (w, p) /\ (p' <> PDone -> p <> PDone /\ ex <> Some rid)) /\
  (forall rid w p, ws !! rid = Some (w, p) -> exists p', ws' !! rid = Some (w, p') /\ (past_exec p -> past_exec p')).

Lemma threads_stay ws : threads_move None ws ws.
Proof. split; eauto 10. Qed.

Lemma authorized_keeps ex st st' rid w :
  keeps ex (sy_broker st) (sy_broker st') -> ex <> Some rid -> (forall x, x ∈ sy_log st -> x ∈ sy_log st') ->
  authorized st rid w -> authorized st' rid w.
Proof.
  intros K Hex Hlog (r & g & Hr & Hs & Hc & Hw & Hg & Ht & Hd & Ha).
  destruct (k_workers _ _ _ K rid r Hex Hr Hw) as [r' Hr'].
  destruct (k_runs _ _ _ K rid r' Hr') as (r1 & Hr1 & Hs1 & Hc1 & Hw1 & _).
  assert (r1 = r) as -> by congruence. exists r', g. unfold covers in *. rewrite (k_grants _ _ _ K).
  rewrite Hw1 by done. destruct Hg as (Hg1 & Hg2 & Hg3 & Hg4). split_and!; try done; [congruence..|].
  destruct Ha as [Ha|Ha]; [by left|right; auto].
Qed.

(** a step that keeps grants *)
Lemma inv_frame ex st st' :
  sys_inv st -> keeps ex (sy_broker st) (sy_broker st') -> sy_used st ⊆ sy_used st' ->
  (forall x, x ∈ sy_log st -> x ∈ sy_log st') ->
  threads_move ex (sy_workers st) (sy_workers st') ->
  (forall rid t c i n, LExec rid t c i n ∈ sy_log st' ->
     LExec rid t c i n ∈ sy_log st \/ exists w p, sy_workers st' !! rid = Some (w, p) /\ past_exec p) ->
  sys_inv st'.
Proof.
  intros [VR VW VE VG] K Hused Hlog [T1 T2] Hexec. pose proof (k_next _ _ _ K) as Hnext. split.
  - intros rid r' Hr'. destruct (k_runs _ _ _ K rid r' Hr') as (r & Hr & Hs & Hc & Hw & Ht).
    destruct (VR rid r Hr) as ((g & Hg) & Hu & Hl & Hn). unfold covers. rewrite Hs, Hc, (k_grants _ _ _ K).
    split_and!; [eauto|set_solver|auto|lia].
  - intros rid w p' Hp'. destruct (T1 rid w p' Hp') as (p & Hp & Hdone).
    destruct (VW rid w p Hp) as (Hu & Hn & Hl & Hcmd & Hst & Ha).
    split_and!; [set_solver|lia|auto|done| |].
    + intros r' Hr'. destruct (k_runs _ _ _ K rid r' Hr') as (r & Hr & _ & _ & _ & Ht & _). eauto.
    + intros Hnd Hc. destruct (Hdone Hnd) as [Hp0 Hex].
      eapply authorized_keeps; [done..|]. apply Ha; [done|]. by apply (k_flags _ _ _ K).
  - intros rid t c i n Hin. destruct (Hexec rid t c i n Hin) as [Hold|Hnew]; [|done].
    destruct (VE rid t c i n Hold) as (w & p & Hp & Hpast). destruct (T2 rid w p Hp) as (p' & Hp' & Hmono). eauto.
  - intros o g. rewrite (k_grants _ _ _ K). intros Hg. destruct (VG o g Hg); auto.
Qed.

Lemma inv_keeps st b : sys_inv st -> keeps None (sy_broker st) b -> sys_inv (on_broker b st).
Proof. intros V K. eapply (inv_frame None st); auto using threads_stay. Qed.

(** entries that are not commands *)
Definition no_exec (l : list LogEntry) : Prop := forall rid t c i n, LExec rid t c i n ∉ l.

Lemma inv_log st l : sys_inv st -> no_exec l -> sys_inv (log l st).
Proof.
  intros V Hl. eapply (inv_frame None st); cbn; auto using threads_stay, keeps_refl.
  - intros x. rewrite elem_of_app. auto.
  - intros rid t c i n. rewrite elem_of_app. intros [|H]; [auto|]. by apply Hl in H.
Qed.

(** the records of the chosen integrations disappear, and their flags are raised *)
Lemma revoke_inner_spec owner b :
  let b' := revoke_inner owner b in
  grants (b_state b') = filter (fun e => matches_owner owner e.1 = false) (grants (b_state b)) /\
  runs (b_state b') = filter (fun e => matches_owner owner (r_owner e.2) = false) (runs (b_state b)) /\
  b_next_flag b' = b_next_flag b /\ b_saved b' = b_saved b /\ b_suspended b' = b_suspended b /\
  (forall c, cancelled b' c = false -> cancelled b c = false) /\
  (forall k r, runs (b_state b) !! k = Some r -> matches_owner owner (r_owner r) = true -> cancelled b' (r_cancel r) = true).
Proof.
  unfold revoke_inner. cbv zeta. 
  set (l1 := _ <$> map_to_list (filter _ (sessions _))). set (l2 := _ <$> map_to_list (filter _ (runs _))).
  destruct (cancel_all_rest l1 b) as (S1 & _ & _ & U1 & _ & _ & V1 & N1).
  destruct (cancel_all_rest l2 (cancel_all l1 b)) as (S2 & _ & _ & U2 & _ & _ & V2 & N2).
  cbn. rewrite S2, S1, U2, U1, V2, V1, N2, N1. split_and!; try done.
  - intros c Hc. change (cancelled (cancel_all l2 (cancel_all l1 b)) c = false) in Hc.
    rewrite !cancelled_all in Hc. by apply orb_false_elim in Hc as [_ [_ ?]%orb_false_elim].
  - intros k r Hr Hm. change (cancelled (cancel_all l2 (cancel_all l1 b)) (r_cancel r) = true).
    rewrite cancelled_all, bool_decide_eq_true_2; [done|]. apply list_elem_of_fmap. exists (k, r).
    split; [done|]. apply elem_of_map_to_list, map_lookup_filter_Some. done.
Qed.

Lemma inv_revoke_inner owner st b :
  sys_inv st -> b = revoke_inner owner (sy_broker st) -> sys_inv (on_broker b st).
Proof.
  intros [VR VW VE VG] ->.
  destruct (revoke_inner_spec owner (sy_broker st)) as (Hg & Hr & Hn & _ & _ & Hf & Hc). revert Hg Hr Hn Hf Hc.
  generalize (revoke_inner owner (sy_broker st)). intros b Hg Hr Hn Hf Hc.
  assert (Hlive : forall s g, covers (sy_broker st) s g -> matches_owner owner (sb_owner s) = false -> covers b s g).
  { intros s g (H1 & H2) Hm. split; [|done]. rewrite Hg. by apply map_lookup_filter_Some. }
  split; cbn [on_broker sy_broker sy_workers sy_used sy_log].
  - intros rid r. rewrite Hr. intros [H1 H2]%map_lookup_filter_Some. cbn in H2.
    destruct (VR rid r H1) as ((g & Hcov) & Hu & Hl & Hlt). rewrite Hn. split_and!; eauto.
  - intros rid w p Hp. destruct (VW rid w p Hp) as (Hu & Hlt & Hl & Hcmd & Hst & Ha).
    rewrite Hn. split_and!; [done..| |].
    + intros r. rewrite Hr. intros [H1 _]%map_lookup_filter_Some. eauto.
    + intros Hp' Hcan. destruct (Ha Hp' (Hf _ Hcan)) as (r & g & H1 & Hs & Hcc & Hw & Hcov & Hrest).
      destruct (matches_owner owner (r_owner r)) eqn:Em.
      { apply (Hc rid r H1) in Em. rewrite Hcc in Em. congruence. }
      refine (ex_intro _ r (ex_intro _ g (conj _ (conj Hs (conj Hcc (conj Hw (conj _ Hrest))))))).
      * cbn. rewrite Hr. by apply map_lookup_filter_Some.
      * apply Hlive; [done|]. unfold r_owner in Em. congruence.
  - done.
  - intros o g. rewrite Hg. intros [H1 _]%map_lookup_filter_Some. eauto.
Qed.

Lemma inv_same st b :
  sys_inv st -> b_state b = b_state (sy_broker st) -> b_flags b = b_flags (sy_broker st) ->
  b_next_flag b = b_next_flag (sy_broker st) -> sys_inv (on_broker b st).
Proof.
  destruct st as [[] ws os us lg], b. cbn. intros [VR VW VE VG] -> -> ->. split; done.
Qed.

(** new grants, of integrations that had none *)
Lemma inv_grow st b l :
  sys_inv st -> runs (b_state b) = runs (b_state (sy_broker st)) -> b_flags b = b_flags (sy_broker st) ->
  b_next_flag b = b_next_flag (sy_broker st) -> grants (b_state (sy_broker st)) ⊆ grants (b_state b) ->
  (forall o g, grants (b_state b) !! o = Some g -> grants (b_state (sy_broker st)) !! o = Some g \/
     LGranted o g ∈ l \/ LRestored o g ∈ l) ->
  no_exec l -> sys_inv (log l (on_broker b st)).
Proof.
  intros [VR VW VE VG] Er Ef En Hsub Hnew Hl.
  assert (Hcov : forall s g, covers (sy_broker st) s g -> covers b s g).
  { intros s g (H1 & H2). split; [|done]. by eapply lookup_weaken. }
  split; cbn [log on_broker sy_broker sy_workers sy_used sy_log].
  - intros rid r. rewrite Er, En. intros Hr. destruct (VR rid r Hr) as ((g & Hg) & Hu & Hs & Hn).
    split_and!; [eauto|done|set_solver|done].
  - intros rid w p Hp. destruct (VW rid w p Hp) as (Hu & Hn & Hs & Hc & Hst & Ha).
    rewrite Er, En. unfold cancelled in *. rewrite Ef. split_and!; [done..|set_solver|done|done|].
    intros Hp' Hc'. destruct (Ha Hp' Hc') as (r & g & H1 & H2 & H3 & H4 & H5 & H6 & H7 & H8).
    exists r, g. cbn. rewrite Er. refine (conj H1 (conj H2 (conj H3 (conj H4 (conj _ (conj H6 (conj H7 _))))))); [eauto|].
    destruct H8; [by left|right; set_solver].
  - intros rid t c i n [H|H]%elem_of_app; [eauto|]. by apply Hl in H.
  - intros o g Hg. destruct (Hnew o g Hg) as [H|[H|H]]; [destruct (VG o g H)|..]; set_solver.
Qed.

Lemma inv_revoke owner st b :
  sys_inv st -> b_state b = b_state (sy_broker st) -> b_flags b = b_flags (sy_broker st) ->
  b_next_flag b = b_next_flag (sy_broker st) -> sys_inv (on_broker (revoke_inner owner b) st).
Proof. intros V Es Ef En. apply (inv_revoke_inner owner (on_broker b st)); [by apply inv_same|done]. Qed.

(** a recorded submission *)
Lemma inv_submit e owner st b rid mode :
  sys_inv st -> e_id e 0 ∉ sy_used st -> adds_run e owner (sy_broker st) b rid mode ->
  exists run, runs (b_state b) !! rid = Some run /\
    sys_inv (log [LSubmitted rid (r_sub run)]
      (mkSystem b (sy_workers st) (sy_openers st) ({[rid]} ∪ sy_used st) (sy_log st))).
Proof.
  intros V Hid (b1 & g & run & K & Hnext & Hfl & -> & -> & Hg & Ho & He & Ht & Hto & Hc & Hw & _).
  exists run. cbn. rewrite lookup_insert_eq. split; [done|].
  pose proof (inv_keeps st b1 V K) as [VR VW VE VG]. cbn in VR, VW, VE, VG.
  split; cbn [log sy_broker sy_workers sy_used sy_log with_state b_state set_runs runs b_next_flag].
  - intros k r [(<- & <-)|[Hne Hr]]%lookup_insert_Some.
    + split_and!; [|set_solver|set_solver|lia]. exists g. unfold covers. cbn. rewrite (k_grants _ _ _ K).
      unfold r_owner in Ho. rewrite Ho. unfold r_epoch in He. auto.
    + destruct (VR k r Hr) as (H1 & H2 & H3 & H4). split_and!; [done|set_solver|set_solver|done].
  - intros k w p Hp. destruct (VW k w p Hp) as (Hu & Hn & Hs & Hcmd & Hst & Ha).
    assert (k <> e_id e 0) as Hne by set_solver.
    split_and!; [set_solver|done|set_solver|done| |].
    + intros r. rewrite lookup_insert_ne by done. apply Hst.
    + intros Hp' Hc'. destruct (Ha Hp' Hc') as (r & g' & H1 & H2 & H3 & H4 & H5 & H6 & H7 & H8).
      exists r, g'. cbn. rewrite lookup_insert_ne by done.
      refine (conj H1 (conj H2 (conj H3 (conj H4 (conj H5 (conj H6 (conj H7 _))))))). destruct H8; set_solver.
  - intros k t c i n [H|H]%elem_of_app; [eauto|set_solver].
  - intros o g' Hg'. destruct (VG o g' Hg'); set_solver.
Qed.

(** what [start_run] checks before a thread starts *)
Lemma start_run_spec e rid allowed mode b w b' :
  start_run e rid allowed mode b = (Ok (Some w), b') ->
  allowed = true /\ exists run g s,
    runs (b_state b) !! rid = Some run /\ ~ started run /\ started (set_run_state s run) /\
    b' = update_run rid (set_started s (e_now e) (e_unix_ms e)) b /\
    grants (b_state b) !! r_owner run = Some g /\ g_approval_mode g = mode /\
    w_sub w = r_sub run /\ w_stop w = r_cancel run /\ g_targets g !! sb_target (r_sub run) = Some (w_target w) /\
    within (w_deadline w) (g_until g) /\ expired_at (e_now e) (g_until g) = false /\
    w_deadline w <= e_now e + sb_timeout_ms (r_sub run) /\
    w_command w = with_env (sb_command (r_sub run)) (sb_cwd (r_sub run)) (sb_env (r_sub run)).
Proof.
  unfold start_run, mbind, M_bind, get_state, lift_result, throw, mret, M_ret, modify.
  destruct (runs (b_state b) !! rid) as [run|] eqn:Hr; cbn [ok_or]; [|done].
  destruct (negb _ || _ || _) eqn:Ec; [done|]. apply orb_false_elim in Ec as [[Em _]%orb_false_elim _].
  apply negb_false_iff, bool_decide_eq_true_1 in Em.
  destruct allowed; cbn [negb]; [|done]. destruct (grants (b_state b) !! r_owner run) as [g|] eqn:Hg; [|done].
  destruct (bytes_eqb _ _ && _) eqn:Ee; [|done]. apply andb_prop in Ee as [_ Eexp%negb_true_iff].
  destruct (bool_decide (g_approval_mode g = mode)) eqn:Eg; cbn [negb]; [|done]. apply bool_decide_eq_true_1 in Eg.
  destruct (g_targets g !! sb_target (r_sub run)) as [t|] eqn:Ht; cbn [ok_or]; [|done].
  destruct (match sb_session (r_sub run) with Some _ => _ | None => _ end) as [conn|]; [|done].
  intros [= <- <-]. split; [done|].
  exists run, g, (match conn with None => RConnecting | Some _ => Running end). cbn. split_and!; try done.
  - intros [H1 H2]. by destruct mode.
  - destruct conn; done.
  - unfold within. destruct (g_until g); [lia|done].
  - destruct (g_until g); lia.
Qed.

Lemma inv_start e rid allowed mode st w b :
  sys_inv st -> start_run e rid allowed mode (sy_broker st) = (Ok (Some w), b) ->
  sys_inv (log (match mode with Manual => [LApproved rid] | Trusted => [] end)
             (set_phase rid w PRecord (on_broker b st))).
Proof.
  intros V (_ & run & g & s & Hr & Hns & Hs & -> & Hg & Hm & Hw & Hst & Ht & Hd & _ & _ & Hcmd)%start_run_spec.
  pose proof V as [VR VW VE VG]. destruct (VR rid run Hr) as ((g' & Hcov) & Hu & Hl & Hn).
  assert (g' = g) as -> by (destruct Hcov; unfold r_owner in Hg; congruence).
  assert (Hno : sy_workers st !! rid = None).
  { destruct (sy_workers st !! rid) as [[w0 p0]|] eqn:E; [|done].
    destruct (VW rid w0 p0 E) as (_ & _ & _ & _ & H & _). by destruct Hns; apply H. }
  set (l := match mode with Manual => [LApproved rid] | Trusted => [] end).
  assert (Hlog : forall x, x ∈ sy_log st -> x ∈ sy_log st ++ l) by (intros; apply elem_of_app; by left).
  set (b' := update_run rid (set_started s (e_now e) (e_unix_ms e)) (sy_broker st)).
  assert (K : keeps (Some rid) (sy_broker st) b').
  { eapply keeps_replace; [done..|]. split; [|done]. intros ?. by destruct Hns. }
  assert (V' : sys_inv (log l (on_broker b' st))).
  { eapply (inv_frame (Some rid) st); [done|done|done|done| |].
    - split; [|eauto]. intros k w0 p0 Hp. exists p0. split; [done|]. intros ?. split; [done|]. intros [= <-]. cbn in Hp. congruence.
    - cbn. intros k t c i n [H|H]%elem_of_app; [by left|]. unfold l in H. destruct mode; set_solver. }
  destruct V' as [VR' VW' VE' VG'].
  split; [apply VR'| | |apply VG']; cbn [log set_phase on_broker sy_workers sy_log sy_used sy_broker].
  - intros k w0 p0 [(<- & [= <- <-])|[Hne Hp]]%lookup_insert_Some; [|by apply (VW' k w0 p0 Hp)].
    rewrite Hw, Hst, Hcmd. split_and!; [done..|auto|done| |].
    + intros r. unfold b'. cbn. rewrite lookup_alter_eq, Hr. intros [= <-]. done.
    + intros _ _. exists (set_started s (e_now e) (e_unix_ms e) run), g. unfold b'. cbn.
      rewrite lookup_alter_eq, Hr, Hw, Hst. refine (conj _ (conj _ (conj _ (conj _ (conj Hcov (conj Ht (conj Hd _))))))); [done..|].
      destruct mode; [right|by left]. apply elem_of_app. right. by apply list_elem_of_singleton.
  - intros k t c i n H. destruct (VE' k t c i n H) as (w0 & p0 & Hp & Hpast).
    exists w0, p0. cbn in Hp. split; [|done]. rewrite lookup_insert_ne; congruence.
Qed.

(** a step of the thread of a run *)
Lemma inv_thread ex st rid w p p' b l :
  sys_inv st -> sy_workers st !! rid = Some (w, p) -> p <> PDone ->
  keeps ex (sy_broker st) b -> ex = None \/ (ex = Some rid /\ p' = PDone) ->
  (past_exec p -> past_exec p') ->
  (forall k t c i n, LExec k t c i n ∈ l -> k = rid /\ past_exec p') ->
  sys_inv (log l (set_phase rid w p' (on_broker b st))).
Proof.
  intros V Hp Hnd K Hex Hpast Hl. eapply (inv_frame ex st); [done|done|done| | |]; cbn.
  - intros x Hx. apply elem_of_app. by left.
  - split.
    + intros k w0 p0 [(<- & [= <- <-])|[Hne Hk]]%lookup_insert_Some.
      * exists p. split; [done|]. intros H. split; [done|]. destruct Hex as [->|[_ ->]]; done.
      * exists p0. split; [done|]. intros H. split; [done|]. destruct Hex as [->|[-> _]]; congruence.
    + intros k w0 p0 Hk. destruct (decide (k = rid)) as [->|Hne].
      * rewrite lookup_insert_eq. assert ((w0, p0) = (w, p)) as [= -> ->] by congruence. eauto.
      * rewrite lookup_insert_ne by done. eauto.
  - intros k t c i n [H|H]%elem_of_app; [by left|right]. destruct (Hl _ _ _ _ _ H) as [-> ?].
    rewrite lookup_insert_eq. eauto.
Qed.

Lemma inv_worker_step f st rid :
  sys_inv st ->
  (forall w p b p' l, sy_workers st !! rid = Some (w, p) -> f w p = Some (b, p', l) ->
     exists ex, p <> PDone /\ keeps ex (sy_broker st) b /\ (ex = None \/ (ex = Some rid /\ p' = PDone)) /\
       (past_exec p -> past_exec p') /\ (forall k t c i n, LExec k t c i n ∈ l -> k = rid /\ past_exec p')) ->
  sys_inv (worker_step st rid f).
Proof.
  intros V Hf. unfold worker_step. destruct (sy_workers st !! rid) as [[w p]|] eqn:Hp; [|done].
  destruct (f w p) as [[[b p'] l]|] eqn:Ef; [|done].
  destruct (Hf w p b p' l eq_refl Ef) as (ex & ? & ? & ? & ? & ?). by eapply inv_thread.
Qed.

(** a run whose thread ends *)
Lemma keeps_ended rid f b :
  (forall r, r_sub (f r) = r_sub r /\ r_cancel (f r) = r_cancel r /\ steady r (f r)) ->
  keeps (Some rid) b (update_run rid f b).
Proof.
  intros Hf. destruct (runs (b_state b) !! rid) as [r|] eqn:Hr.
  - destruct (Hf r) as (? & ? & ?). by eapply keeps_replace.
  - assert (E : alter f rid (runs (b_state b)) = runs (b_state b)) by (apply alter_id; intros x Hx; congruence).
    apply keeps_state; unfold counted; cbn; rewrite ?E; eauto 10.
Qed.

Lemma keeps_worker_end e rid w res conn b : keeps (Some rid) b (worker_end e rid w res conn b).
Proof.
  unfold worker_end. destruct (runs (b_state b) !! rid) as [run|] eqn:Hr; [|apply keeps_refl].
  set (run' := if finished run then run else _).
  assert (Hrun : r_sub run' = r_sub run /\ r_cancel run' = r_cancel run /\ steady run run').
  { unfold run'. destruct (finished run); [done|]. do 2 (split; [done|]). split_and!; by destruct (_ && _). }
  destruct Hrun as (H1 & H2 & H3).
  assert (K : keeps (Some rid) b (update_run rid (fun _ => set_worker false run') b)) by by eapply keeps_replace.
  destruct (sb_session (r_sub run)); [|done]. eapply keeps_trans; [done|]. apply keeps_weaken, keeps_sessions.
Qed.

Lemma inv_thread_events st ev :
  sys_inv st ->
  match ev with
  | EWRecord _ _ _ | EWConnect _ _ | EWExec _ _ _ | EWPoll _ _ _ | EWEnd _ _ => True
  | _ => False
  end -> sys_inv (sys_step st ev).
Proof.
  intros V Hev. destruct ev; try done; cbn [sys_step]; apply inv_worker_step; try done;
    intros w p b p' l Hp Hf; destruct p; try done.
  - destruct (worker_record _ _ _ _) as [b1 p1] eqn:Ew. injection Hf as <- <- <-. unfold worker_record in Ew.
    destruct outcome as [recorded|err]; injection Ew as <- <-.
    + exists None. split_and!; [done| |by left|done|set_solver].
      eapply keeps_trans; [|apply keeps_update_run; mild_same]. destruct recorded; [by apply keeps_same|apply keeps_refl].
    + exists (Some rid). split_and!; [done| |by right|done|set_solver]. apply keeps_ended. intros r. do 2 (split; [done|]). done.
  - destruct (worker_connect _ _ _) as [b1 p1] eqn:Ew. injection Hf as <- <- <-. unfold worker_connect in Ew.
    exists None. split_and!; [done| |by left|done|set_solver].
    destruct (w_conn w); [injection Ew as <- <-; apply keeps_refl|].
    destruct outcome; injection Ew as <- <-; [apply keeps_refl|apply keeps_cancel].
  - destruct (worker_exec _ _ _ _ _ _) as [[b1 p1] sent] eqn:Ew. injection Hf as <- <- <-. unfold worker_exec in Ew.
    exists None. split_and!; [done| |by left|done|].
    + destruct (_ || _); [injection Ew as <- <- <-; apply keeps_refl|].
      destruct outcome; injection Ew as <- <- <-; apply keeps_update_run; mild_same.
    + intros k t c i n H. destruct sent; [|set_solver]. apply list_elem_of_singleton in H as [= -> _ _ _ _].
      split; [done|]. destruct (_ || _); [discriminate|]. by destruct outcome; injection Ew as <- <-.
  - injection Hf as <- <- <-. exists None. split_and!; [done|apply keeps_refl|by left| |set_solver].
    intros _. unfold worker_poll. destruct (_ || _ || _); [done|]. destruct (runs _ !! _); [|done]. by destruct (finished _).
  - injection Hf as <- <- <-. exists (Some rid). split_and!; [done|apply keeps_worker_end|by right|done|set_solver].
Qed.

(** ** Granting, restoring, forgetting *)

(** A refused grant changes nothing. A given one replaces the records of its
    integration and is the only change of the saved consents. *)
Lemma grant_spec e owner label targets seconds ticket mode max_timeout limits b r b' :
  grant_with_limits e owner label targets seconds ticket mode max_timeout limits b = (r, b') ->
  match r with
  | Err _ => b' = b
  | Ok _ => b_suspended b = false /\ exists g c,
      b' = with_state (set_grants (<[owner := g]>)) (revoke_inner (Some owner)
             (with_saved (filter (fun s => sa_integration_id s <> owner) (b_saved b) ++ [c]) b)) /\
      sa_integration_id c = owner /\ g_approval_mode g = mode /\ g_max_timeout_ms g = max_timeout /\
      g_limits g = limits /\ g_until g = (fun s => e_now e + s * 1000) <$> seconds /\
      ticket = Some (b_revocation_epoch b, g_revision g) /\ Ok (g_targets g) = resolve_targets e (g_revision g) 0 targets
  end.
Proof.
  unfold grant_with_limits, save_grant, mbind, M_bind, get_state, lift_result, throw, mret, M_ret, modify.
  destruct (negb (in_range_incl _ _ _)); [by intros [= <- <-]|].
  destruct (negb _ || _ || _ || _ || _); [by intros [= <- <-]|].
  destruct ticket as [[gen rev]|]; cbn [ok_or]; [|by intros [= <- <-]].
  destruct (N.eqb_spec (b_revocation_epoch b) gen) as [<-|]; cbn [negb]; [|by intros [= <- <-]].
  destruct (e_revision e 0) as [rev0|]; [|by intros [= <- <-]].
  destruct (negb _); [by intros [= <- <-]|]. destruct (e_fingerprint e); [|by intros [= <- <-]].
  destruct (resolve_targets e rev 0 targets) as [resolved|] eqn:Er; [|by intros [= <- <-]].
  destruct (e_revision e 1); [|by intros [= <- <-]]. destruct (negb _); [by intros [= <- <-]|].
  destruct (b_suspended b) eqn:Es; [by intros [= <- <-]|]. destruct (_ && _); [by intros [= <- <-]|].
  destruct (e_load e); [|by intros [= <- <-]]. destruct (_ <=? _)%nat; [by intros [= <- <-]|].
  destruct (e_save e); [|by intros [= <- <-]]. intros [= <- <-]. split; [done|].
  eexists _, _. split; [reflexivity|]. cbn. by rewrite Er.
Qed.

Lemma forget_spec e owner b r b' :
  forget_access e owner b = (r, b') ->
  exists saved, b' = with_saved saved (revoke owner b) /\
    (forall c, c ∈ saved -> c ∈ b_saved b) /\
    (r = Ok tt -> forall c, c ∈ saved -> matches_owner owner (sa_integration_id c) = false).
Proof.
  unfold forget_access, mbind, M_bind, get_state, lift_result, modify. cbn beta iota.
  assert (Hsv : b_saved (revoke owner b) = b_saved b).
  { by destruct (revoke_inner_spec owner (bump_epoch b)) as (_ & _ & _ & Hs & _). }
  assert (Hsame : with_saved (b_saved b) (revoke owner b) = revoke owner b).
  { rewrite <-Hsv. by destruct (revoke owner b). }
  destruct (e_load e); [|intros [= <- <-]; exists (b_saved b); by rewrite Hsame].
  destruct (e_save e); [|intros [= <- <-]; exists (b_saved b); by rewrite Hsame].
  intros [= <- <-].
  exists (match owner with
          | Some o => filter (fun s => sa_integration_id s <> o) (b_saved (revoke owner b))
          | None => []
          end).
  split; [reflexivity|]. rewrite Hsv. destruct owner as [o|]; [|set_solver]. split.
  - intros c [_ ?]%list_elem_of_filter. done.
  - intros _ c [Hne _]%list_elem_of_filter. cbn. apply bytes_eqb_false. congruence.
Qed.

Lemma foldl_insert_new l m :
  m ⊆ foldl insert_new m l /\
  forall o g, foldl insert_new m l !! o = Some g -> m !! o = Some g \/ (o, g) ∈ l.
Proof.
  revert m. induction l as [|[o g] l IH]; intros m; cbn [foldl]; [split; [done|by left]|].
  assert (Hin : m ⊆ insert_new m (o, g) /\
                forall o' g', insert_new m (o, g) !! o' = Some g' -> m !! o' = Some g' \/ (o', g') = (o, g)).
  { unfold insert_new. cbn. destruct (m !! o) eqn:E; [split; [done|by left]|]. split; [by apply insert_subseteq|].
    intros o' g' [(<- & <-)|[_ H]]%lookup_insert_Some; auto. }
  destruct Hin as [H1 H2], (IH (insert_new m (o, g))) as [H3 H4]. split; [by etrans|].
  intros o' g' H. destruct (H4 o' g' H) as [H'|H']; [destruct (H2 o' g' H') as [?|E]|]; [by left|right; rewrite E; left|right; by right].
Qed.

Lemma restore_consents_ids e rev fp live n saved o g :
  (o, g) ∈ restore_consents e rev fp live n saved -> exists c, c ∈ saved /\ sa_integration_id c = o.
Proof.
  revert n. induction saved as [|c saved IH]; intros n; cbn; [by intros ?%not_elem_of_nil|].
  intros [H|H]%elem_of_app.
  - destruct (restore_consent e rev fp live n c) as [x|] eqn:E; cbn in H; [|by apply not_elem_of_nil in H].
    apply list_elem_of_singleton in H as <-. exists c. split; [by left|]. unfold restore_consent in E.
    destruct (_ || _); [done|]. destruct (negb _); [done|]. case_bool_decide; [done|].
    apply bind_Some in E as (ts & _ & E). destruct (negb _); [done|]. apply bind_Some in E as (u & _ & [= <- _]). done.
  - apply IH in H as (c' & ? & ?). exists c'. split; [by right|done].
Qed.

Lemma restore_spec e b :
  let b' := restore_access e b in
  runs (b_state b') = runs (b_state b) /\ b_flags b' = b_flags b /\ b_next_flag b' = b_next_flag b /\
  b_saved b' = b_saved b /\ b_suspended b' = b_suspended b /\
  grants (b_state b) ⊆ grants (b_state b') /\ (b_suspended b = true -> b' = b) /\
  forall o g, grants (b_state b') !! o = Some g -> grants (b_state b) !! o = Some g \/
    exists c, c ∈ b_saved b /\ sa_integration_id c = o.
Proof.
  cbv zeta. assert (Hid : restore_access e b = b -> let b' := restore_access e b in
    runs (b_state b') = runs (b_state b) /\ b_flags b' = b_flags b /\ b_next_flag b' = b_next_flag b /\
    b_saved b' = b_saved b /\ b_suspended b' = b_suspended b /\
    grants (b_state b) ⊆ grants (b_state b') /\ (b_suspended b = true -> b' = b) /\
    forall o g, grants (b_state b') !! o = Some g -> grants (b_state b) !! o = Some g \/
      exists c, c ∈ b_saved b /\ sa_integration_id c = o) by (intros ->; auto 10).
  unfold restore_access in *. destruct (b_suspended b) eqn:Es; [by apply Hid|].
  destruct (e_revision e 0) as [rev|]; [|by apply Hid]. case_bool_decide; [by apply Hid|].
  destruct (e_load e); [|by apply Hid]. destruct (e_fingerprint e) as [fp|]; [|by apply Hid].
  destruct (negb _); [by apply Hid|]. clear Hid. cbn.
  destruct (foldl_insert_new (take GRANTS_TOTAL (restore_consents e rev fp (grants (b_state b)) 0 (b_saved b)))
              (grants (b_state b))) as [H1 H2].
  split_and!; try done. intros o g Hg. destruct (H2 o g Hg) as [?|H']; [by left|right].
  eapply restore_consents_ids. by eapply elem_of_take in H' as (? & ? & ?); eapply list_elem_of_lookup_2.
Qed.
