(* ===== verification/BrokerThy.v ===== *)
(** * The automation broker runs only what the user allowed

    Theorems over all runs of [BrokerInv.System]: what a command handed to a connection
    presupposes, that a submission is handed over at most once, and what suspending and
    forgetting stop. *)

From Stdlib Require Import Strings.Byte NArith ZArith Lia.
From stdpp Require Import base gmap sets list strings sorting countable.
From S2P Require Import Prelude Bytes Storage AutoOutput AutoText BrokerState Broker BrokerInv BrokerSteps.

Local Open Scope N_scope.

(** ** The invariant over all runs *)

Lemma no_exec_restored (l : list (bytes * Grant)) : no_exec ((fun g => LRestored g.1 g.2) <$> l).
Proof. intros rid t c i n ([o g] & Heq & _)%list_elem_of_fmap. done. Qed.

Lemma inv_grant e owner label targets seconds ticket mode max_timeout limits st :
  sys_inv st -> sys_inv (sys_step st (EGrant e owner label targets seconds ticket mode max_timeout limits)).
Proof.
  intros V. cbn [sys_step]. destruct (grant_with_limits _ _ _ _ _ _ _ _ _ _) as [r b] eqn:Eg.
  pose proof (grant_spec _ _ _ _ _ _ _ _ _ _ _ _ Eg) as Hg. destruct r as [[]|err]; [|subst; by apply inv_same].
  destruct Hg as (_ & g & c & -> & _).
  set (b0 := with_saved _ _). pose proof (inv_revoke (Some owner) st b0 V eq_refl eq_refl eq_refl) as V1.
  destruct (revoke_inner_spec (Some owner) b0) as (Hgr & _). revert V1 Hgr. generalize (revoke_inner (Some owner) b0).
  intros b V1 Hgr. cbn [with_state b_state set_grants grants]. rewrite lookup_insert_eq.
  assert (Hno : grants (b_state b) !! owner = None).
  { rewrite Hgr. apply map_lookup_filter_None. right. intros x _. cbn. rewrite bytes_eqb_refl. done. }
  apply (inv_grow (on_broker b st) (with_state (set_grants (<[owner:=g]>)) b)); try done; cbn.
  - by apply insert_subseteq.
  - intros o g' [(<- & <-)|[_ H]]%lookup_insert_Some; [right; left; by apply list_elem_of_singleton|by left].
  - intros ? ? ? ? ? H%list_elem_of_singleton. done.
Qed.

Lemma inv_restore e st : sys_inv st -> sys_inv (sys_step st (ERestore e)).
Proof.
  intros V. cbn [sys_step]. destruct (restore_spec e (sy_broker st)) as (Hr & Hf & Hn & _ & _ & Hsub & _).
  apply inv_grow; try done; [|apply no_exec_restored].
  intros o g Hg. destruct (grants (b_state (sy_broker st)) !! o) as [g0|] eqn:E.
  - left. pose proof (lookup_weaken _ _ _ _ E Hsub). congruence.
  - right. right. apply list_elem_of_fmap. exists (o, g). split; [done|]. apply list_elem_of_filter.
    split; [done|]. by apply elem_of_map_to_list.
Qed.

Lemma inv_request e owner req st : sys_inv st -> sys_inv (sys_step st (ERequest e owner req)).
Proof.
  intros V. cbn [sys_step]. unfold request_step. case_bool_decide as Hid; [done|].
  destruct (request_locked e owner req (sy_broker st)) as [r b] eqn:Er.
  apply request_locked_spec in Er. destruct r as [[|o resp|rid mode]|err]; cbn zeta.
  - by apply inv_keeps.
  - eapply (inv_frame None st); cbn; auto using threads_stay. set_solver.
  - eapply inv_submit in Er as (run & Hrun & V'); [|done..]. rewrite Hrun. done.
  - by apply inv_keeps.
Qed.

Lemma keeps_start e rid allowed mode b r b' :
  start_run e rid allowed mode b = (r, b') -> (forall w, r <> Ok (Some w)) -> keeps None b b'.
Proof.
  unfold start_run, mbind, M_bind, get_state, lift_result, throw, mret, M_ret, modify. intros H Hr.
  repeat (case_match; simplify_eq/=);
    first [apply keeps_refl|by exfalso; eapply Hr|apply keeps_update_run; auto with broker].
Qed.

Lemma inv_step st ev : sys_inv st -> sys_inv (sys_step st ev).
Proof.
  intros V. destruct ev; try by apply inv_thread_events; [|exact I].
  - by apply inv_grant.
  - by apply inv_revoke.
  - cbn [sys_step]. destruct (forget_access e owner (sy_broker st)) as [r b] eqn:Ef.
    apply forget_spec in Ef as (saved & -> & _).
    assert (V' : sys_inv (on_broker (with_saved saved (revoke owner (sy_broker st))) st)).
    { apply (inv_same (on_broker (revoke owner (sy_broker st)) st)); [by apply inv_revoke|done..]. }
    destruct r; [|done]. apply inv_log; [done|]. intros ? ? ? ? ? H%list_elem_of_singleton. done.
  - cbn [sys_step]. apply inv_log; [|intros ? ? ? ? ? H%list_elem_of_singleton; done].
    apply (inv_same (on_broker (revoke_inner None
             (with_lifecycle (b_revocation_epoch (sy_broker st) + 1) true (b_access_revision (sy_broker st)) (sy_broker st))) st));
      [by apply inv_revoke|done..].
  - cbn [sys_step]. unfold resume_if_current. destruct (_ =? _); by apply inv_same.
  - apply inv_keeps; [done|]. apply keeps_set_limits.
  - by apply inv_same.
  - cbn [sys_step]. unfold revoke_expired. destruct (grants _ !! _); [|by apply inv_same].
    destruct (_ && _); [by apply inv_revoke|by apply inv_same].
  - by apply inv_restore.
  - apply inv_keeps; [done|]. apply keeps_sweep_records.
  - by apply inv_request.
  - cbn [sys_step]. destruct (start_run e rid allowed mode (sy_broker st)) as [r b] eqn:Es.
    destruct r as [[w|]|err]; [by eapply inv_start| |]; (apply inv_keeps; [done|]).
    all: eapply keeps_start; [done|congruence].
  - apply inv_keeps; [done|]. apply keeps_fail_start.
  - apply inv_keeps; [done|]. apply keeps_unavailable.
  - cbn [sys_step]. destruct (sy_openers st !! sid); [|done].
    eapply (inv_frame None st); cbn; auto using threads_stay, keeps_session_opened.
  - apply inv_keeps; [done|]. apply keeps_sink_data.
  - apply inv_keeps; [done|]. apply keeps_sink_exited.
Qed.

Lemma inv_run st evs : sys_inv st -> sys_inv (run_broker st evs).
Proof. revert st. induction evs as [|ev evs IH]; intros st V; [done|]. by apply IH, inv_step. Qed.

Lemma reachable_inv evs : sys_inv (run_broker new_system evs).
Proof. apply inv_run, inv_new. Qed.

(** ** What a step logs *)

(** what holds of a system when a command is handed to a connection *)
Definition may_exec (st : System) (rid : bytes) (t : Target) (c : bytes) (i : option bytes) (now : N) : Prop :=
  exists sub g,
    (* exactly what was submitted *)
    LSubmitted rid sub ∈ sy_log st /\ c = with_env (sb_command sub) (sb_cwd sub) (sb_env sub) /\ i = sb_stdin sub /\
    (* under a live grant of the submitter for this target, not expired *)
    covers (sy_broker st) sub g /\ g_targets g !! sb_target sub = Some t /\ expired_at now (g_until g) = false /\
    (LGranted (sb_owner sub) g ∈ sy_log st \/ LRestored (sb_owner sub) g ∈ sy_log st) /\
    (* and approved, unless the grant needs no approval *)
    (g_approval_mode g = Trusted \/ LApproved rid ∈ sy_log st).

Lemma within_unexpired d now until : within d until -> now < d -> expired_at now until = false.
Proof. unfold within, expired_at. destruct until; [|done]. intros. apply N.leb_gt. lia. Qed.

(** every event appends to the log *)
Definition appends (st : System) (ev : BrokerEvent) (l : list LogEntry) : Prop :=
  sy_log (sys_step st ev) = sy_log st ++ l /\
  (forall rid s, LSubmitted rid s ∈ l -> l = [LSubmitted rid s] /\ (rid ∉ sy_used st) /\ rid ∈ sy_used (sys_step st ev)) /\
  (forall rid t c i n, LExec rid t c i n ∈ l -> l = [LExec rid t c i n] /\ may_exec st rid t c i n /\
     exists w conn, sy_workers st !! rid = Some (w, PExec conn)).

(** entries that are neither *)
Definition quiet (x : LogEntry) : bool :=
  match x with LSubmitted _ _ | LExec _ _ _ _ _ => false | _ => true end.

Lemma appends_quiet st ev l :
  sy_log (sys_step st ev) = sy_log st ++ l -> Forall (fun x => quiet x = true) l -> appends st ev l.
Proof. intros E Hl. split; [done|]. rewrite list.Forall_forall in Hl. split; intros * H%Hl; done. Qed.

Lemma appends_none st ev : sy_log (sys_step st ev) = sy_log st -> exists l, appends st ev l.
Proof. intros E. exists []. apply appends_quiet; [by rewrite app_nil_r|done]. Qed.

Lemma appends_worker st ev rid f :
  sys_step st ev = worker_step st rid f -> (forall w p b p' l, f w p = Some (b, p', l) -> l = []) ->
  exists l, appends st ev l.
Proof.
  intros E Hf. apply appends_none. rewrite E. unfold worker_step. destruct (sy_workers st !! rid) as [[w p]|]; [|done].
  destruct (f w p) as [[[b p'] l]|] eqn:Ef; [|done]. apply Hf in Ef as ->. cbn. by rewrite app_nil_r.
Qed.

Lemma appends_exec st e rid outcome : sys_inv st -> exists l, appends st (EWExec e rid outcome) l.
Proof.
  intros V. destruct (sy_workers st !! rid) as [[w p]|] eqn:Hp;
    [|apply appends_none; cbn; unfold worker_step; by rewrite Hp].
  destruct p; try (apply appends_none; cbn; unfold worker_step; by rewrite Hp).
  destruct (worker_exec e rid w conn outcome (sy_broker st)) as [[b p'] sent] eqn:Ew.
  destruct sent; [|apply appends_none; cbn; unfold worker_step; rewrite Hp, Ew; cbn; by rewrite app_nil_r].
  exists [LExec rid (w_target w) (w_command w) (sb_stdin (w_sub w)) (e_now e)].
  split; [cbn; unfold worker_step; by rewrite Hp, Ew|]. split; [intros * H%list_elem_of_singleton; done|].
  intros k t c i n H%list_elem_of_singleton. injection H as -> -> -> -> ->. split; [done|]. split; [|eauto].
  unfold worker_exec in Ew. destruct (_ || _) eqn:Ec; [done|]. apply orb_false_elim in Ec as [Hc Hd%N.leb_gt].
  destruct (v_workers _ V rid w _ Hp) as (_ & _ & Hs & Hcmd & _ & Ha).
  destruct (Ha ltac:(done) Hc) as (r & g & _ & _ & _ & _ & Hcov & Ht & Hw & Happ).
  exists (w_sub w), g. split; [done|]. split; [done|]. split; [done|]. split; [done|]. split; [done|].
  split; [by eapply within_unexpired|]. split; [|done]. apply (v_grants _ V), Hcov.
Qed.

Lemma appends_request st e owner req : sys_inv st -> exists l, appends st (ERequest e owner req) l.
Proof.
  intros V. destruct (decide (e_id e 0 ∈ sy_used st)) as [Hin|Hid].
  { apply appends_none. cbn. unfold request_step. by rewrite bool_decide_eq_true_2. }
  destruct (request_locked e owner req (sy_broker st)) as [r b] eqn:Er.
  assert (Hst : sys_step st (ERequest e owner req) = request_step st e owner req) by done.
  unfold request_step in Hst. rewrite bool_decide_eq_false_2, Er in Hst by done.
  apply request_locked_spec in Er. destruct r as [[|o resp|rid mode]|err]; try (apply appends_none; by rewrite Hst).
  destruct Er as (b1 & g & run & _ & _ & _ & -> & -> & _). cbn [with_state b_state set_runs runs] in Hst.
  rewrite lookup_insert_eq in Hst. exists [LSubmitted (e_id e 0) (r_sub run)].
  split; [by rewrite Hst|]. rewrite Hst. split.
  - intros rid s H%list_elem_of_singleton. injection H as -> ->. split_and!; [done..|]. cbn. set_solver.
  - intros * H%list_elem_of_singleton. done.
Qed.

Lemma step_appends st ev : sys_inv st -> exists l, appends st ev l.
Proof.
  intros V. destruct ev; try by apply appends_none.
  - destruct (grant_with_limits e owner label targets seconds ticket mode max_timeout_ms limits (sy_broker st)) as [r b] eqn:Eg.
    destruct r as [[]|]; [|apply appends_none; cbn; by rewrite Eg].
    destruct (grants (b_state b) !! owner) as [g|] eqn:Eo; [|apply appends_none; cbn; by rewrite Eg, Eo].
    exists [LGranted owner g]. apply appends_quiet; [cbn; by rewrite Eg, Eo|by repeat constructor].
  - destruct (forget_access e owner (sy_broker st)) as [r b] eqn:Ef.
    destruct r; [|apply appends_none; cbn; by rewrite Ef].
    exists [LForgot owner]. apply appends_quiet; [cbn; by rewrite Ef|by repeat constructor].
  - exists [LSuspended]. apply appends_quiet; [done|by repeat constructor].
  - eexists. apply appends_quiet; [reflexivity|]. apply Forall_fmap, list.Forall_forall. done.
  - by apply appends_request.
  - destruct (start_run e rid allowed mode (sy_broker st)) as [r b] eqn:Es.
    destruct r as [[w|]|]; [|apply appends_none; cbn; by rewrite Es..].
    eexists. apply appends_quiet; [cbn; by rewrite Es|]. destruct mode; by repeat constructor.
  - apply appends_none. cbn. by destruct (sy_openers st !! sid).
  - eapply appends_worker; [reflexivity|]. intros w p b p' l. destruct p; try done. destruct (worker_record _ _ _ _). naive_solver.
  - eapply appends_worker; [reflexivity|]. intros w p b p' l. destruct p; try done. destruct (worker_connect _ _ _). naive_solver.
  - by apply appends_exec.
  - eapply appends_worker; [reflexivity|]. intros w p b p' l. destruct p; try done. naive_solver.
  - eapply appends_worker; [reflexivity|]. intros w p b p' l. destruct p; try done. naive_solver.
Qed.

(** ** What changes grants, consents and suspension *)

(** the records of no new integration appear, and consents only disappear *)
Definition shrinks (b b' : Broker) : Prop :=
  grants (b_state b') ⊆ grants (b_state b) /\ (forall c, c ∈ b_saved b' -> c ∈ b_saved b) /\
  b_suspended b' = b_suspended b.

Lemma shrinks_keeps ex b b' : keeps ex b b' -> shrinks b b'.
Proof. intros K. split_and!; [by rewrite (k_grants _ _ _ K)|by rewrite (k_saved _ _ _ K)|apply (k_suspended _ _ _ K)]. Qed.

Lemma shrinks_refl b : shrinks b b.
Proof. done. Qed.

Lemma shrinks_trans b1 b2 b3 : shrinks b1 b2 -> shrinks b2 b3 -> shrinks b1 b3.
Proof. intros (H1 & H2 & H3) (G1 & G2 & G3). split_and!; [by etrans|auto|congruence]. Qed.

Lemma shrinks_revoke_inner owner b : shrinks b (revoke_inner owner b).
Proof.
  destruct (revoke_inner_spec owner b) as (Hg & _ & _ & Hs & Hu & _). split_and!; [|by rewrite Hs|done].
  rewrite Hg. apply map_filter_subseteq.
Qed.

Lemma shrinks_revoke owner b : shrinks b (revoke owner b).
Proof. apply (shrinks_trans b (bump_epoch b)); [done|apply shrinks_revoke_inner]. Qed.

(** events that give no access and do not end a suspension *)
Definition gives_access (ev : BrokerEvent) : bool :=
  match ev with EGrant _ _ _ _ _ _ _ _ _ | ERestore _ | ESuspend | EResume _ => true | _ => false end.

Lemma adds_run_shrinks e owner b b' rid mode : adds_run e owner b b' rid mode -> shrinks b b'.
Proof. intros (b1 & g & run & K & _ & _ & -> & _). apply shrinks_keeps in K. exact K. Qed.

(** how such an event changes the broker *)
Inductive change (used : gset bytes) (b b' : Broker) : Prop :=
| ChKeeps ex (K : keeps ex b b')
| ChAdds e owner rid mode (U : rid ∉ used) (A : adds_run e owner b b' rid mode)
| ChRevokes owner saved (S : forall c, c ∈ saved -> c ∈ b_saved b) (E : b' = with_saved saved (revoke owner b)).

Lemma change_refl used b : change used b b.
Proof. apply (ChKeeps _ _ _ None), keeps_refl. Qed.

Lemma revoke_saved owner b : with_saved (b_saved b) (revoke owner b) = revoke owner b.
Proof.
  assert (Hsv : b_saved (revoke owner b) = b_saved b).
  { by destruct (revoke_inner_spec owner (bump_epoch b)) as (_ & _ & _ & Hs & _). }
  rewrite <-Hsv. by destruct (revoke owner b).
Qed.

Lemma change_revoke used owner b : change used b (revoke owner b).
Proof. apply (ChRevokes _ _ _ owner (b_saved b)); [done|]. by rewrite revoke_saved. Qed.

Lemma worker_step_broker st rid f :
  (forall w p b p' l, f w p = Some (b, p', l) -> exists ex, keeps ex (sy_broker st) b) ->
  change (sy_used st) (sy_broker st) (sy_broker (worker_step st rid f)).
Proof.
  intros Hf. unfold worker_step. destruct (sy_workers st !! rid) as [[w p]|]; [|apply change_refl].
  destruct (f w p) as [[[b p'] l]|] eqn:Ef; [|apply change_refl]. cbn. destruct (Hf _ _ _ _ _ Ef) as [ex K]. by eapply ChKeeps.
Qed.

Lemma step_change st ev : gives_access ev = false -> change (sy_used st) (sy_broker st) (sy_broker (sys_step st ev)).
Proof.
  intros Hev. destruct ev; try discriminate Hev; cbn [sys_step on_broker sy_broker].
  - apply change_revoke.
  - destruct (forget_access e owner (sy_broker st)) as [r b] eqn:Ef. apply forget_spec in Ef as (saved & -> & Hs & _).
    destruct r; by eapply ChRevokes.
  - eapply ChKeeps, keeps_set_limits.
  - apply (ChKeeps _ _ _ None). by apply keeps_same.
  - unfold revoke_expired. destruct (grants _ !! _); [|apply change_refl]. destruct (_ && _); [apply change_revoke|apply change_refl].
  - eapply ChKeeps, keeps_sweep_records.
  - unfold request_step. case_bool_decide as Hid; [apply change_refl|].
    destruct (request_locked e owner req (sy_broker st)) as [r b] eqn:Er. apply request_locked_spec in Er.
    destruct r as [[|o resp|rid mode]|err]; cbn; try (by eapply ChKeeps).
    assert (rid = e_id e 0) as Hrid by (destruct Er as (b1 & g & run & _ & _ & _ & _ & Hrid & _); done).
    rewrite <-Hrid in Hid. destruct (runs (b_state b) !! rid); by eapply ChAdds.
  - destruct (start_run e rid allowed mode (sy_broker st)) as [r b] eqn:Es.
    destruct r as [[w|]|]; cbn; [|eapply ChKeeps, keeps_start; [done|congruence]..].
    apply start_run_spec in Es as (_ & run & g & s & Hr & Hns & Hs & -> & _). apply (ChKeeps _ _ _ (Some rid)).
    eapply keeps_replace; [done..|]. split; [|done]. intros ?. by destruct Hns.
  - eapply ChKeeps, keeps_fail_start.
  - eapply ChKeeps, keeps_unavailable.
  - destruct (sy_openers st !! sid); [|apply change_refl]. eapply ChKeeps, keeps_session_opened.
  - apply worker_step_broker. intros w p b p' l. destruct p; try done.
    unfold worker_record. destruct outcome; intros [= <- <- <-].
    + exists None. eapply keeps_trans; [|apply keeps_update_run; mild_same]. destruct a; [by apply keeps_same|apply keeps_refl].
    + exists (Some rid). apply keeps_ended. intros r. do 2 (split; [done|]). done.
  - apply worker_step_broker. intros w p b p' l. destruct p; try done. unfold worker_connect.
    intros H. exists None. repeat (case_match; simplify_eq/=); first [apply keeps_refl|apply keeps_cancel].
  - apply worker_step_broker. intros w p b p' l. destruct p; try done. unfold worker_exec.
    intros H. exists None. repeat (case_match; simplify_eq/=); first [apply keeps_refl|apply keeps_update_run; mild_same].
  - apply worker_step_broker. intros w p b p' l. destruct p; try done. intros [= <- <- <-]. exists None. apply keeps_refl.
  - apply worker_step_broker. intros w p b p' l. destruct p; try done. intros [= <- <- <-]. exists (Some rid). apply keeps_worker_end.
  - eapply ChKeeps, keeps_sink_data.
  - eapply ChKeeps, keeps_sink_exited.
Qed.

Lemma step_shrinks st ev : gives_access ev = false -> shrinks (sy_broker st) (sy_broker (sys_step st ev)).
Proof.
  intros [ex K|e owner rid mode _ A|owner saved Hs ->]%(step_change st); [by eapply shrinks_keeps|by eapply adds_run_shrinks|].
  destruct (shrinks_revoke owner (sy_broker st)) as (H1 & _ & H3). by split_and!.
Qed.

(** a suspended broker has no grants *)
Lemma suspended_step st ev :
  (b_suspended (sy_broker st) = true -> grants (b_state (sy_broker st)) = ∅) ->
  b_suspended (sy_broker (sys_step st ev)) = true -> grants (b_state (sy_broker (sys_step st ev))) = ∅.
Proof.
  intros V. destruct (gives_access ev) eqn:Ev.
  - destruct ev; try done; cbn.
    + destruct (grant_with_limits _ _ _ _ _ _ _ _ _ _) as [r b] eqn:Eg. pose proof Eg as Hg. apply grant_spec in Hg.
      destruct r as [[]|]; [|subst; done]. destruct Hg as (Hs & g & c & -> & _).
      set (b0 := with_saved _ _). destruct (revoke_inner_spec (Some owner) b0) as (_ & _ & _ & _ & Hu & _).
      cbn. rewrite lookup_insert_eq. cbn in Hu |- *. congruence.
    + intros _. unfold revoke_inner. cbn. rewrite (proj1 (cancel_all_rest _ _)), (proj1 (cancel_all_rest _ _)). cbn.
      apply map_empty. intros k. apply map_lookup_filter_None. right. by intros.
    + unfold resume_if_current. destruct (_ =? _); [done|exact V].
    + destruct (restore_spec e (sy_broker st)) as (_ & _ & _ & _ & Hu & _ & Hid & _). rewrite Hu.
      intros Hs. rewrite (Hid Hs). auto.
  - destruct (step_shrinks st ev Ev) as (H1 & _ & H3). rewrite H3. intros Hs. specialize (V Hs).
    apply map_empty. intros k. eapply lookup_weaken_None; [|exact H1]. rewrite V. apply lookup_empty.
Qed.

Lemma reachable_suspended evs :
  b_suspended (sy_broker (run_broker new_system evs)) = true -> grants (b_state (sy_broker (run_broker new_system evs))) = ∅.
Proof.
  induction evs as [|ev evs IH] using rev_ind; [done|]. unfold run_broker in *. rewrite foldl_snoc.
  by apply suspended_step.
Qed.

(** the integration has no grant, and no consent from which one could be restored *)
Definition no_access (o : bytes) (b : Broker) : Prop :=
  grants (b_state b) !! o = None /\ forall c, c ∈ b_saved b -> sa_integration_id c <> o.

Lemma no_access_shrinks o b b' : shrinks b b' -> no_access o b -> no_access o b'.
Proof. intros (H1 & H2 & _) [N1 N2]. split; [by eapply lookup_weaken_None|auto]. Qed.

Definition grants_to (o : bytes) (ev : BrokerEvent) : bool :=
  match ev with EGrant _ owner _ _ _ _ _ _ _ => bytes_eqb owner o | _ => false end.

Lemma no_access_step o st ev :
  grants_to o ev = false -> no_access o (sy_broker st) -> no_access o (sy_broker (sys_step st ev)).
Proof.
  intros Hev N. destruct (gives_access ev) eqn:Ev; [|by eapply no_access_shrinks, N; apply step_shrinks].
  destruct ev; try done; cbn.
  - destruct (grant_with_limits _ _ _ _ _ _ _ _ _ _) as [r b] eqn:Eg. pose proof Eg as Hg. apply grant_spec in Hg.
    destruct r as [[]|]; [|subst; done]. destruct Hg as (_ & g & c & -> & Hc & _). cbn. rewrite lookup_insert_eq.
    apply bytes_eqb_false in Hev.
    set (b0 := with_saved _ _). assert (N0 : no_access o b0).
    { split; [apply N|]. intros c' [[_ H]%list_elem_of_filter|H%list_elem_of_singleton]%elem_of_app; [by apply N|congruence]. }
    pose proof (no_access_shrinks o _ _ (shrinks_revoke_inner (Some owner) b0) N0) as [N1 N2].
    split; [|exact N2]. cbn. by rewrite lookup_insert_ne.
  - unfold suspend. apply (no_access_shrinks o _ _ (shrinks_revoke_inner None
      (with_lifecycle (b_revocation_epoch (sy_broker st) + 1) true (b_access_revision (sy_broker st)) (sy_broker st)))). done.
  - unfold resume_if_current. by destruct (_ =? _).
  - destruct (restore_spec e (sy_broker st)) as (_ & _ & _ & Hs & _ & _ & _ & Hg). split; [|rewrite Hs; apply N].
    destruct (grants (b_state (restore_access e (sy_broker st))) !! o) as [g|] eqn:E; [|done].
    destruct (Hg o g E) as [H|(c & Hc & <-)]; [by rewrite (proj1 N) in H|by apply N in Hc].
Qed.

(** ** Commands in the log *)

Definition is_exec (x : LogEntry) : bool := match x with LExec _ _ _ _ _ => true | _ => false end.
Definition exec_ids (l : list LogEntry) : list bytes :=
  omap (fun x => match x with LExec rid _ _ _ _ => Some rid | _ => None end) l.
Definition submitted_ids (l : list LogEntry) : list bytes :=
  omap (fun x => match x with LSubmitted rid _ => Some rid | _ => None end) l.

Lemma elem_exec_ids rid l : rid ∈ exec_ids l <-> exists t c i n, LExec rid t c i n ∈ l.
Proof.
  unfold exec_ids. rewrite list_elem_of_omap. split.
  - intros (x & Hx & Hr). destruct x; simplify_eq. eauto.
  - intros (t & c & i & n & H). eauto.
Qed.

Lemma elem_submitted_ids rid l : rid ∈ submitted_ids l <-> exists s, LSubmitted rid s ∈ l.
Proof.
  unfold submitted_ids. rewrite list_elem_of_omap. split.
  - intros (x & Hx & Hr). destruct x; simplify_eq. eauto.
  - intros (s & H). eauto.
Qed.

(** what one event adds to the log *)
Definition news (st : System) (ev : BrokerEvent) : list LogEntry :=
  drop (length (sy_log st)) (sy_log (sys_step st ev)).

Lemma step_news st ev : sys_inv st -> appends st ev (news st ev).
Proof.
  intros V. destruct (step_appends st ev V) as [l Hl]. unfold news. pose proof Hl as [-> _].
  by rewrite drop_app_length.
Qed.

(** what several events add *)
Lemma run_news st evs x :
  sys_inv st -> x ∈ sy_log (run_broker st evs) ->
  x ∈ sy_log st \/ exists evs1 ev evs2, evs = evs1 ++ ev :: evs2 /\ x ∈ news (run_broker st evs1) ev.
Proof.
  intros V. induction evs as [|ev evs IH] using rev_ind; [by left|]. unfold run_broker in *. rewrite foldl_snoc.
  destruct (step_news (foldl sys_step st evs) ev (inv_run st evs V)) as [-> _]. intros [H|H]%elem_of_app.
  - destruct (IH H) as [|(e1 & e & e2 & -> & Hx)]; [by left|]. right. exists e1, e, (e2 ++ [ev]).
    by rewrite <-app_assoc.
  - right. exists evs, ev, []. done.
Qed.

Lemma run_log st evs x : sys_inv st -> x ∈ sy_log st -> x ∈ sy_log (run_broker st evs).
Proof.
  revert st. induction evs as [|ev evs IH]; intros st V Hx; [done|]. apply IH; [by apply inv_step|].
  destruct (step_news st ev V) as [-> _]. apply elem_of_app. by left.
Qed.

Lemma step_used st ev : sy_used st ⊆ sy_used (sys_step st ev).
Proof.
  destruct ev; cbn; try done;
    try (unfold worker_step; destruct (sy_workers st !! rid) as [[w p]|]; [|done]; by destruct p; repeat case_match).
  - repeat case_match; done.
  - by destruct (forget_access _ _ _) as [[] ?].
  - unfold request_step. case_bool_decide; [done|]. destruct (request_locked _ _ _ _) as [[[|o resp|rid mode]|] b]; cbn; try set_solver.
    destruct (runs (b_state b) !! rid); set_solver.
  - repeat case_match; done.
  - by destruct (sy_openers st !! sid).
Qed.

(** a list of new identifiers keeps the others unique *)
Lemma NoDup_snoc_new {A} (l l' : list A) :
  NoDup l -> (forall x, x ∈ l' -> l' = [x] /\ (x ∉ l)) -> NoDup (l ++ l').
Proof.
  intros Hl Hn. destruct l' as [|x l']; [by rewrite app_nil_r|]. destruct (Hn x) as [-> Hx]; [by left|].
  apply list.NoDup_app. split_and!; [done| |apply NoDup_singleton]. intros y Hy ->%list_elem_of_singleton. done.
Qed.

Lemma ids_unique evs :
  let st := run_broker new_system evs in
  NoDup (submitted_ids (sy_log st)) /\ NoDup (exec_ids (sy_log st)) /\
  (forall rid, rid ∈ submitted_ids (sy_log st) -> rid ∈ sy_used st).
Proof.
  induction evs as [|ev evs (H1 & H2 & H3)] using rev_ind; [split_and!; [constructor..|set_solver]|].
  cbv zeta. unfold run_broker in *. rewrite foldl_snoc.
  set (st := foldl sys_step new_system evs) in *.
  assert (V : sys_inv st) by apply reachable_inv.
  destruct (step_news st ev V) as (E & Hs & He). rewrite E. unfold submitted_ids, exec_ids in *. rewrite !omap_app.
  split_and!.
  - apply NoDup_snoc_new; [done|]. intros rid (s & Hin)%elem_submitted_ids.
    destruct (Hs rid s Hin) as (-> & Hu & _). split; [done|]. intros Hr%H3. done.
  - apply NoDup_snoc_new; [done|]. intros rid (t & c & i & n & Hin)%elem_exec_ids.
    destruct (He _ _ _ _ _ Hin) as (-> & _ & w & conn & Hw). split; [done|].
    intros (t' & c' & i' & n' & Hold)%elem_exec_ids. destruct (v_exec _ V _ _ _ _ _ Hold) as (w' & p' & Hw' & Hp).
    rewrite Hw in Hw'. injection Hw' as <- <-. done.
  - intros rid [Hr|Hr]%elem_of_app; [by apply step_used, H3|].
    apply elem_submitted_ids in Hr as (s & Hin). by destruct (Hs rid s Hin) as (_ & _ & Hu).
Qed.

Lemma submission_unique evs rid s1 s2 :
  let st := run_broker new_system evs in
  LSubmitted rid s1 ∈ sy_log st -> LSubmitted rid s2 ∈ sy_log st -> s1 = s2.
Proof.
  cbv zeta. destruct (ids_unique evs) as [Hnd _]. revert Hnd. generalize (sy_log (run_broker new_system evs)).
  intros l Hnd H1 H2. apply list_elem_of_lookup in H1 as [i Hi], H2 as [j Hj].
  destruct (decide (i = j)) as [->|Hne]; [congruence|exfalso].
  assert (Hlt : forall i j s1 s2, (i < j)%nat -> l !! i = Some (LSubmitted rid s1) -> l !! j = Some (LSubmitted rid s2) -> False).
  { clear -Hnd. intros i j s1 s2 Hij Hi Hj. rewrite <-(take_drop j l) in Hnd.
    unfold submitted_ids in Hnd. rewrite omap_app in Hnd. apply list.NoDup_app in Hnd as (_ & Hd & _).
    apply (Hd rid); apply elem_submitted_ids.
    - exists s1. apply list_elem_of_lookup. exists i. by rewrite lookup_take_lt.
    - exists s2. apply list_elem_of_lookup. exists 0%nat. rewrite lookup_drop. by rewrite Nat.add_0_r. }
  destruct (Nat.lt_ge_cases i j); [by eapply (Hlt i j)|eapply (Hlt j i); [lia|done..]].
Qed.

(** a command in the news *)
Lemma news_exec evs ev rid t c i n :
  LExec rid t c i n ∈ news (run_broker new_system evs) ev ->
  may_exec (run_broker new_system evs) rid t c i n /\ grants (b_state (sy_broker (run_broker new_system evs))) <> ∅.
Proof.
  intros H. destruct (step_news _ ev (reachable_inv evs)) as (_ & _ & He).
  destruct (He _ _ _ _ _ H) as (_ & Hm & _). split; [done|]. intros Es.
  destruct Hm as (sub & g & _ & _ & _ & (Hg & _) & _). by rewrite Es, lookup_empty in Hg.
Qed.

Lemma suspended_stays st ev :
  (forall epoch, ev <> EResume epoch) -> b_suspended (sy_broker st) = true ->
  b_suspended (sy_broker (sys_step st ev)) = true.
Proof.
  intros Hev Hs. destruct (gives_access ev) eqn:Ev; [|by destruct (step_shrinks st ev Ev) as (_ & _ & ->)].
  destruct ev; try done; cbn.
  - destruct (grant_with_limits _ _ _ _ _ _ _ _ _ _) as [r b] eqn:Eg. apply grant_spec in Eg.
    destruct r as [[]|]; [|by subst]. destruct Eg as [Hs' _]. congruence.
  - unfold suspend. set (b0 := with_lifecycle _ true _ _).
    destruct (revoke_inner_spec None b0) as (_ & _ & _ & _ & Hu & _). exact Hu.
  - by destruct (Hev epoch).
  - by destruct (restore_spec e (sy_broker st)) as (_ & _ & _ & _ & -> & _).
Qed.

Lemma forget_step st e o :
  (forget_access e (Some o) (sy_broker st)).1 = Ok tt ->
  no_access o (sy_broker (sys_step st (EForget e (Some o)))) /\
  sy_log (sys_step st (EForget e (Some o))) = sy_log st ++ [LForgot (Some o)].
Proof.
  intros Hf. cbn [sys_step]. destruct (forget_access e (Some o) (sy_broker st)) as [r b] eqn:Ef. cbn in Hf. subst r.
  split; [|done]. apply forget_spec in Ef as (saved & -> & _ & Hs). split.
  - destruct (revoke_inner_spec (Some o) (bump_epoch (sy_broker st))) as (Hg & _). cbn [log on_broker sy_broker].
    change (grants (b_state (revoke_inner (Some o) (bump_epoch (sy_broker st)))) !! o = None). rewrite Hg.
    apply map_lookup_filter_None. right. intros g _. cbn. by rewrite bytes_eqb_refl.
  - intros c Hc%Hs; [|done]. cbn in Hc. apply bytes_eqb_false in Hc. congruence.
Qed.

(** a property of the system that all events of a list keep *)
Lemma run_keeps (P : System -> Prop) (Q : BrokerEvent -> Prop) st evs :
  (forall st ev, Q ev -> P st -> P (sys_step st ev)) -> Forall Q evs -> P st -> P (run_broker st evs).
Proof.
  intros Hstep Hq. revert st. induction Hq as [|ev evs Hev _ IH]; intros st HP; [done|]. apply IH. auto.
Qed.

Lemma run_broker_app st evs evs' : run_broker st (evs ++ evs') = run_broker (run_broker st evs) evs'.
Proof. apply foldl_app. Qed.

(** ** The theorems *)

(** C5. Every command that the broker hands to a connection is, byte for byte, one that
    an integration submitted: command, working directory, environment and input. At that
    moment the integration that submitted it holds a live grant, given or restored before,
    of the same epoch, for this very target, which has not expired; the user approved
    this run unless the grant is a trusted one; and the broker is not suspended. The
    interleaving of requests, approvals, revocations, restores and threads is arbitrary. *)
Theorem exec_authorized evs ev rid t c i n :
  LExec rid t c i n ∈ news (run_broker new_system evs) ev ->
  may_exec (run_broker new_system evs) rid t c i n /\
  b_suspended (sy_broker (run_broker new_system evs)) = false.
Proof.
  intros [Hm Hg]%news_exec. split; [done|].
  destruct (b_suspended _) eqn:Es; [|done]. by apply reachable_suspended in Es.
Qed.

(** C6. A run is handed to a connection at most once, and its identifier stands for one
    submission only: no interleaving executes a submitted command a second time. *)
Theorem exec_at_most_once evs :
  NoDup (exec_ids (sy_log (run_broker new_system evs))) /\
  NoDup (submitted_ids (sy_log (run_broker new_system evs))).
Proof. destruct (ids_unique evs) as (H1 & H2 & _). done. Qed.

(** C7. After the broker was suspended, no command reaches a connection until it is
    resumed: neither approved runs nor threads that were about to start one. *)
Theorem suspended_runs_nothing evs evs' :
  b_suspended (sy_broker (run_broker new_system evs)) = true ->
  (forall epoch, EResume epoch ∉ evs') ->
  forall x, x ∈ sy_log (run_broker new_system (evs ++ evs')) -> is_exec x = true ->
  x ∈ sy_log (run_broker new_system evs).
Proof.
  intros Hs Hno x Hx Hex. rewrite run_broker_app in Hx.
  apply run_news in Hx as [|(evs1 & ev & evs2 & -> & Hx)]; [done| |apply reachable_inv].
  destruct x as [| | | |rid t c i n| |]; try done. rewrite <-run_broker_app in Hx.
  apply news_exec in Hx as [_ Hg]. destruct Hg. apply reachable_suspended. rewrite run_broker_app.
  apply (run_keeps (fun st => b_suspended (sy_broker st) = true) (fun ev => forall epoch, ev <> EResume epoch));
    [intros; by apply suspended_stays| |done].
  apply list.Forall_forall. intros ev' Hin epoch ->. apply (Hno epoch), elem_of_app. by left.
Qed.

(** Once the access of an integration was forgotten, none of its commands, submitted
    before or after, reaches a connection until the user grants it access again: a
    restore brings nothing back. *)
Theorem forgotten_runs_nothing evs e o evs' :
  (forget_access e (Some o) (sy_broker (run_broker new_system evs))).1 = Ok tt ->
  Forall (fun ev => grants_to o ev = false) evs' ->
  forall rid t c i n sub,
    LExec rid t c i n ∈ sy_log (run_broker new_system (evs ++ EForget e (Some o) :: evs')) ->
    LSubmitted rid sub ∈ sy_log (run_broker new_system (evs ++ EForget e (Some o) :: evs')) ->
    sb_owner sub = o -> LExec rid t c i n ∈ sy_log (run_broker new_system evs).
Proof.
  intros Hf Hno rid t c i n sub Hx Hsub Ho. rewrite run_broker_app in Hx.
  apply run_news in Hx as [|(evs1 & ev & evs2 & Heq & Hx)]; [done| |apply reachable_inv].
  rewrite <-run_broker_app in Hx. exfalso.
  assert (Hmay := news_exec _ _ _ _ _ _ _ Hx). destruct Hmay as ((sub' & g & Hs' & _ & _ & (Hg & _) & _) & _).
  assert (sub' = sub) as ->.
  { eapply (submission_unique (evs ++ EForget e (Some o) :: evs') rid); [|done]. rewrite Heq.
    rewrite (app_assoc evs evs1), run_broker_app. apply run_log; [apply reachable_inv|done]. }
  destruct evs1 as [|ev1 evs1]; injection Heq as <- ->.
  - (* the forgetting itself hands nothing over *)
    rewrite app_nil_r in Hx. unfold news in Hx. rewrite (proj2 (forget_step _ _ _ Hf)), drop_app_length in Hx.
    by apply list_elem_of_singleton in Hx.
  - assert (N : no_access o (sy_broker (run_broker new_system (evs ++ EForget e (Some o) :: evs1)))); [|rewrite Ho in Hg; by rewrite (proj1 N) in Hg].
    rewrite run_broker_app. cbn [run_broker foldl].
    apply (run_keeps (fun st => no_access o (sy_broker st)) (fun ev => grants_to o ev = false)); [intros; by apply no_access_step| |].
    + by apply Forall_app in Hno as [? _].
    + by apply forget_step.
Qed.

(** ** A run: grant, submission, approval, execution *)

Module Demo.
Definition owner : bytes := [x01].
Definition run_id : bytes := [x07].
Definition target_id : bytes := [x08].
Definition target : Target := mkTarget (mkTargetInfo [x02] [x03] [] [] [] [] [x04] 22 [x05]) (1, 1).
Definition env (now : N) (ids : nat -> bytes) : Env :=
  mkEnv now now now (fun _ => Ok (1, 1)) (Ok [x09]) (fun _ _ => Ok target) (Ok tt) (Ok tt) ids true true.
Definition grant : BrokerEvent :=
  EGrant (env 0 (fun n => if (n =? 0)%nat then target_id else [x0a])) owner [] [([x02], [x03])] (Some 10)
    (Some (0, (1, 1))) Manual 1000 default_grant_limits.
Definition submit : BrokerEvent :=
  ERequest (env 1 (fun _ => run_id)) owner
    (RunCommand (OneShot target_id) [x6c; x73] [x0b] None None None ∅).
Definition approve : BrokerEvent := EStart (env 2 (fun _ => [])) run_id true Manual.
Definition started_evs : list BrokerEvent :=
  [grant; submit; approve; EWRecord (env 3 (fun _ => [])) run_id (Ok false); EWConnect run_id (Ok 5)].
Definition exec : BrokerEvent := EWExec (env 4 (fun _ => [])) run_id (Ok tt).
Definition forget : Env := env 3 (fun _ => []).
End Demo.

Lemma exec_authorized_witness :
  may_exec (run_broker new_system Demo.started_evs) Demo.run_id Demo.target [x6c; x73] None 4 /\
  b_suspended (sy_broker (run_broker new_system Demo.started_evs)) = false.
Proof.
  apply (exec_authorized Demo.started_evs Demo.exec).
  assert (E : news (run_broker new_system Demo.started_evs) Demo.exec =
              [LExec Demo.run_id Demo.target [x6c; x73] None 4]) by (vm_compute; reflexivity).
  rewrite E. by left.
Defined.

(** a command executed before the broker is suspended; the thread then asks once more *)
Lemma suspended_runs_nothing_witness :
  LExec Demo.run_id Demo.target [x6c; x73] None 4 ∈
    sy_log (run_broker new_system (Demo.started_evs ++ [Demo.exec; ESuspend])).
Proof.
  apply (suspended_runs_nothing (Demo.started_evs ++ [Demo.exec; ESuspend]) [Demo.exec]).
  - vm_compute. reflexivity.
  - intros epoch H%list_elem_of_singleton. discriminate H.
  - apply list_elem_of_In. vm_compute. tauto.
  - reflexivity.
Defined.

Lemma forgotten_runs_nothing_witness :
  LExec Demo.run_id Demo.target [x6c; x73] None 4 ∈ sy_log (run_broker new_system (Demo.started_evs ++ [Demo.exec])).
Proof.
  apply (forgotten_runs_nothing (Demo.started_evs ++ [Demo.exec]) Demo.forget Demo.owner [Demo.exec])
    with (sub := mkSubmission Demo.owner [x0a] Demo.target_id None [x0b] [x6c; x73] None ∅ None 1000).
  - vm_compute. reflexivity.
  - repeat constructor.
  - apply list_elem_of_In. vm_compute. tauto.
  - apply list_elem_of_In. vm_compute. tauto.
  - reflexivity.
Defined.
