(* ===== verification/BrokerQuota.v ===== *)
(** * The automation broker keeps to its limits

    Over all runs of [BrokerInv.System]: how many commands an integration has unfinished,
    that a request key names one command and a session runs one at a time, and that the
    output kept is counted exactly and within its ceilings. Then what the eviction of
    limits.rs drops, and when it refuses. *)

From Stdlib Require Import Strings.Byte NArith ZArith Lia.
From stdpp Require Import base gmap sets list strings sorting countable.
From S2P Require Import Prelude Bytes Storage AutoOutput AutoText BrokerState Broker BrokerInv BrokerSteps BrokerThy.

Local Open Scope N_scope.

(** ** Counting unfinished commands *)

Definition unfinished_by (o : bytes) (e : bytes * Run) : Prop := r_owner e.2 = o /\ finished e.2 = false.

#[global] Instance unfinished_by_dec o e : Decision (unfinished_by o e).
Proof. apply _. Defined.

Lemma map_to_list_filter_perm (P : bytes * Run -> Prop) `{!forall x, Decision (P x)} (m : gmap bytes Run) :
  filter P (map_to_list m) ≡ₚ map_to_list (filter P m).
Proof.
  apply NoDup_Permutation; [apply list.NoDup_filter, NoDup_map_to_list|apply NoDup_map_to_list|].
  intros [k r]. rewrite list_elem_of_filter, !elem_of_map_to_list, map_lookup_filter_Some. tauto.
Qed.

Lemma unfinished_size o s : unfinished_of o s = size (dom (filter (unfinished_by o) (runs s))).
Proof.
  unfold unfinished_of. rewrite size_dom, <-length_map_to_list.
  apply Permutation_length, (map_to_list_filter_perm (unfinished_by o)).
Qed.

Lemma elem_of_unfinished o s k :
  k ∈ dom (filter (unfinished_by o) (runs s)) <->
  exists r, runs s !! k = Some r /\ r_owner r = o /\ finished r = false.
Proof. rewrite elem_of_dom. unfold is_Some. setoid_rewrite map_lookup_filter_Some. done. Qed.

(** unfinished commands that were there before, and at most the new ones *)
Lemma unfinished_le o s s' new :
  (forall k r', runs s' !! k = Some r' -> r_owner r' = o -> finished r' = false ->
     k ∈ new \/ exists r, runs s !! k = Some r /\ r_owner r = o /\ finished r = false) ->
  (unfinished_of o s' <= unfinished_of o s + size (new : gset bytes))%nat.
Proof.
  intros H. rewrite !unfinished_size.
  set (X := dom (filter (unfinished_by o) (runs s))). set (X' := dom (filter (unfinished_by o) (runs s'))).
  assert (Hsub : X' ⊆ X ∪ new).
  { intros k (r' & Hr & Ho & Hf)%elem_of_unfinished. destruct (H k r' Hr Ho Hf) as [Hn|Hr'].
    - apply elem_of_union. by right.
    - apply elem_of_union. left. by apply elem_of_unfinished. }
  apply subseteq_size in Hsub. rewrite size_union_alt in Hsub.
  pose proof (subseteq_size (new ∖ X) new ltac:(set_solver)). lia.
Qed.

(** ** The quota invariant *)

Record quota_inv (b : Broker) : Prop := mkQuotaInv {
  q_active : forall o g, grants (b_state b) !! o = Some g ->
    (unfinished_of o (b_state b) <= N.to_nat (max_active_commands (g_limits g)))%nat;
  q_keys : forall k1 k2 r1 r2, runs (b_state b) !! k1 = Some r1 -> runs (b_state b) !! k2 = Some r2 ->
    r_owner r1 = r_owner r2 -> r_epoch r1 = r_epoch r2 -> sb_key (r_sub r1) = sb_key (r_sub r2) -> k1 = k2;
  q_session : forall k1 k2 r1 r2 sid, runs (b_state b) !! k1 = Some r1 -> runs (b_state b) !! k2 = Some r2 ->
    finished r1 = false -> finished r2 = false -> sb_session (r_sub r1) = Some sid ->
    sb_session (r_sub r2) = Some sid -> k1 = k2
}.

Lemma unfinished_back limit r r' : onward limit r r' -> finished r' = false -> finished r = false.
Proof. intros (_ & H & _) Hf. destruct (finished r); [|done]. rewrite H in Hf; done. Qed.

Lemma quota_keeps ex b b' : keeps ex b b' -> quota_inv b -> quota_inv b'.
Proof.
  intros K [QA QK QS]. pose proof (k_runs _ _ _ K) as R. unfold r_owner, r_epoch in *. split.
  - intros o g. rewrite (k_grants _ _ _ K). intros Hg. specialize (QA o g Hg).
    assert (Hle := unfinished_le o (b_state b) (b_state b') ∅). rewrite size_empty, Nat.add_0_r in Hle.
    etrans; [apply Hle|done]. intros k r' Hr Ho Hf. right. destruct (R k r' Hr) as (r & Hr0 & Hs & _ & _ & Hon).
    exists r. unfold r_owner in *. split_and!; [done|congruence|by eapply unfinished_back].
  - intros k1 k2 r1 r2 H1 H2. destruct (R _ _ H1) as (r1' & G1 & E1 & _), (R _ _ H2) as (r2' & G2 & E2 & _).
    unfold r_owner, r_epoch. rewrite E1, E2. by apply QK.
  - intros k1 k2 r1 r2 sid H1 H2. destruct (R _ _ H1) as (r1' & G1 & E1 & _ & _ & O1), (R _ _ H2) as (r2' & G2 & E2 & _ & _ & O2).
    rewrite E1, E2. intros F1 F2. apply (QS k1 k2 r1' r2'); eauto using unfinished_back.
Qed.

(** fewer runs; a grant is new only where no run is *)
Lemma quota_fewer b b' :
  runs (b_state b') ⊆ runs (b_state b) ->
  (forall o g, grants (b_state b') !! o = Some g ->
     grants (b_state b) !! o = Some g \/ forall k r, runs (b_state b') !! k = Some r -> r_owner r <> o) ->
  quota_inv b -> quota_inv b'.
Proof.
  intros Hsub Hg [QA QK QS]. split.
  - intros o g H. assert (Hle := unfinished_le o (b_state b) (b_state b') ∅). rewrite size_empty, Nat.add_0_r in Hle.
    destruct (Hg o g H) as [H'|H'].
    + etrans; [apply Hle|by apply QA]. intros k r Hr Ho Hf. right. exists r. split_and!; [|done..]. by eapply lookup_weaken.
    + rewrite unfinished_size. replace (dom _) with (∅ : gset bytes); [rewrite size_empty; lia|].
      symmetry. apply elem_of_equiv_empty_L. intros k (r & Hr & Ho & _)%elem_of_unfinished. by apply (H' k r).
  - intros k1 k2 r1 r2 H1 H2. apply QK; by eapply lookup_weaken.
  - intros k1 k2 r1 r2 sid H1 H2. apply QS; by eapply lookup_weaken.
Qed.

Lemma quota_same b b' : b_state b' = b_state b -> quota_inv b -> quota_inv b'.
Proof. intros E [QA QK QS]. split; rewrite E; done. Qed.

Lemma quota_revoke_inner owner b0 b :
  b_state b = b_state b0 -> quota_inv b0 -> quota_inv (revoke_inner owner b).
Proof.
  intros Hb Q. apply (quota_same b0 b Hb) in Q. revert Q.
  destruct (revoke_inner_spec owner b) as (Hg & Hr & _). apply quota_fewer.
  - rewrite Hr. apply map_filter_subseteq.
  - intros o g. rewrite Hg. intros [H _]%map_lookup_filter_Some. by left.
Qed.

Lemma session_active_spec m sid :
  session_active m sid = false ->
  forall k r, m !! k = Some r -> finished r = false -> sb_session (r_sub r) <> Some sid.
Proof.
  unfold session_active. intros H k r Hr Hf Hs.
  assert (Hex : existsb (fun e : bytes * Run => negb (finished e.2) && bool_decide (sb_session (r_sub e.2) = Some sid))
                  (map_to_list m) = true); [|congruence].
  apply existsb_exists. exists (k, r). split; [by apply list_elem_of_In, elem_of_map_to_list|].
  cbn. rewrite Hf. by apply bool_decide_eq_true_2.
Qed.

Lemma quota_adds e owner b b' rid mode : adds_run e owner b b' rid mode -> quota_inv b -> quota_inv b'.
Proof.
  intros (b1 & g & run & K & _ & _ & -> & -> & Hg & Ho & He & _ & _ & _ & _ & _ & _ & _ & _ & Hkey & Hsess & Hact) Q.
  pose proof (quota_keeps _ _ _ K Q) as [QA QK QS]. pose proof (k_runs _ _ _ K) as R.
  assert (Hkey' : forall k r, runs (b_state b1) !! k = Some r -> r_owner r = owner -> r_epoch r = g_epoch g ->
                    sb_key (r_sub r) <> sb_key (r_sub run)).
  { intros k r Hr. destruct (R k r Hr) as (r0 & Hr0 & Es & _). unfold r_owner, r_epoch in *. rewrite Es. by apply (Hkey k). }
  assert (Hsess' : forall sid k r, sb_session (r_sub run) = Some sid -> runs (b_state b1) !! k = Some r ->
                     finished r = false -> sb_session (r_sub r) <> Some sid).
  { intros sid k r Hs Hr Hf. destruct (R k r Hr) as (r0 & Hr0 & Es & _ & _ & On). rewrite Es.
    eapply session_active_spec; [by apply Hsess|done|by eapply unfinished_back]. }
  split; cbn.
  - intros o g' Hg'. rewrite (k_grants _ _ _ K) in Hg'. destruct (decide (o = owner)) as [->|Hne].
    + assert (g' = g) as -> by congruence.
      etrans; [apply (unfinished_le owner (b_state b) _ {[e_id e 0]})|rewrite size_singleton; lia].
      cbn. intros k r [(<- & <-)|[Hne Hr]]%lookup_insert_Some Hro Hf; [left; set_solver|right].
      destruct (R k r Hr) as (r0 & Hr0 & Es & _ & _ & On). exists r0. unfold r_owner in *.
      split_and!; [done|congruence|by eapply unfinished_back].
    + rewrite <-(k_grants _ _ _ K) in Hg'. etrans; [|by apply (QA o g')].
      assert (Hle := unfinished_le o (b_state b1) (set_runs <[e_id e 0:=run]> (b_state b1)) ∅).
      rewrite size_empty, Nat.add_0_r in Hle. apply Hle. cbn.
      intros k r [(<- & <-)|[_ Hr]]%lookup_insert_Some Hro Hf; [congruence|right; eauto].
  - intros k1 k2 r1 r2 [(<- & <-)|[N1 H1]]%lookup_insert_Some [(<- & <-)|[N2 H2]]%lookup_insert_Some E1 E2 E3; [done|..|by eapply QK].
    + destruct (Hkey' k2 r2 H2); congruence.
    + destruct (Hkey' k1 r1 H1); congruence.
  - intros k1 k2 r1 r2 sid [(<- & <-)|[N1 H1]]%lookup_insert_Some [(<- & <-)|[N2 H2]]%lookup_insert_Some F1 F2 S1 S2; [done|..|by eapply QS].
    + by destruct (Hsess' sid k2 r2 S1 H2 F2).
    + by destruct (Hsess' sid k1 r1 S2 H1 F1).
Qed.

Lemma quota_step st ev : sys_inv st -> quota_inv (sy_broker st) -> quota_inv (sy_broker (sys_step st ev)).
Proof.
  intros V Q. destruct (gives_access ev) eqn:Ev.
  2: { destruct (step_change st ev Ev) as [ex K|e owner rid mode _ A|owner saved _ ->];
         [by eapply quota_keeps|by eapply quota_adds|].
       apply (quota_same (revoke owner (sy_broker st))); [done|]. by apply (quota_revoke_inner _ (sy_broker st)). }
  destruct ev; try discriminate Ev; cbn [sys_step].
  - destruct (grant_with_limits _ _ _ _ _ _ _ _ _ _) as [r b] eqn:Eg. apply grant_spec in Eg.
    destruct r as [[]|]; [|by subst]. destruct Eg as (_ & g & c & -> & _). cbn. rewrite lookup_insert_eq. cbn.
    set (b0 := with_saved _ _). assert (Q1 : quota_inv (revoke_inner (Some owner) b0)) by by apply (quota_revoke_inner _ (sy_broker st)).
    destruct (revoke_inner_spec (Some owner) b0) as (_ & Hr & _). revert Q1 Hr. generalize (revoke_inner (Some owner) b0).
    intros b Q1 Hr. eapply quota_fewer, Q1; cbn; [done|]. intros o g' [(<- & <-)|[_ H]]%lookup_insert_Some; [right|by left].
    intros k r. rewrite Hr. intros [_ H]%map_lookup_filter_Some. cbn in H. apply bytes_eqb_false in H. congruence.
  - apply (quota_same (revoke_inner None (with_lifecycle (b_revocation_epoch (sy_broker st) + 1) true
             (b_access_revision (sy_broker st)) (sy_broker st)))); [done|]. by apply (quota_revoke_inner _ (sy_broker st)).
  - unfold resume_if_current. destruct (_ =? _); [by eapply quota_same, Q|done].
  - destruct (restore_spec e (sy_broker st)) as (Hr & _ & _ & _ & _ & Hsub & _). eapply quota_fewer, Q; cbn; [by rewrite Hr|].
    intros o g Hg. destruct (grants (b_state (sy_broker st)) !! o) as [g0|] eqn:E.
    + left. pose proof (lookup_weaken _ _ _ _ E Hsub). congruence.
    + right. intros k r. rewrite Hr. intros Hk <-. destruct (v_runs _ V k r Hk) as ((g1 & Hg1 & _) & _).
      unfold r_owner in E. congruence.
Qed.

(** At any time, an integration has at most as many unfinished commands as its grant
    allows, no two commands under one grant have the same request key, and a session has
    at most one unfinished command. *)
Theorem quotas_kept evs : quota_inv (sy_broker (run_broker new_system evs)).
Proof.
  induction evs as [|ev evs IH] using rev_ind; [by split|].
  rewrite run_broker_app. apply quota_step; [apply reachable_inv|done].
Qed.

(** ** The output that is kept *)

Definition output_inv (b : Broker) : Prop :=
  counted (b_state b) /\ forall k r, runs (b_state b) !! k = Some r -> r_bytes r <= per_run b r.

Lemma output_keeps ex b b' : keeps ex b b' -> output_inv b -> output_inv b'.
Proof.
  intros K [Hc Hr]. split; [by apply (k_counted _ _ _ K)|]. intros k r' Hk.
  destruct (k_runs _ _ _ K k r' Hk) as (r & Hk0 & Hs & _ & _ & (_ & _ & Hb)). specialize (Hr k r Hk0).
  unfold per_run, r_owner in *. rewrite (k_grants _ _ _ K), Hs. lia.
Qed.

Lemma output_adds e owner b b' rid mode :
  runs (b_state b) !! rid = None -> adds_run e owner b b' rid mode -> output_inv b -> output_inv b'.
Proof.
  intros Hno (b1 & g & run & K & _ & _ & -> & _ & _ & _ & _ & _ & _ & _ & _ & _ & Hz & _) V.
  apply (output_keeps _ _ _ K) in V as [Hc Hr].
  assert (Hno1 : runs (b_state b1) !! rid = None).
  { destruct (runs (b_state b1) !! rid) as [r1|] eqn:E; [|done]. apply (k_runs _ _ _ K) in E as (r & E & _). congruence. }
  split.
  - unfold counted. cbn. rewrite sum_bytes_insert, Hz by done. exact Hc.
  - cbn. intros k r [(<- & <-)|[_ Hk]]%lookup_insert_Some; [lia|]. by apply (Hr k).
Qed.

(** the counter is recomputed; the other integrations keep their grants *)
Lemma output_revoke_inner owner b0 b :
  b_state b = b_state b0 -> output_inv b0 -> output_inv (revoke_inner owner b).
Proof.
  intros Hb [_ Hr]. destruct (revoke_inner_spec owner b) as (Hg & Hru & _). split.
  - unfold counted, revoke_inner. cbn. done.
  - intros k r. rewrite Hru, Hb. intros [Hk Hm]%map_lookup_filter_Some. specialize (Hr k r Hk). cbn in Hm.
    unfold per_run in *. rewrite Hg, Hb. destruct (grants (b_state b0) !! r_owner r) as [g|] eqn:E; cbn in Hr; [|lia].
    erewrite (map_lookup_filter_Some_2 _ _ _ g); [done|done|done].
Qed.

(** more grants, where no run is *)
Lemma output_grow b b' :
  runs (b_state b') = runs (b_state b) -> retained_bytes (b_state b') = retained_bytes (b_state b) ->
  (forall k r, runs (b_state b) !! k = Some r -> grants (b_state b') !! r_owner r = grants (b_state b) !! r_owner r) ->
  output_inv b -> output_inv b'.
Proof.
  intros Hr Hb Hg [Hc Hl]. split; [unfold counted; by rewrite Hr, Hb|].
  intros k r. rewrite Hr. intros Hk. unfold per_run. rewrite (Hg k r Hk). by apply (Hl k).
Qed.

Lemma restore_retained e b : retained_bytes (b_state (restore_access e b)) = retained_bytes (b_state b).
Proof. unfold restore_access. repeat case_match; done. Qed.

Lemma output_step st ev : sys_inv st -> output_inv (sy_broker st) -> output_inv (sy_broker (sys_step st ev)).
Proof.
  intros V O. destruct (gives_access ev) eqn:Ev.
  2: { destruct (step_change st ev Ev) as [ex K|e owner rid mode U A|owner saved _ ->]; [by eapply output_keeps| |].
       - eapply output_adds; [|done..]. destruct (runs _ !! rid) as [r|] eqn:E; [|done].
         destruct (v_runs _ V rid r E) as (_ & Hu & _). done.
       - by apply (output_grow (revoke owner (sy_broker st))), (output_revoke_inner _ (sy_broker st)). }
  destruct ev; try discriminate Ev; cbn [sys_step].
  - destruct (grant_with_limits _ _ _ _ _ _ _ _ _ _) as [r b] eqn:Eg. apply grant_spec in Eg.
    destruct r as [[]|]; [|by subst]. destruct Eg as (_ & g & c & -> & _). cbn. rewrite lookup_insert_eq. cbn.
    set (b0 := with_saved _ _).
    assert (O1 : output_inv (revoke_inner (Some owner) b0)) by by apply (output_revoke_inner _ (sy_broker st)).
    destruct (revoke_inner_spec (Some owner) b0) as (_ & Hr & _). revert O1 Hr. generalize (revoke_inner (Some owner) b0).
    intros b O1 Hr. eapply output_grow, O1; cbn; [done..|]. intros k r. rewrite Hr. intros [_ H]%map_lookup_filter_Some.
    cbn in H. apply bytes_eqb_false in H. by rewrite lookup_insert_ne.
  - eapply output_grow, (output_revoke_inner None (sy_broker st)); done.
  - unfold resume_if_current. destruct (_ =? _); done.
  - destruct (restore_spec e (sy_broker st)) as (Hr & _ & _ & _ & _ & Hsub & _).
    eapply output_grow, O; cbn; [done|apply restore_retained|]. intros k r Hk.
    destruct (v_runs _ V k r Hk) as ((g & Hg & _) & _). unfold r_owner. rewrite Hg. by eapply lookup_weaken.
Qed.

Lemma reachable_output evs : output_inv (sy_broker (run_broker new_system evs)).
Proof.
  induction evs as [|ev evs IH] using rev_ind; [split; [done|]; intros k r; cbn; by rewrite lookup_empty|].
  rewrite run_broker_app. apply output_step; [apply reachable_inv|done].
Qed.

Lemma remove_runs_retained ids s : retained_bytes (remove_runs ids s) <= retained_bytes s.
Proof.
  unfold remove_runs. revert s. induction ids as [|id ids IH]; intros s; cbn [foldl]; [lia|].
  etrans; [apply IH|]. unfold remove_run. destruct (runs s !! id); cbn; lia.
Qed.

Lemma sink_data_retained e rid stderr data b :
  retained_bytes (b_state (sink_data e rid stderr data b)) <=
  N.max (retained_bytes (b_state b)) (output_total_bytes (b_limits b)).
Proof.
  unfold sink_data. destruct (live_run b rid) as [r|]; [|lia]. destruct (grants (b_state b) !! r_owner r) as [g|]; [|lia].
  destruct (_ || _); [lia|]. set (wanted := N.min _ _).
  destruct (output_room _ _ _ _) as [remaining s] eqn:Eo. unfold output_room in Eo. injection Eo as Er Es.
  assert (Hle : retained_bytes s <= retained_bytes (b_state b)).
  { rewrite <-Es. destruct (evict_until_spec (fun s => wanted <=? output_total_bytes (b_limits b) - retained_bytes s)
      (evictable (b_state b) (Some (r_owner r)) true) (b_state b)) as [n ->]. apply remove_runs_retained. }
  rewrite Es in Er.
  destruct (live_run (with_state (fun _ => s) b) rid) as [r1|]; [|cbn; lia].
  pose proof (push_saved_le (r_output r1) stderr (take (N.to_nat (N.min wanted remaining)) data)) as Hp.
  destruct (push _ _ _) as [saved o]. cbn [fst] in Hp. rewrite length_take in Hp. cbn. lia.
Qed.

(** At any time the counter of kept output is the sum over the runs, and no run keeps
    more than its integration's grant allows. A packet of output never takes the
    total above the ceiling of the application, unless it was above it already. *)
Theorem output_bounded evs :
  let b := sy_broker (run_broker new_system evs) in
  counted (b_state b) /\
  (forall k r g, runs (b_state b) !! k = Some r -> grants (b_state b) !! r_owner r = Some g ->
     r_bytes r <= output_per_run_bytes (g_limits g)) /\
  (forall e rid stderr data, retained_bytes (b_state (sink_data e rid stderr data b)) <=
     N.max (retained_bytes (b_state b)) (output_total_bytes (b_limits b))).
Proof.
  cbv zeta. destruct (reachable_output evs) as [Hc Hr]. split_and!; [done| |intros; apply sink_data_retained].
  intros k r g Hk Hg. specialize (Hr k r Hk). unfold per_run in Hr. by rewrite Hg in Hr.
Qed.
