(* ===== verification/BrokerEvict.v ===== *)
(** * Eviction of finished runs (automation/src/limits.rs)

    What [admit_run] drops to make room for a command, in which order, and exactly when
    it refuses. *)

From Stdlib Require Import Strings.Byte NArith ZArith Lia.
From stdpp Require Import base gmap sets list strings sorting countable.
From S2P Require Import Prelude Bytes Storage AutoOutput AutoText BrokerState Broker BrokerInv BrokerQuota.

Local Open Scope N_scope.

(** ** The order of eviction *)

Lemma evict_leb_spec a b :
  evict_leb a b = true <->
  (a.1.1 = false /\ b.1.1 = true) \/
  (a.1.1 = b.1.1 /\ (a.1.2 < b.1.2 \/ (a.1.2 = b.1.2 /\ bytes_leb a.2 b.2 = true))).
Proof.
  destruct a as [[f1 t1] i1], b as [[f2 t2] i2]. cbn.
  destruct (Bool.eqb_spec f1 f2) as [->|Hne].
  - rewrite orb_true_iff, andb_true_iff, N.ltb_lt, N.eqb_eq. destruct f2; intuition congruence.
  - destruct f1, f2; cbn; intuition congruence.
Qed.

Lemma evict_leb_total a b : evict_leb a b = true \/ evict_leb b a = true.
Proof.
  rewrite !evict_leb_spec. destruct a as [[f1 t1] i1], b as [[f2 t2] i2]. cbn.
  destruct (bytes_leb_total i1 i2), (N.lt_trichotomy t1 t2) as [|[|]], f1, f2; intuition lia.
Qed.

Lemma evict_leb_trans a b c : evict_leb a b = true -> evict_leb b c = true -> evict_leb a c = true.
Proof.
  rewrite !evict_leb_spec. destruct a as [[f1 t1] i1], b as [[f2 t2] i2], c as [[f3 t3] i3]. cbn.
  pose proof (bytes_leb_trans i1 i2 i3) as Ht.
  intros [[-> ->]|[-> [H1|[-> H1]]]] [[? ->]|[<- [H2|[-> H2]]]]; subst; try discriminate; auto 6 with lia;
    right; (split; [done|]); first [left; lia|right; split; [lia|auto]].
Qed.

(** a record that may be dropped *)
Definition droppable (r : Run) : bool := negb (r_worker r) && finished r.

(** where a record stands: the integration's own records first, then the oldest *)
Definition drop_key (s : State) (owner : bytes) (id : bytes) : bool * N * bytes :=
  match runs s !! id with
  | Some r => (negb (bytes_eqb (r_owner r) owner), default 0 (r_finished_at r), id)
  | None => (true, 0, id)
  end.

Lemma omap_cons_eq {A B} (f : A -> option B) x l :
  omap f (x :: l) = match f x with Some y => y :: omap f l | None => omap f l end.
Proof. done. Qed.

Lemma evict_keys owner (l : list (bytes * Run)) :
  snd <$> omap (evict_key owner) (filter (fun e => negb (r_worker e.2) && (negb false || (0 <? r_bytes e.2)) = true) l) =
  fst <$> filter (fun e => droppable e.2 = true) l.
Proof.
  induction l as [|[k r] l IH]; [done|]. rewrite !filter_cons. cbn [snd].
  destruct (droppable r) eqn:Ed.
  - rewrite (decide_True (P := true = true)) by done. unfold droppable, finished in Ed.
    apply andb_prop in Ed as [Hw [t Ht]%bool_decide_eq_true_1]. rewrite Hw. rewrite decide_True by done.
    rewrite omap_cons_eq. unfold evict_key at 1. cbn [snd]. rewrite Ht. cbn. f_equal. exact IH.
  - rewrite (decide_False (P := false = true)) by done. rewrite <-IH. unfold droppable, finished in Ed.
    destruct (negb (r_worker r)); cbn [andb] in Ed |- *; [|by rewrite decide_False].
    rewrite decide_True by done. rewrite omap_cons_eq. unfold evict_key at 1. cbn [snd].
    apply bool_decide_eq_false_1 in Ed. destruct (r_finished_at r); [by destruct Ed|done].
Qed.

(** the evictable records are the droppable ones *)
Lemma evictable_perm s owner :
  evictable s (Some owner) false ≡ₚ fst <$> filter (fun e => droppable e.2 = true) (map_to_list (runs s)).
Proof.
  unfold evictable. rewrite stable_sort_perm, evict_keys.
  unfold entries. by rewrite sort_on_perm.
Qed.

Lemma elem_of_any s owner id :
  id ∈ evictable s (Some owner) false <-> exists r, runs s !! id = Some r /\ droppable r = true.
Proof.
  rewrite evictable_perm, list_elem_of_fmap. split.
  - intros ([k r] & -> & [Hd Hin]%list_elem_of_filter). apply elem_of_map_to_list in Hin. eauto.
  - intros (r & Hr & Hd). exists (id, r). split; [done|]. apply list_elem_of_filter. split; [done|].
    by apply elem_of_map_to_list.
Qed.

Lemma NoDup_any s owner : NoDup (evictable s (Some owner) false).
Proof.
  rewrite evictable_perm. eapply sublist_NoDup; [apply (NoDup_fst_map_to_list (runs s))|].
  apply fmap_sublist, sublist_filter.
Qed.

(** they come in the order of their keys *)
Lemma any_sorted s owner :
  StronglySorted (fun a b => evict_leb (drop_key s owner a) (drop_key s owner b) = true) (evictable s (Some owner) false).
Proof.
  unfold evictable. set (l := omap _ _).
  assert (Hl : forall x, x ∈ stable_sort evict_leb l -> drop_key s owner x.2 = x).
  { intros x. rewrite stable_sort_perm. intros ([k r] & Hin & Hx)%list_elem_of_omap.
    apply list_elem_of_filter in Hin as [_ Hin%elem_of_entries]. unfold evict_key in Hx. cbn in Hx.
    destruct (r_finished_at r) as [t|] eqn:Et; [|done]. injection Hx as <-. cbn. unfold drop_key. by rewrite Hin, Et. }
  pose proof (stable_sort_sorted evict_leb evict_leb_total evict_leb_trans l) as Hs. revert Hl Hs.
  generalize (stable_sort evict_leb l). clear l. intros l Hl Hs. induction Hs as [|x l Hs IH Hx]; cbn; [constructor|].
  constructor; [apply IH; intros y Hy; apply Hl; by right|].
  apply Forall_fmap, list.Forall_forall. intros y Hy. cbn. rewrite (Hl x) by by left. rewrite (Hl y) by by right.
  rewrite list.Forall_forall in Hx. by apply Hx.
Qed.

Lemma take_while_filter {A} (p : A -> bool) (R : A -> A -> Prop) l :
  StronglySorted R l -> (forall x y, x ∈ l -> y ∈ l -> R x y -> p y = true -> p x = true) ->
  take_while p l = filter (fun x => p x = true) l.
Proof.
  induction 1 as [|x l Hs IH Hx]; intros Hp; cbn [take_while]; [done|]. rewrite filter_cons.
  destruct (p x) eqn:Ep.
  - rewrite decide_True by done. f_equal. apply IH. intros y z Hy Hz. apply Hp; by right.
  - rewrite decide_False by done. destruct (filter (fun x => p x = true) l) as [|y l'] eqn:E; [done|].
    assert (Hy : y ∈ filter (fun x => p x = true) l) by (rewrite E; by left).
    apply list_elem_of_filter in Hy as [Hpy Hy]. rewrite list.Forall_forall in Hx.
    rewrite (Hp x y) in Ep; [done|by left|by right|by apply Hx|done].
Qed.

Definition own (owner : bytes) (r : Run) : bool := bytes_eqb (r_owner r) owner.

(** how many records of the map satisfy a test *)
Definition count (p : Run -> bool) (s : State) : nat :=
  length (filter (fun e => p e.2 = true) (map_to_list (runs s))).

Lemma size_filter_count p s : size (filter (fun e => p e.2 = true) (runs s)) = count p s.
Proof. unfold count. rewrite <-length_map_to_list. apply Permutation_length. symmetry. apply map_to_list_filter_perm. Qed.

Lemma size_runs_count s : size (runs s) = count (fun _ => true) s.
Proof.
  unfold count. rewrite <-length_map_to_list. induction (map_to_list (runs s)) as [|x l IH]; [done|].
  rewrite filter_cons, decide_True by done. cbn. by f_equal.
Qed.

(** droppable records and the others *)
Lemma count_split p q s :
  count p s = (count (fun r => p r && q r) s + count (fun r => p r && negb (q r)) s)%nat.
Proof.
  unfold count. induction (map_to_list (runs s)) as [|[k r] l IH]; [done|]. rewrite !filter_cons. cbn [snd].
  destruct (p r), (q r); cbn [andb negb]; repeat (rewrite ?decide_True, ?decide_False by done); cbn; lia.
Qed.

Lemma length_any s owner : length (evictable s (Some owner) false) = count droppable s.
Proof. unfold count. by rewrite evictable_perm, length_fmap. Qed.

Definition is_own (s : State) (owner : bytes) (id : bytes) : bool :=
  match runs s !! id with Some r => own owner r | None => false end.

(** the integration's own records come first *)
Lemma own_first s owner :
  take_while (is_own s owner) (evictable s (Some owner) false) =
  filter (fun id => is_own s owner id = true) (evictable s (Some owner) false).
Proof.
  eapply take_while_filter; [apply any_sorted|]. intros a b Ha Hb Hab Hpb. unfold is_own, drop_key, own in *.
  apply elem_of_any in Ha as (ra & Hra & _). rewrite Hra in Hab |- *.
  destruct (runs s !! b) as [rb|]; [|done]. rewrite Hpb in Hab. apply evict_leb_spec in Hab. cbn in Hab.
  destruct (bytes_eqb (r_owner ra) owner); [done|]. cbn in Hab. destruct Hab as [[]|[]]; done.
Qed.

(** what [drop n] leaves of a list whose matching elements come first *)
Lemma filter_drop_front {A} (p : A -> bool) l n :
  take_while p l = filter (fun x => p x = true) l ->
  filter (fun x => p x = true) (drop n l) = drop n (filter (fun x => p x = true) l).
Proof.
  revert n. induction l as [|x l IH]; intros n; [intros _; by destruct n|]. cbn [take_while]. rewrite filter_cons.
  destruct (p x) eqn:Ex.
  - rewrite decide_True by done. intros [= E]. destruct n as [|n]; cbn [drop].
    + rewrite filter_cons, decide_True by done. done.
    + by apply IH.
  - rewrite decide_False by done. intros E. rewrite <-E, drop_nil.
    assert (Hn : forall m, filter (fun x => p x = true) (drop m l) = []).
    { intros m. destruct (filter _ (drop m l)) as [|y l'] eqn:Ey; [done|].
      assert (Hy : y ∈ filter (fun x => p x = true) (drop m l)) by (rewrite Ey; by left).
      apply list_elem_of_filter in Hy as [Hp Hy]. 
      pose proof (filter_nil_not_elem_of (fun x => p x = true) l y (eq_sym E) Hp) as Hno.
      destruct Hno. rewrite <-(take_drop m l). apply elem_of_app. by right. }
    destruct n as [|n]; cbn [drop]; [rewrite filter_cons, decide_False by congruence; apply (Hn 0%nat)|apply Hn].
Qed.

(** counting by listing the identifiers *)
Lemma count_ids p s ids :
  NoDup ids -> (forall id, id ∈ ids <-> exists r, runs s !! id = Some r /\ p r = true) -> count p s = length ids.
Proof.
  intros Hnd Hids. unfold count. rewrite <-(length_fmap fst). apply Permutation_length, NoDup_Permutation; [|done|].
  - eapply sublist_NoDup; [apply (NoDup_fst_map_to_list (runs s))|]. apply fmap_sublist, sublist_filter.
  - intros id. rewrite Hids, list_elem_of_fmap. split.
    + intros ([k r] & -> & [Hp Hin%elem_of_map_to_list]%list_elem_of_filter). eauto.
    + intros (r & Hr & Hp). exists (id, r). split; [done|]. apply list_elem_of_filter. split; [done|].
      by apply elem_of_map_to_list.
Qed.

Lemma count_le p s s' :
  (forall id r, runs s' !! id = Some r -> p r = true -> runs s !! id = Some r) -> (count p s' <= count p s)%nat.
Proof.
  intros H. unfold count. rewrite <-!(length_fmap fst). apply submseteq_length, NoDup_submseteq.
  - eapply sublist_NoDup; [apply (NoDup_fst_map_to_list (runs s'))|]. apply fmap_sublist, sublist_filter.
  - intros id ([k r] & -> & [Hp Hin%elem_of_map_to_list]%list_elem_of_filter)%list_elem_of_fmap.
    apply list_elem_of_fmap. exists (k, r). split; [done|]. apply list_elem_of_filter. split; [done|].
    apply elem_of_map_to_list. by apply H.
Qed.

Lemma filter_own_any s owner :
  length (filter (fun id => is_own s owner id = true) (evictable s (Some owner) false)) =
  count (fun r => own owner r && droppable r) s.
Proof.
  symmetry. apply count_ids; [apply list.NoDup_filter, NoDup_any|]. intros id.
  rewrite list_elem_of_filter, elem_of_any. unfold is_own. split.
  - intros (Ho & r & Hr & Hd). rewrite Hr in Ho. exists r. by rewrite Ho, Hd.
  - intros (r & Hr & [Ho Hd]%andb_prop). rewrite Hr. eauto.
Qed.

(** what is left after dropping the first [n] *)
Lemma removed_runs s owner n id :
  let any := evictable s (Some owner) false in
  runs (remove_runs (take n any) s) !! id = if bool_decide (id ∈ take n any) then None else runs s !! id.
Proof. apply remove_runs_spec. Qed.

Lemma count_busy s owner n p :
  let s' := remove_runs (take n (evictable s (Some owner) false)) s in
  count (fun r => p r && negb (droppable r)) s' = count (fun r => p r && negb (droppable r)) s.
Proof.
  cbv zeta. set (any := evictable s (Some owner) false).
  assert (Hin : forall id, id ∈ take n any -> exists r, runs s !! id = Some r /\ droppable r = true).
  { intros id Hid. apply (elem_of_any s owner). rewrite <-(take_drop n (evictable s (Some owner) false)).
    apply elem_of_app. by left. }
  apply Nat.le_antisymm; apply count_le; intros id r; unfold any; rewrite removed_runs; fold any.
  - by case_bool_decide.
  - intros Hr [_ Hb]%andb_prop. case_bool_decide as Hid; [|done].
    apply Hin in Hid as (r' & Hr' & Hd). rewrite Hr in Hr'. injection Hr' as <-. by rewrite Hd in Hb.
Qed.

Lemma count_left s owner n p :
  let any := evictable s (Some owner) false in
  count (fun r => p r && droppable r) (remove_runs (take n any) s) =
  length (filter (fun id => match runs s !! id with Some r => p r | None => false end = true) (drop n any)).
Proof.
  cbv zeta. set (any := evictable s (Some owner) false). assert (Hnd : NoDup any) by apply NoDup_any.
  rewrite <-(take_drop n any) in Hnd. apply list.NoDup_app in Hnd as (_ & Hdis & Hnd).
  apply count_ids; [by apply list.NoDup_filter|]. intros id. unfold any. rewrite removed_runs. fold any.
  rewrite list_elem_of_filter. split.
  - intros [Hp Hid]. assert (Hany : id ∈ any) by (rewrite <-(take_drop n any); apply elem_of_app; by right).
    apply elem_of_any in Hany as (r & Hr & Hd). rewrite Hr in Hp. exists r.
    rewrite bool_decide_eq_false_2 by (intros H; by apply Hdis in H). by rewrite Hp, Hd.
  - case_bool_decide as Hid; [naive_solver|]. intros (r & Hr & [Hp Hd]%andb_prop). rewrite Hr. split; [done|].
    assert (Hany : id ∈ any) by (apply elem_of_any; eauto).
    rewrite <-(take_drop n any) in Hany. by apply elem_of_app in Hany as [?|?].
Qed.

(** a record that no eviction may drop *)
Definition busy (r : Run) : bool := negb (droppable r).

(** [admit_run] with its counts named *)
Lemma admit_run_counts owner per total s :
  let own_excess := (count (own owner) s + 1 - N.to_nat per)%nat in
  let total_excess := (count (fun _ => true) s + 1 - N.to_nat total)%nat in
  let dropped := Nat.max own_excess total_excess in
  admit_run owner per total s =
    if (count (fun r => own owner r && droppable r) s <? own_excess)%nat || (count droppable s <? dropped)%nat
    then (false, s) else (true, remove_runs (take dropped (evictable s (Some owner) false)) s).
Proof.
  cbv zeta. unfold admit_run. cbv zeta. rewrite <-filter_own_any, <-own_first, <-(length_any s owner), <-size_runs_count.
  assert (E : size (owned_runs owner s) = count (own owner) s); [|by rewrite E].
  unfold owned_runs. rewrite <-size_filter_count. f_equal. apply map_filter_ext. intros k r _. cbn.
  unfold own. by rewrite bytes_eqb_true.
Qed.

(** the counts after dropping the first [n] *)
Lemma admit_counts_after s owner n :
  let s' := remove_runs (take n (evictable s (Some owner) false)) s in
  count (own owner) s' = (count (fun r => own owner r && droppable r) s - n + count (fun r => own owner r && busy r) s)%nat /\
  count (fun _ => true) s' = (count droppable s - n + count busy s)%nat.
Proof.
  cbv zeta. set (s' := remove_runs _ _).
  rewrite (count_split (own owner) droppable s'), (count_split (fun _ => true) droppable s').
  unfold s'. rewrite (count_busy s owner n (own owner)), (count_busy s owner n (fun _ => true)).
  rewrite (count_left s owner n (own owner)), (count_left s owner n (fun _ => true)). split.
  - rewrite (filter_drop_front _ _ _ (own_first s owner)), length_drop, filter_own_any. done.
  - f_equal. rewrite <-(length_any s owner), <-length_drop.
    assert (Hall : forall id, id ∈ drop n (evictable s (Some owner) false) -> is_Some (runs s !! id)).
    { intros id Hid. assert (Hany : id ∈ evictable s (Some owner) false).
      { rewrite <-(take_drop n (evictable s (Some owner) false)). apply elem_of_app. by right. }
      apply elem_of_any in Hany as (r & Hr & _). eauto. }
    induction (drop n (evictable s (Some owner) false)) as [|id l IH]; [done|]. rewrite filter_cons.
    destruct (Hall id ltac:(by left)) as [r Hr]. rewrite Hr, decide_True by done. cbn. f_equal.
    apply IH. intros; apply Hall; by right.
Qed.

(** a record dropped comes before each droppable one that stays *)
Lemma dropped_first s owner n id r :
  let any := evictable s (Some owner) false in
  runs s !! id = Some r -> id ∈ take n any ->
  droppable r = true /\
  forall id' r', runs (remove_runs (take n any) s) !! id' = Some r' -> droppable r' = true ->
    evict_leb (drop_key s owner id) (drop_key s owner id') = true.
Proof.
  cbv zeta. intros Hr Hid. set (any := evictable s (Some owner) false) in *.
  assert (Hany : id ∈ any) by (rewrite <-(take_drop n any); apply elem_of_app; by left).
  apply elem_of_any in Hany as (r0 & Hr0 & Hd). assert (r0 = r) as -> by congruence. split; [done|].
  intros id' r'. unfold any. rewrite removed_runs. fold any. case_bool_decide as Hid'; [done|]. intros Hr' Hd'.
  assert (Hany' : id' ∈ any) by (apply elem_of_any; eauto).
  pose proof (any_sorted s owner) as Hs. fold any in Hs. rewrite <-(take_drop n any) in Hs, Hany'.
  apply elem_of_app in Hany' as [?|Hany']; [done|].
  apply StronglySorted_app in Hs as (Hs & _). by apply Hs.
Qed.

(** Room for a new command of an integration is made exactly when it can be: the
    command is refused, and nothing changes, only if the integration's runs in progress
    alone reach its ceiling, or all runs in progress reach the application's. When it is
    admitted, both ceilings hold with the new command counted; only finished records
    without a thread are gone, each of them before any that stays in the order of
    eviction (the integration's own records first, then the oldest), and none is gone
    when there was room. *)
Theorem admit_run_exact owner per total s :
  let '(ok, s') := admit_run owner per total s in
  (ok = true <->
     (count (fun r => own owner r && busy r) s < N.to_nat per)%nat /\ (count busy s < N.to_nat total)%nat) /\
  (ok = false -> s' = s) /\
  (ok = true ->
     (count (own owner) s' + 1 <= N.to_nat per)%nat /\ (size (runs s') + 1 <= N.to_nat total)%nat /\
     (forall id r, runs s' !! id = Some r -> runs s !! id = Some r) /\
     (forall id r, runs s !! id = Some r -> runs s' !! id = None ->
        droppable r = true /\
        forall id' r', runs s' !! id' = Some r' -> droppable r' = true ->
          evict_leb (drop_key s owner id) (drop_key s owner id') = true) /\
     ((count (own owner) s < N.to_nat per)%nat -> (size (runs s) < N.to_nat total)%nat -> s' = s)).
Proof.
  pose proof (admit_run_counts owner per total s) as E. cbv zeta in E. rewrite E. clear E.
  set (oe := (count (own owner) s + 1 - N.to_nat per)%nat). set (te := (count (fun _ => true) s + 1 - N.to_nat total)%nat).
  set (n := Nat.max oe te). set (any := evictable s (Some owner) false).
  pose proof (count_split (own owner) droppable s) as S1. pose proof (count_split (fun _ => true) droppable s) as S2.
  cbn [andb] in S2. fold busy in *. change (fun r => own owner r && negb (droppable r)) with (fun r => own owner r && busy r) in S1.
  change (fun r => negb (droppable r)) with busy in S2.
  assert (Hsub : (count (fun r => own owner r && droppable r) s <= count droppable s)%nat).
  { rewrite <-filter_own_any, <-(length_any s owner). apply length_filter. }
  change (fun r => droppable r) with droppable in *.
  destruct (Nat.ltb_spec (count (fun r => own owner r && droppable r) s) oe) as [H1|H1];
    [|destruct (Nat.ltb_spec (count droppable s) n) as [H2|H2]]; cbn [orb].
  - split; [split; [done|intros; exfalso; lia]|done].
  - split; [split; [done|intros; exfalso; lia]|done].
  - split; [split; [intros _; lia|done]|split; [done|intros _]].
    destruct (admit_counts_after s owner n) as [A1 A2]. fold any in A1, A2.
    rewrite size_runs_count. split; [lia|]. split; [lia|]. split; [|split].
    + intros id r. unfold any. rewrite removed_runs. by case_bool_decide.
    + intros id r Hr. unfold any. rewrite removed_runs. case_bool_decide as Hid; [intros _|congruence].
      by apply dropped_first.
    + intros Ho Ht. rewrite size_runs_count in Ht. replace n with 0%nat by lia. done.
Qed.
