(* ===== verification/Rotation.v ===== *)
(** * Guided key rotation (ffi/src/key_rotation_plan.rs, the rules of ffi/src/key_usage.rs)

    The plan of a rotation, the state machine of a run and the steps it takes on each
    machine. A text is the list of its characters (code points). What a machine answers
    is an argument: a step is a program ([StepProg]) that asks for executions and
    goes on with their answers. Of [ConnectionProfile] the fields the plan reads are
    kept. [to_lowercase] stands for the Unicode mapping of the standard library, whose
    tables are not reproduced: everything here holds for any such function. *)

From Stdlib Require Import Strings.String Strings.Byte NArith ZArith Lia.
From stdpp Require Import base gmap sets list strings sorting countable.
From S2P Require Import Prelude Bytes Storage AutoOutput.

Local Open Scope N_scope.

Definition text : Type := list N.
Definition chars (s : string) : text := Byte.to_N <$> lit s.
(** a backquote stands for a double quote; the scripts have no backquote of their own *)
Definition script (s : string) : text := (fun c => if c =? 96 then 34 else c) <$> chars s.

Definition text_eqb (a b : text) : bool := bool_decide (a = b).

(** ** Characters *)

(** the [White_Space] property *)
Definition is_whitespace (c : N) : bool :=
  ((9 <=? c) && (c <=? 13)) || (c =? 32) || (c =? 133) || (c =? 160) || (c =? 5760) ||
  ((8192 <=? c) && (c <=? 8202)) || (c =? 8232) || (c =? 8233) || (c =? 8239) || (c =? 8287) || (c =? 12288).

Definition is_ascii_alphanumeric (c : N) : bool :=
  ((48 <=? c) && (c <=? 57)) || ((65 <=? c) && (c <=? 90)) || ((97 <=? c) && (c <=? 122)).

Fixpoint trim_start (s : text) : text :=
  match s with
  | c :: s' => if is_whitespace c then trim_start s' else s
  | [] => []
  end.

Definition str_trim (s : text) : text := reverse (trim_start (reverse (trim_start s))).

(** [split_whitespace]; [word]: the characters of the word being read, last first *)
Fixpoint split_words (word : text) (s : text) : list text :=
  match s with
  | [] => match word with [] => [] | _ => [reverse word] end
  | c :: s =>
      if is_whitespace c
      then match word with [] => split_words [] s | _ => reverse word :: split_words [] s end
      else split_words (c :: word) s
  end.
Definition split_whitespace (s : text) : list text := split_words [] s.

Definition print_n (n : N) : text := Byte.to_N <$> print_usize n.
Definition print_z (z : Z) : text :=
  if (z <? 0)%Z then chars "-" ++ print_n (Z.to_N (- z)) else print_n (Z.to_N z).

(** ** Remote edits of authorized_keys *)

Definition REMOVE_EXIT_STILL_PRESENT : Z := 3.
Definition REMOVE_EXIT_NO_FILE : Z := 4.

Definition quote_char (c : N) : text := if c =? 39 then [39; 92; 39; 39] else [c].
Definition sh_quote (s : text) : text := [39] ++ concat (quote_char <$> s) ++ [39].

Definition posix (s : text) : text := chars "sh -c " ++ sh_quote s.

Definition kind_char (c : N) : bool :=
  is_ascii_alphanumeric c || (c =? 64) || (c =? 46) || (c =? 95) || (c =? 43) || (c =? 45).
Definition blob_char (c : N) : bool :=
  is_ascii_alphanumeric c || (c =? 43) || (c =? 47) || (c =? 61).

(** [None]: not a public key *)
Definition key_fields (openssh : text) : option (text * text) :=
  match split_whitespace openssh with
  | kind :: blob :: _ =>
      if forallb kind_char kind && forallb blob_char blob then Some (sh_quote kind, sh_quote blob) else None
  | _ => None
  end.

Definition authorized_keys_append_command (openssh : text) : text :=
  let q := sh_quote (str_trim openssh) in
  posix
    (script "d=~/.ssh; f=$d/authorized_keys; " ++
     script "{ [ -d `$d` ] || { mkdir -p `$d` && chmod 700 `$d`; }; } && " ++
     script "{ [ -e `$f` ] || { touch `$f` && chmod 600 `$f`; }; } && " ++
     script "{ grep -qxF " ++
     q ++
     script " `$f` || { " ++
     script "{ [ ! -s `$f` ] || [ -z `$(tail -c1 `$f`)` ] || echo >> `$f`; } && " ++
     script "printf '%s\n' " ++
     q ++
     script " >> `$f`; }; }").

Definition AWK_KEY_LINE : text := script "{ k = $2; sub(/\r$/, ``, k) } $1 == t && k == b".

Definition authorized_keys_remove_command (old_openssh keep_openssh : text) : option text :=
  '(o_type, o_blob) ← key_fields old_openssh;
  '(k_type, k_blob) ← key_fields keep_openssh;
  let no_file := print_z REMOVE_EXIT_NO_FILE in
  let still_present := print_z REMOVE_EXIT_STILL_PRESENT in
  Some (posix
    (script "f=~/.ssh/authorized_keys; " ++
     script "[ -f `$f` ] || { echo 'no ~/.ssh/authorized_keys on this host' >&2; exit " ++
     no_file ++
     script "; }; " ++
     script "while [ -L `$f` ]; do " ++
     script "l=$(readlink `$f`) || { echo 'cannot resolve the authorized_keys symlink; old key left in place' >&2; exit 1; }; " ++
     script "case $l in /*) f=$l ;; *) f=$(dirname `$f`)/$l ;; esac; done; " ++
     script "has() { awk -v t=`$1` -v b=`$2` '" ++
     AWK_KEY_LINE ++
     script " { found = 1 } END { exit found ? 0 : 1 }' `$3`; }; " ++
     script "has " ++
     k_type ++
     script " " ++
     k_blob ++
     script " `$f` || { echo 'new key is not in authorized_keys; old key left in place' >&2; exit 1; }; " ++
     script "t=$(mktemp `$f.XXXXXX`) || exit 1; " ++
     script "cp -p `$f` `$t` && " ++
     script "awk -v t=" ++
     o_type ++
     script " -v b=" ++
     o_blob ++
     script " '" ++
     AWK_KEY_LINE ++
     script " { next } { print }' `$f` > `$t` && " ++
     script "has " ++
     k_type ++
     script " " ++
     k_blob ++
     script " `$t` && mv -f `$t` `$f` || { rm -f `$t`; exit 1; }; " ++
     script "if awk -v b=" ++
     o_blob ++
     script " '/^[ \t]*#/ { next } index($0, b) { found = 1 } END { exit found ? 0 : 1 }' `$f`; then " ++
     script "echo 'old key data still in authorized_keys: a line with options, or the same key under another key type' >&2; exit " ++
     still_present ++
     script "; fi")).

(** ** Hosts (ffi/src/lib.rs) *)

Inductive ProfileAuth :=
| PKey (key_item_id : text)
| PVaultPassword (password_item_id : text)
| PPromptPassword
| PSystemAgent (public_key : text)
| PPersonal.

Inductive AuthMethod :=
| AAgent (vault_id key_item_id : text)
| APassword (password : text)
| AVaultPassword (vault_id password_item_id : text)
| ASystemAgent (public_key : text).

Record HopRef := mkHopRef { hr_vault_id : text; hr_profile_uid : text }.

Record JumpHost := mkJumpHost {
  j_host : text; j_port : N; j_user : text; j_auth : AuthMethod; j_hop_ref : option HopRef
}.

Inductive ProxyKind := Http | Socks4 | Socks5.
Inductive ProxyPassword :=
| PxVault (vault_id password_item_id : text)
| PxInline (password : text).

Record ProxyConfig := mkProxyConfig {
  px_kind : ProxyKind; px_host : text; px_port : N; px_username : option text; px_password : option ProxyPassword
}.

Record ConnectionProfile := mkConnectionProfile {
  cp_uid : text; cp_label : text; cp_host : text; cp_port : N; cp_user : text; cp_auth : ProfileAuth;
  cp_jumps : list JumpHost; cp_proxy : option ProxyConfig
}.

(** ** key_usage.rs *)

Definition logs_in_with (auth : ProfileAuth) (item_id : text) : bool :=
  match auth with
  | PKey k => text_eqb k item_id
  | PVaultPassword p => text_eqb p item_id
  | PPromptPassword | PSystemAgent _ | PPersonal => false
  end.

Definition auth_uses (auth : AuthMethod) (item_id : text) (same_vault : text -> bool) : bool :=
  match auth with
  | AAgent v k => text_eqb k item_id && same_vault v
  | AVaultPassword v p => text_eqb p item_id && same_vault v
  | APassword _ | ASystemAgent _ => false
  end.

(** ** The plan *)

Inductive RotationStep := Deploy | Verify | Remove | Confirm.

#[global] Instance RotationStep_eq_dec : EqDecision RotationStep.
Proof. solve_decision. Defined.

Definition step_index (s : RotationStep) : nat :=
  match s with Deploy => 0 | Verify => 1 | Remove => 2 | Confirm => 3 end.

(** the derived order *)
Definition step_ltb (a b : RotationStep) : bool := (step_index a <? step_index b)%nat.
Definition step_max (a b : RotationStep) : RotationStep := if step_ltb a b then b else a.

Definition previous (s : RotationStep) : option RotationStep :=
  match s with Deploy => None | Verify => Some Deploy | Remove => Some Verify | Confirm => Some Remove end.
Definition next (s : RotationStep) : option RotationStep :=
  match s with Deploy => Some Verify | Verify => Some Remove | Remove => Some Confirm | Confirm => None end.

Inductive RotationSkipReason := SkPersonal | SkSystemAgent | SkPassword.

Record RotationTarget := mkRotationTarget {
  rt_id : text; rt_profile : option ConnectionProfile; rt_host : text; rt_port : N; rt_user : text;
  rt_jumps : list JumpHost; rt_proxy : option ProxyConfig; rt_route : list text; rt_via : option ConnectionProfile
}.
Record RotationDependent := mkRotationDependent { rd_host : ConnectionProfile; rd_target_ids : list text }.
Record RotationSkip := mkRotationSkip { rk_host : ConnectionProfile; rk_reason : RotationSkipReason }.

Record RotationPlan := mkRotationPlan {
  pl_hosts : list ConnectionProfile;
  pl_same_vault : gset text;
  pl_vault_id : text;
  pl_key_item_id : text;
  pl_targets : list RotationTarget;
  pl_dependents : list RotationDependent;
  pl_skipped : list RotationSkip
}.

Record Routes := mkRoutes {
  ro_by_uid : gmap text ConnectionProfile;
  ro_same_vault : gset text;
  ro_key_item_id : text
}.

Definition new_routes (hosts : list ConnectionProfile) (same_vault : gset text) (key_item_id : text) : Routes :=
  mkRoutes (foldl (fun m h => <[cp_uid h := h]> m) ∅ hosts) same_vault key_item_id.
Definition routes_of (p : RotationPlan) : Routes := new_routes (pl_hosts p) (pl_same_vault p) (pl_key_item_id p).

Definition proxy_scheme (k : ProxyKind) : text :=
  match k with Http => chars "http" | Socks4 => chars "socks4" | Socks5 => chars "socks5" end.

(** [hops.join(sep)] *)
Fixpoint join (sep : text) (l : list text) : text :=
  match l with
  | [] => []
  | [x] => x
  | x :: l => x ++ sep ++ join sep l
  end.

Section routes.
Context (to_lowercase : text -> text).

Definition endpoint_id (user host : text) (port : N) : text :=
  user ++ chars "@" ++ to_lowercase host ++ chars ":" ++ print_n port.

Section in_routes.
Context (m : Routes).

Definition is_this_vault (v : text) : bool := bool_decide (v ∈ ro_same_vault m).
Definition uses_key (h : ConnectionProfile) : bool := logs_in_with (cp_auth h) (ro_key_item_id m).

Definition ref_profile (j : JumpHost) : option ConnectionProfile :=
  r ← j_hop_ref j;
  if negb (is_this_vault (hr_vault_id r)) then None else ro_by_uid m !! hr_profile_uid r.

Definition hop_uses_key (j : JumpHost) : bool :=
  match j_hop_ref j with
  | Some _ => match ref_profile j with Some r => uses_key r | None => false end
  | None => auth_uses (j_auth j) (ro_key_item_id m) is_this_vault
  end.

Definition hop_endpoint (j : JumpHost) : text :=
  match ref_profile j with
  | Some r => endpoint_id (cp_user r) (cp_host r) (cp_port r)
  | None =>
      match j_hop_ref j with
      | Some r => chars "ref:" ++ hr_vault_id r ++ chars "/" ++ hr_profile_uid r
      | None => endpoint_id (j_user j) (j_host j) (j_port j)
      end
  end.

Definition first_dial_proxy (jumps : list JumpHost) (proxy : option ProxyConfig) : option ProxyConfig :=
  match proxy with
  | Some p => Some p
  | None => j ← head jumps; r ← ref_profile j; cp_proxy r
  end.

Definition proxy_id (p : ProxyConfig) : text :=
  let user := match px_username p with
              | Some u => if bool_decide (u = []) then [] else u ++ chars "@"
              | None => []
              end in
  chars " proxy " ++ proxy_scheme (px_kind p) ++ chars "://" ++ user ++ to_lowercase (px_host p) ++
  chars ":" ++ print_n (px_port p).

Definition target_id (endpoint : text) (jumps : list JumpHost) (proxy : option ProxyConfig) : text :=
  endpoint ++
  (match jumps with [] => [] | _ => chars " via " ++ join (chars " > ") (hop_endpoint <$> jumps) end) ++
  (match proxy with Some p => proxy_id p | None => [] end).

Definition hop_target_id (jumps : list JumpHost) (proxy : option ProxyConfig) (i : nat) : option text :=
  hop ← jumps !! i; Some (target_id (hop_endpoint hop) (take i jumps) proxy).

(** the target of a host that logs in with the key *)
Definition host_target (h : ConnectionProfile) : RotationTarget :=
  let proxy := first_dial_proxy (cp_jumps h) (cp_proxy h) in
  mkRotationTarget (target_id (endpoint_id (cp_user h) (cp_host h) (cp_port h)) (cp_jumps h) proxy)
    (Some h) (cp_host h) (cp_port h) (cp_user h) (cp_jumps h) proxy (hop_endpoint <$> cp_jumps h) None.

(** the target of hop [i] of a host *)
Definition hop_target (h : ConnectionProfile) (i : nat) (j : JumpHost) : option RotationTarget :=
  let proxy := first_dial_proxy (cp_jumps h) (cp_proxy h) in
  id ← hop_target_id (cp_jumps h) proxy i;
  let '(host, port, user) :=
    match ref_profile j with
    | Some r => (cp_host r, cp_port r, cp_user r)
    | None => (j_host j, j_port j, j_user j)
    end in
  let jumps := take i (cp_jumps h) in
  Some (mkRotationTarget id None host port user jumps proxy (hop_endpoint <$> jumps) (Some h)).

(** the targets of a host's hops that use the key *)
Definition host_hops (h : ConnectionProfile) : list RotationTarget :=
  omap (fun x => if hop_uses_key x.2 then hop_target h x.1 x.2 else None) (imap pair (cp_jumps h)).

Definition skip_reason (a : ProfileAuth) : option RotationSkipReason :=
  match a with
  | PPersonal => Some SkPersonal
  | PSystemAgent _ => Some SkSystemAgent
  | PVaultPassword _ | PPromptPassword => Some SkPassword
  | PKey _ => None
  end.
End in_routes.

(** a target is added unless its id is there *)
Definition add_target (targets : list RotationTarget) (t : RotationTarget) : list RotationTarget :=
  if existsb (fun x => text_eqb (rt_id x) (rt_id t)) targets then targets else targets ++ [t].
Definition add_id (ids : list text) (id : text) : list text :=
  if existsb (text_eqb id) ids then ids else ids ++ [id].

Definition plan_rotation_in (hosts : list ConnectionProfile) (vault_id key_item_id : text) (same_vault : gset text)
    : RotationPlan :=
  let m := new_routes hosts same_vault key_item_id in
  let targets := foldl add_target [] (host_target m <$> filter (fun h => uses_key m h = true) hosts) in
  let targets := foldl (fun ts h => foldl add_target ts (host_hops m h)) targets hosts in
  let followers := filter (fun h => uses_key m h = false) hosts in
  let ids h := foldl add_id [] (rt_id <$> host_hops m h) in
  let dependents := omap (fun h => match ids h with
                                   | [] => None
                                   | l => Some (mkRotationDependent h l)
                                   end) followers in
  let skipped := omap (fun h => match ids h with
                                | [] => mkRotationSkip h <$> skip_reason (cp_auth h)
                                | _ => None
                                end) followers in
  mkRotationPlan hosts same_vault vault_id key_item_id targets dependents skipped.

Definition plan_rotation (hosts : list ConnectionProfile) (vault_id key_item_id : text) : RotationPlan :=
  plan_rotation_in hosts vault_id key_item_id {[vault_id]}.

Definition target (p : RotationPlan) (id : text) : option RotationTarget :=
  find (fun t => text_eqb (rt_id t) id) (pl_targets p).

Definition key_hops (p : RotationPlan) (id : text) : list text :=
  match target p id with
  | None => []
  | Some t =>
      let m := routes_of p in
      filter (fun hop => is_Some (target p hop))
        (omap (fun x => if hop_uses_key m x.2 then hop_target_id m (rt_jumps t) (rt_proxy t) x.1 else None)
           (imap pair (rt_jumps t)))
  end.

Definition dependents_of (p : RotationPlan) (id : text) : list ConnectionProfile :=
  rd_host <$> filter (fun d => existsb (text_eqb id) (rd_target_ids d) = true) (pl_dependents p).

Definition has_shared_endpoint (p : RotationPlan) : bool :=
  (size (list_to_set ((fun t => endpoint_id (rt_user t) (rt_host t) (rt_port t)) <$> pl_targets p) : gset text)
   <? length (pl_targets p))%nat.
End routes.

Definition target_label (t : RotationTarget) : text :=
  match rt_profile t with
  | Some p => cp_label p
  | None =>
      if rt_port t =? 22 then rt_user t ++ chars "@" ++ rt_host t
      else rt_user t ++ chars "@" ++ rt_host t ++ chars ":" ++ print_n (rt_port t)
  end.

(** ** The run *)

Inductive StepFailure :=
| NoResult
| TimedOut
| FError (message : text)
| FLocked
| OldKeyStillPresent
| NoAuthorizedKeys
| RemoveNeedsSecondFactor
| OldKeyStillAccepted
| OldKeyCheckFailed (message : option text).

#[global] Instance StepFailure_eq_dec : EqDecision StepFailure.
Proof. solve_decision. Defined.

Inductive TargetState :=
| Pending (step : RotationStep)
| TRunning (step : RotationStep)
| TFailed (step : RotationStep) (failure : StepFailure)
| Switched
| KeptOld (after : option RotationStep)
| Unconfirmed.

#[global] Instance TargetState_eq_dec : EqDecision TargetState.
Proof. solve_decision. Defined.

Record RunScope := mkRunScope {
  sc_first : RotationStep; sc_last : RotationStep; sc_only : option (gset text)
}.

Definition full_scope : RunScope := mkRunScope Deploy Confirm None.

Record RotationRun := mkRotationRun {
  rn_states : list (text * TargetState);
  rn_verified : gset text;
  rn_hops : gmap text (list text);
  rn_cancelled : bool;
  rn_last : RotationStep
}.

Definition StepOutcome : Type := result StepFailure unit.

Definition stopped_at (after : option RotationStep) : TargetState :=
  match after with
  | Some Remove => Unconfirmed
  | Some Deploy | Some Verify | Some Confirm | None => KeptOld after
  end.

Definition at_deploy_or_verify (s : TargetState) : bool :=
  match s with
  | Pending Deploy | Pending Verify | TRunning Deploy | TRunning Verify => true
  | _ => false
  end.

Definition is_running (s : TargetState) : bool := match s with TRunning _ => true | _ => false end.

Definition in_scope (scope : RunScope) (t : RotationTarget) : bool :=
  match sc_only scope with Some o => bool_decide (rt_id t ∈ o) | None => true end.

Definition start_rotation (lower : text -> text) (plan : RotationPlan) (scope : RunScope) : RotationRun :=
  let states := (fun t => (rt_id t, Pending (sc_first scope))) <$>
                  filter (fun t => in_scope scope t = true) (pl_targets plan) in
  let hops := (fun x : text * TargetState =>
    (x.1, filter (fun h => h ∈ (fst <$> states)) (key_hops lower plan x.1))) <$> states in
  (* collected into a map: a later entry of the same id wins *)
  mkRotationRun states ∅ (foldl (fun m x => <[x.1 := x.2]> m) ∅ hops) false (sc_last scope).

Definition run_state (r : RotationRun) (id : text) : option TargetState :=
  snd <$> find (fun x => text_eqb x.1 id) (rn_states r).

Definition hops_of (r : RotationRun) (id : text) : list text := default [] (rn_hops r !! id).

Fixpoint set_first (id : text) (s : TargetState) (l : list (text * TargetState)) : list (text * TargetState) :=
  match l with
  | [] => []
  | x :: l => if text_eqb x.1 id then (x.1, s) :: l else x :: set_first id s l
  end.

Definition with_states (states : list (text * TargetState)) (r : RotationRun) : RotationRun :=
  mkRotationRun states (rn_verified r) (rn_hops r) (rn_cancelled r) (rn_last r).
Definition set_state (id : text) (s : TargetState) (r : RotationRun) : RotationRun :=
  with_states (set_first id s (rn_states r)) r.

Definition hop_early (r : RotationRun) (id : text) : bool :=
  existsb (fun h => match run_state r h with Some s => at_deploy_or_verify s | None => false end) (hops_of r id).
Definition routed_through (r : RotationRun) (id : text) : bool :=
  existsb (fun x => is_running x.2 && existsb (fun h => text_eqb h id) (hops_of r x.1)) (rn_states r).
Definition removing (r : RotationRun) : bool :=
  existsb (fun x => bool_decide (x.2 = TRunning Remove)) (rn_states r).
Definition early (r : RotationRun) : bool := existsb (fun x => at_deploy_or_verify x.2) (rn_states r).

Definition may_start (r : RotationRun) (id : text) (step : RotationStep) : bool :=
  negb (step_ltb (rn_last r) step) &&
  match step with
  | Remove => negb (early r) && bool_decide (id ∈ rn_verified r) && negb (routed_through r id)
  | Confirm => true
  | Deploy | Verify => negb (removing r) && negb (hop_early r id)
  end.

Definition startable (r : RotationRun) : list (text * RotationStep) :=
  if rn_cancelled r then []
  else omap (fun x => match x.2 with
                      | Pending step => if may_start r x.1 step then Some (x.1, step) else None
                      | _ => None
                      end) (rn_states r).

Definition begin_step (r : RotationRun) (id : text) : option (RotationStep * RotationRun) :=
  x ← find (fun x => text_eqb x.1 id) (startable r);
  Some (x.2, set_state id (TRunning x.2) r).

Definition with_verified (id : text) (r : RotationRun) : RotationRun :=
  mkRotationRun (rn_states r) ({[id]} ∪ rn_verified r) (rn_hops r) (rn_cancelled r) (rn_last r).

Definition next_state (step : RotationStep) (outcome : StepOutcome) (cancelled : bool) : TargetState :=
  match outcome with
  | Ok _ =>
      if bool_decide (step = Confirm) then Switched
      else if cancelled then stopped_at (Some step)
      else match next step with Some s => Pending s | None => Switched end
  | Err failure =>
      if bool_decide (step = Confirm) || negb cancelled then TFailed step failure
      else stopped_at (previous step)
  end.

Definition is_ok {E A} (r : result E A) : bool := match r with Ok _ => true | Err _ => false end.

Definition record_step (id : text) (step : RotationStep) (outcome : StepOutcome) (r : RotationRun) : RotationRun :=
  if negb (bool_decide (run_state r id = Some (TRunning step))) then r
  else
    let r := if is_ok outcome && bool_decide (step = Verify) then with_verified id r else r in
    set_state id (next_state step outcome (rn_cancelled r)) r.

Definition retry (id : text) (r : RotationRun) : RotationRun :=
  if rn_cancelled r then r
  else match run_state r id with
       | Some (TFailed step _) => set_state id (Pending step) r
       | _ => r
       end.

Definition stop_target (s : TargetState) : TargetState :=
  match s with Pending step => stopped_at (previous step) | _ => s end.
Definition cancel_run (r : RotationRun) : RotationRun :=
  mkRotationRun ((fun x => (x.1, stop_target x.2)) <$> rn_states r)
    (rn_verified r) (rn_hops r) true (rn_last r).

Definition extend_to (last : RotationStep) (r : RotationRun) : RotationRun :=
  mkRotationRun (rn_states r) (rn_verified r) (rn_hops r) (rn_cancelled r) (step_max (rn_last r) last).

Definition settled (r : RotationRun) : bool :=
  negb (existsb (fun x => is_running x.2) (rn_states r)) && bool_decide (startable r = []).

Record FinishOutlook := mkFinishOutlook { fo_unproven : list text; fo_cut_off : list text; fo_old_not_refused : list text }.

Definition finish_outlook (lower : text -> text) (plan : RotationPlan) (r : RotationRun) : FinishOutlook :=
  let proven (id : text) := bool_decide (id ∈ rn_verified r) in
  let reached (id : text) := forallb proven (key_hops lower plan id) in
  let ids := rt_id <$> pl_targets plan in
  mkFinishOutlook
    (filter (fun id => proven id = false) ids)
    (filter (fun id => proven id && negb (reached id) = true) ids)
    (filter (fun id => proven id && reached id && negb (bool_decide (run_state r id = Some Switched)) = true) ids).

Definition locked_out (o : FinishOutlook) : list text := fo_unproven o ++ fo_cut_off o.

(** ** Pinned machines *)

(** the bytes of a text *)
Definition encode_char (c : N) : bytes :=
  byte_of_N <$>
  (if c <? 128 then [c]
   else if c <? 2048 then [192 + c / 64; 128 + c mod 64]
   else if c <? 65536 then [224 + c / 4096; 128 + (c / 64) mod 64; 128 + c mod 64]
   else [240 + c / 262144; 128 + (c / 4096) mod 64; 128 + (c / 64) mod 64; 128 + c mod 64]).
Definition encode_utf8 (s : text) : bytes := concat (encode_char <$> s).

Definition unresolved_hop (m : Routes) (j : JumpHost) : bool :=
  bool_decide (is_Some (j_hop_ref j)) && bool_decide (ref_profile m j = None).

Definition target_endpoints (m : Routes) (t : RotationTarget) : list (text * N) :=
  ((fun j => match ref_profile m j with
             | Some r => (cp_host r, cp_port r)
             | None => (j_host j, j_port j)
             end) <$> rt_jumps t) ++ [(rt_host t, rt_port t)].

Definition pinned (st : Storage) (e : text * N) : bool :=
  bool_decide (is_Some (get_known_host st (encode_utf8 e.1) e.2)).

(** the error is its message *)
Definition key_rotation_unpinned (st : Storage) (plan : RotationPlan) : result text (list text) :=
  let m := routes_of plan in
  match find (fun t => existsb (unresolved_hop m) (rt_jumps t)) (pl_targets plan) with
  | Some t => Err (target_label t ++ chars " has a missing or foreign saved jump host; repair its route before rotating")
  | None =>
      Ok (rt_id <$> filter (fun t => forallb (pinned st) (target_endpoints m t) = false) (pl_targets plan))
  end.

Definition pinned_rotation_scope (st : Storage) (plan : RotationPlan) (scope : RunScope) : result text RunScope :=
  match key_rotation_unpinned st plan with
  | Err e => Err e
  | Ok unpinned =>
      let only := rt_id <$> filter (fun t => in_scope scope t && negb (existsb (text_eqb (rt_id t)) unpinned) = true)
                              (pl_targets plan) in
      Ok (mkRunScope (sc_first scope) (sc_last scope) (Some (list_to_set only)))
  end.

(** ** The steps *)

Record RotationKeys := mkRotationKeys { ky_old : text; ky_candidate : text; ky_candidate_id : text }.

Definition committed (k : RotationKeys) : bool :=
  let key line := join (chars " ") (take 2 (split_whitespace line)) in
  text_eqb (key (ky_old k)) (key (ky_candidate k)).

Inductive KeyLoginFailure := KRefused | KAcceptedNeedsMore.

Record MultiExecResult := mkMultiExecResult {
  mr_host : text; mr_stdout : text; mr_stderr : text; mr_exit_status : Z; mr_error : option text;
  mr_duration_ms : N; mr_timed_out : bool; mr_key_login : option KeyLoginFailure
}.

Inductive KeyLogin := LAccepted | LAcceptedNeedsMore | LRefused | LUnknown.

#[global] Instance KeyLogin_eq_dec : EqDecision KeyLogin.
Proof. solve_decision. Defined.

Definition key_login (r : option MultiExecResult) : KeyLogin :=
  match r with
  | None => LUnknown
  | Some r =>
      match mr_error r with
      | None => LAccepted
      | Some _ =>
          match mr_key_login r with
          | Some KRefused => LRefused
          | Some KAcceptedNeedsMore => LAcceptedNeedsMore
          | None => LUnknown
          end
      end
  end.

Definition ran (r : option MultiExecResult) (step : RotationStep) : StepOutcome :=
  match r with
  | None => Err NoResult
  | Some r =>
      if mr_timed_out r then Err TimedOut
      else
        match mr_error r with
        | Some message => Err (FError message)
        | None =>
            if bool_decide (step = Remove) && (mr_exit_status r =? REMOVE_EXIT_STILL_PRESENT)%Z
            then Err OldKeyStillPresent
            else if bool_decide (step = Remove) && (mr_exit_status r =? REMOVE_EXIT_NO_FILE)%Z
            then Err NoAuthorizedKeys
            else if negb (mr_exit_status r =? 0)%Z
            then let stderr := str_trim (mr_stderr r) in
                 Err (FError (if bool_decide (stderr = []) then chars "exit " ++ print_z (mr_exit_status r)
                              else stderr))
            else Ok tt
        end
  end.

(** a step as a program: it ends, or runs a command on its target, connected as for a
    step, and goes on with the answer *)
Definition Answer : Type := result StepFailure (option MultiExecResult).

Inductive StepProg :=
| PDone (outcome : StepOutcome)
| PExec (as_step : RotationStep) (cmd : text) (k : Answer -> StepProg).

(** [exec(..)?] *)
Definition exec (as_step : RotationStep) (cmd : text) (k : option MultiExecResult -> StepProg) : StepProg :=
  PExec as_step cmd (fun a => match a with Ok r => k r | Err f => PDone (Err f) end).

Definition old_key_refused (accepted : StepFailure) : StepProg :=
  exec Confirm (chars "true") (fun r =>
    match key_login r with
    | LRefused => PDone (Ok tt)
    | LUnknown => PDone (Err (OldKeyCheckFailed (r ← r; mr_error r)))
    | LAccepted | LAcceptedNeedsMore => PDone (Err accepted)
    end).

Definition not_a_public_key : text := chars "not an OpenSSH public key line".

Definition run_step (step : RotationStep) (keys : RotationKeys) (resumed : bool) : StepProg :=
  match step with
  | Verify =>
      exec Verify (chars "true") (fun r =>
        if bool_decide (key_login r = LAcceptedNeedsMore) then PDone (Ok tt) else PDone (ran r step))
  | Remove =>
      match authorized_keys_remove_command (ky_old keys) (ky_candidate keys) with
      | None => PDone (Err (FError not_a_public_key))
      | Some cmd =>
          exec Remove cmd (fun r =>
            if negb (bool_decide (key_login r = LAcceptedNeedsMore)) then PDone (ran r step)
            else old_key_refused RemoveNeedsSecondFactor)
      end
  | Confirm => old_key_refused OldKeyStillAccepted
  | Deploy =>
      let append := authorized_keys_append_command (ky_candidate keys) in
      let with_old := exec Deploy append (fun r => PDone (ran r step)) in
      if resumed then
        exec Verify append (fun r =>
          if bool_decide (key_login r = LAcceptedNeedsMore) || is_ok (ran r step) then PDone (Ok tt) else with_old)
      else with_old
  end.

Record MultiExecTarget := mkMultiExecTarget {
  mt_host : text; mt_port : N; mt_user : text; mt_auth : AuthMethod; mt_jumps : list JumpHost;
  mt_proxy : option ProxyConfig; mt_publickey_only : bool
}.

Definition with_candidate (m : Routes) (candidate : AuthMethod) (j : JumpHost) : JumpHost :=
  match ref_profile m j with
  | None => mkJumpHost (j_host j) (j_port j) (j_user j) candidate (j_hop_ref j)
  | Some r => mkJumpHost (cp_host r) (cp_port r) (cp_user r) candidate None
  end.

Definition hop_switched (lower : text -> text) (m : Routes) (verified : gset text) (t : RotationTarget)
    (i : nat) (j : JumpHost) : bool :=
  hop_uses_key m j &&
  match hop_target_id lower m (rt_jumps t) (rt_proxy t) i with
  | Some hop => bool_decide (hop ∈ verified)
  | None => false
  end.

Definition step_connect (lower : text -> text) (plan : RotationPlan) (verified : gset text) (id : text)
    (step : RotationStep) (candidate_id : text) : option MultiExecTarget :=
  t ← target plan id;
  let m := routes_of plan in
  let candidate := AAgent (pl_vault_id plan) candidate_id in
  let old := AAgent (pl_vault_id plan) (pl_key_item_id plan) in
  let jumps := imap (fun i j => if hop_switched lower m verified t i j then with_candidate m candidate j else j)
                 (rt_jumps t) in
  let auth := match step with Deploy | Confirm => old | Verify | Remove => candidate end in
  Some (mkMultiExecTarget (rt_host t) (rt_port t) (rt_user t) auth jumps (rt_proxy t)
          (negb (bool_decide (step = Deploy)))).

(** ** The driver

    Workers take pending steps and run them; the run is behind a lock, so each of
    the events below is atomic. A worker takes only what [drive] queued for its
    round and what may still start: here any step that may start can be begun at any time,
    which allows more. *)

(** a step in flight: which, where the candidate was proven when it set out, and what
    is left of it *)
Record Flight := mkFlight { fl_step : RotationStep; fl_verified : gset text; fl_prog : StepProg }.

(** one execution: the target, the step it connects as, where the candidate was proven
    then, the command, the answer *)
Record ExecEntry := mkExecEntry {
  xe_id : text; xe_as : RotationStep; xe_verified : gset text; xe_cmd : text; xe_answer : Answer
}.

Record RotationDriver := mkRotationDriver {
  dr_plan : RotationPlan;
  dr_keys : RotationKeys;
  dr_resumed : bool;
  dr_run : RotationRun;
  dr_flight : gmap text Flight;
  dr_log : list ExecEntry
}.

Definition new_driver (lower : text -> text) (plan : RotationPlan) (keys : RotationKeys) (resumed : bool)
    (scope : RunScope) : RotationDriver :=
  mkRotationDriver plan keys resumed (start_rotation lower plan scope) ∅ [].

Inductive DriverEvent :=
| DBegin (id : text)
| DAnswer (id : text) (a : Answer)
| DRecord (id : text)
| DRetry (id : text)
| DStop
| DExtend (last : RotationStep).

Definition on_run (f : RotationRun -> RotationRun) (d : RotationDriver) : RotationDriver :=
  mkRotationDriver (dr_plan d) (dr_keys d) (dr_resumed d) (f (dr_run d)) (dr_flight d) (dr_log d).

Definition driver_step (d : RotationDriver) (ev : DriverEvent) : RotationDriver :=
  match ev with
  | DBegin id =>
      match begin_step (dr_run d) id with
      | Some (step, r) =>
          mkRotationDriver (dr_plan d) (dr_keys d) (dr_resumed d) r
            (<[id := mkFlight step (rn_verified r) (run_step step (dr_keys d) (dr_resumed d))]> (dr_flight d)) (dr_log d)
      | None => d
      end
  | DAnswer id a =>
      match dr_flight d !! id with
      | Some (mkFlight step verified (PExec as_step cmd k)) =>
          mkRotationDriver (dr_plan d) (dr_keys d) (dr_resumed d) (dr_run d)
            (<[id := mkFlight step verified (k a)]> (dr_flight d))
            (dr_log d ++ [mkExecEntry id as_step verified cmd a])
      | _ => d
      end
  | DRecord id =>
      match dr_flight d !! id with
      | Some (mkFlight step verified (PDone outcome)) =>
          mkRotationDriver (dr_plan d) (dr_keys d) (dr_resumed d) (record_step id step outcome (dr_run d))
            (delete id (dr_flight d)) (dr_log d)
      | _ => d
      end
  | DRetry id => on_run (retry id) d
  | DStop => on_run cancel_run d
  | DExtend last => on_run (extend_to last) d
  end.

Definition run_driver (d : RotationDriver) (evs : list DriverEvent) : RotationDriver := foldl driver_step d evs.
