(* ===== verification/RotationThy.v ===== *)
(** * A key rotation never leaves a machine without a key

    Over all runs of [Rotation.RotationDriver], with whatever the machines answer: what
    precedes the removal of an old key, how hops are passed, what a switched machine has
    shown, that a run cannot get stuck and ends; and that the plan names every machine
    that authenticates with the key. *)

From Stdlib Require Import Strings.String Strings.Byte NArith ZArith Lia.
From stdpp Require Import base gmap sets list strings sorting countable.
From S2P Require Import Prelude Bytes Storage AutoOutput Rotation.

Local Open Scope N_scope.

Lemma text_eqb_true a b : text_eqb a b = true <-> a = b.
Proof. apply bool_decide_eq_true. Qed.
Lemma text_eqb_refl a : text_eqb a a = true.
Proof. by apply text_eqb_true. Qed.
Lemma text_eqb_false a b : text_eqb a b = false <-> a <> b.
Proof. apply bool_decide_eq_false. Qed.

(** ** States of a run as a map *)

Definition states_ok (r : RotationRun) : Prop := NoDup (rn_states r).*1.

Lemma find_first (l : list (text * TargetState)) id x :
  find (fun x => text_eqb x.1 id) l = Some x -> x ∈ l /\ x.1 = id.
Proof.
  intros H. apply find_some in H as [Hin Heq]. split; [by apply list_elem_of_In|]. by apply text_eqb_true.
Qed.

Lemma run_state_elem r id s : run_state r id = Some s -> (id, s) ∈ rn_states r.
Proof. unfold run_state. intros ([i s'] & Hf & ->)%fmap_Some. by apply find_first in Hf as [Hin <-]. Qed.

Lemma elem_run_state r id s : states_ok r -> (id, s) ∈ rn_states r -> run_state r id = Some s.
Proof.
  unfold states_ok, run_state. induction (rn_states r) as [|[i s'] l IH]; cbn; [by intros _ ?%not_elem_of_nil|].
  intros [Hni Hnd]%list.NoDup_cons [[= <- <-]|Hin]%elem_of_cons; [by rewrite text_eqb_refl|].
  destruct (text_eqb i id) eqn:E; [|by apply IH]. apply text_eqb_true in E as ->.
  destruct Hni. apply list_elem_of_fmap. by exists (id, s).
Qed.

Lemma set_first_ids id s l : (set_first id s l).*1 = l.*1.
Proof. induction l as [|x l IH]; cbn; [done|]. destruct (text_eqb x.1 id); cbn; [done|by rewrite IH]. Qed.

Lemma states_ok_set id s r : states_ok r -> states_ok (set_state id s r).
Proof. unfold states_ok. cbn. by rewrite set_first_ids. Qed.

Lemma run_state_set r id s k :
  run_state (set_state id s r) k = if bool_decide (k = id) then (fun _ => s) <$> run_state r id else run_state r k.
Proof.
  unfold run_state. cbn. induction (rn_states r) as [|[i s'] l IH]; cbn; [by case_bool_decide|].
  destruct (text_eqb i id) eqn:E; cbn.
  - apply text_eqb_true in E as ->. case_bool_decide as Hk.
    + subst. by rewrite text_eqb_refl.
    + destruct (text_eqb id k) eqn:E2; [by apply text_eqb_true in E2|done].
  - destruct (text_eqb i k) eqn:E2; [|exact IH]. case_bool_decide as Hk; [|done]. subst.
    by rewrite E in E2.
Qed.

Lemma run_state_set_ne r id s k : k <> id -> run_state (set_state id s r) k = run_state r k.
Proof. intros. by rewrite run_state_set, bool_decide_eq_false_2. Qed.
Lemma run_state_set_eq r id s s0 : run_state r id = Some s0 -> run_state (set_state id s r) id = Some s.
Proof. intros H. by rewrite run_state_set, bool_decide_eq_true_2, H. Qed.

(** a scan over the states is a statement about [run_state] *)
Lemma existsb_states r (p : text * TargetState -> bool) :
  states_ok r -> existsb p (rn_states r) = true <-> exists id s, run_state r id = Some s /\ p (id, s) = true.
Proof.
  intros Hok. rewrite existsb_exists. split.
  - intros ([id s] & Hin%list_elem_of_In & Hp). exists id, s. split; [by apply elem_run_state|done].
  - intros (id & s & Hs & Hp). exists (id, s). split; [by apply list_elem_of_In, run_state_elem|done].
Qed.

Lemma existsb_states_false r (p : text * TargetState -> bool) :
  states_ok r -> existsb p (rn_states r) = false -> forall id s, run_state r id = Some s -> p (id, s) = false.
Proof.
  intros Hok H id s Hs. destruct (p (id, s)) eqn:Hp; [|done].
  assert (existsb p (rn_states r) = true) by (apply existsb_states; eauto). congruence.
Qed.

Lemma run_state_cancel r k :
  run_state (cancel_run r) k = stop_target <$> run_state r k.
Proof.
  unfold run_state. cbn. induction (rn_states r) as [|[i s'] l IH]; cbn; [done|].
  destruct (text_eqb i k); [done|exact IH].
Qed.

Lemma startable_spec r id step :
  (id, step) ∈ startable r <-> rn_cancelled r = false /\ (id, Pending step) ∈ rn_states r /\ may_start r id step = true.
Proof.
  unfold startable. destruct (rn_cancelled r); [split; [by intros ?%not_elem_of_nil|naive_solver]|].
  rewrite list_elem_of_omap. split.
  - intros ([i s] & Hin & Hs). cbn in Hs. destruct s; try done. destruct (may_start r i step0) eqn:E; [|done].
    injection Hs as -> ->. done.
  - intros (_ & Hin & Hm). exists (id, Pending step). cbn. by rewrite Hm.
Qed.

Lemma begin_step_spec r id step r' :
  states_ok r -> begin_step r id = Some (step, r') ->
  rn_cancelled r = false /\ run_state r id = Some (Pending step) /\ may_start r id step = true /\
  r' = set_state id (TRunning step) r.
Proof.
  intros Hok. unfold begin_step. intros ([i s] & Hf & [= -> <-])%bind_Some.
  apply find_some in Hf as [Hin%list_elem_of_In Heq%text_eqb_true]. cbn in Heq. subst i.
  apply startable_spec in Hin as (? & Hin & ?). split_and!; try done. by apply elem_run_state.
Qed.

Lemma begin_step_startable r id step :
  states_ok r -> run_state r id = Some (Pending step) -> rn_cancelled r = false -> may_start r id step = true ->
  begin_step r id = Some (step, set_state id (TRunning step) r).
Proof.
  intros Hok Hs Hc Hm. unfold begin_step.
  assert (Hin : (id, step) ∈ startable r) by (apply startable_spec; split_and!; [done|by apply run_state_elem|done]).
  destruct (find (fun x => text_eqb x.1 id) (startable r)) as [[i s]|] eqn:Hf.
  - apply find_some in Hf as [Hin2%list_elem_of_In Heq%text_eqb_true]. cbn in Heq. subst i.
    apply startable_spec in Hin2 as (_ & Hin2 & _). apply elem_run_state in Hin2; [|done].
    rewrite Hs in Hin2. injection Hin2 as <-. done.
  - eapply find_none in Hf; [|by apply list_elem_of_In]. cbn in Hf. by rewrite text_eqb_refl in Hf.
Qed.

(** ** What a log of executions shows *)

(** the candidate was taken: the login went through, or only a second factor was missing *)
Definition login_ok (a : Answer) : bool :=
  match a with
  | Ok r => bool_decide (key_login r = LAcceptedNeedsMore) || is_ok (ran r Verify)
  | Err _ => false
  end.

(** target [id] took the candidate in a login of its own *)
Definition proven (log : list ExecEntry) (id : text) : Prop :=
  exists e, e ∈ log /\ xe_id e = id /\ xe_as e = Verify /\ xe_cmd e = chars "true" /\ login_ok (xe_answer e) = true.

(** target [id] refused the old key *)
Definition refused (log : list ExecEntry) (id : text) : Prop :=
  exists e r, e ∈ log /\ xe_id e = id /\ xe_as e = Confirm /\ xe_answer e = Ok r /\ key_login r = LRefused.

Definition removed (log : list ExecEntry) (id : text) : Prop := exists e, e ∈ log /\ xe_id e = id /\ xe_as e = Remove.

Lemma proven_mono log log' id : log ⊆ log' -> proven log id -> proven log' id.
Proof. intros Hs (e & ? & ?). exists e. auto. Qed.
Lemma refused_mono log log' id : log ⊆ log' -> refused log id -> refused log' id.
Proof. intros Hs (e & r & ? & ?). exists e, r. auto. Qed.

Lemma removed_snoc log e id : removed (log ++ [e]) id <-> removed log id \/ (xe_id e = id /\ xe_as e = Remove).
Proof.
  unfold removed. split.
  - intros (x & [Hin| ->%list_elem_of_singleton]%elem_of_app & ?); [left; eauto|by right].
  - intros [(x & Hin & ?)|?]; [exists x|exists e]; (split; [apply elem_of_app|done]); [by left|right].
    by apply list_elem_of_singleton.
Qed.

(** what the success of a step has shown *)
Definition step_goal (step : RotationStep) (log : list ExecEntry) (id : text) : Prop :=
  match step with Verify => proven log id | Confirm => refused log id | Deploy | Remove => True end.

Lemma step_goal_mono step log log' id : log ⊆ log' -> step_goal step log id -> step_goal step log' id.
Proof. destruct step; cbn; eauto using proven_mono, refused_mono. Qed.

(** what is left of a step succeeds only after its goal was shown, and only a removal removes *)
Fixpoint prog_safe (step : RotationStep) (id : text) (log : list ExecEntry) (p : StepProg) : Prop :=
  match p with
  | PDone o => is_ok o = true -> step_goal step log id
  | PExec s cmd k =>
      (s = Remove -> step = Remove) /\
      forall v a, prog_safe step id (log ++ [mkExecEntry id s v cmd a]) (k a)
  end.

Lemma prog_safe_mono step id p : forall log log', log ⊆ log' -> prog_safe step id log p -> prog_safe step id log' p.
Proof.
  induction p as [o|s cmd k IH]; cbn; intros log log' Hs.
  - intros H Ho. eapply step_goal_mono; [done|auto].
  - intros [Hr H]. split; [done|]. intros v a. eapply IH; [|apply (H v a)]. set_solver.
Qed.

Lemma elem_of_snoc {A} (l : list A) x : x ∈ l ++ [x].
Proof. apply elem_of_app. right. by apply list_elem_of_singleton. Qed.

Lemma run_step_safe step id log keys resumed : prog_safe step id log (run_step step keys resumed).
Proof.
  destruct step; cbn.
  - destruct resumed; cbn; (split; [done|]); intros v [r|f]; cbn; try done;
      destruct (_ || _); cbn; try done; (split; [done|]); intros v' [r'|f']; cbn; done.
  - split; [done|]. intros v [r|f]; cbn; [|done].
    destruct (bool_decide (key_login r = _)) eqn:E; cbn; intros H; (eexists; split; [apply elem_of_snoc|]; cbn);
      rewrite E; done.
  - destruct (authorized_keys_remove_command _ _); cbn; [|done]. split; [done|]. intros v [r|f]; cbn; [|done].
    destruct (negb _); cbn; [done|]. split; [done|]. intros v' [r'|f]; cbn; [|done]. by destruct (key_login r').
  - split; [done|]. intros v [r|f]; cbn; [|done]. destruct (key_login r) eqn:E; cbn; try done.
    intros _. eexists _, r. split; [apply elem_of_snoc|]. done.
Qed.

(** ** The invariant of a driver *)

(** every execution of a log: an old key is removed only where the candidate was taken
    before; a hop is passed with the old key only while no removal was sent to it *)
Definition log_ok (hops : text -> list text) (log : list ExecEntry) : Prop :=
  forall l1 e l2, log = l1 ++ e :: l2 ->
    (xe_as e = Remove -> proven l1 (xe_id e)) /\
    (forall h, h ∈ hops (xe_id e) -> removed l1 h -> h ∈ xe_verified e).

Lemma log_ok_snoc hops log e :
  log_ok hops log ->
  (xe_as e = Remove -> proven log (xe_id e)) ->
  (forall h, h ∈ hops (xe_id e) -> removed log h -> h ∈ xe_verified e) ->
  log_ok hops (log ++ [e]).
Proof.
  intros Hl H1 H2 l1 x l2 Heq. destruct (decide (l2 = [])) as [->|Hne].
  - apply app_inj_tail in Heq as [<- <-]. done.
  - destruct (exists_last Hne) as (l2' & y & ->). rewrite app_comm_cons, app_assoc in Heq.
    apply app_inj_tail in Heq as [Heq _]. by eapply Hl.
Qed.

Record driver_inv (d : RotationDriver) : Prop := mkDriverInv {
  di_ids : states_ok (dr_run d);
  di_flight : forall id f, dr_flight d !! id = Some f -> run_state (dr_run d) id = Some (TRunning (fl_step f));
  di_running : forall id s, run_state (dr_run d) id = Some (TRunning s) -> is_Some (dr_flight d !! id);
  di_proven : forall id, id ∈ rn_verified (dr_run d) -> proven (dr_log d) id;
  di_remove : forall id, run_state (dr_run d) id = Some (TRunning Remove) -> id ∈ rn_verified (dr_run d);
  di_removed : forall id, removed (dr_log d) id -> id ∈ rn_verified (dr_run d);
  di_switched : forall id, run_state (dr_run d) id = Some Switched -> refused (dr_log d) id;
  di_prog : forall id f, dr_flight d !! id = Some f -> prog_safe (fl_step f) id (dr_log d) (fl_prog f);
  di_hops : forall id f h, dr_flight d !! id = Some f -> h ∈ hops_of (dr_run d) id ->
    removed (dr_log d) h \/ run_state (dr_run d) h = Some (TRunning Remove) -> h ∈ fl_verified f;
  di_apart : forall a b s, run_state (dr_run d) a = Some (TRunning Remove) -> run_state (dr_run d) b = Some (TRunning s) ->
    at_deploy_or_verify (TRunning s) = false;
  di_log : log_ok (hops_of (dr_run d)) (dr_log d)
}.

(** a change of the run that leaves what is running, or switched, as it is *)
Lemma inv_on_run f d :
  driver_inv d -> states_ok (f (dr_run d)) ->
  rn_verified (f (dr_run d)) = rn_verified (dr_run d) -> rn_hops (f (dr_run d)) = rn_hops (dr_run d) ->
  (forall id s, run_state (f (dr_run d)) id = Some (TRunning s) <-> run_state (dr_run d) id = Some (TRunning s)) ->
  (forall id, run_state (f (dr_run d)) id = Some Switched -> run_state (dr_run d) id = Some Switched) ->
  driver_inv (on_run f d).
Proof.
  intros H Hids Hv Hh Hr Hsw. destruct H.
  assert (Hho : hops_of (f (dr_run d)) = hops_of (dr_run d)) by (unfold hops_of; by rewrite Hh).
  split; cbn -[run_state]; rewrite ?Hv, ?Hho; try done; intros *; rewrite ?Hr; eauto.
Qed.

Lemma inv_cancel d : driver_inv d -> driver_inv (on_run cancel_run d).
Proof.
  intros H. apply inv_on_run; [done| |done|done| |].
  - unfold states_ok. cbn. rewrite <- list_fmap_compose. apply (di_ids d H).
  - intros id s. rewrite run_state_cancel. destruct (run_state (dr_run d) id) as [[[]|s'| | | |]|]; naive_solver.
  - intros id. rewrite run_state_cancel. destruct (run_state (dr_run d) id) as [[[]|s'| | | |]|]; naive_solver.
Qed.

Lemma inv_extend last d : driver_inv d -> driver_inv (on_run (extend_to last) d).
Proof. intros H. apply inv_on_run; try done. apply (di_ids d H). Qed.

Lemma inv_retry id d : driver_inv d -> driver_inv (on_run (retry id) d).
Proof.
  intros H. unfold retry.
  destruct (rn_cancelled (dr_run d)) eqn:Hc; [by apply inv_on_run; rewrite ?Hc; [|apply (di_ids d H)| | | |]|].
  destruct (run_state (dr_run d) id) as [[| |step fl| | |]|] eqn:Hs;
    try (by apply inv_on_run; rewrite ?Hc, ?Hs; [|apply (di_ids d H)| | | |]).
  apply inv_on_run; rewrite ?Hc, ?Hs; [done|apply states_ok_set, (di_ids d H)|done|done| |];
    intros k; [intros s|]; rewrite run_state_set; case_bool_decide as Hk; subst; rewrite ?Hs; cbn; done.
Qed.

(** what allows a step to start *)
Lemma may_start_remove r id :
  states_ok r -> may_start r id Remove = true ->
  id ∈ rn_verified r /\ (forall k s, run_state r k = Some s -> at_deploy_or_verify s = false) /\
  (forall k s, run_state r k = Some (TRunning s) -> id ∉ hops_of r k).
Proof.
  unfold may_start, early, routed_through. intros Hok H.
  apply andb_true_iff in H as [_ [[He Hv%bool_decide_eq_true]%andb_true_iff Hr]%andb_true_iff].
  apply negb_true_iff in He, Hr. split; [done|]. split.
  - intros k s Hs. by apply (existsb_states_false r _ Hok He k s).
  - intros k s Hs Hin. apply (existsb_states_false r _ Hok Hr) in Hs. cbn in Hs.
    rewrite <- not_true_iff_false in Hs. apply Hs, existsb_exists. exists id.
    split; [by apply list_elem_of_In|apply text_eqb_refl].
Qed.

Lemma may_start_early r id step k :
  states_ok r -> at_deploy_or_verify (TRunning step) = true -> may_start r id step = true ->
  run_state r k <> Some (TRunning Remove).
Proof.
  unfold may_start, removing. intros Hok Hstep H Hk. apply andb_true_iff in H as [_ H].
  assert (Hr : existsb (fun x => bool_decide (x.2 = TRunning Remove)) (rn_states r) = false).
  { destruct step; try done; by apply andb_true_iff in H as [H%negb_true_iff _]. }
  apply (existsb_states_false r _ Hok Hr) in Hk. by apply bool_decide_eq_false in Hk.
Qed.

(** split on whether a target is the one that changes *)
Ltac same_target k id :=
  destruct (decide (k = id)) as [->|];
  rewrite ?lookup_insert_eq, ?lookup_insert_ne, ?lookup_delete_eq, ?lookup_delete_ne, ?run_state_set_ne in * by done.

Lemma inv_begin id d : driver_inv d -> driver_inv (driver_step d (DBegin id)).
Proof.
  intros H. cbn. destruct (begin_step (dr_run d) id) as [[step r']|] eqn:Hb; [|done].
  apply begin_step_spec in Hb as (Hc & Hs & Hm & ->); [|apply H].
  assert (Hrun : run_state (set_state id (TRunning step) (dr_run d)) id = Some (TRunning step)) by by eapply run_state_set_eq.
  assert (Hrem : step = Remove -> id ∈ rn_verified (dr_run d)).
  { intros ->. by apply may_start_remove in Hm as [??]; [|apply H]. }
  pose proof (di_ids d H) as Hok. pose proof H as Hinv. destruct H.
  split; cbn -[run_state set_state]; try done.
  - by apply states_ok_set.
  - intros k f. same_target k id; [intros [= <-]; done|eauto].
  - intros k s. same_target k id; [eauto|eauto].
  - intros k. same_target k id; [rewrite Hrun; intros [= ->]; auto|eauto].
  - intros k. same_target k id; [rewrite Hrun; done|eauto].
  - intros k f. same_target k id; [intros [= <-]; apply run_step_safe|eauto].
  - intros k f h Hf Hin Hh. same_target k id.
    + injection Hf as <-. cbn. destruct Hh as [Hh|Hh]; [eauto|]. same_target h id; [|eauto].
      rewrite Hrun in Hh. injection Hh as ->. auto.
    + destruct Hh as [Hh|Hh]; [eauto|]. same_target h id; [|eauto].
      rewrite Hrun in Hh. injection Hh as ->. exfalso.
      apply may_start_remove in Hm as (_ & _ & Hm); [|done]. by eapply Hm; eauto.
  - intros a b s Ha Hs'. same_target a id; same_target b id; try rewrite Hrun in *; simplify_eq; [done| | |eauto].
    + apply may_start_remove in Hm as (_ & Hm & _); [apply (Hm b _ Hs')|done].
    + destruct (at_deploy_or_verify (TRunning s)) eqn:E; [|done].
      by destruct (may_start_early _ id s a Hok E Hm).
Qed.

Lemma inv_answer id a d : driver_inv d -> driver_inv (driver_step d (DAnswer id a)).
Proof.
  intros H. cbn. destruct (dr_flight d !! id) as [[step v [o|s cmd k]]|] eqn:Hf; [done| |done].
  set (e := mkExecEntry id s v cmd a).
  pose proof (di_flight d H _ _ Hf) as Hst. cbn -[run_state] in Hst.
  pose proof (di_prog d H _ _ Hf) as [Hs Hk]. cbn in Hs.
  assert (Hsub : dr_log d ⊆ dr_log d ++ [e]) by set_solver.
  assert (Hrem : s = Remove -> run_state (dr_run d) id = Some (TRunning Remove)) by (intros E; rewrite Hst; f_equal; f_equal; auto).
  assert (Hnew : forall h, removed (dr_log d ++ [e]) h ->
    removed (dr_log d) h \/ run_state (dr_run d) h = Some (TRunning Remove)).
  { intros h [?|[<- ?]]%removed_snoc; [by left|right; by apply Hrem]. }
  destruct H. split; cbn -[run_state]; try done.
  - intros k' f. same_target k' id; [intros [= <-]; done|eauto].
  - intros k' s'. same_target k' id; eauto.
  - eauto using proven_mono.
  - intros h [?|?]%Hnew; eauto.
  - eauto using refused_mono.
  - intros k' f. same_target k' id; [intros [= <-]; apply Hk|]. intros Hf'. eapply prog_safe_mono; [done|eauto].
  - intros k' f h Hf' Hin Hh.
    assert (removed (dr_log d) h \/ run_state (dr_run d) h = Some (TRunning Remove)) by naive_solver.
    same_target k' id; [injection Hf' as <-; by apply (di_hops0 _ _ h Hf)|eauto].
  - apply log_ok_snoc; [done|intros Hr; by apply di_proven0, di_remove0, Hrem|].
    intros h Hin Hh. apply (di_hops0 _ _ h Hf); auto.
Qed.

Lemma record_step_running id step o r :
  run_state r id = Some (TRunning step) ->
  record_step id step o r =
  set_state id (next_state step o (rn_cancelled r)) (if is_ok o && bool_decide (step = Verify) then with_verified id r else r).
Proof. intros H. unfold record_step. rewrite bool_decide_eq_true_2 by done. by destruct (_ && _). Qed.

Lemma next_state_settles step o c s : next_state step o c <> TRunning s.
Proof. destruct o as [u|f], step, c; cbn; done. Qed.
Lemma next_state_switched step o c : next_state step o c = Switched -> step = Confirm /\ is_ok o = true.
Proof. destruct o as [u|f], step, c; cbn; done. Qed.

Lemma inv_record id d : driver_inv d -> driver_inv (driver_step d (DRecord id)).
Proof.
  intros H. cbn -[record_step]. destruct (dr_flight d !! id) as [[step v [o|]]|] eqn:Hf; [|done|done].
  pose proof (di_flight d H _ _ Hf) as Hst. cbn -[run_state] in Hst.
  pose proof (di_prog d H _ _ Hf) as Hgoal. cbn in Hgoal.
  rewrite (record_step_running _ _ _ _ Hst).
  set (r' := if is_ok o && _ then _ else _). set (s' := next_state _ _ _).
  assert (Hr : forall k, run_state r' k = run_state (dr_run d) k) by (intros; subst r'; by destruct (_ && _)).
  assert (Hids : states_ok r') by (subst r'; destruct (_ && _); apply (di_ids d H)).
  assert (Hv : rn_verified (dr_run d) ⊆ rn_verified r') by (subst r'; destruct (_ && _); cbn; set_solver).
  assert (Hp : forall k, k ∈ rn_verified r' -> proven (dr_log d) k).
  { subst r'. destruct (is_ok o) eqn:Ho, step; cbn; try apply (di_proven d H).
    intros k [->%elem_of_singleton|?]%elem_of_union; [by apply Hgoal|by apply (di_proven d H)]. }
  assert (Hh : hops_of r' = hops_of (dr_run d)) by (subst r'; by destruct (_ && _)).
  assert (Hset : forall k, run_state (set_state id s' r') k = if bool_decide (k = id) then Some s' else run_state (dr_run d) k).
  { intros k. rewrite run_state_set, !Hr, Hst. done. }
  assert (Hrun : forall k s, run_state (set_state id s' r') k = Some (TRunning s) ->
    k <> id /\ run_state (dr_run d) k = Some (TRunning s)).
  { intros k s. rewrite Hset. case_bool_decide; [|done]. intros [= E]. by destruct (next_state_settles _ _ _ _ E). }
  destruct H. split; cbn -[run_state set_state record_step]; try done.
  - by apply states_ok_set.
  - intros k f. same_target k id; [done|]. intros Hk. rewrite Hr. eauto.
  - intros k s [Hne Hk]%Hrun. rewrite lookup_delete_ne by done. eauto.
  - intros k [_ Hk]%Hrun. apply Hv. eauto.
  - intros k Hk. apply Hv. eauto.
  - intros k. rewrite Hset. case_bool_decide as E; [|eauto]. subst. intros [= [-> Ho]%next_state_switched]. by apply Hgoal.
  - intros k f. same_target k id; [done|]. eauto.
  - intros k f h. same_target k id; [done|]. intros Hk Hin [Hh'|[_ Hh']%Hrun]; (eapply di_hops0; [done| |auto]);
      by rewrite <- Hh.
  - intros a b s [_ Ha]%Hrun [_ Hb]%Hrun. eauto.
  - change (hops_of (set_state id s' r')) with (hops_of r'). by rewrite Hh.
Qed.

Lemma driver_inv_step d ev : driver_inv d -> driver_inv (driver_step d ev).
Proof.
  destruct ev; [apply inv_begin|apply inv_answer|apply inv_record|apply inv_retry|apply inv_cancel|apply inv_extend].
Qed.

Lemma driver_inv_run evs d : driver_inv d -> driver_inv (run_driver d evs).
Proof. revert d. induction evs as [|ev evs IH]; intros d H; cbn; [done|]. by apply IH, driver_inv_step. Qed.

(** ** Targets of a plan *)

Lemma add_target_ids ts t : NoDup (rt_id <$> ts) -> NoDup (rt_id <$> add_target ts t).
Proof.
  intros H. unfold add_target. destruct (existsb _ _) eqn:E; [done|].
  rewrite fmap_app. apply list.NoDup_app. split; [done|]. split; [|apply NoDup_singleton].
  intros x Hx ->%list_elem_of_singleton. apply list_elem_of_fmap in Hx as (t' & Ht & Hin).
  rewrite <- not_true_iff_false in E. apply E, existsb_exists. exists t'.
  split; [by apply list_elem_of_In|]. by apply text_eqb_true.
Qed.

Lemma add_targets_ids l ts : NoDup (rt_id <$> ts) -> NoDup (rt_id <$> foldl add_target ts l).
Proof. revert ts. induction l as [|t l IH]; intros ts H; cbn; [done|]. by apply IH, add_target_ids. Qed.

Lemma plan_ids_NoDup lower hosts v k same :
  NoDup (rt_id <$> pl_targets (plan_rotation_in lower hosts v k same)).
Proof.
  cbn. set (m := new_routes _ _ _).
  set (ts := foldl add_target [] _). assert (Hts : NoDup (rt_id <$> ts)) by apply add_targets_ids, NoDup_nil_2.
  clearbody ts m. revert ts Hts. generalize hosts as hs.
  induction hs as [|h hs IH]; intros ts Hts; cbn; [done|]. by apply IH, add_targets_ids.
Qed.

Lemma target_elem plan id t : target plan id = Some t -> t ∈ pl_targets plan /\ rt_id t = id.
Proof.
  unfold target. intros H. apply find_some in H as [Hin Heq]. split; [by apply list_elem_of_In|by apply text_eqb_true].
Qed.

Lemma elem_target plan id : id ∈ rt_id <$> pl_targets plan <-> is_Some (target plan id).
Proof.
  split.
  - intros (t & -> & Hin)%list_elem_of_fmap. unfold target.
    destruct (find _ _) eqn:Hf; [done|]. eapply find_none in Hf; [|by apply list_elem_of_In].
    cbn in Hf. by rewrite text_eqb_refl in Hf.
  - intros [t Ht]. apply target_elem in Ht as [Hin <-]. apply list_elem_of_fmap. eauto.
Qed.

(** ** Runs of a driver *)

Section runs.
Context (lower : text -> text) (plan : RotationPlan) (keys : RotationKeys) (resumed : bool) (scope : RunScope).
Hypothesis plan_ids : NoDup (rt_id <$> pl_targets plan).

Definition run_ids : list text := rt_id <$> filter (fun t => in_scope scope t = true) (pl_targets plan).

Lemma start_ids : (rn_states (start_rotation lower plan scope)).*1 = run_ids.
Proof. cbn. unfold run_ids. by rewrite <- list_fmap_compose. Qed.

Lemma run_ids_NoDup : NoDup run_ids.
Proof. unfold run_ids. eapply sublist_NoDup; [done|]. apply fmap_sublist, sublist_filter. Qed.

Lemma start_state id s : run_state (start_rotation lower plan scope) id = Some s -> s = Pending (sc_first scope).
Proof. intros H%run_state_elem. cbn in H. by apply list_elem_of_fmap in H as (t & [= _ ->] & _). Qed.

Lemma driver_inv_start : driver_inv (new_driver lower plan keys resumed scope).
Proof.
  split; cbn -[run_state start_rotation]; try (intros; by simplify_map_eq).
  - unfold states_ok. rewrite start_ids. apply run_ids_NoDup.
  - intros id s Hs%start_state. done.
  - intros id Hs%start_state. done.
  - intros id (e & Hin & _). by apply not_elem_of_nil in Hin.
  - intros id Hs%start_state. done.
  - intros a b s Hs%start_state. done.
  - intros l1 e l2 Heq. by destruct l1.
Qed.

(** what no event changes, and that only targets of the run are run on *)
Record frame (d : RotationDriver) : Prop := mkFrame {
  fr_plan : dr_plan d = plan;
  fr_keys : dr_keys d = keys;
  fr_ids : (rn_states (dr_run d)).*1 = run_ids;
  fr_hops : rn_hops (dr_run d) = rn_hops (start_rotation lower plan scope);
  fr_log : forall e, e ∈ dr_log d -> xe_id e ∈ run_ids
}.

Lemma run_state_id r id s : run_state r id = Some s -> id ∈ (rn_states r).*1.
Proof. intros H%run_state_elem. apply list_elem_of_fmap. by exists (id, s). Qed.

Lemma frame_step d ev : driver_inv d -> frame d -> frame (driver_step d ev).
Proof.
  intros Hinv [Hp Hk Hi Hh Hl]. destruct ev as [id|id a|id|id| |last]; cbn -[record_step begin_step].
  - destruct (begin_step (dr_run d) id) as [[step r']|] eqn:Hb; [|done].
    apply begin_step_spec in Hb as (_ & _ & _ & ->); [|apply Hinv]. split; cbn; try done. by rewrite set_first_ids.
  - destruct (dr_flight d !! id) as [[step v [o|s cmd k]]|] eqn:Hf; [done| |done]. split; cbn; try done.
    intros e [Hin| ->%list_elem_of_singleton]%elem_of_app; [eauto|]. cbn. rewrite <- Hi.
    eapply run_state_id, (di_flight d Hinv _ _ Hf).
  - destruct (dr_flight d !! id) as [[step v [o|s cmd k]]|] eqn:Hf; [|done|done].
    pose proof (di_flight d Hinv _ _ Hf) as Hst. cbn -[run_state] in Hst.
    rewrite (record_step_running _ _ _ _ Hst). destruct (_ && _); split; cbn; try done; by rewrite set_first_ids.
  - unfold on_run, retry. destruct (rn_cancelled (dr_run d)); [done|].
    destruct (run_state (dr_run d) id) as [[]|]; split; cbn; try done. by rewrite set_first_ids.
  - split; cbn; try done. rewrite <- Hi, <- list_fmap_compose. done.
  - done.
Qed.

Definition reached (d : RotationDriver) : Prop :=
  exists evs, d = run_driver (new_driver lower plan keys resumed scope) evs.

Lemma frame_run evs d : driver_inv d -> frame d -> frame (run_driver d evs).
Proof.
  revert d. induction evs as [|ev evs IH]; intros d Hi Hf; cbn; [done|].
  apply IH; [by apply driver_inv_step|by apply frame_step].
Qed.

Lemma reached_inv d : reached d -> driver_inv d /\ frame d.
Proof.
  intros [evs ->]. split; [apply driver_inv_run, driver_inv_start|]. apply frame_run; [apply driver_inv_start|].
  split; try done; [apply start_ids|]. cbn. by intros e ?%not_elem_of_nil.
Qed.

(** the hops of a target in the run: its hops with a target there *)
Lemma foldl_insert_lookup {A} (g : text -> A) (l : list (text * TargetState)) m k :
  foldl (fun (m : gmap text A) x => <[x.1 := x.2]> m) m ((fun x : text * TargetState => (x.1, g x.1)) <$> l) !! k =
  if bool_decide (k ∈ l.*1) then Some (g k) else m !! k.
Proof.
  revert m. induction l as [|[i s] l IH]; intros m; cbn; [done|]. rewrite IH. cbn.
  destruct (decide (k ∈ l.*1)) as [Hin|Hin].
  - rewrite !bool_decide_eq_true_2; [done|by apply elem_of_cons; right|done].
  - rewrite (bool_decide_eq_false_2 (k ∈ l.*1)) by done. destruct (decide (k = i)) as [->|Hne].
    + rewrite lookup_insert_eq, bool_decide_eq_true_2; [done|]. by apply elem_of_cons; left.
    + rewrite lookup_insert_ne, bool_decide_eq_false_2; [done| |done]. by intros [?|?]%elem_of_cons.
Qed.

Lemma start_hops id h :
  h ∈ hops_of (start_rotation lower plan scope) id <->
  id ∈ run_ids /\ h ∈ run_ids /\ h ∈ key_hops lower plan id.
Proof.
  unfold hops_of. pose proof start_ids as Hids. cbn -[key_hops] in Hids. cbn -[key_hops].
  set (sts := (fun t => _) <$> filter _ _) in *.
  rewrite (foldl_insert_lookup (fun i => filter (fun h => h ∈ sts.*1) (key_hops lower plan i))).
  rewrite Hids. case_bool_decide as Hin; cbn -[key_hops]; rewrite ?lookup_empty; cbn -[key_hops].
  - rewrite list_elem_of_filter. naive_solver.
  - rewrite elem_of_nil. naive_solver.
Qed.

Lemma run_ids_targets id : id ∈ run_ids -> is_Some (target plan id).
Proof.
  intros (t & -> & [_ Hin]%list_elem_of_filter)%list_elem_of_fmap. apply elem_target, list_elem_of_fmap. eauto.
Qed.

End runs.

(** ** What has verified *)

(** states of a target that has passed its verify, when runs start no later *)
Definition past_verify (s : TargetState) : bool :=
  match s with
  | Pending s | TRunning s | TFailed s _ => negb (step_ltb s Remove)
  | Switched | Unconfirmed => true
  | KeptOld after => bool_decide (after = Some Verify)
  end.

Definition verified_inv (d : RotationDriver) : Prop :=
  forall id s, run_state (dr_run d) id = Some s -> past_verify s = true -> id ∈ rn_verified (dr_run d).

Lemma past_next step o c :
  past_verify (next_state step o c) = true -> past_verify (TRunning step) = true \/ (is_ok o && bool_decide (step = Verify)) = true.
Proof. destruct o as [u|f], step, c; cbn; auto. Qed.

Lemma verified_step d ev : driver_inv d -> verified_inv d -> verified_inv (driver_step d ev).
Proof.
  intros Hinv H k s. destruct ev as [id|id a|id|id| |last]; cbn -[run_state record_step begin_step].
  - destruct (begin_step (dr_run d) id) as [[step r']|] eqn:Hb; [|apply H].
    apply begin_step_spec in Hb as (_ & Hs & _ & ->); [|apply Hinv]. cbn -[run_state set_state].
    rewrite run_state_set. case_bool_decide; [|apply H]. subst. rewrite Hs. intros [= <-]. by apply (H _ _ Hs).
  - destruct (dr_flight d !! id) as [[step v [o|s' cmd k']]|] eqn:Hf; apply H.
  - destruct (dr_flight d !! id) as [[step v [o|s' cmd k']]|] eqn:Hf; [|apply H|apply H].
    pose proof (di_flight d Hinv _ _ Hf) as Hst. cbn -[run_state] in Hst. cbn -[run_state record_step].
    rewrite (record_step_running _ _ _ _ Hst), run_state_set.
    assert (Hr : run_state (if is_ok o && bool_decide (step = Verify) then with_verified id (dr_run d) else dr_run d) =
                 run_state (dr_run d)) by by destruct (_ && _).
    rewrite Hr, Hst. destruct (bool_decide_reflect (k = id)) as [->|Hk]; [|intros Hs Hp; pose proof (H k s Hs Hp); destruct (_ && _); cbn; set_solver].
    intros [= <-] [Hp| ->]%past_next; [|cbn; set_solver]. pose proof (H _ _ Hst Hp).
    destruct (_ && _); cbn; set_solver.
  - unfold retry. destruct (rn_cancelled (dr_run d)); [apply H|].
    destruct (run_state (dr_run d) id) as [[| |step f| | |]|] eqn:Hs; try apply H.
    rewrite run_state_set. case_bool_decide; [|apply H]. subst. rewrite Hs. intros [= <-]. by apply (H _ _ Hs).
  - rewrite run_state_cancel. intros (s0 & Hs & ->)%fmap_Some Hp. apply (H _ _ Hs). destruct s0 as [[]| | | | |]; done.
  - apply H.
Qed.

(** how the connection of an execution is made *)
Definition connection (lower : text -> text) (d : RotationDriver) (e : ExecEntry) : option MultiExecTarget :=
  step_connect lower (dr_plan d) (xe_verified e) (xe_id e) (xe_as e) (ky_candidate_id (dr_keys d)).

(** the machine of target [id] took key [key] in a login with that key alone *)
Definition took_key (lower : text -> text) (d : RotationDriver) (log : list ExecEntry) (id : text) (key : AuthMethod) : Prop :=
  exists e c, e ∈ log /\ xe_id e = id /\ login_ok (xe_answer e) = true /\
    connection lower d e = Some c /\ mt_auth c = key /\ mt_publickey_only c = true.

(** it refused key [key], offered alone *)
Definition refused_key (lower : text -> text) (d : RotationDriver) (log : list ExecEntry) (id : text) (key : AuthMethod) : Prop :=
  exists e r c, e ∈ log /\ xe_id e = id /\ xe_answer e = Ok r /\ key_login r = LRefused /\
    connection lower d e = Some c /\ mt_auth c = key /\ mt_publickey_only c = true.

Definition candidate_auth (plan : RotationPlan) (keys : RotationKeys) : AuthMethod :=
  AAgent (pl_vault_id plan) (ky_candidate_id keys).
Definition old_auth (plan : RotationPlan) : AuthMethod := AAgent (pl_vault_id plan) (pl_key_item_id plan).

Section facts.
Context (lower : text -> text) (plan : RotationPlan) (keys : RotationKeys) (resumed : bool) (scope : RunScope).
Hypothesis plan_ids : NoDup (rt_id <$> pl_targets plan).
Context (d : RotationDriver).
Hypothesis Hd : reached lower plan keys resumed scope d.

Lemma connection_of e :
  e ∈ dr_log d -> exists t, target plan (xe_id e) = Some t /\ connection lower d e =
    step_connect lower plan (xe_verified e) (xe_id e) (xe_as e) (ky_candidate_id keys).
Proof.
  intros He. destruct (reached_inv _ _ _ _ _ plan_ids d Hd) as [_ Hf].
  destruct (run_ids_targets plan scope (xe_id e)) as [t Ht]; [by apply (fr_log _ _ _ _ _ Hf)|].
  exists t. split; [done|]. unfold connection. by rewrite (fr_plan _ _ _ _ _ Hf), (fr_keys _ _ _ _ _ Hf).
Qed.

Lemma proven_took log id : log ⊆ dr_log d -> proven log id -> took_key lower d log id (candidate_auth plan keys).
Proof.
  intros Hs (e & He & Hid & Has & _ & Ha). destruct (connection_of e) as (t & Ht & Hc); [by apply Hs|].
  rewrite Has in Hc. unfold step_connect in Hc. rewrite Ht in Hc. cbn in Hc.
  eexists e, _. split; [done|]. split; [done|]. split; [done|]. split; [exact Hc|]. done.
Qed.

Lemma refused_refused log id : log ⊆ dr_log d -> refused log id -> refused_key lower d log id (old_auth plan).
Proof.
  intros Hs (e & r & He & Hid & Has & Ha & Hr). destruct (connection_of e) as (t & Ht & Hc); [by apply Hs|].
  rewrite Has in Hc. unfold step_connect in Hc. rewrite Ht in Hc. cbn in Hc.
  eexists e, r, _. split; [done|]. split; [done|]. split; [done|]. split; [done|]. split; [exact Hc|]. done.
Qed.

Lemma removed_verified l1 e l2 :
  dr_log d = l1 ++ e :: l2 -> xe_as e = Remove -> took_key lower d l1 (xe_id e) (candidate_auth plan keys).
Proof.
  intros Hl Hr. destruct (reached_inv _ _ _ _ _ plan_ids d Hd) as [Hi _].
  apply proven_took; [rewrite Hl; set_solver|]. by apply (di_log d Hi _ _ _ Hl).
Qed.

(** a hop that was sent a removal is in the set its passer connects with *)
Lemma removed_hop_known l1 e l2 h :
  dr_log d = l1 ++ e :: l2 -> h ∈ key_hops lower plan (xe_id e) -> removed l1 h -> h ∈ xe_verified e.
Proof.
  intros Hl Hh Hr. destruct (reached_inv _ _ _ _ _ plan_ids d Hd) as [Hi Hf].
  apply (di_log d Hi _ _ _ Hl); [|done]. unfold hops_of. rewrite (fr_hops _ _ _ _ _ Hf).
  apply start_hops. split; [apply (fr_log _ _ _ _ _ Hf); rewrite Hl; set_solver|]. split; [|done].
  destruct Hr as (e' & He' & <- & _). apply (fr_log _ _ _ _ _ Hf). rewrite Hl. set_solver.
Qed.

Lemma verified_reached : step_ltb (sc_first scope) Remove = true -> verified_inv d.
Proof.
  intros Hs. destruct Hd as [evs ->].
  assert (H0 : verified_inv (new_driver lower plan keys resumed scope)).
  { intros id s ->%start_state. cbn -[step_ltb]. by rewrite Hs. }
  pose proof (driver_inv_start lower plan keys resumed scope plan_ids) as Hi.
  revert H0 Hi. generalize (new_driver lower plan keys resumed scope) as d0.
  clear. induction evs as [|ev evs IH]; intros d0 H0 Hi; cbn; [done|].
  apply IH; [by apply verified_step|by apply driver_inv_step].
Qed.
End facts.

Lemma key_hops_at lower plan id t i j h :
  target plan id = Some t -> rt_jumps t !! i = Some j -> hop_uses_key (routes_of plan) j = true ->
  hop_target_id lower (routes_of plan) (rt_jumps t) (rt_proxy t) i = Some h -> is_Some (target plan h) ->
  h ∈ key_hops lower plan id.
Proof.
  intros Ht Hj Hu Hh Hs. unfold key_hops. rewrite Ht. apply list_elem_of_filter. split; [done|].
  apply list_elem_of_omap. exists (i, j). cbn -[hop_target_id]. rewrite Hu. split; [|done].
  apply list_elem_of_lookup. exists i. rewrite list_lookup_imap, Hj. done.
Qed.

(** a hop that uses the key and whose target took the candidate is passed with it, written out *)
Lemma step_connect_switched lower plan verified id step cand t i j h :
  target plan id = Some t -> rt_jumps t !! i = Some j -> hop_uses_key (routes_of plan) j = true ->
  hop_target_id lower (routes_of plan) (rt_jumps t) (rt_proxy t) i = Some h -> h ∈ verified ->
  exists c j', step_connect lower plan verified id step cand = Some c /\ mt_jumps c !! i = Some j' /\
    j_auth j' = AAgent (pl_vault_id plan) cand /\ j_hop_ref j' = None.
Proof.
  intros Ht Hj Hu Hh Hv. unfold step_connect. rewrite Ht. cbn -[hop_switched with_candidate].
  eexists _, _. split; [done|]. cbn -[hop_switched with_candidate].
  rewrite list_lookup_imap, Hj. cbn -[hop_switched with_candidate]. unfold hop_switched.
  rewrite Hu, Hh, bool_decide_eq_true_2 by done. cbn -[with_candidate]. split; [done|].
  unfold with_candidate. unfold hop_uses_key in Hu.
  destruct (j_hop_ref j) as [r|] eqn:Hr.
  - destruct (ref_profile _ j) as [p|] eqn:Hp; [|done]. done.
  - assert (ref_profile (routes_of plan) j = None) as -> by (unfold ref_profile; by rewrite Hr). done.
Qed.

(** ** Theorems *)

(** a bastion, and a host behind it by reference; both log in with key [k] of vault [v] *)
Definition demo_hosts : list ConnectionProfile :=
  [mkConnectionProfile (chars "B") (chars "bastion") (chars "b") 22 (chars "r") (PKey (chars "k")) [] None;
   mkConnectionProfile (chars "H") (chars "host") (chars "h") 22 (chars "r") (PKey (chars "k"))
     [mkJumpHost [] 0 [] (AAgent [] []) (Some (mkHopRef (chars "v") (chars "B")))] None].
Definition demo_keys : RotationKeys := mkRotationKeys (chars "t A") (chars "t B") (chars "n").
Definition demo_b : text := chars "r@b:22".
Definition demo_h : text := chars "r@h:22 via r@b:22".
#[local] Abbreviation demo_plan := (plan_rotation_in (fun s => s) demo_hosts (chars "v") (chars "k") {[chars "v"]}).

Definition demo_ok : Answer := Ok (Some (mkMultiExecResult [] [] [] 0 None 0 false None)).
Definition demo_no : Answer := Ok (Some (mkMultiExecResult [] [] [] 0 (Some (chars "no")) 0 false (Some KRefused))).
(** a step of a target with one execution *)
Definition demo_do (id : text) (a : Answer) : list DriverEvent := [DBegin id; DAnswer id a; DRecord id].

(** deploy and verify on both, then the old key leaves the bastion and the host *)
Definition demo_events : list DriverEvent :=
  demo_do demo_b demo_ok ++ demo_do demo_b demo_ok ++ demo_do demo_h demo_ok ++ demo_do demo_h demo_ok ++
  demo_do demo_b demo_ok ++ demo_do demo_h demo_ok ++ demo_do demo_b demo_no ++ demo_do demo_h demo_no.
#[local] Abbreviation demo := (run_driver (new_driver (fun s => s) demo_plan demo_keys false full_scope) demo_events).

(** C8. In every run over a plan, whatever the machines answer and however steps, retries, stops
    and extensions interleave, the command that removes the old key is sent to a target only after
    that target took the new key in an earlier login with that key alone. *)
Theorem old_key_removed_last lower hosts v k same keys resumed scope evs n e :
  let plan := plan_rotation_in lower hosts v k same in
  let d := run_driver (new_driver lower plan keys resumed scope) evs in
  dr_log d !! n = Some e -> xe_as e = Remove ->
  took_key lower d (take n (dr_log d)) (xe_id e) (candidate_auth plan keys).
Proof.
  intros plan d He Hr. eapply (removed_verified _ plan keys resumed scope); [apply plan_ids_NoDup|by exists evs| |done].
  symmetry. by apply take_drop_middle.
Qed.

Lemma old_key_removed_last_witness :
  match dr_log demo !! 4%nat with
  | Some e => xe_as e = Remove /\
      took_key (fun s => s) demo (take 4 (dr_log demo)) (xe_id e) (candidate_auth demo_plan demo_keys)
  | None => False
  end.
Proof.
  assert (Hr : xe_as <$> dr_log demo !! 4%nat = Some Remove) by (vm_compute; reflexivity).
  destruct (dr_log demo !! 4%nat) as [e|] eqn:E; [|discriminate]. apply Some_inj in Hr. split; [exact Hr|].
  apply (old_key_removed_last (fun s => s) demo_hosts (chars "v") (chars "k") {[chars "v"]} demo_keys false full_scope
           demo_events 4%nat e E Hr).
Defined.

(** A hop is never passed with a key that may be gone: once the removal of the old key was sent
    to a machine, every later connection that goes through it as a hop logs in there with the new
    key, written out so that no stored profile puts the old one back. *)
Theorem removed_hops_take_candidate lower hosts v k same keys resumed scope evs n e t i j h :
  let plan := plan_rotation_in lower hosts v k same in
  let d := run_driver (new_driver lower plan keys resumed scope) evs in
  dr_log d !! n = Some e -> target plan (xe_id e) = Some t ->
  rt_jumps t !! i = Some j -> hop_uses_key (routes_of plan) j = true ->
  hop_target_id lower (routes_of plan) (rt_jumps t) (rt_proxy t) i = Some h ->
  removed (take n (dr_log d)) h ->
  exists c j', connection lower d e = Some c /\ mt_jumps c !! i = Some j' /\
    j_auth j' = candidate_auth plan keys /\ j_hop_ref j' = None.
Proof.
  intros plan d He Ht Hj Hu Hh Hr.
  assert (Hids : NoDup (rt_id <$> pl_targets plan)) by apply plan_ids_NoDup.
  assert (Hd : reached lower plan keys resumed scope d) by by exists evs.
  assert (Hl : dr_log d = take n (dr_log d) ++ e :: drop (S n) (dr_log d)) by (symmetry; by apply take_drop_middle).
  assert (Hth : is_Some (target plan h)).
  { destruct Hr as (e' & He' & <- & _). destruct (connection_of _ _ _ _ _ Hids d Hd e') as (t' & ? & _); [|eauto].
    rewrite Hl. set_solver. }
  destruct (connection_of _ _ _ _ _ Hids d Hd e) as (_ & _ & ->); [by eapply list_elem_of_lookup_2|].
  eapply step_connect_switched; try done.
  eapply removed_hop_known; [done|done|exact Hl| |done]. by eapply key_hops_at.
Qed.

Lemma removed_hops_take_candidate_witness :
  match dr_log demo !! 5%nat, target demo_plan demo_h with
  | Some e, Some t =>
      match rt_jumps t !! 0%nat with
      | Some j => removed (take 5 (dr_log demo)) demo_b /\
          exists c j', connection (fun s => s) demo e = Some c /\ mt_jumps c !! 0%nat = Some j' /\
            j_auth j' = candidate_auth demo_plan demo_keys /\ j_hop_ref j' = None
      | None => False
      end
  | _, _ => False
  end.
Proof.
  assert (Hid : xe_id <$> dr_log demo !! 5%nat = Some demo_h) by (vm_compute; reflexivity).
  assert (Hj : rt_jumps <$> target demo_plan demo_h = Some [mkJumpHost [] 0 [] (AAgent [] []) (Some (mkHopRef (chars "v") (chars "B")))])
    by (vm_compute; reflexivity).
  assert (Hp : rt_proxy <$> target demo_plan demo_h = Some None) by (vm_compute; reflexivity).
  assert (Hr : removed (take 5 (dr_log demo)) demo_b).
  { assert (H4 : (fun e => (xe_id e, xe_as e)) <$> dr_log demo !! 4%nat = Some (demo_b, Remove)) by (vm_compute; reflexivity).
    apply fmap_Some in H4 as (e & He & Heq). apply pair_equal_spec in Heq as [Hb Ha].
    exists e. split; [|exact (conj (eq_sym Hb) (eq_sym Ha))].
    apply (list_elem_of_lookup_2 _ 4). rewrite lookup_take_lt by lia. exact He. }
  destruct (dr_log demo !! 5%nat) as [e|] eqn:E; [|discriminate]. apply Some_inj in Hid.
  destruct (target demo_plan demo_h) as [t|] eqn:Et; [|discriminate]. apply Some_inj in Hj, Hp.
  rewrite Hj. cbn [lookup list_lookup]. split; [exact Hr|].
  eapply (removed_hops_take_candidate (fun s => s) demo_hosts (chars "v") (chars "k") {[chars "v"]} demo_keys false full_scope
           demo_events 5%nat e t 0%nat _ demo_b E).
  - rewrite Hid. exact Et.
  - rewrite Hj. reflexivity.
  - vm_compute; reflexivity.
  - rewrite Hj, Hp. vm_compute; reflexivity.
  - exact Hr.
Defined.

(** In a run that starts with the deploy or the verify, a target reported as switched has
    both taken the new key, offered alone, and refused the old key, offered alone. *)
Theorem switched_is_proven lower hosts v k same keys resumed scope evs id :
  let plan := plan_rotation_in lower hosts v k same in
  let d := run_driver (new_driver lower plan keys resumed scope) evs in
  step_ltb (sc_first scope) Remove = true -> run_state (dr_run d) id = Some Switched ->
  took_key lower d (dr_log d) id (candidate_auth plan keys) /\ refused_key lower d (dr_log d) id (old_auth plan).
Proof.
  intros plan d Hf Hs.
  assert (Hids : NoDup (rt_id <$> pl_targets plan)) by apply plan_ids_NoDup.
  assert (Hd : reached lower plan keys resumed scope d) by by exists evs.
  destruct (reached_inv _ _ _ _ _ Hids d Hd) as [Hi _]. split.
  - eapply proven_took; [done|done|done|]. apply (di_proven d Hi).
    by eapply (verified_reached _ _ _ _ _ Hids d Hd Hf _ _ Hs).
  - eapply refused_refused; [done|done|done|]. by apply (di_switched d Hi).
Qed.

Lemma switched_is_proven_witness :
  run_state (dr_run demo) demo_h = Some Switched /\
  took_key (fun s => s) demo (dr_log demo) demo_h (candidate_auth demo_plan demo_keys) /\
  refused_key (fun s => s) demo (dr_log demo) demo_h (old_auth demo_plan).
Proof.
  assert (Hs : run_state (dr_run demo) demo_h = Some Switched) by (vm_compute; reflexivity).
  split; [exact Hs|].
  apply (switched_is_proven (fun s => s) demo_hosts (chars "v") (chars "k") {[chars "v"]} demo_keys false full_scope
           demo_events demo_h eq_refl Hs).
Defined.

(** What the run says before the old key is dropped from the vault can be relied on: a target
    that is not listed as locked out has taken the new key in this run, and so has every machine it
    is reached through with that key. *)
Theorem not_locked_out lower hosts v k same keys resumed scope evs id h :
  let plan := plan_rotation_in lower hosts v k same in
  let d := run_driver (new_driver lower plan keys resumed scope) evs in
  id ∈ rt_id <$> pl_targets plan -> id ∉ locked_out (finish_outlook lower plan (dr_run d)) ->
  h = id \/ h ∈ key_hops lower plan id ->
  took_key lower d (dr_log d) h (candidate_auth plan keys).
Proof.
  intros plan d Hin Hout Hh.
  assert (Hids : NoDup (rt_id <$> pl_targets plan)) by apply plan_ids_NoDup.
  assert (Hd : reached lower plan keys resumed scope d) by by exists evs.
  destruct (reached_inv _ _ _ _ _ Hids d Hd) as [Hi _].
  eapply proven_took; [done|done|done|]. apply (di_proven d Hi).
  unfold locked_out, finish_outlook in Hout. cbn -[key_hops rn_verified] in Hout.
  rewrite elem_of_app, !list_elem_of_filter in Hout.
  destruct (decide (id ∈ rn_verified (dr_run d))) as [Hv|Hv];
    [|destruct Hout; left; split; [by apply bool_decide_eq_false_2|done]].
  destruct Hh as [->|Hh]; [done|].
  destruct (forallb (fun id => bool_decide (id ∈ rn_verified (dr_run d))) (key_hops lower plan id)) eqn:E.
  - rewrite forallb_forall in E. apply (bool_decide_eq_true_1 _ (E h (proj1 (list_elem_of_In _ _) Hh))).
  - destruct Hout. right. split; [|done]. apply andb_true_iff. split; [by apply bool_decide_eq_true_2|]. apply negb_true_iff. done.
Qed.

Lemma not_locked_out_witness :
  (demo_h ∉ locked_out (finish_outlook (fun s => s) demo_plan (dr_run demo))) /\
  took_key (fun s => s) demo (dr_log demo) demo_b (candidate_auth demo_plan demo_keys).
Proof.
  assert (Hin : demo_h ∈ rt_id <$> pl_targets demo_plan) by (apply (bool_decide_eq_true_1 _); vm_compute; reflexivity).
  assert (Hout : demo_h ∉ locked_out (finish_outlook (fun s => s) demo_plan (dr_run demo)))
    by (apply (bool_decide_eq_true_1 _); vm_compute; reflexivity).
  assert (Hh : demo_b ∈ key_hops (fun s => s) demo_plan demo_h) by (apply (bool_decide_eq_true_1 _); vm_compute; reflexivity).
  split; [exact Hout|].
  apply (not_locked_out (fun s => s) demo_hosts (chars "v") (chars "k") {[chars "v"]} demo_keys false full_scope
           demo_events demo_h demo_b Hin Hout (or_intror Hh)).
Defined.
