(* ===== verification/RotationLive.v ===== *)
(** * A key rotation covers every machine, does not get stuck and ends

    The plan of [Rotation.plan_rotation_in] names every machine the key logs in to; a
    target's id is longer than those of its hops, so hops cannot wait for each other in a
    circle; a settled run has nothing left that it could still do; the work of a run is
    bounded. *)

From Stdlib Require Import Strings.String Strings.Byte NArith ZArith Lia.
From stdpp Require Import base gmap sets list strings sorting countable.
From S2P Require Import Prelude Bytes Storage AutoOutput Rotation RotationThy.

Local Open Scope N_scope.

(** ** The targets of a plan *)

Lemma add_target_elem ts t x : x ∈ add_target ts t -> x ∈ ts \/ x = t.
Proof.
  unfold add_target. destruct (existsb _ _); [by left|].
  intros [?| ->%list_elem_of_singleton]%elem_of_app; auto.
Qed.

Lemma add_target_has ts t : rt_id t ∈ rt_id <$> add_target ts t.
Proof.
  unfold add_target. destruct (existsb _ _) eqn:E.
  - apply existsb_exists in E as (t' & Hin%list_elem_of_In & <-%text_eqb_true). by apply list_elem_of_fmap_2.
  - rewrite fmap_app. apply elem_of_app. right. by apply list_elem_of_singleton.
Qed.

Lemma add_target_keeps ts t x : x ∈ ts -> x ∈ add_target ts t.
Proof. unfold add_target. destruct (existsb _ _); [done|]. intros. apply elem_of_app. by left. Qed.

Lemma add_targets_elem l ts x : x ∈ foldl add_target ts l -> x ∈ ts \/ x ∈ l.
Proof.
  revert ts. induction l as [|t l IH]; intros ts; cbn; [by left|].
  intros [[?| ->]%add_target_elem|?]%IH; [by left| |]; right; apply elem_of_cons; auto.
Qed.

Lemma add_targets_keeps l ts x : x ∈ ts -> x ∈ foldl add_target ts l.
Proof. revert ts. induction l as [|t l IH]; intros ts H; cbn; [done|]. by apply IH, add_target_keeps. Qed.

Lemma add_targets_has l ts t : t ∈ l -> rt_id t ∈ rt_id <$> foldl add_target ts l.
Proof.
  revert ts. induction l as [|x l IH]; intros ts; cbn; [by intros ?%not_elem_of_nil|].
  intros [->|Hin]%elem_of_cons; [|by apply IH].
  destruct (proj1 (list_elem_of_fmap _ _ _) (add_target_has ts x)) as (y & Hy & Hin).
  rewrite Hy. by apply list_elem_of_fmap_2, add_targets_keeps.
Qed.

Section plan.
Context (lower : text -> text) (hosts : list ConnectionProfile) (v k : text) (same : gset text).
#[local] Abbreviation plan := (plan_rotation_in lower hosts v k same).
#[local] Abbreviation m := (new_routes hosts same k).

Lemma routes_of_plan : routes_of plan = m.
Proof. done. Qed.

Lemma fold_hosts_elem hs ts x :
  x ∈ foldl (fun ts h => foldl add_target ts (host_hops lower m h)) ts hs ->
  x ∈ ts \/ exists h, h ∈ hs /\ x ∈ host_hops lower m h.
Proof.
  revert ts. induction hs as [|h hs IH]; intros ts; cbn; [by left|].
  intros [[?|?]%add_targets_elem|(h' & ? & ?)]%IH; [by left| |]; right; eexists; (split; [apply elem_of_cons|]; eauto).
Qed.

Lemma fold_hosts_keeps hs ts x :
  x ∈ ts -> x ∈ foldl (fun ts h => foldl add_target ts (host_hops lower m h)) ts hs.
Proof. revert ts. induction hs as [|h hs IH]; intros ts H; cbn; [done|]. by apply IH, add_targets_keeps. Qed.

Lemma fold_hosts_has hs ts h t :
  h ∈ hs -> t ∈ host_hops lower m h ->
  rt_id t ∈ rt_id <$> foldl (fun ts h => foldl add_target ts (host_hops lower m h)) ts hs.
Proof.
  revert ts. induction hs as [|x hs IH]; intros ts; cbn; [by intros ?%not_elem_of_nil|].
  intros [->|Hin]%elem_of_cons Ht; [|by apply IH].
  destruct (proj1 (list_elem_of_fmap _ _ _) (add_targets_has _ ts t Ht)) as (y & Hy & Hin).
  rewrite Hy. by apply list_elem_of_fmap_2, fold_hosts_keeps.
Qed.

(** the targets are those of hosts that log in with the key, and of hops that do *)
Lemma plan_targets_elem t :
  t ∈ pl_targets plan ->
  exists h, h ∈ hosts /\ (uses_key m h = true /\ t = host_target lower m h \/ t ∈ host_hops lower m h).
Proof.
  cbn -[host_hops host_target]. intros [[?%not_elem_of_nil|Hin]%add_targets_elem|(h & ? & ?)]%fold_hosts_elem; [done| |eauto].
  apply list_elem_of_fmap in Hin as (h & -> & [? ?]%list_elem_of_filter). eauto.
Qed.

Lemma plan_has_host h :
  h ∈ hosts -> uses_key m h = true -> rt_id (host_target lower m h) ∈ rt_id <$> pl_targets plan.
Proof.
  intros Hin Hu. cbn -[host_hops host_target].
  assert (Ht : host_target lower m h ∈ host_target lower m <$> filter (fun h => uses_key m h = true) hosts)
    by by apply list_elem_of_fmap_2, list_elem_of_filter.
  destruct (proj1 (list_elem_of_fmap _ _ _) (add_targets_has _ [] _ Ht)) as (y & Hy & Hy').
  rewrite Hy. by apply list_elem_of_fmap_2, fold_hosts_keeps.
Qed.

Lemma plan_has_hop h t : h ∈ hosts -> t ∈ host_hops lower m h -> rt_id t ∈ rt_id <$> pl_targets plan.
Proof. intros Hin Ht. by eapply fold_hosts_has. Qed.

Lemma host_hops_elem h t :
  t ∈ host_hops lower m h <->
  exists i j, cp_jumps h !! i = Some j /\ hop_uses_key m j = true /\ hop_target lower m h i j = Some t.
Proof.
  unfold host_hops. rewrite list_elem_of_omap. split.
  - intros ([i j] & Hin & Ht). cbn -[hop_target] in Ht. destruct (hop_uses_key m j) eqn:E; [|done].
    apply list_elem_of_lookup in Hin as (n & Hn). rewrite list_lookup_imap in Hn.
    apply fmap_Some in Hn as (j' & Hj & [= -> ->]). eauto.
  - intros (i & j & Hj & Hu & Ht). exists (i, j). cbn -[hop_target]. rewrite Hu. split; [|done].
    apply list_elem_of_lookup. exists i. rewrite list_lookup_imap, Hj. done.
Qed.

Lemma hop_target_at h i j :
  cp_jumps h !! i = Some j ->
  exists t, hop_target lower m h i j = Some t /\ rt_profile t = None /\
    hop_target_id lower m (cp_jumps h) (first_dial_proxy m (cp_jumps h) (cp_proxy h)) i = Some (rt_id t) /\
    rt_id t = target_id lower m (hop_endpoint lower m j) (rt_jumps t) (rt_proxy t).
Proof.
  intros Hj. unfold hop_target, hop_target_id. rewrite Hj. cbn -[target_id hop_endpoint].
  by destruct (match ref_profile m j with Some _ => _ | None => _ end) as [[host port] user]; eexists.
Qed.

(** an id is made of an endpoint and the target's own route *)
Lemma target_id_shape t :
  t ∈ pl_targets plan -> exists ep, rt_id t = target_id lower m ep (rt_jumps t) (rt_proxy t).
Proof.
  intros (h & _ & [[_ ->]|Ht])%plan_targets_elem; [by eexists|].
  apply host_hops_elem in Ht as (i & j & Hj & _ & Ht). destruct (hop_target_at h i j Hj) as (t' & Ht' & _ & _ & Hid).
  rewrite Ht in Ht'. injection Ht' as <-. eauto.
Qed.
End plan.

(** ** Hops have shorter ids *)

Lemma join_length sep l1 x l2 :
  (length (join sep l1) + length x + match l1 with [] => 0 | _ => length sep end <= length (join sep (l1 ++ x :: l2)))%nat.
Proof.
  induction l1 as [|y l1 IH].
  - cbn [app]. destruct l2; cbn [join]; rewrite ?length_app; cbn; lia.
  - destruct l1 as [|z l1]; cbn [app join] in *.
    + destruct l2 as [|w l2]; cbn [join] in *; rewrite !length_app; lia.
    + rewrite !length_app. cbn in IH |- *. lia.
Qed.

Lemma hop_id_shorter lower m ep jumps proxy i h :
  hop_target_id lower m jumps proxy i = Some h -> (length h < length (target_id lower m ep jumps proxy))%nat.
Proof.
  unfold hop_target_id. intros (j & Hj & [= <-])%bind_Some. unfold target_id.
  rewrite !length_app. set (px := match proxy with Some _ => _ | None => _ end).
  assert (Hne : jumps <> []) by by intros ->.
  assert (Hsplit : hop_endpoint lower m <$> jumps =
    (hop_endpoint lower m <$> take i jumps) ++ hop_endpoint lower m j :: (hop_endpoint lower m <$> drop (S i) jumps)).
  { rewrite <- (take_drop_middle _ _ _ Hj) at 1. by rewrite fmap_app. }
  assert (Hlen : (length (join (chars " > ") (hop_endpoint lower m <$> take i jumps)) + length (hop_endpoint lower m j) +
    match hop_endpoint lower m <$> take i jumps with [] => 0 | _ => 3 end <=
    length (join (chars " > ") (hop_endpoint lower m <$> jumps)))%nat) by (rewrite Hsplit; apply join_length).
  clear Hsplit. destruct jumps as [|j0 jumps]; [done|]. rewrite !length_app.
  replace (length (chars " via ")) with 5%nat by done.
  destruct (take i (j0 :: jumps)) as [|y ys] eqn:Et; [cbn in Hlen |- *; lia|].
  rewrite !length_app. replace (length (chars " via ")) with 5%nat by done.
  cbn [fmap list_fmap] in Hlen |- *. lia.
Qed.

Lemma key_hops_shorter lower hosts v k same id h :
  h ∈ key_hops lower (plan_rotation_in lower hosts v k same) id -> (length h < length id)%nat.
Proof.
  unfold key_hops. destruct (target _ id) as [t|] eqn:Ht; [|by intros ?%not_elem_of_nil].
  intros [_ Hin]%list_elem_of_filter. apply list_elem_of_omap in Hin as ([i j] & _ & Hh). cbn -[hop_target_id] in Hh.
  destruct (hop_uses_key _ j); [|done]. apply target_elem in Ht as [Hin <-].
  apply target_id_shape in Hin as [ep ->]. by eapply hop_id_shorter.
Qed.

(** ** A settled run *)

(** stopped states are those of stopped runs; the scope only grows *)
Definition scope_inv (scope : RunScope) (d : RotationDriver) : Prop :=
  (rn_cancelled (dr_run d) = false -> forall id s, run_state (dr_run d) id = Some s ->
     match s with KeptOld _ | Unconfirmed => False | _ => True end) /\
  step_ltb (rn_last (dr_run d)) (sc_last scope) = false.

Lemma step_max_le a b c : step_ltb a c = false -> step_ltb (step_max a b) c = false.
Proof. destruct a, b, c; done. Qed.

Lemma scope_step scope d ev : driver_inv d -> scope_inv scope d -> scope_inv scope (driver_step d ev).
Proof.
  intros Hinv [Hs Hl]. destruct ev as [id|id a|id|id| |last]; cbn -[run_state record_step begin_step step_ltb].
  - destruct (begin_step (dr_run d) id) as [[step r']|] eqn:Hb; [|done].
    apply begin_step_spec in Hb as (_ & Hst & _ & ->); [|apply Hinv]. split; [|done]. cbn -[run_state set_state].
    intros Hc k s. rewrite run_state_set, Hst. case_bool_decide; [by intros [= <-]|by apply Hs].
  - by destruct (dr_flight d !! id) as [[step v [o|s' cmd k']]|] eqn:Hf.
  - destruct (dr_flight d !! id) as [[step v [o|s' cmd k']]|] eqn:Hf; [|done|done].
    pose proof (di_flight d Hinv _ _ Hf) as Hst. cbn -[run_state] in Hst. unfold scope_inv. cbn -[run_state record_step step_ltb].
    rewrite (record_step_running _ _ _ _ Hst).
    set (r' := if is_ok o && _ then _ else _).
    assert (Hr : run_state r' = run_state (dr_run d)) by (subst r'; by destruct (_ && _)).
    assert (Hc : rn_cancelled r' = rn_cancelled (dr_run d)) by (subst r'; by destruct (_ && _)).
    assert (Hlast : rn_last r' = rn_last (dr_run d)) by (subst r'; by destruct (_ && _)).
    cbn -[run_state step_ltb set_state next_state]. change (rn_cancelled (set_state id _ r')) with (rn_cancelled r').
    change (rn_last (set_state id _ r')) with (rn_last r'). rewrite Hc, Hlast. split; [|done].
    intros Hcf k s. rewrite run_state_set, Hr, Hst. rewrite Hcf.
    destruct (bool_decide_reflect (k = id)) as [->|]; [|by apply Hs].
    intros [= <-]. destruct o, step; done.
  - unfold scope_inv, retry. cbn -[run_state step_ltb]. destruct (rn_cancelled (dr_run d)) eqn:Hc; [by rewrite Hc|].
    destruct (run_state (dr_run d) id) as [[| |step f| | |]|] eqn:Hst; rewrite ?Hc; try (split; [by apply Hs|done]).
    split; [|done]. intros _ k s. rewrite run_state_set, Hst. case_bool_decide; [by intros [= <-]|by apply Hs].
  - by split.
  - split; [done|]. by apply step_max_le.
Qed.

Lemma scope_reached lower plan keys resumed scope d :
  NoDup (rt_id <$> pl_targets plan) -> reached lower plan keys resumed scope d -> scope_inv scope d.
Proof.
  intros Hids [evs ->]. assert (H0 : scope_inv scope (new_driver lower plan keys resumed scope)).
  { split; [by intros _ id s ->%start_state|]. cbn. by destruct (sc_last scope). }
  pose proof (driver_inv_start lower plan keys resumed scope Hids) as Hi.
  revert H0 Hi. generalize (new_driver lower plan keys resumed scope) as d0.
  clear. induction evs as [|ev evs IH]; intros d0 H0 Hi; cbn; [done|].
  apply IH; [by apply scope_step|by apply driver_inv_step].
Qed.

Lemma settled_idle r :
  states_ok r -> settled r = true ->
  (forall id s, run_state r id <> Some (TRunning s)) /\
  (rn_cancelled r = false -> forall id s, run_state r id = Some (Pending s) -> may_start r id s = false).
Proof.
  unfold settled. intros Hok [Hr%negb_true_iff Hst%bool_decide_eq_true]%andb_true_iff. split.
  - intros id s Hs. by apply (existsb_states_false r _ Hok Hr) in Hs.
  - intros Hc id s Hs. destruct (may_start r id s) eqn:E; [|done].
    assert (Hin : (id, s) ∈ startable r) by (apply startable_spec; split_and!; [done|by apply run_state_elem|done]).
    rewrite Hst in Hin. by apply not_elem_of_nil in Hin.
Qed.

Lemma existsb_all_false {A} (p : A -> bool) l : (forall x, x ∈ l -> p x = false) -> existsb p l = false.
Proof.
  intros H. destruct (existsb p l) eqn:E; [|done]. apply existsb_exists in E as (x & Hin%list_elem_of_In & Hp).
  by rewrite H in Hp.
Qed.

Lemma idle_scan r (p : text * TargetState -> bool) :
  states_ok r -> (forall id s, run_state r id = Some s -> p (id, s) = false) -> existsb p (rn_states r) = false.
Proof. intros Hok H. apply existsb_all_false. intros [id s] Hin. apply H. by apply elem_run_state. Qed.

Section settled.
Context (lower : text -> text) (hosts : list ConnectionProfile) (v k : text) (same : gset text).
Context (keys : RotationKeys) (resumed : bool) (scope : RunScope) (d : RotationDriver).
#[local] Abbreviation plan := (plan_rotation_in lower hosts v k same).
Hypothesis Hd : reached lower plan keys resumed scope d.
Hypothesis Hset : settled (dr_run d) = true.
Hypothesis Hc : rn_cancelled (dr_run d) = false.

Lemma settled_inv : driver_inv d /\ frame lower plan keys scope d /\ scope_inv scope d.
Proof.
  assert (Hids : NoDup (rt_id <$> pl_targets plan)) by apply plan_ids_NoDup.
  destruct (reached_inv _ _ _ _ _ Hids d Hd) as [Hi Hf]. split; [done|]. split; [done|]. by eapply scope_reached.
Qed.

Lemma nothing_running id s : run_state (dr_run d) id <> Some (TRunning s).
Proof. destruct settled_inv as [Hi _]. by apply settled_idle; [apply Hi|]. Qed.

Lemma pending_may_not id s : run_state (dr_run d) id = Some (Pending s) -> may_start (dr_run d) id s = false.
Proof. destruct settled_inv as [Hi _]. by apply (proj2 (settled_idle _ (di_ids d Hi) Hset)). Qed.

(** the target with the shortest id of those that still deploy or verify could start *)
Lemma not_early_when_settled :
  sc_last scope <> Deploy -> forall id s, run_state (dr_run d) id = Some s -> at_deploy_or_verify s = false.
Proof.
  intros Hlast. destruct settled_inv as (Hi & Hf & _ & Hl).
  assert (H : forall n id s, (length id < n)%nat -> run_state (dr_run d) id = Some s -> at_deploy_or_verify s = false).
  2: { intros id s. apply (H (S (length id))). lia. }
  induction n as [|n IH]; intros id s Hn Hs; [lia|].
  destruct (at_deploy_or_verify s) eqn:E; [|done]. exfalso.
  assert (Hp : exists st, s = Pending st /\ (st = Deploy \/ st = Verify)).
  { destruct s as [[]|[]| | | |]; try done; try (by destruct (nothing_running _ _ Hs)); eauto. }
  destruct Hp as (st & -> & Hst). apply pending_may_not in Hs.
  assert (Hrem : removing (dr_run d) = false).
  { apply idle_scan; [apply Hi|]. intros i s Hs'. apply bool_decide_eq_false_2. cbn. intros ->. by destruct (nothing_running _ _ Hs'). }
  assert (Hhop : hop_early (dr_run d) id = false).
  { apply existsb_all_false. intros h Hh. destruct (run_state (dr_run d) h) as [s|] eqn:Hs'; [|done].
    apply (IH h); [|done]. unfold hops_of in Hh. rewrite (fr_hops _ _ _ _ _ Hf) in Hh.
    apply start_hops in Hh as (_ & _ & Hh%key_hops_shorter). lia. }
  unfold may_start in Hs. rewrite Hrem, Hhop in Hs.
  destruct Hst as [-> | ->], (sc_last scope), (rn_last (dr_run d)); done.
Qed.

Lemma settled_state id s :
  sc_last scope <> Deploy -> step_ltb (sc_first scope) Remove = true -> run_state (dr_run d) id = Some s ->
  match s with
  | Switched | TFailed _ _ => True
  | Pending step => step_ltb (rn_last (dr_run d)) step = true
  | _ => False
  end.
Proof.
  intros Hlast Hfirst Hs. destruct settled_inv as (Hi & Hf & Hsc & Hl).
  pose proof (not_early_when_settled Hlast) as Hearly. pose proof (Hsc Hc id s Hs) as Hno.
  destruct s as [st|st| | | |]; try done; [|by destruct (nothing_running _ _ Hs)].
  pose proof (Hearly _ _ Hs) as He. pose proof (pending_may_not _ _ Hs) as Hm. unfold may_start in Hm.
  destruct (step_ltb (rn_last (dr_run d)) st) eqn:El; [done|]. cbn -[early routed_through] in Hm.
  destruct st; try done. rewrite !andb_false_iff, !negb_false_iff in Hm. exfalso.
  assert (Hv : id ∈ rn_verified (dr_run d)).
  { by eapply (verified_reached _ _ _ _ _ (plan_ids_NoDup lower hosts v k same) d Hd Hfirst _ _ Hs). }
  destruct Hm as [[Hm|Hm%bool_decide_eq_false]|Hm]; [|done|].
  - unfold early in Hm. rewrite (idle_scan _ _ (di_ids d Hi)) in Hm; [done|]. exact Hearly.
  - unfold routed_through in Hm. rewrite (idle_scan _ _ (di_ids d Hi)) in Hm; [done|].
    intros i s Hs'. destruct s; try done. by destruct (nothing_running _ _ Hs').
Qed.
End settled.

(** ** The work of a run *)

Definition needs_more : Answer :=
  Ok (Some (mkMultiExecResult [] [] [] 0 (Some []) 0 false (Some KAcceptedNeedsMore))).

(** the executions a program still has at most: no answer leads to more of them than no
    result or a missing second factor *)
Fixpoint depth (p : StepProg) : nat :=
  match p with
  | PDone _ => 0
  | PExec _ _ k => S (Nat.max (depth (k (Ok None))) (depth (k needs_more)))
  end.

Fixpoint bounded (p : StepProg) : Prop :=
  match p with
  | PDone _ => True
  | PExec s cmd k => forall a, bounded (k a) /\ (depth (k a) < depth (PExec s cmd k))%nat
  end.

Ltac answers :=
  cbn; rewrite ?(bool_decide_eq_false_2 (LUnknown = LAcceptedNeedsMore)), ?(bool_decide_eq_true_2 (LAcceptedNeedsMore = LAcceptedNeedsMore)) by done;
  cbn.

Lemma run_step_bounded step keys resumed :
  bounded (run_step step keys resumed) /\ (depth (run_step step keys resumed) <= 2)%nat.
Proof.
  unfold run_step. generalize (authorized_keys_append_command (ky_candidate keys)) as append. intros append.
  destruct step.
  - destruct resumed; answers; (split; [|lia]); intros [r|f]; cbn; try (split; [done|lia]).
    destruct (_ || _); cbn; (split; [|lia]); [done|]. intros [r'|f']; cbn; split; done || lia.
  - answers. split; [|lia]. intros [r|f]; cbn; [|split; [done|lia]]. destruct (bool_decide _); cbn; split; done || lia.
  - destruct (authorized_keys_remove_command _ _); [|cbn; split; [done|lia]]. answers. split; [|lia].
    intros [r|f]; cbn; [|split; [done|lia]]. destruct (negb _); cbn; (split; [|lia]); [done|].
    intros [r'|f']; cbn; [|split; [done|lia]]. destruct (key_login r'); cbn; split; done || lia.
  - answers. split; [|lia]. intros [r|f]; cbn; [|split; [done|lia]]. destruct (key_login r); cbn; split; done || lia.
Qed.

(** what a target may still take *)
Definition rest (d : RotationDriver) (x : text * TargetState) : nat :=
  match x.2 with
  | Pending s => 4 * (4 - step_index s)
  | TRunning s => 4 * (3 - step_index s) + 1 + match dr_flight d !! x.1 with Some f => depth (fl_prog f) | None => 0 end
  | _ => 0
  end.
Definition budget (d : RotationDriver) : nat := sum_list_with (rest d) (rn_states (dr_run d)).

(** an event by which the work goes on *)
Definition works (d : RotationDriver) (ev : DriverEvent) : bool :=
  match ev with
  | DBegin id => bool_decide (begin_step (dr_run d) id <> None)
  | DAnswer id _ => match dr_flight d !! id with Some (mkFlight _ _ (PExec _ _ _)) => true | _ => false end
  | DRecord id => match dr_flight d !! id with Some (mkFlight _ _ (PDone _)) => true | _ => false end
  | DRetry _ | DStop | DExtend _ => false
  end.
Definition is_retry (ev : DriverEvent) : bool := match ev with DRetry _ => true | _ => false end.

Fixpoint work (d : RotationDriver) (evs : list DriverEvent) : nat :=
  match evs with
  | [] => 0
  | ev :: evs => (if works d ev then 1 else 0) + work (driver_step d ev) evs
  end.
Fixpoint retries (evs : list DriverEvent) : nat :=
  match evs with [] => 0 | ev :: evs => (if is_retry ev then 1 else 0) + retries evs end.

(** a change at one target *)
Lemma sum_change (f g : text * TargetState -> nat) (l : list (text * TargetState)) id s0 s :
  NoDup l.*1 -> (id, s0) ∈ l -> (forall x, x.1 <> id -> f x = g x) ->
  (sum_list_with g (set_first id s l) + f (id, s0) = sum_list_with f l + g (id, s))%nat.
Proof.
  induction l as [|[i s'] l IH]; cbn [fmap list_fmap]; [by intros _ ?%not_elem_of_nil|].
  intros [Hni Hnd]%list.NoDup_cons Hin Hfg. cbn [set_first fst].
  assert (Hrest : forall l', id ∉ l'.*1 -> sum_list_with g l' = sum_list_with f l').
  { intros l'. induction l' as [|[j sj] l' IH']; cbn; [done|]. intros [Hj Hl]%not_elem_of_cons.
    rewrite IH', Hfg by done. done. }
  apply elem_of_cons in Hin as [[= <- <-]|Hin].
  - rewrite text_eqb_refl. cbn [sum_list_with fst] in *. rewrite Hrest by done. lia.
  - assert (i <> id). { intros ->. destruct Hni. apply list_elem_of_fmap. by exists (id, s0). }
    destruct (text_eqb i id) eqn:E; [by apply text_eqb_true in E|]. cbn [sum_list_with].
    rewrite <- (Hfg (i, s')) by done. specialize (IH Hnd Hin Hfg). lia.
Qed.

Lemma set_first_same id s l : NoDup l.*1 -> (id, s) ∈ l -> set_first id s l = l.
Proof.
  induction l as [|[i s'] l IH]; cbn; [done|]. intros [Hni Hnd]%list.NoDup_cons [[= <- <-]|Hin]%elem_of_cons.
  - by rewrite text_eqb_refl.
  - destruct (text_eqb i id) eqn:E; [|by rewrite IH]. apply text_eqb_true in E as ->.
    destruct Hni. apply list_elem_of_fmap. by exists (id, s).
Qed.

Definition flights_bounded (d : RotationDriver) : Prop :=
  forall id f, dr_flight d !! id = Some f -> bounded (fl_prog f).

(** the budget of a driver that differs at one target *)
Lemma budget_change d d' id s0 s :
  driver_inv d -> run_state (dr_run d) id = Some s0 ->
  rn_states (dr_run d') = set_first id s (rn_states (dr_run d)) ->
  (forall k, k <> id -> dr_flight d' !! k = dr_flight d !! k) ->
  (budget d' + rest d (id, s0) = budget d + rest d' (id, s))%nat.
Proof.
  intros Hi Hs Hst Hfl. unfold budget. rewrite Hst. apply sum_change; [apply Hi|by apply run_state_elem|].
  intros [k s'] Hne. unfold rest. cbn in *. by rewrite Hfl.
Qed.

Lemma budget_begin d id : driver_inv d -> flights_bounded d ->
  flights_bounded (driver_step d (DBegin id)) /\
  (budget (driver_step d (DBegin id)) + (if works d (DBegin id) then 1 else 0) <= budget d)%nat.
Proof.
  intros Hi Hb. cbn -[begin_step]. destruct (begin_step (dr_run d) id) as [[step r']|] eqn:Hbs.
  2: { rewrite bool_decide_eq_false_2 by naive_solver. split; [done|lia]. }
  apply begin_step_spec in Hbs as (_ & Hs & _ & ->); [|apply Hi]. rewrite bool_decide_eq_true_2 by done.
  destruct (run_step_bounded step (dr_keys d) (dr_resumed d)) as [Hrb Hrd]. split.
  - intros k f. cbn. same_target k id; [by intros [= <-]|apply Hb].
  - set (d' := mkRotationDriver _ _ _ _ _ _).
    pose proof (budget_change d d' id _ (TRunning step) Hi Hs eq_refl) as H.
    assert (Hr : (rest d' (id, TRunning step) <= 4 * (3 - step_index step) + 3)%nat).
    { unfold rest. cbn -[run_step Nat.mul Nat.sub]. rewrite lookup_insert_eq. cbn -[run_step Nat.mul Nat.sub]. lia. }
    specialize (H (fun k Hk => lookup_insert_ne _ _ _ _ (not_eq_sym Hk))). unfold rest at 1 in H. cbn [snd] in H.
    destruct step; cbn [step_index] in *; lia.
Qed.

Lemma budget_answer d id a : driver_inv d -> flights_bounded d ->
  flights_bounded (driver_step d (DAnswer id a)) /\
  (budget (driver_step d (DAnswer id a)) + (if works d (DAnswer id a) then 1 else 0) <= budget d)%nat.
Proof.
  intros Hi Hb. cbn. destruct (dr_flight d !! id) as [[step v [o|s cmd k]]|] eqn:Hf; [split; [done|lia]| |split; [done|lia]].
  pose proof (di_flight d Hi _ _ Hf) as Hs. cbn -[run_state] in Hs.
  destruct (Hb _ _ Hf a) as [Hba Hd]. split.
  - intros k' f. cbn. same_target k' id; [by intros [= <-]|apply Hb].
  - set (d' := mkRotationDriver _ _ _ _ _ _).
    assert (Hst : rn_states (dr_run d') = set_first id (TRunning step) (rn_states (dr_run d)))
      by (symmetry; apply set_first_same; [apply Hi|by apply run_state_elem]).
    pose proof (budget_change d d' id _ _ Hi Hs Hst (fun k Hk => lookup_insert_ne _ _ _ _ (not_eq_sym Hk))) as H.
    unfold rest in H. cbn [fst snd dr_flight] in H. rewrite Hf in H. subst d'. cbn [dr_flight] in H.
    rewrite lookup_insert_eq in H. cbn [fl_prog] in H, Hd. lia.
Qed.

Lemma budget_record d id : driver_inv d -> flights_bounded d ->
  flights_bounded (driver_step d (DRecord id)) /\
  (budget (driver_step d (DRecord id)) + (if works d (DRecord id) then 1 else 0) <= budget d)%nat.
Proof.
  intros Hi Hb. cbn -[record_step]. destruct (dr_flight d !! id) as [[step v [o|s cmd k]]|] eqn:Hf;
    [|split; [done|lia]|split; [done|lia]].
  pose proof (di_flight d Hi _ _ Hf) as Hs. cbn -[run_state] in Hs.
  rewrite (record_step_running _ _ _ _ Hs). set (s' := next_state _ _ _). split.
  - intros k' f. cbn. same_target k' id; [done|apply Hb].
  - set (d' := mkRotationDriver _ _ _ _ _ _).
    assert (Hst : rn_states (dr_run d') = set_first id s' (rn_states (dr_run d))) by (subst d'; cbn; by destruct (_ && _)).
    pose proof (budget_change d d' id _ _ Hi Hs Hst (fun k Hk => lookup_delete_ne _ _ _ (not_eq_sym Hk))) as H.
    assert (Hr : (rest d' (id, s') <= 4 * (3 - step_index step))%nat).
    { unfold rest. cbn [fst snd]. subst s'. destruct o, step, (rn_cancelled (dr_run d)); unfold next_state; repeat case_bool_decide; try done; cbn; lia. }
    unfold rest at 1 in H. cbn [fst snd] in H. rewrite Hf in H. cbn [fl_prog depth] in H. lia.
Qed.

Lemma rest_max d x : is_running x.2 = false -> (rest d x <= 16)%nat.
Proof. unfold rest. destruct x as [id [[]|s| | | |]]; cbn; done || lia. Qed.

Lemma budget_on_run f d : rn_states (f (dr_run d)) = rn_states (dr_run d) -> budget (on_run f d) = budget d.
Proof. intros H. unfold budget. cbn. by rewrite H. Qed.

Lemma budget_retry d id : driver_inv d -> (budget (on_run (retry id) d) <= budget d + 16)%nat.
Proof.
  intros Hi. destruct (rn_cancelled (dr_run d)) eqn:Hc.
  { rewrite budget_on_run; [lia|]. unfold retry. by rewrite Hc. }
  destruct (run_state (dr_run d) id) as [[| |step f| | |]|] eqn:Hs;
    try (rewrite budget_on_run; [lia|]; unfold retry; by rewrite Hc, Hs).
  assert (Hst : rn_states (dr_run (on_run (retry id) d)) = set_first id (Pending step) (rn_states (dr_run d))).
  { cbn -[run_state]. unfold retry. by rewrite Hc, Hs. }
  pose proof (budget_change d _ id _ _ Hi Hs Hst (fun k Hk => eq_refl)) as H.
  pose proof (rest_max (on_run (retry id) d) (id, Pending step) eq_refl). lia.
Qed.

Lemma budget_cancel d : (budget (on_run cancel_run d) <= budget d)%nat.
Proof.
  unfold budget. cbn. induction (rn_states (dr_run d)) as [|[id s] l IH]; cbn; [lia|].
  assert (rest (on_run cancel_run d) (id, stop_target s) <= rest d (id, s))%nat; [|lia].
  unfold rest. cbn. destruct s as [[]| | | | |]; cbn; lia.
Qed.

Lemma budget_step d ev : driver_inv d -> flights_bounded d ->
  flights_bounded (driver_step d ev) /\
  (budget (driver_step d ev) + (if works d ev then 1 else 0) <= budget d + (if is_retry ev then 16 else 0))%nat.
Proof.
  intros Hi Hb. destruct ev as [id|id a|id|id| |last]; cbn [is_retry]; rewrite ?Nat.add_0_r.
  - by apply budget_begin.
  - by apply budget_answer.
  - by apply budget_record.
  - split; [done|]. cbn [works driver_step]. pose proof (budget_retry d id Hi). lia.
  - split; [done|]. cbn [works driver_step]. pose proof (budget_cancel d). lia.
  - split; [done|]. cbn [works driver_step]. rewrite budget_on_run by done. lia.
Qed.

Lemma work_bounded d evs : driver_inv d -> flights_bounded d -> (work d evs <= budget d + 16 * retries evs)%nat.
Proof.
  revert d. induction evs as [|ev evs IH]; intros d Hi Hb; cbn [work retries]; [lia|].
  destruct (budget_step d ev Hi Hb) as [Hb' Hle]. specialize (IH _ (driver_inv_step d ev Hi) Hb').
  destruct (works d ev), (is_retry ev); lia.
Qed.

Lemma start_budget lower plan keys resumed scope :
  (budget (new_driver lower plan keys resumed scope) <= 16 * length (pl_targets plan))%nat.
Proof.
  unfold budget. cbn -[Nat.mul].
  induction (pl_targets plan) as [|t ts IH]; [cbn; lia|]. rewrite filter_cons. cbn [length].
  destruct (decide (in_scope scope t = true)); cbn -[rest Nat.mul] in *; [|lia].
  pose proof (rest_max (new_driver lower plan keys resumed scope) (rt_id t, Pending (sc_first scope)) eq_refl). lia.
Qed.

(** a run that is not settled has something to do *)
Lemma unsettled_works d : driver_inv d -> settled (dr_run d) = false -> exists ev, works d ev = true.
Proof.
  intros Hi. unfold settled. intros [H%negb_false_iff|H%bool_decide_eq_false]%andb_false_iff.
  - apply existsb_states in H as (id & s & Hs & Hr); [|apply Hi]. destruct s as [|s| | | |]; try done.
    destruct (di_running d Hi _ _ Hs) as [[step v [o|s' cmd k]] Hf];
      [exists (DRecord id)|exists (DAnswer id (Ok None))]; cbn; by rewrite Hf.
  - destruct (startable (dr_run d)) as [|[id s] l] eqn:E; [done|]. exists (DBegin id). cbn -[begin_step].
    assert (Hin : (id, s) ∈ startable (dr_run d)) by (rewrite E; apply elem_of_cons; by left).
    apply startable_spec in Hin as (Hc & Hin & Hm). apply elem_run_state in Hin; [|apply Hi].
    rewrite (begin_step_startable _ _ _ (di_ids d Hi) Hin Hc Hm). by apply bool_decide_eq_true_2.
Qed.

(** ** Who is in the plan *)

Lemma add_ids_elem l ids x : x ∈ foldl add_id ids l <-> x ∈ ids \/ x ∈ l.
Proof.
  revert ids. induction l as [|y l IH]; intros ids; cbn; [by rewrite elem_of_nil; naive_solver|].
  rewrite IH, elem_of_cons. unfold add_id. destruct (existsb (text_eqb y) ids) eqn:E.
  - apply existsb_exists in E as (z & Hz%list_elem_of_In & <-%text_eqb_true). naive_solver.
  - rewrite elem_of_app, list_elem_of_singleton. naive_solver.
Qed.

(** hop [i] of host [h] logs in with the key, and its target is [id] *)
Definition key_hop_at (lower : text -> text) (m : Routes) (h : ConnectionProfile) (i : nat) (id : text) : Prop :=
  exists j, cp_jumps h !! i = Some j /\ hop_uses_key m j = true /\
    hop_target_id lower m (cp_jumps h) (first_dial_proxy m (cp_jumps h) (cp_proxy h)) i = Some id.

Lemma host_hops_ids lower hosts same k h id :
  id ∈ rt_id <$> host_hops lower (new_routes hosts same k) h <-> exists i, key_hop_at lower (new_routes hosts same k) h i id.
Proof.
  rewrite list_elem_of_fmap. split.
  - intros (t & -> & (i & j & Hj & Hu & Ht)%host_hops_elem). exists i, j. split_and!; try done.
    destruct (hop_target_at lower hosts k same h i j Hj) as (t' & Ht' & _ & Hid & _). by rewrite Ht in Ht'; injection Ht' as <-.
  - intros (i & j & Hj & Hu & Hid). destruct (hop_target_at lower hosts k same h i j Hj) as (t & Ht & _ & Hid' & _).
    rewrite Hid in Hid'. injection Hid' as ->. exists t. split; [done|]. apply host_hops_elem. eauto.
Qed.

Lemma follower_listed lower hosts v k same h :
  let plan := plan_rotation_in lower hosts v k same in
  let m := new_routes hosts same k in
  h ∈ hosts -> uses_key m h = false ->
  (exists dep, dep ∈ pl_dependents plan /\ rd_host dep = h /\
     forall id, id ∈ rd_target_ids dep <-> exists i, key_hop_at lower m h i id) \/
  ((forall i id, ~ key_hop_at lower m h i id) /\
   (skip_reason (cp_auth h) = None \/
    exists sk, sk ∈ pl_skipped plan /\ rk_host sk = h /\ skip_reason (cp_auth h) = Some (rk_reason sk))).
Proof.
  intros plan m Hin Hu.
  assert (Hf : h ∈ filter (fun h => uses_key m h = false) hosts) by by apply list_elem_of_filter.
  set (ids := foldl add_id [] (rt_id <$> host_hops lower m h)).
  assert (Hids : forall id, id ∈ ids <-> exists i, key_hop_at lower m h i id).
  { intros id. pose proof (host_hops_ids lower hosts same k h id). unfold ids. rewrite add_ids_elem, elem_of_nil. naive_solver. }
  destruct ids as [|i0 il] eqn:E; [right|left].
  - split; [intros i id Hk; apply (not_elem_of_nil id), Hids; eauto|].
    destruct (skip_reason (cp_auth h)) as [r|] eqn:Hr; [right|by left]. exists (mkRotationSkip h r). split; [|done].
    apply list_elem_of_omap. exists h. split; [done|]. fold m. unfold ids in E. rewrite E, Hr. done.
  - exists (mkRotationDependent h (i0 :: il)). split; [|done].
    apply list_elem_of_omap. exists h. split; [done|]. fold m. unfold ids in E. by rewrite E.
Qed.

(** ** Theorems *)

(** The plan of a rotation leaves no machine out: its targets, each listed once, are exactly the
    hosts that log in with the key and the jump hosts, of any host, that do; a host that only passes
    such jump hosts is listed as depending on exactly those targets; and a host that neither logs in
    nor hops with the key is listed as skipped, with the reason, unless it has a key of its own. *)
Theorem plan_names_every_machine lower hosts v k same :
  let plan := plan_rotation_in lower hosts v k same in
  let m := new_routes hosts same k in
  NoDup (rt_id <$> pl_targets plan) /\
  (forall id, id ∈ rt_id <$> pl_targets plan <->
     exists h, h ∈ hosts /\
       (uses_key m h = true /\ id = rt_id (host_target lower m h) \/ exists i, key_hop_at lower m h i id)) /\
  Forall (fun h => uses_key m h = true \/
    (exists dep, dep ∈ pl_dependents plan /\ rd_host dep = h /\
       forall id, id ∈ rd_target_ids dep <-> exists i, key_hop_at lower m h i id) \/
    ((forall i id, ~ key_hop_at lower m h i id) /\
     (skip_reason (cp_auth h) = None \/
      exists sk, sk ∈ pl_skipped plan /\ rk_host sk = h /\ skip_reason (cp_auth h) = Some (rk_reason sk)))) hosts.
Proof.
  intros plan m. split; [apply plan_ids_NoDup|]. split.
  - intros id. split.
    + intros (t & -> & (h & Hh & Ht)%plan_targets_elem)%list_elem_of_fmap. exists h. split; [done|].
      destruct Ht as [[Hu ->]|Ht]; [by left|right]. by apply host_hops_ids, list_elem_of_fmap_2.
    + intros (h & Hh & [[Hu ->]|Hk]); [by apply plan_has_host|].
      apply host_hops_ids, list_elem_of_fmap in Hk as (t & -> & Ht). by eapply plan_has_hop.
  - apply list.Forall_forall. intros h Hh. destruct (uses_key m h) eqn:Hu; [by left|right]. by apply follower_listed.
Qed.

(** C31. A run does not get stuck: when a run that starts with the deploy or the verify and goes
    beyond the deploy has settled without being stopped, every target has switched, has failed at a
    step that can be retried, or waits at a step after the last one the run may take. Targets never
    wait for each other in a circle. *)
Theorem settled_run_is_done lower hosts v k same keys resumed scope evs id s :
  let plan := plan_rotation_in lower hosts v k same in
  let r := dr_run (run_driver (new_driver lower plan keys resumed scope) evs) in
  sc_last scope <> Deploy -> step_ltb (sc_first scope) Remove = true ->
  settled r = true -> rn_cancelled r = false -> run_state r id = Some s ->
  match s with
  | Switched | TFailed _ _ => True
  | Pending step => step_ltb (rn_last r) step = true
  | _ => False
  end.
Proof.
  intros plan r Hl Hf Hset Hc Hs. eapply (settled_state lower hosts v k same keys resumed scope); try done.
  by exists evs.
Qed.

(** the run of the demonstration up to its verifies, in a scope that ends there *)
Definition half_scope : RunScope := mkRunScope Deploy Verify None.
Definition half_events : list DriverEvent :=
  demo_do demo_b demo_ok ++ demo_do demo_b demo_ok ++ demo_do demo_h demo_ok ++ demo_do demo_h demo_ok.

Lemma settled_run_is_done_witness :
  settled (dr_run (run_driver (new_driver (fun s => s)
    (plan_rotation_in (fun s => s) demo_hosts (chars "v") (chars "k") {[chars "v"]}) demo_keys false half_scope) half_events)) = true /\
  step_ltb (rn_last (dr_run (run_driver (new_driver (fun s => s)
    (plan_rotation_in (fun s => s) demo_hosts (chars "v") (chars "k") {[chars "v"]}) demo_keys false half_scope) half_events))) Remove = true.
Proof.
  split; [vm_compute; reflexivity|].
  refine (settled_run_is_done (fun s => s) demo_hosts (chars "v") (chars "k") {[chars "v"]} demo_keys false half_scope half_events
            demo_h (Pending Remove) _ eq_refl _ _ _); [discriminate|vm_compute; reflexivity..].
Defined.

(** C32. A run ends: over any sequence of events, the steps begun, answered and recorded are at most
    sixteen for each target of the plan and sixteen for each retry asked for; and until the run has
    settled there is always one that can be taken. *)
Theorem rotation_ends lower hosts v k same keys resumed scope evs :
  let plan := plan_rotation_in lower hosts v k same in
  let d := new_driver lower plan keys resumed scope in
  (work d evs <= 16 * (length (pl_targets plan) + retries evs))%nat /\
  (settled (dr_run (run_driver d evs)) = true \/ exists ev, works (run_driver d evs) ev = true).
Proof.
  intros plan d.
  assert (Hi : driver_inv d) by apply driver_inv_start, plan_ids_NoDup. split.
  - pose proof (work_bounded d evs Hi) as Hw. pose proof (start_budget lower plan keys resumed scope).
    fold d in H. specialize (Hw ltac:(by intros id f Hf)). lia.
  - destruct (settled (dr_run (run_driver d evs))) eqn:E; [by left|right]. by apply unsettled_works; [apply driver_inv_run|].
Qed.
