(* ===== verification/RotationShell.v ===== *)
(** * What a rotation sends reaches the right shell and the right machine

    A reader of shell words (POSIX: single quotes, backslashes, plain characters) under
    which the commands of [Rotation] come back as they were built; and that a run in the
    scope of [Rotation.pinned_rotation_scope] only connects over pinned machines. *)

From Stdlib Require Import Strings.String Strings.Byte NArith ZArith Lia.
From stdpp Require Import base gmap sets list strings sorting countable.
From S2P Require Import Prelude Bytes Storage AutoOutput Rotation RotationThy.

Local Open Scope N_scope.

(** ** Words of a shell line *)

Definition is_blank (c : N) : bool := (c =? 32) || (c =? 9).
Definition plain_char (c : N) : bool := is_ascii_alphanumeric c || (c =? 45) || (c =? 46) || (c =? 47) || (c =? 95).

Definition cons_word (c : N) (r : option (text * text)) : option (text * text) :=
  (fun x => (c :: x.1, x.2)) <$> r.

(** reads a word, in single quotes or not: the word and what follows it; [None] for an
    open quote and for characters a shell would act on *)
Fixpoint read_word (quoted : bool) (s : text) : option (text * text) :=
  match s with
  | [] => if quoted then None else Some ([], [])
  | c :: s' =>
      if quoted then if c =? 39 then read_word false s' else cons_word c (read_word true s')
      else if c =? 39 then read_word true s'
      else if c =? 92 then match s' with e :: s'' => cons_word e (read_word false s'') | [] => None end
      else if is_blank c then Some ([], s)
      else if plain_char c then cons_word c (read_word false s')
      else None
  end.

(** [fuel]: one for each word and one for each blank *)
Fixpoint read_words (fuel : nat) (s : text) : option (list text) :=
  match s with
  | [] => Some []
  | c :: s' =>
      match fuel with
      | O => None
      | S fuel =>
          if is_blank c then read_words fuel s'
          else '(w, rest) ← read_word false s; cons w <$> read_words fuel rest
      end
  end.

Definition prepend (s : text) (r : option (text * text)) : option (text * text) := (fun x => (s ++ x.1, x.2)) <$> r.

Lemma read_quoted s rest : read_word true (concat (quote_char <$> s) ++ 39 :: rest) = prepend s (read_word false rest).
Proof.
  induction s as [|c s IH]; [cbn; by destruct (read_word false rest) as [[]|]|].
  cbn [fmap list_fmap concat]. rewrite <- app_assoc. unfold quote_char at 1. destruct (c =? 39) eqn:E.
  - apply N.eqb_eq in E as ->. cbn -[concat fmap]. rewrite IH. by destruct (read_word false rest) as [[]|].
  - cbn -[concat fmap]. rewrite E, IH. by destruct (read_word false rest) as [[]|].
Qed.

Lemma read_sh_quote s rest : read_word false (sh_quote s ++ rest) = prepend s (read_word false rest).
Proof. unfold sh_quote. rewrite <- !app_assoc. cbn -[concat fmap]. apply read_quoted. Qed.

(** What is quoted comes back: a shell reads the quoted form of any text as one word, that
    very text, also in the middle of a line; so the login shell of a machine hands each command of
    a rotation to sh as one script, character by character. *)
Theorem quoted_text_is_one_word s rest :
  read_word false (sh_quote s ++ 32 :: rest) = Some (s, 32 :: rest) /\
  read_words 5 (posix s) = Some [chars "sh"; chars "-c"; s].
Proof.
  split; [rewrite read_sh_quote; cbn; by rewrite app_nil_r|].
  unfold posix. pose proof (read_sh_quote s []) as H. rewrite app_nil_r in H. cbn -[sh_quote read_word] in H.
  assert (Hne : exists q, sh_quote s = 39 :: q) by by eexists. destruct Hne as [q Hq]. rewrite Hq in *.
  change (chars "sh -c ") with [115; 104; 32; 45; 99; 32]. cbn [app].
  cbn in H |- *. rewrite H. cbn. by rewrite app_nil_r.
Qed.

(** ** Pinned machines *)

(** the machines a connection goes over, a saved hop being looked up in its vault *)
Definition dial_endpoints (m : Routes) (c : MultiExecTarget) : list (text * N) :=
  ((fun j => match ref_profile m j with
             | Some r => (cp_host r, cp_port r)
             | None => (j_host j, j_port j)
             end) <$> mt_jumps c) ++ [(mt_host c, mt_port c)].

Lemma with_candidate_endpoint m cand j :
  match ref_profile m (with_candidate m cand j) with
  | Some r => (cp_host r, cp_port r)
  | None => (j_host (with_candidate m cand j), j_port (with_candidate m cand j))
  end = match ref_profile m j with Some r => (cp_host r, cp_port r) | None => (j_host j, j_port j) end.
Proof.
  unfold with_candidate. destruct (ref_profile m j) as [r|] eqn:E; [done|].
  assert (ref_profile m (mkJumpHost (j_host j) (j_port j) (j_user j) cand (j_hop_ref j)) = ref_profile m j) as -> by done.
  by rewrite E.
Qed.

(** switching hops to the candidate does not change where a connection goes *)
Lemma step_connect_endpoints lower plan verified id step cand t c :
  target plan id = Some t -> step_connect lower plan verified id step cand = Some c ->
  dial_endpoints (routes_of plan) c = target_endpoints (routes_of plan) t.
Proof.
  intros Ht. unfold step_connect. rewrite Ht. cbn -[with_candidate hop_switched]. intros [= <-].
  unfold dial_endpoints, target_endpoints. cbn -[with_candidate hop_switched ref_profile]. f_equal.
  rewrite fmap_imap. apply list_eq. intros i. rewrite list_lookup_imap, list_lookup_fmap.
  destruct (rt_jumps t !! i) as [j|]; [|done]. cbn -[with_candidate hop_switched ref_profile]. f_equal.
  destruct (hop_switched _ _ _ _ _ _); [apply with_candidate_endpoint|done].
Qed.

Lemma pinned_scope_targets st plan scope scope' t :
  pinned_rotation_scope st plan scope = Ok scope' -> t ∈ pl_targets plan -> in_scope scope' t = true ->
  forallb (pinned st) (target_endpoints (routes_of plan) t) = true.
Proof.
  unfold pinned_rotation_scope, key_rotation_unpinned. destruct (find _ _); [done|].
  intros [= <-] Hin. unfold in_scope. cbn -[target_endpoints]. intros H%bool_decide_eq_true.
  rewrite elem_of_list_to_set in H.
  apply list_elem_of_fmap in H as (t' & Hid & [Hf Ht']%list_elem_of_filter).
  apply andb_true_iff in Hf as [_ Hf%negb_true_iff].
  destruct (forallb _ (target_endpoints _ t)) eqn:E; [done|]. exfalso.
  rewrite <- not_true_iff_false in Hf. apply Hf, existsb_exists. exists (rt_id t).
  split; [|by apply text_eqb_true]. apply list_elem_of_In, list_elem_of_fmap_2, list_elem_of_filter. done.
Qed.

(** A rotation pins no machine: in a run restricted to pinned machines, every connection of
    every step goes only over machines whose host key was pinned when the run was made, jump hosts
    included, however their logins are switched to the new key on the way. *)
Theorem only_pinned_machines st lower hosts v k same keys resumed scope scope' evs e c ep :
  let plan := plan_rotation_in lower hosts v k same in
  let d := run_driver (new_driver lower plan keys resumed scope') evs in
  pinned_rotation_scope st plan scope = Ok scope' ->
  e ∈ dr_log d -> connection lower d e = Some c -> ep ∈ dial_endpoints (routes_of plan) c ->
  pinned st ep = true.
Proof.
  intros plan d Hsc He Hc Hep.
  assert (Hids : NoDup (rt_id <$> pl_targets plan)) by apply plan_ids_NoDup.
  assert (Hd : reached lower plan keys resumed scope' d) by by exists evs.
  destruct (connection_of _ _ _ _ _ Hids d Hd e He) as (t & Ht & Hc'). rewrite Hc in Hc'.
  rewrite (step_connect_endpoints _ _ _ _ _ _ t c Ht (eq_sym Hc')) in Hep.
  destruct (reached_inv _ _ _ _ _ Hids d Hd) as [_ Hf].
  apply (fr_log _ _ _ _ _ Hf), list_elem_of_fmap in He as (t' & Hid & [Hin Ht']%list_elem_of_filter).
  apply target_elem in Ht as [Ht Hid'].
  assert (Hin' : in_scope scope' t = true).
  { unfold in_scope in *. by rewrite Hid', Hid. }
  pose proof (pinned_scope_targets _ _ _ _ _ Hsc Ht Hin') as Hall. rewrite forallb_forall in Hall.
  apply Hall. by apply list_elem_of_In.
Qed.

(** the machines of the demonstration, pinned *)
Definition demo_store : Storage :=
  set_known_hosts (fun _ => {[(lit "b", 22) := mkKnownHost (lit "b") 22 [] 0; (lit "h", 22) := mkKnownHost (lit "h") 22 [] 0]})
    (empty_storage 0).
Definition demo_scope : RunScope := mkRunScope Deploy Confirm (Some (list_to_set [demo_b; demo_h])).
#[local] Abbreviation demo_plan := (plan_rotation_in (fun s => s) demo_hosts (chars "v") (chars "k") {[chars "v"]}).
#[local] Abbreviation demo :=
  (run_driver (new_driver (fun s => s) demo_plan demo_keys false demo_scope) demo_events).

Lemma only_pinned_machines_witness :
  pinned_rotation_scope demo_store demo_plan full_scope = Ok demo_scope /\
  match dr_log demo !! 5%nat with
  | Some e =>
      match connection (fun s => s) demo e with
      | Some c => ((chars "b", 22) ∈ dial_endpoints (routes_of demo_plan) c) /\ pinned demo_store (chars "b", 22) = true
      | None => False
      end
  | None => False
  end.
Proof.
  assert (Hsc : pinned_rotation_scope demo_store demo_plan full_scope = Ok demo_scope) by (vm_compute; reflexivity).
  split; [exact Hsc|].
  assert (Hc : (e ← dr_log demo !! 5%nat; c ← connection (fun s => s) demo e;
    Some (bool_decide ((chars "b", 22) ∈ dial_endpoints (routes_of demo_plan) c))) = Some true) by (vm_compute; reflexivity).
  apply bind_Some in Hc as (e & E & Hc). apply bind_Some in Hc as (c & Ec & Hc).
  apply Some_inj, bool_decide_eq_true_1 in Hc. rewrite E, Ec. split; [exact Hc|].
  apply (only_pinned_machines demo_store (fun s => s) demo_hosts (chars "v") (chars "k") {[chars "v"]} demo_keys false
           full_scope demo_scope demo_events e c (chars "b", 22) Hsc (list_elem_of_lookup_2 _ _ _ E) Ec Hc).
Defined.

(** ** A limit of the scripts *)

(** [!] before a character that is not blank *)
Fixpoint has_bang (s : text) : bool :=
  match s with
  | c :: s' => ((c =? 33) && match s' with x :: _ => negb (is_blank x) | [] => false end) || has_bang s'
  | [] => false
  end.

(** The scripts of their own never put [!] before anything but a blank, which csh would
    expand even in single quotes; but the comment of a key is sent as it is, so the command
    for a key commented [a!b] has it. *)
Theorem key_comment_reaches_csh :
  has_bang (authorized_keys_append_command (chars "t A x")) = false /\
  has_bang (authorized_keys_append_command (chars "t A a!b")) = true.
Proof. split; vm_compute; reflexivity. Qed.
