(* ===== verification/ServerAuth.v ===== *)
(** * Who the server serves (server/src/modules/{identity,instance,oidc,admin}.rs,
      server/src/http/extract.rs, server/src/store/{identity_repo,auth_repo,accounts_repo,
      instance_repo,invites_repo,admin_repo}.rs)

    Accounts, devices, sign-in challenges, sessions with their rotating tokens, key set
    uploads, invites, the pairing relay, the claim of a fresh server and the owner role. A
    request is a program ([Prog]) whose only effects are calls of the store, of the clock
    and of the random generator; each call is one SQL statement or one transaction and is
    atomic, and between two calls of a request anything else may happen. Base64, JSON and
    HTTP are the framework: requests carry bytes. The audit events that end most handlers
    go to the log of [ServerAudit]. The tables of spaces, vaults and pending actions are
    not here: a call about them is answered by the environment, and a transaction that also
    writes to them fails when the environment says so. *)

From Stdlib Require Import Strings.String Strings.Byte NArith ZArith Lia.
From stdpp Require Import base gmap sets list strings sorting countable.
From S2P Require Import AutoOutput AutoText Rotation Prelude Bytes CryptoPrims Crypto Storage AuthPayloads ServerCodec.

Local Open Scope Z_scope.

(** ** Tables (server/migrations/sqlite, store/models.rs) *)

Inductive AccountStatus := AcActive | AcDisabled.
Inductive DeviceStatus := DvActive | DvPending | DvRevoked.
Inductive AuthSource := SrcKeyset | SrcOidc.

#[global] Instance AccountStatus_eq_dec : EqDecision AccountStatus.
Proof. solve_decision. Defined.
#[global] Instance DeviceStatus_eq_dec : EqDecision DeviceStatus.
Proof. solve_decision. Defined.
#[global] Instance AuthSource_eq_dec : EqDecision AuthSource.
Proof. solve_decision. Defined.

Record AuthAccount := mkAuthAccount {
  ac_ed : bytes; ac_x : bytes; ac_handle : option bytes; ac_name : option bytes; ac_status : AccountStatus;
  ac_owner : bool; ac_external : option (bytes * bytes); ac_payload : bytes; ac_signature : bytes; ac_created : Z
}.
Record AuthDevice := mkAuthDevice {
  dv_account : bytes; dv_ed : bytes; dv_x : bytes; dv_kind : bytes; dv_label : option text;
  dv_status : DeviceStatus; dv_registered : Z; dv_expires : option Z
}.
Record AuthSession := mkAuthSession {
  se_account : bytes; se_device : bytes; se_access_hash : bytes; se_refresh_hash : bytes;
  se_access_expires : Z; se_refresh_expires : Z; se_source : AuthSource; se_reassert : option Z;
  se_created : Z; se_revoked : bool
}.
Record AuthNonce := mkAuthNonce { no_device : option bytes; no_expires : Z; no_consumed : bool }.
Record KeysetEscrow := mkKeysetEscrow {
  es_auth_hash : bytes; es_salt : bytes; es_mem : Z; es_iterations : Z; es_parallelism : Z
}.
Record KeysetBlob := mkKeysetBlob {
  kb_bytes : bytes; kb_ed : bytes; kb_x : bytes; kb_uploaded : Z; kb_escrow : option KeysetEscrow
}.
Record InstanceRow := mkInstanceRow {
  in_id : bytes; in_claimed : bool; in_owner : option bytes; in_setup_code : option bytes
}.

(** what an invite is for: spaces with a role, vaults with a role *)
Record SpaceIntent := mkSpaceIntent { si_space_id : bytes; si_role : bytes }.
Record VaultIntent := mkVaultIntent { vi_vault_id : bytes; vi_role : Z }.
Inductive InviteState := InPending | InRedeemed | InExpired | InRevoked.

#[global] Instance InviteState_eq_dec : EqDecision InviteState.
Proof. solve_decision. Defined.

Record InviteRow := mkInviteRow {
  iv_token_hash : bytes; iv_spaces : list SpaceIntent; iv_vaults : list VaultIntent; iv_expires : Z;
  iv_state : InviteState; iv_redeemed : option (bytes * Z); iv_created_by : option bytes; iv_created : Z
}.
Inductive RelaySlot := Msg1 | Msg2 | Msg3.
Inductive RelayState := RelayOpen | RelayMsg1 | RelayMsg2 | RelayDone.
Record RelayRow := mkRelayRow {
  rl_msg1 : option bytes; rl_msg2 : option bytes; rl_msg3 : option bytes; rl_state : RelayState; rl_expires : Z
}.

Record AuthDB := mkAuthDB {
  accounts : gmap bytes AuthAccount;
  devices : gmap bytes AuthDevice;
  sessions : gmap bytes AuthSession;
  auth_nonces : gmap bytes AuthNonce;
  keyset_blobs : gmap (bytes * Z) KeysetBlob;
  oidc_used_jti : gmap bytes Z;
  invites : gmap bytes InviteRow;
  pake_relay : gmap bytes RelayRow;
  instance : InstanceRow
}.

Definition set_accounts f d := mkAuthDB (f (accounts d)) (devices d) (sessions d) (auth_nonces d) (keyset_blobs d) (oidc_used_jti d) (invites d) (pake_relay d) (instance d).
Definition set_devices f d := mkAuthDB (accounts d) (f (devices d)) (sessions d) (auth_nonces d) (keyset_blobs d) (oidc_used_jti d) (invites d) (pake_relay d) (instance d).
Definition set_sessions f d := mkAuthDB (accounts d) (devices d) (f (sessions d)) (auth_nonces d) (keyset_blobs d) (oidc_used_jti d) (invites d) (pake_relay d) (instance d).
Definition set_nonces f d := mkAuthDB (accounts d) (devices d) (sessions d) (f (auth_nonces d)) (keyset_blobs d) (oidc_used_jti d) (invites d) (pake_relay d) (instance d).
Definition set_keysets f d := mkAuthDB (accounts d) (devices d) (sessions d) (auth_nonces d) (f (keyset_blobs d)) (oidc_used_jti d) (invites d) (pake_relay d) (instance d).
Definition set_jti f d := mkAuthDB (accounts d) (devices d) (sessions d) (auth_nonces d) (keyset_blobs d) (f (oidc_used_jti d)) (invites d) (pake_relay d) (instance d).
Definition set_invites f d := mkAuthDB (accounts d) (devices d) (sessions d) (auth_nonces d) (keyset_blobs d) (oidc_used_jti d) (f (invites d)) (pake_relay d) (instance d).
Definition set_relay f d := mkAuthDB (accounts d) (devices d) (sessions d) (auth_nonces d) (keyset_blobs d) (oidc_used_jti d) (invites d) (f (pake_relay d)) (instance d).
Definition set_instance f d := mkAuthDB (accounts d) (devices d) (sessions d) (auth_nonces d) (keyset_blobs d) (oidc_used_jti d) (invites d) (pake_relay d) (f (instance d)).

Definition with_status s (a : AuthAccount) := mkAuthAccount (ac_ed a) (ac_x a) (ac_handle a) (ac_name a) s (ac_owner a) (ac_external a) (ac_payload a) (ac_signature a) (ac_created a).
Definition with_owner b (a : AuthAccount) := mkAuthAccount (ac_ed a) (ac_x a) (ac_handle a) (ac_name a) (ac_status a) b (ac_external a) (ac_payload a) (ac_signature a) (ac_created a).
Definition with_name n (a : AuthAccount) := mkAuthAccount (ac_ed a) (ac_x a) (ac_handle a) n (ac_status a) (ac_owner a) (ac_external a) (ac_payload a) (ac_signature a) (ac_created a).
Definition with_handle h (a : AuthAccount) := mkAuthAccount (ac_ed a) (ac_x a) h (ac_name a) (ac_status a) (ac_owner a) (ac_external a) (ac_payload a) (ac_signature a) (ac_created a).
Definition with_device_state s e (v : AuthDevice) := mkAuthDevice (dv_account v) (dv_ed v) (dv_x v) (dv_kind v) (dv_label v) s (dv_registered v) e.
Definition with_label l (v : AuthDevice) := mkAuthDevice (dv_account v) (dv_ed v) (dv_x v) (dv_kind v) l (dv_status v) (dv_registered v) (dv_expires v).
Definition with_revoked (s : AuthSession) := mkAuthSession (se_account s) (se_device s) (se_access_hash s) (se_refresh_hash s) (se_access_expires s) (se_refresh_expires s) (se_source s) (se_reassert s) (se_created s) true.
Definition with_tokens a r ae re (s : AuthSession) := mkAuthSession (se_account s) (se_device s) a r ae re (se_source s) (se_reassert s) (se_created s) (se_revoked s).
Definition with_consumed (n : AuthNonce) := mkAuthNonce (no_device n) (no_expires n) true.
Definition with_invite_state s r (i : InviteRow) := mkInviteRow (iv_token_hash i) (iv_spaces i) (iv_vaults i) (iv_expires i) s r (iv_created_by i) (iv_created i).
(** [relay_put]: the message goes to its slot and the state advances *)
Definition with_message (slot : RelaySlot) (m : bytes) (r : RelayRow) : RelayRow :=
  match slot with
  | Msg1 => mkRelayRow (Some m) (rl_msg2 r) (rl_msg3 r) RelayMsg1 (rl_expires r)
  | Msg2 => mkRelayRow (rl_msg1 r) (Some m) (rl_msg3 r) RelayMsg2 (rl_expires r)
  | Msg3 => mkRelayRow (rl_msg1 r) (rl_msg2 r) (Some m) RelayDone (rl_expires r)
  end.
Definition with_escrow e (k : KeysetBlob) := mkKeysetBlob (kb_bytes k) (kb_ed k) (kb_x k) (kb_uploaded k) (Some e).

(** ** Calls *)

(** the calls of a request: the clock, the random generator, and the methods of the store *)
Inductive Call :=
| CNow
| CRandom (n : nat)
| CGetDevice (id : bytes)
| CInsertNonce (nonce device : bytes) (expires_at : Z)
| CConsumeNonce (nonce device : bytes) (now : Z)
| CActivatePending (device : bytes) (now : Z)
| CAccountIsActive (id : bytes)
| CAccountIsOwner (id : bytes)
| CGetAccount (id : bytes)
| CGetAccountByEd (ed : bytes)
| CGetAccountByExternal (ext : bytes * bytes)
| CCreateSession (id : bytes) (row : AuthSession)
| CFindByAccess (hash : bytes)
| CFindSession (id : bytes)
| CRevokeSession (id : bytes)
| CRotateSession (id expected access refresh : bytes) (access_expires refresh_expires : Z)
| CRevokePending (device : bytes)
| CRevokeDevice (device : bytes) (now : Z)
| CRevokeDeviceSessions (device : bytes)
| CSetLabel (device : bytes) (label : option text)
| CCreateDevice (id : bytes) (row : AuthDevice)
| CMaxGeneration (account : bytes)
| CPutKeyset (account : bytes) (generation : Z) (row : KeysetBlob)
| CSetEscrow (account : bytes) (generation : Z) (e : KeysetEscrow)
| CLatestKeyset (account : bytes)
| CInstance
| COwnerCount
| CSetOwner (id : bytes) (is_owner : bool)
| CSetStatus (id : bytes) (status : AccountStatus)
| CClaim (id : bytes) (row : AuthAccount) (device_id : bytes) (device : AuthDevice) (setup_code : bytes)
| COidcLogin (jti : bytes) (exp now : Z) (id : bytes) (new : option AuthAccount) (device_id : bytes) (device : AuthDevice)
| CHandleTaken (handle : bytes) (by_other_than : option bytes)
| CSetName (id name : bytes)
| CSetHandle (id handle : bytes)
| CSpaceAdmin (space account : bytes)
| CVaultAdmin (account vault : bytes)
| CCreateInvite (id : bytes) (row : InviteRow)
| CInviteById (id : bytes)
| CInviteByHash (hash : bytes)
| CRevokeInvite (id : bytes)
| CJoin (token_hash : bytes) (now : Z) (id : bytes) (new : option AuthAccount) (device_id : bytes) (device : AuthDevice)
| CRelayOpen (channel : bytes) (expires_at : Z)
| CRelayGet (channel : bytes)
| CRelayPut (channel : bytes) (slot : RelaySlot) (msg : bytes)
| CDeleteNonces (now : Z)
| CDeleteRelay (now : Z)
| CExpireInvites (now : Z)
| CDeleteSessions (now : Z)
| CDeletePending (now : Z)
| CStampRevoked (now : Z)
| CDeleteDeadSessions (cutoff : Z)
| CDeleteDeadDevices (cutoff : Z).

Inductive Answer :=
| AUnit
| AFail (e : ErrorCode)
| ATime (t : Z)
| ABytes (b : bytes)
| ABool (b : bool)
| ACount (n : nat)
| ADevice (r : option AuthDevice)
| AAccount (r : option (bytes * AuthAccount))
| ASession (r : option (bytes * AuthSession))
| AGeneration (g : option Z)
| AKeyset (r : option (Z * KeysetBlob))
| AInstance (r : InstanceRow)
| AInvite (r : option (bytes * InviteRow))
| ARelay (r : option RelayRow).

(** the first row of a table that satisfies a condition *)
Definition find_row {A} (p : bytes -> A -> bool) (t : gmap bytes A) : option (bytes * A) :=
  find (fun x => p x.1 x.2) (map_to_list t).

Definition expired (cutoff : Z) (e : option Z) : bool := match e with Some e => e <? cutoff | None => false end.

(** the references of a row must exist, and its key be free *)
Definition insert_device (id : bytes) (row : AuthDevice) (d : AuthDB) : option AuthDB :=
  if bool_decide (is_Some (devices d !! id)) || bool_decide (accounts d !! dv_account row = None) then None
  else Some (set_devices (<[id := row]>) d).
Definition insert_account (id : bytes) (row : AuthAccount) (d : AuthDB) : option AuthDB :=
  if bool_decide (is_Some (accounts d !! id)) || bool_decide (is_Some (find_row (fun _ a => bytes_eqb (ac_ed a) (ac_ed row)) (accounts d))) ||
     (bool_decide (is_Some (ac_handle row)) && bool_decide (is_Some (find_row (fun _ a => bool_decide (ac_handle a = ac_handle row)) (accounts d)))) ||
     (bool_decide (is_Some (ac_external row)) && bool_decide (is_Some (find_row (fun _ a => bool_decide (ac_external a = ac_external row)) (accounts d))))
  then None
  else Some (set_accounts (<[id := row]>) d).

Definition max_generation (account : bytes) (t : gmap (bytes * Z) KeysetBlob) : option Z :=
  match (fun x : bytes * Z * KeysetBlob => x.1.2) <$> filter (fun x => x.1.1 = account) (map_to_list t) with
  | [] => None
  | g :: gs => Some (foldr Z.max g gs)
  end.

Definition may_activate (now : Z) (v : AuthDevice) : bool :=
  match dv_status v with
  | DvActive => true
  | DvPending => match dv_expires v with Some e => now <? e | None => false end
  | DvRevoked => false
  end.

Definition revoked_device (now : Z) (v : AuthDevice) : AuthDevice :=
  with_device_state DvRevoked
    (match dv_expires v with Some e => if now <? e then Some now else Some e | None => Some now end) v.

Definition nonce_usable (device : bytes) (now : Z) (n : AuthNonce) : bool :=
  bool_decide (no_device n = Some device) && negb (no_consumed n) && (now <? no_expires n).

Definition rotates (expected : bytes) (s : AuthSession) : bool :=
  bytes_eqb (se_refresh_hash s) expected && negb (se_revoked s).

(** whether a session refers to a device with a property: the device then cannot be deleted *)
Definition referenced (p : bytes -> AuthDevice -> bool) (d : AuthDB) : bool :=
  existsb (fun x => match devices d !! se_device x.2 with Some v => p (se_device x.2) v | None => false end) (map_to_list (sessions d)).

Definition delete_devices (p : bytes -> AuthDevice -> bool) (d : AuthDB) : Answer * AuthDB :=
  if referenced p d then (AFail EInternal, d)
  else (AUnit, set_devices (filter (fun x => p x.1 x.2 = false)) d).

Definition is_pending (v : AuthDevice) : bool := bool_decide (dv_status v = DvPending).

(** a transaction answers [AFail] and changes nothing when one of its statements fails *)
Definition in_tx (r : option AuthDB) (d : AuthDB) : Answer * AuthDB :=
  match r with Some d' => (ABool true, d') | None => (AFail EInternal, d) end.

(** a transaction that also writes to tables that are not here; [others]: whether that worked *)
Definition in_wide_tx (others : bool) (r : option AuthDB) (d : AuthDB) : Answer * AuthDB :=
  in_tx (if others then r else None) d.

Definition new_account (id : bytes) (new : option AuthAccount) (d : AuthDB) : option AuthDB :=
  match new with Some row => insert_account id row d | None => Some d end.

(** [redeem_invite_v2_cas]: the rows it takes *)
Definition redeemable (hash : bytes) (now : Z) (i : InviteRow) : bool :=
  bytes_eqb (iv_token_hash i) hash && bool_decide (iv_state i = InPending) && (now <? iv_expires i).

(** *** The methods of the store: the answer and the tables after it *)

Definition sql_get_device (id : bytes) (d : AuthDB) : Answer * AuthDB :=
  (ADevice (devices d !! id), d).
Definition sql_insert_nonce (nonce device : bytes) (e : Z) (d : AuthDB) : Answer * AuthDB :=
  match auth_nonces d !! nonce with
  | Some _ => (AFail EInternal, d)
  | None => (AUnit, set_nonces (<[nonce := mkAuthNonce (Some device) e false]>) d)
  end.
Definition sql_consume_nonce (nonce device : bytes) (now : Z) (d : AuthDB) : Answer * AuthDB :=
  match auth_nonces d !! nonce with
  | Some n => if nonce_usable device now n then (ABool true, set_nonces (<[nonce := with_consumed n]>) d) else (ABool false, d)
  | None => (ABool false, d)
  end.
Definition sql_activate_pending_device (id : bytes) (now : Z) (d : AuthDB) : Answer * AuthDB :=
  match devices d !! id with
  | Some v => if may_activate now v then (ABool true, set_devices (<[id := with_device_state DvActive None v]>) d) else (ABool false, d)
  | None => (ABool false, d)
  end.
Definition sql_account_is_active (id : bytes) (d : AuthDB) : Answer * AuthDB :=
  (ABool (match accounts d !! id with Some a => bool_decide (ac_status a = AcActive) | None => false end), d).
Definition sql_account_is_owner (id : bytes) (d : AuthDB) : Answer * AuthDB :=
  (ABool (match accounts d !! id with Some a => ac_owner a | None => false end), d).
Definition sql_get_account_by_id (id : bytes) (d : AuthDB) : Answer * AuthDB :=
  (AAccount ((fun a => (id, a)) <$> accounts d !! id), d).
Definition sql_get_account_by_ed (ed : bytes) (d : AuthDB) : Answer * AuthDB :=
  (AAccount (find_row (fun _ a => bytes_eqb (ac_ed a) ed) (accounts d)), d).
Definition sql_get_account_by_external (ext : bytes * bytes) (d : AuthDB) : Answer * AuthDB :=
  (AAccount (find_row (fun _ a => bool_decide (ac_external a = Some ext)) (accounts d)), d).
Definition sql_create_session (id : bytes) (row : AuthSession) (d : AuthDB) : Answer * AuthDB :=
  if bool_decide (is_Some (sessions d !! id)) || bool_decide (devices d !! se_device row = None) then (AFail EInternal, d)
  else (AUnit, set_sessions (<[id := row]>) d).
Definition sql_find_session_by_access_hash (hash : bytes) (d : AuthDB) : Answer * AuthDB :=
  (ASession (find_row (fun _ s => bytes_eqb (se_access_hash s) hash) (sessions d)), d).
Definition sql_find_session_by_id (id : bytes) (d : AuthDB) : Answer * AuthDB :=
  (ASession ((fun s => (id, s)) <$> sessions d !! id), d).
Definition sql_revoke_session (id : bytes) (d : AuthDB) : Answer * AuthDB :=
  (ACount (match sessions d !! id with Some _ => 1 | None => 0 end)%nat, set_sessions (alter with_revoked id) d).
Definition sql_rotate_session (id expected access refresh : bytes) (ae re : Z) (d : AuthDB) : Answer * AuthDB :=
  match sessions d !! id with
  | Some s => if rotates expected s then (ACount 1, set_sessions (<[id := with_tokens access refresh ae re s]>) d) else (ACount 0, d)
  | None => (ACount 0, d)
  end.
Definition sql_revoke_pending (id : bytes) (d : AuthDB) : Answer * AuthDB :=
  delete_devices (fun i v => bytes_eqb i id && is_pending v) d.
Definition sql_revoke_device (id : bytes) (now : Z) (d : AuthDB) : Answer * AuthDB :=
  (AUnit, set_devices (alter (revoked_device now) id) d).
Definition sql_revoke_device_sessions (id : bytes) (d : AuthDB) : Answer * AuthDB :=
  (AUnit, set_sessions (fmap (fun s => if bytes_eqb (se_device s) id then with_revoked s else s)) d).
Definition sql_set_device_label (id : bytes) (label : option text) (d : AuthDB) : Answer * AuthDB :=
  (AUnit, set_devices (alter (with_label label) id) d).
Definition sql_create_device (id : bytes) (row : AuthDevice) (d : AuthDB) : Answer * AuthDB :=
  match insert_device id row d with Some d' => (AUnit, d') | None => (AFail EInternal, d) end.
Definition sql_keyset_max_generation (account : bytes) (d : AuthDB) : Answer * AuthDB :=
  (AGeneration (max_generation account (keyset_blobs d)), d).
Definition sql_put_keyset (account : bytes) (g : Z) (row : KeysetBlob) (d : AuthDB) : Answer * AuthDB :=
  if bool_decide (is_Some (keyset_blobs d !! (account, g))) || bool_decide (accounts d !! account = None) then (AFail EInternal, d)
  else (AUnit, set_keysets (<[(account, g) := row]>) d).
Definition sql_set_escrow (account : bytes) (g : Z) (e : KeysetEscrow) (d : AuthDB) : Answer * AuthDB :=
  (AUnit, set_keysets (alter (with_escrow e) (account, g)) d).
Definition sql_get_latest_keyset (account : bytes) (d : AuthDB) : Answer * AuthDB :=
  (AKeyset (g ← max_generation account (keyset_blobs d); k ← keyset_blobs d !! (account, g); Some (g, k)), d).
Definition sql_owner_count (d : AuthDB) : Answer * AuthDB :=
  (ACount (length (filter (fun x => ac_owner x.2 = true) (map_to_list (accounts d)))), d).
Definition sql_set_account_owner (id : bytes) (b : bool) (d : AuthDB) : Answer * AuthDB :=
  match accounts d !! id with
  | Some a => (AUnit, set_accounts (<[id := with_owner b a]>) d)
  | None => (AFail ENotFound, d)
  end.
Definition sql_set_account_status (id : bytes) (s : AccountStatus) (d : AuthDB) : Answer * AuthDB :=
  match accounts d !! id with
  | Some a => (AUnit, set_accounts (<[id := with_status s a]>) d)
  | None => (AFail ENotFound, d)
  end.
Definition sql_claim (others : bool) (id : bytes) (row : AuthAccount) (device_id : bytes) (device : AuthDevice) (code : bytes) (d : AuthDB) : Answer * AuthDB :=
  if in_claimed (instance d) || negb (bool_decide (in_setup_code (instance d) = Some code)) then (ABool false, d)
  else in_wide_tx others (insert_account id row (set_instance (fun i => mkInstanceRow (in_id i) true (Some id) None) d)
                ≫= insert_device device_id device) d.
Definition sql_oidc_login (others : bool) (jti : bytes) (exp now : Z) (id : bytes) (new : option AuthAccount) (device_id : bytes) (device : AuthDevice) (d : AuthDB) : Answer * AuthDB :=
  let d1 := set_jti (filter (fun x => now <= x.2)) d in
  match oidc_used_jti d1 !! jti with
  | Some _ => (ABool false, d)
  | None =>
      let d2 := set_jti (<[jti := exp]>) d1 in
      in_wide_tx others (new_account id new d2 ≫= insert_device device_id device) d
  end.
Definition sql_handle_taken (h : bytes) (other : option bytes) (d : AuthDB) : Answer * AuthDB :=
  (ABool (bool_decide (is_Some (find_row (fun i a => bool_decide (ac_handle a = Some h) && negb (bool_decide (other = Some i))) (accounts d)))), d).
Definition sql_set_name (id n : bytes) (d : AuthDB) : Answer * AuthDB :=
  (AUnit, set_accounts (alter (with_name (Some n)) id) d).
Definition sql_set_handle (id h : bytes) (d : AuthDB) : Answer * AuthDB :=
  if bool_decide (is_Some (accounts d !! id)) && bool_decide (is_Some (find_row (fun i a => bool_decide (ac_handle a = Some h) && negb (bytes_eqb i id)) (accounts d)))
  then (AFail EInternal, d) else (AUnit, set_accounts (alter (with_handle (Some h)) id) d).
Definition sql_create_invite_v2 (id : bytes) (row : InviteRow) (d : AuthDB) : Answer * AuthDB :=
  if bool_decide (is_Some (invites d !! id)) || bool_decide (is_Some (find_row (fun _ i => bytes_eqb (iv_token_hash i) (iv_token_hash row)) (invites d)))
  then (AFail EInternal, d) else (AUnit, set_invites (<[id := row]>) d).
Definition sql_get_invite_v2_by_id (id : bytes) (d : AuthDB) : Answer * AuthDB :=
  (AInvite ((fun i => (id, i)) <$> invites d !! id), d).
Definition sql_get_invite_v2_by_hash (hash : bytes) (d : AuthDB) : Answer * AuthDB :=
  (AInvite (find_row (fun _ i => bytes_eqb (iv_token_hash i) hash) (invites d)), d).
Definition sql_revoke_invite_v2 (id : bytes) (d : AuthDB) : Answer * AuthDB :=
  match invites d !! id with
  | Some i => if bool_decide (iv_state i = InPending) then (ACount 1, set_invites (<[id := with_invite_state InRevoked (iv_redeemed i) i]>) d) else (ACount 0, d)
  | None => (ACount 0, d)
  end.
Definition sql_join (others : bool) (hash : bytes) (now : Z) (id : bytes) (new : option AuthAccount) (device_id : bytes) (device : AuthDevice) (d : AuthDB) : Answer * AuthDB :=
  match find_row (fun _ i => redeemable hash now i) (invites d) with
  | None => (ABool false, d)
  | Some (iv, i) =>
      let d1 := set_invites (<[iv := with_invite_state InRedeemed (Some (id, now)) i]>) d in
      in_wide_tx others (new_account id new d1 ≫= insert_device device_id device) d
  end.
Definition sql_relay_open (channel : bytes) (e : Z) (d : AuthDB) : Answer * AuthDB :=
  if bool_decide (is_Some (pake_relay d !! channel)) then (AFail EInternal, d)
  else (AUnit, set_relay (<[channel := mkRelayRow None None None RelayOpen e]>) d).
Definition sql_relay_get (channel : bytes) (d : AuthDB) : Answer * AuthDB :=
  (ARelay (pake_relay d !! channel), d).
Definition sql_relay_put (channel : bytes) (slot : RelaySlot) (msg : bytes) (d : AuthDB) : Answer * AuthDB :=
  match pake_relay d !! channel with
  | Some r => (AUnit, set_relay (<[channel := with_message slot msg r]>) d)
  | None => (AFail ENotFound, d)
  end.
Definition sql_delete_nonces (now : Z) (d : AuthDB) : Answer * AuthDB :=
  (AUnit, set_nonces (filter (fun x => now <= no_expires x.2)) d).
Definition sql_delete_relay (now : Z) (d : AuthDB) : Answer * AuthDB :=
  (AUnit, set_relay (filter (fun x => now <= rl_expires x.2)) d).
Definition sql_expire_invites (now : Z) (d : AuthDB) : Answer * AuthDB :=
  (AUnit, set_invites (fmap (fun i => if bool_decide (iv_state i = InPending) && (iv_expires i <? now)
                                      then with_invite_state InExpired (iv_redeemed i) i else i)) d).
Definition sql_delete_sessions (now : Z) (d : AuthDB) : Answer * AuthDB :=
  (AUnit, set_sessions (filter (fun x => now <= se_refresh_expires x.2)) d).
Definition sql_delete_pending (now : Z) (d : AuthDB) : Answer * AuthDB :=
  delete_devices (fun _ v => is_pending v && expired now (dv_expires v)) d.
Definition sql_stamp_revoked (now : Z) (d : AuthDB) : Answer * AuthDB :=
  (AUnit, set_devices (fmap (fun v => if bool_decide (dv_status v = DvRevoked) && bool_decide (dv_expires v = None)
                                      then with_device_state DvRevoked (Some now) v else v)) d).
Definition sql_delete_dead_sessions (cutoff : Z) (d : AuthDB) : Answer * AuthDB :=
  (AUnit, set_sessions (filter (fun x => match devices d !! se_device x.2 with Some v => expired cutoff (dv_expires v) | None => false end = false)) d).
Definition sql_delete_dead_devices (cutoff : Z) (d : AuthDB) : Answer * AuthDB :=
  delete_devices (fun _ v => expired cutoff (dv_expires v)) d.
Arguments sql_get_device _ _ /.
Arguments sql_insert_nonce _ _ _ _ /.
Arguments sql_consume_nonce _ _ _ _ /.
Arguments sql_activate_pending_device _ _ _ /.
Arguments sql_account_is_active _ _ /.
Arguments sql_account_is_owner _ _ /.
Arguments sql_get_account_by_id _ _ /.
Arguments sql_get_account_by_ed _ _ /.
Arguments sql_get_account_by_external _ _ /.
Arguments sql_create_session _ _ _ /.
Arguments sql_find_session_by_access_hash _ _ /.
Arguments sql_find_session_by_id _ _ /.
Arguments sql_revoke_session _ _ /.
Arguments sql_rotate_session _ _ _ _ _ _ _ /.
Arguments sql_revoke_pending _ _ /.
Arguments sql_revoke_device _ _ _ /.
Arguments sql_revoke_device_sessions _ _ /.
Arguments sql_set_device_label _ _ _ /.
Arguments sql_create_device _ _ _ /.
Arguments sql_keyset_max_generation _ _ /.
Arguments sql_put_keyset _ _ _ _ /.
Arguments sql_set_escrow _ _ _ _ /.
Arguments sql_get_latest_keyset _ _ /.
Arguments sql_owner_count _ /.
Arguments sql_set_account_owner _ _ _ /.
Arguments sql_set_account_status _ _ _ /.
Arguments sql_claim _ _ _ _ _ _ _ /.
Arguments sql_oidc_login _ _ _ _ _ _ _ _ _ /.
Arguments sql_handle_taken _ _ _ /.
Arguments sql_set_name _ _ _ /.
Arguments sql_set_handle _ _ _ /.
Arguments sql_create_invite_v2 _ _ _ /.
Arguments sql_get_invite_v2_by_id _ _ /.
Arguments sql_get_invite_v2_by_hash _ _ /.
Arguments sql_revoke_invite_v2 _ _ /.
Arguments sql_join _ _ _ _ _ _ _ _ /.
Arguments sql_relay_open _ _ _ /.
Arguments sql_relay_get _ _ /.
Arguments sql_relay_put _ _ _ _ /.
Arguments sql_delete_nonces _ _ /.
Arguments sql_delete_relay _ _ /.
Arguments sql_expire_invites _ _ /.
Arguments sql_delete_sessions _ _ /.
Arguments sql_delete_pending _ _ /.
Arguments sql_stamp_revoked _ _ /.
Arguments sql_delete_dead_sessions _ _ /.
Arguments sql_delete_dead_devices _ _ /.

Definition run_call (others : bool) (now : Z) (c : Call) (d : AuthDB) : Answer * AuthDB :=
  match c with
  | CNow => (ATime now, d)
  | CRandom n => (AUnit, d)
  | CGetDevice id => sql_get_device id d
  | CInsertNonce nonce device e => sql_insert_nonce nonce device e d
  | CConsumeNonce nonce device now => sql_consume_nonce nonce device now d
  | CActivatePending id now => sql_activate_pending_device id now d
  | CAccountIsActive id => sql_account_is_active id d
  | CAccountIsOwner id => sql_account_is_owner id d
  | CGetAccount id => sql_get_account_by_id id d
  | CGetAccountByEd ed => sql_get_account_by_ed ed d
  | CGetAccountByExternal ext => sql_get_account_by_external ext d
  | CCreateSession id row => sql_create_session id row d
  | CFindByAccess hash => sql_find_session_by_access_hash hash d
  | CFindSession id => sql_find_session_by_id id d
  | CRevokeSession id => sql_revoke_session id d
  | CRotateSession id expected access refresh ae re => sql_rotate_session id expected access refresh ae re d
  | CRevokePending id => sql_revoke_pending id d
  | CRevokeDevice id now => sql_revoke_device id now d
  | CRevokeDeviceSessions id => sql_revoke_device_sessions id d
  | CSetLabel id label => sql_set_device_label id label d
  | CCreateDevice id row => sql_create_device id row d
  | CMaxGeneration account => sql_keyset_max_generation account d
  | CPutKeyset account g row => sql_put_keyset account g row d
  | CSetEscrow account g e => sql_set_escrow account g e d
  | CLatestKeyset account => sql_get_latest_keyset account d
  | CInstance => (AInstance (instance d), d)
  | COwnerCount => sql_owner_count  d
  | CSetOwner id b => sql_set_account_owner id b d
  | CSetStatus id s => sql_set_account_status id s d
  | CClaim id row device_id device code => sql_claim others id row device_id device code d
  | COidcLogin jti exp now id new device_id device => sql_oidc_login others jti exp now id new device_id device d
  | CHandleTaken h other => sql_handle_taken h other d
  | CSetName id n => sql_set_name id n d
  | CSetHandle id h => sql_set_handle id h d
  | CSpaceAdmin _ _ | CVaultAdmin _ _ => (ABool others, d)
  | CCreateInvite id row => sql_create_invite_v2 id row d
  | CInviteById id => sql_get_invite_v2_by_id id d
  | CInviteByHash hash => sql_get_invite_v2_by_hash hash d
  | CRevokeInvite id => sql_revoke_invite_v2 id d
  | CJoin hash now id new device_id device => sql_join others hash now id new device_id device d
  | CRelayOpen channel e => sql_relay_open channel e d
  | CRelayGet channel => sql_relay_get channel d
  | CRelayPut channel slot msg => sql_relay_put channel slot msg d
  | CDeleteNonces now => sql_delete_nonces now d
  | CDeleteRelay now => sql_delete_relay now d
  | CExpireInvites now => sql_expire_invites now d
  | CDeleteSessions now => sql_delete_sessions now d
  | CDeletePending now => sql_delete_pending now d
  | CStampRevoked now => sql_stamp_revoked now d
  | CDeleteDeadSessions cutoff => sql_delete_dead_sessions cutoff d
  | CDeleteDeadDevices cutoff => sql_delete_dead_devices cutoff d
  end.

(** ** Requests as programs *)

Inductive Prog (A : Type) : Type :=
| Ret (r : result ErrorCode A)
| Do (c : Call) (k : Answer -> Prog A).
Arguments Ret {A} r.
Arguments Do {A} c k.

Fixpoint prog_bind {A B} (p : Prog A) (f : A -> Prog B) : Prog B :=
  match p with
  | Ret (Ok a) => f a
  | Ret (Err e) => Ret (Err e)
  | Do c k => Do c (fun a => prog_bind (k a) f)
  end.
#[global] Instance prog_ret : MRet Prog := fun _ a => Ret (Ok a).
#[global] Instance prog_mbind : MBind Prog := fun _ _ f p => prog_bind p f.

Definition fail {A} (e : ErrorCode) : Prog A := Ret (Err e).
Definition need (b : bool) (e : ErrorCode) : Prog unit := if b then mret tt else fail e.
Definition lift {A} (r : result ErrorCode A) : Prog A := Ret r.
Definition some_or {A} (o : option A) (e : ErrorCode) : Prog A := match o with Some a => mret a | None => fail e end.

(** the answers as the types of the methods; an answer of another shape does not occur *)
Definition call {A} (c : Call) (k : Answer -> option A) : Prog A :=
  Do c (fun a => match a with
                 | AFail e => fail e
                 | _ => some_or (k a) EInternal
                 end).
Definition as_unit (a : Answer) : option unit := match a with AUnit => Some tt | ACount _ => Some tt | _ => None end.
Definition as_time (a : Answer) : option Z := match a with ATime t => Some t | _ => None end.
Definition as_bytes (a : Answer) : option bytes := match a with ABytes b => Some b | _ => None end.
Definition as_bool (a : Answer) : option bool := match a with ABool b => Some b | _ => None end.
Definition as_count (a : Answer) : option nat := match a with ACount n => Some n | _ => None end.
Definition as_device (a : Answer) : option (option AuthDevice) := match a with ADevice r => Some r | _ => None end.
Definition as_account (a : Answer) : option (option (bytes * AuthAccount)) := match a with AAccount r => Some r | _ => None end.
Definition as_session (a : Answer) : option (option (bytes * AuthSession)) := match a with ASession r => Some r | _ => None end.
Definition as_generation (a : Answer) : option (option Z) := match a with AGeneration g => Some g | _ => None end.
Definition as_keyset (a : Answer) : option (option (Z * KeysetBlob)) := match a with AKeyset r => Some r | _ => None end.
Definition as_instance (a : Answer) : option InstanceRow := match a with AInstance r => Some r | _ => None end.

Definition as_invite (a : Answer) : option (option (bytes * InviteRow)) := match a with AInvite r => Some r | _ => None end.
Definition as_relay (a : Answer) : option (option RelayRow) := match a with ARelay r => Some r | _ => None end.

Definition now : Prog Z := call CNow as_time.
Definition random_id16 : Prog bytes := call (CRandom 16) as_bytes.
Definition random_bytes32 : Prog bytes := call (CRandom 32) as_bytes.
Definition get_device (id : bytes) : Prog (option AuthDevice) := call (CGetDevice id) as_device.
Definition get_account (id : bytes) : Prog (option (bytes * AuthAccount)) := call (CGetAccount id) as_account.
Definition account_is_active (id : bytes) : Prog bool := call (CAccountIsActive id) as_bool.
Definition account_is_owner (id : bytes) : Prog bool := call (CAccountIsOwner id) as_bool.

(** [config.session] and [config.oidc] *)
Record AuthConfig := mkAuthConfig {
  access_ttl : Z; refresh_ttl : Z; nonce_ttl : Z; relay_ttl : Z; invite_default_ttl : Z;
  oidc_enabled : bool; max_reassertion_age : Z
}.

Record SessionTokens := mkSessionTokens {
  st_access : bytes; st_refresh : bytes; st_access_expires : Z; st_refresh_expires : Z; st_session : bytes
}.

(** an [id_token] that was verified against the keys of its issuer *)
Record IdClaims := mkIdClaims {
  cl_iss : bytes; cl_sub : bytes; cl_nonce : option bytes; cl_jti : option bytes; cl_exp : Z; cl_name : option bytes
}.

Definition DEVICE_APP : bytes := lit "app".
Definition DEVICE_WEB : bytes := lit "web".
Definition PENDING_DEVICE_TTL_SECONDS : Z := 7 * 86400.
Definition WEB_DEVICE_TTL_SECONDS : Z := 2592000.
Definition DEAD_DEVICE_RETENTION_SECONDS : Z := 30 * 86400.
Definition RECOMMENDED_MEM_KIB : Z := 64 * 1024.
Definition RECOMMENDED_ITERATIONS : Z := 3.
Definition RECOMMENDED_PARALLELISM : Z := 1.
Definition RECOMMENDED_SALT_LEN : nat := 16.

(** [expires_at.is_some_and(|exp| exp <= now)] *)
Definition past (t : Z) (e : option Z) : bool := match e with Some e => e <=? t | None => false end.

Definition MAX_DEVICE_LABEL_CHARS : nat := 128.

(** characters that make one label read as another *)
Definition hidden_char (c : N) : bool :=
  (is_control c || (c =? 1564) || (c =? 8206) || (c =? 8207) || ((8234 <=? c) && (c <=? 8238)) || ((8294 <=? c) && (c <=? 8297)))%N.

Definition check_device_label (label : text) : result ErrorCode unit :=
  if (MAX_DEVICE_LABEL_CHARS <? length label)%nat then Err EMalformed
  else if existsb hidden_char label then Err EMalformed
  else Ok tt.
Definition check_label (label : option text) : result ErrorCode unit :=
  match label with Some l => check_device_label l | None => Ok tt end.

Section handlers.
Context `{P : CryptoPrims} (cfg : AuthConfig).
(** the verification of an id token; [b64] of the base64 library *)
Context (verify_id_token : Z -> bytes -> result ErrorCode IdClaims) (b64 : bytes -> bytes).

Definition build_refresh_token (session_id secret : bytes) : bytes := session_id ++ secret.

Definition mint_session (account_id device_id : bytes) (source : AuthSource) (reassert : option Z) : Prog SessionTokens :=
  t ← now;
  access ← random_bytes32;
  session_id ← random_id16;
  secret ← random_bytes32;
  let refresh := build_refresh_token session_id secret in
  let access_expires := t + access_ttl cfg in
  let refresh_expires := t + refresh_ttl cfg in
  _ ← call (CCreateSession session_id
              (mkAuthSession account_id device_id (sha256 access) (sha256 refresh) access_expires refresh_expires
                 source reassert t false)) as_unit;
  mret (mkSessionTokens access refresh access_expires refresh_expires session_id).

(** the answer is the challenge to sign *)
Definition auth_challenge (instance_id account_id device_id key_id : bytes) : Prog ServerAuthChallenge :=
  v ← get_device device_id;
  _ ← some_or v ENotFound;
  nonce ← random_bytes32;
  t ← now;
  let expires_at := t + nonce_ttl cfg in
  _ ← need (0 <=? expires_at) EInternal;
  _ ← call (CInsertNonce nonce device_id expires_at) as_unit;
  mret (mkChallenge instance_id account_id device_id key_id nonce (Z.to_N expires_at)).

Definition auth_verify (instance_id : bytes) (c : ServerAuthChallenge) (sig : bytes) : Prog SessionTokens :=
  t ← now;
  _ ← need ((0 <=? t) && (t <? Z.of_N (ch_expiry c))) EUnauthenticated;
  let account_id := ch_account_id c in
  let device_id := ch_device_id c in
  _ ← need (bytes_eqb (ch_host c) instance_id) EUnauthenticated;
  v ← get_device device_id;
  device ← some_or v EUnauthenticated;
  _ ← need (bool_decide (dv_status device <> DvRevoked)) EUnauthenticated;
  _ ← need (negb (past t (dv_expires device))) EUnauthenticated;
  _ ← need (bytes_eqb (dv_account device) account_id) EUnauthenticated;
  active ← account_is_active account_id;
  _ ← need active EUnauthenticated;
  _ ← lift (srv_verify_server_auth (dv_ed device) c sig);
  consumed ← call (CConsumeNonce (ch_nonce c) device_id t) as_bool;
  _ ← need consumed EUnauthenticated;
  _ ← (if is_pending device then
         activated ← call (CActivatePending device_id t) as_bool; need activated EUnauthenticated
       else mret tt);
  mint_session account_id device_id SrcKeyset None.

Definition session_refresh (raw : bytes) : Prog SessionTokens :=
  _ ← need (length raw =? 16 + 32)%nat EUnauthenticated;
  let session_id := take 16 raw in
  let refresh_hash := sha256 raw in
  found ← call (CFindSession session_id) as_session;
  session ← some_or (snd <$> found) EUnauthenticated;
  _ ← need (negb (se_revoked session)) EUnauthenticated;
  t ← now;
  _ ← (if bytes_eqb (se_refresh_hash session) refresh_hash then mret tt
       else _ ← call (CRevokeSession session_id) as_unit; fail EUnauthenticated);
  _ ← need (t <? se_refresh_expires session) EUnauthenticated;
  active ← account_is_active (se_account session);
  _ ← need active EUnauthenticated;
  v ← get_device (se_device session);
  device ← some_or v EUnauthenticated;
  _ ← need (negb (past t (dv_expires device))) EUnauthenticated;
  _ ← need (negb (bool_decide (se_source session = SrcOidc) &&
                  match se_reassert session with Some deadline => deadline <? t | None => false end)) EUnauthenticated;
  access ← random_bytes32;
  secret ← random_bytes32;
  let refresh := build_refresh_token session_id secret in
  let access_expires := t + access_ttl cfg in
  let refresh_expires := t + refresh_ttl cfg in
  rotated ← call (CRotateSession session_id refresh_hash (sha256 access) (sha256 refresh) access_expires refresh_expires) as_count;
  _ ← need (rotated =? 1)%nat EUnauthenticated;
  mret (mkSessionTokens access refresh access_expires refresh_expires session_id).

(** [AuthCtx]; the session carries its id *)
Record AuthCtx := mkAuthCtx { cx_session_id : bytes; cx_session : AuthSession; cx_device : AuthDevice }.

Definition resolve_bearer (raw : bytes) : Prog AuthCtx :=
  found ← call (CFindByAccess (sha256 raw)) as_session;
  '(session_id, session) ← some_or found EUnauthenticated;
  _ ← need (negb (se_revoked session)) EUnauthenticated;
  t ← now;
  _ ← need (t <? se_access_expires session) EUnauthenticated;
  v ← get_device (se_device session);
  device ← some_or v EUnauthenticated;
  _ ← need (bool_decide (dv_status device = DvActive)) EUnauthenticated;
  _ ← match dv_expires device with
      | Some exp => t ← now; need (negb (exp <=? t)) EUnauthenticated
      | None => mret tt
      end;
  active ← account_is_active (se_account session);
  _ ← need active EUnauthenticated;
  mret (mkAuthCtx session_id session device).

Definition require_owner (ctx : AuthCtx) : Prog unit :=
  owner ← account_is_owner (se_account (cx_session ctx));
  need owner EForbidden.

Definition session_logout (raw : bytes) : Prog unit :=
  ctx ← resolve_bearer raw;
  call (CRevokeSession (cx_session_id ctx)) as_unit.

Definition revoke_device (device : bytes) (t : Z) : Prog unit :=
  _ ← call (CRevokePending device) as_unit;
  call (CRevokeDevice device t) as_unit.

Definition device_revoke (raw target : bytes) : Prog unit :=
  ctx ← resolve_bearer raw;
  v ← get_device target;
  device ← some_or v ENotFound;
  _ ← (if bytes_eqb (dv_account device) (se_account (cx_session ctx)) then mret tt else require_owner ctx);
  t ← now;
  _ ← revoke_device target t;
  call (CRevokeDeviceSessions target) as_unit.

Definition device_label_self (raw : bytes) (label : option text) : Prog unit :=
  ctx ← resolve_bearer raw;
  let label := match str_trim <$> label with Some [] => None | l => l end in
  _ ← lift (check_label label);
  call (CSetLabel (se_device (cx_session ctx)) label) as_unit.

Definition keyset_get (raw : bytes) : Prog (bytes * Z) :=
  ctx ← resolve_bearer raw;
  row ← call (CLatestKeyset (se_account (cx_session ctx))) as_keyset;
  '(g, k) ← some_or row ENotFound;
  mret (kb_bytes k, g).

(** [EscrowIn] *)
Record EscrowIn := mkEscrowIn { ei_auth : bytes; ei_salt : bytes; ei_mem : Z; ei_iterations : Z; ei_parallelism : Z }.

Definition decode_escrow (e : EscrowIn) : result ErrorCode KeysetEscrow :=
  if (ei_mem e =? RECOMMENDED_MEM_KIB) && (ei_iterations e =? RECOMMENDED_ITERATIONS) && (ei_parallelism e =? RECOMMENDED_PARALLELISM)
  then if (length (ei_salt e) =? RECOMMENDED_SALT_LEN)%nat
       then Ok (mkKeysetEscrow (sha256 (ei_auth e)) (ei_salt e) (ei_mem e) (ei_iterations e) (ei_parallelism e))
       else Err EMalformed
  else Err EMalformed.

Definition keyset_put (raw blob : bytes) (escrow : option EscrowIn) : Prog Z :=
  ctx ← resolve_bearer raw;
  header ← lift (parse_keyset_header blob);
  let generation := Z.of_N (kh_generation header) in
  let acc := se_account (cx_session ctx) in
  maxg ← call (CMaxGeneration acc) as_generation;
  _ ← need (match maxg with Some g => g <? generation | None => true end) EConflict;
  escrow ← (match escrow with Some e => e ← lift (decode_escrow e); mret (Some e) | None => mret None end : Prog (option KeysetEscrow));
  t ← now;
  _ ← call (CPutKeyset acc generation (mkKeysetBlob blob (kh_ed25519_pub header) (kh_x25519_pub header) t None)) as_unit;
  _ ← match escrow with Some e => call (CSetEscrow acc generation e) as_unit | None => mret tt end;
  mret generation.

Definition device_add (raw : bytes) : Prog bytes :=
  ctx ← resolve_bearer raw;
  let acc := se_account (cx_session ctx) in
  acct ← get_account acc;
  '(_, acct) ← some_or acct ENotFound;
  device_id ← random_id16;
  t ← now;
  _ ← call (CCreateDevice device_id (mkAuthDevice acc (ac_ed acct) (ac_x acct) DEVICE_APP None DvPending t
                                       (Some (t + PENDING_DEVICE_TTL_SECONDS)))) as_unit;
  mret device_id.

Definition device_self_enroll (kind : option bytes) (label : option text)
    (payload_bytes sig : bytes) : Prog (bytes * bytes) :=
  let kind := default DEVICE_APP kind in
  _ ← need (bytes_eqb kind DEVICE_APP || bytes_eqb kind DEVICE_WEB) EMalformed;
  _ ← lift (check_label label);
  payload ← lift (reg_parse_canonical payload_bytes);
  _ ← lift (srv_verify_registration payload sig);
  acct ← call (CGetAccountByEd (rp_ed25519_pub payload)) as_account;
  '(acc, acct) ← some_or acct ENotFound;
  _ ← need (bool_decide (ac_status acct = AcActive)) EForbidden;
  _ ← need (bytes_eqb (ac_x acct) (rp_x25519_pub payload)) EMalformed;
  t ← now;
  device_id ← random_id16;
  let expires_at := if bytes_eqb kind DEVICE_WEB then Some (t + WEB_DEVICE_TTL_SECONDS) else None in
  _ ← call (CCreateDevice device_id (mkAuthDevice acc (rp_ed25519_pub payload) (rp_x25519_pub payload) kind label
                                       DvActive t expires_at)) as_unit;
  mret (acc, device_id).

(** [setup_code]: trimmed *)
Definition claim (setup_code payload_bytes sig : bytes) (name handle : option bytes) : Prog (bytes * bytes) :=
  row ← call CInstance as_instance;
  _ ← need (negb (in_claimed row)) EConflict;
  want ← some_or (in_setup_code row) EForbidden;
  let got := sha256 setup_code in
  _ ← need (bytes_eqb got want) EForbidden;
  payload ← lift (reg_parse_canonical payload_bytes);
  _ ← lift (srv_verify_registration payload sig);
  t ← now;
  account_id ← random_id16;
  device_id ← random_id16;
  _ ← random_id16;
  won ← call (CClaim account_id
                (mkAuthAccount (rp_ed25519_pub payload) (rp_x25519_pub payload) handle name AcActive true None payload_bytes sig t)
                device_id
                (mkAuthDevice account_id (rp_ed25519_pub payload) (rp_x25519_pub payload) DEVICE_APP None DvActive t None)
                got) as_bool;
  _ ← need won EConflict;
  mret (account_id, device_id).

(** the guards of [owner_set] and [account_status] against locking every owner out *)
Definition keep_an_owner (target : bytes) (acct : AuthAccount) : Prog unit :=
  inst ← call CInstance as_instance;
  _ ← need (negb (bool_decide (in_owner inst = Some target))) EForbidden;
  if ac_owner acct then
    n ← call COwnerCount as_count; need (negb (n <=? 1)%nat) EForbidden
  else mret tt.

Definition owner_set (raw target : bytes) (is_owner : bool) : Prog unit :=
  ctx ← resolve_bearer raw;
  _ ← require_owner ctx;
  acct ← get_account target;
  '(_, acct) ← some_or acct ENotFound;
  _ ← (if is_owner then mret tt else keep_an_owner target acct);
  call (CSetOwner target is_owner) as_unit.

Definition account_status (raw target : bytes) (disabled : bool) : Prog unit :=
  ctx ← resolve_bearer raw;
  _ ← require_owner ctx;
  acct ← get_account target;
  '(_, acct) ← some_or acct ENotFound;
  _ ← (if disabled then keep_an_owner target acct else mret tt);
  call (CSetStatus target (if disabled then AcDisabled else AcActive)) as_unit.

Definition session_revoke (raw session_id : bytes) : Prog unit :=
  ctx ← resolve_bearer raw;
  _ ← require_owner ctx;
  n ← call (CRevokeSession session_id) as_count;
  need (negb (n =? 0)%nat) ENotFound.

Definition oidc_callback (id_token payload_bytes sig : bytes) : Prog (bytes * bytes * SessionTokens) :=
  _ ← need (oidc_enabled cfg) ENotFound;
  t0 ← now;
  claims ← lift (verify_id_token t0 id_token);
  payload ← lift (reg_parse_canonical payload_bytes);
  _ ← lift (srv_verify_registration payload sig);
  let expected_nonce := b64 (sha256 (rp_ed25519_pub payload ++ rp_x25519_pub payload)) in
  _ ← need (bool_decide (cl_nonce claims = Some expected_nonce)) EForbidden;
  t ← now;
  existing ← call (CGetAccountByExternal (cl_iss claims, cl_sub claims)) as_account;
  '(account_id, is_new) ← (match existing with
    | Some (acc, acct) => _ ← need (bool_decide (ac_status acct = AcActive)) EForbidden; mret (acc, false)
    | None =>
        other ← call (CGetAccountByEd (rp_ed25519_pub payload)) as_account;
        _ ← need (bool_decide (other = None)) EConflict;
        acc ← random_id16;
        mret (acc, true)
    end : Prog (bytes * bool));
  device_id ← random_id16;
  let jti_key := match cl_jti claims with
                 | Some j => if bool_decide (j = []) then lit "h:" ++ b64 (sha256 id_token) else j
                 | None => lit "h:" ++ b64 (sha256 id_token)
                 end in
  fresh ← call (COidcLogin jti_key (cl_exp claims) t account_id
      (if is_new : bool then
         Some (mkAuthAccount (rp_ed25519_pub payload) (rp_x25519_pub payload) None (cl_name claims) AcActive false
                 (Some (cl_iss claims, cl_sub claims)) payload_bytes sig t)
       else None)
      device_id
      (mkAuthDevice account_id (rp_ed25519_pub payload) (rp_x25519_pub payload) DEVICE_APP None DvActive t None)) as_bool;
  _ ← need fresh EUnauthenticated;
  tokens ← mint_session account_id device_id SrcOidc (Some (t + max_reassertion_age cfg));
  mret (account_id, device_id, tokens).

Definition account_profile (raw : bytes) (name handle : option bytes) : Prog unit :=
  ctx ← resolve_bearer raw;
  let acc := se_account (cx_session ctx) in
  _ ← (match handle with
       | Some h => taken ← call (CHandleTaken h (Some acc)) as_bool; need (negb taken) EConflict
       | None => mret tt
       end : Prog unit);
  _ ← (match name with Some n => call (CSetName acc n) as_unit | None => mret tt end : Prog unit);
  match handle with Some h => call (CSetHandle acc h) as_unit | None => mret tt end.

(** the caller administers what an invite is for; [e] when not *)
Fixpoint admins_spaces (account : bytes) (check_role : bool) (l : list SpaceIntent) : Prog unit :=
  match l with
  | [] => mret tt
  | i :: l =>
      _ ← need (negb check_role || bytes_eqb (si_role i) (lit "member") || bytes_eqb (si_role i) (lit "admin")) EMalformed;
      b ← call (CSpaceAdmin (si_space_id i) account) as_bool;
      _ ← need b EForbidden;
      admins_spaces account check_role l
  end.
Fixpoint admins_vaults (account : bytes) (check_role : bool) (l : list VaultIntent) : Prog unit :=
  match l with
  | [] => mret tt
  | i :: l =>
      _ ← need (negb check_role || ((0 <=? vi_role i) && (vi_role i <=? 2))) EMalformed;
      b ← call (CVaultAdmin account (vi_vault_id i)) as_bool;
      _ ← need b EForbidden;
      admins_vaults account check_role l
  end.

(** the answer: the id and the token of the invite, and when it expires *)
Definition invite_issue_v2 (raw : bytes) (spaces : list SpaceIntent) (vaults : list VaultIntent) (ttl : option Z)
    : Prog (bytes * bytes * Z) :=
  ctx ← resolve_bearer raw;
  let acc := se_account (cx_session ctx) in
  _ ← need (match spaces with [] => false | _ => true end) EMalformed;
  _ ← admins_spaces acc true spaces;
  _ ← admins_vaults acc true vaults;
  let ttl := default (invite_default_ttl cfg) ttl in
  _ ← need (negb (ttl <=? 0)) EMalformed;
  t ← now;
  token ← random_bytes32;
  invite_id ← random_id16;
  _ ← call (CCreateInvite invite_id (mkInviteRow (sha256 token) spaces vaults (t + ttl) InPending None (Some acc) t)) as_unit;
  mret (invite_id, token, t + ttl).

Definition invite_revoke_v2 (raw invite_id : bytes) : Prog unit :=
  ctx ← resolve_bearer raw;
  let acc := se_account (cx_session ctx) in
  found ← call (CInviteById invite_id) as_invite;
  '(_, invite) ← some_or found ENotFound;
  owner ← account_is_owner acc;
  _ ← (if owner : bool then mret tt
       else _ ← admins_spaces acc false (iv_spaces invite); admins_vaults acc false (iv_vaults invite));
  n ← call (CRevokeInvite invite_id) as_count;
  need (n =? 1)%nat EConflict.

(** the spaces an invite is for; their names are looked up elsewhere *)
Definition join_preview (raw : bytes) : Prog (list SpaceIntent * Z) :=
  found ← call (CInviteByHash (sha256 raw)) as_invite;
  '(_, invite) ← some_or found ENotFound;
  _ ← need (bool_decide (iv_state invite = InPending)) EGone;
  t ← now;
  _ ← need (negb (iv_expires invite <=? t)) EGone;
  mret (iv_spaces invite, iv_expires invite).

(** memberships and grants of the joined spaces are part of the transaction *)
Definition join (token payload_bytes sig : bytes) (name handle : option bytes) : Prog (bytes * bytes) :=
  payload ← lift (reg_parse_canonical payload_bytes);
  _ ← lift (srv_verify_registration payload sig);
  t ← now;
  existing ← call (CGetAccountByEd (rp_ed25519_pub payload)) as_account;
  '(account_id, is_new) ← (match existing with
    | Some (acc, acct) => _ ← need (bool_decide (ac_status acct = AcActive)) EForbidden; mret (acc, false)
    | None =>
        _ ← (match handle with
             | Some h => taken ← call (CHandleTaken h None) as_bool; need (negb taken) EConflict
             | None => mret tt
             end : Prog unit);
        acc ← random_id16;
        mret (acc, true)
    end : Prog (bytes * bool));
  device_id ← random_id16;
  joined ← call (CJoin (sha256 token) t account_id
      (if is_new : bool then
         Some (mkAuthAccount (rp_ed25519_pub payload) (rp_x25519_pub payload) handle name AcActive false None payload_bytes sig t)
       else None)
      device_id
      (mkAuthDevice account_id (rp_ed25519_pub payload) (rp_x25519_pub payload) DEVICE_APP None DvActive t None)) as_bool;
  _ ← need joined EGone;
  mret (account_id, device_id).

Definition relay_open (raw : bytes) : Prog (bytes * Z) :=
  _ ← resolve_bearer raw;
  t ← now;
  channel_id ← random_id16;
  _ ← call (CRelayOpen channel_id (t + relay_ttl cfg)) as_unit;
  mret (channel_id, t + relay_ttl cfg).

Definition relay_channel (channel : bytes) : Prog RelayRow :=
  found ← call (CRelayGet channel) as_relay;
  row ← some_or found ENotFound;
  t ← now;
  _ ← need (negb (rl_expires row <=? t)) EGone;
  mret row.

Definition relay_put_slot (channel : bytes) (slot : RelaySlot) (msg : option bytes) : Prog unit :=
  _ ← relay_channel channel;
  msg ← some_or msg EMalformed;
  call (CRelayPut channel slot msg) as_unit.

(** [want]: [None] for a name that is not a slot *)
Definition relay_poll (channel : bytes) (want : option RelaySlot) : Prog (option bytes) :=
  row ← relay_channel channel;
  slot ← some_or want EMalformed;
  mret (match slot with Msg1 => rl_msg1 row | Msg2 => rl_msg2 row | Msg3 => rl_msg3 row end).

(** the janitor: [cleanup_expired] on the tables of this file *)
Definition cleanup_expired (t : Z) : Prog unit :=
  _ ← call (CDeleteNonces t) as_unit;
  _ ← call (CDeleteRelay t) as_unit;
  _ ← call (CExpireInvites t) as_unit;
  _ ← call (CDeleteSessions t) as_unit;
  _ ← call (CDeletePending t) as_unit;
  _ ← call (CStampRevoked t) as_unit;
  let cutoff := t - DEAD_DEVICE_RETENTION_SECONDS in
  _ ← call (CDeleteDeadSessions cutoff) as_unit;
  call (CDeleteDeadDevices cutoff) as_unit.

(** ** The server *)

Inductive Request :=
| RqChallenge (account_id device_id key_id : bytes)
| RqVerify (c : ServerAuthChallenge) (sig : bytes)
| RqRefresh (token : bytes)
| RqLogout (token : bytes)
| RqDeviceRevoke (token target : bytes)
| RqLabel (token : bytes) (label : option text)
| RqKeysetGet (token : bytes)
| RqKeysetPut (token blob : bytes) (escrow : option EscrowIn)
| RqDeviceAdd (token : bytes)
| RqSelfEnroll (kind : option bytes) (label : option text) (payload sig : bytes)
| RqClaim (setup_code payload sig : bytes) (name handle : option bytes)
| RqOwnerSet (token target : bytes) (is_owner : bool)
| RqAccountStatus (token target : bytes) (disabled : bool)
| RqSessionRevoke (token session_id : bytes)
| RqOidc (id_token payload sig : bytes)
| RqProfile (token : bytes) (name handle : option bytes)
| RqInvite (token : bytes) (spaces : list SpaceIntent) (vaults : list VaultIntent) (ttl : option Z)
| RqInviteRevoke (token invite_id : bytes)
| RqPreview (invite_token : bytes)
| RqJoin (invite_token payload sig : bytes) (name handle : option bytes)
| RqRelayOpen (token : bytes)
| RqRelayPut (channel : bytes) (slot : RelaySlot) (msg : option bytes)
| RqRelayPoll (channel : bytes) (want : option RelaySlot)
| RqOther (token : bytes)
| RqCleanup.

Inductive Response :=
| RsDone
| RsChallenge (c : ServerAuthChallenge)
| RsTokens (t : SessionTokens)
| RsKeyset (b : bytes) (g : Z)
| RsGeneration (g : Z)
| RsDevice (id : bytes)
| RsAccount (account device : bytes)
| RsInvite (id token : bytes) (expires_at : Z)
| RsPreview (spaces : list SpaceIntent) (expires_at : Z)
| RsChannel (id : bytes) (expires_at : Z)
| RsMessage (m : option bytes).

Definition reply {A} (p : Prog A) (f : A -> Response) : Prog Response := a ← p; mret (f a).

(** the handler of a request; [RqOther] stands for the handlers of the other modules, which
    begin by resolving the bearer of the request; the janitor reads the clock first *)
Definition serve (instance_id : bytes) (r : Request) : Prog Response :=
  match r with
  | RqChallenge a v k => reply (auth_challenge instance_id a v k) RsChallenge
  | RqVerify c sig => reply (auth_verify instance_id c sig) RsTokens
  | RqRefresh t => reply (session_refresh t) RsTokens
  | RqLogout t => reply (session_logout t) (fun _ => RsDone)
  | RqDeviceRevoke t v => reply (device_revoke t v) (fun _ => RsDone)
  | RqLabel t l => reply (device_label_self t l) (fun _ => RsDone)
  | RqKeysetGet t => reply (keyset_get t) (fun x => RsKeyset x.1 x.2)
  | RqKeysetPut t b e => reply (keyset_put t b e) RsGeneration
  | RqDeviceAdd t => reply (device_add t) RsDevice
  | RqSelfEnroll k l p sig => reply (device_self_enroll k l p sig) (fun x => RsAccount x.1 x.2)
  | RqClaim code p sig n h => reply (claim code p sig n h) (fun x => RsAccount x.1 x.2)
  | RqOwnerSet t a b => reply (owner_set t a b) (fun _ => RsDone)
  | RqAccountStatus t a b => reply (account_status t a b) (fun _ => RsDone)
  | RqSessionRevoke t s => reply (session_revoke t s) (fun _ => RsDone)
  | RqOidc tok p sig => reply (oidc_callback tok p sig) (fun x => RsTokens x.2)
  | RqProfile t n h => reply (account_profile t n h) (fun _ => RsDone)
  | RqInvite t s v ttl => reply (invite_issue_v2 t s v ttl) (fun x => RsInvite x.1.1 x.1.2 x.2)
  | RqInviteRevoke t i => reply (invite_revoke_v2 t i) (fun _ => RsDone)
  | RqPreview t => reply (join_preview t) (fun x => RsPreview x.1 x.2)
  | RqJoin t p sig n h => reply (join t p sig n h) (fun x => RsAccount x.1 x.2)
  | RqRelayOpen t => reply (relay_open t) (fun x => RsChannel x.1 x.2)
  | RqRelayPut c s m => reply (relay_put_slot c s m) (fun _ => RsDone)
  | RqRelayPoll c w => reply (relay_poll c w) RsMessage
  | RqOther t => reply (resolve_bearer t) (fun _ => RsDone)
  | RqCleanup => reply (t ← now; cleanup_expired t) (fun _ => RsDone)
  end.
End handlers.

(** a request in progress: what it asks, its calls so far with their answers, what is left of it *)
Record Thread := mkThread { th_request : Request; th_trace : list (Call * Answer); th_prog : Prog Response }.

Record Server := mkServer {
  sv_db : AuthDB;
  sv_clock : Z;
  sv_drawn : gset bytes;
  sv_threads : gmap N Thread
}.

Inductive ServerStep :=
| EvStart (n : N) (r : Request)
| EvCall (n : N) (random : bytes) (others : bool)
| EvTick (seconds : N).

Section machine.
Context `{P : CryptoPrims} (cfg : AuthConfig).
Context (verify_id_token : Z -> bytes -> result ErrorCode IdClaims) (b64 : bytes -> bytes).
(** [AppState.instance_id] *)
Context (instance_id : bytes).

Definition answered (n : N) (th : Thread) (c : Call) (k : Answer -> Prog Response) (a : Answer) (db : AuthDB)
    (drawn : gset bytes) (s : Server) : Server :=
  mkServer db (sv_clock s) drawn
    (<[n := mkThread (th_request th) (th_trace th ++ [(c, a)]) (k a)]> (sv_threads s)).

(** the generator gives as many bytes as asked for and does not repeat itself *)
Definition step (s : Server) (e : ServerStep) : Server :=
  match e with
  | EvStart n r =>
      match sv_threads s !! n with
      | Some _ => s
      | None => mkServer (sv_db s) (sv_clock s) (sv_drawn s)
                  (<[n := mkThread r [] (serve cfg verify_id_token b64 instance_id r)]> (sv_threads s))
      end
  | EvCall n random others =>
      match sv_threads s !! n with
      | Some th =>
          match th_prog th with
          | Do (CRandom len) k =>
              if bool_decide (length random = len) && negb (bool_decide (random ∈ sv_drawn s))
              then answered n th (CRandom len) k (ABytes random) (sv_db s) ({[random]} ∪ sv_drawn s) s
              else s
          | Do c k => let '(a, db) := run_call others (sv_clock s) c (sv_db s) in answered n th c k a db (sv_drawn s) s
          | Ret _ => s
          end
      | None => s
      end
  | EvTick seconds => mkServer (sv_db s) (sv_clock s + Z.of_N seconds) (sv_drawn s) (sv_threads s)
  end.

Definition run_server (s : Server) (evs : list ServerStep) : Server := foldl step s evs.

Definition fresh_server (setup_code : option bytes) (clock : Z) : Server :=
  mkServer (mkAuthDB ∅ ∅ ∅ ∅ ∅ ∅ ∅ ∅ (mkInstanceRow instance_id false None setup_code)) clock ∅ ∅.
End machine.
