(* ===== verification/ServerAuthInv.v ===== *)
(** * What the requests of [ServerAuth] do, call by call

    A weakest precondition for programs ([wp]): what holds before each call of a request,
    given its calls so far. [call_ok] says what the handlers have made sure of before the
    calls that matter, [served] what a request that succeeds has seen; every request
    satisfies them ([serve_ok]). *)

From Stdlib Require Import Strings.String Strings.Byte NArith ZArith Lia.
From stdpp Require Import base gmap sets list strings sorting countable.
From S2P Require Import Prelude Bytes CryptoPrims Crypto Storage AuthPayloads ServerCodec ServerAuth.

Local Open Scope Z_scope.

Definition Trace : Type := list (Call * Answer).

(** ** Programs *)

Section wp.
Context (Q : Trace -> Call -> Prop).

(** each call satisfies [Q] after the calls before it, and a result satisfies [R] *)
Fixpoint wp {A} (own : Trace) (p : Prog A) (R : Trace -> A -> Prop) : Prop :=
  match p with
  | Ret (Ok a) => R own a
  | Ret (Err _) => True
  | Do c k => Q own c /\ forall a, wp (own ++ [(c, a)]) (k a) R
  end.

Lemma wp_bind {A B} (p : Prog A) (f : A -> Prog B) own R :
  wp own p (fun own a => wp own (f a) R) -> wp own (p ≫= f) R.
Proof.
  revert own. induction p as [[a|e]|c k IH]; intros own H; [done|done|].
  destruct H as [HQ H]. split; [done|]. intros a. by apply IH.
Qed.

Lemma wp_weaken {A} (p : Prog A) own (R R' : Trace -> A -> Prop) :
  wp own p R -> (forall own a, R own a -> R' own a) -> wp own p R'.
Proof.
  intros H HR. revert own H. induction p as [[a|e]|c k IH]; intros own; cbn; [auto|done|].
  intros [HQ H]. split; [done|]. intros a. by apply IH.
Qed.

Lemma wp_call {A} c (k : Answer -> option A) own R :
  Q own c -> (forall a x, k a = Some x -> (forall e, a <> AFail e) -> R (own ++ [(c, a)]) x) -> wp own (call c k) R.
Proof.
  intros HQ H. split; [done|]. intros a.
  destruct a; cbn; try done; match goal with |- wp _ (some_or (k ?a) _) _ => destruct (k a) as [x|] eqn:E end;
    cbn; try done; by apply (H _ x E).
Qed.

Lemma wp_need b e own R : (b = true -> R own tt) -> wp own (need b e) R.
Proof. destruct b; cbn; auto. Qed.
Lemma wp_some_or {A} (o : option A) e own R : (forall a, o = Some a -> R own a) -> wp own (some_or o e) R.
Proof. destruct o; cbn; auto. Qed.
Lemma wp_lift {A} (r : result ErrorCode A) own R : (forall a, r = Ok a -> R own a) -> wp own (lift r) R.
Proof. destruct r; cbn; auto. Qed.
Lemma wp_ret {A} (a : A) own (R : Trace -> A -> Prop) : R own a -> wp own (mret a) R.
Proof. done. Qed.
Lemma wp_reply {A} (p : Prog A) f own R : wp own p (fun own a => R own (f a)) -> wp own (reply p f) R.
Proof. intros H. apply wp_bind. eapply wp_weaken; [done|]. by cbn. Qed.
End wp.

(** the calls made by a program: [p] with these answers comes to [q] *)
Fixpoint runs {A} (p : Prog A) (tr : Trace) (q : Prog A) {struct tr} : Prop :=
  match tr with
  | [] => p = q
  | (c, a) :: tr => match p with Do c' k => c = c' /\ runs (k a) tr q | Ret _ => False end
  end.

Lemma runs_snoc {A} (p : Prog A) tr c k a : runs p tr (Do c k) -> runs p (tr ++ [(c, a)]) (k a).
Proof.
  revert p. induction tr as [|[c' a'] tr IH]; intros p; cbn.
  - by intros ->.
  - destruct p as [r|c'' k']; [done|]. intros [-> H]. split; [done|by apply IH].
Qed.

(** one step of symbolic execution *)
Ltac wp_step :=
  match goal with
  | |- wp _ _ (mbind _ _) _ => apply wp_bind
  | |- wp _ _ (need _ _) _ => apply wp_need; intro
  | |- wp _ _ (some_or _ _) _ => apply wp_some_or; intros
  | |- wp _ _ (lift _) _ => apply wp_lift; intros
  | |- wp _ _ (mret _) _ => apply wp_ret
  | |- wp _ _ (fail _) _ => exact I
  | |- wp _ _ (let '(_, _) := ?x in _) _ => is_var x; destruct x
  end.

(** ** What the handlers have made sure of *)

(** the calls a request makes at most once *)
Inductive CallKind := KFind | KNonce | KConsume | KMint | KDevice | KInvite.
Definition kind (c : Call) : option CallKind :=
  match c with
  | CFindByAccess _ | CFindSession _ => Some KFind
  | CInsertNonce _ _ _ => Some KNonce
  | CConsumeNonce _ _ _ => Some KConsume
  | CCreateSession _ _ | CRotateSession _ _ _ _ _ _ => Some KMint
  | CCreateDevice _ _ | CClaim _ _ _ _ _ | COidcLogin _ _ _ _ _ _ _ | CJoin _ _ _ _ _ _ => Some KDevice
  | CCreateInvite _ _ => Some KInvite
  | _ => None
  end.
(** calls that enter nothing *)
Definition minor (c : Call) : bool := match kind c with None | Some KFind => true | _ => false end.
Definition none_of (k : CallKind) (own : Trace) : Prop := forall c a, (c, a) ∈ own -> kind c <> Some k.

(** the device that a call enters *)
Definition entered_device (c : Call) : option bytes :=
  match c with
  | CCreateDevice id _ | CClaim _ _ id _ _ | COidcLogin _ _ _ _ _ id _ | CJoin _ _ _ _ id _ => Some id
  | _ => None
  end.

Definition drew (own : Trace) (n : nat) (b : bytes) : Prop := (CRandom n, ABytes b) ∈ own.

(** a call was made and did not fail *)
Definition did (own : Trace) (c : Call) : Prop := exists a, (c, a) ∈ own /\ forall e, a <> AFail e.

(** the bearer token of a request *)
Definition bearer_of (r : Request) : option bytes :=
  match r with
  | RqLogout t | RqDeviceRevoke t _ | RqLabel t _ | RqKeysetGet t | RqKeysetPut t _ _ | RqDeviceAdd t | RqOwnerSet t _ _
  | RqAccountStatus t _ _ | RqSessionRevoke t _ | RqProfile t _ _ | RqInvite t _ _ _ | RqInviteRevoke t _ | RqRelayOpen t
  | RqOther t => Some t
  | RqChallenge _ _ _ | RqVerify _ _ | RqRefresh _ | RqSelfEnroll _ _ _ _ | RqClaim _ _ _ _ _ | RqOidc _ _ _
  | RqPreview _ | RqJoin _ _ _ _ _ | RqRelayPut _ _ _ | RqRelayPoll _ _ | RqCleanup => None
  end.

Section handlers.
Context `{P : CryptoPrims} (cfg : AuthConfig).
Context (verify_id_token : Z -> bytes -> result ErrorCode IdClaims) (b64 : bytes -> bytes) (iid : bytes).

(** a sign-in with the key of a device: its challenge was signed, and its nonce consumed *)
Definition signed_in (rq : Request) (own : Trace) (account device : bytes) : Prop :=
  exists c sig v t t', rq = RqVerify c sig /\ ch_host c = iid /\ ch_account_id c = account /\ ch_device_id c = device /\
    dv_account v = account /\ dv_status v <> DvRevoked /\ past t' (dv_expires v) = false /\ (CNow, ATime t') ∈ own /\
    (CGetDevice device, ADevice (Some v)) ∈ own /\ srv_verify_server_auth (dv_ed v) c sig = Ok tt /\
    (CConsumeNonce (ch_nonce c) device t, ABool true) ∈ own.

(** a sign-in through the identity provider, bound to the key of the device it enters *)
Definition oidc_in (rq : Request) (own : Trace) (account device : bytes) : Prop :=
  exists t t' idt payload sig claims p jti new v, rq = RqOidc idt payload sig /\ oidc_enabled cfg = true /\
    verify_id_token t idt = Ok claims /\ reg_parse_canonical payload = Ok p /\ srv_verify_registration p sig = Ok tt /\
    cl_nonce claims = Some (b64 (sha256 (rp_ed25519_pub p ++ rp_x25519_pub p))) /\
    dv_ed v = rp_ed25519_pub p /\ dv_account v = account /\
    (COidcLogin jti (cl_exp claims) t' account new device v, ABool true) ∈ own.

(** a session that was accepted as the bearer of a request *)
Definition bearer (own : Trace) (raw sid : bytes) (s : AuthSession) (v : AuthDevice) : Prop :=
  (CFindByAccess (sha256 raw), ASession (Some (sid, s))) ∈ own /\ se_revoked s = false /\
  (CGetDevice (se_device s), ADevice (Some v)) ∈ own /\ dv_status v = DvActive /\
  (CAccountIsActive (se_account s), ABool true) ∈ own /\ exists t, (CNow, ATime t) ∈ own /\ t < se_access_expires s.
Definition borne (rq : Request) (own : Trace) (account : bytes) : Prop :=
  exists raw sid s v, bearer_of rq = Some raw /\ bearer own raw sid s v /\ se_account s = account.
Definition owner_borne (rq : Request) (own : Trace) : Prop :=
  exists account, borne rq own account /\ (CAccountIsOwner account, ABool true) ∈ own.

(** a refresh token that was accepted *)
Definition refreshable (own : Trace) (raw : bytes) (s : AuthSession) : Prop :=
  exists sid v t, (CFindSession (take 16 raw), ASession (Some (sid, s))) ∈ own /\ se_revoked s = false /\
    se_refresh_hash s = sha256 raw /\ (CGetDevice (se_device s), ADevice (Some v)) ∈ own /\ (CNow, ATime t) ∈ own /\
    past t (dv_expires v) = false /\ (CAccountIsActive (se_account s), ABool true) ∈ own.

(** the role of an account may be lowered: it is not the owner who claimed the server *)
Definition not_claimer (own : Trace) (id : bytes) : Prop :=
  exists own1 own2 i, own = own1 ++ (CInstance, AInstance i) :: own2 /\
    (exists x, (CGetAccount id, AAccount (Some x)) ∈ own1) /\ in_owner i <> Some id.

(** a device of an account has the key of the account *)
Definition keyed (own : Trace) (v : AuthDevice) : Prop :=
  (exists id acct, (CGetAccount (dv_account v), AAccount (Some (id, acct))) ∈ own /\ dv_ed v = ac_ed acct) \/
  (exists acct, (CGetAccountByEd (dv_ed v), AAccount (Some (dv_account v, acct))) ∈ own).

Definition call_ok (rq : Request) (own : Trace) (c : Call) : Prop :=
  match c with
  | CFindByAccess _ | CFindSession _ => none_of KFind own
  | CInsertNonce nonce device _ => drew own 32 nonce /\ none_of KNonce own /\ exists a k, rq = RqChallenge a device k
  | CConsumeNonce _ _ _ => none_of KConsume own
  | CCreateSession id row =>
      none_of KMint own /\ se_revoked row = false /\ drew own 16 id /\
      (exists access secret, drew own 32 access /\ drew own 32 secret /\ se_access_hash row = sha256 access /\
         se_refresh_hash row = sha256 (build_refresh_token id secret)) /\
      match se_source row with
      | SrcKeyset => signed_in rq own (se_account row) (se_device row)
      | SrcOidc => oidc_in rq own (se_account row) (se_device row)
      end
  | CRotateSession id expected access_hash refresh_hash _ _ =>
      none_of KMint own /\
      exists raw s access secret, rq = RqRefresh raw /\ id = take 16 raw /\ expected = sha256 raw /\ refreshable own raw s /\
        drew own 32 access /\ drew own 32 secret /\ access_hash = sha256 access /\
        refresh_hash = sha256 (build_refresh_token id secret)
  | CCreateDevice id v => none_of KDevice own /\ drew own 16 id /\ keyed own v
  | CClaim id row device v code =>
      none_of KDevice own /\ drew own 16 device /\ dv_account v = id /\ dv_ed v = ac_ed row /\ ac_owner row = true /\ ac_status row = AcActive /\
      exists setup_code payload sig name handle, rq = RqClaim setup_code payload sig name handle /\ code = sha256 setup_code
  | COidcLogin _ _ _ _ _ device _ => none_of KDevice own /\ drew own 16 device
  | CJoin hash _ id new device v =>
      none_of KDevice own /\ drew own 16 device /\ dv_account v = id /\
      match new with Some row => dv_ed v = ac_ed row | None => keyed own v end /\
      exists token payload sig name handle, rq = RqJoin token payload sig name handle /\ hash = sha256 token
  | CRevokeDevice id t =>
      (CNow, ATime t) ∈ own /\
      exists v, (CGetDevice id, ADevice (Some v)) ∈ own /\ (borne rq own (dv_account v) \/ owner_borne rq own)
  | CRevokeSession id =>
      (exists raw row v, bearer_of rq = Some raw /\ bearer own raw id row v) \/
      ((exists raw, rq = RqSessionRevoke raw id) /\ owner_borne rq own) \/
      exists raw sid row, rq = RqRefresh raw /\ id = take 16 raw /\ (CFindSession id, ASession (Some (sid, row))) ∈ own /\
        se_revoked row = false /\ se_refresh_hash row <> sha256 raw
  | CSetOwner id b => owner_borne rq own /\ (b = false -> not_claimer own id)
  | CSetStatus id st => owner_borne rq own /\ (st = AcDisabled -> not_claimer own id)
  | CPutKeyset account _ _ | CSetName account _ | CSetHandle account _ => borne rq own account
  | CSetLabel device _ => exists raw sid s v, bearer_of rq = Some raw /\ bearer own raw sid s v /\ se_device s = device
  | CCreateInvite id row =>
      none_of KInvite own /\ drew own 16 id /\ iv_state row = InPending /\
      (exists token, drew own 32 token /\ iv_token_hash row = sha256 token) /\
      exists account, borne rq own account /\ iv_created_by row = Some account /\
        (forall i, i ∈ iv_spaces row -> (CSpaceAdmin (si_space_id i) account, ABool true) ∈ own) /\
        (forall i, i ∈ iv_vaults row -> (CVaultAdmin account (vi_vault_id i), ABool true) ∈ own)
  | _ => True
  end.

(** what a request that succeeded has seen *)
Definition served (rq : Request) (own : Trace) (rs : Response) : Prop :=
  (forall raw, bearer_of rq = Some raw -> exists sid s v, bearer own raw sid s v) /\
  match rq with
  | RqVerify c sig => signed_in rq own (ch_account_id c) (ch_device_id c)
  | RqRefresh raw =>
      (exists s, refreshable own raw s) /\
      exists ah rh ae re, (CRotateSession (take 16 raw) (sha256 raw) ah rh ae re, ACount 1) ∈ own
  | RqLogout _ => exists raw sid s v, bearer own raw sid s v /\ did own (CRevokeSession sid)
  | RqDeviceRevoke _ target => exists t, did own (CRevokeDevice target t)
  | RqKeysetGet _ =>
      exists account g k, borne rq own account /\ (CLatestKeyset account, AKeyset (Some (g, k))) ∈ own /\ rs = RsKeyset (kb_bytes k) g
  | RqKeysetPut _ blob _ =>
      exists account g k, borne rq own account /\ did own (CPutKeyset account g k) /\ rs = RsGeneration g /\ kb_bytes k = blob
  | RqSessionRevoke _ sid => exists n, (CRevokeSession sid, ACount n) ∈ own /\ n <> 0%nat
  | RqInvite _ _ _ _ =>
      exists id token e row, rs = RsInvite id token e /\ did own (CCreateInvite id row) /\ iv_token_hash row = sha256 token
  | RqInviteRevoke _ id => (CRevokeInvite id, ACount 1) ∈ own
  | RqJoin token _ _ _ _ => exists t account new device v, (CJoin (sha256 token) t account new device v, ABool true) ∈ own
  | _ => True
  end.

(** ** Proving it *)

Section rules.
Context (rq : Request).

Lemma call_quiet c own :
  match c with
  | CFindByAccess _ | CFindSession _ | CInsertNonce _ _ _ | CConsumeNonce _ _ _ | CCreateSession _ _ | CRotateSession _ _ _ _ _ _ | CCreateDevice _ _
  | CClaim _ _ _ _ _ | COidcLogin _ _ _ _ _ _ _ | CJoin _ _ _ _ _ _ | CRevokeDevice _ _ | CRevokeSession _ | CSetOwner _ _ | CSetStatus _ _
  | CPutKeyset _ _ _ | CSetName _ _ | CSetHandle _ _ | CSetLabel _ _ | CCreateInvite _ _ => False
  | _ => True
  end -> call_ok rq own c.
Proof. by destruct c. Qed.

Lemma wp_made {A} c (k : Answer -> option A) own R :
  call_ok rq own c -> (forall a x, k a = Some x -> did (own ++ [(c, a)]) c -> R (own ++ [(c, a)]) x) ->
  wp (call_ok rq) own (call c k) R.
Proof.
  intros H HR. apply wp_call; [done|]. intros a x Hx Ha. apply HR; [done|].
  exists a. split; [apply elem_of_app; right; by apply list_elem_of_singleton|done].
Qed.

(** the answer a method gives has its shape *)
Lemma as_session_Some a r : as_session a = Some r -> a = ASession r.
Proof. destruct a; cbn; congruence. Qed.
Lemma as_device_Some a r : as_device a = Some r -> a = ADevice r.
Proof. destruct a; cbn; congruence. Qed.
Lemma as_time_Some a t : as_time a = Some t -> a = ATime t.
Proof. destruct a; cbn; congruence. Qed.
Lemma as_bytes_Some a b : as_bytes a = Some b -> a = ABytes b.
Proof. destruct a; cbn; congruence. Qed.
Lemma as_bool_Some a b : as_bool a = Some b -> a = ABool b.
Proof. destruct a; cbn; congruence. Qed.
Lemma as_account_Some a r : as_account a = Some r -> a = AAccount r.
Proof. destruct a; cbn; congruence. Qed.
Lemma as_instance_Some a r : as_instance a = Some r -> a = AInstance r.
Proof. destruct a; cbn; congruence. Qed.
Lemma as_count_Some a n : as_count a = Some n -> a = ACount n.
Proof. destruct a; cbn; congruence. Qed.
Lemma as_keyset_Some a r : as_keyset a = Some r -> a = AKeyset r.
Proof. destruct a; cbn; congruence. Qed.
Lemma as_invite_Some a r : as_invite a = Some r -> a = AInvite r.
Proof. destruct a; cbn; congruence. Qed.

Lemma elem_snoc {A} (l : list A) x y : x ∈ l ++ [y] <-> x ∈ l \/ x = y.
Proof. rewrite elem_of_app, list_elem_of_singleton. done. Qed.

Lemma did_mono own own' c : own ⊆ own' -> did own c -> did own' c.
Proof. intros H (a & Hin & Ha). exists a. split; [by apply H|done]. Qed.

Lemma none_of_nil k : none_of k [].
Proof. by intros c a ?%not_elem_of_nil. Qed.
Lemma none_of_snoc k own c a : none_of k (own ++ [(c, a)]) <-> none_of k own /\ kind c <> Some k.
Proof.
  unfold none_of. split.
  - intros H. split; [intros c' a' Hin|]; eapply H; apply elem_snoc; [left; exact Hin|by right].
  - intros [H Hc] c' a' [Hin|[= -> ->]]%elem_snoc; eauto.
Qed.

(** later calls of a trace, none of which is made once only *)
Definition later (own own' : Trace) : Prop := exists ext, own' = own ++ ext /\ forall c a, (c, a) ∈ ext -> minor c = true.

Lemma later_refl own : later own own.
Proof. exists []. rewrite app_nil_r. split; [done|]. by intros c a ?%not_elem_of_nil. Qed.
Lemma later_snoc own own' c a : later own own' -> minor c = true -> later own (own' ++ [(c, a)]).
Proof.
  intros (ext & -> & H) Hc. exists (ext ++ [(c, a)]). rewrite app_assoc. split; [done|].
  intros c' a' [Hin|[= -> ->]]%elem_snoc; eauto.
Qed.
Lemma later_trans own1 own2 own3 : later own1 own2 -> later own2 own3 -> later own1 own3.
Proof.
  intros (e1 & -> & H1) (e2 & -> & H2). exists (e1 ++ e2). rewrite app_assoc. split; [done|].
  intros c a [Hin|Hin]%elem_of_app; eauto.
Qed.
Lemma later_in own own' x : later own own' -> x ∈ own -> x ∈ own'.
Proof. intros (ext & -> & _) Hin. apply elem_of_app. by left. Qed.
Lemma later_none_of k own own' : later own own' -> k <> KFind -> none_of k own -> none_of k own'.
Proof.
  intros (ext & -> & H) Hk Hn c a [Hin|Hin]%elem_of_app; [eauto|]. specialize (H c a Hin). unfold minor in H.
  destruct (kind c) as [[]|]; congruence.
Qed.

Lemma bearer_mono own own' raw sid s v : own ⊆ own' -> bearer own raw sid s v -> bearer own' raw sid s v.
Proof. intros H (?&?&?&?&?&t&?&?). repeat split; auto. exists t. auto. Qed.
Lemma borne_mono own own' acc : own ⊆ own' -> borne rq own acc -> borne rq own' acc.
Proof. intros H (raw & sid & s & v & ? & ? & ?). exists raw, sid, s, v. split_and!; [done| |done]. by eapply bearer_mono. Qed.
Lemma owner_borne_mono own own' : own ⊆ own' -> owner_borne rq own -> owner_borne rq own'.
Proof. intros H (acc & Hb & Ho). exists acc. split; [by eapply borne_mono|auto]. Qed.
Lemma signed_in_mono own own' acc dev : own ⊆ own' -> signed_in rq own acc dev -> signed_in rq own' acc dev.
Proof. intros H (c&sig&v&t&t'&?&?&?&?&?&?&?&?&?&?&?). exists c, sig, v, t, t'. split_and!; auto. Qed.
Lemma oidc_in_mono own own' acc dev : own ⊆ own' -> oidc_in rq own acc dev -> oidc_in rq own' acc dev.
Proof.
  intros H (t&t'&idt&pl&sig&cl&p&jti&new&v&?&?&?&?&?&?&?&?&?). exists t, t', idt, pl, sig, cl, p, jti, new, v. split_and!; auto.
Qed.
Lemma snoc_sub (own : Trace) x : own ⊆ own ++ [x].
Proof. intros y Hy. apply elem_snoc. by left. Qed.
Lemma later_sub own own' : later own own' -> own ⊆ own'.
Proof. intros H x. by apply later_in. Qed.
Lemma sub_snoc (own own' : Trace) x : own ⊆ own' -> own ⊆ own' ++ [x].
Proof. intros H y Hy. apply elem_snoc. left. auto. Qed.
Lemma sub_refl (own : Trace) : own ⊆ own.
Proof. by intros x. Qed.
End rules.
End handlers.

Create HintDb trace.
#[export] Hint Resolve snoc_sub sub_snoc sub_refl later_sub none_of_nil later_refl : trace.

(** the facts of a trace *)
Ltac in_own :=
  solve [repeat first [assumption | apply elem_snoc; right; reflexivity | apply elem_snoc; left | eapply later_in; [eassumption|]]].
Ltac sub_own := solve [repeat first [apply sub_refl | eassumption | apply sub_snoc | eapply later_sub; eassumption]].
Ltac none_own := solve [repeat first [apply none_of_nil | apply none_of_snoc; split; [|by cbn] | eapply later_none_of; [eassumption|done|] | assumption]].
Ltac later_own := solve [repeat first [apply later_refl | eassumption | apply later_snoc; [|done]]].
Ltac shape :=
  repeat match goal with
  | H : as_session ?a = Some _ |- _ => apply as_session_Some in H; subst a
  | H : as_device ?a = Some _ |- _ => apply as_device_Some in H; subst a
  | H : as_time ?a = Some _ |- _ => apply as_time_Some in H; subst a
  | H : as_bytes ?a = Some _ |- _ => apply as_bytes_Some in H; subst a
  | H : as_bool ?a = Some _ |- _ => apply as_bool_Some in H; subst a
  | H : as_account ?a = Some _ |- _ => apply as_account_Some in H; subst a
  | H : as_instance ?a = Some _ |- _ => apply as_instance_Some in H; subst a
  | H : as_count ?a = Some _ |- _ => apply as_count_Some in H; subst a
  | H : as_keyset ?a = Some _ |- _ => apply as_keyset_Some in H; subst a
  | H : as_invite ?a = Some _ |- _ => apply as_invite_Some in H; subst a
  end.
(** a call, whose condition is left to prove *)
Ltac wp_made := apply wp_made; [|intros ?a ?x ?Hx ?Hd; shape].
(** a call without conditions *)
Ltac wp_read := apply wp_made; [by apply call_quiet|intros ?a ?x ?Hx ?Hd; shape].
Ltac guards :=
  repeat match goal with
  | H : bool_decide _ = true |- _ => apply bool_decide_eq_true in H
  | H : negb _ = true |- _ => apply negb_true_iff in H
  | H : bytes_eqb _ _ = true |- _ => apply bytes_eqb_true in H
  end.
(** a bool or an optional row that a guard has tested *)
Ltac tested :=
  repeat match goal with
  | H : ?x = Some _ |- _ => is_var x; subst x
  | H : ?x = true |- _ => is_var x; subst x
  | H : ?x = false |- _ => is_var x; subst x
  | u : unit |- _ => destruct u
  end.
Ltac wp_go := repeat first [wp_step | wp_read]; guards; tested.

(** ** The handlers *)

Section served.
Context `{P : CryptoPrims} (cfg : AuthConfig).
Context (verify_id_token : Z -> bytes -> result ErrorCode IdClaims) (b64 : bytes -> bytes) (iid : bytes).
#[local] Abbreviation ok := (call_ok cfg verify_id_token b64 iid).
#[local] Abbreviation result_ok := (served iid).

Lemma wp_bearer rq own raw R :
  none_of KFind own -> (forall own' ctx, later own own' -> bearer own' raw (cx_session_id ctx) (cx_session ctx) (cx_device ctx) -> R own' ctx) ->
  wp (ok rq) own (resolve_bearer raw) R.
Proof.
  intros Hf HR. unfold resolve_bearer, now, get_device, account_is_active.
  wp_step. wp_made; [done|]. wp_step. wp_step. wp_step. subst x.
  wp_step. wp_step. wp_step. wp_read. wp_step. wp_step. wp_step. wp_read. wp_step. wp_step. subst x0.
  wp_step. wp_step. guards. apply Z.ltb_lt in H0.
  wp_step. destruct (dv_expires a0) as [e|] eqn:He; wp_go; subst;
    (apply HR; cbn; [later_own|]);
    (split_and!; [in_own|done|in_own|done|in_own|]); match goal with H : ?t < se_access_expires _ |- _ => exists t end; (split; [in_own|done]).
Qed.

Lemma wp_owner rq own ctx raw R :
  bearer_of rq = Some raw -> bearer own raw (cx_session_id ctx) (cx_session ctx) (cx_device ctx) ->
  (forall own', later own own' -> owner_borne rq own' -> R own' tt) -> wp (ok rq) own (require_owner ctx) R.
Proof.
  intros Hr Hb HR. unfold require_owner, account_is_owner. wp_step. wp_read. wp_step. subst.
  apply HR; [apply later_snoc; [apply later_refl|done]|]. eexists. split; [|in_own].
  exists raw, (cx_session_id ctx), (cx_session ctx), (cx_device ctx). split_and!; [done| |done].
  eapply bearer_mono; [|done]. sub_own.
Qed.

Lemma wp_mint rq own account device src reassert R :
  none_of KMint own ->
  match src with SrcKeyset => signed_in iid rq own account device | SrcOidc => oidc_in cfg verify_id_token b64 rq own account device end ->
  (forall own' a, own ⊆ own' -> R own' a) -> wp (ok rq) own (mint_session cfg account device src reassert) R.
Proof.
  intros Hn Hs HR. unfold mint_session, now, random_bytes32, random_id16.
  do 4 (wp_step; wp_read). wp_step. wp_made.
  - cbn. split_and!; [none_own|done|in_own| |].
    + eexists _, _. split_and!; [| |reflexivity|reflexivity]; in_own.
    + destruct src; [eapply signed_in_mono; [|exact Hs]|eapply oidc_in_mono; [|exact Hs]]; sub_own.
  - wp_step. apply HR. sub_own.
Qed.

Lemma wp_challenge a v k : wp (ok (RqChallenge a v k)) [] (auth_challenge cfg iid a v k) (fun _ _ => True).
Proof.
  unfold auth_challenge, now, get_device, random_bytes32. wp_go. wp_made; [|by wp_step].
  split_and!; [in_own|none_own|eauto].
Qed.

Lemma wp_verify c sig :
  wp (ok (RqVerify c sig)) [] (auth_verify cfg iid c sig)
    (fun own _ => signed_in iid (RqVerify c sig) own (ch_account_id c) (ch_device_id c)).
Proof.
  unfold auth_verify, now, get_device, account_is_active. wp_go.
  wp_made; [none_own|]. wp_go.
  match goal with |- wp _ ?own _ _ => assert (signed_in iid (RqVerify c sig) own (ch_account_id c) (ch_device_id c)) as Hs end.
  { eexists c, sig, _, _, _. split_and!; try done; in_own. }
  destruct (is_pending _); wp_go;
    (apply wp_mint; [none_own| |intros own' ? Hsub]; cbv beta iota; (eapply signed_in_mono; [|exact Hs]); [sub_own|]);
    intros ? ?; apply Hsub; in_own.
Qed.

Lemma wp_refresh raw :
  wp (ok (RqRefresh raw)) [] (session_refresh cfg raw) (fun own _ => result_ok (RqRefresh raw) own RsDone).
Proof.
  unfold session_refresh, now, get_device, account_is_active, random_bytes32. wp_go. wp_made; [none_own|]. wp_go.
  destruct x as [[sid s]|]; [|done]. match goal with H : snd <$> _ = Some _ |- _ => injection H as <- end.
  destruct (bytes_eqb (se_refresh_hash s) (sha256 raw)) eqn:He.
  2:{ wp_go. wp_made; [|by wp_go]. right; right. exists raw, sid, s. split_and!; [done|done|in_own|done|].
      intros Heq. rewrite Heq, bytes_eqb_refl in He. done. }
  wp_go.
  match goal with |- wp _ ?own _ _ => assert (refreshable own raw s) as Hr end.
  { eexists sid, _, _. split_and!; try done; in_own. }
  wp_made.
  - split; [none_own|]. eexists raw, s, _, _. split_and!; try done; in_own.
  - wp_go. match goal with H : (_ =? 1)%nat = true |- _ => apply Nat.eqb_eq in H as -> end.
    split; [done|]. split; [|eexists _, _, _, _; in_own].
    exists s. destruct Hr as (sid' & v & t & Hr). exists sid', v, t. destruct_and! Hr. split_and!; try done; in_own.
Qed.

(** a request with a bearer that made it *)
Lemma served_bearer (rq : Request) own own' raw sid s v rs :
  bearer_of rq = Some raw -> bearer own raw sid s v -> own ⊆ own' ->
  (bearer own' raw sid s v -> borne rq own' (se_account s) ->
   match rq with
   | RqLogout _ => exists raw sid s v, bearer own' raw sid s v /\ did own' (CRevokeSession sid)
   | RqDeviceRevoke _ target => exists t, did own' (CRevokeDevice target t)
   | RqKeysetGet _ =>
       exists account g k, borne rq own' account /\ (CLatestKeyset account, AKeyset (Some (g, k))) ∈ own' /\ rs = RsKeyset (kb_bytes k) g
   | RqKeysetPut _ blob _ =>
       exists account g k, borne rq own' account /\ did own' (CPutKeyset account g k) /\ rs = RsGeneration g /\ kb_bytes k = blob
   | RqSessionRevoke _ sid => exists n, (CRevokeSession sid, ACount n) ∈ own' /\ n <> 0%nat
   | RqInvite _ _ _ _ =>
       exists id token e row, rs = RsInvite id token e /\ did own' (CCreateInvite id row) /\ iv_token_hash row = sha256 token
   | RqInviteRevoke _ id => (CRevokeInvite id, ACount 1) ∈ own'
   | _ => True
   end) -> result_ok rq own' rs.
Proof.
  intros Hr Hb Hs H. apply (bearer_mono _ own') in Hb; [|done]. split.
  - rewrite Hr. intros ? [= <-]. eauto.
  - assert (borne rq own' (se_account s)) as Hbn by (exists raw, sid, s, v; auto).
    specialize (H Hb Hbn). by destruct rq.
Qed.

(** what follows a branch is proved once, for any calls the branch makes *)
Ltac rest_of own2 Hl2 :=
  match goal with |- wp _ ?own1 _ ?R =>
    let H := fresh "Hrest" in
    assert (forall o r, later own1 o -> R o r) as H;
    [intros own2 ? Hl2|revert H; generalize R; intros ? H]
  end.
Ltac auth own ctx Hl Hb := wp_step; apply wp_bearer; [apply none_of_nil|intros own ctx Hl Hb].
Ltac answer Hb := wp_go; eapply served_bearer; [reflexivity|exact Hb|sub_own|intros ? ?].
(** the bearer and the owner before, in a longer trace *)
Ltac by_bearer Hb := eexists _, _, _, _; split_and!; [reflexivity|eapply bearer_mono; [|exact Hb]; sub_own|reflexivity].
Ltac by_owner Ho := eapply owner_borne_mono; [|exact Ho]; sub_own.

Lemma wp_logout t : wp (ok (RqLogout t)) [] (session_logout t) (fun own _ => result_ok (RqLogout t) own RsDone).
Proof.
  unfold session_logout. auth own ctx Hl Hb. wp_made; [left; eauto|]. answer Hb. eauto 10.
Qed.

Lemma wp_device_revoke t d :
  wp (ok (RqDeviceRevoke t d)) [] (device_revoke t d) (fun own _ => result_ok (RqDeviceRevoke t d) own RsDone).
Proof.
  unfold device_revoke, get_device, now, revoke_device. auth own ctx Hl Hb. wp_step. wp_read. wp_step. wp_step. tested. wp_step.
  match goal with |- wp _ ?own1 (if ?b then _ else _) _ => assert (forall own2, later own1 own2 ->
    borne (RqDeviceRevoke t d) own2 (dv_account a) \/ owner_borne (RqDeviceRevoke t d) own2 ->
    wp (ok (RqDeviceRevoke t d)) own2 (x ← now; _ ← (_ ← call (CRevokePending d) as_unit; call (CRevokeDevice d x) as_unit); call (CRevokeDeviceSessions d) as_unit)
      (fun own _ => result_ok (RqDeviceRevoke t d) own RsDone)) as Hrest end.
  { intros own2 Hl2 Hby. unfold now. wp_step. wp_read. wp_step. wp_step. wp_read. wp_made.
    - split; [in_own|]. exists a. split; [in_own|].
      destruct Hby as [Hby|Hby]; [left; eapply borne_mono; [|exact Hby]|right; eapply owner_borne_mono; [|exact Hby]]; sub_own.
    - wp_go. eapply served_bearer; [reflexivity|exact Hb| |intros ? ?].
      + intros ? ?. in_own.
      + eexists. eapply did_mono; [|exact Hd2]. sub_own. }
  destruct (bytes_eqb (dv_account a) (se_account (cx_session ctx))) eqn:He; guards.
  - wp_step. apply (Hrest _ (later_refl _)). left. rewrite He. by_bearer Hb.
  - eapply wp_owner; [done|eapply bearer_mono; [|exact Hb]; sub_own|]. intros own' Hl' Ho. apply Hrest; [done|by right].
Qed.

Lemma wp_label t l : wp (ok (RqLabel t l)) [] (device_label_self t l) (fun own _ => result_ok (RqLabel t l) own RsDone).
Proof.
  unfold device_label_self. auth own ctx Hl Hb. wp_go. wp_made; [by_bearer Hb|]. by answer Hb.
Qed.

Lemma wp_keyset_get t :
  wp (ok (RqKeysetGet t)) [] (keyset_get t) (fun own x => result_ok (RqKeysetGet t) own (RsKeyset x.1 x.2)).
Proof.
  unfold keyset_get. auth own ctx Hl Hb. answer Hb.
  eexists _, _, _. split_and!; [done|in_own|done].
Qed.

Lemma wp_keyset_put t b e :
  wp (ok (RqKeysetPut t b e)) [] (keyset_put t b e) (fun own g => result_ok (RqKeysetPut t b e) own (RsGeneration g)).
Proof.
  unfold keyset_put, now. auth own ctx Hl Hb. wp_go.
  destruct e as [e|]; wp_go; (wp_made; [by_bearer Hb|]); answer Hb;
    eexists _, _, (mkKeysetBlob b _ _ _ _); (split_and!; [done| |done|done]);
    match goal with H : did _ (CPutKeyset _ _ _) |- _ => eapply did_mono; [|exact H]; sub_own end.
Qed.

Lemma wp_device_add t : wp (ok (RqDeviceAdd t)) [] (device_add t) (fun own v => result_ok (RqDeviceAdd t) own (RsDevice v)).
Proof.
  unfold device_add, get_account, random_id16, now. auth own ctx Hl Hb. wp_go.
  wp_made; [split_and!; [none_own|in_own|left; eexists _, _; split; [in_own|done]]|]. by answer Hb.
Qed.

Lemma wp_self_enroll k l p sig :
  wp (ok (RqSelfEnroll k l p sig)) [] (device_self_enroll k l p sig) (fun own x => result_ok (RqSelfEnroll k l p sig) own (RsAccount x.1 x.2)).
Proof.
  unfold device_self_enroll, random_id16, now. wp_go. wp_made; [split_and!; [none_own|in_own|right; eexists; in_own]|]. by wp_go.
Qed.

Lemma wp_claim code p sig n h :
  wp (ok (RqClaim code p sig n h)) [] (claim code p sig n h) (fun own x => result_ok (RqClaim code p sig n h) own (RsAccount x.1 x.2)).
Proof.
  unfold claim, random_id16, now. wp_go.
  wp_made; [|by wp_go]. split_and!; [none_own|in_own|done|done|done|done|]. by eexists _, _, _, _, _.
Qed.

Lemma wp_keep_owner rq own target acct R :
  (exists x, (CGetAccount target, AAccount (Some x)) ∈ own) ->
  (forall own', later own own' -> not_claimer own' target -> R own' tt) -> wp (ok rq) own (keep_an_owner target acct) R.
Proof.
  intros Hg HR. unfold keep_an_owner. wp_step. wp_read. wp_step. wp_step. guards.
  match goal with H : bool_decide _ = false |- _ => apply bool_decide_eq_false in H end.
  destruct (ac_owner acct); wp_go; (apply HR; [later_own|]).
  - eexists own, _, _. rewrite <- app_assoc. split_and!; [reflexivity|done|done].
  - eexists own, [], _. split_and!; [reflexivity|done|done].
Qed.

Lemma not_claimer_later own own' id : later own own' -> not_claimer own id -> not_claimer own' id.
Proof.
  intros (ext & -> & _) (o1 & o2 & i & -> & H). exists o1, (o2 ++ ext), i. by rewrite <- app_assoc, <- app_comm_cons.
Qed.

Lemma wp_owner_set t a b :
  wp (ok (RqOwnerSet t a b)) [] (owner_set t a b) (fun own _ => result_ok (RqOwnerSet t a b) own RsDone).
Proof.
  unfold owner_set, get_account. auth own ctx Hl Hb. wp_step. eapply wp_owner; [done|exact Hb|]. intros own1 Hl1 Ho. wp_go.
  destruct b.
  - wp_go. wp_made; [split; [by_owner Ho|done]|]. by answer Hb.
  - apply wp_keep_owner; [eexists; in_own|]. intros own2 Hl2 Hn. wp_made.
    + split; [|done]. eapply owner_borne_mono; [|exact Ho]. intros ? ?. in_own.
    + wp_go. eapply served_bearer; [reflexivity|exact Hb| |done]. intros ? ?. in_own.
Qed.

Lemma wp_account_status t a b :
  wp (ok (RqAccountStatus t a b)) [] (account_status t a b) (fun own _ => result_ok (RqAccountStatus t a b) own RsDone).
Proof.
  unfold account_status, get_account. auth own ctx Hl Hb. wp_step. eapply wp_owner; [done|exact Hb|]. intros own1 Hl1 Ho. wp_go.
  destruct b.
  - apply wp_keep_owner; [eexists; in_own|]. intros own2 Hl2 Hn. wp_made.
    + split; [|done]. eapply owner_borne_mono; [|exact Ho]. intros ? ?. in_own.
    + wp_go. eapply served_bearer; [reflexivity|exact Hb| |done]. intros ? ?. in_own.
  - wp_go. wp_made; [split; [by_owner Ho|done]|]. by answer Hb.
Qed.

Lemma wp_session_revoke t sid :
  wp (ok (RqSessionRevoke t sid)) [] (session_revoke t sid) (fun own _ => result_ok (RqSessionRevoke t sid) own RsDone).
Proof.
  unfold session_revoke. auth own ctx Hl Hb. wp_step. eapply wp_owner; [done|exact Hb|]. intros own1 Hl1 Ho. wp_go.
  wp_made; [right; left; split; [by eexists|done]|]. wp_go. eapply served_bearer; [reflexivity|exact Hb|sub_own|]. intros _ _. eexists. split; [in_own|].
  by apply Nat.eqb_neq.
Qed.

Lemma wp_oidc idt p sig :
  wp (ok (RqOidc idt p sig)) [] (oidc_callback cfg verify_id_token b64 idt p sig) (fun own x => result_ok (RqOidc idt p sig) own (RsTokens x.2)).
Proof.
  unfold oidc_callback, now, random_id16. wp_go.
  rest_of own2 Hl.
  { wp_go. wp_made; [split; [none_own|in_own]|]. wp_go.
    apply wp_mint; [none_own| |by intros own' a' _; wp_go].
    eexists _, _, idt, p, sig, _, _, _, _, _. split_and!; [reflexivity|assumption|eassumption|eassumption|eassumption|assumption| | |in_own]; reflexivity. }
  destruct x1 as [[acc row]|]; wp_go; apply Hrest; later_own.
Qed.

Lemma wp_profile t n h :
  wp (ok (RqProfile t n h)) [] (account_profile t n h) (fun own _ => result_ok (RqProfile t n h) own RsDone).
Proof.
  unfold account_profile. auth own ctx Hl Hb.
  destruct h as [h|]; wp_go; (destruct n as [n|]; wp_go; [wp_made; [by_bearer Hb|]|]); try wp_made; try by_bearer Hb; by answer Hb.
Qed.

Lemma wp_admins_spaces rq acc b l own R :
  (forall own', later own own' -> (forall i, i ∈ l -> (CSpaceAdmin (si_space_id i) acc, ABool true) ∈ own') -> R own' tt) ->
  wp (ok rq) own (admins_spaces acc b l) R.
Proof.
  revert own. induction l as [|i l IH]; intros own HR; cbn [admins_spaces].
  - wp_step. apply HR; [apply later_refl|]. by intros i ?%not_elem_of_nil.
  - wp_go. apply IH. intros own' Hl Hi. apply HR; [eapply later_trans; [|exact Hl]; apply later_snoc; [apply later_refl|done]|].
    intros j [->|Hj]%elem_of_cons; [in_own|auto].
Qed.
Lemma wp_admins_vaults rq acc b l own R :
  (forall own', later own own' -> (forall i, i ∈ l -> (CVaultAdmin acc (vi_vault_id i), ABool true) ∈ own') -> R own' tt) ->
  wp (ok rq) own (admins_vaults acc b l) R.
Proof.
  revert own. induction l as [|i l IH]; intros own HR; cbn [admins_vaults].
  - wp_step. apply HR; [apply later_refl|]. by intros i ?%not_elem_of_nil.
  - wp_go. apply IH. intros own' Hl Hi. apply HR; [eapply later_trans; [|exact Hl]; apply later_snoc; [apply later_refl|done]|].
    intros j [->|Hj]%elem_of_cons; [in_own|auto].
Qed.

Lemma wp_invite t sp vl ttl :
  wp (ok (RqInvite t sp vl ttl)) [] (invite_issue_v2 cfg t sp vl ttl) (fun own x => result_ok (RqInvite t sp vl ttl) own (RsInvite x.1.1 x.1.2 x.2)).
Proof.
  unfold invite_issue_v2, now, random_bytes32, random_id16. auth own ctx Hl Hb. wp_go.
  apply wp_admins_spaces. intros own1 Hl1 Hsp. wp_go. apply wp_admins_vaults. intros own2 Hl2 Hvl. wp_go.
  assert (own ⊆ own2) as Hsub by (intros ? ?; in_own). wp_made.
  - split_and!; [none_own|in_own|done|eexists; split; [in_own|done]|].
    exists (se_account (cx_session ctx)). split_and!; [|done| |].
    + eexists _, _, _, _. split_and!; [reflexivity|eapply bearer_mono; [|exact Hb]|done]. sub_own.
    + intros i Hi. apply Hsp in Hi. in_own.
    + intros i Hi. apply Hvl in Hi. in_own.
  - wp_go. eapply served_bearer; [reflexivity|exact Hb|sub_own|]. intros _ _. by eexists _, _, _, _.
Qed.

Lemma wp_invite_revoke t id :
  wp (ok (RqInviteRevoke t id)) [] (invite_revoke_v2 t id) (fun own _ => result_ok (RqInviteRevoke t id) own RsDone).
Proof.
  unfold invite_revoke_v2, account_is_owner. auth own ctx Hl Hb. wp_go.
  rest_of own2 Hl2.
  { wp_go. eapply served_bearer; [reflexivity|exact Hb|intros ? ?; in_own|]. intros _ _.
    match goal with H : (_ =? 1)%nat = true |- _ => apply Nat.eqb_eq in H as -> end. in_own. }
  destruct x0; wp_go; [apply Hrest, later_refl|].
  apply wp_admins_spaces. intros own2 Hl2 _. apply wp_admins_vaults. intros own3 Hl3 _. apply Hrest.
  by eapply later_trans.
Qed.

Lemma wp_preview t : wp (ok (RqPreview t)) [] (join_preview t) (fun own x => result_ok (RqPreview t) own (RsPreview x.1 x.2)).
Proof. unfold join_preview, now. by wp_go. Qed.

Lemma wp_join t p sig n h :
  wp (ok (RqJoin t p sig n h)) [] (join t p sig n h) (fun own x => result_ok (RqJoin t p sig n h) own (RsAccount x.1 x.2)).
Proof.
  unfold join, now, random_id16. wp_go.
  match goal with |- wp _ ?own1 _ ?R => assert (forall o r, later own1 o ->
    (r.2 = false -> exists acct, (CGetAccountByEd (rp_ed25519_pub a), AAccount (Some (r.1, acct))) ∈ o) -> R o r) as Hrest;
    [intros own2 [acc new] Hl Hby|revert Hrest; generalize R; intros R' Hrest] end.
  { wp_go. wp_made.
    - split_and!; [none_own|in_own|done| |by eexists _, _, _, _, _]. destruct new; [done|].
      destruct (Hby eq_refl) as [acct Hin]. right. exists acct. cbn. cbn in Hin. in_own.
    - wp_go. split; [done|]. eexists _, _, _, _, _. in_own. }
  destruct x0 as [[acc row]|]; wp_go; [apply Hrest; [apply later_refl|intros _; exists row; in_own]|].
  destruct h as [h|]; wp_go; (apply Hrest; [later_own|done]).
Qed.

Lemma wp_relay_open t : wp (ok (RqRelayOpen t)) [] (relay_open cfg t) (fun own x => result_ok (RqRelayOpen t) own (RsChannel x.1 x.2)).
Proof. unfold relay_open, now, random_id16. auth own ctx Hl Hb. by answer Hb. Qed.
Lemma wp_relay_put c s m : wp (ok (RqRelayPut c s m)) [] (relay_put_slot c s m) (fun own _ => result_ok (RqRelayPut c s m) own RsDone).
Proof. unfold relay_put_slot, relay_channel, now. by wp_go. Qed.
Lemma wp_relay_poll c w : wp (ok (RqRelayPoll c w)) [] (relay_poll c w) (fun own m => result_ok (RqRelayPoll c w) own (RsMessage m)).
Proof. unfold relay_poll, relay_channel, now. by wp_go. Qed.
Lemma wp_other t : wp (ok (RqOther t)) [] (resolve_bearer t) (fun own _ => result_ok (RqOther t) own RsDone).
Proof. apply wp_bearer; [apply none_of_nil|]. intros own ctx Hl Hb. by answer Hb. Qed.
Lemma wp_cleanup : wp (ok RqCleanup) [] (t ← now; cleanup_expired t) (fun own _ => result_ok RqCleanup own RsDone).
Proof. unfold cleanup_expired, now. by wp_go. Qed.

(** every request makes its calls under their conditions, and has seen what it answers *)
Lemma serve_ok rq : wp (ok rq) [] (serve cfg verify_id_token b64 iid rq) (result_ok rq).
Proof.
  destruct rq; apply wp_reply;
    eauto using wp_label, wp_keyset_get, wp_keyset_put, wp_device_add, wp_self_enroll, wp_claim, wp_owner_set, wp_account_status,
      wp_session_revoke, wp_oidc, wp_profile, wp_invite, wp_invite_revoke, wp_preview, wp_join, wp_relay_open, wp_relay_put,
      wp_relay_poll, wp_other, wp_cleanup, wp_logout, wp_device_revoke.
  - eapply wp_weaken; [apply wp_challenge|]. by intros own x _.
  - eapply wp_weaken; [apply wp_verify|]. intros own x H. by split.
  - eapply wp_weaken; [apply wp_refresh|]. intros own x H. exact H.
Qed.
End served.
