(* ===== verification/ServerAuthRun.v ===== *)
(** * Runs of the server of [ServerAuth]

    What a step of the server does ([moved]), what each table's rows can turn into
    ([device_change], [session_change], ...), and the invariant of every run: each request is
    where its program is after its calls ([serve_ok]), and nothing that was drawn at random
    was drawn twice ([Inv]). *)

From Stdlib Require Import Strings.String Strings.Byte NArith ZArith Lia.
From stdpp Require Import base gmap sets list strings sorting countable.
From S2P Require Import Prelude Bytes CryptoPrims Crypto Storage AuthPayloads ServerCodec ServerAuth ServerAuthInv.

Local Open Scope Z_scope.

(** ** Rows *)

(** the row a call enters *)
Definition entered_row (c : Call) : option AuthDevice :=
  match c with CCreateDevice _ v | CClaim _ _ _ v _ | COidcLogin _ _ _ _ _ _ v | CJoin _ _ _ _ _ v => Some v | _ => None end.

Inductive device_change (id : bytes) (c : Call) : option AuthDevice -> option AuthDevice -> Prop :=
| dc_same x : device_change id c x x
| dc_enter v : entered_device c = Some id -> entered_row c = Some v -> device_change id c None (Some v)
| dc_delete v : device_change id c (Some v) None
| dc_label v l : device_change id c (Some v) (Some (with_label l v))
| dc_activate v t : may_activate t v = true -> device_change id c (Some v) (Some (with_device_state DvActive None v))
| dc_revoke v t : c = CRevokeDevice id t -> device_change id c (Some v) (Some (revoked_device t v))
| dc_stamp v t : dv_status v = DvRevoked -> dv_expires v = None ->
    device_change id c (Some v) (Some (with_device_state DvRevoked (Some t) v)).

Inductive session_change (id : bytes) (c : Call) (a : Answer) : option AuthSession -> option AuthSession -> Prop :=
| sc_same x : session_change id c a x x
| sc_create row : c = CCreateSession id row -> session_change id c a None (Some row)
| sc_delete s : session_change id c a (Some s) None
| sc_revoke s : session_change id c a (Some s) (Some (with_revoked s))
| sc_rotate s expected ah rh ae re : c = CRotateSession id expected ah rh ae re -> a = ACount 1 -> rotates expected s = true ->
    session_change id c a (Some s) (Some (with_tokens ah rh ae re s)).

Inductive nonce_change (nonce : bytes) (c : Call) (a : Answer) : option AuthNonce -> option AuthNonce -> Prop :=
| nc_same x : nonce_change nonce c a x x
| nc_insert device e : c = CInsertNonce nonce device e -> nonce_change nonce c a None (Some (mkAuthNonce (Some device) e false))
| nc_consume n device t : c = CConsumeNonce nonce device t -> a = ABool true -> nonce_usable device t n = true ->
    nonce_change nonce c a (Some n) (Some (with_consumed n))
| nc_delete n : nonce_change nonce c a (Some n) None.

Inductive account_change (id : bytes) (c : Call) : option AuthAccount -> option AuthAccount -> Prop :=
| acc_same x : account_change id c x x
| acc_enter row : account_change id c None (Some row)
| acc_profile a a' : ac_owner a' = ac_owner a -> ac_status a' = ac_status a -> ac_ed a' = ac_ed a -> account_change id c (Some a) (Some a')
| acc_owner a b : c = CSetOwner id b -> account_change id c (Some a) (Some (with_owner b a))
| acc_status a st : c = CSetStatus id st -> account_change id c (Some a) (Some (with_status st a)).

Inductive invite_change (id : bytes) (c : Call) (a : Answer) : option InviteRow -> option InviteRow -> Prop :=
| ic_same x : invite_change id c a x x
| ic_create row : c = CCreateInvite id row -> invite_change id c a None (Some row)
| ic_close i st r : iv_state i = InPending -> st <> InPending -> st <> InRedeemed ->
    invite_change id c a (Some i) (Some (with_invite_state st r i))
| ic_redeem i hash t acc new v row : c = CJoin hash t acc new v row -> a = ABool true -> redeemable hash t i = true ->
    invite_change id c a (Some i) (Some (with_invite_state InRedeemed (Some (acc, t)) i)).

(** the owner who claimed the server *)
Inductive owner_change (c : Call) (d d' : AuthDB) : Prop :=
| oc_same : in_owner (instance d') = in_owner (instance d) -> owner_change c d d'
| oc_claim id row dev v code : c = CClaim id row dev v code -> accounts d !! id = None -> accounts d' !! id = Some row ->
    in_owner (instance d') = Some id -> owner_change c d d'.

Lemma find_row_Some {A} (p : bytes -> A -> bool) (t : gmap bytes A) k x : find_row p t = Some (k, x) -> t !! k = Some x /\ p k x = true.
Proof.
  intros H. apply find_some in H as [Hin Hp]. split; [|done].
  apply elem_of_map_to_list. by apply list_elem_of_In.
Qed.
Lemma find_row_None {A} (p : bytes -> A -> bool) (t : gmap bytes A) k x : find_row p t = None -> t !! k = Some x -> p k x = false.
Proof.
  intros H Hk. apply elem_of_map_to_list, list_elem_of_In in Hk. exact (find_none _ _ H _ Hk).
Qed.
Lemma find_row_exists {A} (p : bytes -> A -> bool) (t : gmap bytes A) k x : t !! k = Some x -> p k x = true -> is_Some (find_row p t).
Proof.
  intros Hk Hp. destruct (find_row p t) eqn:E; [done|]. rewrite (find_row_None _ _ _ _ E Hk) in Hp. done.
Qed.

Lemma insert_device_Some id row d d' : insert_device id row d = Some d' -> d' = set_devices (<[id := row]>) d /\ devices d !! id = None.
Proof.
  unfold insert_device. case_match eqn:E; [done|]. intros [= <-]. apply orb_false_iff in E as [E _].
  apply bool_decide_eq_false, eq_None_not_Some in E. done.
Qed.
Lemma insert_account_Some id row d d' : insert_account id row d = Some d' -> d' = set_accounts (<[id := row]>) d /\ accounts d !! id = None.
Proof.
  unfold insert_account. case_match eqn:E; [done|]. intros [= <-]. rewrite !orb_false_iff in E. destruct E as [[[E _] _] _].
  apply bool_decide_eq_false, eq_None_not_Some in E. done.
Qed.

(** a transaction that enters a device and perhaps its account *)
Lemma wide_tx_enters o id new dev v d0 d a d' :
  in_wide_tx o (new_account id new d0 ≫= insert_device dev v) d = (a, d') ->
  (d' = d /\ exists e, a = AFail e) \/
  (a = ABool true /\ devices d0 !! dev = None /\
   match new with
   | Some row => accounts d0 !! id = None /\ d' = set_devices (<[dev := v]>) (set_accounts (<[id := row]>) d0)
   | None => d' = set_devices (<[dev := v]>) d0
   end).
Proof.
  unfold in_wide_tx, in_tx. destruct o; [|intros [= <- <-]; eauto].
  destruct (new_account id new d0 ≫= insert_device dev v) as [d1|] eqn:E; intros [= <- <-]; [|eauto]. right.
  apply bind_Some in E as (d2 & Hn & (-> & Hd)%insert_device_Some). destruct new as [row|]; cbn in Hn.
  - by apply insert_account_Some in Hn as [-> ?].
  - by injection Hn as <-.
Qed.

Lemma claim_enters o c id row dev v code now d a d' :
  c = CClaim id row dev v code -> run_call o now c d = (a, d') ->
  (d' = d) \/
  (a = ABool true /\ devices d !! dev = None /\ accounts d !! id = None /\ in_claimed (instance d) = false /\
   d' = set_devices (<[dev := v]>) (set_accounts (<[id := row]>) (set_instance (fun i => mkInstanceRow (in_id i) true (Some id) None) d))).
Proof.
  intros -> H. cbn in H. case_match eqn:E; [left; congruence|]. apply orb_false_iff in E as [E _].
  change (insert_account id row (set_instance (fun i => mkInstanceRow (in_id i) true (Some id) None) d))
    with (new_account id (Some row) (set_instance (fun i => mkInstanceRow (in_id i) true (Some id) None) d)) in H.
  apply wide_tx_enters in H as [[-> _]|(-> & Hd & Ha & ->)]; [by left|right]. done.
Qed.

Lemma join_enters o c hash t id new dev v now d a d' :
  c = CJoin hash t id new dev v -> run_call o now c d = (a, d') ->
  (d' = d /\ a <> ABool true) \/
  (a = ABool true /\ devices d !! dev = None /\ exists iv i, invites d !! iv = Some i /\ redeemable hash t i = true /\
   let d1 := set_invites (<[iv := with_invite_state InRedeemed (Some (id, t)) i]>) d in
   match new with
   | Some row => accounts d !! id = None /\ d' = set_devices (<[dev := v]>) (set_accounts (<[id := row]>) d1)
   | None => d' = set_devices (<[dev := v]>) d1
   end).
Proof.
  intros -> H. cbn in H. destruct (find_row (fun _ i => redeemable hash t i) (invites d)) as [[iv i]|] eqn:E; [|left; by injection H as <- <-].
  apply find_row_Some in E as [Hi Hr].
  apply wide_tx_enters in H as [[-> [e ->]]|(-> & Hd & Ha)]; [by left|right]. cbn in Hd. split_and!; [done|done|].
  by exists iv, i.
Qed.

Lemma oidc_enters o c jti exp t id new dev v now d a d' :
  c = COidcLogin jti exp t id new dev v -> run_call o now c d = (a, d') ->
  d' = d \/
  (devices d !! dev = None /\ exists j,
   match new with
   | Some row => accounts d !! id = None /\ d' = set_devices (<[dev := v]>) (set_accounts (<[id := row]>) (set_jti j d))
   | None => d' = set_devices (<[dev := v]>) (set_jti j d)
   end).
Proof.
  intros -> H. cbn in H. case_match eqn:E; [left; by injection H as <- <-|].
  apply wide_tx_enters in H as [[-> _]|(-> & Hd & Ha)]; [by left|right]. split; [done|].
  exists (fun m => <[jti := exp]> (filter (fun x => t <= x.2) m)). by destruct new.
Qed.

Lemma delete_devices_change p d a d' id c :
  delete_devices p d = (a, d') -> device_change id c (devices d !! id) (devices d' !! id).
Proof.
  unfold delete_devices. case_match; intros [= <- <-]; [by constructor|]. cbn. rewrite map_lookup_filter.
  destruct (devices d !! id) as [v|]; cbn; [|by constructor]. case_guard; by constructor.
Qed.
Lemma delete_devices_others p d a d' :
  delete_devices p d = (a, d') ->
  accounts d' = accounts d /\ sessions d' = sessions d /\ auth_nonces d' = auth_nonces d /\ keyset_blobs d' = keyset_blobs d /\
  invites d' = invites d /\ instance d' = instance d.
Proof. unfold delete_devices. case_match; by intros [= <- <-]. Qed.

Ltac row_cases :=
  cbn; repeat match goal with
  | |- context [<[?i := _]> _ !! ?j] => destruct (decide (i = j)) as [->|]; [rewrite lookup_insert_eq|rewrite lookup_insert_ne by done]
  | |- context [alter _ ?i _ !! ?j] => destruct (decide (i = j)) as [->|]; [rewrite lookup_alter_eq|rewrite lookup_alter_ne by done]
  | |- context [filter _ _ !! _] => rewrite map_lookup_filter
  | |- context [(_ <$> _) !! _] => rewrite lookup_fmap
  end.

(** calls that leave a table alone *)
Ltac no_change H :=
  try (by (cbn in H; repeat case_match; simplify_eq; constructor));
  try (by (cbn in H; apply delete_devices_others in H; destruct_and! H;
           repeat match goal with E : _ = _ :> gmap _ _ |- _ => rewrite E; clear E | E : instance _ = _ |- _ => rewrite E; clear E end; constructor)).

Lemma entered_change dev v id d d1 c :
  entered_device c = Some dev -> entered_row c = Some v -> devices d !! dev = None -> devices d1 = <[dev := v]> (devices d) ->
  device_change id c (devices d !! id) (devices d1 !! id).
Proof. intros Hc Hv Hd ->. row_cases; [rewrite Hd; by constructor|constructor]. Qed.

Lemma run_call_devices o now c d a d' id : run_call o now c d = (a, d') -> device_change id c (devices d !! id) (devices d' !! id).
Proof.
  intros H. destruct c; try (by (cbn in H; repeat case_match; simplify_eq; constructor));
    try (by cbn in H; eapply delete_devices_change).
  - cbn in H. repeat case_match; simplify_eq; try constructor. row_cases; [|constructor].
    match goal with E : devices _ !! _ = _ |- _ => rewrite E end. by econstructor.
  - cbn in H. simplify_eq. row_cases; [|constructor]. destruct (devices d !! id); cbn; by econstructor.
  - cbn in H. simplify_eq. row_cases; [|constructor]. destruct (devices d !! id); cbn; by econstructor.
  - cbn in H. destruct (insert_device id0 row d) as [d1|] eqn:E; simplify_eq; [|constructor].
    apply insert_device_Some in E as [-> E]. by eapply entered_change.
  - eapply claim_enters in H as [->|(_ & Hd & _ & _ & ->)]; [constructor| |done]. by eapply entered_change.
  - eapply oidc_enters in H as [->|(Hd & j & H)]; [constructor| |done]. eapply entered_change; [done|done|done|].
    by destruct new; cbn in H; [destruct H as [_ ->]|rewrite H].
  - eapply join_enters in H as [[-> _]|(_ & Hd & iv & i & _ & _ & H)]; [constructor| |done]. eapply entered_change; [done|done|done|].
    by destruct new; cbn in H; [destruct H as [_ ->]|rewrite H].
  - cbn in H. simplify_eq. row_cases. destruct (devices d !! id) as [v|] eqn:E; cbn; [|constructor].
    case_match eqn:Hc; [|constructor]. apply andb_true_iff in Hc as [H1 H2]. apply bool_decide_eq_true in H1, H2. by constructor.
Qed.

(** what a call that enters a device does to the other tables *)
Lemma enters_others o now c dev d a d' :
  entered_device c = Some dev -> run_call o now c d = (a, d') ->
  sessions d' = sessions d /\ auth_nonces d' = auth_nonces d /\ keyset_blobs d' = keyset_blobs d /\
  (accounts d' = accounts d \/ exists id row, accounts d !! id = None /\ accounts d' = <[id := row]> (accounts d)).
Proof.
  intros Hc H. destruct c; try done.
  - cbn in H. destruct (insert_device id row d) as [d1|] eqn:E; simplify_eq; [|auto].
    apply insert_device_Some in E as [-> E]. auto.
  - eapply claim_enters in H as [->|(_ & Hd & Ha & _ & ->)]; [by auto| |done]. split_and!; try done. right. by eexists _, _.
  - eapply oidc_enters in H as [->|(Hd & j & H)]; [by auto| |done]. destruct new; cbn in H; [destruct H as [? ->]|rewrite H].
    + split_and!; try done. right. by eexists _, _.
    + by auto.
  - eapply join_enters in H as [[-> _]|(_ & Hd & iv & i & _ & _ & H)]; [by auto| |done].
    destruct new; cbn in H; [destruct H as [? ->]|rewrite H].
    + split_and!; try done. right. by eexists _, _.
    + by auto.
Qed.

Lemma run_call_sessions o now c d a d' id : run_call o now c d = (a, d') -> session_change id c a (sessions d !! id) (sessions d' !! id).
Proof.
  intros H. destruct c; no_change H;
    try (eapply enters_others in H as (-> & _); [constructor|reflexivity]).
  - cbn in H. case_match eqn:E; simplify_eq; [constructor|]. apply orb_false_iff in E as [E _].
    apply bool_decide_eq_false, eq_None_not_Some in E. row_cases; [|constructor]. rewrite E. by constructor.
  - cbn in H. simplify_eq. row_cases; [|constructor]. destruct (sessions d !! id); constructor.
  - cbn in H. repeat case_match; simplify_eq; try constructor. row_cases; [|constructor].
    match goal with E : sessions _ !! _ = _ |- _ => rewrite E end. by econstructor.
  - cbn in H. simplify_eq. row_cases. destruct (sessions d !! id) as [s|]; cbn; [|constructor]. case_match; constructor.
  - cbn in H. simplify_eq. row_cases. destruct (sessions d !! id) as [s|]; cbn; [|constructor]. case_guard; constructor.
  - cbn in H. simplify_eq. row_cases. destruct (sessions d !! id) as [s|]; cbn; [|constructor]. case_guard; constructor.
Qed.

Lemma run_call_nonces o now c d a d' n : run_call o now c d = (a, d') -> nonce_change n c a (auth_nonces d !! n) (auth_nonces d' !! n).
Proof.
  intros H. destruct c; no_change H;
    try (eapply enters_others in H as (_ & -> & _); [constructor|reflexivity]).
  - cbn in H. repeat case_match; simplify_eq; try constructor. row_cases; [|constructor].
    match goal with E : auth_nonces _ !! _ = _ |- _ => rewrite E end. by constructor.
  - cbn in H. repeat case_match; simplify_eq; try constructor. row_cases; [|constructor].
    match goal with E : auth_nonces _ !! _ = _ |- _ => rewrite E end. by econstructor.
  - cbn in H. simplify_eq. row_cases. destruct (auth_nonces d !! n) as [x|]; cbn; [|constructor]. case_guard; constructor.
Qed.

Lemma run_call_accounts o now c d a d' id : run_call o now c d = (a, d') -> account_change id c (accounts d !! id) (accounts d' !! id).
Proof.
  intros H. destruct c; no_change H;
    try (eapply enters_others in H as (_ & _ & _ & [->|(id' & row' & Hn & ->)]); [constructor| |reflexivity];
         row_cases; [rewrite Hn|]; constructor).
  - cbn in H. repeat case_match; simplify_eq; try constructor. row_cases; [|constructor].
    match goal with E : accounts _ !! _ = _ |- _ => rewrite E end. by constructor.
  - cbn in H. repeat case_match; simplify_eq; try constructor. row_cases; [|constructor].
    match goal with E : accounts _ !! _ = _ |- _ => rewrite E end. by constructor.
  - cbn in H. simplify_eq. row_cases; [|constructor]. destruct (accounts d !! id); cbn; by constructor.
  - cbn in H. case_match; simplify_eq; [constructor|]. row_cases; [|constructor]. destruct (accounts d !! id); cbn; by constructor.
Qed.

(** an uploaded key set stays *)
Lemma run_call_keysets o now c d a d' key k :
  run_call o now c d = (a, d') -> keyset_blobs d !! key = Some k ->
  exists k', keyset_blobs d' !! key = Some k' /\ kb_bytes k' = kb_bytes k.
Proof.
  intros H Hk. destruct c;
    try (by (cbn in H; repeat case_match; simplify_eq; eauto));
    try (by (cbn in H; apply delete_devices_others in H as (_ & _ & _ & -> & _); eauto));
    try (by (eapply enters_others in H as (_ & _ & -> & _); [eauto|reflexivity])).
  - cbn in H. case_match eqn:E; simplify_eq; [eauto|]. apply orb_false_iff in E as [E _]. apply bool_decide_eq_false in E. cbn.
    rewrite lookup_insert_ne; [eauto|]. intros <-. by rewrite Hk in E; destruct E.
  - cbn in H. simplify_eq. cbn. destruct (decide ((account, generation) = key)) as [<-|];
      [rewrite lookup_alter_eq, Hk; cbn; eauto|rewrite lookup_alter_ne by done; eauto].
Qed.

Lemma run_call_invites o now c d a d' id : run_call o now c d = (a, d') -> invite_change id c a (invites d !! id) (invites d' !! id).
Proof.
  intros H. destruct c; no_change H.
  - cbn in H. destruct (insert_device id0 row d) as [d1|] eqn:E; simplify_eq; [|constructor].
    apply insert_device_Some in E as [-> E]. constructor.
  - eapply claim_enters in H as [->|(_ & _ & _ & _ & ->)]; [constructor|constructor|done].
  - eapply oidc_enters in H as [->|(Hd & j & H)]; [constructor| |done].
    destruct new; cbn in H; [destruct H as [? ->]|rewrite H]; constructor.
  - cbn in H. case_match eqn:E; simplify_eq; [constructor|]. apply orb_false_iff in E as [E _].
    apply bool_decide_eq_false, eq_None_not_Some in E. row_cases; [|constructor]. rewrite E. by constructor.
  - cbn in H. repeat case_match; simplify_eq; try constructor. row_cases; [|constructor].
    match goal with E : invites _ !! _ = _ |- _ => rewrite E end. apply ic_close; [by eapply bool_decide_eq_true|done|done].
  - eapply join_enters in H as [[-> _]|(-> & Hd & iv & i & Hi & Hr & H)]; [constructor| |done].
    assert (invites d' = <[iv := with_invite_state InRedeemed (Some (id0, now0)) i]> (invites d)) as ->.
    { destruct new; cbn in H; [destruct H as [? ->]|rewrite H]; done. }
    row_cases; [|constructor]. rewrite Hi. by eapply ic_redeem.
  - cbn in H. simplify_eq. row_cases. destruct (invites d !! id) as [i|]; cbn; [|constructor]. case_match eqn:E; [|constructor].
    apply andb_true_iff in E as [E _]. apply bool_decide_eq_true in E. by apply ic_close.
Qed.

Lemma run_call_owner o now c d a d' : run_call o now c d = (a, d') -> owner_change c d d'.
Proof.
  intros H. destruct c; try (by (cbn in H; repeat case_match; simplify_eq; apply oc_same)).
  - cbn in H. apply delete_devices_others in H as (_&_&_&_&_&H). apply oc_same. by rewrite H.
  - cbn in H. destruct (insert_device id row d) as [d1|] eqn:E; simplify_eq; [|by apply oc_same].
    apply insert_device_Some in E as [-> E]. by apply oc_same.
  - eapply claim_enters in H as [->|(_ & _ & Ha & _ & ->)]; [by apply oc_same| |done].
    eapply oc_claim; [done|done| |done]. cbn. by rewrite lookup_insert_eq.
  - eapply oidc_enters in H as [->|(Hd & j & H)]; [by apply oc_same| |done].
    destruct new; cbn in H; [destruct H as [? ->]|rewrite H]; by apply oc_same.
  - eapply join_enters in H as [[-> _]|(-> & Hd & iv & i & Hi & Hr & H)]; [by apply oc_same| |done].
    destruct new; cbn in H; [destruct H as [? ->]|rewrite H]; by apply oc_same.
  - cbn in H. apply delete_devices_others in H as (_&_&_&_&_&H). apply oc_same. by rewrite H.
  - cbn in H. apply delete_devices_others in H as (_&_&_&_&_&H). apply oc_same. by rewrite H.
Qed.

(** ** Steps *)

Definition in_trace (s : Server) (n : N) (c : Call) (a : Answer) : Prop :=
  exists th, sv_threads s !! n = Some th /\ (c, a) ∈ th_trace th.
Definition seen (s : Server) (c : Call) (a : Answer) : Prop := exists n, in_trace s n c a.

(** the answer of a call, and what it leaves *)
Definition effect (s : Server) (c : Call) (a : Answer) (db : AuthDB) (drawn : gset bytes) : Prop :=
  (exists len b, c = CRandom len /\ a = ABytes b /\ (b ∉ sv_drawn s) /\ db = sv_db s /\ (drawn = {[b]} ∪ sv_drawn s)) \/
  (exists o, run_call o (sv_clock s) c (sv_db s) = (a, db) /\ drawn = sv_drawn s /\ forall len, c <> CRandom len).

Section machine.
Context `{P : CryptoPrims} (cfg : AuthConfig).
Context (verify_id_token : Z -> bytes -> result ErrorCode IdClaims) (b64 : bytes -> bytes) (iid : bytes).
#[local] Abbreviation serve := (serve cfg verify_id_token b64 iid).
#[local] Abbreviation step := (step cfg verify_id_token b64 iid).
#[local] Abbreviation run_server := (run_server cfg verify_id_token b64 iid).
#[local] Abbreviation ok := (call_ok cfg verify_id_token b64 iid).

Inductive moved (s : Server) : Server -> Prop :=
| moved_not : moved s s
| moved_tick z : 0 <= z -> moved s (mkServer (sv_db s) (sv_clock s + z) (sv_drawn s) (sv_threads s))
| moved_start n r : sv_threads s !! n = None ->
    moved s (mkServer (sv_db s) (sv_clock s) (sv_drawn s) (<[n := mkThread r [] (serve r)]> (sv_threads s)))
| moved_call n th c k a db drawn : sv_threads s !! n = Some th -> th_prog th = Do c k -> effect s c a db drawn ->
    moved s (answered n th c k a db drawn s).

Lemma step_moved s e : moved s (step s e).
Proof.
  destruct e as [n r|n random o|z]; cbn.
  - destruct (sv_threads s !! n) eqn:E; by constructor.
  - destruct (sv_threads s !! n) as [th|] eqn:E; [|constructor].
    destruct (th_prog th) as [|c k] eqn:Ep; [constructor|].
    assert ((exists len, c = CRandom len) \/ forall len, c <> CRandom len) as [[len ->]|Hc]
      by (destruct c; (left; by eexists) || by right).
    + case_match eqn:Hb; [|constructor]. apply andb_true_iff in Hb as [_ Hb]. apply negb_true_iff, bool_decide_eq_false in Hb.
      eapply moved_call; [done|done|]. left. by eexists len, random.
    + destruct (run_call o (sv_clock s) c (sv_db s)) as [a db] eqn:Er.
      assert (moved s (answered n th c k a db (sv_drawn s) s)).
      { eapply moved_call; [done|done|]. right. by exists o. }
      destruct c; try (by rewrite ?Er); by destruct (Hc n0).
  - constructor. lia.
Qed.

(** ** The invariant of a run *)

Record Inv (s : Server) : Prop := {
  inv_wp n th : sv_threads s !! n = Some th ->
    wp (ok (th_request th)) (th_trace th) (th_prog th) (served iid (th_request th));
  inv_runs n th : sv_threads s !! n = Some th -> runs (serve (th_request th)) (th_trace th) (th_prog th);
  inv_ok n th l1 c a l2 : sv_threads s !! n = Some th -> th_trace th = l1 ++ (c, a) :: l2 -> ok (th_request th) l1 c;
  inv_drawn n len b : in_trace s n (CRandom len) (ABytes b) -> b ∈ sv_drawn s;
  inv_once n m len len' b : in_trace s n (CRandom len) (ABytes b) -> in_trace s m (CRandom len') (ABytes b) -> n = m
}.

(** threads after a step: one was answered, or started, or none *)
Lemma in_trace_answered s n th c k a db drawn m c' a' :
  sv_threads s !! n = Some th ->
  in_trace (answered n th c k a db drawn s) m c' a' <-> in_trace s m c' a' \/ (m = n /\ (c', a') = (c, a)).
Proof.
  intros Hn. unfold in_trace, answered. cbn. split.
  - intros (th' & Hm & Hin). destruct (decide (n = m)) as [<-|Hne].
    + rewrite lookup_insert_eq in Hm. injection Hm as <-. apply elem_snoc in Hin as [Hin|Hin]; [left; eauto|by right].
    + rewrite lookup_insert_ne in Hm by done. left. eauto.
  - intros [(th' & Hm & Hin)|[-> ->]].
    + destruct (decide (n = m)) as [<-|Hne]; [|exists th'; by rewrite lookup_insert_ne by done].
      assert (th' = th) as -> by congruence. eexists. rewrite lookup_insert_eq. split; [done|]. apply elem_snoc. by left.
    + eexists. rewrite lookup_insert_eq. split; [done|]. apply elem_snoc. by right.
Qed.

Lemma in_trace_step s e m c a : in_trace s m c a -> in_trace (step s e) m c a.
Proof.
  intros (th & Hm & Hin). destruct (step_moved s e) as [| |n r Hn|n th' c' k a' db drawn Hn Hp He]; try (by exists th).
  - exists th. cbn. rewrite lookup_insert_ne by congruence. done.
  - apply in_trace_answered; [done|]. left. by exists th.
Qed.

Lemma inv_answered s n th c k a db drawn :
  Inv s -> sv_threads s !! n = Some th -> th_prog th = Do c k -> effect s c a db drawn -> Inv (answered n th c k a db drawn s).
Proof.
  intros I Hn Hp He. pose proof (fun m c' a' => in_trace_answered s n th c k a db drawn m c' a' Hn) as HT. split.
  - intros m th'. unfold answered. cbn. intros [[<- <-]|[? Hm]]%lookup_insert_Some; [|by eapply (inv_wp _ I)].
    cbn. pose proof (inv_wp _ I _ _ Hn) as H. rewrite Hp in H. by destruct H.
  - intros m th'. unfold answered. cbn. intros [[<- <-]|[? Hm]]%lookup_insert_Some; [|by eapply (inv_runs _ I)].
    cbn. apply runs_snoc. rewrite <- Hp. by apply (inv_runs _ I n).
  - intros m th' l1 c' a' l2. unfold answered. cbn. intros [[<- <-]|[? Hm]]%lookup_insert_Some; [|by eapply (inv_ok _ I m)].
    cbn. intros Hl. destruct (decide (l2 = [])) as [->|Hne].
    + apply app_inj_tail in Hl as [<- [= <- <-]]. pose proof (inv_wp _ I _ _ Hn) as H. rewrite Hp in H. by destruct H.
    + destruct (exists_last Hne) as (l3 & x & ->). rewrite app_comm_cons, app_assoc in Hl.
      apply app_inj_tail in Hl as [Hl _]. by eapply (inv_ok _ I n).
  - intros m len b [Hin|[-> [= <- <-]]]%HT.
    + apply (inv_drawn _ I) in Hin. destruct He as [(?&?&->&->&?&->&->)|(o & ? & -> & ?)]; cbn; [set_solver|done].
    + destruct He as [(?&?&[= ->]&[= ->]&?&->&->)|(o & ? & -> & He)]; cbn; [set_solver|by destruct (He len)].
  - assert (forall m len len' b, (CRandom len, ABytes b) = (c, a) -> ~ in_trace s m (CRandom len') (ABytes b)) as Hnew'.
    { intros m len len' b [= <- <-] Hin. destruct He as [(?&?&[= ->]&[= ->]&Hb&_)|(o & ? & _ & He)]; [|by destruct (He len)].
      by apply Hb, (inv_drawn _ I m len'). }
    intros m m' len len' b [Hm|[-> Hm]]%HT [Hm'|[-> Hm']]%HT; try done.
    + by eapply (inv_once _ I).
    + by destruct (Hnew' m len' len b Hm').
    + by destruct (Hnew' m' len len' b Hm).
Qed.

Lemma auth_inv_step s e : Inv s -> Inv (step s e).
Proof.
  intros I. destruct (step_moved s e) as [|z Hz|n r Hn|n th c k a db drawn Hn Hp He]; [done| | |by apply inv_answered].
  - by destruct I.
  - split.
    + intros m th. cbn. intros [[<- <-]|[? Hm]]%lookup_insert_Some; [|by eapply (inv_wp _ I)]. apply serve_ok.
    + intros m th. cbn. intros [[<- <-]|[? Hm]]%lookup_insert_Some; [|by eapply (inv_runs _ I)]. done.
    + intros m th l1 c a l2. cbn. intros [[<- <-]|[? Hm]]%lookup_insert_Some; [|by eapply (inv_ok _ I m)]. cbn. by destruct l1.
    + intros m len b. unfold in_trace. cbn. intros (th & [[<- <-]|[? Hm]]%lookup_insert_Some & Hin); [by apply not_elem_of_nil in Hin|].
      apply (inv_drawn _ I m len). by exists th.
    + intros m m' len len' b. unfold in_trace. cbn. intros (th & [[<- <-]|[? Hm]]%lookup_insert_Some & Hin) (th' & [[<- <-]|[? Hm']]%lookup_insert_Some & Hin');
        try (by apply not_elem_of_nil in Hin); try (by apply not_elem_of_nil in Hin').
      eapply (inv_once _ I); by eexists.
Qed.

Lemma inv_fresh code clk : Inv (fresh_server iid code clk).
Proof.
  split; unfold in_trace; cbn.
  - intros n th H. by rewrite lookup_empty in H.
  - intros n th H. by rewrite lookup_empty in H.
  - intros n th l1 c a l2 H. by rewrite lookup_empty in H.
  - intros n len b (th & H & _). by rewrite lookup_empty in H.
  - intros n m len len' b (th & H & _). by rewrite lookup_empty in H.
Qed.

Lemma run_server_snoc s evs e : run_server s (evs ++ [e]) = step (run_server s evs) e.
Proof. apply foldl_snoc. Qed.
Lemma run_server_app s evs evs' : run_server s (evs ++ evs') = run_server (run_server s evs) evs'.
Proof. apply foldl_app. Qed.

Lemma run_ind (J : Server -> Prop) s evs :
  (forall s e, Inv s -> J s -> J (step s e)) -> Inv s -> J s -> J (run_server s evs).
Proof.
  intros HJ I H. cut (Inv (run_server s evs) /\ J (run_server s evs)); [by intros [_ ?]|].
  induction evs as [|e evs IH] using rev_ind; [done|]. destruct IH as [I' H'].
  rewrite run_server_snoc. split; [by apply auth_inv_step|by apply HJ].
Qed.
Lemma auth_inv_run s evs : Inv s -> Inv (run_server s evs).
Proof. intros I. apply run_ind; [intros; by apply auth_inv_step|done|done]. Qed.

Lemma in_trace_run s evs m c a : in_trace s m c a -> in_trace (run_server s evs) m c a.
Proof.
  induction evs as [|e evs IH] using rev_ind; [done|]. intros H. rewrite run_server_snoc. by apply in_trace_step, IH.
Qed.
Lemma seen_run s evs c a : seen s c a -> seen (run_server s evs) c a.
Proof. intros [n H]. exists n. by apply in_trace_run. Qed.
Lemma seen_step s e c a : seen s c a -> seen (step s e) c a.
Proof. intros [n H]. exists n. by apply in_trace_step. Qed.

Lemma clock_step s e : sv_clock s <= sv_clock (step s e).
Proof. destruct (step_moved s e); cbn; lia. Qed.
Lemma clock_run s evs : sv_clock s <= sv_clock (run_server s evs).
Proof.
  induction evs as [|e evs IH] using rev_ind; [done|]. rewrite run_server_snoc.
  etransitivity; [exact IH|apply clock_step].
Qed.

(** a request keeps its calls and what it asked *)
Lemma thread_run s evs m th :
  sv_threads s !! m = Some th -> exists th', sv_threads (run_server s evs) !! m = Some th' /\ th_request th' = th_request th.
Proof.
  intros Hm. induction evs as [|e evs IH] using rev_ind; [eauto|]. destruct IH as (th1 & H1 & Hr). rewrite run_server_snoc.
  destruct (step_moved (run_server s evs) e) as [| |n r Hn|n th2 c k a db drawn Hn Hp He]; cbn; eauto.
  - rewrite lookup_insert_ne by congruence. eauto.
  - destruct (decide (n = m)) as [->|]; [rewrite lookup_insert_eq|rewrite lookup_insert_ne by done; eauto].
    eexists. split; [done|]. cbn. congruence.
Qed.

(** a state between two states of a run *)
Definition between (s s' : Server) (evs : list ServerStep) : Prop := exists evs1 evs2, evs = evs1 ++ evs2 /\ s' = run_server s evs1.

(** the answers a request got, by a state since it started *)
Lemma answers_since s evs m th c a :
  sv_threads s !! m = None -> sv_threads (run_server s evs) !! m = Some th -> (c, a) ∈ th_trace th ->
  (exists len, c = CRandom len) \/
  exists s' o db, between s s' evs /\ run_call o (sv_clock s') c (sv_db s') = (a, db).
Proof.
  intros Hm. revert th. induction evs as [|e evs IH] using rev_ind; intros th Ht Hin; [cbn in Ht; congruence|].
  assert (forall th, sv_threads (run_server s evs) !! m = Some th -> (c, a) ∈ th_trace th ->
    (exists len, c = CRandom len) \/ exists s' o db, between s s' (evs ++ [e]) /\ run_call o (sv_clock s') c (sv_db s') = (a, db)) as IH'.
  { intros th' H1 H2. destruct (IH th' H1 H2) as [?|(s' & o & db & (e1 & e2 & -> & ->) & Hr)]; [by left|right].
    eexists _, o, db. split; [|exact Hr]. exists e1, (e2 ++ [e]). by rewrite app_assoc. }
  rewrite run_server_snoc in Ht.
  destruct (step_moved (run_server s evs) e) as [| |n r Hn|n th' c' k a' db drawn Hn Hp He]; cbn in Ht; eauto.
  - apply lookup_insert_Some in Ht as [[<- <-]|[? Ht]]; [by apply not_elem_of_nil in Hin|eauto].
  - apply lookup_insert_Some in Ht as [[<- <-]|[? Ht]]; [|eauto]. cbn in Hin.
    apply elem_snoc in Hin as [Hin|[= -> ->]]; [eauto|].
    destruct He as [(len & b & -> & _)|(o & Hr & _ & _)]; [left; eauto|right]. exists (run_server s evs), o, db.
    split; [|done]. exists evs, [e]. done.
Qed.
End machine.
