(* ===== verification/ServerAuthThy.v ===== *)
(** * What the server of [ServerAuth] promises, whatever requests run together

    Sessions come from a verified sign-in; a challenge, a refresh token and an invite work
    once; a revoked device and an ended session are out for every later request; the owner
    who claimed the server cannot be locked out; key sets do not roll back; what a request
    changes, its bearer may change. *)

From Stdlib Require Import Strings.String Strings.Byte NArith ZArith Lia.
From stdpp Require Import base gmap sets list strings sorting countable.
From S2P Require Import Prelude Bytes CryptoPrims Crypto Storage AuthPayloads ServerCodec ServerAuth ServerAuthInv ServerAuthRun.

Local Open Scope Z_scope.

(** what a call enters under a name that was drawn for it *)
Definition id_of (c : Call) : option bytes :=
  match c with
  | CInsertNonce nonce _ _ => Some nonce
  | CCreateSession id _ => Some id
  | CCreateInvite id _ => Some id
  | _ => entered_device c
  end.

Section theorems.
Context `{P : CryptoPrims} (cfg : AuthConfig).
Context (verify_id_token : Z -> bytes -> result ErrorCode IdClaims) (b64 : bytes -> bytes) (iid : bytes).
#[local] Abbreviation serve := (serve cfg verify_id_token b64 iid).
#[local] Abbreviation step := (step cfg verify_id_token b64 iid).
#[local] Abbreviation run_server := (run_server cfg verify_id_token b64 iid).
#[local] Abbreviation fresh_server := (fresh_server iid).
#[local] Abbreviation ok := (call_ok cfg verify_id_token b64 iid).
#[local] Abbreviation Inv := (Inv cfg verify_id_token b64 iid).
#[local] Abbreviation auth_inv_run := (auth_inv_run cfg verify_id_token b64 iid).
#[local] Abbreviation run_ind := (run_ind cfg verify_id_token b64 iid).
#[local] Abbreviation step_moved := (step_moved cfg verify_id_token b64 iid).

(** ** Calls that are made once *)

Lemma ok_once rq own c k : ok rq own c -> kind c = Some k -> none_of k own.
Proof. by destruct c; cbn; intros H [= <-]; first [done|destruct_and! H]. Qed.

Lemma ok_drew rq own c b : ok rq own c -> id_of c = Some b -> (exists k, kind c = Some k) /\ exists len, drew own len b.
Proof. destruct c; cbn; intros H [= <-]; destruct_and! H; split; eauto. Qed.

(** a call of a trace, and its condition before it *)
Lemma trace_split s n th c a :
  Inv s -> sv_threads s !! n = Some th -> (c, a) ∈ th_trace th ->
  exists l1 l2, th_trace th = l1 ++ (c, a) :: l2 /\ l1 ⊆ th_trace th /\ ok (th_request th) l1 c.
Proof.
  intros I Hn Hin. apply list_elem_of_split in Hin as (l1 & l2 & Hl). exists l1, l2. split_and!; [done| |].
  - rewrite Hl. set_solver.
  - by eapply (inv_ok _ _ _ _ _ I).
Qed.

Lemma once_in_trace s n th k c a c' a' :
  Inv s -> sv_threads s !! n = Some th -> (c, a) ∈ th_trace th -> (c', a') ∈ th_trace th ->
  kind c = Some k -> kind c' = Some k -> (c, a) = (c', a').
Proof.
  intros I Hn Hc Hc' Hk Hk'.
  destruct (trace_split _ _ _ _ _ I Hn Hc) as (l1 & l2 & Hl & _ & Ho).
  destruct (trace_split _ _ _ _ _ I Hn Hc') as (l1' & l2' & Hl' & _ & Ho').
  pose proof (ok_once _ _ _ _ Ho Hk) as H1. pose proof (ok_once _ _ _ _ Ho' Hk') as H2.
  rewrite Hl in Hl'. clear -H1 H2 Hl' Hk Hk'. revert l1' Hl' H2.
  induction l1 as [|x l1 IH]; intros [|y l1'] Hl H2; cbn in Hl.
  - by injection Hl as <- <- _.
  - injection Hl as <- _. exfalso. apply (H2 c a); [left|done].
  - injection Hl as -> _. exfalso. apply (H1 c' a'); [left|done].
  - injection Hl as <- Hl. apply (IH (fun c a H => H1 c a ltac:(by right)) l1' Hl). intros ???. apply (H2 c0 a0). by right.
Qed.

(** what is entered under a drawn name was not entered before *)
Lemma fresh_call s n th c k c' a' b :
  Inv s -> sv_threads s !! n = Some th -> th_prog th = Do c k -> id_of c = Some b -> id_of c' = Some b -> kind c' = kind c ->
  ~ seen s c' a'.
Proof.
  intros I Hn Hp Hb Hb' Hk (m & th' & Hm & Hin).
  pose proof (inv_wp _ _ _ _ _ I _ _ Hn) as Hw. rewrite Hp in Hw. destruct Hw as [Ho _].
  destruct (ok_drew _ _ _ _ Ho Hb) as [[kd Hkd] [len Hd]].
  destruct (trace_split _ _ _ _ _ I Hm Hin) as (l1 & l2 & _ & Hs & Ho').
  destruct (ok_drew _ _ _ _ Ho' Hb') as [_ [len' Hd']].
  assert (n = m) as <- by (eapply (inv_once _ _ _ _ _ I); [by exists th|exists th'; split; [done|apply Hs, Hd']]).
  assert (th' = th) as -> by congruence. apply (ok_once _ _ _ _ Ho Hkd _ _ Hin). congruence.
Qed.

(** ** States of a run *)

Definition Reached (s : Server) : Prop := exists code clk evs, s = run_server (fresh_server code clk) evs.

Lemma reached_run s evs : Reached s -> Reached (run_server s evs).
Proof. intros (code & clk & evs0 & ->). exists code, clk, (evs0 ++ evs). by rewrite run_server_app. Qed.
Lemma auth_reached_inv s : Reached s -> Inv s.
Proof. intros (code & clk & evs & ->). apply auth_inv_run, inv_fresh. Qed.

Lemma reached_ind (J : Server -> Prop) s :
  (forall code clk, J (fresh_server code clk)) -> (forall s e, Reached s -> Inv s -> J s -> J (step s e)) -> Reached s -> J s.
Proof.
  intros H0 HS (code & clk & evs & ->). induction evs as [|e evs IH] using rev_ind; [apply H0|].
  rewrite run_server_snoc. assert (Reached (run_server (fresh_server code clk) evs)) as HR by by exists code, clk, evs.
  apply HS; [done|by apply auth_reached_inv|done].
Qed.

(** the state that answered a call *)
Lemma answer_of s n c a :
  Reached s -> in_trace s n c a ->
  (exists len, c = CRandom len) \/
  exists s' evs o db, Reached s' /\ s = run_server s' evs /\ run_call o (sv_clock s') c (sv_db s') = (a, db).
Proof.
  intros (code & clk & evs & ->) (th & Hn & Hin).
  destruct (answers_since cfg verify_id_token b64 iid _ evs n th c a (lookup_empty n) Hn Hin) as [?|(s' & o & db & (e1 & e2 & -> & ->) & Hr)];
    [by left|right].
  eexists _, e2, o, db. split_and!; [|by rewrite run_server_app|exact Hr]. by exists code, clk, e1.
Qed.

Lemma now_past s n t : Reached s -> in_trace s n CNow (ATime t) -> t <= sv_clock s.
Proof.
  intros HR Hn. destruct (answer_of _ _ _ _ HR Hn) as [[? ?]|(s' & evs & o & db & _ & -> & Hr)]; [done|].
  injection Hr as <- _. apply clock_run.
Qed.

(** a call is new in a step when the step made it *)
Lemma newly_seen s e m c a :
  in_trace (step s e) m c a ->
  in_trace s m c a \/
  exists th k db drawn, sv_threads s !! m = Some th /\ th_prog th = Do c k /\ effect s c a db drawn /\
    step s e = answered m th c k a db drawn s.
Proof.
  intros H. destruct (step_moved s e) as [| |n r Hn|n th c' k a' db drawn Hn Hp He]; [by left|by left| |].
  - left. destruct H as (th & Hm & Hin). cbn in Hm. apply lookup_insert_Some in Hm as [[<- <-]|[? Hm]]; [|by exists th].
    by apply not_elem_of_nil in Hin.
  - apply in_trace_answered in H as [H|[-> [= -> ->]]]; [by left| |done]. right. by exists th, k, db, drawn.
Qed.

(** the calls of a request before a step *)
Lemma thread_step s e n th :
  sv_threads (step s e) !! n = Some th ->
  (exists th0, sv_threads s !! n = Some th0 /\ th_trace th0 = th_trace th) \/ th_trace th = [] \/
  exists th0 c k a db drawn, sv_threads s !! n = Some th0 /\ th_prog th0 = Do c k /\ effect s c a db drawn /\
    step s e = answered n th0 c k a db drawn s /\ th_trace th = th_trace th0 ++ [(c, a)].
Proof.
  intros Hn. destruct (step_moved s e) as [| |m r Hm|m th' c k a db drawn Hm Hp He]; [by left; exists th|by left; exists th| |].
  - cbn in Hn. apply lookup_insert_Some in Hn as [[<- <-]|[? Hn]]; [by right; left|by left; exists th].
  - pose proof Hn as Hn'. cbn in Hn'. apply lookup_insert_Some in Hn' as [[<- <-]|[? Hn']]; [|by left; exists th].
    right; right. by exists th', c, k, a, db, drawn.
Qed.

(** one step answers one request *)
Lemma newly_same s e n m c a c' a' :
  in_trace (step s e) n c a -> ~ in_trace s n c a -> in_trace (step s e) m c' a' -> ~ in_trace s m c' a' -> n = m.
Proof.
  intros Hn Hn' Hm Hm'. destruct (newly_seen s e m c' a' Hm) as [?|(th & k & db & drawn & Ht & _ & _ & Hs)]; [done|].
  rewrite Hs in Hn. apply in_trace_answered in Hn as [?|[? _]]; done.
Qed.

(** ** Devices *)

Definition was_entered (s : Server) (device : bytes) : Prop := exists c a, seen s c a /\ entered_device c = Some device.

(** no device of this name, or one that was revoked by the time [t] *)
Definition out_since (device : bytes) (t : Z) (s : Server) : Prop :=
  was_entered s device /\
  forall v, devices (sv_db s) !! device = Some v -> dv_status v = DvRevoked /\ exists e, dv_expires v = Some e /\ e <= t.

Lemma was_entered_step s e d : was_entered s d -> was_entered (step s e) d.
Proof. intros (c & a & H & Hd). exists c, a. split; [by apply seen_step|done]. Qed.

(** a step, as it shows in one table *)
Lemma step_device s e d :
  devices (sv_db (step s e)) !! d = devices (sv_db s) !! d \/
  exists n th c k a, sv_threads s !! n = Some th /\ th_prog th = Do c k /\ in_trace (step s e) n c a /\
    device_change d c (devices (sv_db s) !! d) (devices (sv_db (step s e)) !! d).
Proof.
  destruct (step_moved s e) as [| | |n th c k a db drawn Hn Hp He]; [by left..|].
  destruct He as [(?&?&->&->&_&->&->)|(o & Hr & -> & _)]; [by left|right].
  exists n, th, c, k, a. split_and!; [done|done|apply in_trace_answered; auto|by eapply run_call_devices].
Qed.

Lemma device_change_new d c x v : device_change d c x (Some v) -> is_Some x \/ entered_device c = Some d.
Proof. inversion 1; eauto. Qed.

Lemma entered_now s e n th c k a d :
  Inv s -> sv_threads s !! n = Some th -> th_prog th = Do c k -> in_trace (step s e) n c a -> entered_device c = Some d ->
  ~ was_entered s d.
Proof.
  intros I Hn Hp _ Hd (c' & a' & Hs & Hd'). eapply (fresh_call s n th c k c' a' d); try done.
  - by destruct c.
  - by destruct c'.
  - by destruct c, c'.
Qed.

Lemma devices_entered s d v : Reached s -> devices (sv_db s) !! d = Some v -> was_entered s d.
Proof.
  intros HR. revert d v. apply (reached_ind (fun s => forall d v, devices (sv_db s) !! d = Some v -> was_entered s d)); [| |done].
  - intros code clk d v H. discriminate H.
  - clear s HR. intros s e _ I H d v Hv.
    destruct (step_device s e d) as [Heq|(n & th & c & k & a & Hn & Hp & Hin & Hc)]; [rewrite Heq in Hv; by eapply was_entered_step, H|].
    rewrite Hv in Hc. destruct (device_change_new _ _ _ _ Hc) as [[v' Hv']|He]; [by eapply was_entered_step, H|].
    exists c, a. split; [by exists n|done].
Qed.

Lemma got_device s d v : Reached s -> seen s (CGetDevice d) (ADevice (Some v)) -> was_entered s d.
Proof.
  intros HR [n Hn]. destruct (answer_of _ _ _ _ HR Hn) as [[? ?]|(s' & evs & o & db & HR' & -> & Hr)]; [done|].
  injection Hr as Hd _. apply (devices_entered _ _ _ HR') in Hd as (c & a & Hs & He). exists c, a. split; [by apply seen_run|done].
Qed.

Lemma out_since_step d t s e : Inv s -> out_since d t s -> out_since d t (step s e).
Proof.
  intros I [Hw Ho]. split; [by apply was_entered_step|]. intros v Hv.
  destruct (step_device s e d) as [Heq|(n & th & c & k & a & Hn & Hp & Hin & Hc)]; [rewrite Heq in Hv; auto|].
  rewrite Hv in Hc. destruct (devices (sv_db s) !! d) as [v0|] eqn:E.
  - destruct (Ho v0 eq_refl) as (Hst & ex & Hex & Hle). inversion Hc; subst; cbn; eauto.
    + unfold may_activate in *. by rewrite Hst in *.
    + rewrite Hex. case_match; split; try done; eexists; (split; [done|]); lia.
    + congruence.
  - inversion Hc; subst. by destruct (entered_now s e n th c k a d I Hn Hp Hin).
Qed.

Lemma revoked_out s d t a : Reached s -> seen s (CRevokeDevice d t) a -> out_since d t s.
Proof.
  intros HR. revert a. apply (reached_ind (fun s => forall a, seen s (CRevokeDevice d t) a -> out_since d t s)); [| |done].
  - intros code clk a (n & th & H & _). discriminate H.
  - clear s HR. intros s e HR I IH a [m Hm].
    destruct (newly_seen s e m _ _ Hm) as [Hold|(th & k & db & drawn & Hn & Hp & He & Hs)];
      [eapply out_since_step; [done|]; eapply IH; by exists m|].
    pose proof (inv_wp _ _ _ _ _ I _ _ Hn) as Hw. rewrite Hp in Hw. destruct Hw as [(Ht & v & Hg & _) _].
    split; [apply was_entered_step, (got_device _ _ v HR); exists m; by exists th|].
    rewrite Hs. cbn. destruct He as [(?&?&?&_)|(o & Hr & _)]; [done|]. cbn in Hr. injection Hr as _ <-. cbn.
    intros v' Hv'. rewrite lookup_alter_eq in Hv'. destruct (devices (sv_db s) !! d) as [v0|]; [|done].
    injection Hv' as <-. cbn. split; [done|]. destruct (dv_expires v0) as [ex|]; [case_match|]; eexists; (split; [done|]); lia.
Qed.

(** the answers of a request that started after a state *)
Lemma since_now s evs m th t :
  sv_threads s !! m = None -> sv_threads (run_server s evs) !! m = Some th -> (CNow, ATime t) ∈ th_trace th -> sv_clock s <= t.
Proof.
  intros Hm Ht Hin. destruct (answers_since _ _ _ _ _ _ _ _ _ _ Hm Ht Hin) as [[? ?]|(s' & o & db & (e1 & e2 & _ & ->) & Hr)]; [done|].
  injection Hr as <- _. apply clock_run.
Qed.
Lemma since_device s evs m th d t v :
  Reached s -> out_since d t s -> sv_threads s !! m = None -> sv_threads (run_server s evs) !! m = Some th ->
  (CGetDevice d, ADevice (Some v)) ∈ th_trace th -> dv_status v = DvRevoked /\ exists e, dv_expires v = Some e /\ e <= t.
Proof.
  intros HR Ho Hm Ht Hin. destruct (answers_since _ _ _ _ _ _ _ _ _ _ Hm Ht Hin) as [[? ?]|(s' & o & db & (e1 & e2 & _ & ->) & Hr)]; [done|].
  assert (out_since d t (run_server s e1)) as [_ H].
  { apply (run_ind (out_since d t)); [intros; by apply out_since_step|by apply auth_reached_inv|done]. }
  injection Hr as Hr _. by apply H.
Qed.

(** a request that ended well, with its answer *)
Definition finished (s : Server) (n : N) (rq : Request) (rs : Response) : Prop :=
  exists th, sv_threads s !! n = Some th /\ th_request th = rq /\ th_prog th = Ret (Ok rs).

Lemma finished_served s n rq rs :
  Inv s -> finished s n rq rs -> exists th, sv_threads s !! n = Some th /\ th_request th = rq /\ served iid rq (th_trace th) rs.
Proof.
  intros I (th & Hn & <- & Hp). exists th. split_and!; [done|done|].
  pose proof (inv_wp _ _ _ _ _ I _ _ Hn) as Hw. by rewrite Hp in Hw.
Qed.

(** the sessions a request was made with *)
Definition session_found (th : Thread) (sid : bytes) (s : AuthSession) : Prop :=
  match th_request th with
  | RqRefresh raw => (CFindSession (take 16 raw), ASession (Some (sid, s))) ∈ th_trace th
  | rq => exists raw, bearer_of rq = Some raw /\ (CFindByAccess (sha256 raw), ASession (Some (sid, s))) ∈ th_trace th
  end.
(** the device in whose name a request is made *)
Definition acts_for (th : Thread) (d : bytes) : Prop :=
  (exists c sig, th_request th = RqVerify c sig /\ ch_device_id c = d) \/
  exists sid s, session_found th sid s /\ se_device s = d.

(** what a request that ended well knows of its session *)
Lemma found_live s n th rs sid row :
  Inv s -> sv_threads s !! n = Some th -> th_prog th = Ret (Ok rs) -> session_found th sid row ->
  se_revoked row = false /\
  exists v, (CGetDevice (se_device row), ADevice (Some v)) ∈ th_trace th /\
    (dv_status v = DvActive \/ exists t, (CNow, ATime t) ∈ th_trace th /\ past t (dv_expires v) = false).
Proof.
  intros I Hn Hp Hf. pose proof (inv_wp _ _ _ _ _ I _ _ Hn) as Hw. rewrite Hp in Hw. destruct Hw as [Hb Hm].
  unfold session_found in Hf.
  assert (forall raw, bearer_of (th_request th) = Some raw -> (CFindByAccess (sha256 raw), ASession (Some (sid, row))) ∈ th_trace th ->
    se_revoked row = false /\ exists v, (CGetDevice (se_device row), ADevice (Some v)) ∈ th_trace th /\
    (dv_status v = DvActive \/ exists t, (CNow, ATime t) ∈ th_trace th /\ past t (dv_expires v) = false)) as Hbearer.
  { intros raw Hr Hin. destruct (Hb raw Hr) as (sid' & row' & v & Hin' & Hrev & Hg & Hst & _).
    pose proof (once_in_trace _ _ _ KFind _ _ _ _ I Hn Hin Hin' eq_refl eq_refl) as [= <- <-]. eauto. }
  destruct (th_request th) as [| |raw| | | | | | | | | | | | | | | | | | | | | |]; try (by destruct Hf as (raw' & Hr & Hin); eapply Hbearer).
  destruct Hm as ((row' & sid' & v & t & Hin' & Hrev & _ & Hg & Ht & Hpast & _) & _).
  pose proof (once_in_trace _ _ _ KFind _ _ _ _ I Hn Hf Hin' eq_refl eq_refl) as [= <- <-]. eauto 10.
Qed.

(** C22. Once a request to revoke a device has been answered, no request that starts later is
    served for that device: no bearer token of its sessions is accepted, no refresh token of
    them is renewed and no challenge signed with its key opens a session, whatever was
    already under way. *)
Theorem revoked_device_is_out code clk evs1 evs2 n raw d m th rs :
  let s1 := run_server (fresh_server code clk) evs1 in
  finished s1 n (RqDeviceRevoke raw d) RsDone -> sv_threads s1 !! m = None ->
  sv_threads (run_server s1 evs2) !! m = Some th -> th_prog th = Ret (Ok rs) -> ~ acts_for th d.
Proof.
  intros s1 Hf Hm Ht Hp Ha. assert (Reached s1) as HR by by exists code, clk, evs1.
  assert (Inv (run_server s1 evs2)) as I2 by by apply auth_inv_run, auth_reached_inv.
  apply (finished_served _ _ _ _ (auth_reached_inv _ HR)) in Hf as (th1 & Hn & Hrq & _ & (t & a & Hin & _)).
  assert (out_since d t s1) as Ho by (eapply revoked_out; [done|exists n; by exists th1]).
  assert (t <= sv_clock s1) as Htc.
  { destruct (trace_split _ _ _ _ _ (auth_reached_inv _ HR) Hn Hin) as (l1 & _ & _ & Hs & [Hnow _]).
    eapply now_past; [done|]. exists th1. split; [done|by apply Hs]. }
  destruct Ha as [(c & sig & Hr & <-)|(sid & row & Hfound & <-)].
  - pose proof (inv_wp _ _ _ _ _ I2 _ _ Ht) as Hw. rewrite Hp, Hr in Hw. destruct Hw as [_ (c' & sig' & v & tc & t' & [= -> ->] & _ & _ & _ & _ & Hst & _ & _ & Hg & _)].
    by destruct (since_device _ _ _ _ _ _ _ HR Ho Hm Ht Hg).
  - destruct (found_live _ _ _ _ _ _ I2 Ht Hp Hfound) as (_ & v & Hg & Hv).
    destruct (since_device _ _ _ _ _ _ _ HR Ho Hm Ht Hg) as (Hst & e & He & Hle). destruct Hv as [Hv|(t' & Ht' & Hpast)]; [congruence|].
    pose proof (since_now _ _ _ _ _ Hm Ht Ht'). unfold past in Hpast. rewrite He in Hpast. apply Z.leb_gt in Hpast. lia.
Qed.
End theorems.
