(* ===== verification/ServerAuthSess.v ===== *)
(** * Sessions, challenges and refresh tokens of the server *)

From Stdlib Require Import Strings.String Strings.Byte NArith ZArith Lia.
From stdpp Require Import base gmap sets list strings sorting countable.
From S2P Require Import Prelude Bytes CryptoPrims Crypto Storage AuthPayloads ServerCodec ServerAuth ServerAuthInv ServerAuthRun ServerAuthThy.

Local Open Scope Z_scope.

Section theorems.
Context `{P : CryptoPrims} (cfg : AuthConfig).
Context (verify_id_token : Z -> bytes -> result ErrorCode IdClaims) (b64 : bytes -> bytes) (iid : bytes).
#[local] Abbreviation serve := (serve cfg verify_id_token b64 iid).
#[local] Abbreviation step := (step cfg verify_id_token b64 iid).
#[local] Abbreviation run_server := (run_server cfg verify_id_token b64 iid).
#[local] Abbreviation fresh_server := (fresh_server iid).
#[local] Abbreviation ok := (call_ok cfg verify_id_token b64 iid).
#[local] Abbreviation Inv := (Inv cfg verify_id_token b64 iid).
#[local] Abbreviation Reached := (Reached cfg verify_id_token b64 iid).

(** a step, as it shows in the tables *)
Lemma step_session s e sid :
  sessions (sv_db (step s e)) !! sid = sessions (sv_db s) !! sid \/
  exists n th c k a, sv_threads s !! n = Some th /\ th_prog th = Do c k /\ in_trace (step s e) n c a /\
    session_change sid c a (sessions (sv_db s) !! sid) (sessions (sv_db (step s e)) !! sid).
Proof.
  destruct (step_moved cfg verify_id_token b64 iid s e) as [| | |n th c k a db drawn Hn Hp He]; [by left..|].
  destruct He as [(?&?&->&->&_&->&->)|(o & Hr & -> & _)]; [by left|right].
  exists n, th, c, k, a. split_and!; [done|done|apply in_trace_answered; auto|by eapply run_call_sessions].
Qed.

(** ** Where a session comes from *)

Definition opened (s : Server) (sid : bytes) : Prop := exists row a, seen s (CCreateSession sid row) a.

(** the request that drew the tokens a session has *)
Definition minted (s : Server) (m : N) (sid : bytes) (r : AuthSession) : Prop :=
  exists th access secret, sv_threads s !! m = Some th /\ drew (th_trace th) 32 access /\ drew (th_trace th) 32 secret /\
    se_access_hash r = sha256 access /\ se_refresh_hash r = sha256 (build_refresh_token sid secret) /\
    exists c a, (c, a) ∈ th_trace th /\ kind c = Some KMint /\
      match c with CCreateSession id _ => id = sid | CRotateSession id _ _ _ _ _ => id = sid /\ a = ACount 1 | _ => False end.

Definition provenance (s : Server) (sid : bytes) (r : AuthSession) : Prop :=
  (exists row a, seen s (CCreateSession sid row) a /\ se_account r = se_account row /\ se_device r = se_device row /\
     se_source r = se_source row) /\ exists m, minted s m sid r.

Lemma minted_run s evs m sid r : minted s m sid r -> minted (run_server s evs) m sid r.
Proof.
  intros (th & access & secret & Hm & H1 & H2 & H3 & H4 & c & a & H5 & H6 & H7).
  assert (exists th', sv_threads (run_server s evs) !! m = Some th' /\ th_trace th ⊆ th_trace th') as (th' & Hm' & Hs).
  { destruct (in_trace_run cfg verify_id_token b64 iid s evs m c a) as (th' & Hm' & _); [by exists th|]. exists th'. split; [done|].
    intros [c0 a0] Hx. destruct (in_trace_run cfg verify_id_token b64 iid s evs m c0 a0) as (th'' & Hm'' & Hin); [by exists th|]. congruence. }
  exists th', access, secret. split_and!; [done|apply Hs, H1|apply Hs, H2|done|done|]. exists c, a. split_and!; [by apply Hs|done|done].
Qed.
Lemma provenance_run s evs sid r : provenance s sid r -> provenance (run_server s evs) sid r.
Proof.
  intros [(row & a & Hs & H) [m Hm]]. split; [exists row, a; split; [by apply seen_run|done]|exists m; by apply minted_run].
Qed.

(** a request that mints, at the call *)
Lemma minting s e n th c k a sid row :
  Inv s -> sv_threads s !! n = Some th -> th_prog th = Do c k -> in_trace (step s e) n c a ->
  match c with
  | CCreateSession id r => id = sid /\ se_access_hash row = se_access_hash r /\ se_refresh_hash row = se_refresh_hash r
  | CRotateSession id _ ah rh _ _ => id = sid /\ se_access_hash row = ah /\ se_refresh_hash row = rh /\ a = ACount 1
  | _ => False
  end -> minted (step s e) n sid row.
Proof.
  intros I Hn Hp Hin Hc. pose proof (inv_wp _ _ _ _ _ I _ _ Hn) as Hw. rewrite Hp in Hw. destruct Hw as [Ho _].
  destruct Hin as (th' & Hn' & Hin).
  assert (th_trace th ⊆ th_trace th') as Hs.
  { intros [c0 a0] Hx. destruct (in_trace_step cfg verify_id_token b64 iid s e n c0 a0) as (th'' & Hn'' & Hx'); [by exists th|]. congruence. }
  destruct c; try done.
  - destruct Hc as (-> & Ha & Hr). destruct Ho as (_ & _ & _ & (access & secret & H1 & H2 & H3 & H4) & _).
    exists th', access, secret. split_and!; [done|apply Hs, H1|apply Hs, H2|congruence|congruence|]. by eexists _, _.
  - destruct Hc as (-> & Ha & Hr & ->). destruct Ho as (_ & raw & s0 & acc & sec & _ & _ & _ & _ & H1 & H2 & H3 & H4).
    exists th', acc, sec. split_and!; [done|apply Hs, H1|apply Hs, H2|congruence|congruence|]. by eexists _, _.
Qed.

Lemma session_provenance s sid r : Reached s -> sessions (sv_db s) !! sid = Some r -> provenance s sid r.
Proof.
  intros HR. revert sid r. apply (reached_ind cfg verify_id_token b64 iid (fun s => forall sid r, sessions (sv_db s) !! sid = Some r -> provenance s sid r)); [| |done].
  - intros code clk sid r H. discriminate H.
  - clear s HR. intros s e _ I IH sid r Hr.
    assert (forall r0, sessions (sv_db s) !! sid = Some r0 -> provenance (step s e) sid r0) as Hold.
    { intros r0 H. apply (provenance_run s [e]). by apply IH. }
    destruct (step_session s e sid) as [Heq|(n & th & c & k & a & Hn & Hp & Hin & Hc)]; [rewrite Heq in Hr; auto|].
    rewrite Hr in Hc. destruct (sessions (sv_db s) !! sid) as [r0|] eqn:Ex; inversion Hc; subst; auto.
    + by destruct (Hold _ eq_refl) as [H1 [m H2]]; split; [|exists m].
    + destruct (Hold _ eq_refl) as [H1 _]. split; [done|]. exists n. by eapply minting.
    + split; [exists r, a; split; [by exists n|done]|]. exists n. by eapply minting.
Qed.

(** ** Challenges *)

Lemma step_nonce s e x :
  auth_nonces (sv_db (step s e)) !! x = auth_nonces (sv_db s) !! x \/
  exists n th c k a, sv_threads s !! n = Some th /\ th_prog th = Do c k /\ in_trace (step s e) n c a /\
    nonce_change x c a (auth_nonces (sv_db s) !! x) (auth_nonces (sv_db (step s e)) !! x).
Proof.
  destruct (step_moved cfg verify_id_token b64 iid s e) as [| | |n th c k a db drawn Hn Hp He]; [by left..|].
  destruct He as [(?&?&->&->&_&->&->)|(o & Hr & -> & _)]; [by left|right].
  exists n, th, c, k, a. split_and!; [done|done|apply in_trace_answered; auto|by eapply run_call_nonces].
Qed.

Definition issued (s : Server) (x device : bytes) : Prop := exists e a, seen s (CInsertNonce x device e) a.
Lemma issued_run s evs x d : issued s x d -> issued (run_server s evs) x d.
Proof. intros (e & a & H). exists e, a. by apply seen_run. Qed.

Lemma nonce_issued s x r :
  Reached s -> auth_nonces (sv_db s) !! x = Some r -> exists device, no_device r = Some device /\ issued s x device.
Proof.
  intros HR. revert x r. apply (reached_ind cfg verify_id_token b64 iid (fun s => forall x r, auth_nonces (sv_db s) !! x = Some r -> exists device, no_device r = Some device /\ issued s x device)); [| |done].
  - intros code clk x r H. discriminate H.
  - clear s HR. intros s e _ I IH x r Hr.
    assert (forall r0, auth_nonces (sv_db s) !! x = Some r0 -> exists device, no_device r0 = Some device /\ issued (step s e) x device) as Hold.
    { intros r0 H. destruct (IH _ _ H) as (d & Hd & Hi). exists d. split; [done|]. by apply (issued_run s [e]). }
    destruct (step_nonce s e x) as [Heq|(n & th & c & k & a & Hn & Hp & Hin & Hc)]; [rewrite Heq in Hr; auto|].
    rewrite Hr in Hc. destruct (auth_nonces (sv_db s) !! x) as [r0|] eqn:Ex; inversion Hc; subst; auto.
    + by apply (Hold r0).
    + eexists. split; [done|]. eexists _, a. by exists n.
Qed.

Definition consumed (s : Server) (n : N) (x device : bytes) : Prop := exists t, in_trace s n (CConsumeNonce x device t) (ABool true).
(** a nonce that was consumed: issued, and not usable again *)
Definition spent (s : Server) (x device : bytes) : Prop :=
  issued s x device /\ forall r, auth_nonces (sv_db s) !! x = Some r -> no_consumed r = true.

Lemma spent_step s e x d : Inv s -> spent s x d -> spent (step s e) x d.
Proof.
  intros I [Hi Hs]. split; [by apply (issued_run s [e])|]. intros r Hr.
  destruct (step_nonce s e x) as [Heq|(n & th & c & k & a & Hn & Hp & Hin & Hc)]; [rewrite Heq in Hr; auto|].
  rewrite Hr in Hc. destruct (auth_nonces (sv_db s) !! x) as [r0|] eqn:Ex; inversion Hc; subst; auto.
  exfalso. destruct Hi as (e' & a' & Hseen).
  by eapply (fresh_call _ _ _ _ s n th _ k (CInsertNonce x d e') a' x I Hn Hp).
Qed.

Lemma consumed_once s x :
  Reached s -> (forall n d, consumed s n x d -> spent s x d) /\ (forall n m d d', consumed s n x d -> consumed s m x d' -> n = m).
Proof.
  apply (reached_ind cfg verify_id_token b64 iid (fun s => (forall n d, consumed s n x d -> spent s x d) /\ (forall n m d d', consumed s n x d -> consumed s m x d' -> n = m))).
  - intros code clk. split; intros n; intros; by match goal with H : consumed _ _ _ _ |- _ => destruct H as (? & ? & H & _); discriminate H end.
  - clear s. intros s e HR I [IH1 IH2].
    assert (forall n d t, in_trace (step s e) n (CConsumeNonce x d t) (ABool true) ->
      consumed s n x d \/ (spent (step s e) x d /\ forall m d', ~ consumed s m x d')) as Hnew.
    { intros n d t Hin. destruct (newly_seen cfg verify_id_token b64 iid s e n _ _ Hin) as [Hold|(th & k & db & drawn & Hn & Hp & He & Hs)];
        [left; by exists t|right].
      destruct He as [(?&?&?&_)|(o & Hr & _)]; [done|]. cbn in Hr.
      destruct (auth_nonces (sv_db s) !! x) as [r|] eqn:Ex; [|done]. destruct (nonce_usable d t r) eqn:Hu; [|done].
      unfold nonce_usable in Hu. rewrite !andb_true_iff, negb_true_iff, bool_decide_eq_true in Hu. destruct Hu as [[Hd Hc] _].
      destruct (nonce_issued s x r HR Ex) as (d0 & Hd0 & Hi). assert (d0 = d) as -> by congruence. injection Hr as <-.
      split; [split; [by apply (issued_run s [e])|]|].
      - rewrite Hs. cbn. rewrite lookup_insert_eq. by intros r' [= <-].
      - intros m d' Hm. apply IH1 in Hm as [_ Hsp]. specialize (Hsp _ Ex). congruence. }
    split.
    + intros n d [t Hin]. destruct (Hnew _ _ _ Hin) as [Hold|[Hsp _]]; [|done]. apply spent_step; [done|by eapply IH1].
    + intros n m d d' [t Hin] [t' Hin']. destruct (Hnew _ _ _ Hin) as [Hold|[_ Hno]]; destruct (Hnew _ _ _ Hin') as [Hold'|[_ Hno']].
      * by eapply IH2.
      * by destruct (Hno' n d).
      * by destruct (Hno m d').
      * eapply (newly_same cfg verify_id_token b64 iid s e); [exact Hin| |exact Hin'|]; intros H;
          [apply (Hno n d)|apply (Hno m d')]; eexists; exact H.
Qed.

(** A challenge opens at most one session: two requests that signed in with the same nonce
    are one request. *)
Theorem challenge_opens_one_session code clk evs n m c sig rs c' sig' rs' :
  let s := run_server (fresh_server code clk) evs in
  finished s n (RqVerify c sig) rs -> finished s m (RqVerify c' sig') rs' -> ch_nonce c = ch_nonce c' -> n = m.
Proof.
  intros s Hn Hm Hc. assert (Reached s) as HR by by exists code, clk, evs.
  assert (forall n c sig rs, finished s n (RqVerify c sig) rs -> consumed s n (ch_nonce c) (ch_device_id c)) as Hf.
  { clear. intros n c sig rs (th & Hn & _ & _ & (c' & sig' & v & t & t' & [= -> ->] & H))%(finished_served cfg verify_id_token b64 iid);
      [|by apply auth_inv_run, inv_fresh]. exists t. exists th. by destruct_and! H. }
  apply Hf in Hn, Hm. rewrite <- Hc in Hm. by eapply (consumed_once s (ch_nonce c) HR).
Qed.

(** ** Accepted sessions *)

Lemma access_found s n h sid r :
  Reached s -> in_trace s n (CFindByAccess h) (ASession (Some (sid, r))) -> provenance s sid r /\ se_access_hash r = h.
Proof.
  intros HR Hn. destruct (answer_of _ _ _ _ _ _ _ _ HR Hn) as [[? ?]|(s' & evs & o & db & HR' & -> & Hr)]; [done|].
  cbn in Hr. injection Hr as Hr _. apply find_row_Some in Hr as [Hs Hh]. apply bytes_eqb_true in Hh.
  split; [|done]. by apply provenance_run, session_provenance.
Qed.
Lemma session_by_id s n id sid r :
  Reached s -> in_trace s n (CFindSession id) (ASession (Some (sid, r))) -> provenance s sid r /\ sid = id.
Proof.
  intros HR Hn. destruct (answer_of _ _ _ _ _ _ _ _ HR Hn) as [[? ?]|(s' & evs & o & db & HR' & -> & Hr)]; [done|].
  cbn in Hr. destruct (sessions (sv_db s') !! id) as [r0|] eqn:E; [|done]. injection Hr as <- <- _.
  split; [|done]. by apply provenance_run, session_provenance.
Qed.

(** how the session [sid] of [account] on [device] was opened *)
Definition opened_by (s : Server) (sid account device : bytes) : Prop :=
  exists m th row a, sv_threads s !! m = Some th /\ (CCreateSession sid row, a) ∈ th_trace th /\
    se_account row = account /\ se_device row = device /\
    match se_source row with
    | SrcKeyset =>
        signed_in iid (th_request th) (th_trace th) account device /\
        exists c sig, th_request th = RqVerify c sig /\ issued s (ch_nonce c) device
    | SrcOidc => oidc_in cfg verify_id_token b64 (th_request th) (th_trace th) account device
    end.

Lemma provenance_opened s sid r : Reached s -> provenance s sid r -> opened_by s sid (se_account r) (se_device r).
Proof.
  intros HR [(row & a & (m & th & Hm & Hin) & Ha & Hd & _) _].
  destruct (trace_split _ _ _ _ _ _ _ _ _ (auth_reached_inv _ _ _ _ _ HR) Hm Hin) as (l1 & l2 & Hl & Hs & (_ & _ & _ & _ & Ho)).
  exists m, th, row, a. rewrite Ha, Hd. split_and!; [done..|]. destruct (se_source row).
  - eapply signed_in_mono in Ho; [|exact Hs]. split; [done|].
    destruct Ho as (c & sig & v & t & t' & Hr & _ & _ & <- & _ & _ & _ & _ & _ & _ & Hc). exists c, sig. split; [done|].
    destruct (consumed_once s (ch_nonce c) HR) as [Hsp _]. apply (Hsp m). exists t. by exists th.
  - by eapply oidc_in_mono.
Qed.

(** C21. A bearer token is accepted only for a session of its own: the session was opened by a
    request that proved the key of its device — a challenge this server issued for the
    device and the device signed, or an identity token bound to the device's key — for the
    account of the device, and the token has the hash of an access token that was drawn for
    this very session. *)
Theorem accepted_session_was_opened code clk evs n th raw sid row :
  let s := run_server (fresh_server code clk) evs in
  sv_threads s !! n = Some th -> (CFindByAccess (sha256 raw), ASession (Some (sid, row))) ∈ th_trace th ->
  opened_by s sid (se_account row) (se_device row) /\
  exists m r access, minted s m sid r /\ sha256 access = sha256 raw /\ in_trace s m (CRandom 32) (ABytes access).
Proof.
  intros s Hn Hin. assert (Reached s) as HR by by exists code, clk, evs.
  destruct (access_found s n (sha256 raw) sid row HR) as [Hp Hh]; [by exists th|].
  split; [by apply provenance_opened|]. destruct Hp as [_ [m Hm]].
  pose proof Hm as (th' & access & secret & Ht & Hd & _ & Ha & _). exists m, row, access. split_and!; [done|congruence|by exists th'].
Qed.

(** ** Sessions that ended *)

Definition dead_session (sid : bytes) (s : Server) : Prop :=
  opened s sid /\ forall r, sessions (sv_db s) !! sid = Some r -> se_revoked r = true.

Lemma opened_run s evs sid : opened s sid -> opened (run_server s evs) sid.
Proof. intros (row & a & H). exists row, a. by apply seen_run. Qed.
Lemma provenance_was_opened s sid r : provenance s sid r -> opened s sid.
Proof. intros [(row & a & H & _) _]. by exists row, a. Qed.

Lemma dead_session_step sid s e : Inv s -> dead_session sid s -> dead_session sid (step s e).
Proof.
  intros I [Ho Hd]. split; [by apply (opened_run s [e])|]. intros r Hr.
  destruct (step_session s e sid) as [Heq|(n & th & c & k & a & Hn & Hp & Hin & Hc)]; [rewrite Heq in Hr; auto|].
  rewrite Hr in Hc. destruct (sessions (sv_db s) !! sid) as [r0|] eqn:Ex; inversion Hc; subst; auto.
  - specialize (Hd _ eq_refl). unfold rotates in *. rewrite Hd in *. by rewrite andb_false_r in *.
  - exfalso. destruct Ho as (row & a' & Hseen).
    by eapply (fresh_call _ _ _ _ s n th _ k (CCreateSession sid row) a' sid I Hn Hp).
Qed.

(** a session the request itself had found, or one that was there, is dead once it was revoked *)
Lemma revoked_session_dead s n th sid a :
  Reached s -> sv_threads s !! n = Some th -> (CRevokeSession sid, a) ∈ th_trace th ->
  a <> ACount 0 \/ (forall raw, th_request th <> RqSessionRevoke raw sid) -> dead_session sid s.
Proof.
  intros HR. revert n th a.
  apply (reached_ind cfg verify_id_token b64 iid (fun s => forall n th a, sv_threads s !! n = Some th -> (CRevokeSession sid, a) ∈ th_trace th ->
    a <> ACount 0 \/ (forall raw, th_request th <> RqSessionRevoke raw sid) -> dead_session sid s)); [| |done].
  - intros code clk n th a H. discriminate H.
  - clear s HR. intros s e HR I IH n th a Hn Hin Ha.
    destruct (newly_seen cfg verify_id_token b64 iid s e n (CRevokeSession sid) a) as [(th0 & Hn0 & Hin0)|(th0 & k & db & drawn & Hn0 & Hp & He & Hs)]; [by exists th| |].
    + apply dead_session_step; [done|]. eapply IH; [done|done|]. destruct Ha as [?|Ha]; [by left|right].
      destruct (thread_run cfg verify_id_token b64 iid s [e] n th0 Hn0) as (th' & Hn' & Hr). cbn in Hn'. rewrite <- Hr.
      assert (th' = th) as -> by congruence. done.
    + assert (th_request th = th_request th0) as Hrq.
      { rewrite Hs in Hn. cbn in Hn. rewrite lookup_insert_eq in Hn. by injection Hn as <-. }
      destruct He as [(?&?&?&_)|(o & Hr & _)]; [done|]. cbn in Hr. injection Hr as Hans <-.
      pose proof (inv_wp _ _ _ _ _ I _ _ Hn0) as Hw. rewrite Hp in Hw. destruct Hw as [Hok _].
      assert (opened s sid) as Ho.
      { destruct (sessions (sv_db s) !! sid) as [r|] eqn:Ex; [by eapply provenance_was_opened, session_provenance|].
        destruct Ha as [Ha|Ha]; [congruence|]. rewrite Hrq in Ha.
        destruct Hok as [(raw & row & v & _ & Hf & _)|[[[raw Hraw] _]|(raw & sid' & row & Hraw & Hid & Hf & _)]].
        - eapply provenance_was_opened, access_found; [done|]. by exists th0.
        - by destruct (Ha raw).
        - destruct (session_by_id s n sid sid' row HR) as [Hpr ->]; [by exists th0|]. by eapply provenance_was_opened. }
      split; [by apply (opened_run s [e])|]. rewrite Hs. cbn. intros r Hr. rewrite lookup_alter_eq in Hr.
      destruct (sessions (sv_db s) !! sid); [|done]. by injection Hr as <-.
Qed.

(** a refresh that meets a live session with another token has revoked it when it is over *)
Lemma reuse_revokes s n th raw r sid row :
  Reached s -> sv_threads s !! n = Some th -> th_request th = RqRefresh raw -> th_prog th = Ret r ->
  (CFindSession (take 16 raw), ASession (Some (sid, row))) ∈ th_trace th -> se_revoked row = false ->
  se_refresh_hash row <> sha256 raw -> exists a, (CRevokeSession (take 16 raw), a) ∈ th_trace th.
Proof.
  intros HR Hn Hrq Hp Hin Hrev Hne. pose proof (auth_reached_inv _ _ _ _ _ HR) as I.
  pose proof (inv_runs _ _ _ _ _ I _ _ Hn) as Hr. rewrite Hrq, Hp in Hr.
  assert (forall c a, (c, a) ∈ th_trace th -> kind c = Some KFind -> a = ASession (Some (sid, row))) as Hfind.
  { intros c a Hc Hk. by pose proof (once_in_trace _ _ _ _ _ _ _ KFind _ _ _ _ I Hn Hc Hin Hk eq_refl) as [= _ ->]. }
  assert (forall a, (CNow, a) ∈ th_trace th -> exists t, a = ATime t) as Hnow.
  { intros a Hc. destruct (answer_of _ _ _ _ _ n _ _ HR (ex_intro _ th (conj Hn Hc))) as [[? ?]|(s' & ? & ? & ? & _ & _ & Hr')]; [done|].
    injection Hr' as <- _. eauto. }
  cbn [ServerAuth.serve] in Hr. unfold reply, session_refresh in Hr.
  destruct (length raw =? 16 + 32)%nat; cbn in Hr; [|destruct (th_trace th) as [|[c a] tr]; [by apply not_elem_of_nil in Hin|done]].
  destruct (th_trace th) as [|[c a] tr]; [by apply not_elem_of_nil in Hin|]. cbn in Hr. destruct Hr as [-> Hr].
  rewrite (Hfind (CFindSession (take 16 raw)) a ltac:(left) eq_refl) in Hr. cbn in Hr. rewrite Hrev in Hr. cbn in Hr.
  destruct tr as [|[c a1] tr]; [done|]. cbn in Hr. destruct Hr as [-> Hr].
  destruct (Hnow a1 ltac:(right; left)) as [t ->]. cbn in Hr.
  destruct (bytes_eqb (se_refresh_hash row) (sha256 raw)) eqn:E; [by apply bytes_eqb_true in E|]. cbn in Hr.
  destruct tr as [|[c a2] tr]; [done|]. cbn in Hr. destruct Hr as [-> _]. exists a2. right; right; left.
Qed.

(** why a session ended: its bearer signed out, an owner revoked it, or a refresh token that
    was no longer its own was presented *)
Definition ended (s : Server) (sid : bytes) : Prop :=
  exists n th, sv_threads s !! n = Some th /\
  match th_request th with
  | RqLogout raw => th_prog th = Ret (Ok RsDone) /\ exists row, (CFindByAccess (sha256 raw), ASession (Some (sid, row))) ∈ th_trace th
  | RqSessionRevoke _ id => th_prog th = Ret (Ok RsDone) /\ id = sid
  | RqRefresh raw =>
      (exists r, th_prog th = Ret r) /\ sid = take 16 raw /\
      exists row, (CFindSession sid, ASession (Some (sid, row))) ∈ th_trace th /\ se_revoked row = false /\ se_refresh_hash row <> sha256 raw
  | _ => False
  end.

Lemma ended_dead s sid : Reached s -> ended s sid -> dead_session sid s.
Proof.
  intros HR (n & th & Hn & He). pose proof (auth_reached_inv _ _ _ _ _ HR) as I. pose proof (inv_wp _ _ _ _ _ I _ _ Hn) as Hw.
  destruct (th_request th) eqn:Hrq; try done.
  - destruct He as ([r Hp] & -> & row & Hin & Hrev & Hne).
    destruct (reuse_revokes _ _ _ _ _ _ _ HR Hn Hrq Hp Hin Hrev Hne) as [a Ha].
    eapply revoked_session_dead; [done..|]. right. intros raw. by rewrite Hrq.
  - destruct He as [Hp [row Hin]]. rewrite Hp in Hw. destruct Hw as [Hb (raw & sid' & row' & v & (Hin' & _) & a & Ha & _)].
    pose proof (once_in_trace _ _ _ _ _ _ _ KFind _ _ _ _ I Hn Hin Hin' eq_refl eq_refl) as [= _ <- _].
    eapply revoked_session_dead; [done..|]. right. intros raw'. by rewrite Hrq.
  - destruct He as [Hp ->]. rewrite Hp in Hw. destruct Hw as [_ (k & Hin & Hk)].
    eapply revoked_session_dead; [done..|]. left. intros [= ->]. done.
Qed.

(** C24. An ended session is over: once its bearer's sign-out or an owner's revocation was
    answered, or a refresh token that is no longer its own was presented and refused, no
    request that starts later is served with it, by bearer or by refresh token. *)
Theorem ended_session_is_out code clk evs1 evs2 sid m th rs row :
  let s1 := run_server (fresh_server code clk) evs1 in
  ended s1 sid -> sv_threads s1 !! m = None -> sv_threads (run_server s1 evs2) !! m = Some th -> th_prog th = Ret (Ok rs) ->
  ~ session_found th sid row.
Proof.
  intros s1 He Hm Ht Hp Hf. assert (Reached s1) as HR by by exists code, clk, evs1.
  apply (ended_dead _ _ HR) in He. pose proof (auth_reached_inv _ _ _ _ _ HR) as I1.
  assert (Inv (run_server s1 evs2)) as I2 by by apply auth_inv_run.
  destruct (found_live _ _ _ _ _ _ _ _ _ _ I2 Ht Hp Hf) as [Hlive _].
  assert (forall c, (c, ASession (Some (sid, row))) ∈ th_trace th -> kind c = Some KFind ->
    exists s', dead_session sid s' /\ sessions (sv_db s') !! sid = Some row) as Hrow.
  { intros c Hin Hk. destruct (answers_since _ _ _ _ _ _ _ _ _ _ Hm Ht Hin) as [[? ->]|(s' & o & db & (e1 & e2 & _ & ->) & Hr)]; [done|].
    exists (run_server s1 e1). split; [apply (run_ind cfg verify_id_token b64 iid (dead_session sid)); [intros; by apply dead_session_step|done|done]|].
    destruct c; try done; cbn in Hr.
    - injection Hr as Hr _. by apply find_row_Some in Hr as [Hr _].
    - destruct (sessions _ !! id) as [r0|] eqn:E; [|done]. injection Hr as -> -> _. done. }
  assert (exists c, (c, ASession (Some (sid, row))) ∈ th_trace th /\ kind c = Some KFind) as (c & Hin & Hk).
  { unfold session_found in Hf. destruct (th_request th); try (by destruct Hf as (raw & _ & Hin); eexists; split; [exact Hin|]).
    by eexists. }
  destruct (Hrow c Hin Hk) as (s' & [_ Hd] & Hs'). specialize (Hd _ Hs'). congruence.
Qed.

(** ** Refresh tokens *)

(** no two secrets the server drew have refresh tokens with the same hash *)
Definition no_collision (s : Server) (sid : bytes) : Prop :=
  forall x y, x ∈ sv_drawn s -> y ∈ sv_drawn s -> sha256 (build_refresh_token sid x) = sha256 (build_refresh_token sid y) -> x = y.

Lemma drawn_step s e : sv_drawn s ⊆ sv_drawn (step s e).
Proof.
  destruct (step_moved cfg verify_id_token b64 iid s e) as [| | |n th c k a db drawn Hn Hp He]; cbn; try done.
  destruct He as [(?&?&->&->&_&->&->)|(o & Hr & -> & _)]; set_solver.
Qed.

(** the refresh tokens with this hash were installed by a request that minted it *)
Definition installed (s : Server) (m : N) (sid h : bytes) : Prop :=
  exists th secret c a, sv_threads s !! m = Some th /\ drew (th_trace th) 32 secret /\ h = sha256 (build_refresh_token sid secret) /\
    (c, a) ∈ th_trace th /\ kind c = Some KMint.

Lemma minted_installed s m sid r : minted s m sid r -> installed s m sid (se_refresh_hash r).
Proof. intros (th & access & secret & H1 & H2 & H3 & H4 & H5 & c & a & H6 & H7 & _). by exists th, secret, c, a. Qed.
Lemma installed_step s e m sid h : installed s m sid h -> installed (step s e) m sid h.
Proof.
  intros (th & secret & c & a & Hm & Hd & -> & Hc & Hk).
  destruct (in_trace_step cfg verify_id_token b64 iid s e m c a) as (th' & Hm' & Hc'); [by exists th|].
  destruct (in_trace_step cfg verify_id_token b64 iid s e m (CRandom 32) (ABytes secret)) as (th'' & Hm'' & Hd'); [by exists th|].
  assert (th'' = th') as -> by congruence. by exists th', secret, c, a.
Qed.

(** what a request that has minted nothing yet is about to install is new *)
Lemma installed_new s n th m sid secret :
  Inv s -> no_collision s sid -> sv_threads s !! n = Some th -> none_of KMint (th_trace th) -> drew (th_trace th) 32 secret ->
  ~ installed s m sid (sha256 (build_refresh_token sid secret)).
Proof.
  intros I HC Hn Hno Hd (th' & secret' & c & a & Hm & Hd' & Heq & Hc & Hk).
  assert (secret' = secret) as ->.
  { symmetry. apply HC; [eapply (inv_drawn _ _ _ _ _ I n); by exists th|eapply (inv_drawn _ _ _ _ _ I m); by exists th'|done]. }
  assert (n = m) as <- by (eapply (inv_once _ _ _ _ _ I); [by exists th|by exists th']).
  assert (th' = th) as -> by congruence. by apply (Hno c a).
Qed.

Definition rotated (s : Server) (n : N) (sid h : bytes) : Prop :=
  exists ah rh ae re, in_trace s n (CRotateSession sid h ah rh ae re) (ACount 1).
(** a refresh token that was used: minted, of a session that was opened, and not its current one *)
Definition used_up (s : Server) (sid h : bytes) : Prop :=
  (exists m, installed s m sid h) /\ opened s sid /\ forall r, sessions (sv_db s) !! sid = Some r -> se_refresh_hash r <> h.

Lemma used_up_step s e sid h : Inv s -> no_collision s sid -> used_up s sid h -> used_up (step s e) sid h.
Proof.
  intros I HC ([m Hi] & Ho & Hu). split_and!; [exists m; by apply installed_step|by apply (opened_run s [e])|]. intros r Hr.
  destruct (step_session s e sid) as [Heq|(n & th & c & k & a & Hn & Hp & Hin & Hc)]; [rewrite Heq in Hr; auto|].
  rewrite Hr in Hc. destruct (sessions (sv_db s) !! sid) as [r0|] eqn:Ex; inversion Hc; subst; auto.
  - cbn. by apply Hu.
  - cbn. intros <-. pose proof (inv_wp _ _ _ _ _ I _ _ Hn) as Hw. rewrite Hp in Hw.
    destruct Hw as [(Hno & raw & s0 & acc & sec & _ & _ & _ & _ & _ & Hd & _ & ->) _].
    by eapply installed_new.
  - exfalso. destruct Ho as (row & a' & Hseen).
    by eapply (fresh_call _ _ _ _ s n th _ k (CCreateSession sid row) a' sid I Hn Hp).
Qed.

Lemma rotated_once s sid h :
  Reached s -> no_collision s sid ->
  (forall n, rotated s n sid h -> used_up s sid h) /\ (forall n m, rotated s n sid h -> rotated s m sid h -> n = m).
Proof.
  apply (reached_ind cfg verify_id_token b64 iid (fun s => no_collision s sid ->
    (forall n, rotated s n sid h -> used_up s sid h) /\ (forall n m, rotated s n sid h -> rotated s m sid h -> n = m))).
  - intros code clk _. split; intros n; intros; by match goal with H : rotated _ _ _ _ |- _ => destruct H as (?&?&?&?&?&H&_); discriminate H end.
  - clear s. intros s e HR I IH HC'.
    assert (no_collision s sid) as HC by (intros x y Hx Hy; apply HC'; by apply drawn_step). destruct (IH HC) as [IH1 IH2].
    assert (forall n ah rh ae re, in_trace (step s e) n (CRotateSession sid h ah rh ae re) (ACount 1) ->
      rotated s n sid h \/ (used_up (step s e) sid h /\ forall m, ~ rotated s m sid h)) as Hnew.
    { intros n ah rh ae re Hin. destruct (newly_seen cfg verify_id_token b64 iid s e n _ _ Hin) as [Hold|(th & k & db & drawn & Hn & Hp & He & Hs)];
        [left; by exists ah, rh, ae, re|right].
      destruct He as [(?&?&?&_)|(o & Hr & _)]; [done|]. cbn in Hr.
      destruct (sessions (sv_db s) !! sid) as [r|] eqn:Ex; [|done]. destruct (rotates h r) eqn:Hu; [|done].
      apply andb_true_iff in Hu as [Hu _]. apply bytes_eqb_true in Hu. injection Hr as <-.
      pose proof (session_provenance s sid r HR Ex) as Hprov.
      split; [split_and!|].
      - destruct Hprov as [_ [m Hm]]. exists m. apply installed_step. rewrite <- Hu. by apply minted_installed.
      - by eapply (opened_run s [e]), provenance_was_opened.
      - rewrite Hs. cbn. rewrite lookup_insert_eq. intros r' [= <-]. cbn. intros Heq.
        pose proof (inv_wp _ _ _ _ _ I _ _ Hn) as Hw. rewrite Hp in Hw.
        destruct Hw as [(Hno & raw & s0 & acc & sec & _ & _ & _ & _ & _ & Hd & _ & Hrh) _].
        destruct Hprov as [_ [m Hm]]. apply minted_installed in Hm. rewrite Hu, <- Heq, Hrh in Hm. by eapply installed_new.
      - intros m Hm. apply IH1 in Hm as (_ & _ & Hno). by apply (Hno _ Ex). }
    split.
    + intros n (ah & rh & ae & re & Hin). destruct (Hnew _ _ _ _ _ Hin) as [Hold|[Hsp _]]; [|done]. apply used_up_step; [done|done|by eapply IH1].
    + intros n m (ah & rh & ae & re & Hin) (ah' & rh' & ae' & re' & Hin').
      destruct (Hnew _ _ _ _ _ Hin) as [Hold|[_ Hno]]; destruct (Hnew _ _ _ _ _ Hin') as [Hold'|[_ Hno']].
      * by eapply IH2.
      * by destruct (Hno' n).
      * by destruct (Hno m).
      * eapply (newly_same cfg verify_id_token b64 iid s e); [exact Hin| |exact Hin'|]; intros H; [apply (Hno n)|apply (Hno m)]; by eexists _, _, _, _.
Qed.

(** C23. A refresh token is good once: two requests that were answered with new tokens for the
    same refresh token are one request, however they ran together (no two tokens the server
    drew for the session having the same SHA-256). *)
Theorem refresh_token_is_good_once code clk evs raw n m rs rs' :
  let s := run_server (fresh_server code clk) evs in
  no_collision s (take 16 raw) ->
  finished s n (RqRefresh raw) rs -> finished s m (RqRefresh raw) rs' -> n = m.
Proof.
  intros s HC Hn Hm. assert (Reached s) as HR by by exists code, clk, evs.
  assert (forall n rs, finished s n (RqRefresh raw) rs -> rotated s n (take 16 raw) (sha256 raw)) as Hf.
  { clear. intros n rs (th & Hn & _ & _ & (_ & ah & rh & ae & re & H))%(finished_served cfg verify_id_token b64 iid);
      [|by apply auth_inv_run, inv_fresh]. exists ah, rh, ae, re. by exists th. }
  apply Hf in Hn, Hm. by eapply (rotated_once s (take 16 raw) (sha256 raw) HR HC).
Qed.
End theorems.
