(* ===== verification/ServerAuthRoles.v ===== *)
(** * The owner, key sets and invites of the server, and what a request may change *)

From Stdlib Require Import Strings.String Strings.Byte NArith ZArith Lia.
From stdpp Require Import base gmap sets list strings sorting countable.
From S2P Require Import Prelude Bytes CryptoPrims Crypto Storage AuthPayloads ServerCodec ServerAuth ServerAuthInv ServerAuthRun ServerAuthThy.

Local Open Scope Z_scope.

Section theorems.
Context `{P : CryptoPrims} (cfg : AuthConfig).
Context (verify_id_token : Z -> bytes -> result ErrorCode IdClaims) (b64 : bytes -> bytes) (iid : bytes).
#[local] Abbreviation step := (step cfg verify_id_token b64 iid).
#[local] Abbreviation run_server := (run_server cfg verify_id_token b64 iid).
#[local] Abbreviation fresh_server := (fresh_server iid).
#[local] Abbreviation ok := (call_ok cfg verify_id_token b64 iid).
#[local] Abbreviation Inv := (Inv cfg verify_id_token b64 iid).
#[local] Abbreviation Reached := (Reached cfg verify_id_token b64 iid).

(** a step that called the store *)
Lemma step_called s e :
  sv_db (step s e) = sv_db s \/
  exists n th c k a o, sv_threads s !! n = Some th /\ th_prog th = Do c k /\ in_trace (step s e) n c a /\
    run_call o (sv_clock s) c (sv_db s) = (a, sv_db (step s e)).
Proof.
  destruct (step_moved cfg verify_id_token b64 iid s e) as [| | |n th c k a db drawn Hn Hp He]; [by left..|].
  destruct He as [(?&?&->&->&_&->&->)|(o & Hr & -> & _)]; [by left|right].
  exists n, th, c, k, a, o. split_and!; [done|done|apply in_trace_answered; auto|done].
Qed.

(** ** The owner who claimed the server *)

Lemma accounts_stay s e id : is_Some (accounts (sv_db s) !! id) -> is_Some (accounts (sv_db (step s e)) !! id).
Proof.
  intros [a Ha]. destruct (step_called s e) as [->|(n & th & c & k & a' & o & _ & _ & _ & Hr)]; [eauto|].
  pose proof (run_call_accounts _ _ _ _ _ _ id Hr) as Hc. rewrite Ha in Hc. inversion Hc; eauto.
Qed.
Lemma accounts_stay_run s evs id : Inv s -> is_Some (accounts (sv_db s) !! id) -> is_Some (accounts (sv_db (run_server s evs)) !! id).
Proof.
  intros I H. apply (run_ind cfg verify_id_token b64 iid (fun s => is_Some (accounts (sv_db s) !! id))); [intros; by apply accounts_stay|done|done].
Qed.

(** an account that is there does not become the owner who claims the server *)
Definition not_owner (id : bytes) (s : Server) : Prop :=
  is_Some (accounts (sv_db s) !! id) /\ in_owner (instance (sv_db s)) <> Some id.
Lemma not_owner_step id s e : not_owner id s -> not_owner id (step s e).
Proof.
  intros [[a Ha] Ho]. split; [by apply accounts_stay|].
  destruct (step_called s e) as [->|(n & th & c & k & a' & o & _ & _ & _ & Hr)]; [done|].
  destruct (run_call_owner _ _ _ _ _ _ Hr) as [->|id' row dev v code _ Hnone _ ->]; [done|]. congruence.
Qed.

(** what a request saw before it lowers a role still holds *)
Lemma not_claimer_holds s n th id :
  Reached s -> sv_threads s !! n = Some th -> not_claimer (th_trace th) id -> not_owner id s.
Proof.
  intros HR. revert n th.
  apply (reached_ind cfg verify_id_token b64 iid (fun s => forall n th, sv_threads s !! n = Some th -> not_claimer (th_trace th) id -> not_owner id s)); [| |done].
  - intros code clk n th H. discriminate H.
  - clear s HR. intros s e HR I IH n th Hn Hc.
    destruct (thread_step cfg verify_id_token b64 iid s e n th Hn) as [(th0 & H0 & Heq)|[Hnil|(th0 & c & k & a & db & drawn & H0 & Hp & He & Hs & Htr)]].
    + apply not_owner_step. eapply IH; [exact H0|]. by rewrite Heq.
    + destruct Hc as (o1 & o2 & i & Hl & _). rewrite Hnil in Hl. by destruct o1.
    + destruct Hc as (o1 & o2 & i & Hl & [x Hx] & Ho). rewrite Htr in Hl. destruct (decide (o2 = [])) as [->|Hne].
      * apply app_inj_tail in Hl as [<- [= -> ->]]. destruct He as [(?&?&?&_)|(o & Hr & _)]; [done|].
        cbn in Hr. injection Hr as <- _. apply not_owner_step. split; [|done].
        destruct (answer_of _ _ _ _ _ n _ _ HR (ex_intro _ th0 (conj H0 Hx))) as [[? ?]|(s' & evs & o' & db' & HR' & -> & Hr')]; [done|].
        cbn in Hr'. apply accounts_stay_run; [by apply auth_reached_inv|].
        destruct (accounts (sv_db s') !! id); [done|by injection Hr'].
      * destruct (exists_last Hne) as (l3 & y & ->). rewrite app_comm_cons, app_assoc in Hl. apply app_inj_tail in Hl as [Hl _].
        apply not_owner_step. eapply IH; [exact H0|]. exists o1, l3, i. eauto.
Qed.

(** C28. The owner who claimed the server stays: in every state, however requests of owners
    to change roles and to disable accounts run together, the account that claimed the server
    is there, is an owner and is active. *)
Theorem claim_owner_stays code clk evs owner :
  let s := run_server (fresh_server code clk) evs in
  in_owner (instance (sv_db s)) = Some owner ->
  exists a, accounts (sv_db s) !! owner = Some a /\ ac_owner a = true /\ ac_status a = AcActive.
Proof.
  intros s. assert (Reached s) as HR by by exists code, clk, evs. revert HR owner. generalize s. clear s. intros s HR.
  apply (reached_ind cfg verify_id_token b64 iid (fun s => forall owner, in_owner (instance (sv_db s)) = Some owner ->
    exists a, accounts (sv_db s) !! owner = Some a /\ ac_owner a = true /\ ac_status a = AcActive)); [| |done].
  - intros code' clk' owner H. discriminate H.
  - clear s HR code clk evs. intros s e HR I IH owner Ho.
    destruct (step_called s e) as [Heq|(n & th & c & k & a & o & Hn & Hp & _ & Hr)]; [rewrite Heq in *; auto|].
    pose proof (inv_wp _ _ _ _ _ I _ _ Hn) as Hw. rewrite Hp in Hw. destruct Hw as [Hok _].
    destruct (run_call_owner _ _ _ _ _ _ Hr) as [Hsame|id row dev v code -> _ Hrow Hown].
    + rewrite Hsame in Ho. destruct (IH _ Ho) as (x & Hx & Hx1 & Hx2).
      pose proof (run_call_accounts _ _ _ _ _ _ owner Hr) as Hc. rewrite Hx in Hc.
      inversion Hc; subst; [by eauto|eexists; split; [done|split; congruence]| |].
      * destruct b; [eexists; split; [done|done]|]. destruct Hok as [_ Hnc].
        by destruct (not_claimer_holds s n th owner HR Hn (Hnc eq_refl)).
      * destruct st; [eexists; split; [done|done]|]. destruct Hok as [_ Hnc].
        by destruct (not_claimer_holds s n th owner HR Hn (Hnc eq_refl)).
    + rewrite Hown in Ho. injection Ho as <-. destruct Hok as (_ & _ & _ & _ & H1 & H2 & _). eauto.
Qed.

(** ** Key sets *)

Definition has_keyset (account : bytes) (g : Z) (b : bytes) (s : Server) : Prop :=
  exists k, keyset_blobs (sv_db s) !! (account, g) = Some k /\ kb_bytes k = b.

Lemma has_keyset_step account g b s e : has_keyset account g b s -> has_keyset account g b (step s e).
Proof.
  intros (k & Hk & <-). destruct (step_called s e) as [Heq|(n & th & c & k' & a & o & _ & _ & _ & Hr)]; [exists k; by rewrite Heq|].
  by apply (run_call_keysets _ _ _ _ _ _ _ _ Hr Hk).
Qed.
Lemma has_keyset_run account g b s evs : Inv s -> has_keyset account g b s -> has_keyset account g b (run_server s evs).
Proof. intros I H. apply (run_ind cfg verify_id_token b64 iid (has_keyset account g b)); [intros; by apply has_keyset_step|done|done]. Qed.

Lemma foldr_Zmax_ge (l : list Z) z x : x ∈ z :: l -> x <= foldr Z.max z l.
Proof.
  induction l as [|y l IH]; cbn; [by intros ->%list_elem_of_singleton|].
  intros [->|[->|Hin]%elem_of_cons]%elem_of_cons; [specialize (IH ltac:(left)); lia|lia|specialize (IH ltac:(by right)); lia].
Qed.
Lemma max_generation_ge account g k t :
  t !! (account, g) = Some k -> exists g', max_generation account t = Some g' /\ g <= g'.
Proof.
  intros Hk. unfold max_generation.
  assert (g ∈ (fun x : bytes * Z * KeysetBlob => x.1.2) <$> filter (fun x => x.1.1 = account) (map_to_list t)) as Hin.
  { apply list_elem_of_fmap. exists (account, g, k). split; [done|]. apply list_elem_of_filter. split; [done|].
    by apply elem_of_map_to_list. }
  destruct ((fun x : bytes * Z * KeysetBlob => x.1.2) <$> _) as [|z l]; [by apply not_elem_of_nil in Hin|].
  eexists. split; [done|]. by apply foldr_Zmax_ge.
Qed.

Lemma got_keyset s n account g k :
  Reached s -> in_trace s n (CLatestKeyset account) (AKeyset (Some (g, k))) -> has_keyset account g (kb_bytes k) s.
Proof.
  intros HR Hn. destruct (answer_of _ _ _ _ _ _ _ _ HR Hn) as [[? ?]|(s' & evs & o & db & HR' & -> & Hr)]; [done|].
  apply has_keyset_run; [by apply auth_reached_inv|]. cbn in Hr. injection Hr as Hr _.
  apply bind_Some in Hr as (g0 & _ & Hr). apply bind_Some in Hr as (k0 & Hk & [= -> ->]). by exists k.
Qed.
Lemma put_keyset s n account g k a :
  Reached s -> in_trace s n (CPutKeyset account g k) a -> (forall e, a <> AFail e) -> has_keyset account g (kb_bytes k) s.
Proof.
  intros HR. revert n a. apply (reached_ind cfg verify_id_token b64 iid (fun s => forall n a, in_trace s n (CPutKeyset account g k) a ->
    (forall e, a <> AFail e) -> has_keyset account g (kb_bytes k) s)); [| |done].
  - intros code clk n a (th & H & _). discriminate H.
  - clear s HR. intros s e HR I IH n a Hin Ha.
    destruct (newly_seen cfg verify_id_token b64 iid s e n _ _ Hin) as [Hold|(th & k' & db & drawn & Hn & Hp & He & Hs)];
      [eapply has_keyset_step, IH; done|].
    destruct He as [(?&?&?&_)|(o & Hr & _)]; [done|]. cbn in Hr. case_match; injection Hr as <- <-; [by destruct (Ha EInternal)|].
    exists k. rewrite Hs. cbn. by rewrite lookup_insert_eq.
Qed.

(** the key set a request for an account was answered with, or uploaded *)
Definition keyset_of (s : Server) (n : N) (account : bytes) (g : Z) (b : bytes) : Prop :=
  exists th sid row rs, sv_threads s !! n = Some th /\ th_prog th = Ret (Ok rs) /\ session_found th sid row /\ se_account row = account /\
  match th_request th with
  | RqKeysetGet _ => rs = RsKeyset b g
  | RqKeysetPut _ blob _ => rs = RsGeneration g /\ blob = b
  | _ => False
  end.

Lemma keyset_of_calls s n account g b :
  Inv s -> keyset_of s n account g b ->
  exists k, kb_bytes k = b /\
    exists th, sv_threads s !! n = Some th /\
    match th_request th with
    | RqKeysetGet _ => (CLatestKeyset account, AKeyset (Some (g, k))) ∈ th_trace th
    | _ => did (th_trace th) (CPutKeyset account g k)
    end.
Proof.
  intros I (th & sid & row & rs & Hn & Hp & Hf & Hacc & Hrq). pose proof (inv_wp _ _ _ _ _ I _ _ Hn) as Hw. rewrite Hp in Hw.
  assert (forall account', borne (th_request th) (th_trace th) account' -> bearer_of (th_request th) <> None ->
    session_found th sid row -> account' = account) as Hb.
  { intros acc' (raw & sid' & row' & v & Hraw & (Hin & _) & <-) _ Hf'. unfold session_found in Hf'.
    destruct (th_request th); try done; destruct Hf' as (raw' & Hraw' & Hin');
      pose proof (once_in_trace _ _ _ _ _ _ _ KFind _ _ _ _ I Hn Hin Hin' eq_refl eq_refl) as [= _ _ ->]; done. }
  destruct (th_request th) eqn:Hr; try done; destruct Hw as [_ Hw].
  - destruct Hw as (acc' & g' & k & Hbn & Hin & ->). injection Hrq as <- <-. rewrite <- (Hb _ Hbn ltac:(done) Hf).
    exists k. split; [done|]. exists th. by rewrite Hr.
  - destruct Hw as (acc' & g' & k & Hbn & (a & Hin & Ha) & -> & Hk). destruct Hrq as [[= <-] <-]. rewrite <- (Hb _ Hbn ltac:(done) Hf).
    exists k. split; [done|]. exists th. rewrite Hr. split; [done|]. by exists a.
Qed.

(** Key sets do not roll back: after a request was answered with a key set of an account,
    or uploaded one, a request that starts later and asks for the account's key set is
    answered with that generation or a later one, and with the same bytes when it is the same
    generation. *)
Theorem keysets_do_not_roll_back code clk evs1 evs2 n m account g b th raw g' b' :
  let s1 := run_server (fresh_server code clk) evs1 in let s2 := run_server s1 evs2 in
  keyset_of s1 n account g b -> sv_threads s1 !! m = None ->
  sv_threads s2 !! m = Some th -> th_request th = RqKeysetGet raw -> keyset_of s2 m account g' b' ->
  g <= g' /\ (g' = g -> b' = b).
Proof.
  intros s1 s2 Hk Hm Ht Hrq Hk'. assert (Reached s1) as HR by by exists code, clk, evs1.
  assert (Reached s2) as HR2 by by apply reached_run.
  assert (has_keyset account g b s1) as Hs1.
  { destruct (keyset_of_calls s1 n account g b (auth_reached_inv _ _ _ _ _ HR) Hk) as (k & <- & th1 & Hn & Hc).
    destruct (th_request th1); try (destruct Hc as (a & Hc & Ha); eapply put_keyset; [done|by exists th1|done]).
    eapply got_keyset; [done|]. by exists th1. }
  destruct (keyset_of_calls s2 m account g' b' (auth_reached_inv _ _ _ _ _ HR2) Hk') as (k' & <- & th' & Ht' & Hc).
  assert (th' = th) as -> by congruence. rewrite Hrq in Hc.
  destruct (answers_since _ _ _ _ _ _ _ _ _ _ Hm Ht Hc) as [[? ?]|(s' & o & db & (e1 & e2 & _ & ->) & Hr)]; [done|].
  assert (has_keyset account g b (run_server s1 e1)) as (k & Hg & <-) by (apply has_keyset_run; [by apply auth_reached_inv|done]).
  cbn in Hr. injection Hr as Hr _. apply bind_Some in Hr as (g0 & Hmax & Hr). apply bind_Some in Hr as (k0 & Hk0 & [= -> ->]).
  destruct (max_generation_ge _ _ _ _ Hg) as (g1 & Hmax' & Hle). split; [congruence|]. intros ->. congruence.
Qed.

(** ** Invites *)

Definition invites_distinct (s : Server) : Prop :=
  forall i j r r', invites (sv_db s) !! i = Some r -> invites (sv_db s) !! j = Some r' -> iv_token_hash r = iv_token_hash r' -> i = j.
(** the invite of this token is in a state it does not leave *)
Definition invite_is (hash : bytes) (st : InviteState) (s : Server) : Prop :=
  exists id r, invites (sv_db s) !! id = Some r /\ iv_token_hash r = hash /\ iv_state r = st.

Lemma invite_stays s e id r :
  invites (sv_db s) !! id = Some r -> exists r', invites (sv_db (step s e)) !! id = Some r' /\ iv_token_hash r' = iv_token_hash r /\
    (iv_state r <> InPending -> iv_state r' = iv_state r).
Proof.
  intros Hr. destruct (step_called s e) as [->|(n & th & c & k & a & o & _ & _ & _ & Hc)]; [eauto|].
  pose proof (run_call_invites _ _ _ _ _ _ id Hc) as H. rewrite Hr in H. inversion H; subst; eauto.
  - eexists. split_and!; [done|done|]. cbn. congruence.
  - eexists. split_and!; [done|done|]. unfold redeemable in *. rewrite !andb_true_iff, bool_decide_eq_true in *.
    destruct_and?. cbn. congruence.
Qed.
Lemma invite_is_step hash st s e : st <> InPending -> invite_is hash st s -> invite_is hash st (step s e).
Proof.
  intros Hst (id & r & Hr & Hh & Hs). destruct (invite_stays s e id r Hr) as (r' & H1 & H2 & H3).
  exists id, r'. split_and!; [done|congruence|]. rewrite H3; congruence.
Qed.

(** where an invite that is there comes from *)
Definition invite_from (s : Server) (id : bytes) (r : InviteRow) : Prop :=
  exists row a, seen s (CCreateInvite id row) a /\ iv_token_hash r = iv_token_hash row.

Lemma invites_known s : Reached s -> invites_distinct s /\ forall id r, invites (sv_db s) !! id = Some r -> invite_from s id r.
Proof.
  apply (reached_ind cfg verify_id_token b64 iid (fun s => invites_distinct s /\ forall id r, invites (sv_db s) !! id = Some r -> invite_from s id r)).
  - intros code clk. split; [intros i j r r' H; discriminate H|intros id r H; discriminate H].
  - clear s. intros s e HR I [HD HF].
    destruct (step_called s e) as [Heq|(n & th & c & k & a & o & Hn & Hp & Hin & Hr)].
    { split; [unfold invites_distinct; by rewrite Heq|]. rewrite Heq. intros id r H. destruct (HF _ _ H) as (row & a & H1 & H2).
      exists row, a. split; [by apply seen_step|done]. }
    (* an invite of the new state: one of before, or the one created *)
    assert (forall id r, invites (sv_db (step s e)) !! id = Some r ->
      (exists r0, invites (sv_db s) !! id = Some r0 /\ iv_token_hash r0 = iv_token_hash r) \/
      (c = CCreateInvite id r /\ forall j r', invites (sv_db s) !! j = Some r' -> iv_token_hash r' <> iv_token_hash r)) as Hnew.
    { intros id r H. pose proof (run_call_invites _ _ _ _ _ _ id Hr) as Hc. rewrite H in Hc.
      destruct (invites (sv_db s) !! id) as [r0|] eqn:E; inversion Hc; subst; eauto.
      right. split; [done|]. intros j r' Hj Heq. cbn in Hr.
      pose proof (find_row_exists (fun _ i => bytes_eqb (iv_token_hash i) (iv_token_hash r)) (invites (sv_db s)) j r' Hj) as Hx.
      cbn beta in Hx. rewrite Heq, bytes_eqb_refl in Hx. rewrite (bool_decide_eq_true_2 _ (Hx eq_refl)), orb_true_r in Hr.
      injection Hr as _ Hr. rewrite <- Hr in H. congruence. }
    split.
    + intros i j r r' Hi Hj Hh. destruct (Hnew _ _ Hi) as [(r0 & Hi0 & Hh0)|[Hc Hno]], (Hnew _ _ Hj) as [(r1 & Hj0 & Hh1)|[Hc' Hno']].
      * eapply HD; [done|done|congruence].
      * by destruct (Hno' i r0 Hi0); congruence.
      * by destruct (Hno j r1 Hj0); congruence.
      * congruence.
    + intros id r H. destruct (Hnew _ _ H) as [(r0 & H0 & Hh)|[-> _]].
      * destruct (HF _ _ H0) as (row & a' & H1 & H2). exists row, a'. split; [by apply seen_step|congruence].
      * exists r, a. split; [by exists n|done].
Qed.

Lemma invite_is_one hash st st' s : Reached s -> invite_is hash st s -> invite_is hash st' s -> st = st'.
Proof.
  intros HR (i & r & Hi & Hh & <-) (j & r' & Hj & Hh' & <-).
  assert (i = j) as <- by (eapply (invites_known s HR); [done|done|congruence]). congruence.
Qed.

Definition joined (s : Server) (n : N) (hash : bytes) : Prop :=
  exists t acc new v row, in_trace s n (CJoin hash t acc new v row) (ABool true).

Lemma joined_once s hash :
  Reached s -> (forall n, joined s n hash -> invite_is hash InRedeemed s) /\ (forall n m, joined s n hash -> joined s m hash -> n = m).
Proof.
  apply (reached_ind cfg verify_id_token b64 iid (fun s => (forall n, joined s n hash -> invite_is hash InRedeemed s) /\ (forall n m, joined s n hash -> joined s m hash -> n = m))).
  - intros code clk. split; intros n; intros; by match goal with H : joined _ _ _ |- _ => destruct H as (?&?&?&?&?&?&H&_); discriminate H end.
  - clear s. intros s e HR I [IH1 IH2].
    assert (forall n t acc new v row, in_trace (step s e) n (CJoin hash t acc new v row) (ABool true) ->
      joined s n hash \/ (invite_is hash InRedeemed (step s e) /\ forall m, ~ joined s m hash)) as Hnew.
    { intros n t acc new v row Hin. destruct (newly_seen cfg verify_id_token b64 iid s e n _ _ Hin) as [Hold|(th & k & db & drawn & Hn & Hp & He & Hs)];
        [left; by exists t, acc, new, v, row|right].
      destruct He as [(?&?&?&_)|(o & Hr & _)]; [done|].
      eapply join_enters in Hr as [[_ ?]|(_ & _ & iv & i & Hi & Hred & Hdb)]; [done| |done].
      unfold redeemable in Hred. rewrite !andb_true_iff, bool_decide_eq_true in Hred. destruct Hred as [[Hh Hst] _]. apply bytes_eqb_true in Hh.
      split.
      - rewrite Hs. cbn. exists iv. assert (invites db = <[iv := with_invite_state InRedeemed (Some (acc, t)) i]> (invites (sv_db s))) as Heq
          by (destruct new; cbn in Hdb; [destruct Hdb as [? ->]|rewrite Hdb]; done).
        eexists. cbn. rewrite Heq, lookup_insert_eq. split_and!; [done|done|done].
      - intros m Hm. apply IH1 in Hm. assert (invite_is hash InPending s) as Hpend by by exists iv, i.
        by pose proof (invite_is_one _ _ _ _ HR Hm Hpend). }
    split.
    + intros n (t & acc & new & v & row & Hin). destruct (Hnew _ _ _ _ _ _ Hin) as [Hold|[H _]]; [|done]. apply invite_is_step; [done|by eapply IH1].
    + intros n m (t & acc & new & v & row & Hin) (t' & acc' & new' & v' & row' & Hin').
      destruct (Hnew _ _ _ _ _ _ Hin) as [Hold|[_ Hno]]; destruct (Hnew _ _ _ _ _ _ Hin') as [Hold'|[_ Hno']].
      * by eapply IH2.
      * by destruct (Hno' n).
      * by destruct (Hno m).
      * eapply (newly_same cfg verify_id_token b64 iid s e); [exact Hin| |exact Hin'|]; intros H; [apply (Hno n)|apply (Hno m)]; by eexists _, _, _, _, _.
Qed.

Lemma finished_joined s n token p sig nm h rs : Inv s -> finished s n (RqJoin token p sig nm h) rs -> joined s n (sha256 token).
Proof.
  intros I (th & Hn & _ & _ & (t & acc & new & v & row & Hin))%(finished_served _ _ _ _ _ _ _ _ I). exists t, acc, new, v, row. by exists th.
Qed.

(** C29. An invite admits one: two requests that joined with the same invite token are one
    request, and the invite was made by a request whose bearer administered every space and
    every vault it is for. *)
Theorem invite_admits_one code clk evs n token p sig nm h rs :
  let s := run_server (fresh_server code clk) evs in
  finished s n (RqJoin token p sig nm h) rs ->
  (forall m p' sig' nm' h' rs', finished s m (RqJoin token p' sig' nm' h') rs' -> m = n) /\
  exists k th id row a account, sv_threads s !! k = Some th /\ (CCreateInvite id row, a) ∈ th_trace th /\
    iv_token_hash row = sha256 token /\ borne (th_request th) (th_trace th) account /\
    (forall i, i ∈ iv_spaces row -> (CSpaceAdmin (si_space_id i) account, ABool true) ∈ th_trace th) /\
    (forall i, i ∈ iv_vaults row -> (CVaultAdmin account (vi_vault_id i), ABool true) ∈ th_trace th).
Proof.
  intros s Hn. assert (Reached s) as HR by by exists code, clk, evs. pose proof (auth_reached_inv _ _ _ _ _ HR) as I.
  apply (finished_joined _ _ _ _ _ _ _ _ I) in Hn. destruct (joined_once s (sha256 token) HR) as [H1 H2]. split.
  - intros m p' sig' nm' h' rs' Hm%(finished_joined _ _ _ _ _ _ _ _ I). by apply H2.
  - destruct (H1 _ Hn) as (id & r & Hr & Hh & _). destruct (invites_known s HR) as [_ HF].
    destruct (HF _ _ Hr) as (row & a & (k & th & Hk & Hin) & Hrow).
    destruct (trace_split _ _ _ _ _ _ _ _ _ I Hk Hin) as (l1 & l2 & _ & Hs & (_ & _ & _ & _ & account & Hb & _ & Hsp & Hvl)).
    exists k, th, id, row, a, account. split_and!; [done|done|congruence|by eapply borne_mono| |]; auto.
Qed.

Lemma create_invite_same s id row a row' a' :
  Inv s -> seen s (CCreateInvite id row) a -> seen s (CCreateInvite id row') a' -> row = row'.
Proof.
  intros I (n & th & Hn & Hin) (m & th' & Hm & Hin').
  destruct (trace_split _ _ _ _ _ _ _ _ _ I Hn Hin) as (l1 & _ & _ & Hs & (_ & Hd & _)).
  destruct (trace_split _ _ _ _ _ _ _ _ _ I Hm Hin') as (l1' & _ & _ & Hs' & (_ & Hd' & _)).
  assert (n = m) as <- by (eapply (inv_once _ _ _ _ _ I); [exists th|exists th']; split; [done|apply Hs, Hd|done|apply Hs', Hd']).
  assert (th' = th) as -> by congruence.
  by pose proof (once_in_trace _ _ _ _ _ _ _ KInvite _ _ _ _ I Hn Hin Hin' eq_refl eq_refl) as [= -> _].
Qed.

Lemma revoked_invite s id :
  Reached s -> seen s (CRevokeInvite id) (ACount 1) -> exists r, invites (sv_db s) !! id = Some r /\ iv_state r = InRevoked.
Proof.
  apply (reached_ind cfg verify_id_token b64 iid (fun s => seen s (CRevokeInvite id) (ACount 1) -> exists r, invites (sv_db s) !! id = Some r /\ iv_state r = InRevoked)).
  - intros code clk (n & th & H & _). discriminate H.
  - clear s. intros s e HR I IH [n Hin].
    destruct (newly_seen cfg verify_id_token b64 iid s e n _ _ Hin) as [Hold|(th & k & db & drawn & Hn & Hp & He & Hs)].
    + destruct IH as (r & Hr & Hst); [by exists n|]. destruct (invite_stays s e id r Hr) as (r' & H1 & _ & H3).
      exists r'. split; [done|]. rewrite H3; congruence.
    + destruct He as [(?&?&?&_)|(o & Hr & _)]; [done|]. cbn in Hr. destruct (invites (sv_db s) !! id) as [r|]; [|done].
      case_match; [|done]. injection Hr as <-. rewrite Hs. cbn. rewrite lookup_insert_eq. eauto.
Qed.

(** A revoked invite admits no one: when the request to revoke an invite was answered, its
    token has not let anyone join and never will. *)
Theorem revoked_invite_admits_none code clk evs k t sp vl ttl id token expires n raw m p sig nm h rs :
  let s := run_server (fresh_server code clk) evs in
  finished s k (RqInvite t sp vl ttl) (RsInvite id token expires) -> finished s n (RqInviteRevoke raw id) RsDone ->
  ~ finished s m (RqJoin token p sig nm h) rs.
Proof.
  intros s Hk Hn Hm. assert (Reached s) as HR by by exists code, clk, evs. pose proof (auth_reached_inv _ _ _ _ _ HR) as I.
  apply (finished_served _ _ _ _ _ _ _ _ I) in Hk as (th & Hk & _ & _ & (id' & token' & e' & row & [= -> -> ->] & (a & Hin & _) & Hrow)).
  apply (finished_served _ _ _ _ _ _ _ _ I) in Hn as (th' & Hn & _ & _ & Hrev).
  apply (finished_joined _ _ _ _ _ _ _ _ I) in Hm.
  destruct (revoked_invite s id' HR) as (r & Hr & Hst); [exists n; by exists th'|].
  destruct (invites_known s HR) as [_ HF]. destruct (HF _ _ Hr) as (row' & a' & Hseen & Hh).
  assert (row = row') as <- by (eapply create_invite_same; [done|exists k; by exists th|done]).
  destruct (joined_once s (sha256 token') HR) as [H1 _].
  assert (invite_is (sha256 token') InRevoked s) as H2 by (exists id', r; split_and!; congruence).
  by pose proof (invite_is_one _ _ _ _ HR (H1 _ Hm) H2).
Qed.

(** ** The keys of devices *)

Definition account_key (id ed : bytes) (s : Server) : Prop := exists a, accounts (sv_db s) !! id = Some a /\ ac_ed a = ed.
Lemma account_key_step id ed s e : account_key id ed s -> account_key id ed (step s e).
Proof.
  intros (a & Ha & <-). destruct (step_called s e) as [Heq|(n & th & c & k & a' & o & _ & _ & _ & Hr)]; [exists a; by rewrite Heq|].
  pose proof (run_call_accounts _ _ _ _ _ _ id Hr) as Hc. rewrite Ha in Hc. inversion Hc; subst; by eexists.
Qed.
Lemma account_key_run id ed s evs : Inv s -> account_key id ed s -> account_key id ed (run_server s evs).
Proof. intros I H. apply (run_ind cfg verify_id_token b64 iid (account_key id ed)); [intros; by apply account_key_step|done|done]. Qed.

Lemma keyed_holds s n th v : Reached s -> sv_threads s !! n = Some th -> keyed (th_trace th) v -> account_key (dv_account v) (dv_ed v) s.
Proof.
  intros HR Hn [(id & acct & Hin & Hed)|(acct & Hin)];
    (destruct (answer_of _ _ _ _ _ n _ _ HR (ex_intro _ th (conj Hn Hin))) as [[? ?]|(s' & evs & o & db & HR' & -> & Hr)]; [done|]);
    (apply account_key_run; [by apply auth_reached_inv|]); cbn in Hr.
  - destruct (accounts (sv_db s') !! dv_account v) as [a|] eqn:E; [|done]. injection Hr as <- -> _. by exists acct.
  - injection Hr as Hr _. apply find_row_Some in Hr as [Ha Hb]. apply bytes_eqb_true in Hb. by exists acct.
Qed.

Definition by_oidc (s : Server) (d : bytes) : Prop :=
  exists jti exp t id new v a, seen s (COidcLogin jti exp t id new d v) a.

(** a device is entered with the key of its account, but for the identity provider's *)
Lemma entered_key s e n th c k a o d v :
  Reached s -> sv_threads s !! n = Some th -> th_prog th = Do c k -> in_trace (step s e) n c a ->
  run_call o (sv_clock s) c (sv_db s) = (a, sv_db (step s e)) -> devices (sv_db (step s e)) !! d = Some v ->
  devices (sv_db s) !! d = None -> entered_device c = Some d -> entered_row c = Some v ->
  account_key (dv_account v) (dv_ed v) (step s e) \/ by_oidc (step s e) d.
Proof.
  intros HR Hn Hp Hin Hr Hd Hold Hc Hv. pose proof (inv_wp _ _ _ _ _ (auth_reached_inv _ _ _ _ _ HR) _ _ Hn) as Hw.
  rewrite Hp in Hw. destruct Hw as [Hok _]. destruct c; try done; cbn in Hc, Hv; injection Hc as ->; injection Hv as ->.
  - destruct Hok as (_ & _ & Hk). left. eapply account_key_step, keyed_holds; [done|done|done].
  - destruct Hok as (_ & _ & <- & Hed & _). left. eapply claim_enters in Hr as [Heq|(_ & _ & _ & _ & Heq)]; [congruence| |done].
    exists row. rewrite Heq. cbn. by rewrite lookup_insert_eq.
  - right. eexists _, _, _, _, _, _, _. by exists n.
  - destruct Hok as (_ & _ & <- & Hk & _). left. eapply join_enters in Hr as [[Heq _]|(_ & _ & iv & i & _ & _ & Heq)]; [congruence| |done].
    destruct new as [row|]; [|by eapply account_key_step, keyed_holds]. destruct Heq as [_ Heq].
    exists row. rewrite Heq. cbn. by rewrite lookup_insert_eq.
Qed.

(** A device has the key of its account: every device of the server, unless it signed in
    through the identity provider, has the Ed25519 key of an account that is there, whichever
    of pairing, enrolment, joining and claiming entered it. *)
Theorem device_has_account_key code clk evs d v :
  let s := run_server (fresh_server code clk) evs in
  devices (sv_db s) !! d = Some v -> account_key (dv_account v) (dv_ed v) s \/ by_oidc s d.
Proof.
  intros s. assert (Reached s) as HR by by exists code, clk, evs. revert HR d v. generalize s. clear s. intros s HR.
  apply (reached_ind cfg verify_id_token b64 iid (fun s => forall d v, devices (sv_db s) !! d = Some v -> account_key (dv_account v) (dv_ed v) s \/ by_oidc s d)); [| |done].
  - intros code' clk' d v H. discriminate H.
  - clear s HR code clk evs. intros s e HR I IH d v Hv.
    assert (forall v0, devices (sv_db s) !! d = Some v0 -> dv_account v0 = dv_account v -> dv_ed v0 = dv_ed v ->
      account_key (dv_account v) (dv_ed v) (step s e) \/ by_oidc (step s e) d) as Hold.
    { intros v0 H0 <- <-. destruct (IH _ _ H0) as [H|(jti & exp & t & id & new & v' & a & H)]; [left; by apply account_key_step|right].
      eexists _, _, _, _, _, _, _. by apply seen_step. }
    destruct (step_called s e) as [Heq|(n & th & c & k & a & o & Hn & Hp & Hin & Hr)]; [rewrite Heq in Hv; by eapply Hold|].
    pose proof (run_call_devices _ _ _ _ _ _ d Hr) as Hc. rewrite Hv in Hc.
    destruct (devices (sv_db s) !! d) as [v0|] eqn:E; inversion Hc; subst; try (by eapply Hold).
    by eapply entered_key.
Qed.

(** ** What a request may change *)

(** What a request changes, its bearer may change: roles and accounts are changed for an
    owner; a device is revoked for an owner or for the account of the device; key sets, names
    and handles are changed for the account itself and a label for the device itself; a
    session is revoked for its own bearer, for an owner, or because a refresh token of it that
    is no longer good was presented. *)
Theorem changes_are_authorised code clk evs n th c a :
  let s := run_server (fresh_server code clk) evs in
  sv_threads s !! n = Some th -> (c, a) ∈ th_trace th ->
  let rq := th_request th in let own := th_trace th in
  match c with
  | CSetOwner _ _ | CSetStatus _ _ => owner_borne rq own
  | CRevokeDevice d _ =>
      exists v, (CGetDevice d, ADevice (Some v)) ∈ own /\ (borne rq own (dv_account v) \/ owner_borne rq own)
  | CPutKeyset account _ _ | CSetName account _ | CSetHandle account _ => borne rq own account
  | CSetLabel device _ => exists raw sid row v, bearer_of rq = Some raw /\ bearer own raw sid row v /\ se_device row = device
  | CRevokeSession id =>
      (exists raw row v, bearer_of rq = Some raw /\ bearer own raw id row v) \/ owner_borne rq own \/
      exists raw sid row, rq = RqRefresh raw /\ id = take 16 raw /\ (CFindSession id, ASession (Some (sid, row))) ∈ own /\
        se_refresh_hash row <> sha256 raw
  | _ => True
  end.
Proof.
  intros s Hn Hin. assert (Inv s) as I by by apply auth_inv_run, inv_fresh.
  destruct (trace_split _ _ _ _ _ _ _ _ _ I Hn Hin) as (l1 & l2 & _ & Hs & Ho). destruct c; try done; cbn in Ho; cbv zeta.
  - destruct Ho as [(raw & row & v & Hr & Hb)|[[_ Ho]|(raw & sid & row & Hr & Hid & Hf & _ & Hne)]].
    + left. exists raw, row, v. split; [done|by eapply bearer_mono].
    + right; left. by eapply owner_borne_mono.
    + right; right. exists raw, sid, row. auto.
  - destruct Ho as (_ & v & Hg & Hb). exists v. split; [auto|].
    destruct Hb; [left; by eapply borne_mono|right; by eapply owner_borne_mono].
  - destruct Ho as (raw & sid & row & v & Hr & Hb & Hd). exists raw, sid, row, v. split_and!; [done|by eapply bearer_mono|done].
  - by eapply borne_mono.
  - destruct Ho as [Ho _]. by eapply owner_borne_mono.
  - destruct Ho as [Ho _]. by eapply owner_borne_mono.
  - by eapply borne_mono.
  - by eapply borne_mono.
Qed.
End theorems.
