(* ===== verification/ServerAuthRuns.v ===== *)
(** * Concrete runs of the server of [ServerAuth]

    A server is claimed, its owner signs in, and then refreshes, signs out, revokes the
    device, uploads a key set or invites someone: the theorems of [ServerAuthThy],
    [ServerAuthSess] and [ServerAuthRoles] at these runs. *)

From Stdlib Require Import Strings.String Strings.Byte NArith ZArith Lia.
From stdpp Require Import base gmap sets list strings sorting countable.
From S2P Require Import Prelude Bytes CryptoPrims Crypto Storage AuthPayloads ServerCodec ServerAuth ServerAuthInv ServerAuthRun ServerAuthThy ServerAuthSess ServerAuthRoles.

Local Open Scope Z_scope.

#[local] Instance demo_prims : CryptoPrims := Sample.prims.

Definition id16 (b : byte) : bytes := b :: replicate 15 x00.
Definition key32 (b : byte) : bytes := Sample.key32 b.
Definition demo_cfg : AuthConfig := mkAuthConfig 900 86400 60 120 3600 false 3600.
Definition no_idp (t : Z) (token : bytes) : result ErrorCode IdClaims := Err EUnauthenticated.
Definition demo_iid : bytes := id16 x09.

Definition demo_reg (sk : byte) : RegistrationPayload := mkRegistration [] (key32 x07) (key32 sk).
Definition demo_payload (sk : byte) : bytes := unwrap_or [] (reg_canonical (demo_reg sk)).
Definition demo_reg_sig (sk : byte) : bytes := unwrap_or [] (sign_registration (sk : @ed_sk demo_prims) (demo_reg sk)).

(** a request and the calls it makes, with what it draws *)
Definition asks (n : N) (r : Request) (draws : list bytes) : list ServerStep :=
  EvStart n r :: ((fun b => EvCall n b true) <$> draws).

Definition claims : list ServerStep :=
  asks 0 (RqClaim [x63] (demo_payload x05) (demo_reg_sig x05) None None) [[]; []; id16 x01; id16 x02; id16 x03; []].
Definition demo_challenge : ServerAuthChallenge := mkChallenge demo_iid (id16 x01) (id16 x02) [] (key32 x20) 160.
Definition demo_sig : bytes := unwrap_or [] (sign_server_auth (x05 : @ed_sk demo_prims) demo_challenge).
Definition signs_in : list ServerStep :=
  claims ++ asks 1 (RqChallenge (id16 x01) (id16 x02) []) [[]; key32 x20; []; []] ++
  asks 2 (RqVerify demo_challenge demo_sig) [[]; []; []; []; []; key32 x21; id16 x22; key32 x23; []].
Definition access_token : bytes := key32 x21.
Definition refresh_token : bytes := id16 x22 ++ key32 x23.

#[local] Abbreviation demo_fresh := (fresh_server demo_iid (Some (sha256 [x63])) 100).
#[local] Abbreviation demo_run := (run_server demo_cfg no_idp (fun b => b) demo_iid).

(** a thread of a run, and what is to be known of it: its request, a call of it, its result *)
Definition thread_of (s : Server) (n : N) : Thread := default (mkThread RqCleanup [] (Ret (Err EInternal))) (sv_threads s !! n).
Definition facts (s : Server) (n : N) (i : nat) : option (Request * option (Call * Answer) * option (result ErrorCode Response)) :=
  (fun th => (th_request th, th_trace th !! i, match th_prog th with Ret r => Some r | _ => None end)) <$> sv_threads s !! n.

Lemma facts_intro s n i rq c r :
  facts s n i = Some (rq, Some c, Some r) ->
  sv_threads s !! n = Some (thread_of s n) /\ th_request (thread_of s n) = rq /\ c ∈ th_trace (thread_of s n) /\ th_prog (thread_of s n) = Ret r.
Proof.
  unfold facts, thread_of. destruct (sv_threads s !! n) as [th|]; [|done]. cbn. intros [= <- Hc Hr].
  split_and!; [done|done|by eapply list_elem_of_lookup_2|]. destruct (th_prog th); [by injection Hr as <-|done].
Qed.
Lemma finished_intro s n i rq c rs : facts s n i = Some (rq, Some c, Some (Ok rs)) -> finished s n rq rs.
Proof. intros (H & Hr & _ & Hp)%facts_intro. by exists (thread_of s n). Qed.

(** evaluation of a closed term *)
Ltac by_eval := vm_compute; reflexivity.

(** ** Sessions *)

Definition demo_row : AuthSession :=
  mkAuthSession (id16 x01) (id16 x02) (sha256 access_token) (sha256 refresh_token) 1000 86500 SrcKeyset None 100 false.
Definition uses : list ServerStep := signs_in ++ asks 3 (RqOther access_token) [[]; []; []; []].

Lemma accepted_session_was_opened_witness :
  opened_by demo_cfg no_idp (fun b => b) demo_iid (demo_run demo_fresh uses) (id16 x22) (id16 x01) (id16 x02).
Proof.
  assert (facts (demo_run demo_fresh uses) 3 0 = Some (RqOther access_token,
    Some (CFindByAccess (sha256 access_token), ASession (Some (id16 x22, demo_row))), Some (Ok RsDone))) as (H & _ & Hc & _)%facts_intro by by_eval.
  destruct (accepted_session_was_opened demo_cfg no_idp (fun b => b) demo_iid (Some (sha256 [x63])) 100 uses 3
    (thread_of (demo_run demo_fresh uses) 3) access_token (id16 x22) demo_row H Hc) as [Ho _]. exact Ho.
Defined.

Definition demo_tokens : SessionTokens := mkSessionTokens access_token refresh_token 1000 86500 (id16 x22).

Lemma challenge_opens_one_session_witness :
  finished (demo_run demo_fresh signs_in) 2 (RqVerify demo_challenge demo_sig) (RsTokens demo_tokens) /\ 2%N = 2%N.
Proof.
  assert (finished (demo_run demo_fresh signs_in) 2 (RqVerify demo_challenge demo_sig) (RsTokens demo_tokens)) as H
    by (eapply (finished_intro _ _ 0); by_eval).
  split; [exact H|].
  exact (challenge_opens_one_session demo_cfg no_idp (fun b => b) demo_iid (Some (sha256 [x63])) 100 signs_in 2 2 demo_challenge demo_sig
    (RsTokens demo_tokens) demo_challenge demo_sig (RsTokens demo_tokens) H H eq_refl).
Defined.

(** the owner signs out, and then asks for another challenge *)
Definition signs_out : list ServerStep := signs_in ++ asks 3 (RqLogout access_token) [[]; []; []; []; []].
Definition asks_again : list ServerStep := asks 4 (RqChallenge (id16 x01) (id16 x02) []) [[]; key32 x30; []; []].

Lemma signed_out : ended (demo_run demo_fresh signs_out) (id16 x22).
Proof.
  assert (facts (demo_run demo_fresh signs_out) 3 0 = Some (RqLogout access_token,
    Some (CFindByAccess (sha256 access_token), ASession (Some (id16 x22, demo_row))), Some (Ok RsDone))) as (H & Hr & Hc & Hp)%facts_intro by by_eval.
  exists 3%N, (thread_of (demo_run demo_fresh signs_out) 3). rewrite Hr. split_and!; [done|done|by exists demo_row].
Qed.

Lemma ended_session_is_out_witness :
  ~ session_found (thread_of (demo_run (demo_run demo_fresh signs_out) asks_again) 4) (id16 x22) demo_row.
Proof.
  assert (exists rq c, facts (demo_run (demo_run demo_fresh signs_out) asks_again) 4 0 =
    Some (rq, Some c, Some (Ok (RsChallenge (mkChallenge demo_iid (id16 x01) (id16 x02) [] (key32 x30) 160)))))
    as (rq & c & (H & _ & _ & Hp)%facts_intro) by (eexists _, _; by_eval).
  apply (ended_session_is_out demo_cfg no_idp (fun b => b) demo_iid (Some (sha256 [x63])) 100 signs_out asks_again (id16 x22) 4
    (thread_of (demo_run (demo_run demo_fresh signs_out) asks_again) 4)
    (RsChallenge (mkChallenge demo_iid (id16 x01) (id16 x02) [] (key32 x30) 160)) demo_row signed_out); [by_eval|exact H|exact Hp].
Defined.

(** the owner renews the tokens *)
Definition renews : list ServerStep := signs_in ++ asks 3 (RqRefresh refresh_token) [[]; []; []; []; key32 x31; key32 x32; []].

Lemma no_collision_check s sid :
  forallb (fun x => forallb (fun y => implb (bytes_eqb (sha256 (build_refresh_token sid x)) (sha256 (build_refresh_token sid y))) (bytes_eqb x y))
    (elements (sv_drawn s))) (elements (sv_drawn s)) = true -> no_collision s sid.
Proof.
  intros H x y Hx Hy Heq. apply elem_of_elements, list_elem_of_In in Hx, Hy.
  rewrite forallb_forall in H. specialize (H x Hx). rewrite forallb_forall in H. specialize (H y Hy).
  rewrite Heq, bytes_eqb_refl in H. by apply bytes_eqb_true.
Qed.

Definition renewed_tokens : SessionTokens := mkSessionTokens (key32 x31) (id16 x22 ++ key32 x32) 1000 86500 (id16 x22).

Lemma refresh_token_is_good_once_witness :
  finished (demo_run demo_fresh renews) 3 (RqRefresh refresh_token) (RsTokens renewed_tokens) /\ 3%N = 3%N.
Proof.
  assert (finished (demo_run demo_fresh renews) 3 (RqRefresh refresh_token) (RsTokens renewed_tokens)) as H
    by (eapply (finished_intro _ _ 0); by_eval).
  split; [exact H|].
  apply (refresh_token_is_good_once demo_cfg no_idp (fun b => b) demo_iid (Some (sha256 [x63])) 100 renews refresh_token 3 3
    (RsTokens renewed_tokens) (RsTokens renewed_tokens)); [|exact H|exact H].
  apply no_collision_check. by_eval.
Defined.

(** ** Devices *)

(** the owner revokes the device, and then enrols another with the key set *)
Definition revokes : list ServerStep := signs_in ++ asks 3 (RqDeviceRevoke access_token (id16 x02)) [[]; []; []; []; []; []; []; []; []].
Definition enrols : list ServerStep := asks 4 (RqSelfEnroll None None (demo_payload x05) (demo_reg_sig x05)) [[]; []; id16 x33; []].

Lemma revoked_device_is_out_witness : ~ acts_for (thread_of (demo_run (demo_run demo_fresh revokes) enrols) 4) (id16 x02).
Proof.
  assert (exists rq c, facts (demo_run (demo_run demo_fresh revokes) enrols) 4 0 = Some (rq, Some c, Some (Ok (RsAccount (id16 x01) (id16 x33)))))
    as (rq & c & (H & _ & _ & Hp)%facts_intro) by (eexists _, _; by_eval).
  apply (revoked_device_is_out demo_cfg no_idp (fun b => b) demo_iid (Some (sha256 [x63])) 100 revokes enrols 3 access_token (id16 x02) 4
    (thread_of (demo_run (demo_run demo_fresh revokes) enrols) 4) (RsAccount (id16 x01) (id16 x33))); [|by_eval|exact H|exact Hp].
  eapply (finished_intro _ _ 0). by_eval.
Defined.

Lemma device_has_account_key_witness :
  account_key (id16 x01) (key32 x05) (demo_run demo_fresh signs_in) \/ by_oidc (demo_run demo_fresh signs_in) (id16 x02).
Proof.
  apply (device_has_account_key demo_cfg no_idp (fun b => b) demo_iid (Some (sha256 [x63])) 100 signs_in (id16 x02)
    (mkAuthDevice (id16 x01) (key32 x05) (key32 x07) DEVICE_APP None DvActive 100 None)). by_eval.
Defined.

(** ** Roles *)

Lemma claim_owner_stays_witness :
  exists a, accounts (sv_db (demo_run demo_fresh claims)) !! id16 x01 = Some a /\ ac_owner a = true /\ ac_status a = AcActive.
Proof.
  apply (claim_owner_stays demo_cfg no_idp (fun b => b) demo_iid (Some (sha256 [x63])) 100 claims (id16 x01)). by_eval.
Defined.

Lemma changes_are_authorised_witness :
  exists v, (CGetDevice (id16 x02), ADevice (Some v)) ∈ th_trace (thread_of (demo_run demo_fresh revokes) 3) /\
    (borne (th_request (thread_of (demo_run demo_fresh revokes) 3)) (th_trace (thread_of (demo_run demo_fresh revokes) 3)) (dv_account v) \/
     owner_borne (th_request (thread_of (demo_run demo_fresh revokes) 3)) (th_trace (thread_of (demo_run demo_fresh revokes) 3))).
Proof.
  assert (exists rq, facts (demo_run demo_fresh revokes) 3 7 = Some (rq, Some (CRevokeDevice (id16 x02) 100, AUnit), Some (Ok RsDone)))
    as (rq & (H & _ & Hc & _)%facts_intro) by (eexists; by_eval).
  exact (changes_are_authorised demo_cfg no_idp (fun b => b) demo_iid (Some (sha256 [x63])) 100 revokes 3
    (thread_of (demo_run demo_fresh revokes) 3) (CRevokeDevice (id16 x02) 100) AUnit H Hc).
Defined.

(** ** Key sets *)

Definition demo_blob : bytes := [x02; x02; x00; x00; x00; x01; x00; x00] ++ key32 x07 ++ key32 x05 ++ [x00].
Definition uploads : list ServerStep := signs_in ++ asks 3 (RqKeysetPut access_token demo_blob None) [[]; []; []; []; []; []; []].
Definition downloads : list ServerStep := asks 4 (RqKeysetGet access_token) [[]; []; []; []; []].

#[local] Abbreviation s_up := (demo_run demo_fresh uploads).
#[local] Abbreviation s_down := (demo_run (demo_run demo_fresh uploads) downloads).

Lemma keysets_do_not_roll_back_witness : 1 <= 1 /\ (1 = 1 -> demo_blob = demo_blob).
Proof.
  assert (facts s_up 3 0 = Some (RqKeysetPut access_token demo_blob None,
    Some (CFindByAccess (sha256 access_token), ASession (Some (id16 x22, demo_row))), Some (Ok (RsGeneration 1)))) as (H & Hr & Hc & Hp)%facts_intro by by_eval.
  assert (facts s_down 4 0 = Some (RqKeysetGet access_token,
    Some (CFindByAccess (sha256 access_token), ASession (Some (id16 x22, demo_row))), Some (Ok (RsKeyset demo_blob 1)))) as (H' & Hr' & Hc' & Hp')%facts_intro by by_eval.
  apply (keysets_do_not_roll_back demo_cfg no_idp (fun b => b) demo_iid (Some (sha256 [x63])) 100 uploads downloads 3 4 (id16 x01) 1 demo_blob
    (thread_of s_down 4) access_token); [|by_eval|exact H'|exact Hr'|].
  - exists (thread_of s_up 3), (id16 x22), demo_row, (RsGeneration 1). unfold session_found. rewrite Hr.
    split; [exact H|]. split; [exact Hp|]. split; [exists access_token; split; [reflexivity|exact Hc]|]. split; [reflexivity|]. split; reflexivity.
  - exists (thread_of s_down 4), (id16 x22), demo_row, (RsKeyset demo_blob 1). unfold session_found. rewrite Hr'.
    split; [exact H'|]. split; [exact Hp'|]. split; [exists access_token; split; [reflexivity|exact Hc']|]. split; reflexivity.
Defined.

(** ** Invites *)

Definition demo_space : SpaceIntent := mkSpaceIntent (id16 x03) (lit "member").
Definition invite_request : Request := RqInvite access_token [demo_space] [] (Some 600).
Definition invite_token : bytes := key32 x40.
Definition invites_one : list ServerStep := signs_in ++ asks 3 invite_request [[]; []; []; []; []; []; invite_token; id16 x41; []].
Definition join_request : Request := RqJoin invite_token (demo_payload x06) (demo_reg_sig x06) None None.
Definition joins : list ServerStep := asks 4 join_request [[]; []; id16 x42; id16 x43; []].
Definition cancels : list ServerStep := asks 4 (RqInviteRevoke access_token (id16 x41)) [[]; []; []; []; []; []; []].

Lemma invite_admits_one_witness :
  exists k th id row a account, sv_threads (demo_run demo_fresh (invites_one ++ joins)) !! k = Some th /\ (CCreateInvite id row, a) ∈ th_trace th /\
    iv_token_hash row = sha256 invite_token /\ borne (th_request th) (th_trace th) account /\
    (forall i, i ∈ iv_spaces row -> (CSpaceAdmin (si_space_id i) account, ABool true) ∈ th_trace th) /\
    (forall i, i ∈ iv_vaults row -> (CVaultAdmin account (vi_vault_id i), ABool true) ∈ th_trace th).
Proof.
  apply (invite_admits_one demo_cfg no_idp (fun b => b) demo_iid (Some (sha256 [x63])) 100 (invites_one ++ joins) 4 invite_token
    (demo_payload x06) (demo_reg_sig x06) None None (RsAccount (id16 x42) (id16 x43))).
  eapply (finished_intro _ _ 0). by_eval.
Defined.

Lemma revoked_invite_admits_none_witness :
  ~ finished (demo_run demo_fresh (invites_one ++ cancels)) 5 join_request (RsAccount (id16 x42) (id16 x43)).
Proof.
  apply (revoked_invite_admits_none demo_cfg no_idp (fun b => b) demo_iid (Some (sha256 [x63])) 100 (invites_one ++ cancels) 3
    access_token [demo_space] [] (Some 600) (id16 x41) invite_token 700 4 access_token 5); eapply (finished_intro _ _ 0); by_eval.
Defined.

(** ** The identity provider *)

(** tokens of one person, each for the keys it carries *)
Definition one_person (t : Z) (token : bytes) : result ErrorCode IdClaims :=
  Ok (mkIdClaims (lit "issuer") (lit "subject") (Some (sha256 token)) None 1000 None).
Definition sso_cfg : AuthConfig := mkAuthConfig 900 86400 60 120 3600 true 3600.
Definition sso_reg (ed x : byte) : RegistrationPayload := mkRegistration [] (key32 x) (key32 ed).
Definition sso_request (ed x : byte) : Request :=
  RqOidc (key32 ed ++ key32 x) (unwrap_or [] (reg_canonical (sso_reg ed x)))
    (unwrap_or [] (sign_registration (ed : @ed_sk demo_prims) (sso_reg ed x))).
Definition sso_logins : list ServerStep :=
  asks 0 (sso_request x05 x07) [[]; []; []; []; id16 x01; id16 x02; []; []; key32 x21; id16 x22; key32 x23; []] ++
  asks 1 (sso_request x06 x08) [[]; []; []; id16 x03; []; []; key32 x31; id16 x32; key32 x33; []].

(** signing in through the identity provider with other keys than the account's enters a
    device of the account with those keys *)
Example sso_device_with_another_key :
  let s := run_server sso_cfg one_person (fun b => b) demo_iid (fresh_server demo_iid None 100) sso_logins in
  (dv_account <$> devices (sv_db s) !! id16 x03) = Some (id16 x01) /\
  (dv_ed <$> devices (sv_db s) !! id16 x03) = Some (key32 x06) /\
  (ac_ed <$> accounts (sv_db s) !! id16 x01) = Some (key32 x05) /\
  exists t, th_prog (thread_of s 1) = Ret (Ok (RsTokens t)).
Proof. vm_compute. split_and!; [reflexivity..|]. eexists. reflexivity. Qed.
