(* ===== verification/PasswordFill.v ===== *)
(** * The saved password at a password prompt (ffi/src/password_fill.rs, [fill_login_password]
      and [write] of [SshSession] in ffi/src/lib.rs)

    A session that logged in with a saved password may type it, on request, at a password
    prompt: [classify_tail] decides whether the output ends with a prompt the password may
    answer, [GuardState] keeps the one offer there is, what was typed since a fill and which
    passwords were rejected, and [EchoMask] removes the password from the output for a while
    after a fill. Times are milliseconds since some start. A text is the list of its
    characters; [to_lowercase] is a parameter, as in [Rotation]. The locks of [FillGuard]
    make each of its methods one step; what it shows, tells and types is a list of
    [Effect]s in the order in which they leave it. *)

From Stdlib Require Import Strings.String Strings.Byte NArith ZArith Lia.
From stdpp Require Import base gmap sets list strings sorting countable.
From S2P Require Import Prelude Bytes CryptoPrims AutoOutput AutoText Rotation.

Local Open Scope N_scope.

(** ** Of the standard library *)

(** [String::from_utf8_lossy]: a maximal beginning of a character that does not go on as
    one is replaced by U+FFFD *)
Fixpoint eat_tail (ranges : list (N * N)) (l : bytes) : bytes * bytes * bool :=
  match ranges, l with
  | [], _ => ([], l, true)
  | _ :: _, [] => ([], [], false)
  | (lo, hi) :: ranges, b :: l' =>
      if in_byte_range lo hi b
      then let '(cs, rest, ok) := eat_tail ranges l' in (b :: cs, rest, ok)
      else ([], l, false)
  end.

(** the character of a first byte and its continuation bytes *)
Definition decode_char (b : byte) (cs : bytes) : N :=
  let first := match cs with
               | [] => Byte.to_N b
               | [_] => Byte.to_N b - 192
               | [_; _] => Byte.to_N b - 224
               | _ => Byte.to_N b - 240
               end in
  foldl (fun c b => c * 64 + (Byte.to_N b - 128)) first cs.

Definition REPLACEMENT : N := 65533.

Fixpoint lossy (fuel : nat) (l : bytes) : text :=
  match fuel, l with
  | O, _ | _, [] => []
  | S fuel, b :: l =>
      match utf8_tail b with
      | None => REPLACEMENT :: lossy fuel l
      | Some ranges =>
          let '(cs, rest, ok) := eat_tail ranges l in
          (if ok : bool then decode_char b cs else REPLACEMENT) :: lossy fuel rest
      end
  end.
Definition from_utf8_lossy (l : bytes) : text := lossy (length l) l.

Definition u (s : string) : text := from_utf8_lossy (lit s).

Definition NL : N := 10.
Definition CR : N := 13.
Definition ESC : N := 27.

Fixpoint rsplit_once (c : N) (s : text) : option (text * text) :=
  match s with
  | [] => None
  | x :: s =>
      match rsplit_once c s with
      | Some (before, after) => Some (x :: before, after)
      | None => if x =? c then Some ([], s) else None
      end
  end.

Fixpoint split_once (c : N) (s : text) : option (text * text) :=
  match s with
  | [] => None
  | x :: s => if x =? c then Some ([], s) else '(before, after) ← split_once c s; Some (x :: before, after)
  end.

(** [str::split]: at least one piece *)
Fixpoint split (c : N) (s : text) : list text :=
  match s with
  | [] => [[]]
  | x :: s =>
      match split c s with
      | [] => []
      | piece :: more => if x =? c then [] :: piece :: more else (x :: piece) :: more
      end
  end.

Fixpoint strip_prefix (p s : text) : option text :=
  match p, s with
  | [], _ => Some s
  | x :: p, y :: s => if x =? y then strip_prefix p s else None
  | _ :: _, [] => None
  end.
Definition strip_suffix (p s : text) : option text := reverse <$> strip_prefix (reverse p) (reverse s).

Definition trim_end (s : text) : text := reverse (trim_start (reverse s)).
Fixpoint drop_while (c : N) (s : text) : text :=
  match s with
  | x :: s' => if x =? c then drop_while c s' else s
  | [] => []
  end.
Definition trim_end_matches (c : N) (s : text) : text := reverse (drop_while c (reverse s)).

Definition ends_with (c : N) (s : text) : bool := match reverse s with x :: _ => x =? c | [] => false end.

(** [str::parse::<u32>] of a text of digits *)
Definition parse_u32 (s : text) : option N :=
  let n := foldl (fun n c => n * 10 + (c - 48)) 0 s in
  if n <=? 4294967295 then Some n else None.

(** ** Prompts *)

Definition REJECT_WINDOW : N := 15000.
Definition ECHO_WINDOW : N := 30000.
Definition ECHO_AFTER_INPUT : N := 3000.
Definition HOLD_MAX : nat := N.to_nat 4096.
Definition TAIL_MAX : nat := 512.
Definition PROMPT_MAX_CHARS : nat := 160.

Definition GENERIC_PROMPTS : list text :=
  [u "Password:"; u "Пароль:"; u "Passwort:"; u "Mot de passe :"; u "Mot de passe:"; u "Contraseña:";
   u "Senha:"; u "Hasło:"; u "密码："; u "密码:"].

Inductive PasswordFillMode := Off | SudoOnly | SudoAndGeneric.
Inductive FillPromptKind := Sudo | Doas | Generic.

#[global] Instance FillPromptKind_eq_dec : EqDecision FillPromptKind.
Proof. solve_decision. Defined.

Inductive FillEvent :=
| Offered (kind : FillPromptKind) (offer_id : N) (user : option text) (rejected_before : bool)
| Withdrawn (offer_id : N)
| Rejected
| Echoed.

#[global] Instance FillEvent_eq_dec : EqDecision FillEvent.
Proof. solve_decision. Defined.

Inductive Jump := Row (row : N) | Restore.

Definition is_ascii_digit (c : N) : bool := (48 <=? c) && (c <=? 57).

Definition csi_jump (params : text) (fin : N) : option Jump :=
  if ((fin =? 72) || (fin =? 102) || (fin =? 100)) && forallb (fun c => is_ascii_digit c || (c =? 59)) params then
    let row := default [] (head (split 59 params)) in
    match row with
    | [] => Some (Row 1)
    | _ => Row <$> parse_u32 row
    end
  else if (fin =? 117) && bool_decide (params = []) then Some Restore
  else None.

(** parameter and intermediate bytes up to one final byte *)
Fixpoint skip_csi (params : text) (s : text) : option Jump * text :=
  match s with
  | [] => (None, [])
  | c :: s => if (64 <=? c) && (c <=? 126) then (csi_jump params c, s) else skip_csi (params ++ [c]) s
  end.

(** a string ended by BEL or ST *)
Fixpoint skip_string (s : text) : text :=
  match s with
  | [] => []
  | c :: s =>
      if c =? 7 then s
      else if c =? ESC then match s with 92 :: s' => s' | _ => s end
      else skip_string s
  end.

(** intermediate bytes, then one final byte *)
Fixpoint skip_nf (s : text) : text :=
  match s with
  | [] => []
  | c :: s => if (32 <=? c) && (c <=? 47) then skip_nf s else s
  end.

(** the rest of an escape sequence whose ESC was just read: where it put the cursor, if
    somewhere absolute, and what follows it *)
Definition skip_escape (s : text) : option Jump * text :=
  match s with
  | [] => (None, [])
  | c :: s =>
      if c =? 91 then skip_csi [] s
      else if (c =? 93) || (c =? 80) || (c =? 88) || (c =? 94) || (c =? 95) then (None, skip_string s)
      else if (32 <=? c) && (c <=? 47) then (None, skip_nf s)
      else if c =? 56 then (Some Restore, s)
      else (None, s)
  end.

(** the output cut at its jumps, the last part first; the fuel is the length *)
Fixpoint cut_at_jumps (fuel : nat) (parts : list (option Jump * text)) (s : text) : list (option Jump * text) :=
  match fuel, s with
  | O, _ | _, [] => parts
  | S fuel, c :: s =>
      if c =? ESC then
        let '(jump, rest) := skip_escape s in
        cut_at_jumps fuel (match jump with Some j => (Some j, []) :: parts | None => parts end) rest
      else if negb (is_control c) || (c =? NL) || (c =? CR) then
        cut_at_jumps fuel (match parts with (j, t) :: more => (j, t ++ [c]) :: more | [] => [] end) s
      else cut_at_jumps fuel parts s
  end.

(** the row of a part that a jump goes back to *)
Definition row_of (went back : option Jump) (t : text) : option text :=
  match went, back with
  | Some (Row a), Some (Row b) => if a <=? b then split NL t !! N.to_nat (b - a) else None
  | _, _ => None
  end.

(** the text the cursor now follows; the last part first *)
Fixpoint at_cursor (parts : list (option Jump * text)) : text :=
  match parts with
  | (back, []) :: (went, t) :: more =>
      match row_of went back t with
      | Some line => trim_end_matches CR line
      | None => match more with [] => t | _ => at_cursor more end
      end
  | (_, t) :: _ => t
  | [] => []
  end.

Definition strip_controls (s : text) : text := at_cursor (cut_at_jumps (length s) [(None, [])] s).

Definition draws_elsewhere (out : bytes) : bool :=
  match out with
  | x1b :: _ => bool_decide (strip_controls (from_utf8_lossy out) = [])
  | _ => false
  end.

Definition sudo_user (line : text) : option text :=
  rest ← strip_prefix (u "[sudo] ") line;
  rest ← strip_suffix (u ":") rest;
  let rest := match reverse rest with c :: r => if is_whitespace c then reverse r else rest | [] => rest end in
  '(head, user) ← rsplit_once 32 rest;
  if negb (bool_decide (head = [])) && negb (bool_decide (user = [])) && negb (existsb is_whitespace user)
  then Some user else None.

Definition doas_user (line : text) : option text :=
  inner ← strip_prefix (u "doas (") line;
  inner ← strip_suffix (u ") password:") inner;
  if existsb is_whitespace inner then None
  else
    '(user, host) ← split_once 64 inner;
    if negb (bool_decide (user = [])) && negb (bool_decide (host = [])) then Some user else None.

Section classify.
(** [str::to_lowercase] *)
Context (lower : text -> text).

Definition classify_line (line : text) (login_user : text) (allow_generic : bool) : option FillPromptKind :=
  match sudo_user line with
  | Some user => if text_eqb user login_user then Some Sudo else None
  | None =>
      match doas_user line with
      | Some user => if text_eqb user login_user then Some Doas else None
      | None =>
          if negb allow_generic then None
          else if existsb (fun p => text_eqb (lower p) (lower line)) GENERIC_PROMPTS then Some Generic
          else None
      end
  end.

(** the line the cursor is on, when a prompt on it would be whole *)
Definition prompt_line (s : text) : option text :=
  if ends_with NL s then None
  else
    let line := match rsplit_once NL s with Some (_, l) => l | None => s end in
    line ← (match rsplit_once CR line with
            | Some (before, after) => if bool_decide (str_trim before = []) then Some after else None
            | None => Some line
            end);
    let line := trim_end line in
    if bool_decide (line = []) || (PROMPT_MAX_CHARS <? length line)%nat then None else Some line.

Definition classify_tail (tail : bytes) (login_user : text) (allow_generic : bool) : option FillPromptKind :=
  line ← prompt_line (strip_controls (from_utf8_lossy tail));
  classify_line line login_user allow_generic.
End classify.

(** ** The password in the output *)

Inductive Skip := SkipLen (n : nat) | SkipIncomplete | SkipNo.

(** the parameters of a CSI sequence from position [i] on *)
Fixpoint skip_params (i : nat) (params : bytes) : Skip :=
  match params with
  | [] => SkipIncomplete
  | b :: params =>
      if in_byte_range 64 126 b then SkipLen (i + 3)
      else if in_byte_range 32 63 b then skip_params (S i) params
      else SkipNo
  end.
(** the body of an OSC sequence from position [i] on *)
Fixpoint skip_body (i : nat) (body : bytes) : Skip :=
  match body with
  | [] => SkipIncomplete
  | x07 :: _ => SkipLen (i + 3)
  | x1b :: x5c :: _ => SkipLen (i + 4)
  | x1b :: _ :: _ => SkipNo
  | [x1b] => SkipIncomplete
  | _ :: body => skip_body (S i) body
  end.

Definition skip_at (rest : bytes) : Skip :=
  match rest with
  | x0d :: _ | x0a :: _ => SkipLen 1
  | [x1b] => SkipIncomplete
  | x1b :: x5b :: params => skip_params 0 params
  | x1b :: x5d :: body => skip_body 0 body
  | _ => SkipNo
  end.

Inductive Attempt := Full (positions : list nat) | Partial | Miss.

(** the loop of [attempt]: what is left of the secret and of the output, from position [j]
    on; the fuel is one more than the length of the output *)
Fixpoint spell (fuel : nat) (j : nat) (rest : bytes) (positions : list nat) (secret : bytes) : Attempt :=
  match secret, fuel with
  | [], _ => Full positions
  | _, O => Miss
  | want :: more, S fuel =>
      match rest with
      | [] => Partial
      | b :: rest' =>
          if bool_decide (b = want) then spell fuel (S j) rest' (positions ++ [j]) more
          else match positions with
               | [] => Miss
               | _ =>
                   match skip_at rest with
                   | SkipLen n => spell fuel (j + n) (drop n rest) positions secret
                   | SkipIncomplete => Partial
                   | SkipNo => Miss
                   end
               end
      end
  end.

(** [data]: the output from the start of the try on; positions are counted from there *)
Definition attempt (data secret : bytes) : Attempt :=
  match data, secret with
  | [], _ => Partial
  | b :: _, want :: _ => if bool_decide (b = want) then spell (S (length data)) 0 data [] secret else Miss
  | _ :: _, [] => Full []
  end.

Definition is_continuation (b : byte) : bool := in_byte_range 128 191 b.

(** one star for each character, what is between them as it was *)
Fixpoint star_out (i : nat) (region : bytes) (stars : list (nat * byte)) : bytes :=
  match region with
  | [] => []
  | b :: region =>
      match stars with
      | (p, s) :: more =>
          if (p =? i)%nat then (if is_continuation s then [] else [x2a]) ++ star_out (S i) region more
          else b :: star_out (S i) region stars
      | [] => b :: star_out (S i) region []
      end
  end.

(** the loop of [feed]: what it shows, whether the secret was found, what it holds back;
    the fuel is the length *)
Fixpoint mask_loop (fuel : nat) (secret : bytes) (expired : bool) (data : bytes) : bytes * bool * bytes :=
  match fuel, data with
  | O, _ | _, [] => ([], false, [])
  | S fuel, b :: data' =>
      let pass (_ : unit) := let '(out, found, held) := mask_loop fuel secret expired data' in (b :: out, found, held) in
      match attempt data secret with
      | Full positions =>
          let len := S (default 0%nat (list.last positions)) in
          let '(out, found, held) := mask_loop fuel secret expired (drop len data) in
          (star_out 0 (take len data) (zip positions secret) ++ out, true, held)
      | Partial => if negb expired && (length data <=? HOLD_MAX)%nat then ([], false, data) else pass tt
      | Miss => pass tt
      end
  end.

Record EchoMask := mkEchoMask { em_secret : bytes; em_deadline : N; em_input_seen : bool; em_held : bytes }.

Definition new_mask (secret : bytes) (now : N) : option EchoMask :=
  match secret with [] => None | _ => Some (mkEchoMask secret (now + ECHO_WINDOW) false []) end.

Definition mask_note_input (now : N) (m : EchoMask) : EchoMask :=
  if em_input_seen m then m
  else mkEchoMask (em_secret m) (N.min (em_deadline m) (now + ECHO_AFTER_INPUT)) true (em_held m).

Record Masked := mkMasked { mk_out : bytes; mk_echoed : bool; mk_expired : bool }.

Definition feed (chunk : bytes) (now : N) (m : EchoMask) : Masked * EchoMask :=
  let data := em_held m ++ chunk in
  let expired := em_deadline m <=? now in
  let '(out, found, held) := mask_loop (length data) (em_secret m) expired data in
  (mkMasked out (found && negb (em_input_seen m)) expired,
   mkEchoMask (em_secret m) (em_deadline m) (em_input_seen m) held).

(** ** The state of a session *)

Record PromptInstance := mkInstance { pi_id : N; pi_kind : FillPromptKind; pi_offerable : bool; pi_consumed : bool }.
Definition is_live (p : PromptInstance) : bool := pi_offerable p && negb (pi_consumed p).

Inductive TypedSince := TypedNothing | TypedEnter | TypedOther.
#[global] Instance TypedSince_eq_dec : EqDecision TypedSince.
Proof. solve_decision. Defined.

Record LastFill := mkLastFill {
  lf_at : N; lf_kind : FillPromptKind; lf_digest : bytes; lf_typed : TypedSince; lf_rejected : bool
}.

Record GuardState := mkGuard {
  g_tail : bytes;
  g_current : option PromptInstance;
  g_last_fill : option LastFill;
  g_echo : option EchoMask;
  g_next_id : N;
  g_rejected : list bytes;
  g_hold_gen : N
}.

Definition new_guard : GuardState := mkGuard [] None None None 1 [] 0.

Definition set_tail t g := mkGuard t (g_current g) (g_last_fill g) (g_echo g) (g_next_id g) (g_rejected g) (g_hold_gen g).
Definition set_current c g := mkGuard (g_tail g) c (g_last_fill g) (g_echo g) (g_next_id g) (g_rejected g) (g_hold_gen g).
Definition set_last_fill f g := mkGuard (g_tail g) (g_current g) f (g_echo g) (g_next_id g) (g_rejected g) (g_hold_gen g).
Definition set_echo e g := mkGuard (g_tail g) (g_current g) (g_last_fill g) e (g_next_id g) (g_rejected g) (g_hold_gen g).
Definition set_next_id n g := mkGuard (g_tail g) (g_current g) (g_last_fill g) (g_echo g) n (g_rejected g) (g_hold_gen g).
Definition set_rejected r g := mkGuard (g_tail g) (g_current g) (g_last_fill g) (g_echo g) (g_next_id g) r (g_hold_gen g).
Definition set_hold_gen n g := mkGuard (g_tail g) (g_current g) (g_last_fill g) (g_echo g) (g_next_id g) (g_rejected g) n.

Definition consume (p : PromptInstance) : PromptInstance := mkInstance (pi_id p) (pi_kind p) (pi_offerable p) true.

Record FillConfig := mkFillConfig { fc_login_user : text; fc_allow_generic : bool; fc_digest_key : bytes }.

(** what [open_session] binds: the item, and what the guard keeps of the session; nothing
    when the mode is off or the session does not log in with a saved password *)
Definition bind_fill (auth : AuthMethod) (mode : PasswordFillMode) (user : text) (digest_key : bytes)
    : option (text * text * FillConfig) :=
  let allow_generic := match mode with Off => None | SudoOnly => Some false | SudoAndGeneric => Some true end in
  match auth, allow_generic with
  | AVaultPassword vault_id password_item_id, Some allow_generic =>
      Some (vault_id, password_item_id, mkFillConfig user allow_generic digest_key)
  | _, _ => None
  end.

Definition WRAP64 : N := 18446744073709551616.

(** what the remote refused: the prompt a fill answered, straight back *)
Definition refuses (kind : FillPromptKind) (now : N) (f : LastFill) : bool :=
  bool_decide (lf_kind f = kind) && negb (bool_decide (lf_typed f = TypedOther)) && (now - lf_at f <? REJECT_WINDOW).

Definition push_tail (out : bytes) (g : GuardState) : GuardState :=
  if draws_elsewhere out then g
  else let tail := g_tail g ++ out in set_tail (drop (length tail - TAIL_MAX) tail) g.

Section guard.
Context `{P : CryptoPrims} (lower : text -> text) (cfg : FillConfig).

Definition secret_digest (key secret : bytes) : bytes := sha256 (key ++ secret).

Definition open_instance (kind : FillPromptKind) (now : N) (g : GuardState) : PromptInstance * GuardState * list FillEvent :=
  match fill ← g_last_fill g; if refuses kind now fill then Some fill else None with
  | Some fill =>
      let refused := mkInstance 0 kind false false in
      if lf_rejected fill then (refused, g, [])
      else
        let g := set_last_fill (Some (mkLastFill (lf_at fill) (lf_kind fill) (lf_digest fill) (lf_typed fill) true)) g in
        let g := if bool_decide (lf_digest fill ∈ g_rejected g) then g else set_rejected (g_rejected g ++ [lf_digest fill]) g in
        (refused, g, [Rejected])
  | None =>
      let id := g_next_id g in
      (mkInstance id kind true false, set_next_id (N.min (id + 1) (WRAP64 - 1)) g,
       [Offered kind id (if bool_decide (kind = Generic) then None else Some (fc_login_user cfg))
          (negb (bool_decide (g_rejected g = [])))])
  end.

Definition withdrawal (p : option PromptInstance) : list FillEvent :=
  match p with Some p => if is_live p then [Withdrawn (pi_id p)] else [] | None => [] end.

Definition transition (next : option FillPromptKind) (now : N) (g : GuardState) : GuardState * list FillEvent :=
  match g_current g, next with
  | None, None => (g, [])
  | prev, None => (set_current None g, withdrawal prev)
  | prev, Some kind =>
      if bool_decide (pi_kind <$> prev = Some kind) then (g, [])
      else
        let '(p, g, events) := open_instance kind now g in
        (set_current (Some p) g, withdrawal prev ++ events)
  end.

Definition observe (out : bytes) (now : N) (g : GuardState) : GuardState * list FillEvent :=
  let g := push_tail out g in
  let next := classify_tail lower (g_tail g) (fc_login_user cfg) (fc_allow_generic cfg) in
  let '(g, gone) := (if bool_decide (x0a ∈ out) then transition None now g else (g, [])) in
  let '(g, entered) := transition next now g in
  (g, gone ++ entered).

Definition guard_output (data : bytes) (now : N) (g : GuardState) : bytes * GuardState * list FillEvent :=
  let g := set_hold_gen ((g_hold_gen g + 1) mod WRAP64) g in
  let '(out, g, echoed) :=
    match g_echo g with
    | None => (data, g, [])
    | Some mask =>
        let '(masked, mask) := feed data now mask in
        (mk_out masked, set_echo (if mk_expired masked then None else Some mask) g,
         if mk_echoed masked then [Echoed] else [])
    end in
  let '(g, events) := observe out now g in
  (out, g, echoed ++ events).

Definition take_held (g : GuardState) : bytes * GuardState :=
  match g_echo g with
  | Some m => (em_held m, set_echo (Some (mkEchoMask (em_secret m) (em_deadline m) (em_input_seen m) [])) g)
  | None => ([], g)
  end.

Definition flush_held (now : N) (g : GuardState) : bytes * GuardState * list FillEvent :=
  let '(held, g) := take_held g in
  match held with
  | [] => ([], g, [])
  | _ => let '(g, events) := observe held now g in (held, g, events)
  end.

Definition live (offer_id : N) (g : GuardState) : option PromptInstance :=
  match g_current g with
  | Some p => if is_live p && (pi_id p =? offer_id) then Some p else None
  | None => None
  end.

Definition is_line_end (b : byte) : bool := match b with x0d | x0a => true | _ => false end.

Definition typed_more (data : bytes) (f : LastFill) : LastFill :=
  mkLastFill (lf_at f) (lf_kind f) (lf_digest f)
    (match lf_typed f, forallb is_line_end data with
     | TypedOther, _ | _, false => TypedOther
     | _, true => TypedEnter
     end) (lf_rejected f).

Definition note_typed (data : bytes) (now : N) (g : GuardState) : GuardState * list FillEvent :=
  let g := set_echo (mask_note_input now <$> g_echo g) g in
  let g := set_last_fill (typed_more data <$> g_last_fill g) g in
  match g_current g with
  | Some p => if is_live p then (set_current (Some (consume p)) g, [Withdrawn (pi_id p)]) else (g, [])
  | None => (g, [])
  end.

Inductive FillError := NoOffer | WasRejected | NoPassword | ReadFailed | WriteFailed.

(** ends a mask: what it held *)
Definition end_mask (g : GuardState) : bytes * GuardState :=
  (match g_echo g with Some m => em_held m | None => [] end, set_echo None g).

Definition claim (offer_id : N) (secret : bytes) (now : N) (g : GuardState)
    : result FillError FillPromptKind * bytes * GuardState * list FillEvent :=
  let digest := secret_digest (fc_digest_key cfg) secret in
  match live offer_id g with
  | None => (Err NoOffer, [], g, [])
  | Some offer =>
      if bool_decide (digest ∈ g_rejected g) then (Err WasRejected, [], g, [])
      else
        let g := set_current (consume <$> g_current g) g in
        let '(flushed, g) := end_mask g in
        let g := set_echo (new_mask secret now) g in
        let g := set_last_fill (Some (mkLastFill now (pi_kind offer) digest TypedNothing false)) g in
        (Ok (pi_kind offer), flushed, g, [Withdrawn offer_id])
  end.

(** ** The session *)

(** what leaves the guard: output shown, events told to the interface, Ctrl-U to kill the
    line, keystrokes and the secret sent to the remote, the answer to a fill *)
Inductive Effect :=
| Shown (out : bytes)
| Told (e : FillEvent)
| LineKilled
| Sent (data : bytes)
| TypedSecret (secret : bytes)
| Answered (n : N) (r : result FillError unit).

Definition deliver (events : list FillEvent) : list Effect :=
  events ≫= fun e => match e with Echoed => [LineKilled; Told e] | _ => [Told e] end.

(** output first, then the events *)
Definition release (out : bytes) (events : list FillEvent) : list Effect :=
  match out with [] => [] | _ => [Shown out] end ++ deliver events.

Definition is_focus_report (data : bytes) : bool :=
  bool_decide (data = [x1b; x5b; x49]) || bool_decide (data = [x1b; x5b; x4f]).

(** a call of [fill_login_password]: past [check_offer], or past [claim] *)
Inductive FillPhase := Checked (offer_id : N) | Claimed (secret : bytes).

Record FillSession := mkSession { fs_guard : GuardState; fs_fills : gmap N FillPhase }.

Definition new_session : FillSession := mkSession new_guard ∅.
Definition set_guard g s := mkSession g (fs_fills s).
Definition set_phase n p s := mkSession (fs_guard s) (partial_alter (fun _ => p) n (fs_fills s)).

Inductive SessionEvent :=
| EvOutput (data : bytes) (now : N)
| EvIdle (generation now : N)
| EvClosed
| EvTyped (data : bytes) (now : N)
| EvFill (n offer_id : N)
| EvRead (n : N) (secret : option bytes) (now : N)
| EvWritten (n : N) (ok : bool).

Definition fill_step (n : N) (e : SessionEvent) (s : FillSession) : FillSession * list Effect :=
  let g := fs_guard s in
  match e, fs_fills s !! n with
  | EvFill _ offer_id, None =>
      match live offer_id g with
      | Some _ => (set_phase n (Some (Checked offer_id)) s, [])
      | None => (s, [Answered n (Err NoOffer)])
      end
  | EvRead _ secret now, Some (Checked offer_id) =>
      let s := set_phase n None s in
      match secret with
      | None => (s, [Answered n (Err ReadFailed)])
      | Some [] => (s, [Answered n (Err NoPassword)])
      | Some secret =>
          let '(r, flushed, g, events) := claim offer_id secret now g in
          match r with
          | Ok _ => (set_phase n (Some (Claimed secret)) (set_guard g s), release flushed events)
          | Err e => (set_guard g s, release flushed events ++ [Answered n (Err e)])
          end
      end
  | EvWritten _ ok, Some (Claimed secret) =>
      let s := set_phase n None s in
      if ok : bool then (s, [TypedSecret secret; Answered n (Ok tt)])
      else
        let '(flushed, g) := end_mask g in
        (set_guard (set_last_fill None g) s, release flushed [] ++ [Answered n (Err WriteFailed)])
  | _, _ => (s, [])
  end.

Definition session_step (s : FillSession) (e : SessionEvent) : FillSession * list Effect :=
  let g := fs_guard s in
  match e with
  | EvOutput data now =>
      let '(out, g, events) := guard_output data now g in (set_guard g s, release out events)
  | EvIdle generation now =>
      if g_hold_gen g =? generation then
        let '(out, g, events) := flush_held now g in (set_guard g s, release out events)
      else (s, [])
  | EvClosed => let '(held, g) := end_mask g in (set_guard g s, release held [])
  | EvTyped data now =>
      if is_focus_report data then (s, [Sent data])
      else let '(g, events) := note_typed data now g in (set_guard g s, deliver events ++ [Sent data])
  | EvFill n _ | EvRead n _ _ | EvWritten n _ => fill_step n e s
  end.

Fixpoint run_session (s : FillSession) (evs : list SessionEvent) : FillSession * list Effect :=
  match evs with
  | [] => (s, [])
  | e :: evs =>
      let '(s, now) := session_step s e in
      let '(s, later) := run_session s evs in (s, now ++ later)
  end.
End guard.
