(* ===== verification/PasswordFillThy.v ===== *)
(** * When a saved password is typed (theory of [PasswordFill])

    Runs of a session are sequences of its events: output, timers, keystrokes and the steps
    of any number of calls of [fill_login_password]. The theorems say what must have happened
    before a password is typed: an offer at a recognised prompt that is still there, nothing
    typed since, no fill of the same offer before, and no rejection of the same password. *)

From Stdlib Require Import Strings.String Strings.Byte NArith ZArith Lia Sorting.Sorted.
From stdpp Require Import base gmap sets list strings sorting countable.
From S2P Require Import Prelude Bytes CryptoPrims AutoOutput AutoText Rotation PasswordFill.

Local Open Scope N_scope.
Local Opaque WRAP64.

Section session.
Context `{P : CryptoPrims} (lower : text -> text) (cfg : FillConfig).

Abbreviation step := (session_step lower cfg).
Abbreviation run := (run_session lower cfg new_session).
Abbreviation classified g := (classify_tail lower (g_tail g) (fc_login_user cfg) (fc_allow_generic cfg)).

(** what a step claims: the offer, the secret, the kind of the prompt, the time *)
Definition claimed_at (s : FillSession) (e : SessionEvent) : option (N * bytes * FillPromptKind * N) :=
  match e with
  | EvRead n (Some (b :: bs)) now =>
      match fs_fills s !! n with
      | Some (Checked id) =>
          match claim cfg id (b :: bs) now (fs_guard s) with
          | (Ok kind, _, _, _) => Some (id, b :: bs, kind, now)
          | _ => None
          end
      | _ => None
      end
  | _ => None
  end.

(** a property of every step of a run *)
Fixpoint along (Q : FillSession -> SessionEvent -> Prop) (s : FillSession) (evs : list SessionEvent) : Prop :=
  match evs with
  | [] => True
  | e :: evs => Q s e /\ along Q (step s e).1 evs
  end.

Definition typing (e : SessionEvent) : option bytes :=
  match e with EvTyped data _ => if is_focus_report data then None else Some data | _ => None end.

(** ** Runs *)

Lemma run_session_app s evs1 evs2 :
  (run_session lower cfg s (evs1 ++ evs2)).1 = (run_session lower cfg (run_session lower cfg s evs1).1 evs2).1.
Proof.
  revert s. induction evs1 as [|e evs1 IH]; intros s; simpl; [done|].
  destruct (step s e) as [s' eff]. specialize (IH s').
  destruct (run_session lower cfg s' (evs1 ++ evs2)) as [s1 l1], (run_session lower cfg s' evs1) as [s2 l2]. done.
Qed.

Lemma run_session_snoc s evs e :
  (run_session lower cfg s (evs ++ [e])).1 = (step (run_session lower cfg s evs).1 e).1.
Proof.
  rewrite run_session_app. simpl. by destruct (step (run_session lower cfg s evs).1 e).
Qed.

Lemma along_app Q s evs1 evs2 :
  along Q s (evs1 ++ evs2) <-> along Q s evs1 /\ along Q (run_session lower cfg s evs1).1 evs2.
Proof.
  revert s. induction evs1 as [|e evs1 IH]; intros s; simpl; [tauto|].
  rewrite IH. destruct (step s e) as [s' eff]; simpl. destruct (run_session lower cfg s' evs1). tauto.
Qed.

Lemma along_snoc Q s evs e :
  along Q s evs -> Q (run_session lower cfg s evs).1 e -> along Q s (evs ++ [e]).
Proof. intros H1 H2. apply along_app. simpl. tauto. Qed.

(** ** What the parts of a step do to the offer *)

Lemma open_instance_spec kind now g p g' ev :
  open_instance cfg kind now g = (p, g', ev) ->
  g_tail g' = g_tail g /\ g_current g' = g_current g /\ g_echo g' = g_echo g /\ pi_kind p = kind /\ pi_consumed p = false /\
  ((is_live p = false /\ g_next_id g' = g_next_id g) \/
   (exists u r, ev = [Offered kind (pi_id p) u r]) /\ pi_id p = g_next_id g /\
     g_next_id g' = N.min (g_next_id g + 1) (WRAP64 - 1) /\ g_rejected g' = g_rejected g /\ g_last_fill g' = g_last_fill g).
Proof.
  unfold open_instance. intros H.
  destruct (fill ← g_last_fill g; if refuses kind now fill then Some fill else None) as [fill|] eqn:E.
  - destruct (lf_rejected fill); [|case_bool_decide]; simplify_eq/=; split_and!; auto.
  - simplify_eq/=. split_and!; try done. right. split_and!; eauto.
Qed.

Lemma transition_spec next now g g' ev :
  transition cfg next now g = (g', ev) ->
  g_tail g' = g_tail g /\ g_echo g' = g_echo g /\ pi_kind <$> g_current g' = next.
Proof.
  unfold transition. intros H.
  destruct (g_current g) as [p|] eqn:Ec, next as [kind|]; simplify_eq/=; [| |..]; try by rewrite ?Ec.
  - case_bool_decide as Hk; simplify_eq/=; [rewrite Ec; simpl; split_and!; congruence|].
    destruct (open_instance cfg kind now g) as [[q g1] ev1] eqn:Eo. simplify_eq/=.
    apply open_instance_spec in Eo as (? & _ & ? & ? & _). split_and!; congruence.
  - destruct (open_instance cfg kind now g) as [[q g1] ev1] eqn:Eo. simplify_eq/=.
    apply open_instance_spec in Eo as (? & _ & ? & ? & _). split_and!; congruence.
Qed.

(** a live offer was there before, or is the next one and was told *)
Definition moves (g g' : GuardState) (ev : list FillEvent) : Prop :=
  (g_next_id g < WRAP64 -> g_next_id g <= g_next_id g' <= N.min (g_next_id g + 1) (WRAP64 - 1)) /\
  (forall p, g_current g' = Some p -> is_live p = true ->
     g_current g = Some p \/
     pi_id p = g_next_id g /\ g_next_id g' = N.min (g_next_id g + 1) (WRAP64 - 1) /\
       exists u r, Offered (pi_kind p) (pi_id p) u r ∈ ev).

Lemma moves_same g g' ev : g_current g' = g_current g -> g_next_id g' = g_next_id g -> moves g g' ev.
Proof. intros Hc Hn. split; [lia|]. intros p Hp _. left. congruence. Qed.

Lemma moves_none g g' ev : g_current g' = None -> g_next_id g' = g_next_id g -> moves g g' ev.
Proof. intros Hc Hn. split; [lia|]. intros p Hp. congruence. Qed.

Lemma transition_moves next now g g' ev : transition cfg next now g = (g', ev) -> moves g g' ev.
Proof.
  unfold transition. intros H.
  assert (Ho : forall kind prev, (let '(p, g, events) := open_instance cfg kind now g in
             (set_current (Some p) g, withdrawal prev ++ events)) = (g', ev) -> moves g g' ev).
  { intros kind prev Hk. destruct (open_instance cfg kind now g) as [[q g1] ev1] eqn:Eo. simplify_eq/=.
    apply open_instance_spec in Eo as (_ & _ & _ & Hkind & _ & Hq). split; simpl.
    - intros. destruct Hq as [[_ ->]|(_ & _ & -> & _)]; lia.
    - intros p [= ->] Hl. right. destruct Hq as [[? _]|((u0 & r & ->) & -> & -> & _)]; [congruence|].
      split_and!; [done..|]. exists u0, r. rewrite Hkind. set_solver. }
  destruct (g_current g) as [p|] eqn:Ec, next as [kind|]; try (case_bool_decide; [|by eapply Ho]); simplify_eq/=.
  - by apply moves_same.
  - by apply moves_none.
  - by apply moves_same.
Qed.

Lemma moves_trans g1 g2 g3 ev1 ev2 :
  moves g1 g2 ev1 -> moves g2 g3 ev2 -> g_current g2 = None \/ g_current g2 = g_current g1 -> g_next_id g2 = g_next_id g1 ->
  moves g1 g3 (ev1 ++ ev2).
Proof.
  intros [_ _] [H3 H4] Hc Hn. rewrite Hn in *. split; [done|]. intros p Hp Hl.
  destruct (H4 p Hp Hl) as [H|(H5 & H6 & u0 & r & H7)].
  - left. destruct Hc; congruence.
  - right. split_and!; [done..|]. exists u0, r. set_solver.
Qed.

Lemma push_tail_spec out g :
  g_current (push_tail out g) = g_current g /\ g_next_id (push_tail out g) = g_next_id g /\
  g_last_fill (push_tail out g) = g_last_fill g /\ g_echo (push_tail out g) = g_echo g /\
  g_rejected (push_tail out g) = g_rejected g.
Proof. unfold push_tail. by case_match. Qed.

Lemma leave_spec (b : bool) now g g' ev :
  (if b then transition cfg None now g else (g, [])) = (g', ev) ->
  g_tail g' = g_tail g /\ g_echo g' = g_echo g /\ g_next_id g' = g_next_id g /\ g_last_fill g' = g_last_fill g /\
  g_rejected g' = g_rejected g /\ (g_current g' = None \/ b = false /\ g_current g' = g_current g) /\
  (forall k i u r, Offered k i u r ∉ ev) /\ Rejected ∉ ev.
Proof.
  unfold transition, withdrawal. intros H.
  destruct b; [|simplify_eq/=; split_and!; auto; set_solver].
  destruct (g_current g) as [p|] eqn:E; simplify_eq/=; split_and!; auto; try done.
  all: intros; try case_match; set_solver.
Qed.

Lemma observe_spec out now g g' ev :
  observe lower cfg out now g = (g', ev) ->
  moves g g' ev /\ pi_kind <$> g_current g' = classified g' /\ g_tail g' = g_tail (push_tail out g) /\ g_echo g' = g_echo g.
Proof.
  unfold observe. intros H. destruct (push_tail_spec out g) as (Hc & Hn & Hl & He & Hr).
  set (g0 := push_tail out g) in *.
  destruct (if bool_decide (x0a ∈ out) then transition cfg None now g0 else (g0, [])) as [g1 ev1] eqn:E1.
  destruct (transition cfg (classified g0) now g1) as [g2 ev2] eqn:E2. simplify_eq/=.
  apply leave_spec in E1 as (Ht1 & He1 & Hn1 & _ & _ & Hc1 & _).
  pose proof (transition_moves _ _ _ _ _ E2) as Hm.
  apply transition_spec in E2 as (Ht2 & He2 & Hk2). split_and!.
  - eapply (moves_trans g g1); [|done| |congruence].
    + destruct Hc1 as [Hc1|[_ Hc1]]; [by apply moves_none; congruence|apply moves_same; congruence].
    + destruct Hc1 as [|[_ ?]]; [by left|right; congruence].
  - rewrite Hk2. f_equal. congruence.
  - congruence.
  - congruence.
Qed.

Lemma told_release e out ev : e ∈ ev -> Told e ∈ release out ev.
Proof.
  intros H. unfold release, deliver. apply elem_of_app. right.
  apply list_elem_of_bind. exists e. split; [destruct e; set_solver|done].
Qed.

(** the events of one step that were told *)
Lemma told_inv e out ev : Told e ∈ release out ev -> e ∈ ev.
Proof.
  unfold release, deliver. rewrite elem_of_app, list_elem_of_bind. intros [H|(e' & He & Hin)].
  - destruct out; set_solver.
  - destruct e'; set_solver.
Qed.

(** [moves], and what the classifier says of the output is what is offered *)
Definition moves_on (g g' : GuardState) (ev : list FillEvent) : Prop :=
  moves g g' ev /\ (pi_kind <$> g_current g = classified g -> pi_kind <$> g_current g' = classified g').

Lemma moves_on_same g g' ev :
  g_current g' = g_current g -> g_next_id g' = g_next_id g -> g_tail g' = g_tail g -> moves_on g g' ev.
Proof. intros Hc Hn Ht. split; [by apply moves_same|]. by rewrite Hc, Ht. Qed.

Lemma moves_on_dead g g' ev :
  (forall p, g_current g' = Some p -> is_live p = false) -> pi_kind <$> g_current g' = pi_kind <$> g_current g ->
  g_next_id g' = g_next_id g -> g_tail g' = g_tail g -> moves_on g g' ev.
Proof.
  intros Hl Hc Hn Ht. split; [|by rewrite Hc, Ht]. split; [lia|]. intros p Hp ?. apply Hl in Hp. congruence.
Qed.

Lemma observe_moves out now g0 g g' ev ev0 :
  observe lower cfg out now g = (g', ev) -> g_current g = g_current g0 -> g_next_id g = g_next_id g0 ->
  moves_on g0 g' (ev0 ++ ev).
Proof.
  intros Ho Hc Hn. apply observe_spec in Ho as (Hm & Hk & _). split; [|done].
  destruct Hm as [H1 H2]. rewrite Hn, Hc in *. split; [done|]. intros p Hp Hl.
  destruct (H2 p Hp Hl) as [|(? & ? & u0 & r & ?)]; [by left|right]. split_and!; [done..|]. exists u0, r. set_solver.
Qed.

Lemma guard_output_moves data now g out g' ev :
  guard_output lower cfg data now g = (out, g', ev) -> moves_on g g' ev.
Proof.
  unfold guard_output. intros H. simpl in H.
  destruct (g_echo g) as [m|]; [destruct (feed data now m) as [md m']|];
    match type of H with context [observe lower cfg ?o now ?g1] => destruct (observe lower cfg o now g1) as [g2 ev2] eqn:Eo end;
    simplify_eq/=.
  - by eapply observe_moves.
  - by eapply (observe_moves _ _ _ _ _ _ []).
Qed.

Lemma flush_held_moves now g out g' ev : flush_held lower cfg now g = (out, g', ev) -> moves_on g g' ev.
Proof.
  unfold flush_held, take_held. intros H. destruct (g_echo g) as [m|]; simpl in H.
  - destruct (em_held m) as [|b l] eqn:Eh; [simplify_eq/=; by apply moves_on_same|].
    match type of H with context [observe lower cfg ?o now ?g1] => destruct (observe lower cfg o now g1) as [g2 ev2] eqn:Eo end.
    simplify_eq/=. by eapply (observe_moves _ _ _ _ _ _ []).
  - simplify_eq/=. by apply moves_on_same.
Qed.

Lemma consume_dead p : is_live (consume p) = false.
Proof. unfold is_live. simpl. by rewrite andb_false_r. Qed.

Lemma note_typed_moves data now g g' ev :
  note_typed data now g = (g', ev) -> moves_on g g' ev /\ (forall p, g_current g' = Some p -> is_live p = false).
Proof.
  unfold note_typed. intros H. simpl in H.
  assert (Hd : forall p, g_current g' = Some p -> is_live p = false).
  { destruct (g_current g) as [q|] eqn:Ec; [destruct (is_live q) eqn:El|]; simplify_eq/=; intros p Hp; simplify_eq/=;
      [apply consume_dead|congruence..]. }
  split; [|done]. apply moves_on_dead; [done|..];
    destruct (g_current g) as [q|] eqn:Ec; [destruct (is_live q)| |destruct (is_live q)| |destruct (is_live q)|];
    simplify_eq/=; by rewrite ?Ec.
Qed.

Lemma claim_spec id secret now g r flushed g' ev :
  claim cfg id secret now g = (r, flushed, g', ev) ->
  match r with
  | Ok kind =>
      moves_on g g' ev /\ (forall p, g_current g' = Some p -> is_live p = false) /\
      (exists p, g_current g = Some p /\ is_live p = true /\ pi_id p = id /\ pi_kind p = kind) /\
      (secret_digest (fc_digest_key cfg) secret ∉ g_rejected g) /\ g_rejected g' = g_rejected g /\
      g_last_fill g' = Some (mkLastFill now kind (secret_digest (fc_digest_key cfg) secret) TypedNothing false)
  | Err _ => g' = g /\ ev = [] /\ flushed = []
  end.
Proof.
  unfold claim, live. intros H.
  destruct (g_current g) as [p|] eqn:Ec; [|by simplify_eq/=].
  destruct (is_live p && (pi_id p =? id)) eqn:El; [|by simplify_eq/=].
  apply andb_true_iff in El as [El Hid%N.eqb_eq].
  case_bool_decide as Hr; simplify_eq/=; [done|].
  assert (Hd : forall q, Some (consume p) = Some q -> is_live q = false) by (intros q [= <-]; apply consume_dead).
  split_and!; [|done|eauto|done..].
  apply moves_on_dead; simpl; by rewrite ?Ec.
Qed.

(** ** Steps *)

(** the guard moves on and tells so; after a keystroke or a claim no offer is live *)
Definition step_ok (s : FillSession) (e : SessionEvent) (s' : FillSession) (eff : list Effect) : Prop :=
  exists ev, moves_on (fs_guard s) (fs_guard s') ev /\ (forall e', e' ∈ ev -> Told e' ∈ eff) /\
    (typing e <> None \/ claimed_at s e <> None -> forall p, g_current (fs_guard s') = Some p -> is_live p = false).

Lemma step_ok_idle s e s' eff :
  g_current (fs_guard s') = g_current (fs_guard s) -> g_next_id (fs_guard s') = g_next_id (fs_guard s) ->
  g_tail (fs_guard s') = g_tail (fs_guard s) -> typing e = None -> claimed_at s e = None -> step_ok s e s' eff.
Proof.
  intros ???? ?. exists []. split_and!; [by apply moves_on_same|set_solver|]. intros [|]; congruence.
Qed.

Lemma fill_step_ok n e s s' eff :
  typing e = None -> (forall m sec now, e = EvRead m sec now -> m = n) ->
  fill_step cfg n e s = (s', eff) -> step_ok s e s' eff.
Proof.
  intros Ht Hn H. unfold fill_step in H.
  destruct e as [| | | |m id|m sec now|m ok]; try by (simplify_eq/=; apply step_ok_idle).
  - destruct (fs_fills s !! n), (live id (fs_guard s)); simplify_eq/=; by apply step_ok_idle.
  - rewrite (Hn m sec now eq_refl) in *.
    destruct (fs_fills s !! n) as [[id|]|] eqn:Ef;
      [|simplify_eq/=; apply step_ok_idle; simpl; rewrite ?Ef; by repeat case_match..].
    destruct sec as [[|b bs]|]; [by simplify_eq/=; apply step_ok_idle| |by simplify_eq/=; apply step_ok_idle].
    destruct (claim cfg id (b :: bs) now (fs_guard s)) as [[[r flushed] g'] ev] eqn:Ec.
    pose proof (claim_spec _ _ _ _ _ _ _ _ Ec) as Hc. destruct r as [kind|err]; simplify_eq/=.
    + destruct Hc as (Hm & Hd & _). exists ev. split_and!; [done|by intros; apply told_release|done].
    + destruct Hc as (-> & _). apply step_ok_idle; simpl; rewrite ?Ef, ?Ec; done.
  - destruct (fs_fills s !! n) as [[|sec]|]; [| |]; try by (simplify_eq/=; apply step_ok_idle).
    destruct ok; simplify_eq/=; by apply step_ok_idle.
Qed.

Lemma step_moves s e s' eff : step s e = (s', eff) -> step_ok s e s' eff.
Proof.
  intros H. destruct e as [data now|gen now| |data now|n id|n sec now|n ok]; cbn [session_step] in H.
  - destruct (guard_output lower cfg data now (fs_guard s)) as [[out g'] ev] eqn:E. simplify_eq/=. exists ev.
    split_and!; [by eapply guard_output_moves|by intros; apply told_release|]. simpl. intros [|]; congruence.
  - destruct (_ =? gen); [|simplify_eq/=; by apply step_ok_idle].
    destruct (flush_held lower cfg now (fs_guard s)) as [[out g'] ev] eqn:E. simplify_eq/=. exists ev.
    split_and!; [by eapply flush_held_moves|by intros; apply told_release|]. simpl. intros [|]; congruence.
  - simplify_eq/=. by apply step_ok_idle.
  - destruct (is_focus_report data) eqn:Ef; [simplify_eq/=; apply step_ok_idle; simpl; by rewrite ?Ef|].
    destruct (note_typed data now (fs_guard s)) as [g' ev] eqn:E. simplify_eq/=.
    apply note_typed_moves in E as [Hm Hd]. exists ev. split_and!; [done| |done].
    intros e' He. apply elem_of_app. left. by apply (told_release e' []).
  - by eapply fill_step_ok.
  - eapply fill_step_ok; [done| |done]. by intros ??? [= ->].
  - eapply fill_step_ok; [done| |done]. by intros.
Qed.

(** ** Reached states *)

(** the classifier agrees with the offer, and a live offer was told and left alone since *)
Lemma reached_offer evs :
  let s := (run evs).1 in
  pi_kind <$> g_current (fs_guard s) = classified (fs_guard s) /\
  forall p, g_current (fs_guard s) = Some p -> is_live p = true ->
    exists pre o post u r, evs = pre ++ o :: post /\
      Told (Offered (pi_kind p) (pi_id p) u r) ∈ (step (run pre).1 o).2 /\
      along (fun s e => typing e = None /\ claimed_at s e = None) (run (pre ++ [o])).1 post.
Proof.
  induction evs as [|e evs [IHk IHo]] using rev_ind; simpl.
  - split; [vm_compute; done|done].
  - rewrite !run_session_snoc. destruct (step (run evs).1 e) as [s' eff] eqn:E. simpl.
    destruct (step_moves _ _ _ _ E) as (ev & [[_ Hm] Hk] & Hin & Hd). split; [auto|].
    intros p Hp Hl. destruct (Hm p Hp Hl) as [Hold|(_ & _ & u0 & r & Hu)].
    + destruct (IHo p Hold Hl) as (pre & o & post & u0 & r & -> & Ho & Hpost).
      exists pre, o, (post ++ [e]), u0, r. split_and!; [by rewrite <-!app_assoc|done|].
      apply along_snoc; [done|]. rewrite <-run_session_app, <-app_assoc. simpl.
      split; apply dec_stable; intros Hn; rewrite (Hd ltac:(tauto) p Hp) in Hl; done.
    + exists evs, e, [], u0, r. rewrite E. split_and!; [done|by apply Hin|done].
Qed.

Lemma claimed_at_spec s e id secret kind t :
  claimed_at s e = Some (id, secret, kind, t) ->
  exists n flushed g' ev, e = EvRead n (Some secret) t /\ fs_fills s !! n = Some (Checked id) /\ secret <> [] /\
    claim cfg id secret t (fs_guard s) = (Ok kind, flushed, g', ev).
Proof.
  unfold claimed_at. intros H. destruct e as [| | | | |n [[|b bs]|] now|]; try done.
  destruct (fs_fills s !! n) as [[i|]|] eqn:Ef; try done.
  destruct (claim cfg i (b :: bs) now (fs_guard s)) as [[[[k|] fl] g'] ev] eqn:Ec; simplify_eq. eauto 10.
Qed.

(** the calls of [fill_login_password] that are past their claim *)
Lemma step_fills s e s' eff n sec :
  step s e = (s', eff) -> fs_fills s' !! n = Some (Claimed sec) ->
  (fs_fills s !! n = Some (Claimed sec) /\ forall ok, e <> EvWritten n ok) \/
  exists t id kind, e = EvRead n (Some sec) t /\ claimed_at s e = Some (id, sec, kind, t).
Proof.
  intros H Hn. destruct e as [data now|gen now| |data now|m id|m sec' now|m ok]; cbn [session_step] in H;
    try (repeat case_match; simplify_eq/=; by left).
  all: unfold fill_step in H; destruct (decide (m = n)) as [->|Hm].
  all: try (left; split; [|naive_solver]; repeat case_match; simplify_eq/=; rewrite ?lookup_partial_alter_ne in Hn by done; done).
  - destruct (fs_fills s !! n) as [ph|] eqn:Ef; [simplify_eq/=; by left|].
    destruct (live id (fs_guard s)); simplify_eq/=; rewrite ?lookup_partial_alter_eq in Hn; congruence.
  - destruct (fs_fills s !! n) as [[id|]|] eqn:Ef; [|simplify_eq/=; by left|simplify_eq/=; by left].
    destruct sec' as [[|b bs]|]; [simplify_eq/=; rewrite ?lookup_partial_alter_eq in Hn; congruence| |
      simplify_eq/=; rewrite ?lookup_partial_alter_eq in Hn; congruence].
    destruct (claim cfg id (b :: bs) now (fs_guard s)) as [[[r fl] g'] ev] eqn:Ec.
    destruct r; simplify_eq/=; rewrite lookup_partial_alter_eq in Hn; simplify_eq.
    right. exists now, id, a. by rewrite Ef, Ec.
  - destruct (fs_fills s !! n) as [[|sec']|] eqn:Ef; try destruct ok; simplify_eq/=;
      rewrite ?lookup_partial_alter_eq in Hn; congruence.
Qed.

Lemma reached_fill evs n sec :
  fs_fills (run evs).1 !! n = Some (Claimed sec) ->
  exists pre t post id kind, evs = pre ++ EvRead n (Some sec) t :: post /\
    claimed_at (run pre).1 (EvRead n (Some sec) t) = Some (id, sec, kind, t) /\ forall ok, EvWritten n ok ∉ post.
Proof.
  induction evs as [|e evs IH] using rev_ind; [done|]. rewrite run_session_snoc.
  destruct (step (run evs).1 e) as [s' eff] eqn:E. simpl. intros H.
  destruct (step_fills _ _ _ _ _ _ E H) as [[Hold He]|(t & id & kind & -> & Hc)].
  - destruct (IH Hold) as (pre & t & post & id & kind & -> & Hc & Hp).
    exists pre, t, (post ++ [e]), id, kind. split_and!; [by rewrite <-app_assoc|done|].
    intros ok [Hi|<-%list_elem_of_singleton]%elem_of_app; [by eapply Hp|by eapply He].
  - exists evs, t, [], id, kind. split_and!; [done..|]. intros ok. apply not_elem_of_nil.
Qed.

Lemma not_typed_by_guard out ev sec : TypedSecret sec ∉ release out ev.
Proof.
  unfold release, deliver. rewrite elem_of_app, list_elem_of_bind. intros [H|(e' & He & Hin)].
  - destruct out; set_solver.
  - destruct e'; set_solver.
Qed.

Lemma typed_by_write s e sec :
  TypedSecret sec ∈ (step s e).2 -> exists n, e = EvWritten n true /\ fs_fills s !! n = Some (Claimed sec).
Proof.
  destruct e as [data now|gen now| |data now|n id|n sec' now|n ok]; cbn [session_step].
  - destruct (guard_output _ _ _ _ _) as [[out g'] ev]. simpl. intros []%not_typed_by_guard.
  - case_match; [|set_solver]. destruct (flush_held _ _ _ _) as [[out g'] ev]. simpl. intros []%not_typed_by_guard.
  - simpl. intros []%not_typed_by_guard.
  - case_match; [set_solver|]. destruct (note_typed _ _ _) as [g' ev]. simpl.
    intros [Hi|Hi]%elem_of_app; [by apply (not_typed_by_guard []) in Hi|set_solver].
  - unfold fill_step. repeat case_match; set_solver.
  - unfold fill_step. destruct (fs_fills s !! n) as [[id|]|]; [|set_solver..].
    destruct sec' as [[|b bs]|]; [set_solver| |set_solver].
    destruct (claim _ _ _ _ _) as [[[[k|er] fl] g'] ev]; cbn [snd].
    + intros []%not_typed_by_guard.
    + intros [[]%not_typed_by_guard|Hi]%elem_of_app. set_solver.
  - unfold fill_step. destruct (fs_fills s !! n) as [[id|sec']|] eqn:Ef; [set_solver| |set_solver].
    destruct ok; cbn [snd]; [|intros [[]%(not_typed_by_guard _ [])|Hi]%elem_of_app; set_solver].
    intros Hi. assert (sec = sec') as -> by set_solver. eauto.
Qed.

(** C9. A saved password is typed only at its prompt: before the session types it, a claim of
    the same call took it for an offer that was live; at that moment the end of the output
    was classified as a prompt of the offer's kind; the offer had been told to the interface
    when the prompt appeared, and since then nothing was typed and no other fill was made. A
    claim is followed by at most one writing of the password. *)
Theorem password_typed_only_at_its_prompt evs e secret :
  TypedSecret secret ∈ (step (run evs).1 e).2 ->
  exists n pre t post id kind, e = EvWritten n true /\ evs = pre ++ EvRead n (Some secret) t :: post /\
    (forall ok, EvWritten n ok ∉ post) /\
    claimed_at (run pre).1 (EvRead n (Some secret) t) = Some (id, secret, kind, t) /\
    classified (fs_guard (run pre).1) = Some kind /\
    exists before o since u r, pre = before ++ o :: since /\
      Told (Offered kind id u r) ∈ (step (run before).1 o).2 /\
      along (fun s e => typing e = None /\ claimed_at s e = None) (run (before ++ [o])).1 since.
Proof.
  intros (n & -> & Hn)%typed_by_write. apply reached_fill in Hn as (pre & t & post & id & kind & -> & Hc & Hp).
  exists n, pre, t, post, id, kind. destruct (reached_offer pre) as [Hk Ho].
  pose proof (claimed_at_spec _ _ _ _ _ _ Hc) as (m & fl & g' & ev & _ & _ & _ & Hcl).
  apply claim_spec in Hcl as (_ & _ & (p & Hcur & Hl & Hid & Hkind) & _).
  split_and!; try done.
  - rewrite <-Hk, Hcur. by simpl; rewrite Hkind.
  - rewrite <-Hid, <-Hkind. by eapply Ho.
Qed.

(** ** Offers are numbered *)

Fixpoint claims (s : FillSession) (evs : list SessionEvent) : list N :=
  match evs with
  | [] => []
  | e :: evs => match claimed_at s e with Some (id, _, _, _) => [id] | None => [] end ++ claims (step s e).1 evs
  end.

Lemma claims_snoc s evs e :
  claims s (evs ++ [e]) =
  claims s evs ++ match claimed_at (run_session lower cfg s evs).1 e with Some (id, _, _, _) => [id] | None => [] end.
Proof.
  revert s. induction evs as [|e' evs IH]; intros s; simpl; [by rewrite app_nil_r|].
  rewrite IH. destruct (step s e') as [s' eff]. simpl. destruct (run_session lower cfg s' evs). by rewrite app_assoc.
Qed.

(** the numbers claimed are below those to come *)
Definition numbered (evs : list SessionEvent) : Prop :=
  let g := fs_guard (run evs).1 in
  g_next_id g <= 1 + N.of_nat (length evs) /\
  (forall p, g_current g = Some p -> is_live p = true -> pi_id p < g_next_id g /\ forall c, c ∈ claims new_session evs -> c < pi_id p) /\
  (forall c, c ∈ claims new_session evs -> c < g_next_id g) /\ StronglySorted N.lt (claims new_session evs).

Lemma sorted_snoc l x : StronglySorted N.lt l -> (forall c, c ∈ l -> c < x) -> StronglySorted N.lt (l ++ [x]).
Proof.
  induction l as [|y l IH]; intros Hs Hx; simpl; [repeat constructor|].
  inversion Hs as [|?? Hs' Hy]; subst. constructor; [apply IH; set_solver|].
  apply Forall_app. split; [done|]. constructor; [apply Hx; set_solver|done].
Qed.

Lemma numbered_step evs e : N.of_nat (length evs) + 2 < WRAP64 -> numbered evs -> numbered (evs ++ [e]).
Proof.
  intros Hlen (Hn & Hp & Hc & Hs). unfold numbered. rewrite run_session_snoc, claims_snoc, length_app.
  destruct (step (run evs).1 e) as [s' eff] eqn:E. cbn [fst].
  destruct (step_moves _ _ _ _ E) as (ev & [[Hn' Hm] _] & _ & Hd). specialize (Hn' ltac:(lia)).
  destruct (claimed_at (run evs).1 e) as [[[[id secret] kind] t]|] eqn:Ec.
  - pose proof (claimed_at_spec _ _ _ _ _ _ Ec) as (n & fl & g' & ev' & _ & _ & _ & Hcl).
    apply claim_spec in Hcl as (_ & _ & (p & Hcur & Hl & <- & _) & _).
    destruct (Hp p Hcur Hl) as [Hlt Hall]. split_and!; [simpl; lia| | |].
    + intros q Hq Hl'. rewrite (Hd ltac:(by right) q Hq) in Hl'. done.
    + intros c [Hi| ->%list_elem_of_singleton]%elem_of_app; [|lia]. apply Hc in Hi. lia.
    + by apply sorted_snoc.
  - rewrite app_nil_r. split_and!; [simpl; lia| | |done].
    + intros q Hq Hl. destruct (Hm q Hq Hl) as [Hold|(-> & -> & _)].
      * destruct (Hp q Hold Hl). split; [lia|done].
      * split; [lia|done].
    + intros c Hi. apply Hc in Hi. lia.
Qed.

(** An offer is filled at most once: offers are numbered upwards and the numbers of the
    offers claimed by successive fills increase strictly, whatever happens in between (as
    long as fewer than 2^64 - 2 events have happened). *)
Theorem one_fill_per_offer evs :
  N.of_nat (length evs) + 1 < WRAP64 -> StronglySorted N.lt (claims new_session evs).
Proof.
  intros Hlen. enough (Hn : numbered evs) by apply Hn.
  induction evs as [|e evs IH] using rev_ind.
  - split_and!; simpl; [done|done|set_solver|constructor].
  - rewrite length_app in Hlen. simpl in Hlen. apply numbered_step; [lia|]. apply IH. lia.
Qed.

(** ** Rejected passwords *)

(** the last fill stays the last one, rejected passwords stay rejected *)
Definition fill_kept (g g' : GuardState) : Prop :=
  g_rejected g ⊆ g_rejected g' /\
  ((forall f, g_last_fill g = Some f -> lf_rejected f = true -> lf_digest f ∈ g_rejected g) ->
   forall f, g_last_fill g' = Some f -> lf_rejected f = true -> lf_digest f ∈ g_rejected g') /\
  forall f, g_last_fill g = Some f -> exists f', g_last_fill g' = Some f' /\
    lf_at f' = lf_at f /\ lf_kind f' = lf_kind f /\ lf_digest f' = lf_digest f /\ lf_typed f' = lf_typed f.

Lemma fill_kept_same g g' : g_rejected g' = g_rejected g -> g_last_fill g' = g_last_fill g -> fill_kept g g'.
Proof. intros Hr Hf. unfold fill_kept. rewrite Hr, Hf. split_and!; eauto 10. Qed.

Lemma fill_kept_trans g1 g2 g3 : fill_kept g1 g2 -> fill_kept g2 g3 -> fill_kept g1 g3.
Proof.
  intros (R1 & I1 & F1) (R2 & I2 & F2). split_and!; [by etrans|eauto|].
  intros f Hf. destruct (F1 f Hf) as (f1 & Hf1 & ? & ? & ? & ?). destruct (F2 f1 Hf1) as (f2 & Hf2 & ? & ? & ? & ?).
  exists f2. split_and!; congruence.
Qed.

Lemma open_instance_kept kind now g p g' ev : open_instance cfg kind now g = (p, g', ev) -> fill_kept g g'.
Proof.
  unfold open_instance. intros H.
  destruct (g_last_fill g) as [fill|] eqn:Ef; simpl in H; [|simplify_eq/=; by apply fill_kept_same].
  destruct (refuses kind now fill); [|simplify_eq/=; by apply fill_kept_same].
  destruct (lf_rejected fill); [simplify_eq/=; by apply fill_kept_same|].
  unfold fill_kept. rewrite Ef. case_bool_decide; simplify_eq/=; split_and!; try set_solver.
  all: intros f [= <-]; eauto 10.
Qed.

Lemma transition_kept next now g g' ev : transition cfg next now g = (g', ev) -> fill_kept g g'.
Proof.
  unfold transition. intros H.
  assert (Ho : forall kind prev, (let '(p, g, events) := open_instance cfg kind now g in
             (set_current (Some p) g, withdrawal prev ++ events)) = (g', ev) -> fill_kept g g').
  { intros kind prev Hk. destruct (open_instance cfg kind now g) as [[q g1] ev1] eqn:Eo. simplify_eq/=.
    apply open_instance_kept in Eo. eapply fill_kept_trans; [done|]. by apply fill_kept_same. }
  destruct (g_current g) as [p|] eqn:Ec, next as [kind|]; try (case_bool_decide; [|by eapply Ho]); simplify_eq/=;
    by apply fill_kept_same.
Qed.

Lemma observe_kept out now g g' ev : observe lower cfg out now g = (g', ev) -> fill_kept g g'.
Proof.
  unfold observe. intros H. destruct (push_tail_spec out g) as (_ & _ & Hl & _ & Hr).
  set (g0 := push_tail out g) in *.
  destruct (if bool_decide (x0a ∈ out) then transition cfg None now g0 else (g0, [])) as [g1 ev1] eqn:E1.
  destruct (transition cfg (classified g0) now g1) as [g2 ev2] eqn:E2. simplify_eq/=.
  apply leave_spec in E1 as (_ & _ & _ & Hl1 & Hr1 & _). apply transition_kept in E2.
  eapply fill_kept_trans; [|done]. apply fill_kept_same; congruence.
Qed.

Lemma guard_output_kept data now g out g' ev : guard_output lower cfg data now g = (out, g', ev) -> fill_kept g g'.
Proof.
  unfold guard_output. intros H. simpl in H.
  destruct (g_echo g) as [m|]; [destruct (feed data now m) as [md m']|];
    match type of H with context [observe lower cfg ?o now ?g1] => destruct (observe lower cfg o now g1) as [g2 ev2] eqn:Eo end;
    simplify_eq/=; apply observe_kept in Eo; by (eapply fill_kept_trans; [|exact Eo]; by apply fill_kept_same).
Qed.

Lemma flush_held_kept now g out g' ev : flush_held lower cfg now g = (out, g', ev) -> fill_kept g g'.
Proof.
  unfold flush_held, take_held. intros H. destruct (g_echo g) as [m|]; simpl in H; [|simplify_eq/=; by apply fill_kept_same].
  destruct (em_held m) as [|b l] eqn:Eh; [simplify_eq/=; by apply fill_kept_same|].
  match type of H with context [observe lower cfg ?o now ?g1] => destruct (observe lower cfg o now g1) as [g2 ev2] eqn:Eo end.
  simplify_eq/=. apply observe_kept in Eo. eapply fill_kept_trans; [|exact Eo]. by apply fill_kept_same.
Qed.

(** nothing but line ends typed, no fill, no failed writing *)
Definition calm (s : FillSession) (e : SessionEvent) : Prop :=
  claimed_at s e = None /\ (forall n, e <> EvWritten n false) /\
  (forall data, typing e = Some data -> forallb is_line_end data = true).

(** the rejected are remembered as such *)
Definition remembered (g : GuardState) : Prop :=
  forall f, g_last_fill g = Some f -> lf_rejected f = true -> lf_digest f ∈ g_rejected g.

Lemma step_rejected s e s' eff :
  step s e = (s', eff) ->
  g_rejected (fs_guard s) ⊆ g_rejected (fs_guard s') /\ (remembered (fs_guard s) -> remembered (fs_guard s')).
Proof.
  intros H.
  assert (Hk : fill_kept (fs_guard s) (fs_guard s') ->
    g_rejected (fs_guard s) ⊆ g_rejected (fs_guard s') /\ (remembered (fs_guard s) -> remembered (fs_guard s')))
    by (intros (? & ? & _); done).
  destruct e as [data now|gen now| |data now|n id|n sec now|n ok]; cbn [session_step] in H.
  - destruct (guard_output lower cfg data now (fs_guard s)) as [[out g'] ev] eqn:E. simplify_eq/=.
    by eapply Hk, guard_output_kept.
  - destruct (_ =? gen); [|by simplify_eq/=].
    destruct (flush_held lower cfg now (fs_guard s)) as [[out g'] ev] eqn:E. simplify_eq/=. by eapply Hk, flush_held_kept.
  - simplify_eq/=. done.
  - destruct (is_focus_report data); [by simplify_eq/=|].
    destruct (note_typed data now (fs_guard s)) as [g' ev] eqn:E. simplify_eq/=.
    unfold note_typed in E. simpl in E.
    assert (Hr : g_rejected g' = g_rejected (fs_guard s)) by (repeat case_match; by simplify_eq/=).
    assert (Hf : g_last_fill g' = typed_more data <$> g_last_fill (fs_guard s)) by (repeat case_match; by simplify_eq/=).
    unfold remembered. rewrite Hr, Hf. split; [done|]. intros Hm f Hf'.
    destruct (g_last_fill (fs_guard s)) as [f0|]; simplify_eq/=. eauto.
  - unfold fill_step in H. repeat case_match; by simplify_eq/=.
  - unfold fill_step in H. destruct (fs_fills s !! n) as [[id|]|]; [|by simplify_eq/=..].
    destruct sec as [[|b bs]|]; [by simplify_eq/=| |by simplify_eq/=].
    destruct (claim cfg id (b :: bs) now (fs_guard s)) as [[[r fl] g'] ev] eqn:Ec.
    apply claim_spec in Ec. destruct r as [kind|err]; simplify_eq/=; [|by destruct Ec as (-> & _)].
    destruct Ec as (_ & _ & _ & _ & Hr & Hf). unfold remembered. rewrite Hr, Hf. split; [done|]. by intros _ f [= <-].
  - unfold fill_step in H. destruct (fs_fills s !! n) as [[|sec]|]; try destruct ok; by simplify_eq/=.
Qed.

(** the last fill, not followed by a new command *)
Definition awaits (f : LastFill) (g : GuardState) : Prop :=
  exists f', g_last_fill g = Some f' /\ lf_at f' = lf_at f /\ lf_kind f' = lf_kind f /\ lf_digest f' = lf_digest f /\
    lf_typed f' <> TypedOther.

Lemma awaits_kept f g g' : fill_kept g g' -> awaits f g -> awaits f g'.
Proof.
  intros (_ & _ & Hk) (f1 & Hf1 & ? & ? & ? & ?). destruct (Hk f1 Hf1) as (f2 & ? & ? & ? & ? & ?).
  exists f2. split_and!; congruence.
Qed.

Lemma calm_step s e s' eff f :
  step s e = (s', eff) -> calm s e -> awaits f (fs_guard s) -> awaits f (fs_guard s').
Proof.
  intros H (Hc & Hw & Ht) Ha.
  destruct e as [data now|gen now| |data now|n id|n sec now|n ok]; cbn [session_step] in H.
  - destruct (guard_output lower cfg data now (fs_guard s)) as [[out g'] ev] eqn:E. simplify_eq/=.
    by eapply awaits_kept, Ha; eapply guard_output_kept.
  - destruct (_ =? gen); [|by simplify_eq/=].
    destruct (flush_held lower cfg now (fs_guard s)) as [[out g'] ev] eqn:E. simplify_eq/=.
    by eapply awaits_kept, Ha; eapply flush_held_kept.
  - by simplify_eq/=.
  - simpl in Ht. destruct (is_focus_report data); [by simplify_eq/=|]. specialize (Ht data eq_refl).
    destruct (note_typed data now (fs_guard s)) as [g' ev] eqn:E. simplify_eq/=. unfold note_typed in E. simpl in E.
    assert (Hf : g_last_fill g' = typed_more data <$> g_last_fill (fs_guard s)) by (repeat case_match; by simplify_eq/=).
    destruct Ha as (f1 & Hf1 & ? & ? & ? & ?). exists (typed_more data f1). rewrite Hf, Hf1. simpl.
    split_and!; [done..|]. rewrite Ht. by destruct (lf_typed f1).
  - unfold fill_step in H. repeat case_match; by simplify_eq/=.
  - unfold fill_step in H. simpl in Hc. destruct (fs_fills s !! n) as [[id|]|]; [|by simplify_eq/=..].
    destruct sec as [[|b bs]|]; [by simplify_eq/=| |by simplify_eq/=].
    destruct (claim cfg id (b :: bs) now (fs_guard s)) as [[[r fl] g'] ev] eqn:Ec.
    apply claim_spec in Ec. destruct r as [kind|err]; [done|]. simplify_eq/=. by destruct Ec as (-> & _).
  - destruct ok; [|by destruct (Hw n)]. unfold fill_step in H. repeat case_match; by simplify_eq/=.
Qed.

Lemma calm_run s evs f : along calm s evs -> awaits f (fs_guard s) -> awaits f (fs_guard (run_session lower cfg s evs).1).
Proof.
  revert s. induction evs as [|e evs IH]; intros s Hc Ha; simpl in *; [done|]. destruct Hc as [Hc Hcs].
  destruct (step s e) as [s' eff] eqn:E. specialize (IH s' Hcs ltac:(by eapply calm_step)).
  by destruct (run_session lower cfg s' evs).
Qed.

Lemma run_rejected s evs :
  g_rejected (fs_guard s) ⊆ g_rejected (fs_guard (run_session lower cfg s evs).1) /\
  (remembered (fs_guard s) -> remembered (fs_guard (run_session lower cfg s evs).1)).
Proof.
  revert s. induction evs as [|e evs IH]; intros s; simpl; [done|].
  destruct (step s e) as [s' eff] eqn:E. apply step_rejected in E as [H1 H2]. destruct (IH s') as [H3 H4].
  destruct (run_session lower cfg s' evs). simpl in *. split; [by etrans|auto].
Qed.

(** a prompt of this kind appears: it was not there, or its line was left *)
Definition prompt_returns (kind : FillPromptKind) (now : N) (s : FillSession) (e : SessionEvent) : Prop :=
  (exists data, e = EvOutput data now) /\ pi_kind <$> g_current (fs_guard (step s e).1) = Some kind /\
  (pi_kind <$> g_current (fs_guard s) <> Some kind \/ exists out, Shown out ∈ (step s e).2 /\ x0a ∈ out).

Lemma open_refused kind now g p g' ev f :
  open_instance cfg kind now g = (p, g', ev) -> awaits f g -> lf_kind f = kind -> now < lf_at f + REJECT_WINDOW ->
  remembered g -> lf_digest f ∈ g_rejected g' /\ (forall k i u r, Offered k i u r ∉ ev).
Proof.
  unfold open_instance. intros H (f1 & Hf1 & Hat & Hk & Hd & Ht) Hkind Hnow Hrem. rewrite Hf1 in H. simpl in H.
  assert (Hr : refuses kind now f1 = true).
  { unfold refuses. apply andb_true_iff. split; [|apply N.ltb_lt; unfold REJECT_WINDOW in *; lia].
    apply andb_true_iff. split; [apply bool_decide_eq_true; congruence|]. by rewrite bool_decide_false. }
  rewrite Hr in H. destruct (lf_rejected f1) eqn:Er.
  - simplify_eq/=. split; [|set_solver]. rewrite <-Hd. by apply Hrem.
  - case_bool_decide; simplify_eq/=; (split; [|set_solver]); rewrite <-Hd; [done|set_solver].
Qed.

Lemma observe_refused out now g g' ev kind f :
  observe lower cfg out now g = (g', ev) -> awaits f g -> lf_kind f = kind -> now < lf_at f + REJECT_WINDOW -> remembered g ->
  pi_kind <$> g_current g' = Some kind -> pi_kind <$> g_current g <> Some kind \/ x0a ∈ out ->
  lf_digest f ∈ g_rejected g' /\ (forall k i u r, Offered k i u r ∉ ev).
Proof.
  unfold observe. intros H Ha Hkind Hnow Hrem Hk' Hk. destruct (push_tail_spec out g) as (Hc & _ & Hl & _ & Hr).
  set (g0 := push_tail out g) in *.
  destruct (if bool_decide (x0a ∈ out) then transition cfg None now g0 else (g0, [])) as [g1 ev1] eqn:E1.
  destruct (transition cfg (classified g0) now g1) as [g2 ev2] eqn:E2. simplify_eq/=.
  apply leave_spec in E1 as (_ & _ & _ & Hl1 & Hr1 & Hc1 & Hno & _).
  assert (Ha1 : awaits f g1) by (eapply awaits_kept, Ha; apply fill_kept_same; congruence).
  assert (Hrem1 : remembered g1) by (unfold remembered in *; rewrite Hl1, Hr1, Hl, Hr; done).
  assert (Hk1 : pi_kind <$> g_current g1 <> Some (lf_kind f)).
  { destruct Hc1 as [->|[Hb ->]]; [done|]. apply bool_decide_eq_false in Hb. rewrite Hc. naive_solver. }
  pose proof (transition_spec _ _ _ _ _ E2) as (_ & _ & Hnext). rewrite Hk' in Hnext. rewrite <-Hnext in E2.
  unfold transition in E2.
  destruct (g_current g1) as [q|] eqn:Eq; rewrite bool_decide_false in E2 by done;
    (destruct (open_instance cfg (lf_kind f) now g1) as [[p g3] ev3] eqn:Eo; simplify_eq/=;
     edestruct open_refused as [Hd Hn]; [done..|]; split; [done|]; unfold withdrawal; try case_match; set_solver).
Qed.

Lemma shown_inv o out ev : Shown o ∈ release out ev -> o = out.
Proof.
  unfold release, deliver. rewrite elem_of_app, list_elem_of_bind. intros [H|(e' & He & Hin)].
  - destruct out; set_solver.
  - destruct e'; set_solver.
Qed.

Lemma returns_refused kind now s e f :
  prompt_returns kind now s e -> awaits f (fs_guard s) -> lf_kind f = kind -> now < lf_at f + REJECT_WINDOW ->
  remembered (fs_guard s) ->
  lf_digest f ∈ g_rejected (fs_guard (step s e).1) /\ (forall k i u r, Told (Offered k i u r) ∉ (step s e).2).
Proof.
  intros ((data & ->) & Hk' & Hk) Ha Hkind Hnow Hrem. cbn [session_step] in *.
  unfold guard_output in *. cbn [g_echo set_hold_gen] in *.
  destruct (g_echo (fs_guard s)) as [m|]; [destruct (feed data now m) as [md m']|];
    match type of Hk' with context [observe lower cfg ?o now ?g1] =>
      destruct (observe lower cfg o now g1) as [g2 ev2] eqn:Eo end; cbn [fst snd fs_guard set_guard] in *.
  all: edestruct (observe_refused _ _ _ _ _ kind f Eo) as [Hd Hn]; [done..| |].
  all: try (destruct Hk as [Hk|(o & ->%shown_inv & Ho)]; [by left|by right]).
  all: split; [done|]. all: intros k i u0 r Hin; apply told_inv in Hin.
  - destruct (mk_echoed md); set_solver.
  - set_solver.
Qed.

(** C10. A rejected password is not typed again: when the prompt a fill answered comes back
    within fifteen seconds, nothing but line ends having been typed since and no other fill
    made, nothing is offered there, and no later fill of the session, at any prompt, claims
    an offer for the same password. *)
Theorem rejected_password_is_not_typed_again pre c mid e post e' id secret kind t now id' secret' kind' t' :
  claimed_at (run pre).1 c = Some (id, secret, kind, t) -> along calm (run (pre ++ [c])).1 mid ->
  prompt_returns kind now (run (pre ++ c :: mid)).1 e -> now < t + REJECT_WINDOW ->
  (forall k i u r, Told (Offered k i u r) ∉ (step (run (pre ++ c :: mid)).1 e).2) /\
  (claimed_at (run (pre ++ c :: mid ++ e :: post)).1 e' = Some (id', secret', kind', t') -> secret' <> secret).
Proof.
  intros Hc Hcalm Hret Hnow.
  set (f := mkLastFill t kind (secret_digest (fc_digest_key cfg) secret) TypedNothing false).
  assert (Ha : awaits f (fs_guard (run (pre ++ [c])).1)).
  { rewrite run_session_snoc. pose proof (claimed_at_spec _ _ _ _ _ _ Hc) as (n & fl & g' & ev & -> & Hn & Hs & Hcl).
    cbn [session_step]. unfold fill_step. rewrite Hn. destruct secret as [|b bs]; [done|]. rewrite Hcl. cbn [fst fs_guard set_phase set_guard].
    apply claim_spec in Hcl as (_ & _ & _ & _ & _ & Hf). by exists f. }
  apply (calm_run _ mid f Hcalm) in Ha. rewrite <-run_session_app, <-app_assoc in Ha. simpl in Ha.
  assert (Hrem : remembered (fs_guard (run (pre ++ c :: mid)).1)) by (apply run_rejected; done).
  destruct (returns_refused _ _ _ _ f Hret Ha eq_refl Hnow Hrem) as [Hd Hno]. split; [done|].
  intros (n & fl & g' & ev & _ & _ & _ & Hcl)%claimed_at_spec ->.
  apply claim_spec in Hcl as (_ & _ & _ & Hnot & _). apply Hnot.
  replace (pre ++ c :: mid ++ e :: post) with ((pre ++ c :: mid) ++ e :: post) by (by rewrite <-app_assoc).
  rewrite run_session_app. simpl. destruct (step (run (pre ++ c :: mid)).1 e) as [s1 eff]. simpl in *.
  pose proof (proj1 (run_rejected s1 post)). destruct (run_session lower cfg s1 post). simpl in *. set_solver.
Qed.
End session.
