(* ===== verification/PasswordPrompt.v ===== *)
(** * Which prompts are recognised (theory of the classifier of [PasswordFill])

    The output ends with a prompt that the saved password may answer exactly when the line
    the cursor is on has one of three shapes: a prompt of sudo or of doas that names the
    login user, or, when these are allowed, one of the bare prompts. *)

From Stdlib Require Import Strings.String Strings.Byte NArith ZArith Lia.
From stdpp Require Import base gmap sets list strings sorting countable.
From S2P Require Import Prelude Bytes CryptoPrims AutoOutput AutoText Rotation RotationThy PasswordFill.

Local Open Scope N_scope.

(** ** The functions on text *)

Lemma strip_prefix_iff p s r : strip_prefix p s = Some r <-> s = p ++ r.
Proof.
  revert s. induction p as [|x p IH]; intros s; simpl; [naive_solver|].
  destruct s as [|y s]; [done|]. destruct (N.eqb_spec x y) as [->|Hne]; [rewrite IH|]; naive_solver.
Qed.

Lemma strip_suffix_iff p s r : strip_suffix p s = Some r <-> s = r ++ p.
Proof.
  unfold strip_suffix. rewrite fmap_Some. setoid_rewrite strip_prefix_iff. split.
  - intros (x & Hx & ->). rewrite <-(reverse_involutive s), Hx, reverse_app. by rewrite reverse_involutive.
  - intros ->. exists (reverse r). by rewrite reverse_app, reverse_involutive.
Qed.

Lemma rsplit_once_none c s : rsplit_once c s = None <-> c ∉ s.
Proof.
  induction s as [|x s IH]; simpl; [set_solver|]. destruct (rsplit_once c s) as [[a b]|] eqn:E.
  - split; [done|]. intros H. assert (Some (a, b) = None) by (apply IH; set_solver). done.
  - destruct (N.eqb_spec x c) as [->|Hne]; [set_solver|]. set_solver.
Qed.

Lemma rsplit_once_iff c s a b : rsplit_once c s = Some (a, b) <-> s = a ++ c :: b /\ c ∉ b.
Proof.
  revert a. induction s as [|x s IH]; intros a; simpl; [by destruct a; naive_solver|].
  destruct (rsplit_once c s) as [[a' b']|] eqn:E.
  - split; [intros [= <- <-]; destruct (proj1 (IH a') eq_refl) as [-> ?]; done|].
    intros [H Hc]. destruct a as [|y a]; simplify_eq/=.
    + apply rsplit_once_none in Hc. congruence.
    + pose proof (proj2 (IH a) (conj eq_refl Hc)). by simplify_eq.
  - apply rsplit_once_none in E. destruct (N.eqb_spec x c) as [->|Hne].
    + split; [by intros [= <- <-]|]. intros [H Hc]. destruct a as [|y a]; simplify_eq/=; [done|]. set_solver.
    + split; [done|]. intros [H Hc]. destruct a as [|y a]; simplify_eq/=. set_solver.
Qed.

Lemma split_once_iff c s a b : split_once c s = Some (a, b) <-> s = a ++ c :: b /\ c ∉ a.
Proof.
  revert a. induction s as [|x s IH]; intros a; simpl; [by destruct a; naive_solver|].
  destruct (N.eqb_spec x c) as [->|Hne].
  - split; [intros [= <- <-]; set_solver|]. intros [H Hc]. destruct a as [|y a]; simplify_eq/=; [done|]. set_solver.
  - destruct (split_once c s) as [[a' b']|] eqn:E; simpl.
    + split; [intros [= <- <-]; destruct (proj1 (IH a') eq_refl) as [-> ?]; set_solver|].
      intros [H Hc]. destruct a as [|y a]; simplify_eq/=. destruct (IH a) as [_ H']. specialize (H' ltac:(set_solver)). by simplify_eq.
    + split; [done|]. intros [H Hc]. destruct a as [|y a]; simplify_eq/=. destruct (IH a) as [_ H']. by specialize (H' ltac:(set_solver)).
Qed.

Definition blank (s : text) : Prop := Forall (fun c => is_whitespace c = true) s.

Lemma trim_start_spec s : exists w, s = w ++ trim_start s /\ blank w /\ (forall c r, trim_start s = c :: r -> is_whitespace c = false).
Proof.
  induction s as [|c s IH]; simpl; [exists []; split_and!; [done|constructor|done]|].
  destruct (is_whitespace c) eqn:Ec.
  - destruct IH as (w & Hs & Hw & Hn). exists (c :: w). split_and!; [by rewrite Hs at 1|by constructor|done].
  - exists []. split_and!; [done|constructor|by intros ?? [= <- <-]].
Qed.

Lemma trim_start_blank w s : blank w -> trim_start (w ++ s) = trim_start s.
Proof. induction 1 as [|c w Hc Hw IH]; simpl; [done|]. by rewrite Hc. Qed.

Lemma str_trim_nil s : str_trim s = [] <-> blank s.
Proof.
  unfold str_trim. split.
  - intros H. apply (f_equal reverse) in H. rewrite reverse_involutive in H.
    destruct (trim_start_spec (reverse (trim_start s))) as (w & Hw & Hb & _). rewrite H, app_nil_r in Hw.
    destruct (trim_start_spec s) as (w' & Hs & Hb' & _). rewrite Hs. apply Forall_app. split; [done|].
    rewrite <-(reverse_involutive (trim_start s)), Hw. by apply Forall_reverse.
  - intros H. rewrite <-(app_nil_r s), trim_start_blank by done. done.
Qed.

(** the text does not end with whitespace *)
Definition solid (s : text) : Prop := forall x c, s = x ++ [c] -> is_whitespace c = false.

Lemma trim_end_spec s : exists w, s = trim_end s ++ w /\ blank w /\ solid (trim_end s).
Proof.
  unfold trim_end. destruct (trim_start_spec (reverse s)) as (w & Hs & Hw & Hn). exists (reverse w). split_and!.
  - rewrite <-reverse_app, <-Hs. by rewrite reverse_involutive.
  - by apply Forall_reverse.
  - intros x c H. apply (f_equal reverse) in H. rewrite reverse_involutive, reverse_snoc in H. by eapply Hn.
Qed.

Lemma trim_end_solid s w : solid s -> blank w -> trim_end (s ++ w) = s.
Proof.
  intros Hs Hw. unfold trim_end. rewrite reverse_app, trim_start_blank by by apply Forall_reverse.
  destruct (reverse s) as [|c r] eqn:E; simpl.
  - apply (f_equal reverse) in E. by rewrite reverse_involutive in E.
  - assert (Es : s = reverse r ++ [c]) by (rewrite <-(reverse_involutive s), E; apply reverse_cons).
    rewrite (Hs _ _ Es), reverse_cons. done.
Qed.

(** ** The line of the cursor *)

(** [l] is what follows the last line end *)
Definition cursor_line (s l : text) : Prop := (NL ∉ l) /\ (s = l \/ exists b, s = b ++ NL :: l).

(** a prompt, with no more than a return over blanks before it and blanks after it *)
Definition prompt_on (l line : text) : Prop :=
  exists gap ws, l = gap ++ line ++ ws /\ (gap = [] \/ exists g, gap = g ++ [CR] /\ blank g) /\
    (CR ∉ line ++ ws) /\ blank ws /\ solid line /\ line <> [] /\ (length line <= PROMPT_MAX_CHARS)%nat.

Lemma ends_with_iff c s : ends_with c s = true <-> exists x, s = x ++ [c].
Proof.
  unfold ends_with. destruct (reverse s) as [|y r] eqn:E; apply (f_equal reverse) in E; rewrite reverse_involutive in E; subst s.
  - split; [done|]. intros [x Hx]. by destruct x.
  - rewrite reverse_cons. split; [intros ->%N.eqb_eq; by eexists|]. intros [x Hx]. apply app_inj_2 in Hx as [_ [= ->]]; [|done].
    apply N.eqb_refl.
Qed.

Lemma cursor_line_iff s l :
  (if ends_with NL s then None else Some (match rsplit_once NL s with Some (_, l) => l | None => s end)) = Some l <->
  cursor_line s l /\ (l <> [] \/ s = []).
Proof.
  unfold cursor_line. destruct (ends_with NL s) eqn:Ee.
  - apply ends_with_iff in Ee as [x ->]. split; [done|]. intros [[Hn [Hs|[b Hb]]] Hl]; [set_solver|].
    destruct Hl as [Hl|Hl]; [|by destruct x]. destruct l as [|c l _] using rev_ind; [done|].
    rewrite app_comm_cons, app_assoc in Hb. apply app_inj_2 in Hb as [_ [= <-]]; [|done]. set_solver.
  - assert (He : forall x, s <> x ++ [NL]) by (intros x Hx; assert (ends_with NL s = true) by (apply ends_with_iff; eauto); congruence).
    destruct (rsplit_once NL s) as [[b l']|] eqn:E.
    + apply rsplit_once_iff in E as [-> Hn]. split.
      * intros [= <-]. split; [split; [done|by right; eexists]|]. left. intros ->. by destruct (He b).
      * intros [[Hn' [Hs|[b' Hb]]] _]; [set_solver|].
        assert (E1 : rsplit_once NL (b' ++ NL :: l) = Some (b', l)) by by apply rsplit_once_iff.
        rewrite <-Hb in E1. assert (E2 : rsplit_once NL (b ++ NL :: l') = Some (b, l')) by by apply rsplit_once_iff. congruence.
    + apply rsplit_once_none in E. split.
      * intros [= <-]. split; [by split; [|left]|]. destruct s; [by right|by left].
      * intros [[Hn [->|[b ->]]] _]; [done|]. set_solver.
Qed.

(** the rest of [prompt_line] *)
Definition prompt_of (l : text) : option text :=
  line ← (match rsplit_once CR l with
          | Some (before, after) => if bool_decide (str_trim before = []) then Some after else None
          | None => Some l
          end);
  let line := trim_end line in
  if bool_decide (line = []) || (PROMPT_MAX_CHARS <? length line)%nat then None else Some line.

Lemma trimmed_iff l line :
  (let line := trim_end l in if bool_decide (line = []) || (PROMPT_MAX_CHARS <? length line)%nat then None else Some line) = Some line <->
  exists ws, l = line ++ ws /\ blank ws /\ solid line /\ line <> [] /\ (length line <= PROMPT_MAX_CHARS)%nat.
Proof.
  simpl. split.
  - destruct (trim_end_spec l) as (w & Hl & Hw & Hs).
    destruct (bool_decide_reflect (trim_end l = [])); [done|]. simpl. destruct (Nat.ltb_spec PROMPT_MAX_CHARS (length (trim_end l))); [done|].
    intros [= <-]. by exists w.
  - intros (ws & -> & Hw & Hs & Hn & Hle). rewrite trim_end_solid by done. rewrite bool_decide_false by done.
    simpl. by destruct (Nat.ltb_spec PROMPT_MAX_CHARS (length line)); [lia|].
Qed.

Lemma prompt_of_iff l line : prompt_of l = Some line <-> prompt_on l line.
Proof.
  unfold prompt_of, prompt_on. destruct (rsplit_once CR l) as [[g l']|] eqn:E.
  - pose proof E as [-> Hcr]%rsplit_once_iff. split.
    + case_bool_decide as Hb; [|done]. apply str_trim_nil in Hb. intros (ws & -> & H)%trimmed_iff.
      exists (g ++ [CR]), ws. rewrite <-app_assoc. split_and!; try done; [right; by exists g|tauto..].
    + intros (gap & ws & Hl & [->|(g' & -> & Hg)] & Hc & H); [simpl in Hl; rewrite <-Hl in Hc; set_solver|].
      rewrite <-app_assoc in Hl. simpl in Hl.
      assert (E1 : rsplit_once CR (g' ++ CR :: line ++ ws) = Some (g', line ++ ws)) by by apply rsplit_once_iff.
      rewrite <-Hl, E in E1. simplify_eq. rewrite bool_decide_true by by apply str_trim_nil.
      apply trimmed_iff. eauto.
  - apply rsplit_once_none in E. simpl. rewrite trimmed_iff. split.
    + intros (ws & -> & H). exists [], ws. split_and!; try done; [by left|tauto..].
    + intros (gap & ws & -> & [->|(g & -> & Hg)] & Hc & H); [eauto|set_solver].
Qed.

Lemma prompt_line_iff s line : prompt_line s = Some line <-> exists l, cursor_line s l /\ prompt_on l line.
Proof.
  assert (Hp : prompt_line s =
    (l ← (if ends_with NL s then None else Some (match rsplit_once NL s with Some (_, l) => l | None => s end)); prompt_of l)).
  { unfold prompt_line, prompt_of. by destruct (ends_with NL s). }
  rewrite Hp, bind_Some. setoid_rewrite cursor_line_iff. setoid_rewrite prompt_of_iff. split.
  - intros (l & [Hc _] & H). eauto.
  - intros (l & Hc & H). exists l. split_and!; [done| |done]. left. intros ->.
    destruct H as (gap & ws & Hg & _ & _ & _ & _ & Hn & _). destruct gap, line; done.
Qed.

(** ** The prompts *)

(** a prompt of sudo that names a user, in any language; French puts a blank before the colon *)
Definition sudo_names (user line : text) : Prop :=
  exists h w, line = u "[sudo] " ++ h ++ 32 :: user ++ w ++ u ":" /\ h <> [] /\ user <> [] /\
    Forall (fun c => is_whitespace c = false) user /\ (w = [] \/ exists c, w = [c] /\ is_whitespace c = true).

Definition doas_names (user line : text) : Prop :=
  exists host, line = u "doas (" ++ user ++ 64 :: host ++ u ") password:" /\ user <> [] /\ host <> [] /\ (64 ∉ user) /\
    Forall (fun c => is_whitespace c = false) (user ++ 64 :: host).

Lemma existsb_whitespace s : existsb is_whitespace s = false <-> Forall (fun c => is_whitespace c = false) s.
Proof. induction s as [|c s IH]; simpl; [by split|]. rewrite orb_false_iff, list.Forall_cons, IH. done. Qed.

Lemma doas_user_iff line user : doas_user line = Some user <-> doas_names user line.
Proof.
  unfold doas_user, doas_names. rewrite bind_Some. setoid_rewrite strip_prefix_iff. split.
  - intros (i1 & -> & (i2 & ->%strip_suffix_iff & H)%bind_Some).
    destruct (existsb is_whitespace i2) eqn:Ew; [done|]. apply existsb_whitespace in Ew.
    destruct (split_once 64 i2) as [[a b]|] eqn:Es; [|done]. apply split_once_iff in Es as [-> Ha]. simpl in H.
    case_bool_decide; [by simplify_eq/=|]. case_bool_decide; [by simplify_eq/=|]. simplify_eq/=. exists b.
    split_and!; try done. by rewrite <-!app_assoc.
  - intros (host & -> & Hu & Hh & H64 & Hw). exists (user ++ 64 :: host ++ u ") password:"). split; [done|].
    rewrite bind_Some. exists (user ++ 64 :: host). rewrite strip_suffix_iff. split; [by rewrite <-app_assoc|].
    apply existsb_whitespace in Hw. rewrite Hw. rewrite (proj2 (split_once_iff 64 (user ++ 64 :: host) user host)) by done.
    simpl. by rewrite !bool_decide_false.
Qed.

Lemma solid_app (a b : text) : b <> [] -> Forall (fun c => is_whitespace c = false) b -> solid (a ++ b).
Proof.
  intros Hb Hw x c H. destruct b as [|d b _] using rev_ind; [done|]. rewrite app_assoc in H.
  apply app_inj_2 in H as [_ [= <-]]; [|done]. apply Forall_app in Hw as [_ Hw]. by inversion Hw.
Qed.

(** the blank before the colon *)
Definition unspaced (s : text) : text := match reverse s with c :: r => if is_whitespace c then reverse r else s | [] => s end.

Lemma unspaced_solid s : solid s -> unspaced s = s.
Proof.
  intros Hs. unfold unspaced. destruct (reverse s) as [|c r] eqn:E; [done|].
  assert (Es : s = reverse r ++ [c]) by (rewrite <-(reverse_involutive s), E; apply reverse_cons). by rewrite (Hs _ _ Es).
Qed.

Lemma unspaced_inv s : exists w, s = unspaced s ++ w /\ (w = [] \/ exists c, w = [c] /\ is_whitespace c = true).
Proof.
  unfold unspaced. destruct (reverse s) as [|c r] eqn:E; [exists []; rewrite app_nil_r; auto|].
  assert (Es : s = reverse r ++ [c]) by (rewrite <-(reverse_involutive s), E; apply reverse_cons).
  destruct (is_whitespace c) eqn:Ec; [exists [c]; eauto|exists []; rewrite app_nil_r; auto].
Qed.

Lemma sudo_user_iff line user : sudo_user line = Some user <-> sudo_names user line.
Proof.
  unfold sudo_user, sudo_names. rewrite bind_Some. setoid_rewrite strip_prefix_iff. split.
  - intros (i1 & -> & (i2 & ->%strip_suffix_iff & H)%bind_Some).
    match type of H with rsplit_once 32 ?x ≫= _ = _ => change x with (unspaced i2) in H end.
    destruct (unspaced_inv i2) as (w & Hi & Hw).
    destruct (rsplit_once 32 (unspaced i2)) as [[a b]|] eqn:Es; [|done]. apply rsplit_once_iff in Es as [Es Ha]. simpl in H.
    case_bool_decide; [by simplify_eq/=|]. case_bool_decide; [by simplify_eq/=|]. simpl in H.
    destruct (existsb is_whitespace b) eqn:Ew; simplify_eq/=. apply existsb_whitespace in Ew. exists a, w.
    split_and!; try done. rewrite Hi, Es. by rewrite <-!app_assoc.
  - intros (h & w & -> & Hh & Hu & Hw & Hsp). exists (h ++ 32 :: user ++ w ++ u ":"). split; [done|].
    rewrite bind_Some. exists (h ++ 32 :: user ++ w). rewrite strip_suffix_iff. split; [by rewrite <-!app_assoc; simpl; rewrite <-app_assoc|].
    match goal with |- rsplit_once 32 ?x ≫= _ = _ => change x with (unspaced (h ++ 32 :: user ++ w)) end.
    assert (Hs : unspaced (h ++ 32 :: user ++ w) = h ++ 32 :: user).
    { destruct Hsp as [->|(c & -> & Hc)].
      - rewrite app_nil_r. apply unspaced_solid. rewrite cons_middle, app_assoc. by apply solid_app.
      - unfold unspaced. rewrite app_comm_cons, app_assoc, reverse_snoc, Hc. apply reverse_involutive. }
    rewrite Hs. assert (H32 : 32 ∉ user) by (intros Hin; rewrite list.Forall_forall in Hw; by apply Hw in Hin).
    rewrite (proj2 (rsplit_once_iff 32 (h ++ 32 :: user) h user)) by done. simpl.
    apply existsb_whitespace in Hw. by rewrite !bool_decide_false, Hw.
Qed.

Lemma sudo_not_doas user user' line : sudo_names user line -> ~ doas_names user' line.
Proof. intros (h & w & -> & _) (host & H & _). done. Qed.

Section classifier.
Context (lower : text -> text).

(** the prompt of a line that the password of [login] may answer *)
Definition may_answer (login : text) (allow_generic : bool) (line : text) (kind : FillPromptKind) : Prop :=
  match kind with
  | Sudo => sudo_names login line
  | Doas => doas_names login line
  | Generic => allow_generic = true /\ (exists p, p ∈ GENERIC_PROMPTS /\ lower p = lower line) /\
      forall user, ~ sudo_names user line /\ ~ doas_names user line
  end.

Lemma generic_iff line :
  existsb (fun p => text_eqb (lower p) (lower line)) GENERIC_PROMPTS = true <-> exists p, p ∈ GENERIC_PROMPTS /\ lower p = lower line.
Proof.
  rewrite existsb_exists. setoid_rewrite text_eqb_true. by setoid_rewrite <-list_elem_of_In.
Qed.

Lemma classify_line_iff line login allow kind : classify_line lower line login allow = Some kind <-> may_answer login allow line kind.
Proof.
  unfold classify_line. pose proof (sudo_user_iff line) as Hs. pose proof (doas_user_iff line) as Hd. pose proof (generic_iff line) as Hg.
  destruct (sudo_user line) as [user|] eqn:Es.
  - assert (Hn : sudo_names user line) by by apply Hs. assert (Hdn : forall user', ~ doas_names user' line) by (intros; by eapply sudo_not_doas).
    unfold text_eqb. case_bool_decide; destruct kind; simpl; rewrite <-?Hs; naive_solver.
  - assert (Hsn : forall user', ~ sudo_names user' line) by (intros user' H; apply Hs in H; done).
    destruct (doas_user line) as [user|] eqn:Ed.
    + assert (Hn : doas_names user line) by by apply Hd.
      unfold text_eqb. case_bool_decide; destruct kind; simpl; rewrite <-?Hd; naive_solver.
    + assert (Hdn : forall user', ~ doas_names user' line) by (intros user' H; apply Hd in H; done).
      destruct allow; [|destruct kind; naive_solver]. cbn [negb].
      destruct (existsb _ GENERIC_PROMPTS); destruct kind; simpl; naive_solver.
Qed.

(** C11. The prompts that are recognised: the output ends with a prompt the password of the
    login user may answer exactly when, escape sequences and what was drawn elsewhere left
    out, the line of the cursor is a prompt of at most 160 characters, with nothing before it
    but a return over blanks and nothing after it but blanks, and it is a prompt of sudo or
    of doas that names that user, or, if allowed, a bare prompt that is neither. *)
Theorem recognised_prompts tail login allow kind :
  classify_tail lower tail login allow = Some kind <->
  exists l line, cursor_line (strip_controls (from_utf8_lossy tail)) l /\ prompt_on l line /\ may_answer login allow line kind.
Proof.
  unfold classify_tail. rewrite bind_Some. setoid_rewrite prompt_line_iff. setoid_rewrite classify_line_iff. naive_solver.
Qed.
End classifier.
