(* ===== verification/PasswordMask.v ===== *)
(** * The password in the output (theory of the echo mask of [PasswordFill])

    What the mask shows does not depend on how the output was cut into chunks; it is the
    output with the readings of the password starred out; and over output without escape
    sequences the password cannot be read from it. *)

From Stdlib Require Import Strings.String Strings.Byte NArith ZArith Lia Sorting.Sorted.
From stdpp Require Import base gmap sets list strings sorting countable.
From S2P Require Import Prelude Bytes CryptoPrims AutoOutput AutoText Rotation PasswordFill PasswordFillThy.

Local Open Scope nat_scope.
Local Opaque HOLD_MAX.

(** ** More output does not change what was decided *)

Lemma skip_params_app i l e n :
  (skip_params i l = SkipLen n -> skip_params i (l ++ e) = SkipLen n /\ i + 3 <= n <= i + 2 + length l) /\
  (skip_params i l = SkipNo -> skip_params i (l ++ e) = SkipNo).
Proof.
  revert i. induction l as [|b l IH]; intros i; simpl; [done|].
  destruct (in_byte_range 64 126 b); [split; [intros [= <-]; split; [done|lia]|done]|].
  destruct (in_byte_range 32 63 b); [|done]. destruct (IH (S i)) as [H1 H2].
  split; [|done]. intros [? ?]%H1. split; [done|lia].
Qed.

Lemma skip_body_app i l e n :
  (skip_body i l = SkipLen n -> skip_body i (l ++ e) = SkipLen n /\ i + 3 <= n <= i + 2 + length l) /\
  (skip_body i l = SkipNo -> skip_body i (l ++ e) = SkipNo).
Proof.
  revert i. induction l as [|b l IH]; intros i; [done|]. destruct (IH (S i)) as [H1 H2].
  destruct b; try (simpl; split; [intros [? ?]%H1; split; [done|lia]|done]).
  - simpl. split; [intros [= <-]; split; [done|lia]|done].
  - destruct l as [|b l]; [done|]. destruct b; simpl; split; try done; intros [= <-]; split; [done|lia].
Qed.

Lemma skip_at_app r e n :
  r <> [] ->
  (skip_at r = SkipLen n -> skip_at (r ++ e) = SkipLen n /\ 1 <= n <= length r) /\
  (skip_at r = SkipNo -> skip_at (r ++ e) = SkipNo).
Proof.
  intros Hr. destruct r as [|b r]; [done|].
  destruct b; simpl; try done; try (split; [intros [= <-]; split; [done|lia]|done]).
  destruct r as [|b r]; [done|].
  destruct b; simpl; try done.
  - destruct (skip_params_app 0 r e n) as [H1 H2]. split; [|done]. intros [? ?]%H1. split; [done|lia].
  - destruct (skip_body_app 0 r e n) as [H1 H2]. split; [|done]. intros [? ?]%H1. split; [done|lia].
Qed.

Local Arguments skip_at : simpl never.

Lemma spell_app fuel fuel' j rest e pos secret :
  length rest < fuel -> length (rest ++ e) < fuel' -> spell fuel j rest pos secret <> Partial ->
  spell fuel' j (rest ++ e) pos secret = spell fuel j rest pos secret.
Proof.
  revert fuel' j rest pos secret.
  induction fuel as [|fuel IH]; intros fuel' j rest pos secret Hf Hf' Hp; [lia|].
  destruct fuel' as [|fuel']; [lia|]. destruct secret as [|want more]; [done|]. simpl in *.
  destruct rest as [|b rest]; [by destruct Hp|]. simpl in *. case_bool_decide.
  - apply IH; [lia|lia|done].
  - destruct pos as [|p pos]; [done|].
    destruct (skip_at (b :: rest)) as [n| |] eqn:Es; [|by destruct Hp|].
    + destruct (skip_at_app (b :: rest) e n) as [H1 _]; [done|]. destruct (H1 Es) as [Es' Hn].
      simpl in Es', Hn. rewrite Es'. change (b :: rest ++ e) with ((b :: rest) ++ e). rewrite drop_app_le by (simpl; lia).
      apply IH; [rewrite length_drop; simpl; lia| |done].
      rewrite length_app, length_drop. rewrite length_app in Hf'. simpl. lia.
    + destruct (skip_at_app (b :: rest) e 0) as [_ H2]; [done|]. specialize (H2 Es). simpl in H2. by rewrite H2.
Qed.

Lemma attempt_app data e secret :
  attempt data secret <> Partial -> attempt (data ++ e) secret = attempt data secret.
Proof.
  unfold attempt. destruct data as [|b data]; [done|]. destruct secret as [|want more]; [done|]. cbn [app].
  case_bool_decide; [|done]. intros H'. change (b :: data ++ e) with ((b :: data) ++ e).
  apply spell_app; [simpl; lia|simpl; lia|done].
Qed.

(** ** Readings *)

(** what is found lies in the output that was read *)
Lemma spell_full fuel j rest pos secret l :
  spell fuel j rest pos secret = Full l -> (forall p, p ∈ pos -> p < j) ->
  forall p, p ∈ l -> p < j + length rest.
Proof.
  revert j rest pos secret. induction fuel as [|fuel IH]; intros j rest pos secret H Hpos p Hp.
  - destruct secret; simplify_eq/=. apply Hpos in Hp. lia.
  - destruct secret as [|want more]; simplify_eq/=; [apply Hpos in Hp; lia|].
    destruct rest as [|b rest]; [done|]. case_bool_decide.
    + eapply IH in H; [simpl; revert H; instantiate (1 := p); lia| |done].
      intros q [Hq| ->%list_elem_of_singleton]%elem_of_app; [apply Hpos in Hq|]; lia.
    + destruct pos as [|q pos]; [done|]. destruct (skip_at (b :: rest)) as [n| |] eqn:Es; [|done|done].
      destruct (skip_at_app (b :: rest) [] n) as [H1 _]; [done|]. destruct (H1 Es) as [_ Hn].
      eapply IH in H; [revert H; instantiate (1 := p); rewrite length_drop; simpl in *; lia| |done].
      intros x Hx. apply Hpos in Hx. lia.
Qed.

(** the length of what a reading covers *)
Definition covers (l : list nat) : nat := S (default 0 (list.last l)).

Lemma attempt_full data secret l : attempt data secret = Full l -> data <> [] /\ covers l <= length data.
Proof.
  unfold attempt, covers. destruct data as [|b data]; [done|]. intros H. split; [done|].
  destruct (list.last l) as [p|] eqn:El; [|simpl; lia].
  apply last_Some_elem_of in El. destruct secret as [|want more]; [simplify_eq; set_solver|].
  case_bool_decide; [|done]. eapply (spell_full (S (length (b :: data))) 0 (b :: data)) in H; [|set_solver|done]. simpl in *. lia.
Qed.

(** ** Masking, whole *)

Definition masked (secret data : bytes) : bytes * bool * bytes := mask_loop (length data) secret false data.

Lemma mask_loop_fuel fuel fuel' secret ex data :
  length data <= fuel -> length data <= fuel' -> mask_loop fuel secret ex data = mask_loop fuel' secret ex data.
Proof.
  revert fuel' data. induction fuel as [|fuel IH]; intros fuel' data Hf Hf'.
  - destruct data; [|simpl in Hf; lia]. by destruct fuel'.
  - destruct data as [|b data]; [by destruct fuel'|]. destruct fuel' as [|fuel']; [simpl in Hf'; lia|].
    cbn [mask_loop]. simpl in Hf, Hf'. rewrite (IH fuel' data) by lia.
    destruct (attempt (b :: data) secret) as [l| |] eqn:E; [|done|done].
    rewrite (IH fuel'); [done|rewrite length_drop; simpl; lia..].
Qed.

Definition pass (b : byte) (r : bytes * bool * bytes) : bytes * bool * bytes :=
  let '(out, found, held) := r in (b :: out, found, held).
Definition hit (region : bytes) (r : bytes * bool * bytes) : bytes * bool * bytes :=
  let '(out, found, held) := r in (region ++ out, true, held).

(** no try that is still open is too long to be held back *)
Definition bounded (secret data : bytes) : Prop :=
  forall x y z, data = x ++ y ++ z -> attempt y secret = Partial -> length y <= HOLD_MAX.

Lemma short_bounded secret data : length data <= HOLD_MAX -> bounded secret data.
Proof. intros H x y z -> _. rewrite !length_app in H. lia. Qed.

Lemma bounded_mid secret x y z : bounded secret (x ++ y ++ z) -> bounded secret y.
Proof.
  intros H a b c -> Hb. apply (H (x ++ a) b (c ++ z)); [|done]. by rewrite <-!app_assoc.
Qed.

(** the equation of [masked] *)
Lemma masked_step secret data :
  bounded secret data ->
  masked secret data =
  match data with
  | [] => ([], false, [])
  | b :: data' =>
      match attempt data secret with
      | Full l => hit (star_out 0 (take (covers l) data) (zip l secret)) (masked secret (drop (covers l) data))
      | Partial => ([], false, data)
      | Miss => pass b (masked secret data')
      end
  end.
Proof.
  intros Hb. unfold masked. destruct data as [|b data]; [done|]. cbn [mask_loop length].
  destruct (attempt (b :: data) secret) as [l| |] eqn:E.
  - fold (covers l). rewrite (mask_loop_fuel (length data) (length (drop (covers l) (b :: data)))); [done|..].
    all: rewrite length_drop; unfold covers; simpl; lia.
  - assert (Hl : length (b :: data) <= HOLD_MAX) by (apply (Hb [] (b :: data) []); [by rewrite app_nil_r|done]).
    apply Nat.leb_le in Hl. simpl in Hl |- *. by rewrite Hl.
  - done.
Qed.

(** ** Chunks *)

Lemma bounded_drop secret n a b : bounded secret (a ++ b) -> n <= length a -> bounded secret (drop n a ++ b).
Proof.
  intros H Hn. apply (bounded_mid secret (take n a) _ []). by rewrite app_nil_r, app_assoc, take_drop.
Qed.

Lemma drop_covers_lt l (c : byte) a : length (drop (covers l) (c :: a)) < length (c :: a).
Proof. rewrite length_drop. unfold covers. simpl. lia. Qed.

Lemma masked_held secret a o f h :
  bounded secret a -> masked secret a = (o, f, h) -> masked secret h = ([], false, h) /\ exists x, a = x ++ h.
Proof.
  remember (length a) as n eqn:En. revert a o f h En. induction (lt_wf n) as [n _ IH]. intros a o f h -> Hb H.
  rewrite masked_step in H by done. destruct a as [|c a]; [simplify_eq/=; split; [done|by exists []]|].
  rewrite <-(app_nil_r (c :: a)) in Hb.
  destruct (attempt (c :: a) secret) as [l| |] eqn:E.
  - destruct (attempt_full _ _ _ E) as [_ Hl]. pose proof (bounded_drop secret _ _ _ Hb Hl) as Hb'. rewrite app_nil_r in Hb'.
    destruct (masked secret (drop (covers l) (c :: a))) as [[o1 f1] h1] eqn:E1. simplify_eq/=.
    destruct (IH _ (drop_covers_lt l c a) _ _ _ _ eq_refl Hb' E1) as [Hh (x & Hx)]. split; [done|].
    exists (take (covers l) (c :: a) ++ x). by rewrite <-app_assoc, <-Hx, take_drop.
  - simplify_eq. rewrite app_nil_r in Hb. split; [by rewrite masked_step, E by done|by exists []].
  - pose proof (bounded_drop secret 1 _ _ Hb ltac:(simpl; lia)) as Hb'. rewrite app_nil_r in Hb'.
    destruct (masked secret a) as [[o1 f1] h1] eqn:E1. simplify_eq/=.
    destruct (IH (length a) ltac:(lia) _ _ _ _ eq_refl Hb' E1) as [Hh (x & ->)]. split; [done|]. by exists (c :: x).
Qed.

Lemma masked_app secret a b o1 f1 h1 o2 f2 h2 :
  bounded secret (a ++ b) -> masked secret a = (o1, f1, h1) -> masked secret (h1 ++ b) = (o2, f2, h2) ->
  masked secret (a ++ b) = (o1 ++ o2, f1 || f2, h2).
Proof.
  remember (length a) as n eqn:En. revert a o1 f1 h1 En. induction (lt_wf n) as [n _ IH].
  intros a o1 f1 h1 -> Hb H H2.
  rewrite masked_step in H by by apply (bounded_mid secret [] a b).
  destruct a as [|c a]; [simplify_eq/=; done|].
  rewrite masked_step by done. change ((c :: a) ++ b) with (c :: a ++ b). cbv iota. change (c :: a ++ b) with ((c :: a) ++ b).
  destruct (attempt (c :: a) secret) as [l| |] eqn:E.
  - rewrite (attempt_app (c :: a) b), E by congruence. destruct (attempt_full _ _ _ E) as [_ Hl].
    pose proof (bounded_drop secret _ _ _ Hb Hl) as Hb'.
    destruct (masked secret (drop (covers l) (c :: a))) as [[o3 f3] h3] eqn:E3. cbn [hit] in H. simplify_eq.
    rewrite take_app_le, drop_app_le by done.
    rewrite (IH _ (drop_covers_lt l c a) _ _ _ _ eq_refl Hb' E3 H2). cbn [hit]. by rewrite app_assoc.
  - simplify_eq. rewrite masked_step in H2 by done. simpl in *. done.
  - rewrite (attempt_app (c :: a) b), E by congruence.
    pose proof (bounded_drop secret 1 _ _ Hb ltac:(simpl; lia)) as Hb'. simpl in Hb'.
    destruct (masked secret a) as [[o3 f3] h3] eqn:E3. simplify_eq/=.
    by rewrite (IH (length a) ltac:(lia) _ _ _ _ eq_refl Hb' E3 H2).
Qed.

Lemma feed_masked m c now :
  (now < em_deadline m)%N -> feed c now m =
  (let '(out, found, held) := masked (em_secret m) (em_held m ++ c) in
   (mkMasked out (found && negb (em_input_seen m)) false, mkEchoMask (em_secret m) (em_deadline m) (em_input_seen m) held)).
Proof. intros Hn. unfold feed. apply N.leb_gt in Hn. by rewrite Hn. Qed.

(** ** What can be read *)

Definition printable (secret : bytes) : Prop :=
  secret <> [] /\ Forall (fun b => in_byte_range 32 126 b = true /\ b <> x2a) secret.

(** without line breaks *)
Definition unbroken (l : bytes) : bytes := filter (fun b => is_line_end b = false) l.

Definition readable (secret out : bytes) : Prop := exists x y, unbroken out = x ++ secret ++ y.

Lemma printable_byte b : in_byte_range 32 126 b = true -> is_line_end b = false /\ is_continuation b = false.
Proof. by destruct b. Qed.

Lemma printable_ascii secret : printable secret -> Forall (fun b => is_continuation b = false) secret.
Proof. intros [_ H]. eapply Forall_impl; [|exact H]. intros b [Hb _]. by apply printable_byte. Qed.

Lemma skip_plain b rest : b <> x1b -> skip_at (b :: rest) = if is_line_end b then SkipLen 1 else SkipNo.
Proof. by destruct b. Qed.

Lemma spell_plain fuel j rest pos secret :
  x1b ∉ rest -> Forall (fun b => is_line_end b = false) secret -> secret `prefix_of` unbroken rest -> pos <> [] ->
  length rest < fuel -> exists l, spell fuel j rest pos secret = Full l.
Proof.
  revert j rest pos secret. induction fuel as [|fuel IH]; intros j rest pos secret He Hs Hp Hpos Hf; [lia|].
  destruct secret as [|want more]; [by eexists|]. inversion Hs as [|?? Hw Hm]; subst. cbn [spell].
  destruct rest as [|b rest]; [by apply prefix_nil_inv in Hp|]. simpl in Hf. unfold unbroken in Hp. rewrite filter_cons in Hp.
  case_bool_decide as Hb.
  - subst b. rewrite decide_True in Hp by done. apply prefix_cons_inv_2 in Hp.
    apply IH; [set_solver|done|done|by destruct pos|lia].
  - destruct pos as [|p pos]; [done|]. destruct (is_line_end b) eqn:El.
    + rewrite decide_False in Hp by done. rewrite skip_plain, El by set_solver. change (drop 1 (b :: rest)) with rest.
      apply IH; [set_solver|done..|lia].
    + rewrite decide_True in Hp by done. by apply prefix_cons_inv_1 in Hp.
Qed.

Lemma attempt_plain b data secret :
  x1b ∉ b :: data -> Forall (fun b => is_line_end b = false) secret -> secret <> [] -> is_line_end b = false ->
  secret `prefix_of` unbroken (b :: data) -> exists l, attempt (b :: data) secret = Full l.
Proof.
  intros He Hs Hn Hb Hp. destruct secret as [|want more]; [done|]. inversion Hs as [|?? Hw Hm]; subst.
  unfold attempt. unfold unbroken in Hp. rewrite filter_cons, decide_True in Hp by done.
  pose proof (prefix_cons_inv_1 _ _ _ _ Hp) as ->. apply prefix_cons_inv_2 in Hp.
  rewrite bool_decide_true by done. cbn [spell]. rewrite bool_decide_true by done.
  apply spell_plain; [set_solver|done|done|done|simpl; lia].
Qed.

(** a reading: its positions, and what it leaves of the region it covers *)
Lemma spell_region fuel j rest pos secret l :
  x1b ∉ rest -> Forall (fun b => is_continuation b = false) secret -> spell fuel j rest pos secret = Full l ->
  exists l', l = pos ++ l' /\ length l' = length secret /\ Forall (fun p => j <= p) l' /\
    forall last, list.last l' = Some last ->
      Forall (fun b => b = x2a \/ is_line_end b = true) (star_out j (take (S last - j) rest) (zip l' secret)).
Proof.
  revert j rest pos secret. induction fuel as [|fuel IH]; intros j rest pos secret He Hs H.
  - destruct secret; simplify_eq/=. exists []. rewrite app_nil_r. split_and!; [done..|constructor|done].
  - destruct secret as [|want more]; simpl in H; [simplify_eq; exists []; rewrite app_nil_r; split_and!; [done..|constructor|done]|].
    inversion Hs as [|?? Hw Hm]; subst. destruct rest as [|b rest]; [done|]. case_bool_decide as Hb.
    + apply IH in H as (l' & -> & Hl & Hge & Hout); [|set_solver|done].
      exists (j :: l'). rewrite <-app_assoc. split_and!; [done|by simpl; rewrite Hl|constructor; [lia|]; eapply Forall_impl; [|exact Hge]; intros; simpl in *; lia|].
      intros last Hlast. assert (Hj : j <= last).
      { apply last_Some_elem_of, elem_of_cons in Hlast as [->|Hin]; [lia|]. rewrite list.Forall_forall in Hge. apply Hge in Hin. lia. }
      replace (S last - j) with (S (last - j)) by lia. simpl. rewrite Nat.eqb_refl, Hw. simpl. constructor; [by left|].
      destruct l' as [|p l']; [simplify_eq/=; by rewrite Nat.sub_diag|].
      replace (last - j) with (S last - S j) by lia. by apply Hout.
    + destruct pos as [|p pos]; [done|]. rewrite skip_plain in H by set_solver.
      destruct (is_line_end b) eqn:El; [|done]. change (drop 1 (b :: rest)) with rest in H.
      apply IH in H as (l' & -> & Hl & Hge & Hout); [|set_solver|done].
      exists l'. split_and!; [done|done|eapply Forall_impl; [|exact Hge]; intros; simpl in *; lia|].
      intros last Hlast. assert (Hj : j < last).
      { apply last_Some_elem_of in Hlast. rewrite list.Forall_forall in Hge. apply Hge in Hlast. lia. }
      replace (S last - j) with (S (last - j)) by lia. simpl.
      destruct l' as [|q l']; [done|]. simpl. inversion Hge as [|?? Hq _]; subst.
      destruct (Nat.eqb_spec q j); [lia|]. constructor; [by right|].
      replace (last - j) with (S last - (j + 1)) by lia. rewrite <-Nat.add_1_r. by apply Hout.
Qed.

Definition starred (b : byte) : Prop := b = x2a \/ is_line_end b = true.

(** what is shown of a reading: a star, then stars and line ends *)
Lemma attempt_region data secret l :
  x1b ∉ data -> printable secret -> attempt data secret = Full l ->
  exists t, star_out 0 (take (covers l) data) (zip l secret) = x2a :: t /\ Forall starred t.
Proof.
  intros He Hp H. pose proof (printable_ascii _ Hp) as Hc. destruct Hp as [Hn _]. unfold attempt in H. destruct data as [|b data]; [done|]. destruct secret as [|want more]; [done|].
  case_bool_decide as Hb; [|done]. pose proof H as H0.
  apply spell_region in H0 as (l' & El & Hl & _ & Hout); [|done|done]. rewrite app_nil_l in El. subst l'.
  cbn [spell] in H. rewrite bool_decide_true in H by done.
  inversion Hc as [|?? Hcw Hcm]; subst. apply spell_region in H as (l' & -> & _ & _ & _); [|set_solver|done]. cbn [app] in *.
  destruct (list.last (0 :: l')) as [p|] eqn:Ep; [|by apply last_None in Ep].
  specialize (Hout p eq_refl). unfold covers. rewrite Ep. cbn [default]. rewrite Nat.sub_0_r in Hout.
  cbn [take zip zip_with star_out Nat.eqb] in *. rewrite Hcw in *. cbn [app] in *.
  eexists. split; [done|]. by inversion Hout.
Qed.

Definition plain (b : byte) : Prop := is_line_end b = false /\ b <> x2a.

Lemma printable_plain secret : printable secret -> Forall plain secret.
Proof. intros [_ H]. eapply Forall_impl; [|exact H]. intros b [Hb ?]. split; [by apply printable_byte|done]. Qed.

Lemma unbroken_cons b l : unbroken (b :: l) = if is_line_end b then unbroken l else b :: unbroken l.
Proof. unfold unbroken. rewrite filter_cons. by destruct (is_line_end b). Qed.

(** past stars, only more of what follows can be read *)
Lemma past_stars t o x w secret y :
  Forall starred t -> w <> x2a -> unbroken (t ++ o) = x ++ w :: secret ++ y ->
  exists x', unbroken o = x' ++ w :: secret ++ y.
Proof.
  revert x. induction t as [|b t IH]; intros x Ht Hw H; [by exists x|]. inversion Ht as [|?? Hb Ht']; subst.
  cbn [app] in H. rewrite unbroken_cons in H. destruct (is_line_end b) eqn:El; [by eapply IH|].
  destruct Hb as [->|]; [|congruence]. destruct x as [|c x]; [by injection H as ? _; subst|]. injection H as H. by eapply IH.
Qed.

(** an open try holds back the beginning of the secret, and not all of it *)
Lemma spell_partial fuel j rest pos s :
  x1b ∉ rest -> pos <> [] -> length rest < fuel -> spell fuel j rest pos s = Partial ->
  length (unbroken rest) < length s.
Proof.
  revert j rest pos s. induction fuel as [|fuel IH]; intros j rest pos s He Hpos Hf H; [lia|].
  destruct s as [|want more]; [done|]. cbn [spell] in H. destruct rest as [|b rest]; [simpl; lia|].
  simpl in Hf. rewrite unbroken_cons. case_bool_decide as Hb.
  - apply IH in H; [|set_solver|by destruct pos|lia]. destruct (is_line_end b); simpl; lia.
  - destruct pos as [|p pos]; [done|]. rewrite skip_plain in H by set_solver.
    destruct (is_line_end b); [|done]. change (drop 1 (b :: rest)) with rest in H. apply IH in H; [done|set_solver|done|lia].
Qed.

Section hiding.
Context (secret : bytes) (Hsecret : printable secret).

Lemma attempt_partial data : x1b ∉ data -> attempt data secret = Partial -> ~ readable secret data.
Proof.
  intros He H (x & y & Hr). apply (f_equal length) in Hr. rewrite !length_app in Hr.
  assert (length (unbroken data) < length secret); [|lia]. clear Hr. unfold attempt in H. destruct data as [|b data].
  { destruct Hsecret as [Hn _]. destruct secret; [done|simpl; lia]. }
  destruct secret as [|want more]; [done|]. case_bool_decide as Hb; [|done]. cbn [spell] in H. rewrite bool_decide_true in H by done.
  apply spell_partial in H; [|set_solver|done|simpl; lia]. rewrite unbroken_cons. destruct (is_line_end b); simpl; lia.
Qed.

(** the beginning of what is shown, up to a star, is what was received; also when what is
    held back is shown after it *)
Lemma masked_prefix data out f held s :
  x1b ∉ data -> bounded secret data -> masked secret data = (out, f, held) -> Forall plain s ->
  s `prefix_of` unbroken (out ++ held) -> s `prefix_of` unbroken data.
Proof.
  revert out f held s. induction data as [|b data IH]; intros out f held s He Hb H Hs Hp.
  - rewrite masked_step in H by done. by simplify_eq.
  - rewrite masked_step in H by done. destruct (attempt (b :: data) secret) as [l| |] eqn:E.
    + apply attempt_region in E as (t & Et & _); [|done..]. rewrite Et in H.
      destruct (masked secret (drop (covers l) (b :: data))) as [[o1 f1] h1]. cbn [hit app] in H. simplify_eq.
      cbn [app] in Hp. rewrite unbroken_cons in Hp. destruct s as [|c s]; [apply prefix_nil|].
      apply prefix_cons_inv_1 in Hp. inversion Hs as [|?? [_ ?]]; subst. done.
    + by simplify_eq.
    + destruct (masked secret data) as [[o1 f1] h1] eqn:E1. cbn [pass] in H. simplify_eq.
      assert (Hb' : bounded secret data) by (apply (bounded_mid secret [b] data []); by rewrite app_nil_r).
      cbn [app] in Hp. rewrite unbroken_cons in *. destruct (is_line_end b); [eapply IH; eauto; set_solver|].
      destruct s as [|c s]; [apply prefix_nil|]. pose proof (prefix_cons_inv_1 _ _ _ _ Hp) as ->.
      apply prefix_cons_inv_2 in Hp. apply prefix_cons. inversion Hs; subst. eapply IH; eauto. set_solver.
Qed.

(** the secret cannot be read from what is shown, nor from that and what is held back *)
Lemma masked_unreadable data out f held :
  x1b ∉ data -> bounded secret data -> masked secret data = (out, f, held) -> ~ readable secret (out ++ held).
Proof.
  remember (length data) as n eqn:En. revert data out f held En. induction (lt_wf n) as [n _ IH].
  intros data out f held -> He Hb H Hr0. pose proof Hr0 as (x & y & Hr). pose proof (printable_plain _ Hsecret) as Hpl.
  assert (exists w more, secret = w :: more) as (w & more & Es) by (destruct secret; [by destruct Hsecret|eauto]).
  rewrite masked_step in H by done. destruct data as [|b data]; [injection H as <- <- <-; rewrite Es in Hr; by destruct x|].
  destruct (attempt (b :: data) secret) as [l| |] eqn:E.
  - pose proof (attempt_full _ _ _ E) as [_ Hl]. apply attempt_region in E as (t & Et & Ht); [|done..]. rewrite Et in H.
    destruct (masked secret (drop (covers l) (b :: data))) as [[o1 f1] h1] eqn:E1. cbn [hit] in H. injection H as <- <- <-.
    change ((x2a :: t ++ o1) ++ h1) with (((x2a :: t) ++ o1) ++ h1) in Hr. rewrite <-app_assoc, Es in Hr. apply (past_stars (x2a :: t)) in Hr as (x' & Hr); [|by constructor; [left|]|rewrite Es in Hpl; by inversion Hpl as [|?? []]].
    rewrite <-(app_nil_r (b :: data)) in Hb. pose proof (bounded_drop _ _ _ _ Hb Hl) as Hb'. rewrite app_nil_r in Hb'.
    eapply (IH _ (drop_covers_lt l b data) _ _ _ _ eq_refl); [|done..|by exists x', y; rewrite Hr, Es].
    intros Hin. apply He. rewrite <-(take_drop (covers l) (b :: data)). set_solver.
  - injection H as <- <- <-. by eapply attempt_partial.
  - destruct (masked secret data) as [[o1 f1] h1] eqn:E1. cbn [pass] in H. injection H as <- <- <-.
    assert (Hb' : bounded secret data) by (apply (bounded_mid secret [b] data []); by rewrite app_nil_r).
    assert (He' : x1b ∉ data) by set_solver. cbn [app] in Hr.
    rewrite unbroken_cons in Hr. destruct (is_line_end b) eqn:El; [eapply (IH (length data)); eauto; by exists x, y|].
    destruct x as [|c x].
    + assert (Hp : secret `prefix_of` unbroken (b :: data)); [|destruct (attempt_plain b data secret) as [l El']; try done; [..|congruence]].
      * rewrite unbroken_cons, El. rewrite Es in Hr, Hpl |- *. injection Hr as Hbw Hr. rewrite Hbw. apply prefix_cons.
        inversion Hpl as [|?? _ Hmore]. eapply masked_prefix; [done..|]. rewrite Hr. by apply prefix_app_r.
      * eapply Forall_impl; [|exact Hpl]. by intros ? [].
      * by rewrite Es.
    + injection Hr as _ Hr. eapply (IH (length data)); eauto. by exists x, y.
Qed.
End hiding.

(** ** What is kept *)

(** a byte shown for a byte received *)
Definition shown_for (o b : byte) : Prop := o = b \/ o = x2a.

Lemma star_out_kept i region stars :
  Forall (fun ps => is_continuation ps.2 = false) stars -> Forall2 shown_for (star_out i region stars) region.
Proof.
  revert i stars. induction region as [|b region IH]; intros i stars Hs; cbn [star_out]; [constructor|].
  destruct stars as [|[p s] more]; [constructor; [by left|by apply IH]|].
  destruct (p =? i); [|constructor; [by left|by apply IH]].
  inversion Hs as [|?? Hc Hm]; subst. simpl in Hc. rewrite Hc. constructor; [by right|by apply IH].
Qed.

Lemma zip_snd {A B} (Q : B -> Prop) (l : list A) (k : list B) : Forall Q k -> Forall (fun p => Q p.2) (zip l k).
Proof. intros H. revert l. induction H as [|b k Hb Hk IH]; intros [|a l]; simpl; constructor; auto. Qed.

Lemma masked_kept secret data out f held :
  Forall (fun b => is_continuation b = false) secret -> bounded secret data -> masked secret data = (out, f, held) ->
  exists passed, data = passed ++ held /\ Forall2 shown_for out passed.
Proof.
  intros Hc. remember (length data) as n eqn:En. revert data out f held En. induction (lt_wf n) as [n _ IH].
  intros data out f held -> Hb H. rewrite masked_step in H by done.
  destruct data as [|b data]; [simplify_eq; exists []; split; [done|constructor]|].
  rewrite <-(app_nil_r (b :: data)) in Hb. destruct (attempt (b :: data) secret) as [l| |] eqn:E.
  - destruct (attempt_full _ _ _ E) as [_ Hl]. pose proof (bounded_drop _ _ _ _ Hb Hl) as Hb'. rewrite app_nil_r in Hb'.
    destruct (masked secret (drop (covers l) (b :: data))) as [[o1 f1] h1] eqn:E1. cbn [hit] in H. simplify_eq.
    destruct (IH _ (drop_covers_lt l b data) _ _ _ _ eq_refl Hb' E1) as (passed & Hp & H2).
    exists (take (covers l) (b :: data) ++ passed). rewrite <-app_assoc, <-Hp, take_drop. split; [done|].
    apply Forall2_app; [|done]. apply star_out_kept. by apply (zip_snd (fun b => is_continuation b = false)).
  - simplify_eq. exists []. split; [done|constructor].
  - pose proof (bounded_drop _ 1 _ _ Hb ltac:(simpl; lia)) as Hb'. rewrite app_nil_r in Hb'.
    destruct (masked secret data) as [[o1 f1] h1] eqn:E1. cbn [pass] in H. simplify_eq.
    destruct (IH (length data) ltac:(simpl; lia) _ _ _ _ eq_refl Hb' E1) as (passed & -> & H2).
    exists (b :: passed). split; [done|]. constructor; [by left|done].
Qed.

(** ** After a fill *)

(** what a run shows, what it received *)
Definition shown (eff : list Effect) : bytes := eff ≫= fun e => match e with Shown out => out | _ => [] end.
Definition received (evs : list SessionEvent) : bytes := evs ≫= fun e => match e with EvOutput data _ => data | _ => [] end.

Lemma shown_app e1 e2 : shown (e1 ++ e2) = shown e1 ++ shown e2.
Proof. apply bind_app. Qed.

Lemma shown_deliver ev : shown (deliver ev) = [].
Proof.
  induction ev as [|e ev IH]; [done|].
  change (deliver (e :: ev)) with ((match e with Echoed => [LineKilled; Told e] | _ => [Told e] end) ++ deliver ev).
  rewrite shown_app, IH. by destruct e.
Qed.

Lemma shown_release out ev : shown (release out ev) = out.
Proof.
  unfold release. rewrite shown_app, shown_deliver, app_nil_r. unfold shown. destruct out; [done|]. simpl. by rewrite app_nil_r.
Qed.

Section session.
Context `{P : CryptoPrims} (lower : text -> text) (cfg : FillConfig) (secret : bytes) (t window : N).

Abbreviation step := (session_step lower cfg).
Abbreviation run := (run_session lower cfg new_session).

(** the events of the window: output, keystrokes when the window is short enough for them,
    pauses, fills that claim nothing, the writing of the password *)
Definition watched (s : FillSession) (e : SessionEvent) : Prop :=
  match e with
  | EvOutput data now => (x1b ∉ data) /\ (now < t + window)%N
  | EvTyped data now => is_focus_report data = true \/ (window <= ECHO_AFTER_INPUT /\ t <= now)%N
  | EvFill _ _ => True
  | EvRead _ _ _ => claimed_at cfg s e = None
  | EvWritten _ ok => ok = true
  | EvIdle _ _ => True
  | EvClosed => False
  end.

(** a pause after which what is held back is shown *)
Definition flushes (s : FillSession) (e : SessionEvent) : bool :=
  match e with EvIdle generation _ => (g_hold_gen (fs_guard s) =? generation)%N | _ => false end.

(** the mask of the fill is there and holds back what is given *)
Definition masking (held : bytes) (g : GuardState) : Prop :=
  exists m, g_echo g = Some m /\ em_secret m = secret /\ (t + window <= em_deadline m)%N /\ em_held m = held.

Lemma observe_masking out now g g' ev held :
  observe lower cfg out now g = (g', ev) -> masking held g -> masking held g'.
Proof. intros (_ & _ & _ & He)%observe_spec. unfold masking. by rewrite He. Qed.

Lemma output_masking s data now held o f held' :
  (now < t + window)%N -> masking held (fs_guard s) -> masked secret (held ++ data) = (o, f, held') ->
  masking held' (fs_guard (step s (EvOutput data now)).1) /\ shown (step s (EvOutput data now)).2 = o.
Proof.
  intros Hn (m & Hm & Hs & Hd & Hh) H. cbn [session_step]. unfold guard_output. cbn [g_echo set_hold_gen]. rewrite Hm.
  rewrite feed_masked by lia. rewrite Hs, Hh, H. cbn [mk_out mk_expired mk_echoed].
  match goal with |- context [observe lower cfg ?o now ?g1] => destruct (observe lower cfg o now g1) as [g2 ev2] eqn:Eo end.
  cbn [fst snd fs_guard set_guard]. split; [|apply shown_release]. eapply observe_masking; [done|].
  eexists. split_and!; [done|done|done|done].
Qed.

Lemma quiet_masking s e held :
  watched s e -> flushes s e = false -> (forall data now, e <> EvOutput data now) -> masking held (fs_guard s) ->
  masking held (fs_guard (step s e).1) /\ shown (step s e).2 = [].
Proof.
  intros Hw Hf Ho Hm. destruct e as [data now|gen now| |data now|n id|n sec now|n ok]; cbn [session_step];
    [naive_solver|simpl in Hf; by rewrite Hf|done| | | |].
  - destruct (is_focus_report data) eqn:Ef; [done|]. simpl in Hw. destruct Hw as [|[Hw1 Hw2]]; [congruence|].
    destruct (note_typed data now (fs_guard s)) as [g' ev] eqn:E. cbn [fst snd fs_guard set_guard].
    rewrite shown_app, shown_deliver. split; [|done]. destruct Hm as (m & Hm & Hs & Hd & Hh).
    assert (Hg : g_echo g' = Some (mask_note_input now m)) by (unfold note_typed in E; simpl in E; rewrite Hm in E; repeat case_match; by simplify_eq/=).
    exists (mask_note_input now m). rewrite Hg. unfold mask_note_input. destruct (em_input_seen m); simpl; split_and!; done || lia.
  - unfold fill_step. repeat case_match; by simplify_eq/=.
  - simpl in Hw. unfold fill_step. destruct (fs_fills s !! n) as [[id|]|]; [|done..]. destruct sec as [[|b bs]|]; [done| |done].
    destruct (claim cfg id (b :: bs) now (fs_guard s)) as [[[r fl] g'] ev] eqn:Ec. apply (claim_spec lower) in Ec.
    destruct r; [done|]. destruct Ec as (-> & -> & ->). done.
  - simpl in Hw. subst ok. unfold fill_step. repeat case_match; by simplify_eq/=.
Qed.

Lemma flush_masking s e held :
  flushes s e = true -> masking held (fs_guard s) -> masking [] (fs_guard (step s e).1) /\ shown (step s e).2 = held.
Proof.
  intros Hf (m & Hm & Hs & Hd & Hh). destruct e as [data now|gen now| |data now|n id|n sec now|n ok]; try done.
  simpl in Hf. cbn [session_step]. rewrite Hf. unfold flush_held, take_held. rewrite Hm, Hh.
  assert (H0 : masking [] (set_echo (Some (mkEchoMask (em_secret m) (em_deadline m) (em_input_seen m) [])) (fs_guard s))).
  { eexists. split_and!; done. }
  destruct held as [|b held]; [done|].
  match goal with |- context [observe lower cfg ?o now ?g1] => destruct (observe lower cfg o now g1) as [g2 ev2] eqn:Eo end.
  cbn [fst snd fs_guard set_guard]. split; [|apply shown_release]. by eapply observe_masking.
Qed.

Lemma close_shown s held : masking held (fs_guard s) -> shown (step s EvClosed).2 = held.
Proof.
  intros (m & Hm & Hs & Hd & Hh). cbn [session_step]. unfold end_mask. rewrite Hm, Hh. cbn [snd]. apply shown_release.
Qed.

Lemma output_or_not e : (exists data now, e = EvOutput data now) \/ forall data now, e <> EvOutput data now.
Proof. destruct e; eauto. Qed.

(** the mask stays over the events of the window *)
Lemma step_masked s e : watched s e -> (exists held, masking held (fs_guard s)) -> exists held, masking held (fs_guard (step s e).1).
Proof.
  intros Hw [held Hm]. destruct (output_or_not e) as [(data & now & ->)|Ho].
  - destruct (masked secret (held ++ data)) as [[o f] h] eqn:E. destruct Hw as [_ Hn].
    exists h. by apply (output_masking _ _ _ _ _ _ _ Hn Hm E).
  - destruct (flushes s e) eqn:Hf; [exists []; by apply (flush_masking _ _ held)|]. exists held. by apply quiet_masking.
Qed.

Lemma run_masked s evs :
  along lower cfg watched s evs -> (exists held, masking held (fs_guard s)) -> exists held, masking held (fs_guard (run_session lower cfg s evs).1).
Proof.
  revert s. induction evs as [|e evs IH]; intros s Ha Hm; [done|]. destruct Ha as [Hw Ha]. cbn [run_session].
  apply (step_masked _ _ Hw) in Hm. apply (IH _ Ha) in Hm.
  destruct (step s e) as [s1 eff1]. cbn [fst] in *. by destruct (run_session lower cfg s1 evs).
Qed.

(** [evs] is empty or ends with a pause that flushes *)
Definition up_to_pause (s : FillSession) (evs : list SessionEvent) : Prop :=
  evs = [] \/ exists evs' e, evs = evs' ++ [e] /\ flushes (run_session lower cfg s evs').1 e = true.

Lemma run_to_pause s evs :
  along lower cfg watched s evs -> up_to_pause s evs -> masking [] (fs_guard s) -> masking [] (fs_guard (run_session lower cfg s evs).1).
Proof.
  intros Ha [->|(evs' & e & -> & Hf)] Hm; [done|]. apply along_app in Ha as [Ha _].
  destruct (run_masked s evs' Ha (ex_intro _ [] Hm)) as [held Hm']. rewrite run_session_snoc. by eapply flush_masking.
Qed.

Lemma run_snoc_shown s evs e :
  shown (run_session lower cfg s (evs ++ [e])).2 = shown (run_session lower cfg s evs).2 ++ shown (step (run_session lower cfg s evs).1 e).2.
Proof.
  revert s. induction evs as [|x evs IH]; intros s; cbn [app run_session].
  { cbn [fst snd]. destruct (step s e) as [s' eff]. cbn [snd]. by rewrite app_nil_r. }
  destruct (step s x) as [s1 eff1]. specialize (IH s1).
  destruct (run_session lower cfg s1 (evs ++ [e])) as [s2 l2], (run_session lower cfg s1 evs) as [s3 l3]. cbn [fst snd] in *.
  by rewrite !shown_app, IH, app_assoc.
Qed.

(** the output of a stretch without such a pause *)
Lemma run_masking s evs held :
  along lower cfg watched s evs -> along lower cfg (fun s e => flushes s e = false) s evs ->
  masking held (fs_guard s) -> masked secret held = ([], false, held) -> bounded secret (held ++ received evs) ->
  exists f held', masked secret (held ++ received evs) = (shown (run_session lower cfg s evs).2, f, held') /\
    masking held' (fs_guard (run_session lower cfg s evs).1).
Proof.
  revert s held. induction evs as [|e evs IH]; intros s held Ha Hq Hm Hh Hb.
  { rewrite app_nil_r. eauto. }
  destruct Ha as [Hw Ha], Hq as [Hf Hq]. change (received (e :: evs)) with ((match e with EvOutput data _ => data | _ => [] end) ++ received evs) in *.
  destruct (output_or_not e) as [(data & now & ->)|Ho].
  - rewrite app_assoc in *. destruct (masked secret (held ++ data)) as [[o1 f1] h1] eqn:E1. destruct Hw as [_ Hn].
    destruct (output_masking _ _ _ _ _ _ _ Hn Hm E1) as [Hm' Hs].
    destruct (masked_held secret (held ++ data) o1 f1 h1) as [Hh1 (x & Hx)]; [|done|].
    { by apply (bounded_mid _ [] _ (received evs)). }
    assert (Hb' : bounded secret (h1 ++ received evs)).
    { rewrite Hx, <-app_assoc in Hb. apply (bounded_mid _ x _ []). by rewrite app_nil_r. }
    destruct (IH _ _ Ha Hq Hm' Hh1 Hb') as (f2 & h2 & E2 & Hm2). exists (f1 || f2), h2.
    rewrite (masked_app _ _ _ _ _ _ _ _ _ Hb E1 E2). cbn [run_session].
    destruct (step s (EvOutput data now)) as [s1 eff1], (run_session lower cfg s1 evs) as [s2 eff2] eqn:E.
    cbn [fst snd] in *. rewrite E in *. cbn [fst snd] in *. by rewrite shown_app, Hs.
  - destruct (quiet_masking _ _ _ Hw Hf Ho Hm) as [Hm' Hs].
    assert (Hr : match e with EvOutput data _ => data | _ => [] end = []) by (destruct e; naive_solver). rewrite Hr in *.
    destruct (IH _ _ Ha Hq Hm' Hh Hb) as (f2 & h2 & E2 & Hm2). exists f2, h2. cbn [app run_session]. rewrite E2.
    destruct (step s e) as [s1 eff1]. cbn [fst snd] in *. destruct (run_session lower cfg s1 evs) as [s2 eff2].
    cbn [fst snd] in *. by rewrite shown_app, Hs.
Qed.

Lemma claim_masking s e id kind :
  claimed_at cfg s e = Some (id, secret, kind, t) -> (window <= ECHO_WINDOW)%N -> masking [] (fs_guard (step s e).1).
Proof.
  intros Hc Hw. pose proof (claimed_at_spec _ _ _ _ _ _ _ Hc) as (n & fl & g' & ev & -> & Hn & Hs & Hcl).
  cbn [session_step]. unfold fill_step. rewrite Hn.
  assert (He : g_echo g' = new_mask secret t).
  { unfold claim in Hcl. destruct (live id (fs_guard s)); [|done]. case_bool_decide; [done|]. by simplify_eq/=. }
  exists (mkEchoMask secret (t + ECHO_WINDOW) false []).
  destruct secret as [|b bs] eqn:Es; [done|]. rewrite Hcl. cbn [fst fs_guard set_phase set_guard].
  rewrite He. split_and!; [done|done|simpl; lia|done].
Qed.

Lemma watched_received s evs : along lower cfg watched s evs -> x1b ∉ received evs.
Proof.
  revert s. induction evs as [|e evs IH]; intros s Ha; [set_solver|]. destruct Ha as [Hw Ha]. apply IH in Ha.
  change (received (e :: evs)) with ((match e with EvOutput data _ => data | _ => [] end) ++ received evs).
  destruct e; simpl in Hw; set_solver.
Qed.
End session.

(** how a stretch of output ends: nothing more, a pause, or the end of the session *)
Definition stretch_end (fin : list SessionEvent) : Prop :=
  fin = [] \/ (exists generation now, fin = [EvIdle generation now]) \/ fin = [EvClosed].

