(* ===== verification/PasswordRuns.v ===== *)
(** * Concrete runs of a session with a saved password

    The theorems of [PasswordFillThy] and [PasswordMask] at a session of the user alice, whose
    saved password is filled at a prompt of sudo; and runs that show where the code does less
    than its comments say. *)

From Stdlib Require Import Strings.String Strings.Byte NArith ZArith Lia Sorting.Sorted.
From stdpp Require Import base gmap sets list strings sorting countable.
From S2P Require Import Prelude Bytes CryptoPrims AutoOutput AutoText Rotation PasswordFill PasswordFillThy PasswordMask.

Local Open Scope N_scope.

#[local] Instance demo_prims : CryptoPrims := Sample.prims.

Definition demo_lower (s : text) : text := s.
Definition demo_fill : FillConfig := mkFillConfig (u "alice") true [x01].
Definition sudo_prompt : bytes := lit "[sudo] password for alice: ".
Definition demo_secret : bytes := lit "s3cret".
Definition newline : bytes := [x0d; x0a].
Definition esc (s : string) : bytes := x1b :: lit s.

#[local] Abbreviation demo_session := (run_session demo_lower demo_fill new_session).

(** the prompt, the request and the reading of the password *)
Definition prompted : list SessionEvent := [EvOutput sudo_prompt 1000; EvFill 7 1].
Definition reads : SessionEvent := EvRead 7 (Some demo_secret) 1100.

Ltac by_eval := vm_compute; reflexivity.

Example a_fill :
  (demo_session (prompted ++ [reads; EvWritten 7 true])).2 =
  [Shown sudo_prompt; Told (Offered Sudo 1 (Some (u "alice")) false); Told (Withdrawn 1); TypedSecret demo_secret; Answered 7 (Ok tt)].
Proof. by_eval. Qed.

Lemma password_typed_only_at_its_prompt_witness :
  exists n pre t post id kind, EvWritten 7 true = EvWritten n true /\
    prompted ++ [reads] = pre ++ EvRead n (Some demo_secret) t :: post /\
    (forall ok, EvWritten n ok ∉ post) /\
    claimed_at demo_fill (demo_session pre).1 (EvRead n (Some demo_secret) t) = Some (id, demo_secret, kind, t) /\
    classify_tail demo_lower (g_tail (fs_guard (demo_session pre).1)) (fc_login_user demo_fill) (fc_allow_generic demo_fill) = Some kind /\
    exists before o since u r, pre = before ++ o :: since /\
      Told (Offered kind id u r) ∈ (session_step demo_lower demo_fill (demo_session before).1 o).2 /\
      along demo_lower demo_fill (fun s e => typing e = None /\ claimed_at demo_fill s e = None) (demo_session (before ++ [o])).1 since.
Proof.
  apply (password_typed_only_at_its_prompt demo_lower demo_fill (prompted ++ [reads]) (EvWritten 7 true) demo_secret).
  assert (H : (session_step demo_lower demo_fill (demo_session (prompted ++ [reads])).1 (EvWritten 7 true)).2 =
    [TypedSecret demo_secret; Answered 7 (Ok tt)]) by by_eval.
  rewrite H. apply list_elem_of_here.
Defined.

(** the prompt comes back: the password was wrong *)
Definition refusal : SessionEvent := EvOutput (newline ++ lit "Sorry, try again." ++ newline ++ sudo_prompt) 4000.

Example a_refusal :
  (demo_session (prompted ++ reads :: [EvWritten 7 true; EvTyped [x0d] 1200] ++ refusal ::
     [EvOutput (newline ++ sudo_prompt) 90000; EvFill 8 2; EvRead 8 (Some demo_secret) 91000])).2 =
  (demo_session (prompted ++ reads :: [EvWritten 7 true; EvTyped [x0d] 1200] ++ [refusal])).2 ++
  [Shown (newline ++ sudo_prompt); Told (Offered Sudo 2 (Some (u "alice")) true); Answered 8 (Err WasRejected)].
Proof. by_eval. Qed.

Definition submits : list SessionEvent := [EvWritten 7 true; EvTyped [x0d] 1200].
Definition later : list SessionEvent := [EvOutput (newline ++ sudo_prompt) 90000; EvFill 8 2].
Definition other_secret : bytes := lit "other".

Lemma rejected_password_is_not_typed_again_witness :
  (forall k i u r, Told (Offered k i u r) ∉ (session_step demo_lower demo_fill (demo_session (prompted ++ reads :: submits)).1 refusal).2) /\
  (claimed_at demo_fill (demo_session (prompted ++ reads :: submits ++ refusal :: later)).1 (EvRead 8 (Some other_secret) 91000) =
     Some (2, other_secret, Sudo, 91000) /\ other_secret <> demo_secret).
Proof.
  destruct (rejected_password_is_not_typed_again demo_lower demo_fill prompted reads submits refusal later
    (EvRead 8 (Some other_secret) 91000) 1 demo_secret Sudo 1100 4000 2 other_secret Sudo 91000) as [H1 H2].
  - by_eval.
  - cbn [along submits]. split_and!; [split_and!|split_and!|done]; try by_eval; try done. by intros data [= <-].
  - split_and!; [by eexists|by_eval|]. right. exists (newline ++ lit "Sorry, try again." ++ newline ++ sudo_prompt).
    assert (H : (session_step demo_lower demo_fill (demo_session (prompted ++ reads :: submits)).1 refusal).2 =
      [Shown (newline ++ lit "Sorry, try again." ++ newline ++ sudo_prompt); Told Rejected]) by by_eval.
    rewrite H. split; [apply list_elem_of_here|apply list_elem_of_further, list_elem_of_here].
  - by_eval.
  - split; [exact H1|]. assert (H : claimed_at demo_fill (demo_session (prompted ++ reads :: submits ++ refusal :: later)).1
      (EvRead 8 (Some other_secret) 91000) = Some (2, other_secret, Sudo, 91000)) by by_eval.
    split; [exact H|exact (H2 H)].
Defined.

(** the echo of a program that was taken for a prompt *)
Definition echoes : list SessionEvent :=
  [EvOutput (lit "s3c") 1150; EvWritten 7 true; EvOutput (lit "re" ++ newline ++ lit "t is wrong") 1160].

(** an earlier beginning of it, and a pause *)
Definition paused : list SessionEvent := [EvOutput (lit "ok s3") 1120; EvIdle 2 1300].


(** an echo with a pause in it is shown *)
Example echo_over_a_pause :
  shown (run_session demo_lower demo_fill (demo_session (prompted ++ [reads])).1
    [EvOutput (lit "s3c") 1120; EvIdle 2 1300; EvOutput (lit "ret") 1310; EvIdle 3 1500]).2 = demo_secret.
Proof. by_eval. Qed.

Lemma one_fill_per_offer_witness :
  claims demo_lower demo_fill new_session (prompted ++ reads :: submits ++ refusal :: later ++ [EvRead 8 (Some other_secret) 91000]) = [1; 2] /\
  StronglySorted N.lt (claims demo_lower demo_fill new_session
    (prompted ++ reads :: submits ++ refusal :: later ++ [EvRead 8 (Some other_secret) 91000])).
Proof. split; [by_eval|]. apply (one_fill_per_offer demo_lower demo_fill). by_eval. Defined.

(** ** Where the code does less than its comments say *)

(** a repaint of the screen with a newline in it, of several rows, ending where the prompt is *)
Definition repaint : bytes := esc "[H" ++ lit "$ sudo ls" ++ newline ++ sudo_prompt.

(** the user has begun to type the password; the screen is repainted: the prompt is offered
    again, and a fill adds the saved password to what was typed *)
Example repaint_reoffers :
  (demo_session [EvOutput sudo_prompt 1000; EvTyped (lit "s3") 1100; EvOutput repaint 1200;
     EvFill 7 2; EvRead 7 (Some demo_secret) 1300; EvWritten 7 true]).2 =
  [Shown sudo_prompt; Told (Offered Sudo 1 (Some (u "alice")) false); Told (Withdrawn 1); Sent (lit "s3");
   Shown repaint; Told (Offered Sudo 2 (Some (u "alice")) false); Told (Withdrawn 2); TypedSecret demo_secret; Answered 7 (Ok tt)].
Proof. by_eval. Qed.

(** the screen is repainted soon after a fill, before Enter: the password counts as rejected *)
Example repaint_rejects :
  (demo_session (prompted ++ [reads; EvWritten 7 true; EvOutput repaint 1200])).2 =
  (demo_session (prompted ++ [reads; EvWritten 7 true])).2 ++ [Shown repaint; Told Rejected].
Proof. by_eval. Qed.

(** a string of the terminal between two echoed characters is kept, the password in it too *)
Example string_between_is_shown :
  (demo_session (prompted ++ [reads; EvWritten 7 true; EvOutput (lit "s" ++ esc "]0;s3cret" ++ [x07] ++ lit "3cret") 1200])).2 =
  (demo_session (prompted ++ [reads; EvWritten 7 true])).2 ++
  [Shown (lit "*" ++ esc "]0;s3cret" ++ [x07] ++ lit "*****"); LineKilled; Told Echoed].
Proof. by_eval. Qed.

(** what a mask held back is shown when the next fill is claimed, and not looked at: the
    password is typed though the output ends with other text than the prompt *)
Example held_back_unseen :
  (demo_session (prompted ++ [reads; EvWritten 7 true; EvTyped (lit "x") 1200; EvOutput (newline ++ sudo_prompt) 1300; EvFill 8 2;
     EvOutput (lit "s") 1400; EvRead 8 (Some demo_secret) 1401; EvWritten 8 true])).2 =
  (demo_session (prompted ++ [reads; EvWritten 7 true])).2 ++ [Sent (lit "x"); Shown (newline ++ sudo_prompt);
   Told (Offered Sudo 2 (Some (u "alice")) false); Shown (lit "s"); Told (Withdrawn 2); TypedSecret demo_secret; Answered 8 (Ok tt)].
Proof. by_eval. Qed.
