(* ===== verification/SshConnect.v ===== *)
(** * Connecting to a host (ssh-transport/src/client.rs, error.rs)

    [connect_through] dials the first host (directly or through a proxy), checks the key it
    presents against the pinned one, pins it on first use, authenticates, and goes on from
    there to the next host, up to the target. What the world answers (the store of pinned
    keys, the proxy, the SSH library, the agents, the person at the prompt) is the record
    [World], whose answers may depend on everything that happened before; every call and its
    answer is an [Event] of the [Log], the state of the computations here. A [Handle] is the
    place of its handshake in the log. The deadline over a whole authentication strikes while
    a call is awaited: in the model that call answers with [HandshakeTimeout]. Log lines, the
    goodbye of [trust_host_key] and the tables of remote forwards, empty at the start, are
    left out. *)

From Stdlib Require Import Strings.String Strings.Byte NArith ZArith Lia.
From stdpp Require Import base gmap sets list strings sorting countable.
From S2P Require Import Prelude Bytes.

Local Open Scope nat_scope.

(** without the messages that some of them carry *)
Inductive TransportError :=
| HostUntrusted
| Russh
| Io
| AgentFailed
| StorageFailed
| HostKeyMismatch (host : bytes) (port : N) (fingerprint : bytes)
| SftpFailed
| NonLoopbackBind
| FingerprintMismatch (expected got : bytes)
| HandshakeTimeout
| AuthFailed
| KeyRefused
| KeyAcceptedMoreAuthRequired
| CoreLocked
| SystemAgentFailed
| SystemAgentKeyMissing
| SystemAgentIsUniSsh
| InteractiveAuthUnsupported
| AuthCancelled
| KeyEncoding
| ConfigFailed
| Socks
| ProxyFailed.

(** ** The SSH library *)

(** keys of the [ssh-key] crate *)
Class SshKeys := {
  PublicKey : Type;
  KeyData : Type;
  Certificate : Type;
  pk_eq_dec :: EqDecision PublicKey;
  kd_eq_dec :: EqDecision KeyData;
  pk_data : PublicKey -> KeyData;
  pk_from_openssh : bytes -> option PublicKey;
  pk_to_openssh : PublicKey -> option bytes;
  pk_is_rsa : PublicKey -> bool;
  pk_fingerprint : PublicKey -> bytes;
  cert_from_openssh : bytes -> option Certificate;
  cert_key : Certificate -> KeyData;
  (** [str::trim] of a key line *)
  trim_line : bytes -> bytes
}.

(** what a server shows as its host key *)
Inductive PublicKeyOrCertificate `{SshKeys} :=
| ShownKey (key : PublicKey)
| ShownCertificate (c : Certificate).

Inductive MethodKind := MPublicKey | MPassword | MKeyboardInteractive | MOther.
#[global] Instance MethodKind_eq_dec : EqDecision MethodKind.
Proof. solve_decision. Defined.

Inductive AuthResult :=
| Success
| Failure (remaining_methods : list MethodKind) (partial_success : bool).

Record PromptField := mkPrompt { pf_prompt : bytes; pf_echo : bool }.

Inductive KbdResponse :=
| KbdSuccess
| KbdFailure (remaining_methods : list MethodKind) (partial_success : bool)
| KbdInfo (name instructions : bytes) (prompts : list PromptField).

Inductive AgentIdentity `{SshKeys} :=
| IdKey (key : PublicKey)
| IdCertificate (c : Certificate).

Inductive HashAlg := Sha256 | Sha512.

(** ** What is asked for *)

Inductive Auth :=
| AuthAgent (key_id : bytes)
| AuthPassword (password : bytes)
| AuthSystemAgent (public_key : bytes).

Inductive ProxyKind := Http | Socks4 | Socks5.
Record ProxyOptions := mkProxy {
  px_kind : ProxyKind; px_host : bytes; px_port : N; px_username : option bytes; px_password : option bytes
}.

Record ConnectOptions := mkConnect {
  co_require_pinned : bool;
  co_host : bytes;
  co_port : N;
  co_user : bytes;
  co_auth : Auth;
  co_prompter : bool;
  co_agent_forward : bool;
  co_proxy : option ProxyOptions;
  co_own_system_agent : option bytes;
  co_publickey_only : bool
}.

Definition new_options (host : bytes) (port : N) (user : bytes) (auth : Auth) : ConnectOptions :=
  mkConnect false host port user auth false false None None false.

(** ** What happens *)

Abbreviation Handle := nat.

(** how the bytes of a handshake travel *)
Inductive Route := ByTcp | ByProxy (proxy : ProxyOptions) | ByTunnel (via : Handle).

(** one message of authentication to a server *)
Inductive AuthStep `{SshKeys} :=
| OfferKey (user : bytes) (key : PublicKey) (hash_alg : option HashAlg)
| OfferCertificate (user : bytes) (c : Certificate) (hash_alg : option HashAlg)
| SendPassword (user password : bytes)
| KbdStart (user : bytes)
| KbdRespond (answers : list bytes).

(** the end of [russh::client::connect] under its deadline; [None]: the deadline passed *)
Record Handshake `{SshKeys} := mkHandshake {
  hs_shown : option PublicKeyOrCertificate;
  hs_result : option (result TransportError unit)
}.

Inductive Event `{SshKeys} :=
| EvGet (host : bytes) (port : N) (r : result TransportError (option bytes))
| EvPut (host : bytes) (port : N) (key : bytes) (r : result TransportError unit)
| EvDial (proxy : ProxyOptions) (host : bytes) (port : N) (r : result TransportError unit)
| EvTunnel (via : Handle) (host : bytes) (port : N) (r : result TransportError unit)
| EvHandshake (route : Route) (host : bytes) (port : N) (expected : option bytes) (hs : Handshake)
| EvAuth (h : Handle) (step : AuthStep) (r : result TransportError AuthResult)
| EvKbd (h : Handle) (step : AuthStep) (r : result TransportError KbdResponse)
| EvAsk (name instructions : bytes) (fields : list PromptField) (r : result TransportError (option (list bytes)))
| EvAgentKey (key_id : bytes) (r : option bytes)
| EvAgentCertificate (key_id : bytes) (r : option bytes)
| EvSystemAgent (r : result TransportError (list AgentIdentity)).

Abbreviation Log := (list Event).

(** the check of a presented key, as the library calls it *)
Definition KeyCheck `{SshKeys} := PublicKeyOrCertificate -> result TransportError bool.

Record World `{SshKeys} := mkWorld {
  w_get : Log -> bytes -> N -> result TransportError (option bytes);
  w_put : Log -> bytes -> N -> bytes -> result TransportError unit;
  w_dial : Log -> ProxyOptions -> bytes -> N -> result TransportError unit;
  w_tunnel : Log -> Handle -> bytes -> N -> result TransportError unit;
  w_connect : Log -> Route -> bytes -> N -> KeyCheck -> Handshake;
  w_auth : Log -> Handle -> AuthStep -> result TransportError AuthResult;
  w_kbd : Log -> Handle -> AuthStep -> result TransportError KbdResponse;
  w_ask : Log -> bytes -> bytes -> list PromptField -> result TransportError (option (list bytes));
  w_agent_key : Log -> bytes -> option bytes;
  w_agent_certificate : Log -> bytes -> option bytes;
  (** the agent at [SSH_AUTH_SOCK]: connecting to it and its identities *)
  w_system_agent : Log -> result TransportError (list AgentIdentity);
  w_auth_sock : option bytes;
  (** the canonical path of a file *)
  w_canonical : bytes -> bytes
}.

(** [russh]: a handshake succeeds only if a key was shown and the check accepted it *)
Definition checks_keys `{SshKeys} (W : World) : Prop :=
  forall log route host port check,
    hs_result (w_connect W log route host port check) = Some (Ok tt) ->
    exists shown, hs_shown (w_connect W log route host port check) = Some shown /\ check shown = Ok true.

(** ** The code *)

Section client.
Context `{K : SshKeys} (W : World).

Abbreviation Conn A := (M Log TransportError A).

(** a call: its answer is logged *)
Definition call {A} (ask : Log -> A) (event : A -> Event) : Conn A :=
  fun log => let a := ask log in (Ok a, log ++ [event a]).
Definition call_result {A} (ask : Log -> result TransportError A) (event : result TransportError A -> Event) : Conn A :=
  fun log => let r := ask log in (r, log ++ [event r]).

Definition known_get (host : bytes) (port : N) : Conn (option bytes) :=
  call_result (fun log => w_get W log host port) (EvGet host port).
Definition known_put (host : bytes) (port : N) (key : bytes) : Conn unit :=
  call_result (fun log => w_put W log host port key) (EvPut host port key).

(** [ClientHandler::check_server_key]: its answer, and what it notes as observed *)
Definition check_server_key (expected : option bytes) (shown : PublicKeyOrCertificate)
    : result TransportError bool * option bytes :=
  match shown with
  | ShownCertificate _ => (Ok false, None)
  | ShownKey key =>
      match pk_to_openssh key with
      | None => (Err KeyEncoding, None)
      | Some b => (Ok (match expected with Some pinned => bool_decide (pinned = b) | None => true end), Some b)
      end
  end.

(** what the handler has noted when the handshake is over *)
Definition observed_key (expected : option bytes) (hs : Handshake) : option bytes :=
  shown ← hs_shown hs; (check_server_key expected shown).2.

Definition pin_tofu (host : bytes) (port : N) (expected observed : option bytes) : Conn unit :=
  match expected, observed with
  | None, Some key => known_put host port key
  | _, _ => mret tt
  end.

(** [fingerprint_openssh] *)
Definition fingerprint_openssh (openssh : bytes) : bytes :=
  match pk_from_openssh (trim_line openssh) with
  | Some pk => pk_fingerprint pk
  | None => lit "unknown"
  end.

Definition classify_connect_error (e : TransportError) (host : bytes) (port : N) (expected observed : option bytes) : TransportError :=
  match expected, observed with
  | Some pinned, Some obs => if bool_decide (obs = pinned) then e else HostKeyMismatch host port (fingerprint_openssh obs)
  | _, _ => e
  end.

Definition connect_call (route : Route) (host : bytes) (port : N) (expected : option bytes) : Conn (Handle * Handshake) :=
  fun log =>
    let hs := w_connect W log route host port (fun shown => (check_server_key expected shown).1) in
    (Ok (length log, hs), log ++ [EvHandshake route host port expected hs]).

(** [establish_tcp] and [establish_stream]: the same but for the route *)
Definition establish (route : Route) (opts : ConnectOptions) : Conn Handle :=
  expected ← known_get (co_host opts) (co_port opts);
  _ ← lift_result (guard (negb (co_require_pinned opts && bool_decide (expected = None))) HostUntrusted);
  '(h, hs) ← connect_call route (co_host opts) (co_port opts) expected;
  let observed := observed_key expected hs in
  match hs_result hs with
  | None => throw HandshakeTimeout
  | Some (Ok _) => _ ← pin_tofu (co_host opts) (co_port opts) expected observed; mret h
  | Some (Err e) => throw (classify_connect_error e (co_host opts) (co_port opts) expected observed)
  end.
Definition establish_tcp (opts : ConnectOptions) : Conn Handle := establish ByTcp opts.
Definition establish_stream (route : Route) (opts : ConnectOptions) : Conn Handle := establish route opts.

Definition proxy_dial (proxy : ProxyOptions) (host : bytes) (port : N) : Conn unit :=
  call_result (fun log => w_dial W log proxy host port) (EvDial proxy host port).

Definition establish_first (opts : ConnectOptions) : Conn Handle :=
  match co_proxy opts with
  | Some proxy => _ ← proxy_dial proxy (co_host opts) (co_port opts); establish_stream (ByProxy proxy) opts
  | None => establish_tcp opts
  end.

(** *** Authentication *)

Definition auth_step (h : Handle) (step : AuthStep) : Conn AuthResult :=
  call_result (fun log => w_auth W log h step) (EvAuth h step).
Definition kbd_step (h : Handle) (step : AuthStep) : Conn KbdResponse :=
  call_result (fun log => w_kbd W log h step) (EvKbd h step).

Definition offers_plain_key_too (with_certificate : AuthResult) (publickey_only : bool) : bool :=
  publickey_only && match with_certificate with Failure _ false => true | _ => false end.

Definition should_escalate (first : AuthResult) (publickey_only : bool) : bool :=
  negb publickey_only &&
  match first with
  | Failure remaining _ => bool_decide (MKeyboardInteractive ∈ remaining)
  | Success => false
  end.

Definition auth_failure (key_only partial_success : bool) : TransportError :=
  match key_only, partial_success with
  | false, _ => AuthFailed
  | true, true => KeyAcceptedMoreAuthRequired
  | true, false => KeyRefused
  end.

Definition hash_for (key : PublicKey) : option HashAlg := if pk_is_rsa key then Some Sha512 else None.

Definition authenticate_agent_key (h : Handle) (opts : ConnectOptions) (key_id : bytes) : Conn AuthResult :=
  public_openssh ← call (fun log => w_agent_key W log key_id) (EvAgentKey key_id);
  public_openssh ← lift_result (ok_or public_openssh KeyEncoding);
  russh_public ← lift_result (ok_or (pk_from_openssh public_openssh) KeyEncoding);
  let hash_alg := hash_for russh_public in
  certificate ← call (fun log => w_agent_certificate W log key_id) (EvAgentCertificate key_id);
  match certificate with
  | None => auth_step h (OfferKey (co_user opts) russh_public hash_alg)
  | Some cert_openssh =>
      russh_cert ← lift_result (ok_or (cert_from_openssh cert_openssh) KeyEncoding);
      with_certificate ← auth_step h (OfferCertificate (co_user opts) russh_cert hash_alg);
      if offers_plain_key_too with_certificate (co_publickey_only opts)
      then auth_step h (OfferKey (co_user opts) russh_public hash_alg)
      else mret with_certificate
  end.

Definition refuse_own_agent (configured own : option bytes) : result TransportError unit :=
  match configured, own with
  | Some configured, Some own =>
      if negb (bool_decide (configured = [])) && bool_decide (w_canonical W configured = w_canonical W own)
      then Err SystemAgentIsUniSsh else Ok tt
  | _, _ => Ok tt
  end.

(** [SystemAgent::connect] and [identities] *)
Definition system_agent_identities (own : option bytes) : Conn (list AgentIdentity) :=
  _ ← lift_result (refuse_own_agent (w_auth_sock W) own);
  call_result (fun log => w_system_agent W log) EvSystemAgent.

Definition holds (public : PublicKey) (id : AgentIdentity) : bool :=
  match id with
  | IdKey key => bool_decide (key = public)
  | IdCertificate c => bool_decide (cert_key c = pk_data public)
  end.

Definition answer_from_password (round : nat) (password : option bytes) (fields : list PromptField) : option (list bytes) :=
  password ← password;
  if negb (round =? 0) || bool_decide (length fields = 0) || existsb pf_echo fields then None
  else Some ((fun _ => password) <$> fields).

Definition ask_user (name instruction : bytes) (fields : list PromptField) : Conn (list bytes) :=
  answers ← call_result (fun log => w_ask W log name instruction fields) (EvAsk name instruction fields);
  answers ← lift_result (ok_or answers AuthCancelled);
  _ ← lift_result (guard (length answers =? length fields) AuthCancelled);
  mret answers.

Definition MAX_KBD_INTERACTIVE_ROUNDS : nat := 8.

(** the loop of [keyboard_interactive]: the rounds left, the number of this one *)
Fixpoint kbd_rounds (rem round : nat) (h : Handle) (password : option bytes) (prompter : bool) (response : KbdResponse)
    : Conn AuthResult :=
  match rem with
  | O => throw AuthFailed
  | S rem =>
      match response with
      | KbdSuccess => mret Success
      | KbdFailure remaining partial => mret (Failure remaining partial)
      | KbdInfo name instructions fields =>
          answers ← (match answer_from_password round password fields with
                     | Some answers => mret answers
                     | None => if prompter then ask_user name instructions fields else throw InteractiveAuthUnsupported
                     end);
          response ← kbd_step h (KbdRespond answers);
          kbd_rounds rem (S round) h password prompter response
      end
  end.

Definition keyboard_interactive (h : Handle) (user : bytes) (password : option bytes) (prompter : bool) : Conn AuthResult :=
  response ← kbd_step h (KbdStart user);
  kbd_rounds MAX_KBD_INTERACTIVE_ROUNDS 0 h password prompter response.

(** the first method *)
Definition first_method (h : Handle) (opts : ConnectOptions) : Conn AuthResult :=
  match co_auth opts with
  | AuthAgent key_id => authenticate_agent_key h opts key_id
  | AuthSystemAgent public_key =>
      public ← lift_result (ok_or (pk_from_openssh (trim_line public_key)) KeyEncoding);
      identities ← system_agent_identities (co_own_system_agent opts);
      _ ← lift_result (guard (existsb (holds public) identities) SystemAgentKeyMissing);
      auth_step h (OfferKey (co_user opts) public (hash_for public))
  | AuthPassword password => auth_step h (SendPassword (co_user opts) password)
  end.

Definition authenticate (h : Handle) (opts : ConnectOptions) : Conn unit :=
  first ← first_method h opts;
  res ← (if should_escalate first (co_publickey_only opts)
         then keyboard_interactive h (co_user opts)
                (match co_auth opts with AuthPassword password => Some password | _ => None end) (co_prompter opts)
         else mret first);
  match res with
  | Success => mret tt
  | Failure _ partial =>
      let key_only := co_publickey_only opts && match co_auth opts with AuthPassword _ => false | _ => true end in
      throw (auth_failure key_only partial)
  end.

(** *** Connections *)

Record SshClient := mkClient { sc_handle : Handle; sc_hops : list Handle; sc_agent_forward_requested : bool }.

Definition connect (opts : ConnectOptions) : Conn SshClient :=
  h ← establish_first opts;
  _ ← authenticate h opts;
  mret (mkClient h [] (co_agent_forward opts)).

Definition tunnel (via : Handle) (host : bytes) (port : N) : Conn unit :=
  call_result (fun log => w_tunnel W log via host port) (EvTunnel via host port).

(** one round of the loop of [connect_through] *)
Definition next_hop (current : Handle) (hop : ConnectOptions) : Conn Handle :=
  _ ← tunnel current (co_host hop) (co_port hop);
  next ← establish_stream (ByTunnel current) hop;
  _ ← authenticate next hop;
  mret next.

Definition connect_through (chain : list ConnectOptions) (target : ConnectOptions) : Conn SshClient :=
  match chain with
  | [] => connect target
  | first_hop :: later_hops =>
      current ← establish_first first_hop;
      _ ← authenticate current first_hop;
      '(current, hops) ← fold_each (later_hops ++ [target]) (current, [])
          (fun '(current, hops) hop => next ← next_hop current hop; mret (next, hops ++ [current]));
      mret (mkClient current hops (co_agent_forward target))
  end.

(** [trust_host_key]: the fingerprint the user confirmed, the key pinned over the old one *)
Definition trust_host_key (host : bytes) (port : N) (expected_fingerprint : bytes) : Conn bytes :=
  '(_, hs) ← connect_call ByTcp host port None;
  _ ← lift_result (match hs_result hs with None => Err HandshakeTimeout | Some r => r end);
  key ← lift_result (ok_or (observed_key None hs) KeyEncoding);
  let got := fingerprint_openssh key in
  _ ← lift_result (guard (bool_decide (got = expected_fingerprint)) (FingerprintMismatch expected_fingerprint got));
  _ ← known_put host port key;
  mret got.
End client.
