(* ===== verification/SshConnectThy.v ===== *)
(** * What a connection reveals and trusts (theory of [SshConnect])

    Every event of the log of a connection is justified by what came before it: nothing is
    sent to authenticate but over a connection whose host key was checked, and only what
    belongs to that host; a key is pinned only where none was. *)

From Stdlib Require Import Strings.String Strings.Byte NArith ZArith Lia.
From stdpp Require Import base gmap sets list strings sorting countable.
From S2P Require Import Prelude Bytes SshConnect.

Local Open Scope nat_scope.

Section theory.
Context `{K : SshKeys} (W : World).

(** ** What justifies an event *)

(** the key a handshake showed, as it is pinned *)
Definition shown_key (hs : Handshake) (key : bytes) : Prop :=
  exists pk, hs_shown hs = Some (ShownKey pk) /\ pk_to_openssh pk = Some key.

(** [h] is a connection to the host of [o] that passed its check: the key shown is the one
    that was pinned, or was pinned since, where that is allowed *)
Definition checked (o : ConnectOptions) (log : Log) (h : Handle) : Prop :=
  exists g route expected hs key,
    h = S g /\ log !! g = Some (EvGet (co_host o) (co_port o) (Ok expected)) /\
    log !! h = Some (EvHandshake route (co_host o) (co_port o) expected hs) /\
    hs_result hs = Some (Ok tt) /\ shown_key hs key /\
    (expected = Some key \/
     expected = None /\ co_require_pinned o = false /\ EvPut (co_host o) (co_port o) key (Ok tt) ∈ log).

(** the server has let the user in *)
Definition authed (h : Handle) (log : Log) : Prop :=
  exists step, EvAuth h step (Ok Success) ∈ log \/ EvKbd h step (Ok KbdSuccess) ∈ log.

(** the key of [o], as the agent that holds it gave it *)
Definition key_of (o : ConnectOptions) (log : Log) (key : PublicKey) : Prop :=
  match co_auth o with
  | AuthAgent id => exists line, EvAgentKey id (Some line) ∈ log /\ pk_from_openssh line = Some key
  | AuthSystemAgent line =>
      pk_from_openssh (trim_line line) = Some key /\ exists ids, EvSystemAgent (Ok ids) ∈ log /\ existsb (holds key) ids = true
  | AuthPassword _ => False
  end.

(** the answers to a round of questions: the user's, one for each question, or the stored
    password, in the first round and when every question is for hidden input *)
Definition answers_of (o : ConnectOptions) (h : Handle) (log : Log) (answers : list bytes) : Prop :=
  exists name instructions fields log',
    (exists step, log = log' ++ [EvKbd h step (Ok (KbdInfo name instructions fields)); EvAsk name instructions fields (Ok (Some answers))] /\
       length answers = length fields) \/
    (exists user password, log = log' ++ [EvKbd h (KbdStart user) (Ok (KbdInfo name instructions fields))] /\
       co_auth o = AuthPassword password /\ answers = replicate (length fields) password /\
       Forall (fun f => pf_echo f = false) fields).

(** what may be sent to the host of [o] *)
Definition belongs (o : ConnectOptions) (h : Handle) (log : Log) (step : AuthStep) : Prop :=
  match step with
  | OfferKey user key _ => user = co_user o /\ key_of o log key
  | OfferCertificate user c _ =>
      user = co_user o /\ exists id line, co_auth o = AuthAgent id /\ EvAgentCertificate id (Some line) ∈ log /\ cert_from_openssh line = Some c
  | SendPassword user password => user = co_user o /\ co_auth o = AuthPassword password
  | KbdStart user => user = co_user o /\ co_publickey_only o = false
  | KbdRespond answers => co_publickey_only o = false /\ answers_of o h log answers
  end.

(** ** The log *)

(** [e] after [log], when connecting to [os] *)
Definition justified (os : list ConnectOptions) (log : Log) (e : Event) : Prop :=
  match e with
  | EvGet host port r => r = w_get W log host port
  | EvPut host port key r =>
      exists o, o ∈ os /\ co_host o = host /\ co_port o = port /\ co_require_pinned o = false /\
        exists log' route hs, log = log' ++ [EvGet host port (Ok None); EvHandshake route host port None hs] /\
          hs_result hs = Some (Ok tt) /\ shown_key hs key
  | EvAuth h step r | EvKbd h step r => exists o, o ∈ os /\ checked o log h /\ belongs o h log step
  | EvTunnel via host port r => (exists o, o ∈ os /\ checked o log via) /\ exists o, o ∈ os /\ co_host o = host /\ co_port o = port
  | _ => True
  end.

Definition sound (os : list ConnectOptions) (log : Log) : Prop :=
  forall pre e post, log = pre ++ e :: post -> justified os pre e.

Lemma sound_snoc os log e : sound os log -> justified os log e -> sound os (log ++ [e]).
Proof.
  intros Hs He pre e' post H. destruct post as [|x post _] using rev_ind.
  - apply app_inj_2 in H as [-> [= ->]]; done.
  - rewrite app_comm_cons, app_assoc in H. apply app_inj_2 in H as [H _]; [|done]. by eapply Hs.
Qed.

Lemma lookup_more {A} (l k : list A) i x : l !! i = Some x -> (l ++ k) !! i = Some x.
Proof. apply lookup_app_l_Some. Qed.

Lemma checked_more o log k h : checked o log h -> checked o (log ++ k) h.
Proof.
  intros (g & route & expected & hs & key & -> & Hg & Hh & Hr & Hk & Hp).
  exists g, route, expected, hs, key. split_and!; [done|by apply lookup_more|by apply lookup_more|done|done|].
  destruct Hp as [?|(? & ? & ?)]; [by left|right]. split_and!; [done|done|set_solver].
Qed.

(** ** The log only grows *)

Abbreviation grows := (preserves prefix).

Lemma grows_call {A} (ask : Log -> A) ev : grows (call ask ev).
Proof. intros log r log' [= <- <-]. by apply prefix_app_r. Qed.
Lemma grows_call_result {A} (ask : Log -> result TransportError A) ev : grows (call_result ask ev).
Proof. intros log r log' [= <- <-]. by apply prefix_app_r. Qed.

(** one step of a computation that makes calls *)
Ltac grow := repeat first
  [ apply (_ : PreOrder prefix) | apply grows_call | apply grows_call_result | apply preserves_ret | apply preserves_throw
  | apply preserves_lift | apply preserves_bind; [| |intros ?] | assumption | case_match; simpl ].

Lemma grows_kbd_rounds rem round h password prompter response : grows (kbd_rounds W rem round h password prompter response).
Proof. revert round response. induction rem as [|rem IH]; intros round response; simpl; unfold ask_user, kbd_step; grow. apply IH. Qed.

Lemma grows_authenticate h o : grows (authenticate W h o).
Proof.
  unfold authenticate, first_method, authenticate_agent_key, system_agent_identities, auth_step, keyboard_interactive, kbd_step.
  grow; apply grows_kbd_rounds.
Qed.

(** ** Rules *)

Section rules.
Context (os : list ConnectOptions).

(** from a justified log that satisfies [P], [m] leaves a justified log, one that satisfies
    [Q] when it returns *)
Definition triple {A} (P : Log -> Prop) (m : M Log TransportError A) (Q : A -> Log -> Prop) : Prop :=
  forall log r log', sound os log -> P log -> m log = (r, log') ->
    sound os log' /\ match r with Ok a => Q a log' | Err _ => True end.

Lemma t_ret {A} (P : Log -> Prop) (a : A) (Q : A -> Log -> Prop) : (forall log, P log -> Q a log) -> triple P (mret a) Q.
Proof. intros H log r log' Hs Hp [= <- <-]. auto. Qed.

Lemma t_throw {A} (P : Log -> Prop) e (Q : A -> Log -> Prop) : triple P (throw e) Q.
Proof. intros log r log' Hs Hp [= <- <-]. auto. Qed.

Lemma t_lift {A} (P : Log -> Prop) (x : result TransportError A) (Q : A -> Log -> Prop) :
  (forall a log, x = Ok a -> P log -> Q a log) -> triple P (lift_result x) Q.
Proof. intros H log r log' Hs Hp [= <- <-]. split; [done|]. destruct x; auto. Qed.

Lemma t_bind {A B} P (m : M Log TransportError A) (f : A -> M Log TransportError B) Q R :
  triple P m Q -> (forall a, triple (Q a) (f a) R) -> triple P (m ≫= f) R.
Proof.
  intros Hm Hf log r log' Hs Hp [(a & log1 & H1 & H2)|(e & H1 & ->)]%M_bind_run.
  - destruct (Hm _ _ _ Hs Hp H1) as [Hs1 Hq]. by eapply Hf.
  - by destruct (Hm _ _ _ Hs Hp H1).
Qed.

Lemma t_conseq {A} (P P' : Log -> Prop) (m : M Log TransportError A) (Q Q' : A -> Log -> Prop) :
  triple P' m Q' -> (forall log, P log -> P' log) -> (forall a log, Q' a log -> Q a log) -> triple P m Q.
Proof. intros Hm Hp Hq log r log' Hs H Hr. destruct (Hm _ _ _ Hs (Hp _ H) Hr) as [? H']. split; [done|]. destruct r; auto. Qed.

Lemma t_call {A} (P : Log -> Prop) (ask : Log -> A) ev (Q : A -> Log -> Prop) :
  (forall log, P log -> justified os log (ev (ask log))) -> (forall log, P log -> Q (ask log) (log ++ [ev (ask log)])) ->
  triple P (call ask ev) Q.
Proof. intros Hj Hq log r log' Hs Hp [= <- <-]. split; [|auto]. apply sound_snoc; auto. Qed.

Lemma t_call_result {A} (P : Log -> Prop) (ask : Log -> result TransportError A) ev (Q : A -> Log -> Prop) :
  (forall log, P log -> justified os log (ev (ask log))) ->
  (forall log a, P log -> ask log = Ok a -> Q a (log ++ [ev (Ok a)])) ->
  triple P (call_result ask ev) Q.
Proof.
  intros Hj Hq log r log' Hs Hp [= <- <-]. split; [apply sound_snoc; auto|].
  destruct (ask log) as [a|e] eqn:E; [|done]. auto.
Qed.

(** ** Authentication *)

Section auth.
Context (o : ConnectOptions) (h : Handle) (Ho : o ∈ os).

Abbreviation I := (fun log => checked o log h).

Lemma t_auth_step step P Q :
  (forall log, P log -> checked o log h /\ belongs o h log step) ->
  (forall log a, P log -> checked o (log ++ [EvAuth h step (Ok a)]) h -> Q a (log ++ [EvAuth h step (Ok a)])) ->
  triple P (auth_step W h step) Q.
Proof.
  intros Hp Hq. apply t_call_result.
  - intros log H. apply Hp in H as [Hc Hb]. simpl. eauto.
  - intros log a H _. destruct (Hp _ H) as [Hc _]. apply Hq; [done|by apply checked_more].
Qed.

Lemma t_kbd_step step P Q :
  (forall log, P log -> checked o log h /\ belongs o h log step) ->
  (forall log a, P log -> checked o (log ++ [EvKbd h step (Ok a)]) h -> Q a (log ++ [EvKbd h step (Ok a)])) ->
  triple P (kbd_step W h step) Q.
Proof.
  intros Hp Hq. apply t_call_result.
  - intros log H. apply Hp in H as [Hc Hb]. simpl. eauto.
  - intros log a H _. destruct (Hp _ H) as [Hc _]. apply Hq; [done|by apply checked_more].
Qed.

(** what an attempt leaves *)
Definition tried (r : AuthResult) (log : Log) : Prop := checked o log h /\ (r = Success -> authed h log).

Lemma tried_last log step r : checked o (log ++ [EvAuth h step (Ok r)]) h -> tried r (log ++ [EvAuth h step (Ok r)]).
Proof. intros Hc. split; [done|]. intros ->. exists step. left. set_solver. Qed.

Lemma t_agent_key key_id :
  co_auth o = AuthAgent key_id -> triple I (authenticate_agent_key W h o key_id) tried.
Proof.
  intros Ha. unfold authenticate_agent_key.
  eapply t_bind; [apply (t_call _ _ _ (fun a log => checked o log h /\ EvAgentKey key_id a ∈ log)); [done|]|].
  { intros log H. split; [by apply checked_more|set_solver]. }
  intros line. eapply t_bind; [apply (t_lift _ _ (fun a log => checked o log h /\ EvAgentKey key_id (Some a) ∈ log))|].
  { intros a log [= ->]%ok_or_Ok H. done. }
  intros line1. eapply t_bind; [apply (t_lift _ _ (fun a log => checked o log h /\ key_of o log a))|].
  { intros a log Hk%ok_or_Ok [Hc Hl]. split; [done|]. unfold key_of. rewrite Ha. eauto. }
  intros key. eapply t_bind; [apply (t_call _ _ _ (fun c log => checked o log h /\ key_of o log key /\ EvAgentCertificate key_id c ∈ log)); [done|]|].
  { intros log [Hc Hk]. split_and!; [by apply checked_more| |set_solver]. revert Hk. unfold key_of. rewrite Ha. set_solver. }
  intros [cert|].
  - eapply t_bind; [apply (t_lift _ _ (fun c log => checked o log h /\ key_of o log key /\ belongs o h log (OfferCertificate (co_user o) c (hash_for key))))|].
    { intros c log Hk%ok_or_Ok (Hc & Hkey & Hl). split_and!; [done..|]. simpl. eauto 10. }
    intros c. eapply t_bind; [apply (t_auth_step _ _ (fun r log => tried r log /\ key_of o log key))|].
    { intros log (? & ? & ?). done. }
    { intros log a (? & Hk & ?) Hc. split; [by apply tried_last|]. revert Hk. unfold key_of. rewrite Ha. set_solver. }
    intros r. destruct (offers_plain_key_too r (co_publickey_only o)); [|by apply t_ret; intros ? [? _]].
    apply t_auth_step; [|intros; by apply tried_last]. intros log [[? _] ?]. done.
  - apply t_auth_step; [|intros; by apply tried_last]. intros log (? & ? & ?). done.
Qed.

Lemma t_first_method : triple I (first_method W h o) tried.
Proof.
  unfold first_method. destruct (co_auth o) as [key_id|password|line] eqn:Ha.
  - by apply t_agent_key.
  - apply t_auth_step; [|intros; by apply tried_last]. intros log H. split; [done|]. simpl. done.
  - eapply t_bind; [apply (t_lift _ _ (fun a log => checked o log h /\ pk_from_openssh (trim_line line) = Some a))|].
    { intros a log H%ok_or_Ok Hc. done. }
    intros key. eapply t_bind; [eapply t_bind; [apply (t_lift _ _ (fun _ log => checked o log h /\ pk_from_openssh (trim_line line) = Some key)); done|]|].
    { intros []. apply (t_call_result _ _ _ (fun ids log => checked o log h /\ pk_from_openssh (trim_line line) = Some key /\ EvSystemAgent (Ok ids) ∈ log)).
      - done.
      - intros log ids [Hc Hk] _. split_and!; [by apply checked_more|done|set_solver]. }
    intros ids. eapply t_bind; [apply (t_lift _ _ (fun _ log => checked o log h /\ key_of o log key))|].
    { intros [] log Hg%guard_Ok (Hc & Hk & Hi). split; [done|]. unfold key_of. rewrite Ha. eauto. }
    intros []. apply t_auth_step; [|intros; by apply tried_last]. intros log [? ?]. done.
Qed.

(** the last event is the server's answer, in the first round to the start *)
Definition asked (round : nat) (response : KbdResponse) (log : Log) : Prop :=
  checked o log h /\ exists log' step, log = log' ++ [EvKbd h step (Ok response)] /\ (round = 0 -> exists user, step = KbdStart user).

Lemma t_ask_user name instructions fields round :
  triple (asked round (KbdInfo name instructions fields)) (ask_user W name instructions fields)
    (fun answers log => checked o log h /\ answers_of o h log answers).
Proof.
  unfold ask_user. eapply t_bind.
  { apply (t_call_result _ _ _ (fun a log => checked o log h /\ exists log' step,
      log = log' ++ [EvKbd h step (Ok (KbdInfo name instructions fields)); EvAsk name instructions fields (Ok a)])); [done|].
    intros log a [Hc (log' & step & -> & _)] _. split; [by apply checked_more|]. exists log', step. by rewrite <-app_assoc. }
  intros a. eapply t_bind; [apply (t_lift _ _ (fun a log => checked o log h /\ exists log' step,
      log = log' ++ [EvKbd h step (Ok (KbdInfo name instructions fields)); EvAsk name instructions fields (Ok (Some a))]))|].
  { by intros a' log ->%ok_or_Ok H. }
  intros answers. eapply t_bind; [apply (t_lift _ _ (fun _ log => checked o log h /\ answers_of o h log answers))|].
  { intros [] log Hl%guard_Ok [Hc (log' & step & ->)]. split; [done|]. apply Nat.eqb_eq in Hl.
    exists name, instructions, fields, log'. left. eauto. }
  intros []. by apply t_ret.
Qed.

Lemma answer_from_password_spec round password fields answers :
  answer_from_password round password fields = Some answers ->
  round = 0 /\ exists p, password = Some p /\ answers = replicate (length fields) p /\ Forall (fun f => pf_echo f = false) fields.
Proof.
  unfold answer_from_password. destruct password as [p|]; [|done]. simpl.
  destruct (round =? 0) eqn:Er; [|done]. apply Nat.eqb_eq in Er. simpl. case_bool_decide; [done|]. simpl.
  destruct (existsb pf_echo fields) eqn:Ee; [done|]. intros [= <-]. split; [done|]. exists p. split_and!; [done| |].
  - clear. induction fields as [|f fields IH]; simpl; [done|]. by rewrite <-IH.
  - revert Ee. clear. induction fields as [|f fields IH]; simpl; [constructor|]. intros [? ?]%orb_false_iff. constructor; auto.
Qed.

Lemma t_answers round password name instructions fields :
  (forall p, password = Some p -> co_auth o = AuthPassword p) ->
  triple (asked round (KbdInfo name instructions fields))
    (match answer_from_password round password fields with
     | Some answers => mret answers
     | None => if co_prompter o then ask_user W name instructions fields else throw InteractiveAuthUnsupported
     end)
    (fun answers log => checked o log h /\ answers_of o h log answers).
Proof.
  intros Hpw. destruct (answer_from_password round password fields) as [answers|] eqn:Ea.
  - apply answer_from_password_spec in Ea as (-> & p & Hp & -> & Hf). apply t_ret.
    intros log [Hc (log' & step & -> & Hst)]. split; [done|]. destruct Hst as [user ->]; [done|].
    exists name, instructions, fields, log'. right. exists user, p. auto.
  - destruct (co_prompter o); [apply t_ask_user|apply t_throw].
Qed.

Lemma t_kbd_rounds rem round password response :
  co_publickey_only o = false -> (forall p, password = Some p -> co_auth o = AuthPassword p) ->
  triple (asked round response) (kbd_rounds W rem round h password (co_prompter o) response) tried.
Proof.
  intros Hpk Hpw. revert round response. induction rem as [|rem IH]; intros round response; simpl; [apply t_throw|].
  destruct response as [|remaining partial|name instructions fields].
  { apply t_ret. intros log [Hc (log' & step & -> & _)]. split; [done|]. intros _. exists step. right. set_solver. }
  { apply t_ret. by intros log [Hc _]. }
  eapply t_bind; [by apply t_answers|]. intros answers. simpl.
  eapply t_bind; [|intros response; apply (IH (S round) response)].
  apply t_kbd_step.
  - intros log [Hc Ha]. split; [done|]. by split.
  - intros log a [Hc Ha] Hc'. split; [done|]. exists log, (KbdRespond answers). split; [done|lia].
Qed.

Lemma t_keyboard_interactive password :
  co_publickey_only o = false -> (forall p, password = Some p -> co_auth o = AuthPassword p) ->
  triple I (keyboard_interactive W h (co_user o) password (co_prompter o)) tried.
Proof.
  intros Hpk Hpw. unfold keyboard_interactive. eapply t_bind; [|intros response; apply (t_kbd_rounds _ 0); done].
  apply t_kbd_step; [done|]. intros log a _ Hc. split; [done|]. exists log, (KbdStart (co_user o)). split; [done|]. eauto.
Qed.

Lemma t_authenticate : triple I (authenticate W h o) (fun _ log => checked o log h /\ authed h log).
Proof.
  unfold authenticate. eapply t_bind; [apply t_first_method|]. intros first. simpl. eapply (t_bind _ _ _ tried).
  - destruct (should_escalate first (co_publickey_only o)) eqn:Es; [|by apply t_ret].
    apply andb_true_iff in Es as [Hpk%negb_true_iff _]. eapply t_conseq; [apply t_keyboard_interactive; [done|]|by intros ? [? _]|done].
    intros p Hp. destruct (co_auth o); by simplify_eq.
  - intros [|? partial]; [apply t_ret; intros log [? Ha]; auto|apply t_throw].
Qed.
End auth.

(** ** Hosts *)

Definition stable (P : Log -> Prop) : Prop := forall log k, P log -> P (log ++ k).

(** a checked connection that came this way *)
Definition arrived (route : Route) (o : ConnectOptions) (log : Log) (h : Handle) : Prop :=
  checked o log h /\ exists expected hs, log !! h = Some (EvHandshake route (co_host o) (co_port o) expected hs).

Lemma check_accepts expected shown :
  (check_server_key expected shown).1 = Ok true ->
  exists pk key, shown = ShownKey pk /\ pk_to_openssh pk = Some key /\ (check_server_key expected shown).2 = Some key /\
    (expected = Some key \/ expected = None).
Proof.
  unfold check_server_key. destruct shown as [pk|c]; [|done]. destruct (pk_to_openssh pk) as [key|] eqn:Ek; [|done]. simpl.
  destruct expected as [pinned|]; [|eauto 10]. case_bool_decide; [subst; eauto 10|done].
Qed.

(** after the handshake of [establish] *)
Definition shook (P : Log -> Prop) (route : Route) (o : ConnectOptions) (expected : option bytes) (h : Handle) (hs : Handshake) (log : Log) : Prop :=
  P log /\ (exists log0, log = log0 ++ [EvGet (co_host o) (co_port o) (Ok expected); EvHandshake route (co_host o) (co_port o) expected hs] /\
    h = S (length log0)) /\ (expected = None -> co_require_pinned o = false) /\
  (hs_result hs = Some (Ok tt) -> exists key, shown_key hs key /\ observed_key expected hs = Some key /\ (expected = Some key \/ expected = None)).

Lemma t_connect_call P route o expected :
  stable P -> checks_keys W ->
  triple (fun log => P log /\ (exists log0, log = log0 ++ [EvGet (co_host o) (co_port o) (Ok expected)]) /\ (expected = None -> co_require_pinned o = false))
    (connect_call W route (co_host o) (co_port o) expected)
    (fun '(h, hs) log => shook P route o expected h hs log).
Proof.
  intros Hst HW log r log' Hs (Hp & (log0 & Hlog) & Hreq) [= <- <-]. split; [by apply sound_snoc|].
  split_and!; [by apply Hst| |done|].
  - exists log0. rewrite Hlog, <-app_assoc. split; [done|]. rewrite length_app. simpl. lia.
  - intros (shown & Hsh & Hck)%HW. destruct (check_accepts _ _ Hck) as (pk & key & -> & Hk & Hob & Hex).
    exists key. split_and!; [by exists pk| |done]. unfold observed_key. by rewrite Hsh.
Qed.


Lemma lookup_pair {A} (l : list A) x y : (l ++ [x; y]) !! length l = Some x /\ (l ++ [x; y]) !! S (length l) = Some y.
Proof.
  split; [by apply list_lookup_middle|]. rewrite (cons_middle x l), app_assoc. apply list_lookup_middle.
  rewrite length_app. simpl. lia.
Qed.

Lemma t_pin P route o expected h hs :
  stable P -> o ∈ os -> hs_result hs = Some (Ok tt) ->
  triple (shook P route o expected h hs) (pin_tofu W (co_host o) (co_port o) expected (observed_key expected hs))
    (fun _ log => P log /\ arrived route o log h).
Proof.
  intros Hst Ho Hres. unfold pin_tofu.
  assert (Hgo : forall log, shook P route o expected h hs log -> exists key, shown_key hs key /\ observed_key expected hs = Some key /\
    (expected = Some key \/ expected = None) /\
    (expected = Some key \/ expected = None /\ co_require_pinned o = false /\ EvPut (co_host o) (co_port o) key (Ok tt) ∈ log -> arrived route o log h)).
  { intros log (Hp & (log0 & -> & ->) & Hreq & Hk). destruct (Hk Hres) as (key & Hsh & Hob & Hex). exists key. split_and!; [done..|].
    intros H. edestruct (lookup_pair log0) as [H1 H2]. split; [|eauto].
    exists (length log0), route, expected, hs, key. split_and!; done. }
  destruct expected as [pinned|].
  - apply t_ret. intros log H. destruct (Hgo _ H) as (key & _ & _ & Hex & Harr). split; [apply H|]. apply Harr. left. by destruct Hex.
  - destruct (observed_key None hs) as [key|] eqn:Eob.
    + apply t_call_result.
      * intros log H. destruct (Hgo _ H) as (key' & Hsh & [= <-] & _ & _). destruct H as (_ & (log0 & -> & _) & Hreq & _).
        simpl. exists o. split_and!; [done..|by apply Hreq|]. exists log0, route, hs. done.
      * intros log [] H _. destruct (Hgo _ H) as (key' & Hsh & [= <-] & _ & _).
        destruct H as (Hp & (log0 & -> & ->) & Hreq & _). split; [by apply Hst|]. edestruct (lookup_pair log0) as [H1 H2].
        split; [|do 2 eexists; by apply lookup_more].
        exists (length log0), route, None, hs, key. split_and!; [done|by apply lookup_more|by apply lookup_more|done|done|].
        right. split_and!; [done|by apply Hreq|set_solver].
    + apply t_ret. intros log H. destruct (Hgo _ H) as (key & _ & Hob & _). done.
Qed.

Lemma t_establish P route o :
  stable P -> o ∈ os -> checks_keys W -> triple P (establish W route o) (fun h log => P log /\ arrived route o log h).
Proof.
  intros Hst Ho HW. unfold establish.
  eapply t_bind; [apply (t_call_result _ _ _ (fun expected log => P log /\ exists log0, log = log0 ++ [EvGet (co_host o) (co_port o) (Ok expected)]));
    [done|intros log expected Hp _; split; [by apply Hst|by exists log]]|].
  intros expected. eapply t_bind; [apply (t_lift _ _ (fun _ log => P log /\ (exists log0, log = log0 ++ [EvGet (co_host o) (co_port o) (Ok expected)]) /\
    (expected = None -> co_require_pinned o = false)))|].
  { intros [] log Hg%guard_Ok [Hp Hl]. split_and!; [done..|]. intros ->. rewrite bool_decide_true in Hg by done.
    by destruct (co_require_pinned o). }
  intros []. eapply t_bind; [by apply t_connect_call|]. intros [h hs]. simpl.
  destruct (hs_result hs) as [[[]|e]|] eqn:Er; [|apply t_throw..].
  eapply t_bind; [by apply t_pin|]. intros []. by apply t_ret.
Qed.

Lemma stable_true : stable (fun _ => True).
Proof. done. Qed.

(** the route to the first host *)
Definition first_route (o : ConnectOptions) : Route := match co_proxy o with Some proxy => ByProxy proxy | None => ByTcp end.

Lemma t_establish_first o : o ∈ os -> checks_keys W -> triple (fun _ => True) (establish_first W o) (fun h log => arrived (first_route o) o log h).
Proof.
  intros Ho HW. unfold establish_first, establish_stream, establish_tcp, first_route.
  destruct (co_proxy o) as [proxy|]; [eapply t_bind; [apply (t_call_result _ _ _ (fun _ _ => True)); done|intros []]|];
    (eapply t_conseq; [by apply t_establish; [apply stable_true|..]|done|by intros ? ? []]).
Qed.

(** a host let us in, on this way *)
Definition reached (route : Route) (o : ConnectOptions) (log : Log) (h : Handle) : Prop := arrived route o log h /\ authed h log.

Lemma arrived_more route o log k h : arrived route o log h -> arrived route o (log ++ k) h.
Proof. intros [Hc (e & hs & Hl)]. split; [by apply checked_more|]. exists e, hs. by apply lookup_more. Qed.

Lemma reached_more route o log k h : reached route o log h -> reached route o (log ++ k) h.
Proof. intros [Ha (step & Hs)]. split; [by apply arrived_more|]. exists step. set_solver. Qed.

Lemma t_frame {A} P (m : M Log TransportError A) Q F :
  stable F -> grows m -> triple P m Q -> triple (fun log => P log /\ F log) m (fun a log => Q a log /\ F log).
Proof.
  intros Hf Hg Hm log r log' Hs [Hp HF] H. destruct (Hm _ _ _ Hs Hp H) as [Hs' Hq]. split; [done|].
  destruct (Hg _ _ _ H) as [k ->]. destruct r; [|done]. split; [done|]. by apply Hf.
Qed.

Lemma t_authenticate_reached F route o h :
  stable F -> o ∈ os ->
  triple (fun log => F log /\ arrived route o log h) (authenticate W h o) (fun _ log => F log /\ reached route o log h).
Proof.
  intros Hst Ho. eapply t_conseq.
  - eapply (t_frame _ _ _ (fun log => F log /\ arrived route o log h)); [|apply grows_authenticate|by apply (t_authenticate o h)].
    intros log k [? ?]. split; [by apply Hst|by apply arrived_more].
  - intros log [HF Ha]. split; [apply Ha|done].
  - intros a log [[_ Hau] [HF Ha]]. done.
Qed.

Lemma t_next_hop F o' route' current o :
  stable F -> o ∈ os -> o' ∈ os -> checks_keys W ->
  triple (fun log => F log /\ reached route' o' log current) (next_hop W current o)
    (fun h log => (F log /\ reached route' o' log current) /\ reached (ByTunnel current) o log h).
Proof.
  intros Hst Ho Ho' HW. unfold next_hop.
  assert (Hst' : stable (fun log => F log /\ reached route' o' log current)).
  { intros log k [? ?]. split; [by apply Hst|by apply reached_more]. }
  eapply t_bind; [apply (t_call_result _ _ _ (fun _ log => F log /\ reached route' o' log current))|].
  { intros log [_ [[Hc _] _]]. simpl. split; [by exists o'|by exists o]. }
  { intros log [] H _. by apply Hst'. }
  intros []. eapply t_bind; [by apply t_establish|]. intros h. simpl.
  eapply t_bind; [by apply t_authenticate_reached|]. intros []. by apply t_ret.
Qed.

(** each host reached through the one before it *)
Fixpoint linked (route : Route) (opts : list ConnectOptions) (hs : list Handle) (log : Log) : Prop :=
  match opts, hs with
  | [], [] => True
  | o :: opts, h :: hs => reached route o log h /\ linked (ByTunnel h) opts hs log
  | _, _ => False
  end.

Lemma linked_more route opts hs log k : linked route opts hs log -> linked route opts hs (log ++ k).
Proof.
  revert route hs. induction opts as [|o opts IH]; intros route [|h hs]; simpl; try done.
  intros [? ?]. split; [by apply reached_more|by apply IH].
Qed.

Lemma linked_snoc route opts hs log o h o' h' :
  linked route (opts ++ [o]) (hs ++ [h]) log -> length opts = length hs -> reached (ByTunnel h) o' log h' ->
  linked route (opts ++ [o; o']) (hs ++ [h; h']) log.
Proof.
  revert route hs. induction opts as [|x opts IH]; intros route [|y hs]; simpl; try done.
  - intros [? _] _ ?. done.
  - intros [? ?] [= ?] ?. split; [done|]. by apply IH.
Qed.

(** the way to the last of the hosts *)
Definition last_route (route : Route) (hs : list Handle) : Route :=
  match list.last hs with Some h => ByTunnel h | None => route end.

Lemma linked_last route opts hs log o h :
  linked route (opts ++ [o]) (hs ++ [h]) log -> length opts = length hs -> reached (last_route route hs) o log h.
Proof.
  revert route hs. induction opts as [|x opts IH]; intros route [|y hs]; simpl; try done; [by intros [? _]|].
  intros [_ Hl] [= Hlen]. specialize (IH _ _ Hl Hlen). unfold last_route in *. destruct hs as [|z hs]; [exact IH|]. rewrite last_cons_cons. destruct (list.last (z :: hs)) eqn:E; [exact IH|by apply last_None in E].
Qed.

Lemma t_hops route rest done o current hops :
  (forall x, x ∈ o :: rest -> x ∈ os) -> length done = length hops -> checks_keys W ->
  triple (linked route (done ++ [o]) (hops ++ [current]))
    (fold_each rest (current, hops) (fun '(current, hops) hop => next ← next_hop W current hop; mret (next, hops ++ [current])))
    (fun '(c, hs) log => linked route (done ++ o :: rest) (hs ++ [c]) log /\ length hs = length (done ++ rest)).
Proof.
  revert done o current hops. induction rest as [|x rest IH]; intros done o current hops Hin Hlen HW; simpl.
  { apply t_ret. intros log H. by rewrite app_nil_r. }
  eapply t_bind; [eapply t_bind; [eapply t_conseq; [apply (t_next_hop (linked route (done ++ [o]) (hops ++ [current])) o (last_route route hops) current x)| |]|]|].
  - intros log k H. by apply linked_more.
  - set_solver.
  - set_solver.
  - done.
  - intros log H. split; [done|by eapply linked_last].
  - intros h log H. exact H.
  - intros h. apply (t_ret _ _ (fun '(c, hs) log => (hs = hops ++ [current]) /\ linked route ((done ++ [o]) ++ [x]) (hs ++ [c]) log)).
    intros log [[Hl _] Hr]. split; [done|]. rewrite <-!app_assoc. by apply linked_snoc.
  - intros [c hs]. simpl. intros log r log' Hs [-> Hl] Hr.
    assert (Hlen' : length (done ++ [o]) = length (hops ++ [current])) by (rewrite !length_app; simpl; lia).
    destruct (IH (done ++ [o]) x c (hops ++ [current]) ltac:(set_solver) Hlen' HW log r log' Hs Hl Hr) as [Hs' Hq].
    split; [done|]. destruct r as [[c' hs']|]; [|done]. destruct Hq as [Hq1 Hq2]. rewrite <-app_assoc in Hq1. split; [exact Hq1|]. rewrite Hq2, !length_app. simpl. lia.
Qed.

Lemma t_connect_through chain target :
  (forall x, x ∈ chain ++ [target] -> x ∈ os) -> checks_keys W ->
  triple (fun _ => True) (connect_through W chain target)
    (fun c log => linked (first_route (default target (head chain))) (chain ++ [target]) (sc_hops c ++ [sc_handle c]) log /\
       length (sc_hops c) = length chain).
Proof.
  intros Hin HW. assert (HF : stable (fun _ => True)) by done. destruct chain as [|first later]; simpl.
  - unfold connect. eapply t_bind; [apply t_establish_first; [set_solver|done]|]. intros h. simpl.
    eapply t_bind; [eapply t_conseq; [apply (t_authenticate_reached _ (first_route target) target h HF); set_solver|by intros|by intros a log [_ H]; exact H]|].
    intros []. apply t_ret. by intros log H.
  - eapply t_bind; [apply t_establish_first; [set_solver|done]|]. intros h. simpl.
    eapply t_bind; [eapply t_conseq; [apply (t_authenticate_reached _ (first_route first) first h HF); set_solver|by intros|by intros a log [_ H]; exact H]|].
    intros []. eapply (t_bind _ _ _ (fun '(c, hs) log => linked (first_route first) (first :: later ++ [target]) (hs ++ [c]) log /\
      length hs = length (later ++ [target]))).
    + eapply t_conseq; [apply (t_hops (first_route first) (later ++ [target]) [] first h []); [set_solver|done..]| |by intros [c hs]].
      intros log H. by split.
    + intros [c hs]. apply t_ret. intros log [H1 H2]. simpl in *. split; [done|]. rewrite H2, length_app. simpl. lia.
Qed.
End rules.

Lemma sound_nil os : sound os [].
Proof. intros pre e post H. by destruct pre. Qed.

(** the log of a connection, and the hosts it went over *)
Lemma connect_log chain target r log :
  checks_keys W -> connect_through W chain target [] = (r, log) ->
  sound (chain ++ [target]) log /\
  forall c, r = Ok c -> linked (first_route (default target (head chain))) (chain ++ [target]) (sc_hops c ++ [sc_handle c]) log /\
    length (sc_hops c) = length chain.
Proof.
  intros HW H. destruct (t_connect_through (chain ++ [target]) chain target) with (2 := HW) (3 := sound_nil (chain ++ [target])) (4 := I) (5 := H)
    as [Hs Hq]; [done|]. split; [done|]. by intros c ->.
Qed.

(** ** Pins *)

(** the pinned keys, when the connection is the only one to change them *)
Definition pins (init : gmap (bytes * N) bytes) (log : Log) : gmap (bytes * N) bytes :=
  foldl (fun m e => match e with EvPut host port key (Ok _) => <[(host, port) := key]> m | _ => m end) init log.

Definition store_backed (init : gmap (bytes * N) bytes) : Prop :=
  forall log host port r, w_get W log host port = Ok r -> r = pins init log !! (host, port).

Lemma pins_app init a b : pins init (a ++ b) = pins (pins init a) b.
Proof. apply foldl_app. Qed.

Section pins.
Context (init : gmap (bytes * N) bytes) (os : list ConnectOptions).
Context (Hstore : store_backed init).

Lemma pins_step log e : sound os (log ++ [e]) -> pins init log ⊆ pins init (log ++ [e]).
Proof.
  intros Hs. rewrite pins_app. simpl. destruct e as [|host port key [[]|err]| | | | | | | | |]; try done.
  destruct (Hs log _ [] eq_refl) as (o & _ & _ & _ & _ & log' & route & hs & -> & _ & _).
  apply insert_subseteq. pose proof (Hs log' _ _ ltac:(by rewrite <-app_assoc)) as Hg. simpl in Hg.
  symmetry in Hg. apply Hstore in Hg. rewrite pins_app. by simpl.
Qed.

Lemma sound_app log k : sound os (log ++ k) -> sound os log.
Proof. intros Hs pre e post ->. apply (Hs pre e (post ++ k)). by rewrite <-app_assoc. Qed.

Lemma pins_grow log k : sound os (log ++ k) -> pins init log ⊆ pins init (log ++ k).
Proof.
  induction k as [|e k IH] using rev_ind; intros Hs; [by rewrite app_nil_r|]. rewrite app_assoc in *.
  etrans; [apply IH; by eapply sound_app|by apply pins_step].
Qed.

Lemma checked_pinned o log h :
  sound os log -> checked o log h ->
  exists route expected hs key, log !! h = Some (EvHandshake route (co_host o) (co_port o) expected hs) /\ shown_key hs key /\
    pins init log !! (co_host o, co_port o) = Some key.
Proof.
  intros Hs (g & route & expected & hs & key & -> & Hg & Hh & _ & Hk & Hp).
  exists route, expected, hs, key. split_and!; [done..|]. destruct Hp as [->|(_ & _ & Hput)].
  - apply list_elem_of_split_length in Hg as (pre & post & -> & _).
    pose proof (Hs pre _ post eq_refl) as He. simpl in He. symmetry in He. apply Hstore in He.
    eapply lookup_weaken; [by symmetry|by apply pins_grow].
  - apply list_elem_of_split in Hput as (pre & post & ->).
    assert (Hi : pins init (pre ++ [EvPut (co_host o) (co_port o) key (Ok tt)]) !! (co_host o, co_port o) = Some key).
    { rewrite pins_app. simpl. apply lookup_insert_eq. }
    eapply lookup_weaken; [exact Hi|]. rewrite (cons_middle _ pre post), app_assoc in *. by apply pins_grow.
Qed.

Lemma linked_checked route opts hs log o h :
  linked route opts hs log -> (o, h) ∈ zip opts hs -> checked o log h.
Proof.
  revert route hs. induction opts as [|x opts IH]; intros route [|y hs]; simpl; [set_solver..|].
  intros [[[Hc _] _] Hl] [[= <- <-]|Hin]%elem_of_cons; [done|by eapply IH].
Qed.
End pins.

(** C30. Credentials stay with their host: over a chain of jump hosts, and whatever the servers
    and everything else answer, each message of authentication goes to a server that has
    shown the key pinned for its host, or one pinned on this first use where that is allowed;
    and it is one for that very host: its user, its password, a key its agent holds, or
    answers of the user; the stored password answers questions only in the first round, and
    only when all of them are for hidden input. *)
Theorem credentials_stay_with_their_host chain target r log pre e post h step :
  checks_keys W -> connect_through W chain target [] = (r, log) -> log = pre ++ e :: post ->
  (exists a, e = EvAuth h step a) \/ (exists a, e = EvKbd h step a) ->
  exists o, o ∈ chain ++ [target] /\ checked o pre h /\ belongs o h pre step.
Proof.
  intros HW H -> He. destruct (connect_log _ _ _ _ HW H) as [Hs _]. specialize (Hs pre e post eq_refl).
  by destruct He as [[a ->]|[a ->]].
Qed.

(** A connection is made host by host: on success there is one connection for each host
    of the chain and the target, in order, the first one dialled directly or through its
    proxy, every other one inside the connection before it; each showed an accepted host key
    and let the user in; and every tunnel was opened over a host already checked. *)
Theorem chain_is_followed chain target c log :
  checks_keys W -> connect_through W chain target [] = (Ok c, log) ->
  linked (first_route (default target (head chain))) (chain ++ [target]) (sc_hops c ++ [sc_handle c]) log /\
  length (sc_hops c) = length chain /\ sc_agent_forward_requested c = co_agent_forward target.
Proof.
  intros HW H. destruct (connect_log _ _ _ _ HW H) as [_ Hl]. destruct (Hl c eq_refl) as [H1 H2]. split_and!; [done..|].
  destruct chain as [|first later]; simpl in H.
  - apply M_bind_Ok in H as (h & l1 & _ & (? & l2 & _ & [= <- _])%M_bind_Ok). done.
  - apply M_bind_Ok in H as (h & l1 & _ & (? & l2 & _ & ([cur hops] & l3 & _ & [= <- _])%M_bind_Ok)%M_bind_Ok). done.
Qed.


(** ** A login with a key only *)

(** the library fails with errors of its own, and so do the agents *)
Definition library_errors : Prop :=
  (forall log h step e, w_auth W log h step = Err e -> e <> KeyRefused /\ e <> KeyAcceptedMoreAuthRequired) /\
  (forall log e, w_system_agent W log = Err e -> e <> KeyRefused /\ e <> KeyAcceptedMoreAuthRequired).

(** what was told of the key *)
Definition offered (h : Handle) (e : Event) : Prop :=
  match e with
  | EvAuth h' (OfferKey _ _ _) _ | EvAuth h' (OfferCertificate _ _ _) _ => h' = h
  | EvAgentKey _ _ | EvAgentCertificate _ _ | EvSystemAgent _ => True
  | _ => False
  end.

Definition refusal (h : Handle) (o : ConnectOptions) (k : Log) : Prop :=
  exists k' key hash remaining, k = k' ++ [EvAuth h (OfferKey (co_user o) key hash) (Ok (Failure remaining false))] /\
    (forall id line, EvAgentCertificate id (Some line) ∈ k ->
       exists c hash remaining', EvAuth h (OfferCertificate (co_user o) c hash) (Ok (Failure remaining' false)) ∈ k).

Definition acceptance (h : Handle) (k : Log) : Prop :=
  exists k' step remaining, k = k' ++ [EvAuth h step (Ok (Failure remaining true))].

(** what the first method of a login with a key leaves *)
Definition key_verdict (h : Handle) (o : ConnectOptions) (r : result TransportError AuthResult) (k : Log) : Prop :=
  match r with
  | Ok Success => exists k' step, k = k' ++ [EvAuth h step (Ok Success)]
  | Ok (Failure _ false) => refusal h o k
  | Ok (Failure _ true) => acceptance h k
  | Err e => e <> KeyRefused /\ e <> KeyAcceptedMoreAuthRequired
  end.

Lemma last_verdict h o key hash k r :
  library_errors -> (forall id line, EvAgentCertificate id (Some line) ∈ k ->
     exists c hash remaining, EvAuth h (OfferCertificate (co_user o) c hash) (Ok (Failure remaining false)) ∈ k) ->
  (exists log, r = w_auth W log h (OfferKey (co_user o) key hash)) -> key_verdict h o r (k ++ [EvAuth h (OfferKey (co_user o) key hash) r]).
Proof.
  intros [Hlib _] Hc [log ->]. destruct (w_auth W log h (OfferKey (co_user o) key hash)) as [[|rem [|]]|e] eqn:E; simpl.
  - eauto.
  - unfold acceptance. eauto.
  - exists k, key, hash, rem. split; [done|]. intros id line Hin. destruct (Hc id line) as (c & hash' & rem' & ?); [set_solver|].
    exists c, hash', rem'. set_solver.
  - by eapply Hlib.
Qed.

Lemma agent_key_login h o key_id log r log' :
  library_errors -> co_publickey_only o = true -> authenticate_agent_key W h o key_id log = (r, log') ->
  exists k, log' = log ++ k /\ Forall (offered h) k /\ key_verdict h o r k.
Proof.
  intros Hlib Hpk. unfold authenticate_agent_key, auth_step, call, call_result, lift_result, mbind, M_bind. simpl.
  destruct (w_agent_key W log key_id) as [line|] eqn:Ek; simpl;
    [|intros [= <- <-]; eexists; split_and!; [done|by repeat constructor|done..]].
  destruct (pk_from_openssh line) as [key|] eqn:Ep; simpl;
    [|intros [= <- <-]; eexists; split_and!; [done|by repeat constructor|done..]].
  destruct (w_agent_certificate W (log ++ [EvAgentKey key_id (Some line)]) key_id) as [cl|] eqn:Ec.
  - destruct (cert_from_openssh cl) as [c|]; simpl;
      [|intros [= <- <-]; rewrite <-app_assoc; eexists; split_and!; [done|by repeat constructor|done..]].
    destruct (w_auth W _ h (OfferCertificate (co_user o) c (hash_for key))) as [a|e] eqn:Ea; simpl.
    + unfold offers_plain_key_too. rewrite Hpk. simpl. destruct a as [|rem [|]]; simpl.
      * intros [= <- <-]. rewrite <-!app_assoc. eexists. split_and!; [done|by repeat constructor|]. exists [EvAgentKey key_id (Some line); EvAgentCertificate key_id (Some cl)]. eauto.
      * intros [= <- <-]. rewrite <-!app_assoc. eexists. split_and!; [done|by repeat constructor|]. exists [EvAgentKey key_id (Some line); EvAgentCertificate key_id (Some cl)]. eauto.
      * intros [= <- <-]. rewrite <-!app_assoc. eexists. split_and!; [done|by repeat constructor|].
        eapply (last_verdict h o key _ [EvAgentKey key_id (Some line); EvAgentCertificate key_id (Some cl); EvAuth h (OfferCertificate (co_user o) c (hash_for key)) (Ok (Failure rem false))]);
          [done| |by rewrite <-?app_assoc; eexists].
        intros. exists c, (hash_for key), rem. set_solver.
    + intros [= <- <-]. rewrite <-!app_assoc. eexists. split_and!; [done|by repeat constructor|]. simpl. destruct Hlib as [Hlib _]. by eapply Hlib.
  - intros [= <- <-]. rewrite <-!app_assoc. eexists. split_and!; [done|by repeat constructor|].
    eapply (last_verdict h o key _ [EvAgentKey key_id (Some line); EvAgentCertificate key_id None]); [done| |by rewrite <-?app_assoc; eexists].
    intros. set_solver.
Qed.

Lemma key_method_verdict h o log r log' :
  library_errors -> co_publickey_only o = true -> (forall p, co_auth o <> AuthPassword p) -> first_method W h o log = (r, log') ->
  exists k, log' = log ++ k /\ Forall (offered h) k /\ key_verdict h o r k.
Proof.
  intros Hlib Hpk Ha. unfold first_method. destruct (co_auth o) as [key_id|p|line]; [by apply agent_key_login|by destruct (Ha p)|].
  unfold system_agent_identities, auth_step, call_result, lift_result, mbind, M_bind.
  destruct (pk_from_openssh (trim_line line)) as [key|]; simpl; [|intros [= <- <-]; exists []; by rewrite app_nil_r].
  destruct (refuse_own_agent W (w_auth_sock W) (co_own_system_agent o)) as [[]|e] eqn:Er; simpl.
  - destruct (w_system_agent W log) as [ids|e] eqn:Ei; simpl.
    + destruct (existsb (holds key) ids); simpl; [|intros [= <- <-]; eexists; split_and!; [done|by repeat constructor|done..]].
      intros [= <- <-]. rewrite <-app_assoc. eexists. split_and!; [done|by repeat constructor|].
      eapply (last_verdict h o key _ [EvSystemAgent (Ok ids)]); [done| |by rewrite <-?app_assoc; eexists]. intros. set_solver.
    + intros [= <- <-]. eexists. split_and!; [done|by repeat constructor|]. destruct Hlib as [_ Hlib]. simpl. by eapply Hlib.
  - intros [= <- <-]. exists []. rewrite app_nil_r. split_and!; [done|constructor|]. simpl. revert Er. unfold refuse_own_agent.
    destruct (w_auth_sock W), (co_own_system_agent o); try done. destruct (_ && _); [by intros [= <-]|done].
Qed.

(** The verdict of a login with a key only is about that key: it sends no password, asks
    no questions and answers none; [KeyRefused] means that the server was offered the plain
    key of the login, and its certificate before it if it has one, and refused both outright;
    [KeyAcceptedMoreAuthRequired] means that it accepted what it was offered last and wants
    more; success, that it let the user in with it. *)
Theorem key_only_verdict h o log r log' :
  library_errors -> co_publickey_only o = true -> (forall p, co_auth o <> AuthPassword p) -> authenticate W h o log = (r, log') ->
  exists k, log' = log ++ k /\ Forall (offered h) k /\
    (r = Err KeyRefused -> refusal h o k) /\ (r = Err KeyAcceptedMoreAuthRequired -> acceptance h k) /\
    (r = Ok tt -> exists k' step, k = k' ++ [EvAuth h step (Ok Success)]).
Proof.
  intros Hlib Hpk Ha. unfold authenticate. intros [(a & log1 & H1 & H2)|(e & H1 & ->)]%M_bind_run.
  - destruct (key_method_verdict _ _ _ _ _ Hlib Hpk Ha H1) as (k & -> & Hk & Hv).
    unfold should_escalate in H2. rewrite Hpk in H2. cbn [negb andb] in H2.
    assert (Hko : match co_auth o with AuthPassword _ => false | _ => true end = true) by (destruct (co_auth o) eqn:E; [done|by destruct (Ha password)|done]).
    rewrite Hko in H2. exists k. destruct a as [|rem [|]]; unfold mbind, M_bind in H2; simpl in H2.
    all: injection H2 as <- <-; split_and!; first [done|intros _; exact Hv|by intros].
  - destruct (key_method_verdict _ _ _ _ _ Hlib Hpk Ha H1) as (k & -> & Hk & Hv & Hv'). exists k. split_and!; try done; congruence.
Qed.

(** A key is trusted anew only if it has the confirmed fingerprint: [trust_host_key]
    writes at most one pin, for the given host, and on success it is the key the server
    showed, with the fingerprint that was confirmed and is returned; nothing is sent to
    authenticate. *)
Theorem trusted_key_was_confirmed host port fingerprint log r log' :
  checks_keys W -> trust_host_key W host port fingerprint log = (r, log') ->
  exists hs, (log' = log ++ [EvHandshake ByTcp host port None hs] /\ (forall got, r <> Ok got)) \/
    exists key r', log' = log ++ [EvHandshake ByTcp host port None hs; EvPut host port key r'] /\ shown_key hs key /\
      fingerprint_openssh key = fingerprint /\ (forall got, r = Ok got -> got = fingerprint /\ r' = Ok tt).
Proof.
  intros HW. unfold trust_host_key, connect_call, known_put, call_result, lift_result, mbind, M_bind. simpl.
  set (hs := w_connect W log ByTcp host port _). intros H. exists hs.
  destruct (hs_result hs) as [[[]|e]|] eqn:Er; simpl in H; [|simplify_eq; by left..].
  apply HW in Er as (shown & Hsh & Hck). fold hs in Hsh.
  destruct (check_accepts _ _ Hck) as (pk & key & -> & Hk & Hob & _). unfold observed_key in H. rewrite Hsh in H. simpl in H, Hob.
  rewrite Hob in H. simpl in H. case_bool_decide as Hf; simpl in H; [|simplify_eq; by left].
  right. exists key. destruct (w_put W _ host port key) as [[]|e] eqn:Ep; injection H as <- <-; eexists;
    (split_and!; [by rewrite <-app_assoc|by exists pk|done|]); [|done]. by intros got [= <-].
Qed.
End theory.
