(* ===== verification/SshProxy.v ===== *)
(** * Proxies (ssh-transport/src/proxy.rs, [socks5_handshake] of client.rs)

    The handshakes with an HTTP, SOCKS4 or SOCKS5 proxy through which the first host of a
    connection is reached, and the SOCKS5 server side of a dynamic forward. A [Stream] holds
    the bytes the other side sends, those written to it and how many more writes will
    succeed; a text is its UTF-8 bytes. The messages of errors are left out. *)

From Stdlib Require Import Strings.String Strings.Byte NArith ZArith Lia.
From stdpp Require Import base gmap sets list strings sorting countable.
From S2P Require Import Prelude Bytes AutoOutput SshConnect.

Local Open Scope nat_scope.

(** ** Addresses: [FromStr] of [Ipv4Addr] and [Ipv6Addr] *)

Definition to_digit (radix : N) (b : byte) : option N :=
  let n := Byte.to_N b in
  let d := if in_byte_range 48 57 b then Some (n - 48)%N
           else if in_byte_range 97 122 b then Some (n - 87)%N
           else if in_byte_range 65 90 b then Some (n - 55)%N
           else None in
  d ← d; if (d <? radix)%N then Some d else None.

(** the digits at the start: their value, their number, the rest *)
Fixpoint read_digits (radix acc : N) (count : nat) (l : bytes) : N * nat * bytes :=
  match l with
  | [] => (acc, count, [])
  | b :: l' =>
      match to_digit radix b with
      | Some d => read_digits radix (acc * radix + d) (S count) l'
      | None => (acc, count, l)
      end
  end.

Definition read_number (radix : N) (max_digits : nat) (allow_zero_prefix : bool) (max : N) (l : bytes) : option (N * bytes) :=
  let '(n, count, rest) := read_digits radix 0 0 l in
  if (max_digits <? count) || (count =? 0) || (negb allow_zero_prefix && bool_decide (head l = Some x30) && (1 <? count)) || (max <? n)%N
  then None else Some (n, rest).

Definition read_given_char (c : byte) (l : bytes) : option bytes :=
  match l with b :: l => if bool_decide (b = c) then Some l else None | [] => None end.

Definition read_separator {A} (sep : byte) (index : nat) (inner : bytes -> option A) (l : bytes) : option A :=
  match index with O => inner l | S _ => l ← read_given_char sep l; inner l end.

Definition read_octet (index : nat) (l : bytes) : option (byte * bytes) :=
  '(n, l) ← read_separator x2e index (read_number 10 3 false 255) l; Some (byte_of_N n, l).

Definition read_ipv4_addr (l : bytes) : option (bytes * bytes) :=
  '(a, l) ← read_octet 0 l; '(b, l) ← read_octet 1 l; '(c, l) ← read_octet 2 l; '(d, l) ← read_octet 3 l;
  Some ([a; b; c; d], l).

Definition parse_ipv4 (l : bytes) : option bytes :=
  if 15 <? length l then None
  else '(ip, rest) ← read_ipv4_addr l; match rest with [] => Some ip | _ => None end.

(** the groups from number [i] on, [slots] places left: the groups (two bytes each), whether
    they end with an embedded IPv4 address, the rest *)
Fixpoint read_groups (slots i : nat) (l : bytes) : bytes * bool * bytes :=
  match slots with
  | O => ([], false, l)
  | S more =>
      match (if 0 <? more then read_separator x3a i read_ipv4_addr l else None) with
      | Some (ip, rest) => (ip, true, rest)
      | None =>
          match read_separator x3a i (read_number 16 4 true 65535) l with
          | Some (g, rest) => let '(gs, v4, rest) := read_groups more (S i) rest in (u16_be g ++ gs, v4, rest)
          | None => ([], false, l)
          end
      end
  end.

Definition read_ipv6_addr (l : bytes) : option (bytes * bytes) :=
  let '(head, head_ipv4, l) := read_groups 8 0 l in
  if length head =? 16 then Some (head, l)
  else if head_ipv4 then None
  else
    l ← read_given_char x3a l;
    l ← read_given_char x3a l;
    let '(tail, _, l) := read_groups (8 - (length head / 2 + 1)) 0 l in
    Some (head ++ replicate (16 - length head - length tail) x00 ++ tail, l).

Definition parse_ipv6 (l : bytes) : option bytes :=
  '(ip, rest) ← read_ipv6_addr l; match rest with [] => Some ip | _ => None end.

(** ** Streams *)

Record Stream := mkStream { st_in : bytes; st_out : bytes; st_writes : nat }.
Abbreviation IO A := (M Stream TransportError A).

Definition write_all (data : bytes) : IO unit := fun s =>
  match st_writes s with
  | O => (Err Io, s)
  | S n => (Ok tt, mkStream (st_in s) (st_out s ++ data) n)
  end.

Definition read_exact (n : nat) : IO bytes := fun s =>
  if n <=? length (st_in s) then (Ok (take n (st_in s)), mkStream (drop n (st_in s)) (st_out s) (st_writes s))
  else (Err Io, mkStream [] (st_out s) (st_writes s)).

Definition u8_at (l : bytes) (i : nat) : N := Byte.to_N (default x00 (l !! i)).

(** [map_err] to a proxy error *)
Definition proxy_io {A} (m : IO A) : IO A := err_into (fun _ => ProxyFailed) m.

(** ** HTTP CONNECT *)

Definition HTTP_REPLY_LIMIT : nat := N.to_nat (8 * 1024).

Definition crlf : bytes := [x0d; x0a].

Definition ends_reply (reply : bytes) : bool := bool_decide (drop (length reply - 4) reply = crlf ++ crlf).

(** the loop that reads the reply *)
Fixpoint read_reply (reply input : bytes) : result TransportError bytes * bytes :=
  if ends_reply reply then (Ok reply, input)
  else if HTTP_REPLY_LIMIT <=? length reply then (Err ProxyFailed, input)
  else match input with
       | [] => (Err ProxyFailed, [])
       | b :: input => read_reply (reply ++ [b]) input
       end.

Definition is_ascii_whitespace (b : byte) : bool := match b with x20 | x09 | x0a | x0c | x0d => true | _ => false end.

(** [split_ascii_whitespace]; [word]: the bytes of the word being read *)
Fixpoint split_ascii_whitespace (word l : bytes) : list bytes :=
  match l with
  | [] => match word with [] => [] | _ => [word] end
  | b :: l =>
      if is_ascii_whitespace b
      then match word with [] => split_ascii_whitespace [] l | _ => word :: split_ascii_whitespace [] l end
      else split_ascii_whitespace (word ++ [b]) l
  end.

(** [str::parse::<u16>] *)
Definition parse_u16 (l : bytes) : option N :=
  let l := match l with x2b :: l' => l' | _ => l end in
  let '(n, count, rest) := read_digits 10 0 0 l in
  if (count =? 0) || negb (bool_decide (rest = [])) || (65535 <? n)%N then None else Some n.

Definition starts_with (p l : bytes) : bool := bool_decide (take (length p) l = p).

(** on the bytes of the line: the lossy decoding before it changes neither ASCII characters
    nor what is no digit *)
Definition http_status_code (status_line : bytes) : option N :=
  match split_ascii_whitespace [] status_line with
  | version :: code :: _ => if starts_with (lit "HTTP/") version then parse_u16 code else None
  | _ => None
  end.

(** the part before the first CR *)
Fixpoint first_line (reply : bytes) : bytes :=
  match reply with
  | [] => []
  | x0d :: _ => []
  | b :: reply => b :: first_line reply
  end.

Definition ALPHABET : bytes := lit "ABCDEFGHIJKLMNOPQRSTUVWXYZabcdefghijklmnopqrstuvwxyz0123456789+/".

Definition sextet (n : N) (shift : N) : byte :=
  default x3d (ALPHABET !! N.to_nat (N.land (N.shiftr n shift) 63)).

(** [chunks(3)] *)
Fixpoint base64_encode (data : bytes) : bytes :=
  match data with
  | a :: b :: c :: data =>
      let n := be_decode [a; b; c] in [sextet n 18; sextet n 12; sextet n 6; sextet n 0] ++ base64_encode data
  | [a; b] => let n := be_decode [a; b; x00] in [sextet n 18; sextet n 12; sextet n 6; x3d]
  | [a] => let n := be_decode [a; x00; x00] in [sextet n 18; sextet n 12; x3d; x3d]
  | [] => []
  end.

Definition authority (dest_host : bytes) (dest_port : N) : bytes :=
  match parse_ipv6 dest_host with
  | Some _ => lit "[" ++ dest_host ++ lit "]:" ++ print_usize dest_port
  | None => dest_host ++ lit ":" ++ print_usize dest_port
  end.

Definition http_connect_request (dest_host : bytes) (dest_port : N) (auth : option (bytes * bytes)) : bytes :=
  let a := authority dest_host dest_port in
  lit "CONNECT " ++ a ++ lit " HTTP/1.1" ++ crlf ++ lit "Host: " ++ a ++ crlf ++
  match auth with
  | Some (user, pass) => lit "Proxy-Authorization: Basic " ++ base64_encode (user ++ lit ":" ++ pass) ++ crlf
  | None => []
  end ++ crlf.

Definition credentials (proxy : ProxyOptions) : option (bytes * bytes) :=
  match px_username proxy, px_password proxy with
  | None, None => None
  | user, pass => Some (default [] user, default [] pass)
  end.

Definition read_http_reply : IO bytes := fun s =>
  let '(r, rest) := read_reply [] (st_in s) in (r, mkStream rest (st_out s) (st_writes s)).

Definition http_handshake (proxy : ProxyOptions) (dest_host : bytes) (dest_port : N) : IO unit :=
  _ ← write_all (http_connect_request dest_host dest_port (credentials proxy));
  reply ← read_http_reply;
  lift_result (guard (bool_decide (http_status_code (first_line reply) = Some 200%N)) ProxyFailed).

(** ** SOCKS4 *)

Definition socks4_request (dest_host : bytes) (dest_port : N) (userid : bytes) : result TransportError bytes :=
  match parse_ipv6 dest_host with
  | Some _ => Err ProxyFailed
  | None =>
      Ok ([x04; x01] ++ u16_be dest_port ++
          match parse_ipv4 dest_host with
          | Some ip => ip ++ userid ++ [x00]
          | None => [x00; x00; x00; x01] ++ userid ++ [x00] ++ dest_host ++ [x00]
          end)
  end.

Definition socks4_handshake (proxy : ProxyOptions) (dest_host : bytes) (dest_port : N) : IO unit :=
  request ← lift_result (socks4_request dest_host dest_port (default [] (px_username proxy)));
  _ ← write_all request;
  reply ← proxy_io (read_exact 8);
  lift_result (guard (u8_at reply 1 =? 90)%N ProxyFailed).

(** ** SOCKS5 *)

Definition socks5_auth_request (user pass : bytes) : result TransportError bytes :=
  if (255 <? len user)%N || (255 <? len pass)%N then Err ProxyFailed
  else Ok ([x01; byte_of_N (len user)] ++ user ++ [byte_of_N (len pass)] ++ pass).

Definition socks5_connect_request (dest_host : bytes) (dest_port : N) : result TransportError bytes :=
  dest ← (match parse_ipv4 dest_host with
          | Some ip => Ok (x01 :: ip)
          | None =>
              match parse_ipv6 dest_host with
              | Some ip => Ok (x04 :: ip)
              | None =>
                  if (255 <? len dest_host)%N then Err ProxyFailed
                  else Ok ([x03; byte_of_N (len dest_host)] ++ dest_host)
              end
          end);
  Ok ([x05; x01; x00] ++ dest ++ u16_be dest_port).

Definition socks5_greeting (have_creds : bool) : bytes := if have_creds then [x05; x02; x00; x02] else [x05; x01; x00].

Definition socks5_authenticate (creds : option (bytes * bytes)) (method : byte) : IO unit :=
  match method, creds with
  | x00, _ => mret tt
  | x02, Some (user, pass) =>
      auth ← lift_result (socks5_auth_request user pass);
      _ ← write_all auth;
      status ← proxy_io (read_exact 2);
      lift_result (guard (u8_at status 1 =? 0)%N ProxyFailed)
  | _, _ => throw ProxyFailed
  end.

Definition bound_length (atyp : byte) : IO nat :=
  match atyp with
  | x01 => mret 4
  | x04 => mret 16
  | x03 => n ← read_exact 1; mret (N.to_nat (u8_at n 0))
  | _ => throw ProxyFailed
  end.

(** client side: [socks5_handshake] of proxy.rs *)
Definition socks5_dial (proxy : ProxyOptions) (dest_host : bytes) (dest_port : N) : IO unit :=
  _ ← write_all (socks5_greeting (bool_decide (is_Some (credentials proxy))));
  choice ← proxy_io (read_exact 2);
  _ ← lift_result (guard (u8_at choice 0 =? 5)%N ProxyFailed);
  _ ← socks5_authenticate (credentials proxy) (default x00 (choice !! 1));
  request ← lift_result (socks5_connect_request dest_host dest_port);
  _ ← write_all request;
  head ← proxy_io (read_exact 4);
  _ ← lift_result (guard (u8_at head 0 =? 5)%N ProxyFailed);
  _ ← lift_result (guard (u8_at head 1 =? 0)%N ProxyFailed);
  n ← bound_length (default x00 (head !! 3));
  _ ← read_exact n;
  _ ← read_exact 2;
  mret tt.

(** the handshake of [dial_inner], its I/O errors relabelled *)
Definition relabel_handshake_error (e : TransportError) : TransportError := match e with Io => ProxyFailed | _ => e end.

Definition dial_handshake (proxy : ProxyOptions) (dest_host : bytes) (dest_port : N) : IO unit :=
  err_into relabel_handshake_error
    (match px_kind proxy with
     | Http => http_handshake proxy dest_host dest_port
     | Socks4 => socks4_handshake proxy dest_host dest_port
     | Socks5 => socks5_dial proxy dest_host dest_port
     end).

(** *** Server side: [socks5_handshake] of client.rs *)

Definition hex_digit (n : N) : byte := default x30 (lit "0123456789abcdef" !! N.to_nat (n mod 16)).
Fixpoint print_hex (fuel : nat) (n : N) : bytes :=
  match fuel with
  | O => []
  | S fuel => if (n <? 16)%N then [hex_digit n] else print_hex fuel (n / 16) ++ [hex_digit n]
  end.

Fixpoint join (sep : bytes) (l : list bytes) : bytes :=
  match l with
  | [] => []
  | [w] => w
  | w :: l => w ++ sep ++ join sep l
  end.

Definition print_ipv4 (ip : bytes) : bytes := join (lit ".") ((fun b => print_usize (Byte.to_N b)) <$> ip).

(** the segments of sixteen octets *)
Fixpoint segments (ip : bytes) : list N :=
  match ip with
  | a :: b :: ip => be_decode [a; b] :: segments ip
  | _ => []
  end.
Definition print_ipv6 (ip : bytes) : bytes := join (lit ":") (print_hex 4 <$> segments ip).

Definition socks_refused : bytes := [x05; x07; x00; x01; x00; x00; x00; x00; x00; x00].
Definition socks_success : bytes := [x05; x00; x00; x01; x00; x00; x00; x00; x00; x00].

Definition socks5_host (atyp : byte) : IO bytes :=
  match atyp with
  | x01 => a ← read_exact 4; mret (print_ipv4 a)
  | x03 =>
      n ← read_exact 1;
      _ ← lift_result (guard (negb (u8_at n 0 =? 0)%N) Socks);
      dn ← read_exact (N.to_nat (u8_at n 0));
      _ ← lift_result (guard (match from_utf8 dn with (_, UValid) => true | _ => false end) Socks);
      mret dn
  | x04 => a ← read_exact 16; mret (print_ipv6 a)
  | _ => throw Socks
  end.

Definition socks5_serve : IO (bytes * N) :=
  head ← read_exact 2;
  _ ← lift_result (guard (u8_at head 0 =? 5)%N Socks);
  _ ← lift_result (guard (negb (u8_at head 1 =? 0)%N) Socks);
  methods ← read_exact (N.to_nat (u8_at head 1));
  _ ← (if bool_decide (x00 ∈ methods) then mret tt
       else fun s => let '(_, s) := (write_all [x05; xff] : IO unit) s in (Err Socks, s));
  _ ← write_all [x05; x00];
  req ← read_exact 4;
  _ ← (if (u8_at req 0 =? 5)%N && (u8_at req 1 =? 1)%N then mret tt
       else _ ← write_all socks_refused; throw Socks);
  host ← socks5_host (default x00 (req !! 3));
  port ← read_exact 2;
  _ ← write_all socks_success;
  mret (host, be_decode port).
