(* ===== verification/SshProxyThy.v ===== *)
(** * The proxy handshakes are exact (theory of [SshProxy])

    A handshake with a proxy succeeds exactly when the proxy answers as its protocol says, it
    reads not a byte of what follows, and it writes one message at a time. The SOCKS5 server
    of a dynamic forward reads what the SOCKS5 client writes. *)

From Stdlib Require Import Strings.String Strings.Byte NArith ZArith Lia.
From stdpp Require Import base gmap sets list strings sorting countable.
From S2P Require Import Prelude Bytes AutoOutput SshConnect SshProxy.

Local Open Scope nat_scope.

(** ** What a computation reads and writes *)

(** the results with the bytes read and the messages written for them *)
Definition Dialogue (A : Type) : Type := A -> bytes -> list bytes -> Prop.

(** from [s] to [s'], [reply] is read and [sent] written *)
Definition exchanged (s s' : Stream) (reply : bytes) (sent : list bytes) : Prop :=
  st_in s = reply ++ st_in s' /\ st_out s' = st_out s ++ concat sent /\ st_writes s = length sent + st_writes s'.

Lemma exchanged_nil s s' : exchanged s s' [] [] <-> s' = s.
Proof.
  unfold exchanged. destruct s as [i o w], s' as [i' o' w']. simpl. rewrite app_nil_r.
  split; [intros (-> & -> & ->); done|by intros [= -> -> ->]].
Qed.

Lemma exchanged_app s s1 s2 r1 r2 l1 l2 :
  exchanged s s1 r1 l1 -> exchanged s1 s2 r2 l2 -> exchanged s s2 (r1 ++ r2) (l1 ++ l2).
Proof.
  intros (H1 & H2 & H3) (H4 & H5 & H6). split_and!.
  - by rewrite H1, H4, app_assoc.
  - by rewrite H5, H2, concat_app, app_assoc.
  - rewrite length_app. lia.
Qed.

Lemma exchanged_split s s2 r1 r2 l1 l2 :
  exchanged s s2 (r1 ++ r2) (l1 ++ l2) -> exists s1, exchanged s s1 r1 l1 /\ exchanged s1 s2 r2 l2.
Proof.
  intros (H1 & H2 & H3). exists (mkStream (r2 ++ st_in s2) (st_out s ++ concat l1) (length l2 + st_writes s2)).
  rewrite length_app in H3. unfold exchanged. simpl. split_and!; try done.
  - by rewrite H1, app_assoc.
  - lia.
  - by rewrite H2, concat_app, app_assoc.
Qed.

(** [m] returns exactly along the dialogues of [D] *)
Definition runs {A} (m : IO A) (D : Dialogue A) : Prop :=
  forall s a s', m s = (Ok a, s') <-> exists reply sent, D a reply sent /\ exchanged s s' reply sent.

Definition D_ret {A} (x : A) : Dialogue A := fun a reply sent => a = x /\ reply = [] /\ sent = [].
Definition D_never {A} : Dialogue A := fun _ _ _ => False.
Definition D_if (c : bool) : Dialogue unit := fun _ reply sent => c = true /\ reply = [] /\ sent = [].
Definition D_pure {A} (x : result TransportError A) : Dialogue A := fun a reply sent => x = Ok a /\ reply = [] /\ sent = [].
Definition D_write (data : bytes) : Dialogue unit := fun _ reply sent => reply = [] /\ sent = [data].
Definition D_read (n : nat) : Dialogue bytes := fun a reply sent => reply = a /\ length a = n /\ sent = [].
Definition D_bind {A B} (D : Dialogue A) (F : A -> Dialogue B) : Dialogue B := fun b reply sent =>
  exists a r1 l1 r2 l2, reply = r1 ++ r2 /\ sent = l1 ++ l2 /\ D a r1 l1 /\ F a b r2 l2.

Lemma runs_pure {A} (x : result TransportError A) : runs (lift_result x) (D_pure x).
Proof.
  intros s a s'. unfold lift_result, D_pure. split.
  - intros [= -> ->]. exists [], []. split; [done|by apply exchanged_nil].
  - by intros (? & ? & (-> & -> & ->) & ->%exchanged_nil).
Qed.

Lemma runs_ret {A} (x : A) : runs (mret x) (D_ret x).
Proof.
  intros s a s'. unfold D_ret. split.
  - intros [= -> ->]. exists [], []. split; [done|by apply exchanged_nil].
  - by intros (? & ? & (-> & -> & ->) & ->%exchanged_nil).
Qed.

Lemma runs_throw {A} e : runs (throw e : IO A) D_never.
Proof. intros s a s'. split; [done|by intros (? & ? & [] & _)]. Qed.

Lemma runs_guard c e : runs (lift_result (guard c e)) (D_if c).
Proof.
  intros s [] s'. rewrite (runs_pure _ s tt s'). unfold D_pure, D_if. by setoid_rewrite guard_Ok.
Qed.

Lemma runs_write data : runs (write_all data) (D_write data).
Proof.
  intros [i o w] [] [i' o' w']. unfold write_all, D_write, exchanged. simpl. split.
  - destruct w; [done|]. intros [= -> <- ->]. exists [], [data]. simpl. by rewrite app_nil_r.
  - intros (? & ? & (-> & ->) & H1 & -> & ->). simpl in *. by rewrite H1, app_nil_r.
Qed.

Lemma runs_read n : runs (read_exact n) (D_read n).
Proof.
  intros [i o w] a [i' o' w']. unfold read_exact, D_read, exchanged. simpl. split.
  - destruct (Nat.leb_spec n (length i)); [|done]. intros [= <- <- <- <-]. exists (take n i), []. simpl.
    rewrite length_take, take_drop, app_nil_r. split_and!; [done|lia|done..].
  - intros (? & ? & (-> & <- & ->) & -> & -> & ->). simpl. rewrite length_app, app_nil_r.
    destruct (Nat.leb_spec (length a) (length a + length i')); [|lia]. by rewrite take_app_length, drop_app_length.
Qed.

Lemma runs_bind {A B} (m : IO A) (f : A -> IO B) D F :
  runs m D -> (forall a, runs (f a) (F a)) -> runs (m ≫= f) (D_bind D F).
Proof.
  intros Hm Hf s b s'. rewrite M_bind_Ok. split.
  - intros (a & s1 & (r1 & l1 & H1 & E1)%Hm & (r2 & l2 & H2 & E2)%Hf). exists (r1 ++ r2), (l1 ++ l2).
    split; [|by eapply exchanged_app]. exists a, r1, l1, r2, l2. done.
  - intros (? & ? & (a & r1 & l1 & r2 & l2 & -> & -> & H1 & H2) & (s1 & E1 & E2)%exchanged_split).
    exists a, s1. split; [apply Hm; eauto|apply Hf; eauto].
Qed.

Lemma runs_err_into {A} (f : TransportError -> TransportError) (m : IO A) D : runs m D -> runs (err_into f m) D.
Proof.
  intros Hm s a s'. rewrite <-(Hm s a s'). unfold err_into. destruct (m s) as [[x|e] s1]; simpl; split; congruence.
Qed.

Lemma runs_iff {A} (m : IO A) (D D' : Dialogue A) : runs m D -> (forall a reply sent, D a reply sent <-> D' a reply sent) -> runs m D'.
Proof. intros Hm H s a s'. rewrite (Hm s a s'). by setoid_rewrite H. Qed.

(** the dialogues of a program, read off its text *)
Ltac run := repeat first
  [ apply runs_write | apply runs_read | apply runs_ret | apply runs_throw | apply runs_guard | apply runs_pure | apply runs_err_into
  | (eapply runs_bind; [|intros ?]) ].

Ltac undialogue := repeat match goal with
  | H : D_bind _ _ _ _ _ |- _ => destruct H as (? & ? & ? & ? & ? & -> & -> & ? & ?)
  | H : D_write _ _ _ _ |- _ => destruct H as [-> ->]
  | H : D_read _ _ _ _ |- _ => destruct H as (-> & ? & ->)
  | H : D_ret _ _ _ _ |- _ => first [destruct H as (-> & -> & ->)|destruct H as (_ & -> & ->)]
  | H : D_if _ _ _ _ |- _ => destruct H as (? & -> & ->)
  | H : D_pure _ _ _ _ |- _ => destruct H as (? & -> & ->)
  | H : D_never _ _ _ |- _ => destruct H
  end.

Lemma D_bind_intro {A B} (D : Dialogue A) (F : A -> Dialogue B) a b r1 l1 r2 l2 :
  D a r1 l1 -> F a b r2 l2 -> D_bind D F b (r1 ++ r2) (l1 ++ l2).
Proof. intros H1 H2. exists a, r1, l1, r2, l2. done. Qed.

Section intro.
Context {A B : Type}.

Lemma say data (F : unit -> Dialogue B) b reply sent : F tt b reply sent -> D_bind (D_write data) F b reply (data :: sent).
Proof. intros H. by apply (D_bind_intro _ _ tt b [] [data]). Qed.

Lemma hear n (F : bytes -> Dialogue B) a b reply sent : length a = n -> F a b reply sent -> D_bind (D_read n) F b (a ++ reply) sent.
Proof. intros Hl H. by apply (D_bind_intro _ _ a b a []). Qed.

Lemma hear_last n (F : bytes -> Dialogue B) a b sent : length a = n -> F a b [] sent -> D_bind (D_read n) F b a sent.
Proof. intros Hl H. rewrite <-(app_nil_r a). by apply hear. Qed.

Lemma check c (F : unit -> Dialogue B) b reply sent : c = true -> F tt b reply sent -> D_bind (D_if c) F b reply sent.
Proof. intros Hc H. by apply (D_bind_intro _ _ tt b [] []). Qed.

Lemma know (x : result TransportError A) (F : A -> Dialogue B) a b reply sent : x = Ok a -> F a b reply sent -> D_bind (D_pure x) F b reply sent.
Proof. intros Hx H. by apply (D_bind_intro _ _ a b [] []). Qed.
End intro.

(** ** The replies *)

(** a complete header of an HTTP reply: up to the first empty line *)
Definition http_reply (reply : bytes) : Prop :=
  length reply <= HTTP_REPLY_LIMIT /\ ends_reply reply = true /\
  forall pre, pre `prefix_of` reply -> ends_reply pre = true -> pre = reply.

Lemma read_reply_spec reply input r rest :
  read_reply reply input = (Ok r, rest) <->
  exists more, input = more ++ rest /\ r = reply ++ more /\ length r <= max (length reply) HTTP_REPLY_LIMIT /\ ends_reply r = true /\
    forall pre, pre `prefix_of` more -> ends_reply (reply ++ pre) = true -> pre = more.
Proof.
  revert reply. induction input as [|b input IH]; intros reply; cbn [read_reply].
  - destruct (ends_reply reply) eqn:E.
    + split.
      * intros [= -> <-]. exists []. rewrite !app_nil_r. split_and!; [done|done|apply Nat.le_max_l|done|]. by intros pre ->%prefix_nil_inv.
      * intros (more & [-> ->]%symmetry%app_nil & -> & _). by rewrite app_nil_r.
    + split; [by destruct (_ <=? _)|]. intros (more & [-> ->]%symmetry%app_nil & -> & _ & He & _).
      rewrite app_nil_r in He. congruence.
  - destruct (ends_reply reply) eqn:E.
    + split.
      * intros [= -> <-]. exists []. rewrite !app_nil_r. split_and!; [done|done|apply Nat.le_max_l|done|]. by intros pre ->%prefix_nil_inv.
      * intros (more & Hi & -> & _ & _ & Hp). specialize (Hp [] ltac:(apply prefix_nil) ltac:(by rewrite app_nil_r)). subst more.
        simpl in Hi. by rewrite app_nil_r, Hi.
    + destruct (Nat.leb_spec HTTP_REPLY_LIMIT (length reply)) as [Hl|Hl].
      * split; [done|]. intros (more & Hi & -> & Hle & He & _). exfalso. rewrite length_app in Hle.
        assert (length more = 0) by lia. destruct more; [|done]. rewrite app_nil_r in He. congruence.
      * rewrite IH. rewrite length_app. cbn [length]. split.
        -- intros (more & -> & -> & Hle & He & Hp). exists (b :: more). rewrite <-app_assoc in *. cbn [app] in *.
           split_and!; [done|done|lia|done|]. intros [|c pre] Hpre Hend; [rewrite app_nil_r in Hend; congruence|].
           apply prefix_cons_inv_1 in Hpre as Hc. apply prefix_cons_inv_2 in Hpre. subst c. f_equal. apply Hp; [done|].
           by rewrite <-app_assoc.
        -- intros ([|c more] & Hi & -> & Hle & He & Hp); [rewrite app_nil_r in He; congruence|]. simpl in Hi.
           injection Hi as <- ->. exists more. rewrite <-app_assoc. split_and!; [done|done|lia|done|].
           intros pre Hpre Hend. rewrite <-app_assoc in Hend. apply (Hp (b :: pre)) in Hend; [by injection Hend|by apply prefix_cons].
Qed.

Lemma runs_http_reply : runs read_http_reply (fun a reply sent => reply = a /\ http_reply a /\ sent = []).
Proof.
  intros [i o w] a [i' o' w']. unfold read_http_reply, exchanged, http_reply. simpl. split.
  - destruct (read_reply [] i) as [r rest] eqn:E. intros [= -> -> <- <-]. apply read_reply_spec in E as (more & -> & -> & Hl & He & Hp).
    exists more, []. simpl in *. rewrite app_nil_r. split_and!; done.
  - intros (? & ? & (-> & (Hl & He & Hp) & ->) & -> & -> & ->). simpl.
    assert (read_reply [] (a ++ i') = (Ok a, i')) as ->; [|by rewrite app_nil_r].
    apply read_reply_spec. exists a. split_and!; [done|done|simpl; lia|done..].
Qed.

(** the address at the end of a SOCKS5 reply, by its type *)
Inductive bound_address : byte -> bytes -> Prop :=
| bound_ipv4 a : length a = 4 -> bound_address x01 a
| bound_ipv6 a : length a = 16 -> bound_address x04 a
| bound_name n a : length a = N.to_nat (Byte.to_N n) -> bound_address x03 (n :: a).

(** the authentication the proxy asks for: the method it chose, what it answers, what is
    sent; the credentials go out only when it chose them *)
Inductive socks5_auth (proxy : ProxyOptions) : byte -> bytes -> list bytes -> Prop :=
| socks5_anonymous : socks5_auth proxy x00 [] []
| socks5_password user pass auth v :
    credentials proxy = Some (user, pass) -> socks5_auth_request user pass = Ok auth ->
    socks5_auth proxy x02 [v; x00] [auth].

(** what a proxy answers to open the tunnel, and what it is sent *)
Inductive accepts (proxy : ProxyOptions) (host : bytes) (port : N) : bytes -> list bytes -> Prop :=
| accepts_http reply :
    px_kind proxy = Http -> http_reply reply -> http_status_code (first_line reply) = Some 200%N ->
    accepts proxy host port reply [http_connect_request host port (credentials proxy)]
| accepts_socks4 request v rest :
    px_kind proxy = Socks4 -> socks4_request host port (default [] (px_username proxy)) = Ok request -> length rest = 6 ->
    accepts proxy host port ([v; x5a] ++ rest) [request]
| accepts_socks5 method reply auth request v atyp bound bound_port :
    px_kind proxy = Socks5 -> socks5_auth proxy method reply auth -> socks5_connect_request host port = Ok request ->
    bound_address atyp bound -> length bound_port = 2 ->
    accepts proxy host port ([x05; method] ++ reply ++ [x05; x00; v; atyp] ++ bound ++ bound_port)
      ([socks5_greeting (bool_decide (is_Some (credentials proxy)))] ++ auth ++ [request]).

(** ** The handshakes *)

Lemma u8_at_0 b l n : (u8_at (b :: l) 0 =? n)%N = true <-> Byte.to_N b = n.
Proof. apply N.eqb_eq. Qed.
Lemma u8_at_1 b c l n : (u8_at (b :: c :: l) 1 =? n)%N = true <-> Byte.to_N c = n.
Proof. apply N.eqb_eq. Qed.

Lemma byte_is b c : Byte.to_N b = Byte.to_N c -> b = c.
Proof. apply (inj Byte.to_N). Qed.

(** the length of the address, with what is read to know it *)
Inductive address_length : byte -> nat -> bytes -> Prop :=
| length_ipv4 : address_length x01 4 []
| length_ipv6 : address_length x04 16 []
| length_name n : address_length x03 (N.to_nat (Byte.to_N n)) [n].

Lemma bound_address_length atyp bound :
  bound_address atyp bound <-> exists n reply a, address_length atyp n reply /\ length a = n /\ bound = reply ++ a.
Proof.
  split.
  - destruct 1 as [a Hl|a Hl|n a Hl]; eexists _, _, a; split_and!; [by constructor|done|done|by constructor|done|done|by constructor|done|done].
  - intros (n & reply & a & H & Hl & ->). destruct H; by constructor.
Qed.

Lemma runs_bound_length atyp : runs (bound_length atyp) (fun n reply sent => address_length atyp n reply /\ sent = []).
Proof.
  destruct (decide (atyp = x01)) as [->|H1]; [|destruct (decide (atyp = x04)) as [->|H4]; [|destruct (decide (atyp = x03)) as [->|H3]]].
  - eapply runs_iff; [apply runs_ret|]. intros n reply sent. split.
    + intros (-> & -> & ->). by split; [constructor|].
    + intros [H ->]. by inversion H.
  - eapply runs_iff; [apply runs_ret|]. intros n reply sent. split.
    + intros (-> & -> & ->). by split; [constructor|].
    + intros [H ->]. by inversion H.
  - eapply runs_iff; [cbn [bound_length]; run|]. intros k reply sent. split.
    + intros (c & ? & ? & ? & ? & -> & -> & (-> & Hc & ->) & (-> & -> & ->)). destruct c as [|n [|]]; [done| |done]. by split; [constructor|].
    + intros [H ->]. inversion H as [| |n]; subst. exists [n], [n], [], [], []. unfold D_read, D_ret, u8_at. done.
  - assert (bound_length atyp = throw ProxyFailed) as -> by (destruct atyp; done). intros s a s'. split; [done|].
    intros (? & ? & (H & _) & _). by inversion H.
Qed.

Lemma runs_socks5_authenticate proxy method :
  runs (socks5_authenticate (credentials proxy) method) (fun _ reply sent => socks5_auth proxy method reply sent).
Proof.
  destruct (decide (method = x00)) as [->|H0]; [|destruct (decide (method = x02)) as [->|H2]].
  - eapply runs_iff; [apply (runs_ret tt)|]. intros [] reply sent. split.
    + intros (_ & -> & ->). constructor.
    + intros H. by inversion H.
  - cbn [socks5_authenticate]. destruct (credentials proxy) as [[user pass]|] eqn:Ec.
    + eapply runs_iff; [unfold proxy_io; run|]. intros [] reply sent. split.
      * intros (auth & ? & ? & ? & ? & -> & -> & (Ha & -> & ->) & [] & ? & ? & ? & ? & -> & -> & [-> ->] & st & ? & ? & ? & ? & -> & -> & (-> & Hl & ->) & Hg & -> & ->).
        destruct st as [|v [|st [|]]]; try done. apply u8_at_1, (byte_is st x00) in Hg as ->. by eapply socks5_password.
      * intros H. inversion H as [|user' pass' auth v Hc Ha]; subst. rewrite Ec in Hc. injection Hc as <- <-.
        exists auth, [], [], [v; x00], [auth]. split_and!; [done..|]. exists tt, [], [auth], [v; x00], []. split_and!; [done..|].
        exists [v; x00], [v; x00], [], [], []. done.
    + intros s a s'. split; [done|]. intros (? & ? & H & _). inversion H; congruence.
  - assert (socks5_authenticate (credentials proxy) method = throw ProxyFailed) as ->
      by (destruct method; try done; by destruct (credentials proxy) as [[]|]).
    intros s a s'. split; [done|]. intros (? & ? & H & _). by inversion H.
Qed.

Lemma runs_socks5 proxy host port : px_kind proxy = Socks5 -> runs (socks5_dial proxy host port) (fun _ reply sent => accepts proxy host port reply sent).
Proof.
  intros Hk.
  eapply runs_iff; [unfold socks5_dial, proxy_io; repeat first [apply runs_socks5_authenticate|apply runs_bound_length
    |apply runs_write|apply runs_read|apply (runs_ret tt)|apply runs_guard|apply runs_pure|apply runs_err_into|eapply runs_bind; [|intros ?]]|].
  intros [] reply sent. split.
  - intros H. undialogue.
    match goal with H : address_length _ _ _ /\ _ |- _ => destruct H as [Hb ->] end.
    match goal with H : socks5_auth _ (default _ (?c !! 1)) _ _, Hr : address_length (default _ (?hd !! 3)) _ _ |- _ =>
      destruct c as [|v1 [|method [|]]]; [done|done| |done]; destruct hd as [|v2 [|status [|v3 [|atyp [|]]]]]; [done|done|done|done| |done] end.
    repeat match goal with H : (u8_at _ 0 =? _)%N = true |- _ => apply u8_at_0, (byte_is _ x05) in H as -> end.
    match goal with H : (u8_at _ 1 =? _)%N = true |- _ => apply u8_at_1, (byte_is _ x00) in H as -> end.
    simpl in Hb. simpl. rewrite !app_nil_r. match goal with H : length ?p = 2 |- _ => rewrite (app_assoc _ _ p) end.
    apply (accepts_socks5 proxy host port method _ _ _ v3 atyp); try done. apply bound_address_length. eauto 10.
  - intros H. inversion H as [| |method r auth request v atyp bound bp Hk' Ha Hr Hb Hp]; [congruence..|]; subst.
    apply bound_address_length in Hb as (n & r1 & a & Hn & Hl & ->).
    rewrite <-(app_assoc r1). apply say, (hear _ _ [x05; method]); [done|]. apply check; [done|]. apply (D_bind_intro _ _ tt); [done|].
    eapply know; [done|]. apply say, (hear _ _ [x05; x00; v; atyp]); [done|]. apply check; [done|]. apply check; [done|].
    apply (D_bind_intro _ _ n tt r1 [] (a ++ bp) []); [done|]. apply hear; [done|]. by apply hear_last.
Qed.

Lemma runs_dial proxy host port : runs (dial_handshake proxy host port) (fun _ reply sent => accepts proxy host port reply sent).
Proof.
  unfold dial_handshake. apply runs_err_into. destruct (px_kind proxy) eqn:Hk.
  - eapply runs_iff; [unfold http_handshake; eapply runs_bind; [run|intros ?; eapply runs_bind; [apply runs_http_reply|intros ?; run]]|].
    intros [] reply sent. split.
    + intros (? & ? & ? & ? & ? & -> & -> & [-> ->] & r & ? & ? & ? & ? & -> & -> & (-> & Hr & ->) & (Hs%bool_decide_eq_true & -> & ->)).
      simpl. rewrite app_nil_r. by constructor.
    + intros H. inversion H; [|congruence..]; subst. exists tt, [], [http_connect_request host port (credentials proxy)], reply, []. split_and!; [done..|].
      exists reply, reply, [], [], []. rewrite app_nil_r. split_and!; try done. by split; [apply bool_decide_eq_true|].
  - eapply runs_iff; [unfold socks4_handshake, proxy_io; run|]. intros [] reply sent. split.
    + intros (request & ? & ? & ? & ? & -> & -> & (Ha & -> & ->) & [] & ? & ? & ? & ? & -> & -> & [-> ->] & r & ? & ? & ? & ? & -> & -> & (-> & Hl & ->) & Hg & -> & ->).
      destruct r as [|v [|c rest]]; try done. apply u8_at_1, (byte_is c x5a) in Hg as ->. simpl. rewrite app_nil_r. constructor; [done..|]. simpl in Hl. lia.
    + intros H. inversion H as [|request v rest Hk' Hr Hl|]; [congruence| |congruence]; subst.
      exists request, [], [], ([v; x5a] ++ rest), [request]. split_and!; [done..|]. exists tt, [], [request], ([v; x5a] ++ rest), []. split_and!; [done..|].
      exists ([v; x5a] ++ rest), ([v; x5a] ++ rest), [], [], []. rewrite app_nil_r. unfold D_read. split_and!; try done. simpl. lia.
  - by apply runs_socks5.
Qed.

