(* ===== verification/SshSocks.v ===== *)
(** * SOCKS5 between the two ends (theory of [SshProxy])

    Texts of addresses are read back from what is printed, and the other way round; what the
    server of a dynamic forward accepts; and that it accepts what the client of a SOCKS5
    proxy asks for. *)

From Stdlib Require Import Strings.String Strings.Byte NArith ZArith Lia.
From stdpp Require Import base gmap sets list strings sorting countable.
From S2P Require Import Prelude Bytes AutoOutput SshConnect SshProxy SshProxyThy.

Local Open Scope nat_scope.

(** ** Texts of addresses *)

Lemma to_digit_dec b d : to_digit 10 b = Some d -> b = dec_digit d /\ (d < 10)%N.
Proof. destruct b; vm_compute; intros H; by inversion H. Qed.

Lemma read_digits_dec acc count l n count' rest :
  read_digits 10 acc count l = (n, count', rest) ->
  exists ds, Forall (fun d => (d < 10)%N) ds /\ l = (dec_digit <$> ds) ++ rest /\ count' = count + length ds /\
    n = foldl (fun acc d => acc * 10 + d)%N acc ds.
Proof.
  revert acc count. induction l as [|b l IH]; intros acc count; cbn [read_digits].
  - intros [= <- <- <-]. exists []. simpl. by rewrite Nat.add_0_r.
  - destruct (to_digit 10 b) as [d|] eqn:Hd.
    + intros (ds & Hf & -> & -> & ->)%IH. apply to_digit_dec in Hd as [-> Hd]. exists (d :: ds). simpl. split_and!; [by constructor|done|lia|done].
    + intros [= <- <- <-]. exists []. simpl. by rewrite Nat.add_0_r.
Qed.

Definition digits : list N := N.of_nat <$> seq 0 10.

(** the numbers of at most three digits, by evaluation *)
Lemma print_three :
  forallb (fun a => forallb (fun b => forallb (fun c =>
    bool_decide (a = 0%N \/ print_usize (a * 100 + b * 10 + c) = dec_digit <$> [a; b; c])) digits) digits) digits = true /\
  forallb (fun a => forallb (fun b => bool_decide (a = 0%N \/ print_usize (a * 10 + b) = dec_digit <$> [a; b])) digits) digits = true /\
  forallb (fun a => bool_decide (print_usize a = dec_digit <$> [a])) digits = true.
Proof. vm_compute. done. Qed.

Lemma forallb_digits f d : forallb f digits = true -> (d < 10)%N -> f d = true.
Proof.
  rewrite forallb_forall. intros H Hd. apply H, list_elem_of_In, list_elem_of_fmap. exists (N.to_nat d).
  split; [by rewrite N2Nat.id|]. apply elem_of_seq. lia.
Qed.

Lemma dec_digit_zero (a : N) : (a < 10)%N -> bool_decide (Some (dec_digit a) = Some x30) = bool_decide (a = 0%N).
Proof. intros Ha. destruct a as [|p]; [done|]. do 4 (destruct p; try done; try lia). Qed.

Lemma print_read_octet l n rest : read_number 10 3 false 255 l = Some (n, rest) -> l = print_usize n ++ rest.
Proof.
  unfold read_number. destruct (read_digits 10 0 0 l) as [[n' count] rest'] eqn:E.
  apply read_digits_dec in E as (ds & Hf & -> & -> & ->). destruct print_three as (P3 & P2 & P1).
  destruct ds as [|a [|b [|c [|]]]]; try done; rewrite ?list.Forall_cons in Hf; destruct_and?; cbn [length Nat.add Nat.ltb Nat.leb Nat.eqb orb andb negb foldl fmap list_fmap app head] in *.
  - destruct (_ || _); [done|]. intros [= <- <-]. rewrite N.add_0_l. apply (forallb_digits _ a), bool_decide_eq_true in P1 as ->; done.
  - rewrite dec_digit_zero by done. case_bool_decide; [done|]. destruct (_ || _); [done|]. intros [= <- <-]. rewrite N.add_0_l.
    apply (forallb_digits _ a) in P2; [|done]. apply (forallb_digits _ b), bool_decide_eq_true in P2 as [->| ->]; done.
  - rewrite dec_digit_zero by done. case_bool_decide; [done|]. destruct (_ || _); [done|]. intros [= <- <-]. rewrite N.add_0_l.
    apply (forallb_digits _ a) in P3; [|done]. apply (forallb_digits _ b) in P3; [|done].
    apply (forallb_digits _ c), bool_decide_eq_true in P3 as [->|E]; [done| |done].
    replace ((a * 10 + b) * 10 + c)%N with (a * 100 + b * 10 + c)%N by lia. by rewrite E.
Qed.


Lemma read_number_max radix digits zero max l n rest : read_number radix digits zero max l = Some (n, rest) -> (n <= max)%N.
Proof.
  unfold read_number. destruct (read_digits radix 0 0 l) as [[n' count] rest']. destruct (_ || (max <? n')%N) eqn:E; [done|].
  intros [= <- <-]. apply orb_false_iff in E as [_ E]. by apply N.ltb_ge in E.
Qed.

Lemma read_octet_text index l a rest :
  read_octet index l = Some (a, rest) -> l = (if index =? 0 then [] else [x2e]) ++ print_usize (Byte.to_N a) ++ rest.
Proof.
  unfold read_octet. intros ([n l'] & H & [= <- <-])%bind_Some.
  assert (Hn : forall l, read_number 10 3 false 255 l = Some (n, l') -> l = print_usize (Byte.to_N (byte_of_N n)) ++ l').
  { intros k Hk. pose proof (read_number_max _ _ _ _ _ _ _ Hk). rewrite to_N_byte_of_N, N.mod_small by lia. by apply print_read_octet. }
  destruct index as [|index]; simpl in H; [by apply Hn|]. apply bind_Some in H as (k & Hk & H). apply Hn in H as ->.
  destruct l as [|b l]; [done|]. simpl in Hk. case_bool_decide; [|done]. by injection Hk as ->; subst.
Qed.

Lemma read_ipv4_text l ip rest : read_ipv4_addr l = Some (ip, rest) -> l = print_ipv4 ip ++ rest /\ length ip = 4.
Proof.
  unfold read_ipv4_addr.
  intros ([a la] & ->%read_octet_text & ([b lb] & ->%read_octet_text & ([c lc] & ->%read_octet_text & ([d ld] & ->%read_octet_text & [= <- <-])%bind_Some)%bind_Some)%bind_Some)%bind_Some.
  split; [|done]. unfold print_ipv4. cbn [fmap list_fmap join Nat.eqb]. by rewrite <-!app_assoc.
Qed.

Lemma parse_ipv4_text l ip : parse_ipv4 l = Some ip -> l = print_ipv4 ip /\ length ip = 4.
Proof.
  unfold parse_ipv4. destruct (15 <? length l); [done|]. intros ([ip' rest] & H & Hr)%bind_Some. destruct rest; [|done]. injection Hr as ->.
  apply read_ipv4_text in H as [-> Hl]. by rewrite app_nil_r.
Qed.

(** *** The text of an IPv6 address *)

Lemma ipv4_has_dot l ip rest : read_ipv4_addr l = Some (ip, rest) -> x2e ∈ l.
Proof.
  intros [-> Hl]%read_ipv4_text. destruct ip as [|a [|b ip]]; try done. unfold print_ipv4.
  destruct ip; cbn [fmap list_fmap join]; set_solver.
Qed.

Lemma to_digit_hex n : to_digit 16 (hex_digit n) = Some (n mod 16)%N /\ hex_digit n <> x2e.
Proof.
  unfold hex_digit. assert (Hm : (n mod 16 < 16)%N) by by apply N.mod_lt.
  destruct (n mod 16)%N as [|p]; [done|]. do 5 (destruct p; try done; try lia).
Qed.

Lemma read_print_hex fuel n acc count rest :
  (n < 16 ^ N.of_nat fuel)%N -> fuel <> 0 ->
  exists k, k <= fuel /\ k <> 0 /\
    read_digits 16 acc count (print_hex fuel n ++ rest) = read_digits 16 (acc * 16 ^ N.of_nat k + n) (count + k) rest.
Proof.
  revert n rest. induction fuel as [|fuel IH]; intros n rest Hn Hf; [done|]. cbn [print_hex].
  destruct (N.ltb_spec n 16).
  - exists 1. split_and!; [lia|done|]. cbn [app read_digits]. rewrite (proj1 (to_digit_hex n)), N.mod_small by done.
    f_equal; simpl; lia.
  - assert (Hd : (n / 16 < 16 ^ N.of_nat fuel)%N).
    { apply N.Div0.div_lt_upper_bound. by rewrite <-N.pow_succ_r', <-Nat2N.inj_succ. }
    assert (fuel <> 0) by (intros ->; simpl in Hn; lia).
    destruct (IH (n / 16)%N (hex_digit n :: rest)) as (k & Hk & Hk0 & E); [done..|]. exists (S k). split_and!; [lia|done|].
    rewrite <-app_assoc. cbn [app]. rewrite E. cbn [read_digits]. rewrite (proj1 (to_digit_hex n)).
    pose proof (N.div_mod n 16 ltac:(done)). rewrite Nat2N.inj_succ, N.pow_succ_r'. f_equal; lia.
Qed.

Lemma print_hex_no_dot fuel n : x2e ∉ print_hex fuel n.
Proof.
  revert n. induction fuel as [|fuel IH]; intros n; cbn [print_hex]; [set_solver|].
  pose proof (proj2 (to_digit_hex n)). destruct (_ <? _)%N; set_solver.
Qed.

Lemma join_no_dot l : x2e ∉ join (lit ":") (print_hex 4 <$> l).
Proof.
  induction l as [|x l IH]; [set_solver|]. pose proof (print_hex_no_dot 4 x).
  destruct l; cbn [fmap list_fmap join] in *; [done|]. set_solver.
Qed.

Lemma read_group n rest :
  (n < 65536)%N -> (rest = [] \/ exists l, rest = x3a :: l) -> read_number 16 4 true 65535 (print_hex 4 n ++ rest) = Some (n, rest).
Proof.
  intros Hn Hr. unfold read_number. destruct (read_print_hex 4 n 0 0 rest) as (k & Hk & Hk0 & ->); [done|done|].
  assert (E : read_digits 16 (0 * 16 ^ N.of_nat k + n) (0 + k) rest = (n, k, rest)) by (by destruct Hr as [->|[l ->]]).
  rewrite E. rewrite (proj2 (Nat.ltb_ge 4 k)), (proj2 (Nat.eqb_neq k 0)), (proj2 (N.ltb_ge 65535 n)) by lia. done.
Qed.

Definition group_sep (i : nat) : bytes := if i =? 0 then [] else [x3a].

Lemma read_groups_text segs : forall i,
  Forall (fun n => (n < 65536)%N) segs ->
  read_groups (length segs) i (match segs with [] => [] | _ => group_sep i ++ join (lit ":") (print_hex 4 <$> segs) end) =
    (concat (u16_be <$> segs), false, []).
Proof.
  induction segs as [|n segs IH]; intros i Hf; [done|]. apply list.Forall_cons in Hf as [Hn Hf].
  set (rest := match segs with [] => [] | _ => group_sep (S i) ++ join (lit ":") (print_hex 4 <$> segs) end).
  assert (Htext : join (lit ":") (print_hex 4 <$> n :: segs) = print_hex 4 n ++ rest).
  { unfold rest. destruct segs; [by rewrite app_nil_r|done]. }
  assert (Hrest : rest = [] \/ exists l, rest = x3a :: l) by (unfold rest; destruct segs; [by left|right; by eexists]).
  rewrite Htext. cbn [length read_groups].
  assert (Hsep : forall A (inner : bytes -> option A) l, read_separator x3a i inner (group_sep i ++ l) = inner l).
  { intros A inner l. destruct i; [done|]. simpl. done. }
  rewrite !Hsep, (read_group _ _ Hn Hrest).
  assert (Hdot : x2e ∉ print_hex 4 n ++ rest).
  { rewrite <-Htext. apply join_no_dot. }
  destruct (read_ipv4_addr (print_hex 4 n ++ rest)) as [[ip r]|] eqn:E4; [by apply ipv4_has_dot in E4|].
  assert ((if 0 <? length segs then None else None) = @None (bytes * bytes)) as -> by by destruct (0 <? _).
  unfold rest. rewrite IH by done. done.
Qed.

Lemma segments_spec ip k :
  length ip = k + k -> length (segments ip) = k /\ concat (u16_be <$> segments ip) = ip /\ Forall (fun n => (n < 65536)%N) (segments ip).
Proof.
  revert ip. induction k as [|k IH]; intros ip Hl; [by destruct ip|].
  destruct ip as [|a [|b ip]]; [done|simpl in Hl; lia|]. cbn [segments]. destruct (IH ip) as (H1 & H2 & H3); [simpl in Hl; lia|].
  split_and!; [by rewrite <-H1| |].
  - cbn [fmap list_fmap concat]. fold (fmap u16_be (segments ip)). rewrite H2. change (u16_be (be_decode [a; b]) ++ ip = [a; b] ++ ip). f_equal. exact (be_encode_decode [a; b]).
  - constructor; [|done]. exact (be_decode_bound [a; b]).
Qed.

Lemma parse_print_ipv6 ip : length ip = 16 -> parse_ipv6 (print_ipv6 ip) = Some ip /\ parse_ipv4 (print_ipv6 ip) = None.
Proof.
  intros Hl. destruct (segments_spec ip 8 Hl) as (H8 & Hip & Hf). pose proof (read_groups_text _ 0 Hf) as H. rewrite H8, Hip in H.
  unfold print_ipv6. split.
  - destruct (segments ip) as [|n segs]; [done|]. change (group_sep 0 ++ ?l) with l in H. unfold parse_ipv6, read_ipv6_addr. rewrite H. by rewrite Hl.
  - unfold parse_ipv4. destruct (15 <? _); [done|].
    destruct (read_ipv4_addr (join (lit ":") (print_hex 4 <$> segments ip))) as [[ip' r]|] eqn:E; [|done].
    by apply ipv4_has_dot, join_no_dot in E.
Qed.

Lemma read_groups_length slots i l gs v4 rest :
  read_groups slots i l = (gs, v4, rest) -> exists k, length gs = k + k /\ k <= slots.
Proof.
  revert i l gs v4 rest. induction slots as [|more IH]; intros i l gs v4 rest; cbn [read_groups].
  - intros [= <- <- <-]. by exists 0.
  - destruct (if 0 <? more then read_separator x3a i read_ipv4_addr l else None) as [[ip r]|] eqn:E4.
    + intros [= <- <- <-]. destruct (Nat.ltb_spec 0 more); [|done]. exists 2. split; [|lia].
      destruct i; simpl in E4; [by apply read_ipv4_text in E4 as [_ ->]|].
      apply bind_Some in E4 as (l' & _ & E4). by apply read_ipv4_text in E4 as [_ ->].
    + destruct (read_separator x3a i (read_number 16 4 true 65535) l) as [[g r]|].
      * destruct (read_groups more (S i) r) as [[gs' v4'] r'] eqn:E. intros [= <- <- <-].
        apply IH in E as (k & Hk & Hle). exists (S k). simpl. lia.
      * intros [= <- <- <-]. exists 0. simpl. lia.
Qed.

Lemma parse_ipv6_length l ip : parse_ipv6 l = Some ip -> length ip = 16.
Proof.
  unfold parse_ipv6, read_ipv6_addr. intros ([ip' r] & H & Hr)%bind_Some. destruct r; [|done]. injection Hr as ->. revert H.
  destruct (read_groups 8 0 l) as [[hd v4] l1] eqn:E1. destruct (Nat.eqb_spec (length hd) 16); [by intros [= <- _]|].
  destruct v4; [done|]. intros (l2 & _ & (l3 & _ & H)%bind_Some)%bind_Some. revert H.
  destruct (read_groups (8 - (length hd / 2 + 1)) 0 l3) as [[tl v4] l4] eqn:E2. intros [= <- _].
  apply read_groups_length in E1 as (k1 & Hk1 & Hle1). apply read_groups_length in E2 as (k2 & Hk2 & Hle2).
  assert (Hh : length hd / 2 = k1) by (rewrite Hk1; replace (k1 + k1) with (k1 * 2) by lia; by apply Nat.div_mul).
  rewrite Hh in Hle2. rewrite !length_app, length_replicate. lia.
Qed.

(** ** The server of a dynamic forward *)

Lemma runs_unless (c : bool) (m : IO unit) : (forall s s' : Stream, m s <> (Ok tt, s')) -> runs (if c then (mret tt : IO unit) else m) (D_if c).
Proof.
  intros Hm. destruct c.
  - eapply runs_iff; [apply (runs_ret tt)|]. intros [] reply sent. unfold D_ret, D_if. naive_solver.
  - intros s [] s'. split; [intros H; by apply Hm in H|]. by intros (? & ? & [? _] & _).
Qed.

(** the destination in a request: its type, the host read from it, its bytes *)
Inductive destination : byte -> bytes -> bytes -> Prop :=
| dest_ipv4 a : length a = 4 -> destination x01 (print_ipv4 a) a
| dest_name n name :
    n <> x00 -> length name = N.to_nat (Byte.to_N n) -> (from_utf8 name).2 = UValid -> destination x03 name (n :: name)
| dest_ipv6 a : length a = 16 -> destination x04 (print_ipv6 a) a.

Lemma runs_socks5_host atyp : runs (socks5_host atyp) (fun host reply sent => destination atyp host reply /\ sent = []).
Proof.
  destruct (decide (atyp = x01)) as [->|H1]; [|destruct (decide (atyp = x03)) as [->|H3]; [|destruct (decide (atyp = x04)) as [->|H4]]].
  - eapply runs_iff; [cbn [socks5_host]; run|]. intros host reply sent. split.
    + intros H. undialogue. rewrite app_nil_r. by split; [constructor|].
    + intros [H ->]. inversion H; subst. by apply hear_last.
  - eapply runs_iff; [cbn [socks5_host]; run|]. intros host reply sent. split.
    + intros H. undialogue. rewrite !app_nil_r. match goal with H : length ?c = 1 |- _ => destruct c as [|n [|]]; [done| |done] end.
      split; [|done]. constructor.
      * intros ->. done.
      * done.
      * cbn [app]. match goal with H : context [from_utf8 ?h] |- _ => revert H; by destruct (from_utf8 h) as [? []] end.
    + intros [H ->]. inversion H as [|n name Hn Hl Hu|]; subst. apply (hear _ _ [n]); [done|]. apply check.
      { apply negb_true_iff, N.eqb_neq. intros E. apply Hn, byte_is, E. }
      apply hear_last; [done|]. apply check; [|done]. by destruct (from_utf8 host) as [? []].
  - eapply runs_iff; [cbn [socks5_host]; run|]. intros host reply sent. split.
    + intros H. undialogue. rewrite app_nil_r. by split; [constructor|].
    + intros [H ->]. inversion H; subst. by apply hear_last.
  - assert (socks5_host atyp = throw Socks) as -> by (destruct atyp; done). intros s a s'. split; [done|].
    intros (? & ? & (H & _) & _). by inversion H.
Qed.

(** what a client sends to be served, and is answered *)
Inductive served : bytes * N -> bytes -> list bytes -> Prop :=
| served_connect n methods v atyp host addr port :
    x00 ∈ methods -> length methods = N.to_nat (Byte.to_N n) -> destination atyp host addr -> length port = 2 ->
    served (host, be_decode port) ([x05; n] ++ methods ++ [x05; x01; v; atyp] ++ addr ++ port) [[x05; x00]; socks_success].

Lemma runs_serve : runs socks5_serve served.
Proof.
  eapply runs_iff; [unfold socks5_serve; repeat first [apply runs_socks5_host|apply runs_write|apply runs_read|apply runs_ret|apply runs_guard
    |apply runs_unless|eapply runs_bind; [|intros ?]]; intros s s'; unfold mbind, M_bind, write_all; by destruct (st_writes s)|].
  intros [host port] reply sent. split.
  - intros H. undialogue.
    match goal with H : destination _ _ _ /\ _ |- _ => destruct H as [Hd ->] end.
    match goal with H : destination (default _ (?r !! 3)) _ _, H' : length ?m = N.to_nat (u8_at ?c 1) |- _ =>
      destruct c as [|v1 [|n [|]]]; [done|done| |done]; destruct r as [|v2 [|cmd [|v3 [|atyp [|]]]]]; [done|done|done|done| |done] end.
    match goal with H : (_ && _) = true |- _ => apply andb_true_iff in H as [Hv2%u8_at_0 Hcmd%u8_at_1] end.
    match goal with H : (u8_at _ 0 =? _)%N = true |- _ => apply u8_at_0, (byte_is _ x05) in H as -> end.
    apply (byte_is _ x05) in Hv2 as ->. apply (byte_is _ x01) in Hcmd as ->.
    match goal with H : bool_decide _ = true |- _ => apply bool_decide_eq_true in H end.
    simpl. rewrite !app_nil_r. by apply served_connect.
  - intros H. inversion H as [n methods v atyp h addr p Hin Hl Hd Hp]; subst. apply (hear _ _ [x05; n]); [done|]. apply check; [done|]. apply check.
    { apply negb_true_iff, N.eqb_neq. intros E. change (u8_at [x05; n] 1) with (Byte.to_N n) in E. rewrite E in Hl. destruct methods; [set_solver|done]. }
    apply hear; [done|]. apply check; [by apply bool_decide_eq_true|]. apply say, (hear _ _ [x05; x01; v; atyp]); [done|]. apply check; [done|].
    apply (D_bind_intro _ _ host _ addr [] p [socks_success]); [done|]. apply hear_last; [done|]. by apply say.
Qed.

(** ** Both ends *)

(** the request of a SOCKS5 client, as it is read back *)
Lemma request_destination host port request :
  socks5_connect_request host port = Ok request -> host <> [] -> (from_utf8 host).2 = UValid ->
  exists atyp addr host', request = [x05; x01; x00; atyp] ++ addr ++ u16_be port /\ destination atyp host' addr /\
    parse_ipv4 host' = parse_ipv4 host /\ parse_ipv6 host' = parse_ipv6 host /\ (parse_ipv6 host = None -> host' = host).
Proof.
  unfold socks5_connect_request. intros H Hne Hu.
  destruct (parse_ipv4 host) as [ip|] eqn:E4; [|destruct (parse_ipv6 host) as [ip|] eqn:E6; [|destruct (N.ltb_spec 255 (len host)); [done|]]];
    injection H as <-.
  - apply parse_ipv4_text in E4 as E4'. destruct E4' as [-> Hl]. exists x01, ip, (print_ipv4 ip). split_and!; try done. by constructor.
  - apply parse_ipv6_length in E6 as Hl. destruct (parse_print_ipv6 ip Hl) as [P6 P4].
    exists x04, ip, (print_ipv6 ip). split_and!; try done. by constructor.
  - exists x03, (byte_of_N (len host) :: host), host. split_and!; try done. constructor; [|unfold len|done].
    + intros E%(f_equal Byte.to_N). rewrite to_N_byte_of_N, N.mod_small in E by lia. unfold len in E. by destruct host.
    + rewrite to_N_byte_of_N, N.mod_small by (unfold len in *; lia). by rewrite Nat2N.id.
Qed.

(** The two ends of SOCKS5 understand each other. For a host that can be asked for, the
    client of the proxy and the server of a dynamic forward, connected to each other, both
    succeed, each reading all the other wrote and nothing beyond: the server is asked for
    the port and for the host, or for the same IPv6 address written out. *)
Theorem socks5_ends_agree proxy host port request later_client later_server w w' :
  px_kind proxy = Socks5 -> socks5_connect_request host port = Ok request ->
  host <> [] -> (from_utf8 host).2 = UValid -> (port <= u16_max)%N ->
  let greeting := socks5_greeting (bool_decide (is_Some (credentials proxy))) in
  exists host',
    socks5_serve (mkStream (greeting ++ request ++ later_client) [] (2 + w)) =
      (Ok (host', port), mkStream later_client ([x05; x00] ++ socks_success) w) /\
    dial_handshake proxy host port (mkStream ([x05; x00] ++ socks_success ++ later_server) [] (2 + w')) =
      (Ok tt, mkStream later_server (greeting ++ request) w') /\
    parse_ipv4 host' = parse_ipv4 host /\ parse_ipv6 host' = parse_ipv6 host /\ (parse_ipv6 host = None -> host' = host).
Proof.
  intros Hk Hr Hne Hu Hp greeting. destruct (request_destination _ _ _ Hr Hne Hu) as (atyp & addr & host' & -> & Hd & H4 & H6 & Hh).
  exists host'. split_and!; [..|done|done|done].
  - rewrite <-(u16_decode port Hp) at 2. apply runs_serve.
    exists (greeting ++ [x05; x01; x00; atyp] ++ addr ++ u16_be port), [[x05; x00]; socks_success]. split.
    + unfold greeting, socks5_greeting. destruct (bool_decide _); cbn [app].
      * by apply (served_connect x02 [x00; x02] x00 atyp host' addr (u16_be port)); [set_solver|..].
      * by apply (served_connect x01 [x00] x00 atyp host' addr (u16_be port)); [set_solver|..].
    + unfold exchanged. cbn [st_in st_out st_writes concat]. split_and!; [by rewrite <-!app_assoc|by rewrite app_nil_r|done].
  - apply (runs_dial proxy host port). exists ([x05; x00] ++ socks_success), ([greeting] ++ [] ++ [[x05; x01; x00; atyp] ++ addr ++ u16_be port]).
    split; [|unfold exchanged; cbn [st_in st_out st_writes concat app length]; by rewrite app_nil_r].
    apply (accepts_socks5 proxy host port x00 [] [] _ x00 x01 [x00; x00; x00; x00] [x00; x00]); try done; by constructor.
Qed.
