(* ===== verification/SshRuns.v ===== *)
(** * Connections on concrete hosts ([SshConnect], [SshProxy])

    A world in which the theorems are applied, and runs that show what the code does where
    its comments say otherwise. *)

From Stdlib Require Import Strings.String Strings.Byte NArith ZArith Lia.
From stdpp Require Import base gmap sets list strings sorting countable.
From S2P Require Import Prelude Bytes AutoOutput SshConnect SshConnectThy SshProxy SshProxyThy SshSocks.

Local Open Scope nat_scope.

Ltac by_eval := vm_compute; reflexivity.

(** keys that are their own encoding *)
#[export] Instance demo_keys : SshKeys := {|
  PublicKey := bytes;
  KeyData := bytes;
  pk_data k := k;
  Certificate := bytes;
  pk_from_openssh l := if bool_decide (l = []) then None else Some l;
  pk_to_openssh k := Some k;
  pk_is_rsa k := starts_with (lit "rsa") k;
  pk_fingerprint k := lit "SHA256:" ++ k;
  cert_from_openssh l := Some l;
  cert_key c := c;
  trim_line l := l
|}.

(** every host shows its own name as its key; [auth], [kbd]: what servers answer *)
Definition demo_world (init : gmap (bytes * N) bytes) (auth : AuthStep -> result TransportError AuthResult)
    (kbd : Log -> AuthStep -> KbdResponse) : World := {|
  w_get log host port := Ok (pins init log !! (host, port));
  w_put _ _ _ _ := Ok tt;
  w_dial _ _ _ _ := Ok tt;
  w_tunnel _ _ _ _ := Ok tt;
  w_connect _ _ host _ check :=
    mkHandshake _ (Some (ShownKey host)) (Some (match check (ShownKey host) with Ok true => Ok tt | _ => Err Russh end));
  w_auth _ _ step := auth step;
  w_kbd log _ step := Ok (kbd log step);
  w_ask _ _ _ fields := Ok (Some ((fun _ => lit "typed") <$> fields));
  w_agent_key _ id := Some (lit "rsa " ++ id);
  w_agent_certificate _ id := if bool_decide (id = lit "certified") then Some (lit "cert " ++ id) else None;
  w_system_agent _ := Ok [];
  w_auth_sock := None;
  w_canonical p := p
|}.

Lemma demo_checks_keys init auth kbd : checks_keys (demo_world init auth kbd).
Proof.
  intros log route host port check H. exists (@ShownKey demo_keys host). split; [done|]. simpl in H.
  destruct (check (@ShownKey demo_keys host)) as [[]|]; done.
Qed.

Lemma demo_store_backed init auth kbd : store_backed (demo_world init auth kbd) init.
Proof. intros log host port r [= <-]. done. Qed.

(** keys are accepted, a password leads to questions *)
Definition demo_auth (step : AuthStep) : result TransportError AuthResult :=
  match step with
  | SendPassword _ _ => Ok (Failure [MKeyboardInteractive] false)
  | _ => Ok Success
  end.
Definition hidden_field : PromptField := mkPrompt (lit "Password: ") false.
Definition demo_kbd (log : Log) (step : AuthStep) : KbdResponse :=
  match step with
  | KbdStart _ => KbdInfo [] [] [hidden_field]
  | _ => KbdSuccess
  end.
Definition demo_pins : gmap (bytes * N) bytes := {[(lit "jump", 22%N) := lit "jump"]}.
Definition world : World := demo_world demo_pins demo_auth demo_kbd.

(** a jump host with a key, its host key pinned, and a target with a password *)
Definition jump : ConnectOptions := mkConnect true (lit "jump") 22 (lit "ops") (AuthAgent (lit "k1")) false false None None false.
Definition target : ConnectOptions := mkConnect false (lit "db") 22 (lit "root") (AuthPassword (lit "secret")) true false None None false.

Definition demo_log : Log := (connect_through world [jump] target []).2.
Definition demo_client : SshClient := mkClient 7 [1] false.

Lemma demo_run : connect_through world [jump] target [] = (Ok demo_client, demo_log).
Proof. by_eval. Qed.

Lemma credentials_stay_with_their_host_witness :
  exists o, o ∈ [jump] ++ [target] /\ checked o (take 9 demo_log) 7 /\ belongs o 7 (take 9 demo_log) (SendPassword (lit "root") (lit "secret")).
Proof.
  apply (credentials_stay_with_their_host world [jump] target (Ok demo_client) demo_log (take 9 demo_log)
    (EvAuth 7 (SendPassword (lit "root") (lit "secret")) (Ok (Failure [MKeyboardInteractive] false))) (drop 10 demo_log)).
  - apply demo_checks_keys.
  - exact demo_run.
  - by_eval.
  - left. by eexists.
Defined.

Lemma chain_is_followed_witness :
  linked (first_route jump) ([jump] ++ [target]) [1; 7] demo_log /\ length (sc_hops demo_client) = 1 /\
  sc_agent_forward_requested demo_client = false.
Proof. exact (chain_is_followed world [jump] target demo_client demo_log (demo_checks_keys _ _ _) demo_run). Defined.


(** ** A login with a key only *)

Definition certified_login : ConnectOptions := mkConnect false (lit "db") 22 (lit "root") (AuthAgent (lit "certified")) true false None None true.
Definition refusing : World := demo_world demo_pins (fun _ => Ok (Failure [MPublicKey; MKeyboardInteractive] false)) demo_kbd.

Lemma demo_library_errors init auth kbd : (forall step, exists a, auth step = Ok a) -> library_errors (demo_world init auth kbd).
Proof.
  intros H. split; [|done]. intros log h step e He. simpl in He. destruct (H step) as [a Ha]. congruence.
Qed.

Lemma key_only_verdict_witness :
  (authenticate refusing 3 certified_login []).1 = Err KeyRefused /\
  exists k, (authenticate refusing 3 certified_login []).2 = [] ++ k /\ refusal 3 certified_login k.
Proof.
  assert (E : (authenticate refusing 3 certified_login []).1 = Err KeyRefused) by by_eval. split; [exact E|].
  destruct (key_only_verdict refusing 3 certified_login [] (authenticate refusing 3 certified_login []).1 (authenticate refusing 3 certified_login []).2) as (k & H1 & _ & H2 & _).
  - apply demo_library_errors. intros step. by eexists.
  - done.
  - done.
  - apply surjective_pairing.
  - exists k. split; [exact H1|exact (H2 E)].
Defined.

Lemma trusted_key_was_confirmed_witness :
  (trust_host_key world (lit "db") 22 (lit "SHA256:db") []).1 = Ok (lit "SHA256:db") /\
  exists hs, ((trust_host_key world (lit "db") 22 (lit "SHA256:db") []).2 = [] ++ [EvHandshake ByTcp (lit "db") 22 None hs] /\
      (forall got, (trust_host_key world (lit "db") 22 (lit "SHA256:db") []).1 <> Ok got)) \/
    exists key r', (trust_host_key world (lit "db") 22 (lit "SHA256:db") []).2 =
        [] ++ [EvHandshake ByTcp (lit "db") 22 None hs; EvPut (lit "db") 22 key r'] /\ shown_key hs key /\
      fingerprint_openssh key = lit "SHA256:db" /\
      (forall got, (trust_host_key world (lit "db") 22 (lit "SHA256:db") []).1 = Ok got -> got = lit "SHA256:db" /\ r' = Ok tt).
Proof.
  split; [by_eval|]. apply (trusted_key_was_confirmed world (lit "db") 22 (lit "SHA256:db") []); [apply demo_checks_keys|apply surjective_pairing].
Defined.

(** ** Proxies *)

Definition socks : ProxyOptions := mkProxy Socks5 (lit "proxy") 1080 (Some (lit "me")) (Some (lit "pw")).

Lemma socks5_ends_agree_witness : exists host',
  socks5_serve (mkStream (socks5_greeting true ++ [x05; x01; x00; x03; x02] ++ lit "db" ++ [x00; x16] ++ lit "SSH") [] (2 + 0)) =
    (Ok (host', 22%N), mkStream (lit "SSH") ([x05; x00] ++ socks_success) 0) /\ host' = lit "db".
Proof.
  destruct (socks5_ends_agree socks (lit "db") 22 ([x05; x01; x00; x03; x02] ++ lit "db" ++ [x00; x16]) (lit "SSH") [] 0 0)
    as (host' & H1 & _ & _ & _ & H2); [done|by_eval|done|by_eval|by vm_compute|].
  exists host'. split; [exact H1|]. apply H2. by_eval.
Defined.

(** a proxy that asks for the password, and one that sends the banner at once *)
Example proxy_password :
  dial_handshake socks (lit "db") 22 (mkStream ([x05; x02; x01; x00] ++ socks_success ++ lit "SSH-2.0") [] 9) =
    (Ok tt, mkStream (lit "SSH-2.0") ([x05; x02; x00; x02] ++ ([x01; x02] ++ lit "me" ++ [x02] ++ lit "pw") ++
       [x05; x01; x00; x03; x02] ++ lit "db" ++ [x00; x16]) 6).
Proof. by_eval. Qed.

Example http_tunnel :
  dial_handshake (mkProxy Http (lit "proxy") 3128 None (Some (lit "pw"))) (lit "::1") 22
    (mkStream (lit "HTTP/1.1 200 OK" ++ crlf ++ crlf ++ lit "SSH-2.0") [] 1) =
    (Ok tt, mkStream (lit "SSH-2.0") (lit "CONNECT [::1]:22 HTTP/1.1" ++ crlf ++ lit "Host: [::1]:22" ++ crlf ++
       lit "Proxy-Authorization: Basic OnB3" ++ crlf ++ crlf) 0).
Proof. by_eval. Qed.

(** ** Where the code does less than its comments say *)

(** the name of the destination is written into the request as it is: a line break in it adds
    lines of its own *)
Example destination_adds_headers :
  http_connect_request (lit "db HTTP/1.1" ++ crlf ++ lit "X-Smuggled: 1" ++ crlf ++ lit "X:") 22 None =
  lit "CONNECT db HTTP/1.1" ++ crlf ++ lit "X-Smuggled: 1" ++ crlf ++ lit "X::22 HTTP/1.1" ++ crlf ++
  lit "Host: db HTTP/1.1" ++ crlf ++ lit "X-Smuggled: 1" ++ crlf ++ lit "X::22" ++ crlf ++ crlf.
Proof. by_eval. Qed.

(** a server that asks [n] times, and then lets the user in *)
Definition asking (n : nat) : World :=
  demo_world demo_pins demo_auth (fun log step =>
    if length (List.filter (fun e => match e with EvKbd _ _ _ => true | _ => false end) log) <? n then KbdInfo [] [] [hidden_field] else KbdSuccess).

(** the answer to the eighth round of questions is not looked at: the server has let the user
    in, and the login fails *)
Example eighth_round_unread :
  (authenticate (asking 7) 1 target []).1 = Ok tt /\
  (authenticate (asking 8) 1 target []).1 = Err AuthFailed /\
  list.last (authenticate (asking 8) 1 target []).2 = Some (EvKbd 1 (KbdRespond [lit "typed"]) (Ok KbdSuccess)).
Proof. split_and!; by_eval. Qed.
